(* ===== verification/_CoqProject ===== *)
-Q . S2P
Prelude.v
RustStr.v
Lines.v
Json.v
Time.v
World.v
LedgerReplay.v
Paths.v
Ledger.v
LedgerProofs.v
LedgerSeed.v
LedgerUsage.v
LedgerFile.v
LedgerTheorems.v
LedgerInvariant.v
LedgerQueries.v
LedgerSim.v
LedgerWitnesses.v
Effects.v
Protocol.v
Slash.v
Journal.v
JournalProofs.v
JournalTheorems.v
JournalLives.v
Queue.v
QueueWorker.v
QueueProofs.v
QueueRecord.v
QueueDurable.v
QueueAdmission.v
Lease.v
LeaseHost.v
LeaseLogic.v
LeaseProofs.v
LeaseTheorems.v
LockDir.v
Sim.v
LeaseAlone.v
Revival.v
Recovery.v
QueueTheorems.v
Route.v
RouteProofs.v
RouteTheorems.v
Framing.v
FramingTheorems.v
Admission.v
AdmissionProofs.v
AdmissionTheorems.v
AdmissionWorker.v
Profile.v
ProfileProofs.v
State.v
Store.v
StoreProofs.v
Completion.v
Machine.v
Filed.v
Availability.v
StoreTheorems.v
Client.v
Git.v
Harvest.v
HarvestProofs.v
Delivery.v
Query.v
Init.v
Observer.v
ObserverProofs.v
Panics.v
ObserverTheorems.v
InitTheorems.v
Dispatch.v
Children.v
ChildrenProofs.v
ChildrenTheorems.v
ChildrenHost.v
Cli.v
Witnesses.v
