(* ===== verification/Prelude.v ===== *)
(** * Big Brother: a verification library for the repository-review service

    Big Brother watches git repositories and has every range of new commits
    reviewed by a conductor agent and its reviewer children.  This library
    models that service, the Rust code under
    [src/crates/pa-daemon/src/big_brother/] with the parts of [pa-daemon],
    [pa-core] and [pa-cli] it stands on, and proves what makes it trustworthy.

    ** The program

    - Enrollment ([init.rs], run by [big-brother init]) writes a review profile
      and seeds the branch's cursor.
    - The watch service ([observer.rs], run by [pa-daemon observer]) scans the
      enrolled repositories: it settles the range in flight, brings the work
      tree up to date ([git.rs]), admits a new head, wakes the conductor
      through the daemon ([client.rs]), supervises attempts that fail, and
      delivers completed records ([delivery.rs]).
    - The conductor, told how by its prompt ([prompt.rs]), dispatches one child
      per review layer ([dispatch.rs]); the service reads the outcome off its
      transcript ([harvest.rs]).
    - All durable facts are JSON documents of one directory per repository, kept
      by the state store ([state.rs]) under a directory lock
      ([platform/lock_dir.rs]); the query ([query.rs]) reports them.
    - The reviewer children are child sessions of the daemon.  Which session
      spawned which is recorded in the spawn ledger ([rlm_ledger.rs] with
      [replay.rs] and [legacy_registry.rs]), one append-only file per sessions
      directory that several processes share.  Which children a parent has
      now is its registry of child sessions ([rlm_children.rs] with [host.rs],
      [registry.rs], [lifecycle.rs] and [usage.rs]): it spawns, watches,
      bills, renames, collects and retires them.
    - A session file is hosted by at most one process: the session lease
      ([lease.rs]), a directory taken by an atomic rename under a guard.
    - Conductor and reviewers run in session workers.  A worker queues what it
      is told ([worker/queue.rs], [worker/input.rs], [queue_commands.rs] and
      the modules beside them), runs it turn by turn ([worker/turn.rs]) and
      checkpoints its queue in a recovery journal ([journal.rs]).
    - The supervisor sends commands to a worker over one connection with
      bounded traffic ([supervisor/routing.rs], [registry.rs],
      [backpressure.rs]), watches its process ([supervisor/supervision.rs]) and
      decides at a start which workers to relaunch
      ([supervisor/adoption.rs], [revival_gate.rs]).  The bytes between them are
      private frames ([daemon/framing.rs]).
    - Clients prompt a session through the supervisor and may take a prompt
      back; the supervisor and the worker each keep a registry of the prompts
      that are being admitted ([prompt_admission.rs]).

    ** The model

    Programs are functions [World -> result E A * World] ([World.M]): an error
    monad over an explicit world.  The world holds the file system, the clock's
    readings, the fault schedule, the outside ([Ext]: git, the daemon, HTTP
    servers) and the process's memory.  Every system call consults the fault
    schedule: it runs, fails with an I/O error (a write may leave torn content
    behind), or is where the process dies ([Killed]).  What is not in the
    repository is a parameter of the class [World.Env]: JSON text
    ([serde_json]), git, the daemon, HTTP, process liveness; [World.EnvOk]
    states the one law used, that JSON text written is read back.  [Sim.v]
    instantiates the class with concrete functions, so every definition runs
    by [vm_compute].

    Integers are [Z] with their width written out ([u32_wrapping_add],
    [u32_saturating_add], [u64_saturating_sub]); strings are byte strings with
    the UTF-8 aware functions of the Rust library; JSON numbers keep the range
    check of their Rust type.

    The spawn ledger has a model of its own ([Ledger.LM]): what matters there
    is one file at the level of bytes.  The state of a process is the file's
    bytes, its cached replay and whether it has seeded; a [Scene] gives the
    rest of the file system ([LedgerReplay.View], fixed during an operation),
    the lines other processes append before each of its system calls, and
    which calls fail, leave a torn write, or kill it.  SHA-256 and the text of
    floating-point numbers are parameters ([LedgerEnv]), floats are IEEE 754
    numbers ([spec_float]); [LedgerFile.JsonLines] states what the ledger uses
    of JSON text (one line, read back as written, nothing else reads a part of
    it), and [LedgerSim] is an instance.

    The session lease is about interleaving, so its functions are trees of
    system calls and atomic memory operations ([Lease.proc]); [LeaseHost] is
    the machine they share (directories, leases in memory, processes with pids
    that are reused) and runs any number of threads in any order, with calls
    that fail and processes that die between any two calls.  History fields
    that no call reads record when a guard was removed under a live thread
    ([h_robbed]) and when a release stopped waiting ([h_overrun]).  The class
    [Lease.Machine] gives UUIDs, pids and start identities;
    [LeaseProofs.MachineOk] states what is used of them.

    The journal is one file at the level of bytes again, in the state and
    error monad of [Effects]: a [JScene] says which system calls fail, stop
    half-way or kill the process and in which order hash maps are walked; a
    process life is a list of operations ([JournalLives.life]).  The worker is a
    state ([QueueWorker.WorkerState]) and a step function over events
    ([qstep]): a handler is cut where it gives up its lock, so that handlers,
    turn runner and checkpoint writers interleave; callers that wait are
    numbered, and their answers recorded.  The request plane is a step
    function over routes, pumps and connections ([Route.exec]); each route
    stands at one of its await points ([Route.pc]).  The admissions of a client
    connection are a step function too ([Admission.exec]): its commands are
    tasks cut at every lock and await, prompts travel on a wire that may lose
    or reorder them, and the workers are the class [Admission.PromptHost] with
    its laws [PromptHostOk], which [AdmissionWorker] proves of [QueueWorker].
    History fields that no step reads say what clients were told and on what
    ground ([dk_told]), and whose cancellation came too late
    ([dk_overtaken]).

    The registry of child sessions is shared by tasks: each function is a
    program ([Children.prog]) of atomic steps, one for every section under a
    lock and every question to the outside ([Children.ask]); [Children.exec]
    runs any number of tasks in any order, and a request may be dropped
    between two steps.  The world that answers is any function of the moment
    and the question.  Locks, claimed notices and names are held by tasks;
    history fields record the notices sent, the delete notifications, and the
    usage reports made and acknowledged.

    ** Files

    - [Prelude], [RustStr], [Lines], [Json], [Time], [World]: results, strings,
      UTF-8 and lines, JSON values and codecs ([Codec], [CodecOk]), timestamps
      ([util.rs]), the world with its frame logic ([keeps]).
    - The spawn ledger.  [LedgerReplay]: records, their parser, replay and the
      live-path resolver ([replay.rs], [canonical_session_path]); [Paths]: paths
      and their text.  [Ledger]: appending, seeding, the stat-guarded replay,
      tombstones, queries; [LedgerUsage]: the spend of deleted children.
      [LedgerProofs] refines replay by a fold over plain lists; [LedgerFile]
      shows what an append does to the file's records whatever interferes;
      [LedgerTheorems] the cache; [LedgerInvariant] the invariant of all
      histories; [LedgerQueries] tombstones and reads; [LedgerSeed] that
      seeding ends.  [LedgerSim], [LedgerWitnesses]: the concrete
      instance, runs and findings.
    - Session leases ([lease.rs]).  [Lease]: the functions; [LeaseHost]: the
      machine and the threads; [LeaseLogic]: the invariant, what each thread
      relies on and guarantees, and weakest preconditions of programs;
      [LeaseProofs]: every function keeps to the rules; [LeaseTheorems],
      [LeaseAlone]: the guarantees, runs, and the race the model showed.
    - The recovery journal ([journal.rs]).  [Effects]: the monad and its
      specifications; [Journal]: records, reading, every operation;
      [JournalProofs]: what a file of records and a torn tail says;
      [JournalTheorems]: what each operation writes under every scene;
      [JournalLives]: histories of processes, settling, quiet runs.
    - The session input queue.  [Slash]: slash commands; [Queue]: lanes,
      batches, snapshots, mutations; [QueueWorker]: the worker, its handlers and
      runner.  [QueueProofs]: waiting callers; [QueueRecord]: the runner's
      state and what is printed; [QueueDurable]: what the journal covers;
      [QueueAdmission]: prompt ids; [QueueTheorems]: the guarantees, and runs.
    - Supervision.  [Protocol]: daemon answers; [Revival]: descriptors, the
      revival gate, adoption, the watch loop; [Recovery]: the guarantees of
      journal and revival together, and runs.
    - The request plane.  [Route]; [RouteProofs]: its invariant;
      [RouteTheorems].  [Framing]: frames, their decoder and reader;
      [FramingTheorems].
    - Prompt admission.  [Admission]: the registry, the route of a prompt and
      the cancellation ladder; [AdmissionProofs]: the invariant, one kind of
      change at a time; [AdmissionTheorems]: every step keeps it, and the
      guarantees; [AdmissionWorker]: the session worker as the host, runs and
      findings.
    - Child sessions.  [Children]: records, steps, programs and tasks;
      [ChildrenProofs]: what a step needs and leaves (the locks, notices and
      knowledge of a task), and that every step keeps the registry's invariant;
      [ChildrenTheorems]: every program keeps to the rules, the guarantees,
      runs and findings; [ChildrenHost]: the registry as the host of the
      dispatch tool, one call at a time.
    - [LockDir] ([platform/lock_dir.rs]); [Sim], the concrete environment.
    - [Profile], [ProfileProofs] ([profile.rs], [find_git_repo_root]).
    - [State] (documents, errors, codecs) and [Store] (operations) model
      [state.rs].  [StoreProofs] gives each operation a pure specification and
      proves that the operation implements it under every fault schedule;
      [Completion] does so for [complete].  [Machine] proves the invariants of
      all worlds that interleaved operations, faults and restarts reach;
      [Filed] those of the record files; [Availability] that nothing but the
      surroundings makes an operation fail; [StoreTheorems] states the store's
      guarantees, crash recovery and mutual exclusion among them.
    - [Client], [Git], [Harvest] with [HarvestProofs], [Delivery],
      [Query], [Init] with [InitTheorems], [Dispatch]
      ([dispatch.rs], [prompt.rs]; the child sessions are the class
      [ChildHost] with its laws [ChildHostOk], which [ChildrenHost] proves of the
      registry when the supervisor keeps names), [Cli] (command lines).
    - [Observer] models [observer.rs].  [ObserverProofs] shows that a scan is a
      sequence of store operations ([evolves], [drives]) inside the repository's
      own directory ([home]); [Panics] that it returns; [ObserverTheorems]
      states the service's guarantees.
    - [Witnesses]: each property with hypotheses applied to a concrete run,
      and behaviours that differ from what the documents say.

    ** What the theorems show

    - Durability (C1, C2, C4, C11): a cursor is a seed or has its record on
      disk, in every reachable world and through any number of scans; a
      completion that died anywhere converges when repeated; branches follow
      the phase machine.
    - Refinement (C3): every store operation does what its specification
      computes or leaves the document untouched.
    - The lock (C36): it excludes.
    - The service (C10, C21, C35, C38): completion only on the admitted
      range's full harvest, supervision to the ceiling, no admission without a
      clean up-to-date work tree, and no panic.
    - Harvest (C23).
    - Session leases (C8, C12, C37): at most one live process holds a
      session in every interleaving in which no guard is robbed, a row is
      appended only under a lease still owned, an abandoned lease is taken
      over.
    - The spawn ledger (C33, C34, C39, C40): appends lose nothing under
      interference and crashes, live children have paths of their own in every
      history of one process at a time, a parent's read is the
      restriction of the full one, the spend rollup bills each child once.
    - Child sessions (C16 to C20): whatever tasks interleave, a child's
      terminal notice and its delete notification come once, its transcript's
      rows are billed once, a close that succeeded has retired every child, a
      deleted child stays gone with its usage acknowledged, and a retirement
      never panics.
    - The journal (C9, C31): what was acknowledged is read back, in every
      history of processes that fail and die.
    - The input queue (C5, C14, C15, C27): queued work outlives the process,
      every waiting caller is answered once, a cancelled prompt never runs, the
      worker's state is coherent.
    - Revival (C13, C24, C30, C32): a start relaunches interrupted work and
      nothing that was stopped, given up or taken over, and the watch loop is
      bounded.
    - The request plane (C6, C22, C25, C28, C29): a command reaches its worker
      at most once however often it is sent again, frames are read as they were
      written, a fenced worker gets no new command, traffic is bounded, and
      every route returns.
    - Prompt admission (C7, C26): supervisor, wire and workers together never
      deliver a prompt whose cancellation was confirmed in time, and every
      prompt under way keeps its record.
    - Plain theorems, without a number, state the rest: delivery and its
      retries, the daemon client, dispatch, enrollment, profiles, the answers
      of a harvest, what a turn takes and what a queue mutation changes, wakes, isolation of repositories,
      what the store answers, reclaim of a stale lock, refusal of a live
      lease, the git commands of a sync, the conclusion of a harvest,
      timestamps, the bounded buffer of the frame decoder and the frame cut
      short, replay against its specification, the cache, tombstones, that
      seeding ends.

    ** Bounds and fuel

    - [find_git_repo_root_fuel] takes the number of path components: each step
      drops one, so the walk ends before the fuel does.
    - [trim_end_matches_str_fuel] and [dec_len_fuel] take the length of the
      text and the number's binary logarithm.
    - [acquire_loop] has the ten attempts of the source.
    - [run_observer] takes the number of scans, as the service runs until it
      is killed; its theorems hold for every number.
    - Timestamps round-trip for four-digit years, from 1970 to 9999.
    - [Ledger.seed_walk] takes the number of roots and of lines of all files:
      each step but the roots' follows one more child named on some line
      ([LedgerSeed.seeding_ends]).
      [LedgerUsage.walk] takes twice the number of deleted paths: each is
      pushed and popped at most once per root ([usage_rollup_ends]).
    - [Lease.guard_loop] and [Lease.drain] take the number of rounds: with none
      left the thread waits for ever ([Spin]).  C8 and C12 hold for every
      number, so for every finite run; a fast wait ends after a hundred rounds,
      the other ones at a deadline that each round's sleep brings closer.
      C37 needs two rounds.
    - [Revival.watch_worker_owned] takes the list of what befalls the worker in
      each round, [QueueWorker.run_events], [Route.run] and
      [Admission.run_desk] the list of events: their theorems hold for every
      list.
    - The watchers of [Children] take the number of rounds and then wait for
      ever ([Children.Spin]): as for the leases, the theorems hold for every
      number.
    - [Framing.push_loop] takes the length of the buffer: every frame has more
      than eight bytes.

    ** What is not modelled

    - Log lines, the sleeps between scans and lock attempts, and the interval.
    - Durability below the process: a write that returned is on disk, and a
      rename is atomic.  File permissions and non-UTF-8 paths and output.
    - [read_dir] lists a directory's children in one fixed order; an entry that
      fails by itself is not modelled.
    - Deserializing a struct from a JSON array, which [serde] also accepts.
    - A partial line lost when a client read is cancelled by its timeout.
    - Other processes act through the lock directory and the files between the
      operations ([surroundings]), not in the middle of one; the spawn ledger's
      model interleaves them before every system call.
    - Of the spawn ledger: log lines, the display sidecar of a child
      ([read_rlm_subagent_display], [write_rlm_subagent_display]); the usage
      read off a transcript is a parameter.
    - Of the session leases: Windows, where a busy directory is tried again;
      the caches flushed at release and the transcript append itself; a
      [remove_dir_all] that fails in the middle.
    - Of the worker: the turn itself (its outcome is an input of the step that
      ends it), events and roster pushes, goal and compaction engines beyond
      their effect on the queue, the cron policy around a fire, the teardown
      of a killed session.
    - Of the supervisor: the handshake and authentication of a connection,
      clients beyond their prompt admissions, subscriptions, session claims,
      update restarts, the roster.  The route of an admitted prompt is one
      send that may be lost; its retries are the request plane's (C6).
    - Of the child sessions: depth-0 sessions created for a caller, roster rows
      and pushes, the display sidecar, semantic edges, the texts of notices
      beyond their fields, which process answers a command.
    - The rest of the inherited agent: session engine, agent loop, model
      providers, terminal interface.

    ** Plan

    The Big Brother core comes first and is modelled as a whole, then the parts
    of the daemon it relies on: the spawn ledger, the session leases, the
    recovery journal, the input queue, revival, the request plane with its
    frames, prompt admission and the registry of child sessions are done.
    What a continuation would take up are the supervisor's session claims and
    message delivery between sessions. *)
From Stdlib Require Export ZArith Lia List.
From stdpp Require Export base tactics option list gmap strings sorting.
From Hammer Require Import Tactics.
Export ListNotations.
#[export] Set Default Goal Selector "!".

(** ** Results

    [result E A] is the value a Rust [Result<A, E>] returns, extended with
    [Killed]: the process died inside the call, so nobody observes a value. *)
Inductive result (E A : Type) : Type :=
| Ok (a : A)
| Err (e : E)
| Killed.
Arguments Ok {E A} a.
Arguments Err {E A} e.
Arguments Killed {E A}.

#[export] Instance result_eq_dec {E A} `{EqDecision E} `{EqDecision A} :
  EqDecision (result E A).
Proof. solve_decision. Defined.

Definition is_ok {E A} (r : result E A) : bool :=
  match r with Ok _ => true | _ => false end.

(** Pure fallible code ([Result] without effects) is a plain sum: [inl] is the
    error, [inr] the value. *)
Abbreviation rresult := sum.

Definition sum_bind {E A B} (m : E + A) (f : A -> E + B) : E + B :=
  match m with inl e => inl e | inr a => f a end.

Declare Scope bb_scope.
Delimit Scope bb_scope with bb.

Notation "'let?' x ':=' m 'in' k" := (sum_bind m (fun x => k))
  (at level 10, x name, m at level 100, k at level 200) : bb_scope.
Notation "'let?' ' p ':=' m 'in' k" := (sum_bind m (fun p => k))
  (at level 10, p strict pattern, m at level 100, k at level 200) : bb_scope.
Notation "'ensure?' b 'else' e 'in' k" := (if b then k else inl e)
  (at level 10, b at level 100, e at level 100, k at level 200) : bb_scope.
Open Scope bb_scope.

(** ** Machine widths *)
Definition u32_max : Z := 4294967295.
Definition u64_max : Z := 18446744073709551615.

(** [wrapping_add] on [u32]: what [+=] does in the release profile, which does
    not enable overflow checks. *)
Definition u32_wrapping_add (a b : Z) : Z := (a + b) mod (u32_max + 1).
(** [u32::saturating_add]. *)
Definition u32_saturating_add (a b : Z) : Z := Z.min u32_max (a + b).
(** [u64::saturating_sub]. *)
Definition u64_saturating_sub (a b : Z) : Z := Z.max 0 (a - b).

Definition is_u32 (z : Z) : Prop := (0 <= z <= u32_max)%Z.
Definition is_u32b (z : Z) : bool := (0 <=? z)%Z && (z <=? u32_max)%Z.

Lemma is_u32b_spec z : is_u32b z = true <-> is_u32 z.
Proof. unfold is_u32b, is_u32. rewrite andb_true_iff, !Z.leb_le. tauto. Qed.

Lemma u32_wrapping_add_small a b :
  (0 <= a -> 0 <= b -> a + b <= u32_max -> u32_wrapping_add a b = a + b)%Z.
Proof. intros. unfold u32_wrapping_add. apply Z.mod_small. lia. Qed.

Lemma u32_wrapping_add_u32 a b : is_u32 (u32_wrapping_add a b).
Proof.
  unfold is_u32, u32_wrapping_add.
  pose proof (Z.mod_pos_bound (a + b) (u32_max + 1)) as H.
  unfold u32_max in *. lia.
Qed.

Lemma u32_saturating_add_u32 a b :
  is_u32 a -> is_u32 b -> is_u32 (u32_saturating_add a b).
Proof. unfold is_u32, u32_saturating_add, u32_max. lia. Qed.

(** ** Tactics and hint databases *)
Create HintDb bb.
#[export] Hint Resolve u32_wrapping_add_u32 u32_saturating_add_u32 : bb.

(** [case_hyp] destructs the discriminee of a [match] found in a hypothesis. *)
Ltac case_hyp H :=
  match type of H with
  | context [match ?x with _ => _ end] =>
      lazymatch x with
      | context [match _ with _ => _ end] => fail
      | _ => let E := fresh "E" in destruct x eqn:E
      end
  end.
(** [inv_pair] splits equations between pairs and results. *)
Ltac inv_res :=
  repeat match goal with
  | H : (_, _) = (_, _) |- _ => inversion H; clear H; subst
  | H : Ok _ = Ok _ |- _ => inversion H; clear H; subst
  | H : Err _ = Err _ |- _ => inversion H; clear H; subst
  | H : inr _ = inr _ |- _ => inversion H; clear H; subst
  | H : inl _ = inl _ |- _ => inversion H; clear H; subst
  | H : Some _ = Some _ |- _ => inversion H; clear H; subst
  | H : Ok _ = Err _ |- _ => discriminate H
  | H : Err _ = Ok _ |- _ => discriminate H
  | H : Ok _ = Killed |- _ => discriminate H
  | H : Killed = Ok _ |- _ => discriminate H
  | H : Err _ = Killed |- _ => discriminate H
  | H : Killed = Err _ |- _ => discriminate H
  | H : inl _ = inr _ |- _ => discriminate H
  | H : inr _ = inl _ |- _ => discriminate H
  | H : Some _ = None |- _ => discriminate H
  | H : None = Some _ |- _ => discriminate H
  | H : false = true |- _ => discriminate H
  | H : true = false |- _ => discriminate H
  end.
(** [crunch H]: split every branch of the code in [H], closing the absurd ones. *)
Ltac crunch H := repeat (case_hyp H; inv_res; try done).

Lemma sum_bind_inr {E A B} (m : E + A) (f : A -> E + B) b :
  sum_bind m f = inr b <-> exists a, m = inr a /\ f a = inr b.
Proof. destruct m; naive_solver. Qed.

Lemma sum_bind_inl {E A B} (m : E + A) (f : A -> E + B) e :
  sum_bind m f = inl e <-> m = inl e \/ exists a, m = inr a /\ f a = inl e.
Proof. destruct m; naive_solver. Qed.

(** ** Lists *)

(** [Iterator::find]. *)
Definition find_first {A} (p : A -> bool) (l : list A) : option A := List.find p l.

(** The last element satisfying [p] ([iter().rev().find]). *)
Definition find_last {A} (p : A -> bool) (l : list A) : option A :=
  List.find p (rev l).

Lemma find_last_snoc {A} (p : A -> bool) l x :
  find_last p (l ++ [x])%list = if p x then Some x else find_last p l.
Proof. unfold find_last. by rewrite rev_app_distr. Qed.
Lemma find_last_app {A} (p : A -> bool) l1 l2 :
  find_last p (l1 ++ l2)%list = match find_last p l2 with Some x => Some x | None => find_last p l1 end.
Proof.
  induction l2 as [|x l2 IH] using rev_ind; [by rewrite app_nil_r|].
  rewrite app_assoc, !find_last_snoc. destruct (p x); [done|]. apply IH.
Qed.

Lemma find_first_Some {A} (p : A -> bool) l x :
  find_first p l = Some x -> x ∈ l /\ p x = true.
Proof.
  intros H. apply List.find_some in H as [H1 H2]. by rewrite list_elem_of_In.
Qed.

Lemma find_first_None {A} (p : A -> bool) l :
  find_first p l = None <-> forall x, x ∈ l -> p x = false.
Proof.
  induction l as [|y l IH]; simpl.
  - split; [intros _ x Hx; by apply elem_of_nil in Hx | done].
  - unfold find_first in *. simpl. destruct (p y) eqn:Hy.
    + split; [done|]. intros H. rewrite (H y) in Hy by set_solver. done.
    + rewrite IH. set_solver.
Qed.
