(* ===== verification/RustStr.v ===== *)
(** * Rust strings

    A Rust [String]/[&str] is modelled by the Rocq [string] of its UTF-8 bytes.
    This file defines the [str] and [char] methods the program calls, byte
    indices and character counts kept apart as in Rust, and the lemmas the
    components share. *)
From Stdlib Require Export Ascii String.
From S2P Require Import Prelude.
From Hammer Require Import Tactics.
#[local] Open Scope string_scope.
#[local] Open Scope N_scope.

#[global] Arguments String.append !_ _ : simpl nomatch.

(** ** Characters *)
Definition code (c : ascii) : N := N_of_ascii c.
Definition in_range (lo hi : N) (c : ascii) : bool := (lo <=? code c) && (code c <=? hi).

Definition is_code (n : N) (c : ascii) : bool := code c =? n.

Definition is_ascii_digit (c : ascii) : bool := in_range 48 57 c.
Definition is_ascii_upper (c : ascii) : bool := in_range 65 90 c.
Definition is_ascii_lower (c : ascii) : bool := in_range 97 122 c.
Definition is_ascii_alphanumeric (c : ascii) : bool :=
  is_ascii_digit c || is_ascii_upper c || is_ascii_lower c.
Definition is_ascii_hexdigit (c : ascii) : bool :=
  is_ascii_digit c || in_range 65 70 c || in_range 97 102 c.
Definition to_ascii_lowercase (c : ascii) : ascii :=
  if is_ascii_upper c then ascii_of_N (code c + 32) else c.
(** A UTF-8 continuation byte: never the first byte of a character. *)
Definition is_continuation (c : ascii) : bool := in_range 128 191 c.

Definition nl : ascii := ascii_of_N 10.
Definition cr : ascii := ascii_of_N 13.
Definition nl_str : string := String nl "".
(** A backslash-free double quote for messages. *)
Definition dquote : string := String (ascii_of_N 34) "".
(** U+2026 HORIZONTAL ELLIPSIS in UTF-8. *)
Definition ellipsis : string :=
  String (ascii_of_N 226) (String (ascii_of_N 128) (String (ascii_of_N 166) "")).

(** ** Folding over bytes *)
Fixpoint str_forall (p : ascii -> bool) (s : string) : bool :=
  match s with
  | EmptyString => true
  | String c s' => p c && str_forall p s'
  end.

Fixpoint str_map (f : ascii -> ascii) (s : string) : string :=
  match s with
  | EmptyString => EmptyString
  | String c s' => String (f c) (str_map f s')
  end.

Fixpoint str_rev_app (s acc : string) : string :=
  match s with
  | EmptyString => acc
  | String c s' => str_rev_app s' (String c acc)
  end.
Definition str_rev (s : string) : string := str_rev_app s "".

(** [str::len]: the number of bytes. *)
Definition len (s : string) : nat := String.length s.
Definition is_empty (s : string) : bool :=
  match s with EmptyString => true | _ => false end.

(** ** Characters of a string *)
(** [s.chars().count()]. *)
Fixpoint chars_count (s : string) : nat :=
  match s with
  | EmptyString => 0
  | String c s' => if is_continuation c then chars_count s' else S (chars_count s')
  end.

(** [s.chars().take(n).collect::<String>()]. *)
Fixpoint take_chars (n : nat) (s : string) : string :=
  match s with
  | EmptyString => EmptyString
  | String c s' =>
      if is_continuation c then String c (take_chars n s')
      else match n with
           | O => EmptyString
           | S n' => String c (take_chars n' s')
           end
  end.

(** ** Prefixes, suffixes and splitting *)
Fixpoint strip_prefix (p s : string) : option string :=
  match p, s with
  | EmptyString, _ => Some s
  | String a p', String b s' => if Ascii.eqb a b then strip_prefix p' s' else None
  | String _ _, EmptyString => None
  end.
Definition starts_with (p s : string) : bool :=
  match strip_prefix p s with Some _ => true | None => false end.
Definition strip_suffix (p s : string) : option string :=
  match strip_prefix (str_rev p) (str_rev s) with
  | Some r => Some (str_rev r)
  | None => None
  end.

(** [s.split_once(p)]: around the first occurrence of [p]. *)
Fixpoint split_once (p s : string) : option (string * string) :=
  match strip_prefix p s with
  | Some rest => Some ("", rest)
  | None =>
      match s with
      | EmptyString => None
      | String c s' =>
          match split_once p s' with
          | Some (a, b) => Some (String c a, b)
          | None => None
          end
      end
  end.

(** [s.rsplit_once(c)]: around the last occurrence of the character [c]. *)
Fixpoint rsplit_once (c : ascii) (s : string) : option (string * string) :=
  match s with
  | EmptyString => None
  | String d s' =>
      match rsplit_once c s' with
      | Some (a, b) => Some (String d a, b)
      | None => if Ascii.eqb c d then Some ("", s') else None
      end
  end.

(** [s.contains(p)]. *)
Definition contains (p s : string) : bool :=
  match split_once p s with Some _ => true | None => false end.

Fixpoint contains_char (c : ascii) (s : string) : bool :=
  match s with
  | EmptyString => false
  | String d s' => Ascii.eqb c d || contains_char c s'
  end.

(** [s.split(c)]. *)
Fixpoint split_char (c : ascii) (s : string) : list string :=
  match s with
  | EmptyString => [""]
  | String d s' =>
      if Ascii.eqb c d then "" :: split_char c s'
      else match split_char c s' with
           | [] => [String d ""]
           | w :: ws => String d w :: ws
           end
  end.

(** [s.split_inclusive('\n')]: the newline stays with its line; no empty tail. *)
Fixpoint split_inclusive_nl (s : string) : list string :=
  match s with
  | EmptyString => []
  | String d s' =>
      if Ascii.eqb nl d then String d "" :: split_inclusive_nl s'
      else match split_inclusive_nl s' with
           | [] => [String d ""]
           | w :: ws => String d w :: ws
           end
  end.

(** [s.lines()]: the inclusive split without its line ending, a carriage
    return before the newline included. *)
Definition strip_line_ending (line : string) : string :=
  match strip_suffix nl_str line with
  | None => line
  | Some body => default body (strip_suffix (String cr "") body)
  end.
Definition lines (s : string) : list string := map strip_line_ending (split_inclusive_nl s).

(** ** Trimming *)

(** The white-space characters (Unicode White_Space) of one, two and three
    bytes. *)
Definition ws1 (a : ascii) : bool := in_range 9 13 a || is_code 32 a.
Definition ws2 (a b : ascii) : bool := is_code 194 a && (is_code 133 b || is_code 160 b).
Definition ws3 (a b c : ascii) : bool :=
  (is_code 225 a && is_code 154 b && is_code 128 c)
  || (is_code 226 a && is_code 128 b
      && (in_range 128 138 c || is_code 168 c || is_code 169 c || is_code 175 c))
  || (is_code 226 a && is_code 129 b && is_code 159 c)
  || (is_code 227 a && is_code 128 b && is_code 128 c).

(** The byte length of the white-space character at the head of [s]; 0 when
    there is none. *)
Definition ws_len (s : string) : nat :=
  match s with
  | EmptyString => 0
  | String a s1 =>
      if ws1 a then 1
      else match s1 with
      | EmptyString => 0
      | String b s2 =>
          if ws2 a b then 2
          else match s2 with
          | EmptyString => 0
          | String c _ => if ws3 a b c then 3 else 0
          end
      end
  end%nat.

(** The same for a reversed string, so that the last character is at the head. *)
Definition ws_len_rev (s : string) : nat :=
  match s with
  | EmptyString => 0
  | String c s1 =>
      if ws1 c then 1
      else match s1 with
      | EmptyString => 0
      | String b s2 =>
          if ws2 b c then 2
          else match s2 with
          | EmptyString => 0
          | String a _ => if ws3 a b c then 3 else 0
          end
      end
  end%nat.

Fixpoint trim_head (measure : string -> nat) (skip : nat) (s : string) : string :=
  match s with
  | EmptyString => EmptyString
  | String _ s' =>
      match skip with
      | S k => trim_head measure k s'
      | O => match measure s with
             | O => s
             | S k => trim_head measure k s'
             end
      end
  end.

Definition trim_start (s : string) : string := trim_head ws_len 0 s.
Definition trim_end (s : string) : string := str_rev (trim_head ws_len_rev 0 (str_rev s)).
(** [str::trim]. *)
Definition trim (s : string) : string := trim_end (trim_start s).
(** [s.trim().is_empty()]. *)
Definition is_blank (s : string) : bool := is_empty (trim s).

(** [s.trim_start_matches(c)], [s.trim_end_matches(c)], [s.trim_matches(c)]. *)
Fixpoint trim_start_matches (c : ascii) (s : string) : string :=
  match s with
  | EmptyString => EmptyString
  | String d s' => if Ascii.eqb c d then trim_start_matches c s' else s
  end.
Definition trim_end_matches (c : ascii) (s : string) : string :=
  str_rev (trim_start_matches c (str_rev s)).
Definition trim_matches (c : ascii) (s : string) : string :=
  trim_end_matches c (trim_start_matches c s).

(** [s.trim_end_matches(p)] for a non-empty string pattern: every trailing
    copy goes; [fuel] is the byte length. *)
Fixpoint trim_end_matches_str_fuel (fuel : nat) (p s : string) : string :=
  match fuel with
  | O => s
  | S k => match strip_suffix p s with
           | Some s' => trim_end_matches_str_fuel k p s'
           | None => s
           end
  end.
Definition trim_end_matches_str (p s : string) : string :=
  trim_end_matches_str_fuel (len s) p s.

(** ** Joining, slicing and comparing *)
(** [parts.join(sep)]. *)
Fixpoint join_with (sep : string) (parts : list string) : string :=
  match parts with
  | [] => ""
  | [w] => w
  | w :: ws => w ++ sep ++ join_with sep ws
  end.

Fixpoint str_drop (n : nat) (s : string) : string :=
  match n, s with
  | O, _ => s
  | S n', String _ s' => str_drop n' s'
  | S _, EmptyString => EmptyString
  end.
Fixpoint str_take (n : nat) (s : string) : string :=
  match n, s with
  | O, _ => EmptyString
  | S n', String c s' => String c (str_take n' s')
  | S _, EmptyString => EmptyString
  end.

(** [str::is_char_boundary]. *)
Definition is_char_boundary (i : nat) (s : string) : bool :=
  match i with
  | O => true
  | _ => match String.get i s with
         | Some c => negb (is_continuation c)
         | None => Nat.eqb i (len s)
         end
  end.

(** [s.get(i..)] and [s.get(i..j)]. *)
Definition get_from (i : nat) (s : string) : option string :=
  if Nat.leb i (len s) && is_char_boundary i s then Some (str_drop i s) else None.
Definition get_slice (i j : nat) (s : string) : option string :=
  if Nat.leb i j && Nat.leb j (len s) && is_char_boundary i s && is_char_boundary j s
  then Some (str_take (j - i) (str_drop i s)) else None.

Definition eq_ignore_ascii_case (a b : string) : bool :=
  String.eqb (str_map to_ascii_lowercase a) (str_map to_ascii_lowercase b).

(** [str] ordering: bytewise, shorter first on a common prefix. *)
Fixpoint str_leb (a b : string) : bool :=
  match a, b with
  | EmptyString, _ => true
  | String _ _, EmptyString => false
  | String x a', String y b' =>
      if code x <? code y then true
      else if code y <? code x then false
      else str_leb a' b'
  end.
Definition str_le (a b : string) : Prop := str_leb a b = true.
#[export] Instance str_le_dec a b : Decision (str_le a b).
Proof. unfold str_le. solve_decision. Defined.

(** ** Numbers *)
#[local] Open Scope Z_scope.
Definition digit_char (d : Z) : ascii := ascii_of_N (Z.to_N (48 + d)).
Definition digit_val (c : ascii) : Z := Z.of_N (code c) - 48.

(** Exactly [width] decimal digits of [n], most significant first. *)
Fixpoint dec_width (width : nat) (n : Z) : string :=
  match width with
  | O => ""
  | S w => dec_width w (n / 10) ++ String (digit_char (n mod 10)) ""
  end.

(** The number of decimal digits of a non-negative [n]. *)
Fixpoint dec_len_fuel (fuel : nat) (n : Z) : nat :=
  match fuel with
  | O => 1%nat
  | S f => if n <? 10 then 1%nat else S (dec_len_fuel f (n / 10))
  end.
Definition dec_len (n : Z) : nat := dec_len_fuel (Z.to_nat (Z.log2 n)) n.

(** [format!("{n}")] for a non-negative integer, and [format!("{n:0w}")]. *)
Definition show_Z (n : Z) : string := dec_width (dec_len n) n.
Definition show_padded (w : nat) (n : Z) : string := dec_width (Nat.max w (dec_len n)) n.

Fixpoint digits_value (acc : Z) (s : string) : option Z :=
  match s with
  | EmptyString => Some acc
  | String c s' =>
      if is_ascii_digit c then digits_value (acc * 10 + digit_val c) s' else None
  end.

(** [s.parse::<uN>()] with maximum [hi]: an optional plus sign, at least one
    digit, no overflow. *)
Definition parse_unsigned (hi : Z) (s : string) : option Z :=
  let body := match strip_prefix "+" s with Some r => r | None => s end in
  if is_empty body then None
  else match digits_value 0 body with
       | Some v => if v <=? hi then Some v else None
       | None => None
       end.

(** [s.parse::<i64>()]. *)
Definition parse_i64 (s : string) : option Z :=
  match strip_prefix "-" s with
  | Some body =>
      if is_empty body then None
      else match digits_value 0 body with
           | Some v => if v <=? 9223372036854775808 then Some (- v) else None
           | None => None
           end
  | None => parse_unsigned 9223372036854775807 s
  end.

(** ** Lemmas *)

Lemma str_app_nil_r s : s ++ "" = s.
Proof. induction s as [|c s IH]; simpl; [done | by f_equal]. Qed.

Lemma str_app_assoc a b c : (a ++ b) ++ c = a ++ (b ++ c).
Proof. induction a as [|x a IH]; simpl; [done | by f_equal]. Qed.

Lemma str_len_app a b : len (a ++ b) = (len a + len b)%nat.
Proof. unfold len. induction a as [|x a IH]; simpl; [done | by f_equal]. Qed.

Lemma str_app_inj_l a b c : a ++ b = a ++ c -> b = c.
Proof. induction a as [|x a IH]; simpl; [done|]. intros H. apply IH. congruence. Qed.

Lemma str_rev_app_spec s acc : str_rev_app s acc = str_rev s ++ acc.
Proof.
  unfold str_rev. revert acc. induction s as [|c s IH]; intros acc; simpl; [done|].
  rewrite IH, (IH (String c "")), str_app_assoc. done.
Qed.

Lemma str_rev_cons c s : str_rev (String c s) = str_rev s ++ String c "".
Proof. unfold str_rev at 1. simpl. apply str_rev_app_spec. Qed.

Lemma str_rev_snoc s c : str_rev (s ++ String c "") = String c (str_rev s).
Proof.
  induction s as [|x s IH]; [done|]. cbn [String.append].
  rewrite !str_rev_cons, IH. done.
Qed.

Lemma str_rev_involutive s : str_rev (str_rev s) = s.
Proof. induction s as [|c s IH]; [done|]. by rewrite str_rev_cons, str_rev_snoc, IH. Qed.

Lemma str_rev_app_distr a b : str_rev (a ++ b) = str_rev b ++ str_rev a.
Proof.
  induction a as [|c a IH]; cbn [String.append]; [by rewrite str_app_nil_r|].
  by rewrite !str_rev_cons, IH, str_app_assoc.
Qed.

Lemma strip_prefix_Some p s r : strip_prefix p s = Some r <-> s = p ++ r.
Proof.
  revert s. induction p as [|a p IH]; intros s; simpl.
  - split; congruence.
  - destruct s as [|b s]; [done|]. destruct (Ascii.eqb_spec a b) as [->|Hne].
    + rewrite IH. split; congruence.
    + split; [done|]. congruence.
Qed.

Lemma strip_prefix_app p r : strip_prefix p (p ++ r) = Some r.
Proof. by apply strip_prefix_Some. Qed.

Lemma strip_suffix_Some p s r : strip_suffix p s = Some r <-> s = r ++ p.
Proof.
  unfold strip_suffix. destruct (strip_prefix _ _) as [q|] eqn:E.
  - apply strip_prefix_Some in E. apply (f_equal str_rev) in E.
    rewrite str_rev_involutive, str_rev_app_distr, str_rev_involutive in E. subst.
    split.
    + intros [= <-]. done.
    + intros H. f_equal. apply (f_equal str_rev) in H.
      rewrite !str_rev_app_distr, str_rev_involutive in H. apply str_app_inj_l in H.
      by rewrite H, str_rev_involutive.
  - split; [done|]. intros ->. rewrite str_rev_app_distr, strip_prefix_app in E. done.
Qed.

(** A string without the byte [c] has no occurrence to split at. *)
Lemma split_once_char_app c a b :
  contains_char c a = false -> split_once (String c "") (a ++ String c b) = Some (a, b).
Proof.
  induction a as [|d a IH]; simpl; intros H.
  - by rewrite Ascii.eqb_refl.
  - apply orb_false_iff in H as [H1 H2]. rewrite H1, IH by done. done.
Qed.

Lemma split_once_char_None c a :
  contains_char c a = false -> split_once (String c "") a = None.
Proof.
  induction a as [|d a IH]; simpl; intros H; [done|].
  apply orb_false_iff in H as [H1 H2]. by rewrite H1, IH.
Qed.

Lemma split_once_sound p s a b : split_once p s = Some (a, b) -> s = a ++ p ++ b.
Proof.
  revert a b. induction s as [|c s IH]; intros a b; cbn [split_once].
  - destruct (strip_prefix p "") as [r|] eqn:E; [|done].
    intros [= <- <-]. by apply strip_prefix_Some in E.
  - destruct (strip_prefix p (String c s)) as [r|] eqn:E.
    + intros [= <- <-]. by apply strip_prefix_Some in E.
    + destruct (split_once p s) as [[x y]|] eqn:E'; [|done].
      intros [= <- <-]. simpl. f_equal. by apply IH.
Qed.

Lemma rsplit_once_char_None c a :
  contains_char c a = false -> rsplit_once c a = None.
Proof.
  induction a as [|d a IH]; simpl; intros H; [done|].
  apply orb_false_iff in H as [H1 H2]. by rewrite IH, H1.
Qed.

Lemma rsplit_once_app c a b :
  contains_char c b = false -> rsplit_once c (a ++ String c b) = Some (a, b).
Proof.
  intros H. induction a as [|d a IH]; simpl.
  - by rewrite rsplit_once_char_None, Ascii.eqb_refl.
  - by rewrite IH.
Qed.

Lemma rsplit_once_sound c s a b :
  rsplit_once c s = Some (a, b) -> s = a ++ String c b /\ contains_char c b = false.
Proof.
  revert a b. induction s as [|d s IH]; intros a b; simpl; [done|].
  destruct (rsplit_once c s) as [[x y]|] eqn:E.
  - intros [= <- <-]. destruct (IH x y) as [-> ?]; done.
  - destruct (Ascii.eqb_spec c d) as [->|]; [|done]. intros [= <- <-]. split; [done|].
    clear IH. revert E. induction s as [|e s IHs]; simpl; [done|].
    destruct (rsplit_once d s) as [[x y]|]; [done|].
    destruct (Ascii.eqb d e); [done|]. auto.
Qed.

Lemma str_forall_app p a b : str_forall p (a ++ b) = str_forall p a && str_forall p b.
Proof. induction a as [|c a IH]; simpl; [done|]. by rewrite IH, andb_assoc. Qed.

(** ** Digits *)
Lemma digit_cases d : 0 <= d < 10 ->
  d = 0 \/ d = 1 \/ d = 2 \/ d = 3 \/ d = 4 \/ d = 5 \/ d = 6 \/ d = 7 \/ d = 8 \/ d = 9.
Proof. lia. Qed.
Ltac digit_case H :=
  apply digit_cases in H;
  repeat match type of H with _ \/ _ => destruct H as [H|H] end; subst; reflexivity.

Lemma digit_char_digit d : 0 <= d < 10 -> is_ascii_digit (digit_char d) = true.
Proof. intros H; digit_case H. Qed.
Lemma digit_val_char d : 0 <= d < 10 -> digit_val (digit_char d) = d.
Proof. intros H; digit_case H. Qed.
Lemma digit_not_continuation c : is_ascii_digit c = true -> is_continuation c = false.
Proof.
  unfold is_ascii_digit, is_continuation, in_range.
  rewrite andb_true_iff, andb_false_iff, !N.leb_le, !N.leb_gt. lia.
Qed.

Lemma mod10 n : 0 <= n mod 10 < 10.
Proof. apply Z.mod_pos_bound. lia. Qed.

Lemma len_dec_width w n : len (dec_width w n) = w.
Proof.
  revert n. induction w as [|w IH]; intros n; simpl; [done|].
  rewrite str_len_app, IH. unfold len; simpl. lia.
Qed.

Lemma dec_width_digits w n : str_forall is_ascii_digit (dec_width w n) = true.
Proof.
  revert n. induction w as [|w IH]; intros n; simpl; [done|].
  rewrite str_forall_app, IH. simpl. rewrite digit_char_digit by apply mod10. done.
Qed.

Lemma digits_value_app acc a b :
  digits_value acc (a ++ b) =
  match digits_value acc a with Some v => digits_value v b | None => None end.
Proof.
  revert acc. induction a as [|c a IH]; intros acc; simpl; [done|].
  destruct (is_ascii_digit c); [apply IH | done].
Qed.

Lemma digits_value_dec_width w n acc :
  0 <= n < 10 ^ Z.of_nat w ->
  digits_value acc (dec_width w n) = Some (acc * 10 ^ Z.of_nat w + n).
Proof.
  revert n acc. induction w as [|w IH]; intros n acc H.
  - simpl in *. f_equal. lia.
  - cbn [dec_width]. rewrite Nat2Z.inj_succ, Z.pow_succ_r in * by lia.
    rewrite digits_value_app, IH.
    + cbn [digits_value]. rewrite digit_char_digit, digit_val_char by apply mod10.
      f_equal. pose proof (Z.div_mod n 10). lia.
    + split; [apply Z.div_pos; lia | apply Z.div_lt_upper_bound; lia].
Qed.

Lemma strip_plus_digit c s : is_ascii_digit c = true -> strip_prefix "+" (String c s) = None.
Proof.
  intros H. cbn [strip_prefix]. destruct (Ascii.eqb_spec "+" c) as [<-|]; [|done].
  vm_compute in H. discriminate.
Qed.
Lemma strip_minus_digit c s : is_ascii_digit c = true -> strip_prefix "-" (String c s) = None.
Proof.
  intros H. cbn [strip_prefix]. destruct (Ascii.eqb_spec "-" c) as [<-|]; [|done].
  vm_compute in H. discriminate.
Qed.

Lemma parse_unsigned_dec_width hi w n :
  (0 < w)%nat -> 0 <= n < 10 ^ Z.of_nat w -> n <= hi ->
  parse_unsigned hi (dec_width w n) = Some n.
Proof.
  intros Hw Hn Hhi. pose proof (dec_width_digits w n) as Hd.
  pose proof (len_dec_width w n) as Hl. pose proof (digits_value_dec_width w n 0 Hn) as Hv.
  unfold parse_unsigned. destruct (dec_width w n) as [|c s]; [simpl in Hl; lia|].
  simpl in Hd. apply andb_true_iff in Hd as [Hd _].
  rewrite strip_plus_digit by done. cbn [is_empty]. rewrite Hv.
  rewrite (proj2 (Z.leb_le (0 * 10 ^ Z.of_nat w + n) hi)) by lia. reflexivity.
Qed.

Lemma dec_len_fuel_bound f n :
  (0 <= n)%Z -> (Z.log2 n <= Z.of_nat f)%Z ->
  (n < 10 ^ Z.of_nat (dec_len_fuel f n))%Z /\ (0 < dec_len_fuel f n)%nat.
Proof.
  revert n. induction f as [|f IH]; intros n H0 H; cbn [dec_len_fuel].
  - split; [|lia]. destruct (Z.eq_dec n 0) as [->|]; [done|].
    assert (n < 2 ^ Z.succ 0) by (apply Z.log2_lt_pow2; lia). lia.
  - destruct (Z.ltb_spec n 10); [split; lia|]. split; [|lia].
    destruct (IH (n / 10)) as [IH1 IH2].
    + apply Z.div_pos; lia.
    + assert (Z.log2 (n / 10) <= Z.log2 (n / 2)) as Hle.
      { apply Z.log2_le_mono. apply Z.div_le_compat_l; lia. }
      change 2 with (2 ^ 1) in Hle. rewrite <- Z.shiftr_div_pow2, Z.log2_shiftr in Hle by lia.
      lia.
    + rewrite Nat2Z.inj_succ, Z.pow_succ_r by lia.
      pose proof (Z.div_mod n 10). pose proof (mod10 n). lia.
Qed.

Lemma dec_len_bound n :
  0 <= n -> n < 10 ^ Z.of_nat (dec_len n) /\ (0 < dec_len n)%nat.
Proof.
  intros H. apply dec_len_fuel_bound; [done|].
  rewrite Z2Nat.id; [lia | apply Z.log2_nonneg].
Qed.

(** Printing then parsing an integer is the identity. *)
Lemma parse_show_Z hi n : 0 <= n <= hi -> parse_unsigned hi (show_Z n) = Some n.
Proof.
  intros H. destruct (dec_len_bound n) as [H1 H2]; [lia|].
  apply parse_unsigned_dec_width; lia.
Qed.

(** ** Slicing *)
Lemma str_drop_app a b : str_drop (len a) (a ++ b) = b.
Proof. unfold len. induction a as [|c a IH]; simpl; [by destruct b | done]. Qed.
Lemma str_take_app a b : str_take (len a) (a ++ b) = a.
Proof. unfold len. induction a as [|c a IH]; simpl; [done | by f_equal]. Qed.

Lemma str_get_app_r a b i : String.get (len a + i) (a ++ b) = String.get i b.
Proof. unfold len. induction a as [|c a IH]; simpl; done. Qed.

Lemma char_boundary_app a b :
  match b with EmptyString => True | String c _ => is_continuation c = false end ->
  is_char_boundary (len a) (a ++ b) = true.
Proof.
  intros H. unfold is_char_boundary. destruct (len a) as [|k] eqn:E; [done|].
  rewrite <- E. replace (len a) with (len a + 0)%nat at 1 by lia. rewrite str_get_app_r.
  destruct b as [|c b]; simpl.
  - rewrite str_app_nil_r. apply Nat.eqb_refl.
  - by rewrite H.
Qed.

(** Slicing the middle part out of a concatenation. *)
Lemma get_slice_app a b c i j :
  i = len a -> j = (len a + len b)%nat ->
  match b ++ c with EmptyString => True | String x _ => is_continuation x = false end ->
  match c with EmptyString => True | String x _ => is_continuation x = false end ->
  get_slice i j (a ++ b ++ c) = Some b.
Proof.
  intros -> -> Hb Hc. unfold get_slice.
  rewrite (proj2 (Nat.leb_le (len a) _)) by lia.
  rewrite !str_len_app, (proj2 (Nat.leb_le (len a + len b) _)) by lia.
  rewrite char_boundary_app by done.
  replace (is_char_boundary (len a + len b) (a ++ b ++ c)) with true.
  - cbn [andb]. rewrite str_drop_app. replace (len a + len b - len a)%nat with (len b) by lia.
    by rewrite str_take_app.
  - symmetry. rewrite <- str_len_app, <- str_app_assoc. by apply char_boundary_app.
Qed.

Lemma dec_width_head w n s :
  (0 < w)%nat ->
  match dec_width w n ++ s with EmptyString => True | String x _ => is_continuation x = false end.
Proof.
  intros Hw. pose proof (dec_width_digits w n) as Hd. pose proof (len_dec_width w n) as Hl.
  destruct (dec_width w n) as [|c t]; [simpl in Hl; lia|]. simpl in *.
  apply andb_true_iff in Hd as [Hd _]. by apply digit_not_continuation.
Qed.

Lemma dec_len_fuel_le f n k :
  0 <= n < 10 ^ Z.of_nat k -> (0 < k)%nat -> (dec_len_fuel f n <= k)%nat.
Proof.
  revert n k. induction f as [|f IH]; intros n k Hn Hk; cbn [dec_len_fuel]; [lia|].
  destruct (Z.ltb_spec n 10); [lia|].
  destruct k as [|[|k]]; [lia | simpl in Hn; lia |].
  apply le_n_S, IH; [|lia]. rewrite Nat2Z.inj_succ, Z.pow_succ_r in Hn by lia.
  split; [apply Z.div_pos; lia | apply Z.div_lt_upper_bound; lia].
Qed.

(** Zero padding to [w] digits is exact below [10 ^ w]. *)
Lemma show_padded_exact w n :
  0 <= n < 10 ^ Z.of_nat w -> (0 < w)%nat -> show_padded w n = dec_width w n.
Proof.
  intros H Hw. unfold show_padded, dec_len.
  pose proof (dec_len_fuel_le (Z.to_nat (Z.log2 n)) n w H Hw).
  by rewrite Nat.max_l.
Qed.

Lemma parse_i64_dec_width w n :
  (0 < w)%nat -> 0 <= n < 10 ^ Z.of_nat w -> n <= 9223372036854775807 ->
  parse_i64 (dec_width w n) = Some n.
Proof.
  intros Hw Hn Hhi. unfold parse_i64.
  assert (strip_prefix "-" (dec_width w n) = None) as ->;
    [|by apply parse_unsigned_dec_width].
  pose proof (dec_width_digits w n) as Hd. pose proof (len_dec_width w n) as Hl.
  destruct (dec_width w n) as [|c s]; [simpl in Hl; lia|].
  simpl in Hd. apply andb_true_iff in Hd as [Hd _]. by apply strip_minus_digit.
Qed.

(** ** Text that trimming leaves *)
Definition unseen (c : ascii) : bool := negb (is_ascii_alphanumeric c).

Lemma trim_head_seen (measure : string -> nat) skip s :
  (forall s, str_forall unseen (str_take (measure s) s) = true) ->
  str_forall unseen (str_take skip s) = true -> str_forall unseen s = false ->
  str_forall unseen (trim_head measure skip s) = false.
Proof.
  intros Hm. revert skip. induction s as [|c s IH]; intros skip Hskip Hs; [done|].
  assert (forall k, str_forall unseen (str_take (S k) (String c s)) = true ->
            str_forall unseen (trim_head measure k s) = false) as Hstep.
  { intros k. cbn [str_take str_forall]. intros [Hc Hk]%andb_true_iff.
    cbn [str_forall] in Hs. rewrite Hc in Hs. by apply IH. }
  cbn [trim_head]. destruct skip as [|k]; [|by apply Hstep].
  specialize (Hm (String c s)). destruct (measure (String c s)) as [|k]; [done|]. by apply Hstep.
Qed.

Lemma ws1_unseen a : ws1 a = true -> unseen a = true.
Proof. destruct a as [[][][][][][][][]]; vm_compute; done. Qed.
Lemma ws2_unseen a b : ws2 a b = true -> unseen a = true /\ unseen b = true.
Proof.
  unfold ws2, is_code, unseen, is_ascii_alphanumeric, is_ascii_digit, is_ascii_upper, is_ascii_lower, in_range.
  rewrite andb_true_iff, orb_true_iff, !N.eqb_eq. intros [-> [-> | ->]]; done.
Qed.
Lemma high_unseen a : (128 <=? code a)%N = true -> unseen a = true.
Proof. destruct a as [[][][][][][][][]]; vm_compute; done. Qed.
Lemma ws3_unseen a b c : ws3 a b c = true -> unseen a = true /\ unseen b = true /\ unseen c = true.
Proof.
  intros Hw. assert ((128 <=? code a)%N && (128 <=? code b)%N && (128 <=? code c)%N = true) as Hh.
  { revert Hw. unfold ws3, is_code, in_range. rewrite !orb_true_iff, !andb_true_iff, !orb_true_iff,
      !andb_true_iff, !N.eqb_eq, !N.leb_le. lia. }
  rewrite !andb_true_iff in Hh. destruct Hh as [[? ?] ?]. auto using high_unseen.
Qed.

Lemma ws_len_unseen s : str_forall unseen (str_take (ws_len s) s) = true.
Proof.
  destruct s as [|a s]; [done|]. cbn [ws_len]. destruct (ws1 a) eqn:E1.
  { cbn. by rewrite ws1_unseen. }
  destruct s as [|b s]; [done|]. destruct (ws2 a b) eqn:E2.
  { apply ws2_unseen in E2 as [Ha Hb]. cbn. by rewrite Ha, Hb. }
  destruct s as [|c s]; [done|]. destruct (ws3 a b c) eqn:E3; [|done].
  apply ws3_unseen in E3 as (Ha & Hb & Hc). cbn. by rewrite Ha, Hb, Hc.
Qed.
Lemma ws_len_rev_unseen s : str_forall unseen (str_take (ws_len_rev s) s) = true.
Proof.
  destruct s as [|c s]; [done|]. cbn [ws_len_rev]. destruct (ws1 c) eqn:E1.
  { cbn. by rewrite ws1_unseen. }
  destruct s as [|b s]; [done|]. destruct (ws2 b c) eqn:E2.
  { apply ws2_unseen in E2 as [Ha Hb]. cbn. by rewrite Ha, Hb. }
  destruct s as [|a s]; [done|]. destruct (ws3 a b c) eqn:E3; [|done].
  apply ws3_unseen in E3 as (Ha & Hb & Hc). cbn. by rewrite Ha, Hb, Hc.
Qed.

Lemma str_forall_rev p s : str_forall p (str_rev s) = str_forall p s.
Proof.
  induction s as [|c s IH]; [done|]. rewrite str_rev_cons, str_forall_app, IH. cbn.
  by rewrite andb_true_r, andb_comm.
Qed.

(** A text with a letter or a digit in it is not blank. *)
Lemma seen_not_blank s : str_forall unseen s = false -> is_blank s = false.
Proof.
  intros Hs. unfold is_blank, trim, trim_end.
  assert (str_forall unseen (trim_start s) = false) as H1
    by (apply trim_head_seen; [apply ws_len_unseen | done | done]).
  set (t := str_rev _). assert (str_forall unseen t = false) as Ht.
  { unfold t. rewrite str_forall_rev. apply trim_head_seen; [apply ws_len_rev_unseen | done |].
    by rewrite str_forall_rev. }
  by destruct t.
Qed.
