(* ===== verification/Lines.v ===== *)
(** * Bytes, UTF-8 and lines

    What [String::from_utf8_lossy], [std::str::from_utf8] and [str::lines] do
    to the bytes of an append-only file of JSON lines: a file is read line by
    line, whatever the bytes of a spoiled line are. *)
From S2P Require Import Prelude RustStr.
#[local] Open Scope string_scope.

(** ** UTF-8 *)

(** Whether [b] may follow the lead byte [a] of a character of two or more
    bytes (overlong forms, surrogates and values past U+10FFFF excluded). *)
Definition second_byte_ok (a b : ascii) : bool :=
  if is_code 224 a then in_range 160 191 b
  else if is_code 237 a then in_range 128 159 b
  else if is_code 240 a then in_range 144 191 b
  else if is_code 244 a then in_range 128 143 b
  else is_continuation b.
(** How many bytes follow the lead byte; [None] when [a] starts no character. *)
Definition trailing (a : ascii) : option nat :=
  if in_range 0 127 a then Some 0%nat
  else if in_range 194 223 a then Some 1%nat
  else if in_range 224 239 a then Some 2%nat
  else if in_range 240 244 a then Some 3%nat
  else None.
(** Continuation bytes up to [n]: how many there are. *)
Fixpoint continuations (n : nat) (s : string) : nat :=
  match n, s with
  | S n', String c s' => if is_continuation c then S (continuations n' s') else 0
  | _, _ => 0
  end.
(** The chunk that starts with [a]: whether it is one character, and how many
    of the bytes after [a] belong to it. *)
Definition chunk (a : ascii) (s : string) : bool * nat :=
  match trailing a with
  | None => (false, 0)
  | Some 0 => (true, 0)
  | Some (S n) =>
      match s with
      | String b s' =>
          if second_byte_ok a b then
            let k := continuations n s' in (Nat.eqb k n, S k)
          else (false, 0)
      | EmptyString => (false, 0)
      end
  end%nat.

(** [String::from_utf8_lossy]: a maximal ill-formed chunk becomes U+FFFD.
    [pending] bytes of the current chunk remain, copied or dropped. *)
Definition replacement : string :=
  String (ascii_of_N 239) (String (ascii_of_N 191) (String (ascii_of_N 189) "")).
Fixpoint lossy (pending : nat) (copy : bool) (s : string) : string :=
  match s with
  | EmptyString => EmptyString
  | String c s' =>
      match pending with
      | S k => if copy then String c (lossy k copy s') else lossy k copy s'
      | O => let '(ok, n) := chunk c s' in
             if ok then String c (lossy n true s') else replacement ++ lossy n false s'
      end
  end.
Definition from_utf8_lossy (s : string) : string := lossy 0 true s.

(** [std::str::from_utf8] succeeds. *)
Fixpoint utf8_from (pending : nat) (s : string) : bool :=
  match s with
  | EmptyString => true
  | String c s' =>
      match pending with
      | S k => utf8_from k s'
      | O => let '(ok, n) := chunk c s' in ok && utf8_from n s'
      end
  end.
Definition is_utf8 (s : string) : bool := utf8_from 0 s.

Lemma lossy_utf8 n s : utf8_from n s = true -> lossy n true s = s.
Proof.
  revert n. induction s as [|c s IH]; intros [|k] Hu; cbn in *; [done..| |].
  - destruct (chunk c s) as [[] m]; cbn in Hu; [|done]. by rewrite IH.
  - by rewrite IH.
Qed.

(** A newline belongs to no longer chunk, so it cuts the file whatever the
    bytes before it are. *)
Lemma in_range_nl lo hi : (10 < lo)%N -> in_range lo hi nl = false.
Proof.
  intros Hlo. unfold in_range. change (code nl) with 10%N.
  by rewrite (proj2 (N.leb_gt lo 10) Hlo).
Qed.
Lemma second_byte_nl a : second_byte_ok a nl = false.
Proof. unfold second_byte_ok, is_continuation. by repeat case_match. Qed.
Lemma continuations_nl n a b : continuations n (a ++ String nl b) = continuations n a.
Proof.
  revert n. induction a as [|c a IH]; intros [|n]; cbn; [done..|]. by rewrite IH.
Qed.
Lemma chunk_nl c a b : chunk c (a ++ String nl b) = chunk c a.
Proof.
  unfold chunk. destruct (trailing c) as [[|n]|]; [done| |done].
  destruct a as [|d a]; cbn [String.append].
  - by rewrite second_byte_nl.
  - by rewrite continuations_nl.
Qed.
Lemma continuations_le n s : (continuations n s <= len s)%nat.
Proof.
  revert n. induction s as [|c s IH]; intros [|n]; cbn; try lia.
  case_match; [|lia]. specialize (IH n). unfold len in IH. lia.
Qed.
Lemma chunk_fits c s : ((chunk c s).2 <= len s)%nat.
Proof.
  unfold chunk. destruct (trailing c) as [[|n]|]; cbn; try lia. destruct s as [|d s]; cbn; [lia|].
  case_match; cbn; [|lia]. pose proof (continuations_le n s). unfold len in *. lia.
Qed.
Lemma chunk_newline s : chunk nl s = (true, 0%nat).
Proof. done. Qed.
Lemma lossy_nl n copy a b :
  (n <= len a)%nat -> lossy n copy (a ++ String nl b) = lossy n copy a ++ String nl (from_utf8_lossy b).
Proof.
  revert n copy. induction a as [|c a IH]; intros n copy Hn; cbn [String.append lossy].
  - destruct n; [|cbn in Hn; lia]. by rewrite chunk_newline.
  - destruct n as [|k].
    + rewrite chunk_nl. pose proof (chunk_fits c a) as Hf. destruct (chunk c a) as [[] m]; cbn in Hf |- *.
      * by rewrite IH.
      * rewrite IH by done. done.
    + assert (k <= len a)%nat by (unfold len in *; cbn in Hn; lia). destruct copy; by rewrite IH.
Qed.
Lemma from_utf8_lossy_nl a b :
  from_utf8_lossy (a ++ String nl b) = from_utf8_lossy a ++ String nl (from_utf8_lossy b).
Proof. apply lossy_nl. lia. Qed.
Lemma from_utf8_lossy_valid s : is_utf8 s = true -> from_utf8_lossy s = s.
Proof. apply lossy_utf8. Qed.

(** ** Lines *)

(** The two bytes of a line ending. *)
Definition line_end (c : ascii) : Prop := c = nl \/ c = cr.
Lemma ws_len_snoc a s c : line_end c -> ws_len (String a s ++ String c "") = ws_len (String a s).
Proof.
  assert (forall a, ws2 a nl = false /\ ws2 a cr = false) as H2.
  { intros x. unfold ws2. by rewrite !andb_false_r. }
  assert (forall a b, ws3 a b nl = false /\ ws3 a b cr = false) as H3.
  { intros x y. unfold ws3. change (is_code 128 nl) with false. change (is_code 128 cr) with false.
    change (is_code 159 nl) with false. change (is_code 159 cr) with false.
    change (is_code 168 nl) with false. change (is_code 168 cr) with false.
    change (in_range 128 138 nl) with false. change (in_range 128 138 cr) with false.
    change (is_code 169 nl) with false. change (is_code 169 cr) with false.
    change (is_code 175 nl) with false. change (is_code 175 cr) with false.
    by rewrite !andb_false_r. }
  intros Hc. cbn [String.append ws_len]. destruct (ws1 a); [done|].
  destruct s as [|b s]; cbn [String.append].
  { destruct (H2 a) as [E1 E2]. destruct Hc as [-> | ->]; by rewrite ?E1, ?E2. }
  destruct (ws2 a b); [done|]. destruct s as [|d s]; cbn [String.append]; [|done].
  destruct (H3 a b) as [E1 E2]. destruct Hc as [-> | ->]; by rewrite ?E1, ?E2.
Qed.
Lemma ws_len_fits s : (ws_len s <= len s)%nat.
Proof.
  destruct s as [|a s]; [done|]. cbn [ws_len]. destruct (ws1 a); [cbn; lia|].
  destruct s as [|b s]; [cbn; lia|]. destruct (ws2 a b); [cbn; lia|].
  destruct s as [|c s]; [cbn; lia|]. destruct (ws3 a b c); cbn; lia.
Qed.
Lemma ws_len_end c s : line_end c -> ws_len (String c s) = 1%nat /\ ws_len_rev (String c s) = 1%nat.
Proof. by intros [-> | ->]. Qed.

(** A line ending at the end of a text is trimmed away. *)
Lemma trim_head_snoc k s c :
  line_end c -> (k <= len s)%nat ->
  trim_head ws_len k (s ++ String c "") =
  match trim_head ws_len k s with EmptyString => "" | t => t ++ String c "" end.
Proof.
  intros Hc. revert k. induction s as [|a s IH]; intros k Hk.
  - destruct k; [|cbn in Hk; lia]. cbn [String.append trim_head]. by destruct (ws_len_end c "" Hc) as [-> _].
  - unfold len in *. cbn [String.append trim_head]. cbn [String.length] in Hk. destruct k as [|k]; [|apply IH; lia].
    change (String a (s ++ String c "")) with (String a s ++ String c ""). rewrite ws_len_snoc by done.
    pose proof (ws_len_fits (String a s)) as Hf. unfold len in Hf. cbn [String.length] in Hf.
    destruct (ws_len (String a s)) as [|k]; [done|]. apply IH. lia.
Qed.
Lemma trim_end_snoc s c : line_end c -> trim_end (s ++ String c "") = trim_end s.
Proof.
  intros Hc. unfold trim_end. rewrite str_rev_snoc. cbn [trim_head].
  by destruct (ws_len_end c (str_rev s) Hc) as [_ ->].
Qed.
Lemma trim_snoc s c : line_end c -> trim (s ++ String c "") = trim s.
Proof.
  intros Hc. unfold trim, trim_start. rewrite trim_head_snoc by (done || lia).
  destruct (trim_head ws_len 0 s); [done|]. by rewrite trim_end_snoc.
Qed.
Lemma trim_nl s : trim (s ++ nl_str) = trim s.
Proof. apply trim_snoc. by left. Qed.
Lemma trim_strip_line_ending s : trim (strip_line_ending s) = trim s.
Proof.
  unfold strip_line_ending. destruct (strip_suffix nl_str s) as [body|] eqn:E; [|done].
  apply strip_suffix_Some in E as ->. rewrite trim_nl.
  destruct (strip_suffix (String cr "") body) as [b|] eqn:E; cbn; [|done].
  apply strip_suffix_Some in E as ->. rewrite trim_snoc; [done|by right].
Qed.

(** The trimmed lines of a text that are not blank. *)
Definition entries (s : string) : list string :=
  List.filter (fun l => negb (is_empty l)) (map trim (lines s)).

Lemma entries_split s : entries s = List.filter (fun l => negb (is_empty l)) (map trim (split_inclusive_nl s)).
Proof.
  unfold entries, lines. rewrite map_map. f_equal. apply map_ext. intros l. apply trim_strip_line_ending.
Qed.

Lemma split_nl_cons c s : split_inclusive_nl (String c s) <> [].
Proof. cbn [split_inclusive_nl]. destruct (Ascii.eqb nl c); [done|]. by destruct (split_inclusive_nl s). Qed.
Lemma split_nl_app a b :
  split_inclusive_nl (a ++ String nl b) = (split_inclusive_nl (a ++ nl_str) ++ split_inclusive_nl b)%list.
Proof.
  induction a as [|c a IH]; [done|]. cbn [String.append split_inclusive_nl].
  change (String nl "") with nl_str in *. rewrite IH. destruct (Ascii.eqb nl c); [done|].
  destruct (split_inclusive_nl (a ++ nl_str)) eqn:E; [|done].
  destruct a as [|d a]; [done|]. by apply split_nl_cons in E.
Qed.
(** Ending the last line adds a blank line or extends the last one. *)
Lemma split_nl_end a :
  split_inclusive_nl (a ++ nl_str) = (split_inclusive_nl a ++ [nl_str])%list \/
  exists ps l, split_inclusive_nl a = (ps ++ [l])%list /\ split_inclusive_nl (a ++ nl_str) = (ps ++ [String.append l nl_str])%list.
Proof.
  induction a as [|c a IH]; [by left|]. cbn [String.append split_inclusive_nl].
  destruct (Ascii.eqb nl c).
  - destruct IH as [-> | (ps & l & -> & ->)]; [by left|]. right. by exists (String c "" :: ps), l.
  - destruct IH as [-> | (ps & l & -> & ->)].
    + destruct (split_inclusive_nl a) as [|w ws]; cbn; [|by left]. right. by exists [], (String c "").
    + right. destruct ps as [|p ps]; cbn; [by exists [], (String c l)|]. by exists (String c p :: ps), l.
Qed.
Lemma entries_end a : entries (a ++ nl_str) = entries a.
Proof.
  rewrite !entries_split. destruct (split_nl_end a) as [-> | (ps & l & -> & ->)];
    rewrite !map_app, !List.filter_app; cbn; [by rewrite app_nil_r|].
  by rewrite trim_nl.
Qed.
(** A newline separates entries, whatever surrounds it. *)
Lemma entries_nl a b : entries (a ++ String nl b) = (entries a ++ entries b)%list.
Proof.
  rewrite <- (entries_end a), !entries_split, split_nl_app. by rewrite map_app, List.filter_app.
Qed.

(** ** A single line *)
Lemma split_one s : contains_char nl s = false -> s <> "" -> split_inclusive_nl s = [s].
Proof.
  induction s as [|c s IH]; [done|]. cbn. intros [Hc Hs]%orb_false_iff _. rewrite Hc. destruct s as [|d s]; [done|].
  by rewrite IH.
Qed.
Lemma entries_one s : contains_char nl s = false -> entries s = List.filter (fun l => negb (is_empty l)) [trim s].
Proof. intros Hs. rewrite entries_split. destruct s as [|c s]; [done|]. by rewrite split_one. Qed.
Lemma lossy_one_line n copy s : contains_char nl s = false -> contains_char nl (lossy n copy s) = false.
Proof.
  revert n copy. induction s as [|c s IH]; intros n copy; [done|]. cbn. intros [Hc Hs]%orb_false_iff.
  destruct n as [|n]; [|destruct copy; cbn; [rewrite Hc|]; by apply IH].
  destruct (chunk c s) as [[] m]; cbn; [rewrite Hc|]; by apply IH.
Qed.
Lemma take_one_line n s : contains_char nl s = false -> contains_char nl (str_take n s) = false.
Proof.
  revert n. induction s as [|c s IH]; intros [|n]; cbn; [done..|]. intros [Hc Hs]%orb_false_iff. rewrite Hc. by apply IH.
Qed.
Lemma str_take_short n a b : (n <= len a)%nat -> str_take n (a ++ b) = str_take n a.
Proof.
  revert n. induction a as [|c a IH]; intros n Hn; [cbn in Hn; destruct n; [by destruct b|lia]|].
  destruct n as [|n]; [done|]. cbn. rewrite IH; [done|]. unfold len in *. cbn in Hn. lia.
Qed.
Lemma str_take_long n a b : (len a <= n)%nat -> str_take n (a ++ b) = a ++ str_take (n - len a) b.
Proof.
  revert n. induction a as [|c a IH]; intros n Hn; [by rewrite Nat.sub_0_r|]. unfold len in *. cbn in Hn.
  destruct n as [|n]; [lia|]. cbn. rewrite IH; [done|lia].
Qed.
