(* ===== verification/Json.v ===== *)
(** * JSON documents

    [Value] is the document type of the [serde_json] crate as the source
    matches on it, with the accessors the program calls.  The second half is
    what [#[derive(Serialize, Deserialize)]] means for a struct at the level
    of documents: one [Codec] instance per type, built from field decoders
    that follow the [serde] attributes ([default], [rename_all],
    [skip_serializing_if]).  Turning text into a document and back is left to
    the environment (file World). *)
From S2P Require Import Prelude RustStr.
#[local] Open Scope string_scope.
#[local] Open Scope Z_scope.

(** Numbers without a fraction or exponent are [VNumber]; any other number is
    kept as its text.  An object lists its members in document order. *)
Inductive Value : Type :=
| VNull
| VBool (b : bool)
| VNumber (n : Z)
| VFloat (text : string)
| VString (s : string)
| VArray (items : list Value)
| VObject (members : list (string * Value)).

(** ** Accessors *)
(** A repeated key of a document keeps its last value, as [serde_json] builds
    its maps. *)
Definition member (k : string) (ms : list (string * Value)) : option Value :=
  snd <$> find_last (fun kv => String.eqb (fst kv) k) ms.

(** [Value::get] with a string index. *)
Definition get (k : string) (v : Value) : option Value :=
  match v with VObject ms => member k ms | _ => None end.
Definition as_str (v : Value) : option string :=
  match v with VString s => Some s | _ => None end.
Definition as_array (v : Value) : option (list Value) :=
  match v with VArray l => Some l | _ => None end.
Definition as_i64 (v : Value) : option Z :=
  match v with
  | VNumber n =>
      if (-9223372036854775808 <=? n) && (n <=? 9223372036854775807) then Some n else None
  | _ => None
  end.
(** [value["k"]]: a missing member indexes to [null]. *)
Definition index (k : string) (v : Value) : Value := default VNull (get k v).
(** [v.get(k).and_then(Value::as_str)], the idiom of the whole program. *)
Definition get_str (k : string) (v : Value) : option string := get k v ≫= as_str.

(** [Value::pointer] for the reference tokens of a JSON pointer. *)
Fixpoint pointer (tokens : list string) (v : Value) : option Value :=
  match tokens with
  | [] => Some v
  | t :: ts =>
      match v with
      | VObject ms => member t ms ≫= pointer ts
      | VArray l =>
          match digits_value 0 t with
          | Some i => if is_empty t || (starts_with "0" t && negb (String.eqb t "0")) then None
                      else l !! Z.to_nat i ≫= pointer ts
          | None => None
          end
      | _ => None
      end
  end.

(** ** Codecs *)

(** [encode]/[decode] stand for [Serialize]/[Deserialize] of a type; decoding
    failure carries no text here because the program only ever reports it. *)
Class Codec (A : Type) := {
  encode : A -> Value;
  decode : Value -> option A
}.

(** Documents whose text determines them: whole numbers inside the 64-bit
    widths of [serde_json::Number], and no other numbers. *)
Fixpoint representable (v : Value) : bool :=
  match v with
  | VNull | VBool _ | VString _ => true
  | VNumber n => (-9223372036854775808 <=? n) && (n <=? u64_max)
  | VFloat _ => false
  | VArray l => forallb representable l
  | VObject ms => forallb (fun kv => representable (snd kv)) ms
  end.

(** The values of [A] that survive a write and a read: [codec_wf] holds the
    machine-width bounds of the integers inside. *)
Class CodecOk (A : Type) `{Codec A} := {
  codec_wf : A -> Prop;
  decode_encode : forall a, codec_wf a -> decode (encode a) = Some a;
  encode_representable : forall a, codec_wf a -> representable (encode a) = true;
  decode_wf : forall v a, decode v = Some a -> codec_wf a
}.

#[export] Instance string_codec : Codec string :=
  { encode := VString; decode := as_str }.
#[export] Instance string_codec_ok : CodecOk string.
Proof. by refine (Build_CodecOk _ _ (fun _ => True) _ _ _). Defined.

(** [u32]: only a whole number inside the width decodes. *)
Definition decode_u32 (v : Value) : option Z :=
  match v with VNumber n => if is_u32b n then Some n else None | _ => None end.

Lemma decode_u32_number n : is_u32 n -> decode_u32 (VNumber n) = Some n.
Proof. intros H. simpl. by rewrite (proj2 (is_u32b_spec n) H). Qed.

(** [Option<T>]: [null] is [None]. *)
#[export] Instance option_codec {A} `{Codec A} : Codec (option A) := {
  encode o := match o with Some a => encode a | None => VNull end;
  decode v := match v with VNull => Some None | _ => Some <$> decode v end
}.

(** A type whose encoding is never [null], so that [Option] is unambiguous. *)
Class NonNull (A : Type) `{Codec A} := non_null : forall a, encode a <> VNull.
#[export] Instance string_non_null : NonNull string.
Proof. done. Qed.

#[export] Instance option_codec_ok {A} `{CodecOk A} `{!NonNull A} : CodecOk (option A).
Proof.
  refine (Build_CodecOk _ _ (fun o => match o with Some a => codec_wf a | None => True end) _ _ _).
  - intros [a|] Ha; [|done]. cbn [encode decode option_codec].
    pose proof (non_null a). rewrite (decode_encode a Ha).
    destruct (encode a) eqn:E; done.
  - intros [a|] Ha; [|done]. cbn. by apply (encode_representable (A:=A)).
  - intros v [a|] Hv; [|done]. apply (decode_wf (A:=A) v).
    destruct v; cbn in Hv; try done; destruct (decode _); naive_solver.
Defined.

(** [Vec<T>]. *)
#[export] Instance list_codec {A} `{Codec A} : Codec (list A) := {
  encode l := VArray (encode <$> l);
  decode v := match v with VArray vs => mapM decode vs | _ => None end
}.
#[export] Instance list_codec_ok {A} `{CodecOk A} : CodecOk (list A).
Proof.
  refine (Build_CodecOk _ _ (fun l => Forall codec_wf l) _ _ _).
  - intros l Hl. cbn. induction Hl as [|a l Ha _ IH]; [done|].
    cbn. rewrite (decode_encode a Ha). cbn. by rewrite IH.
  - intros l Hl. cbn. induction Hl as [|a l Ha _ IH]; [done|].
    cbn. by rewrite (encode_representable a Ha), IH.
  - intros v l Hv. destruct v as [| | | | |vs|]; cbn in Hv; try done.
    apply mapM_Some in Hv. clear -Hv. induction Hv as [|v a vs l Ha _ IH]; constructor;
      [by apply (decode_wf (A:=A) v) | done].
Defined.

(** [BTreeMap<String, T>]: written in key order; on a repeated key the last
    member wins. *)
Definition key_le {A} (a b : string * A) : Prop := str_le (fst a) (fst b).
#[export] Instance key_le_dec {A} (a b : string * A) : Decision (key_le a b).
Proof. unfold key_le. apply _. Defined.
Definition btree_iter {A} (m : gmap string A) : list (string * A) :=
  merge_sort key_le (map_to_list m).
Definition btree_keys {A} (m : gmap string A) : list string := fst <$> btree_iter m.

Definition decode_member {A} `{Codec A} (kv : string * Value) : option (string * A) :=
  (fun a => (fst kv, a)) <$> decode (snd kv).
#[export] Instance map_codec {A} `{Codec A} : Codec (gmap string A) := {
  encode m := VObject (prod_map id encode <$> btree_iter m);
  decode v := match v with
              | VObject ms => (fun l => list_to_map (reverse l)) <$> mapM decode_member ms
              | _ => None
              end
}.

Lemma btree_iter_perm {A} (m : gmap string A) : btree_iter m ≡ₚ map_to_list m.
Proof. apply merge_sort_Permutation. Qed.

Lemma elem_of_btree_iter {A} (m : gmap string A) k a :
  (k, a) ∈ btree_iter m <-> m !! k = Some a.
Proof. rewrite btree_iter_perm. apply elem_of_map_to_list. Qed.

Lemma elem_of_btree_keys {A} (m : gmap string A) k :
  k ∈ btree_keys m <-> is_Some (m !! k).
Proof.
  unfold btree_keys. rewrite list_elem_of_fmap. split.
  - intros [[k' a] [-> Hin]]. apply elem_of_btree_iter in Hin. eauto.
  - intros [a Ha]. exists (k, a). split; [done | by apply elem_of_btree_iter].
Qed.

Lemma mapM_decode_members {A} `{CodecOk A} (l : list (string * A)) :
  Forall (fun kv => codec_wf (snd kv)) l ->
  mapM decode_member (prod_map id encode <$> l) = Some l.
Proof.
  induction 1 as [|[k a] l Ha _ IH]; [done|]. cbn in *.
  assert (decode_member (k, encode a) = Some (k, a)) as ->.
  { unfold decode_member. cbn. by rewrite (decode_encode a Ha). }
  cbn. by rewrite IH.
Qed.

#[export] Instance map_codec_ok {A} `{CodecOk A} : CodecOk (gmap string A).
Proof.
  refine (Build_CodecOk _ _ (fun m => map_Forall (fun _ a => codec_wf a) m) _ _ _).
  1: intros m Hm; cbn; rewrite mapM_decode_members; cbn.
  - f_equal. rewrite (list_to_map_proper _ (btree_iter m)).
    + rewrite (list_to_map_proper _ (map_to_list m)).
      * apply list_to_map_to_list.
      * rewrite btree_iter_perm. apply NoDup_fst_map_to_list.
      * apply btree_iter_perm.
    + rewrite (reverse_Permutation (btree_iter m)), btree_iter_perm. apply NoDup_fst_map_to_list.
    + apply reverse_Permutation.
  - apply Forall_forall. intros [k a] Hin. apply elem_of_btree_iter in Hin.
    by apply (Hm k).
  - intros m Hm. cbn. apply forallb_forall. intros [k v] Hin.
    apply list_elem_of_In, list_elem_of_fmap in Hin as [[k' a] [[= -> ->] Hin]].
    apply elem_of_btree_iter in Hin. cbn. apply (encode_representable (A:=A)). by apply (Hm k').
  - intros v m Hv k a Hk. destruct v as [| | | | | |ms]; cbn in Hv; try done.
    destruct (mapM decode_member ms) as [l|] eqn:El; cbn in Hv; [|done]. simplify_eq.
    apply elem_of_list_to_map_2 in Hk. rewrite elem_of_reverse in Hk.
    apply mapM_Some in El. apply list_elem_of_lookup in Hk as [i Hk].
    destruct (Forall2_lookup_r _ _ _ _ _ El Hk) as ([k' v] & _ & Hd).
    unfold decode_member in Hd. cbn in Hd. destruct (decode v) eqn:Ev; cbn in Hd; [|done].
    simplify_eq. by apply (decode_wf (A:=A) v).
Defined.

(** ** Struct fields *)

(** One field of a derived struct.  A field given twice is an error. *)
Inductive field_value := Missing | Present (v : Value) | Duplicate.
Definition field (k : string) (ms : list (string * Value)) : field_value :=
  match List.filter (fun kv => String.eqb (fst kv) k) ms with
  | [] => Missing
  | [(_, v)] => Present v
  | _ => Duplicate
  end.

(** A field without [serde(default)]. *)
Definition required {A} (dec : Value -> option A) (k : string) (ms : list (string * Value)) : option A :=
  match field k ms with Present v => dec v | _ => None end.
(** A field with [serde(default)] or [serde(default = ...)]. *)
Definition defaulted {A} (d : A) (dec : Value -> option A) (k : string)
    (ms : list (string * Value)) : option A :=
  match field k ms with Missing => Some d | Present v => dec v | Duplicate => None end.

Definition object_members (v : Value) : option (list (string * Value)) :=
  match v with VObject ms => Some ms | _ => None end.

(** [skip_serializing_if = "Option::is_none"]. *)
Definition opt_member {A} `{Codec A} (k : string) (o : option A) : list (string * Value) :=
  match o with Some a => [(k, encode a)] | None => [] end.

(** What every successful decoding of a field satisfies. *)
Lemma required_sound {A} (P : A -> Prop) (dec : Value -> option A) k ms a :
  (forall v a, dec v = Some a -> P a) -> required dec k ms = Some a -> P a.
Proof. intros Hd. unfold required. destruct (field k ms); naive_solver. Qed.
Lemma defaulted_sound {A} (P : A -> Prop) (d : A) (dec : Value -> option A) k ms a :
  P d -> (forall v a, dec v = Some a -> P a) -> defaulted d dec k ms = Some a -> P a.
Proof. intros Hp Hd. unfold defaulted. destruct (field k ms); naive_solver. Qed.
Lemma decode_u32_sound v n : decode_u32 v = Some n -> is_u32 n.
Proof.
  destruct v; cbn; try done. destruct (is_u32b n0) eqn:E; [|done].
  intros [= <-]. by apply is_u32b_spec.
Qed.
Lemma u32_representable n :
  is_u32 n -> (-9223372036854775808 <=? n) && (n <=? u64_max) = true.
Proof.
  unfold is_u32, u32_max, u64_max. intros H.
  apply andb_true_iff. rewrite !Z.leb_le. lia.
Qed.

(** Split a decoder run into its fields. *)
Ltac inv_decode H :=
  repeat match type of H with
  | (_ ≫= _) = Some _ =>
      let x := fresh "x" in let Hx := fresh "Hx" in
      apply bind_Some in H as (x & Hx & H)
  end; injection H as <-.
(** Bounds facts of decoded fields. *)
Ltac field_sound :=
  match goal with
  | Hx : required decode_u32 _ _ = Some ?x |- is_u32 ?x =>
      exact (required_sound is_u32 _ _ _ _ decode_u32_sound Hx)
  | Hx : defaulted _ decode_u32 _ _ = Some ?x |- is_u32 ?x =>
      refine (defaulted_sound is_u32 _ _ _ _ _ _ decode_u32_sound Hx); done
  | Hx : required decode _ _ = Some ?x |- codec_wf ?x =>
      exact (required_sound codec_wf _ _ _ _ decode_wf Hx)
  | Hx : defaulted _ decode _ _ = Some ?x |- codec_wf ?x =>
      refine (defaulted_sound codec_wf _ _ _ _ _ _ decode_wf Hx); done
  end.

(** Reading back a field that was written. *)
Lemma defaulted_encode {A} `{CodecOk A} (a d : A) k ms :
  field k ms = Present (encode a) -> codec_wf a -> defaulted d decode k ms = Some a.
Proof. intros Hf Ha. unfold defaulted. by rewrite Hf, decode_encode. Qed.
Lemma required_encode {A} `{CodecOk A} (a : A) k ms :
  field k ms = Present (encode a) -> codec_wf a -> required decode k ms = Some a.
Proof. intros Hf Ha. unfold required. by rewrite Hf, decode_encode. Qed.
Lemma required_u32 n k ms :
  field k ms = Present (VNumber n) -> is_u32 n -> required decode_u32 k ms = Some n.
Proof. intros Hf Hn. unfold required. by rewrite Hf, decode_u32_number. Qed.
Lemma defaulted_u32 d n k ms :
  field k ms = Present (VNumber n) -> is_u32 n -> defaulted d decode_u32 k ms = Some n.
Proof. intros Hf Hn. unfold defaulted. by rewrite Hf, decode_u32_number. Qed.

(** [Option] and [string] members are well formed without side condition. *)
Lemma codec_wf_opt_string (o : option string) : codec_wf o.
Proof. by destruct o. Qed.
#[export] Hint Resolve codec_wf_opt_string : bb.

(** A member written only when present reads back as the option. *)
Lemma defaulted_opt_member {A} `{CodecOk A} `{!NonNull A} (o : option A) k ms :
  codec_wf o ->
  field k ms = match o with Some a => Present (encode a) | None => Missing end ->
  defaulted None decode k ms = Some o.
Proof.
  intros Ho Hf. unfold defaulted. rewrite Hf. destruct o as [a|]; [|done].
  exact (decode_encode (Some a) Ho).
Qed.
Lemma opt_member_representable {A} `{CodecOk A} `{!NonNull A} (o : option A) k :
  codec_wf o -> forallb (fun kv => representable (snd kv)) (opt_member k o) = true.
Proof. intros Ho. destruct o as [a|]; [|done]. cbn. by rewrite (encode_representable a Ho). Qed.
