(* ===== verification/Time.v ===== *)
(** * Timestamps ([crates/pa-daemon/src/util.rs])

    RFC 3339 UTC text from epoch milliseconds and back, by the civil-date
    algorithm of the source.  All quantities are [Z]; the functions stay far
    inside [i64] on the range the theorems cover. *)
From S2P Require Import Prelude RustStr.
#[local] Open Scope string_scope.
#[local] Open Scope Z_scope.

(** [days_from_civil]. *)
Definition days_from_civil (y m d : Z) : Z :=
  let y := if m <=? 2 then y - 1 else y in
  let era := y / 400 in
  let yoe := y mod 400 in
  let mp := (m + 9) mod 12 in
  let doy := (153 * mp + 2) / 5 + d - 1 in
  let doe := yoe * 365 + yoe / 4 - yoe / 100 + doy in
  era * 146097 + doe - 719468.

(** [civil_from_days]. *)
Definition civil_from_days (z : Z) : Z * Z * Z :=
  let z := z + 719468 in
  let era := z / 146097 in
  let doe := z mod 146097 in
  let yoe := (doe - doe / 1460 + doe / 36524 - doe / 146096) / 365 in
  let y := yoe + era * 400 in
  let doy := doe - (365 * yoe + yoe / 4 - yoe / 100) in
  let mp := (5 * doy + 2) / 153 in
  let d := doy - (153 * mp + 2) / 5 + 1 in
  let m := if mp <? 10 then mp + 3 else mp - 9 in
  ((if m <=? 2 then y + 1 else y), m, d).

(** [iso_from_unix_ms]. *)
Definition iso_from_unix_ms (ms : Z) : string :=
  let secs := ms / 1000 in
  let millis := ms mod 1000 in
  let days := secs / 86400 in
  let secs_of_day := secs mod 86400 in
  let '(year, month, day) := civil_from_days days in
  let hour := secs_of_day / 3600 in
  let minute := (secs_of_day mod 3600) / 60 in
  let second := secs_of_day mod 60 in
  show_padded 4 year ++ "-" ++ show_padded 2 month ++ "-" ++ show_padded 2 day
    ++ "T" ++ show_padded 2 hour ++ ":" ++ show_padded 2 minute ++ ":"
    ++ show_padded 2 second ++ "." ++ show_padded 3 millis ++ "Z".

Definition byte_is (s : string) (i : nat) (c : ascii) : bool :=
  match String.get i s with Some d => Ascii.eqb d c | None => false end.

Definition is_leap (year : Z) : bool :=
  ((Z.rem year 4 =? 0) && negb (Z.rem year 100 =? 0)) || (Z.rem year 400 =? 0).

Definition days_in_month (year month : Z) : Z :=
  match month with
  | 1 | 3 | 5 | 7 | 8 | 10 | 12 => 31
  | 4 | 6 | 9 | 11 => 30
  | 2 => if is_leap year then 29 else 28
  | _ => 28
  end.

Fixpoint take_while (p : ascii -> bool) (s : string) : string :=
  match s with
  | EmptyString => EmptyString
  | String c s' => if p c then String c (take_while p s') else EmptyString
  end.

(** The first three fractional digits, padded with zeros on the right. *)
Definition scaled_millis (digits : string) : string :=
  let d := str_take 3 digits in
  d ++ str_take (3 - len d) "000".

(** The fractional part of [iso_to_unix_ms]: [None] rejects the text. *)
Definition parse_millis (iso : string) : option Z :=
  if (20 <? len iso)%nat && byte_is iso 19 "." then
    let digits := take_while is_ascii_digit (str_drop 20 iso) in
    if is_empty digits then None
    else parse_unsigned u64_max (scaled_millis digits)
  else Some 0.

Definition parse_field (iso : string) (i j : nat) : option Z :=
  get_slice i j iso ≫= parse_unsigned u32_max.

(** [iso_to_unix_ms]. *)
Definition iso_to_unix_ms (iso : string) : option Z :=
  if (len iso <? 19)%nat || negb (byte_is iso 4 "-") || negb (byte_is iso 7 "-")
     || (negb (byte_is iso 10 "T") && negb (byte_is iso 10 " "))
     || negb (byte_is iso 13 ":") || negb (byte_is iso 16 ":")
  then None
  else
    year ← get_slice 0 4 iso ≫= parse_i64;
    month ← parse_field iso 5 7;
    day ← parse_field iso 8 10;
    hour ← parse_field iso 11 13;
    minute ← parse_field iso 14 16;
    second ← parse_field iso 17 19;
    millis ← parse_millis iso;
    if negb ((1 <=? month) && (month <=? 12)) || (day =? 0) || (31 <? day)
       || (23 <? hour) || (59 <? minute) || (59 <? second)
    then None
    else if days_in_month year month <? day then None
    else
      let days := days_from_civil year month day in
      let secs := days * 86400 + hour * 3600 + minute * 60 + second in
      if secs <? 0 then None else Some (secs * 1000 + millis).

(** ** The calendar *)

(** The day-of-year half of the algorithm, checked on all 366 days: month and
    day are in range, a 29 February is day 365 of its March-based year, and the
    day of the year is recovered. *)
Definition month_of (doy : Z) : Z := (5 * doy + 2) / 153.
Definition doy_ok (doy : Z) : bool :=
  let mp := month_of doy in
  let d := doy - (153 * mp + 2) / 5 + 1 in
  let m := if mp <? 10 then mp + 3 else mp - 9 in
  (1 <=? m) && (m <=? 12) && (1 <=? d) && ((m + 9) mod 12 =? mp)
  && (if m =? 2 then (d <=? 28) || ((d =? 29) && (doy =? 365))
      else d <=? days_in_month 1 m).

Lemma doy_ok_all doy : 0 <= doy <= 365 -> doy_ok doy = true.
Proof.
  intros H. assert (forallb (fun i => doy_ok (Z.of_nat i)) (seq 0 366) = true) as Hall
    by (vm_compute; reflexivity).
  rewrite forallb_forall in Hall. rewrite <- (Z2Nat.id doy) by lia.
  apply Hall. apply in_seq. lia.
Qed.

(** The year half: inside an era of 400 years the day offset determines the
    year, and the 366th day only exists before a leap February. *)
Lemma year_of_era doe :
  0 <= doe < 146097 ->
  let yoe := (doe - doe / 1460 + doe / 36524 - doe / 146096) / 365 in
  let doy := doe - (365 * yoe + yoe / 4 - yoe / 100) in
  0 <= yoe <= 399 /\ 0 <= doy <= 365 /\
  (doy = 365 -> (yoe + 1) mod 4 = 0 /\ ((yoe + 1) mod 100 <> 0 \/ yoe = 399)).
Proof. intros H yoe doy. unfold doy, yoe. clear doy yoe. Z.div_mod_to_equations. lia. Qed.

Lemma leap_of_era yoe era :
  0 <= yoe <= 399 -> 0 <= era -> (yoe + 1) mod 4 = 0 ->
  ((yoe + 1) mod 100 <> 0 \/ yoe = 399) -> is_leap (yoe + era * 400 + 1) = true.
Proof.
  intros Hy He H4 H100. unfold is_leap. rewrite !Z.rem_mod_nonneg by lia.
  destruct H100 as [H100 | ->].
  - rewrite (proj2 (Z.eqb_eq (_ mod 4) 0)) by (Z.div_mod_to_equations; lia).
    rewrite (proj2 (Z.eqb_neq (_ mod 100) 0)) by (Z.div_mod_to_equations; lia). done.
  - rewrite (proj2 (Z.eqb_eq (_ mod 400) 0)) by (Z.div_mod_to_equations; lia).
    apply orb_true_r.
Qed.

(** The shape of a date [civil_from_days] returns. *)
Definition civil_valid (z : Z) (ymd : Z * Z * Z) : Prop :=
  let '(y, m, d) := ymd in
  1 <= m <= 12 /\ 1 <= d <= days_in_month y m /\ days_from_civil y m d = z.

Lemma days_in_month_other y m :
  m <> 2 -> days_in_month y m = days_in_month 1 m.
Proof. intros H. unfold days_in_month. repeat (case_match; try done). Qed.

Lemma civil_from_days_valid z : 0 <= z + 719468 -> civil_valid z (civil_from_days z).
Proof.
  intros Hz. unfold civil_valid, civil_from_days.
  set (w := z + 719468) in *. set (era := w / 146097). set (doe := w mod 146097).
  assert (0 <= doe < 146097) as Hdoe by (apply Z.mod_pos_bound; lia).
  assert (0 <= era) as Hera by (apply Z.div_pos; lia).
  pose proof (year_of_era doe Hdoe) as Hyear. cbv zeta in Hyear.
  set (yoe := (doe - doe / 1460 + doe / 36524 - doe / 146096) / 365) in *.
  set (doy := doe - (365 * yoe + yoe / 4 - yoe / 100)) in *.
  destruct Hyear as (Hyoe & Hdoy & Hleap).
  pose proof (doy_ok_all doy Hdoy) as Hok. unfold doy_ok, month_of in Hok.
  set (mp := (5 * doy + 2) / 153) in *. set (d := doy - (153 * mp + 2) / 5 + 1) in *.
  set (m := if mp <? 10 then mp + 3 else mp - 9) in *.
  rewrite !andb_true_iff, !Z.leb_le, Z.eqb_eq in Hok. destruct Hok as ((((Hm1 & Hm2) & Hd1) & Hmp) & Hd2).
  assert (w = 146097 * era + doe) as Hw by (apply Z.div_mod; lia).
  assert (doy = (153 * mp + 2) / 5 + d - 1) as Hdoy' by (unfold d; lia).
  split; [lia|]. split; [split; [lia|]|].
  - destruct (Z.eqb_spec m 2) as [Em|Em].
    + rewrite Em in *. cbn [Z.leb Z.compare Pos.compare Pos.compare_cont].
      unfold days_in_month. apply orb_true_iff in Hd2 as [Hd2|Hd2].
      * apply Z.leb_le in Hd2. destruct (is_leap _); lia.
      * apply andb_true_iff in Hd2 as [Hd2 H365]. rewrite Z.eqb_eq in Hd2, H365.
        destruct (Hleap H365) as [H4 H100].
        replace (yoe + era * 400 + 1) with (yoe + era * 400 + 1) by lia.
        rewrite leap_of_era by done. lia.
    + apply Z.leb_le in Hd2. by rewrite days_in_month_other.
  - unfold days_from_civil. rewrite Hmp.
    assert ((if m <=? 2 then (if m <=? 2 then yoe + era * 400 + 1 else yoe + era * 400) - 1
             else if m <=? 2 then yoe + era * 400 + 1 else yoe + era * 400)
            = yoe + era * 400) as -> by (destruct (m <=? 2); lia).
    rewrite Z.div_add, Z.mod_add by lia. rewrite (Z.div_small yoe), (Z.mod_small yoe) by lia.
    lia.
Qed.

(** 10000-01-01, the first day whose year has five digits. *)
Definition year_10000_days : Z := 2932897.

Lemma civil_year_bound z :
  0 <= z < year_10000_days ->
  let '(y, _, _) := civil_from_days z in 0 <= y < 10000.
Proof.
  intros Hz. unfold civil_from_days, year_10000_days in *.
  set (w := z + 719468) in *. set (era := w / 146097). set (doe := w mod 146097).
  assert (0 <= doe < 146097) as Hdoe by (apply Z.mod_pos_bound; lia).
  pose proof (year_of_era doe Hdoe) as Hyear. cbv zeta in Hyear.
  set (yoe := (doe - doe / 1460 + doe / 36524 - doe / 146096) / 365) in *.
  set (doy := doe - (365 * yoe + yoe / 4 - yoe / 100)) in *.
  set (mp := (5 * doy + 2) / 153) in *.
  assert (w = 146097 * era + doe) as Hw by (apply Z.div_mod; lia).
  destruct (Z.ltb_spec mp 10) as [Hmp|Hmp].
  - rewrite (proj2 (Z.leb_gt (mp + 3) 2)); [|unfold mp; Z.div_mod_to_equations; lia]. lia.
  - assert (306 <= doy) by (unfold mp in Hmp; Z.div_mod_to_equations; lia).
    destruct Hyear as (Hyoe & Hdoy & _).
    assert (yoe + era * 400 <= 9998).
    { destruct (Z.eq_dec yoe 399) as [E|]; [|lia]. unfold doy in *. rewrite E in *.
      change (399 / 4) with 99 in *. change (399 / 100) with 3 in *. unfold era in *. lia. }
    destruct (_ <=? 2); lia.
Qed.

(** ** Text *)
(** A byte after a prefix of known length. *)
Lemma byte_is_app a c b i : i = len a -> byte_is (a ++ String c b) i c = true.
Proof.
  intros ->. unfold byte_is. replace (len a) with (len a + 0)%nat by lia.
  rewrite str_get_app_r. apply Ascii.eqb_refl.
Qed.

Lemma take_while_app p a c b :
  str_forall p a = true -> p c = false -> take_while p (a ++ String c b) = a.
Proof.
  intros Ha Hc. induction a as [|x a IH]; simpl in *; [by rewrite Hc|].
  apply andb_true_iff in Ha as [-> Ha]. by rewrite IH.
Qed.

Section RoundTrip.
Context (y m d h mi s f : Z).
Context (Hy : 0 <= y < 10000) (Hm : 0 <= m < 100) (Hd : 0 <= d < 100) (Hh : 0 <= h < 100)
        (Hmi : 0 <= mi < 100) (Hs : 0 <= s < 100) (Hf : 0 <= f < 1000).

Definition iso_text : string :=
  dec_width 4 y ++ "-" ++ dec_width 2 m ++ "-" ++ dec_width 2 d
    ++ "T" ++ dec_width 2 h ++ ":" ++ dec_width 2 mi ++ ":"
    ++ dec_width 2 s ++ "." ++ dec_width 3 f ++ "Z".

Lemma iso_text_len : len iso_text = 24%nat.
Proof. unfold iso_text. rewrite !str_len_app, !len_dec_width. reflexivity. Qed.

Ltac slice a b c :=
  transitivity (get_slice (len a) (len a + len b) (a ++ b ++ c));
  [reflexivity | apply get_slice_app; [done | done | apply dec_width_head; lia | done]].

Lemma iso_text_year : get_slice 0 4 iso_text = Some (dec_width 4 y).
Proof.
  slice "" (dec_width 4 y) ("-" ++ dec_width 2 m ++ "-" ++ dec_width 2 d
    ++ "T" ++ dec_width 2 h ++ ":" ++ dec_width 2 mi ++ ":"
    ++ dec_width 2 s ++ "." ++ dec_width 3 f ++ "Z").
Qed.
Lemma iso_text_month : get_slice 5 7 iso_text = Some (dec_width 2 m).
Proof.
  slice (dec_width 4 y ++ "-") (dec_width 2 m) ("-" ++ dec_width 2 d
    ++ "T" ++ dec_width 2 h ++ ":" ++ dec_width 2 mi ++ ":"
    ++ dec_width 2 s ++ "." ++ dec_width 3 f ++ "Z").
Qed.
Lemma iso_text_day : get_slice 8 10 iso_text = Some (dec_width 2 d).
Proof.
  slice (dec_width 4 y ++ "-" ++ dec_width 2 m ++ "-") (dec_width 2 d)
    ("T" ++ dec_width 2 h ++ ":" ++ dec_width 2 mi ++ ":"
    ++ dec_width 2 s ++ "." ++ dec_width 3 f ++ "Z").
Qed.
Lemma iso_text_hour : get_slice 11 13 iso_text = Some (dec_width 2 h).
Proof.
  slice (dec_width 4 y ++ "-" ++ dec_width 2 m ++ "-" ++ dec_width 2 d ++ "T")
    (dec_width 2 h) (":" ++ dec_width 2 mi ++ ":"
    ++ dec_width 2 s ++ "." ++ dec_width 3 f ++ "Z").
Qed.
Lemma iso_text_minute : get_slice 14 16 iso_text = Some (dec_width 2 mi).
Proof.
  slice (dec_width 4 y ++ "-" ++ dec_width 2 m ++ "-" ++ dec_width 2 d ++ "T"
    ++ dec_width 2 h ++ ":") (dec_width 2 mi) (":"
    ++ dec_width 2 s ++ "." ++ dec_width 3 f ++ "Z").
Qed.
Lemma iso_text_second : get_slice 17 19 iso_text = Some (dec_width 2 s).
Proof.
  slice (dec_width 4 y ++ "-" ++ dec_width 2 m ++ "-" ++ dec_width 2 d ++ "T"
    ++ dec_width 2 h ++ ":" ++ dec_width 2 mi ++ ":") (dec_width 2 s)
    ("." ++ dec_width 3 f ++ "Z").
Qed.

Lemma iso_text_millis : parse_millis iso_text = Some f.
Proof.
  unfold parse_millis. rewrite iso_text_len.
  change (byte_is iso_text 19 ".") with true.
  change (str_drop 20 iso_text) with (dec_width 3 f ++ "Z"). cbn [Nat.ltb Nat.leb andb].
  rewrite (take_while_app _ _ _ "") by (apply dec_width_digits || reflexivity).
  change (is_empty (dec_width 3 f)) with false.
  change (scaled_millis (dec_width 3 f)) with (dec_width 3 f).
  apply parse_unsigned_dec_width; [lia | lia | unfold u64_max; lia].
Qed.

Lemma parse_two i j v :
  0 <= v < 100 -> get_slice i j iso_text = Some (dec_width 2 v) ->
  parse_field iso_text i j = Some v.
Proof.
  intros Hv H. unfold parse_field. rewrite H. cbn.
  apply (parse_unsigned_dec_width u32_max 2 v); [lia | lia | unfold u32_max; lia].
Qed.

(** Parsing the text of a valid date and time of day recovers its instant. *)
Lemma iso_to_unix_ms_text :
  1 <= m <= 12 -> 1 <= d <= days_in_month y m -> h <= 23 -> mi <= 59 -> s <= 59 ->
  let secs := days_from_civil y m d * 86400 + h * 3600 + mi * 60 + s in
  0 <= secs -> iso_to_unix_ms iso_text = Some (secs * 1000 + f).
Proof.
  intros Hm' Hd' Hh' Hmi' Hs' secs Hsecs. unfold iso_to_unix_ms.
  rewrite iso_text_len. cbn [Nat.ltb Nat.leb].
  change (byte_is iso_text 4 "-") with true. change (byte_is iso_text 7 "-") with true.
  change (byte_is iso_text 10 "T") with true. change (byte_is iso_text 13 ":") with true.
  change (byte_is iso_text 16 ":") with true. cbn [negb orb andb].
  assert (get_slice 0 4 iso_text ≫= parse_i64 = Some y) as ->.
  { rewrite iso_text_year. apply (parse_i64_dec_width 4 y); lia. }
  rewrite (parse_two _ _ m Hm iso_text_month), (parse_two _ _ d Hd iso_text_day).
  rewrite (parse_two _ _ h Hh iso_text_hour), (parse_two _ _ mi Hmi iso_text_minute).
  rewrite (parse_two _ _ s Hs iso_text_second), iso_text_millis. cbn [mbind option_bind].
  assert (days_in_month y m <= 31) by (unfold days_in_month; repeat case_match; lia).
  rewrite (proj2 (Z.leb_le 1 m)), (proj2 (Z.leb_le m 12)), (proj2 (Z.eqb_neq d 0)) by lia.
  rewrite (proj2 (Z.ltb_ge 31 d)), (proj2 (Z.ltb_ge 23 h)), (proj2 (Z.ltb_ge 59 mi)) by lia.
  rewrite (proj2 (Z.ltb_ge 59 s)), (proj2 (Z.ltb_ge (days_in_month y m) d)) by lia.
  cbn [negb orb andb]. fold secs. by rewrite (proj2 (Z.ltb_ge secs 0)).
Qed.
End RoundTrip.

(** The first millisecond of year 10000. *)
Definition year_10000_ms : Z := 253402300800000.

Lemma iso_back ms :
  0 <= ms < year_10000_ms -> iso_to_unix_ms (iso_from_unix_ms ms) = Some ms.
Proof.
  intros Hms. unfold year_10000_ms in Hms. unfold iso_from_unix_ms.
  set (secs := ms / 1000). set (days := secs / 86400).
  assert (0 <= days < year_10000_days) as Hdays
    by (unfold days, secs, year_10000_days; Z.div_mod_to_equations; lia).
  pose proof (civil_from_days_valid days ltac:(lia)) as Hv.
  pose proof (civil_year_bound days Hdays) as Hy.
  destruct (civil_from_days days) as [[y m] d]. destruct Hv as (Hm & Hd & Heq).
  assert (days_in_month y m <= 31) by (unfold days_in_month; repeat case_match; lia).
  assert (0 <= secs mod 86400 < 86400) as Hsod by (apply Z.mod_pos_bound; lia).
  set (sod := secs mod 86400) in *.
  assert (0 <= sod / 3600 <= 23) by (Z.div_mod_to_equations; lia).
  assert (0 <= sod mod 3600 / 60 <= 59) by (Z.div_mod_to_equations; lia).
  assert (0 <= sod mod 60 <= 59) by (Z.div_mod_to_equations; lia).
  assert (0 <= ms mod 1000 < 1000) by (apply Z.mod_pos_bound; lia).
  rewrite !show_padded_exact by lia.
  assert (days * 86400 + sod / 3600 * 3600 + sod mod 3600 / 60 * 60 + sod mod 60 = secs) as Hs.
  { unfold days, sod. clear. Z.div_mod_to_equations. lia. }
  etransitivity.
  - apply (iso_to_unix_ms_text y m d (sod / 3600) (sod mod 3600 / 60) (sod mod 60) (ms mod 1000));
      first [lia | rewrite Heq, Hs; unfold secs; apply Z.div_pos; lia].
  - rewrite Heq, Hs. f_equal. unfold secs. clear. Z.div_mod_to_equations. lia.
Qed.

(** A timestamp written by [iso_from_unix_ms] is read back by
    [iso_to_unix_ms] as the same millisecond, for every instant from the epoch
    to the end of year 9999. *)
Theorem iso_round_trip ms :
  0 <= ms < year_10000_ms -> iso_to_unix_ms (iso_from_unix_ms ms) = Some ms.
Proof. apply iso_back. Qed.

Lemma iso_round_trip_witness :
  iso_to_unix_ms (iso_from_unix_ms 1709251199999) = Some 1709251199999
  /\ iso_from_unix_ms 1709251199999 = "2024-02-29T23:59:59.999Z".
Proof.
  split; [apply (iso_round_trip 1709251199999); unfold year_10000_ms; lia | reflexivity].
Defined.
