(* ===== verification/World.v ===== *)
(** * The process and its surroundings

    Paths, the file system with its system calls, the clock, and the monad in
    which the effectful code of the program is written.  Every system call
    consults a fault schedule: it may succeed, fail with an I/O error, or be
    the point where the process is killed; a failed or interrupted write may
    leave a torn file.  What the program calls but does not contain (the JSON
    text codec, git, the daemon, HTTP servers) enters through the class
    [Env]. *)
From S2P Require Import Prelude RustStr Json Time.
#[local] Open Scope string_scope.
#[local] Open Scope Z_scope.

(** ** Paths

    A path is the list of its components as [Path::components] yields them;
    the root directory is the component ["/"].  [PathBuf] equality is equality
    of components. *)
Abbreviation path := (list string) (only parsing).

Definition path_of_string (s : string) : path :=
  let parts := List.filter (fun c => negb (is_empty c) && negb (String.eqb c "."))
                 (split_char "/" s) in
  if starts_with "/" s then "/" :: parts
  else if starts_with "./" s || String.eqb s "." then "." :: parts else parts.

(** [Path::join] with text. *)
Definition join (p : path) (s : string) : path :=
  if starts_with "/" s then path_of_string s
  else p ++ List.filter (fun c => negb (is_empty c) && negb (String.eqb c "."))
              (split_char "/" s).

(** [Path::display] / [to_string_lossy]. *)
Definition path_display (p : path) : string :=
  match p with
  | "/" :: rest => "/" ++ join_with "/" rest
  | _ => join_with "/" p
  end.

(** [Path::parent]. *)
Definition parent (p : path) : option path :=
  match p with
  | [] => None
  | ["/"] => None
  | _ => Some (removelast p)
  end.

(** [Path::file_name]: the last component when it is a normal one. *)
Definition file_name (p : path) : option string :=
  match last p with
  | Some c => if String.eqb c ".." || String.eqb c "/" || String.eqb c "." then None else Some c
  | None => None
  end.

(** [Path::extension]: after the last dot, which is not the first byte. *)
Definition extension (p : path) : option string :=
  match file_name p with
  | None => None
  | Some name =>
      match rsplit_once "." name with
      | Some (stem, ext) => if is_empty stem then None else Some ext
      | None => None
      end
  end.

(** [Path] ordering: component by component. *)
Fixpoint path_leb (a b : path) : bool :=
  match a, b with
  | [], _ => true
  | _ :: _, [] => false
  | x :: a', y :: b' => if String.eqb x y then path_leb a' b' else str_leb x y
  end.
Definition path_le (a b : path) : Prop := path_leb a b = true.
#[export] Instance path_le_dec a b : Decision (path_le a b).
Proof. unfold path_le. solve_decision. Defined.

(** The proper ancestors of a path, the root first. *)
Fixpoint proper_prefixes (p : path) : list path :=
  match p with
  | [] => []
  | [_] => []
  | c :: p' => [c] :: (cons c <$> proper_prefixes p')
  end.

(** ** I/O errors *)
Inductive io_kind :=
| NotFound | AlreadyExists | WouldBlock | PermissionDenied
| IsADirectory | NotADirectory | DirectoryNotEmpty | OtherIo.
#[export] Instance io_kind_eq_dec : EqDecision io_kind.
Proof. solve_decision. Defined.

Record io_error := IoError { io_error_kind : io_kind; io_error_text : string }.

(** ** What lies outside the program *)

(** A line the daemon sends on the socket, as the reader sees it. *)
Inductive daemon_line :=
| DLine (v : Value)          (* a line holding one JSON document *)
| DGarbage (text : string)   (* a line that does not parse, with the parser's message *)
| DClosed.                   (* end of stream *)

(** The outcome of connecting to the daemon's socket: the lines that arrive, or
    the transport's error. *)
Inductive connect_answer :=
| Connected (lines : list daemon_line)
| ConnectFailed (text : string)
| ConnectTimedOut.

(** The outcome of sending one line: the lines that arrive until the request
    timeout, or the writer's error. *)
Inductive send_answer :=
| Sent (lines : list daemon_line)
| SendFailed (text : string)
| SendTimedOut
| FlushFailed (text : string).

(** The answer of an HTTP server: a status and a body, or a transport error. *)
Inductive http_answer :=
| HttpResponse (status : Z) (status_text body : string)
| HttpFailed (text : string).

(** The answer of one [git] run: exit success with standard output, exit
    failure with standard error, a failure to run it, or the watchdog's kill. *)
Inductive git_answer :=
| GitOut (stdout : string)
| GitFail (stderr : string)
| GitSpawnFailed (text : string)
| GitTimedOut.

Class Env := {
  (** file contents *)
  Bytes : Type;
  text_bytes : string -> Bytes;
  bytes_text : Bytes -> option string;
  (** [serde_json]: documents to text and back, with the error's message *)
  to_string_pretty : Value -> string + Bytes;
  from_slice : Bytes -> string + Value;
  from_str : string -> string + Value;
  value_display : Value -> string;
  (** the message of a document that does not fit the schema it is read at *)
  schema_error_text : Value -> string;
  (** the operating system's error messages *)
  os_error_text : io_kind -> string;
  (** everything else the process talks to, as one opaque state *)
  Ext : Type;
  git_run : Ext -> path -> list string -> Ext * git_answer;
  daemon_connect : Ext -> path -> Ext * connect_answer;
  daemon_send : Ext -> Value -> Ext * send_answer;
  http_post : Ext -> string -> list (string * string) -> Value -> Ext * http_answer;
  process_alive : Ext -> Z -> bool;
  flock_held : Ext -> path -> bool
}.

(** The documented contract of [serde_json]: a document written as text reads
    back as itself. *)
Class EnvOk `{Env} := {
  json_text_round_trip : forall v, representable v = true ->
    exists b, to_string_pretty v = inr b /\ from_slice b = inr v
}.

(** ** The process's memory *)

(** A [DaemonClient]: the last request id and the lines the reader has not
    consumed yet. *)
Record Client := mkClient { c_next_id : Z; c_inbox : list daemon_line }.

(** What the observer process keeps between calls: the shared connection and
    the wakes it has issued, as (session, head). *)
Record Memory := mkMemory { m_client : option Client; m_woken : gset (string * string) }.
Definition fresh_memory : Memory := mkMemory None ∅.

Section World.
Context `{Env}.

(** ** The world *)
Inductive node :=
| File (content : Bytes)
| Dir (mtime : Z).

(** What happens at one system call: it runs; the device or the operating
    system fails it (an error that is neither absence, existence nor
    contention); or the process dies there.  [torn] is the content a write
    leaves behind when it does not run to completion. *)
Inductive fault :=
| NoFault
| FailIo (torn : option Bytes)
| Kill (torn : option Bytes).

Record World := mkWorld {
  w_fs : gmap path node;
  w_clock : nat -> Z;      (* the clock's successive readings, in milliseconds *)
  w_tick : nat;            (* readings taken so far *)
  w_fault : nat -> fault;  (* the fault schedule *)
  w_op : nat;              (* system calls made so far *)
  w_ext : Ext;
  w_mem : Memory
}.

Definition set_fs (fs : gmap path node) (w : World) : World :=
  mkWorld fs (w_clock w) (w_tick w) (w_fault w) (w_op w) (w_ext w) (w_mem w).
Definition bump_op (w : World) : World :=
  mkWorld (w_fs w) (w_clock w) (w_tick w) (w_fault w) (S (w_op w)) (w_ext w) (w_mem w).
Definition bump_tick (w : World) : World :=
  mkWorld (w_fs w) (w_clock w) (S (w_tick w)) (w_fault w) (w_op w) (w_ext w) (w_mem w).
Definition set_ext (x : Ext) (w : World) : World :=
  mkWorld (w_fs w) (w_clock w) (w_tick w) (w_fault w) (w_op w) x (w_mem w).
Definition set_mem (m : Memory) (w : World) : World :=
  mkWorld (w_fs w) (w_clock w) (w_tick w) (w_fault w) (w_op w) (w_ext w) m.

(** ** The monad *)
Definition M (E A : Type) : Type := World -> result E A * World.

Definition ret {E A} (a : A) : M E A := fun w => (Ok a, w).
Definition throw {E A} (e : E) : M E A := fun w => (Err e, w).
(** A Rust panic unwinds the task: no value is returned. *)
Definition panic {E A} : M E A := fun w => (Killed, w).
Definition bind {E A B} (m : M E A) (f : A -> M E B) : M E B := fun w =>
  match m w with
  | (Ok a, w') => f a w'
  | (Err e, w') => (Err e, w')
  | (Killed, w') => (Killed, w')
  end.
Definition map_err {E F A} (f : E -> F) (m : M E A) : M F A := fun w =>
  match m w with
  | (Ok a, w') => (Ok a, w')
  | (Err e, w') => (Err (f e), w')
  | (Killed, w') => (Killed, w')
  end.
(** Match on the [Result] of a call instead of returning early with [?]. *)
Definition attempt {E F A} (m : M E A) : M F (E + A) := fun w =>
  match m w with
  | (Ok a, w') => (Ok (inr a), w')
  | (Err e, w') => (Ok (inl e), w')
  | (Killed, w') => (Killed, w')
  end.
Definition lift {E A} (m : E + A) : M E A := fun w =>
  match m with inl e => (Err e, w) | inr a => (Ok a, w) end.
End World.

Notation "'let*' x ':=' m 'in' k" := (bind m (fun x => k))
  (at level 10, x name, m at level 100, k at level 200) : bb_scope.
Notation "'let*' ' p ':=' m 'in' k" := (bind m (fun p => k))
  (at level 10, p strict pattern, m at level 100, k at level 200) : bb_scope.
Notation "'do*' m 'in' k" := (bind m (fun _ => k))
  (at level 10, m at level 100, k at level 200) : bb_scope.

(** ** System calls *)
Abbreviation fsys := (gmap (list string) node).

Section Syscalls.
Context `{Env}.

Definition os_error (k : io_kind) : io_error := IoError k (os_error_text k).

(** One system call: [eff] is its effect when nothing goes wrong, [torn_eff]
    what a write leaves behind when something does. *)
Definition syscall {A : Type} (torn_eff : Bytes -> fsys -> fsys)
    (eff : fsys -> (io_kind + A) * fsys) : M io_error A := fun w =>
  let leave t := match t with Some b => torn_eff b (w_fs w) | None => w_fs w end in
  match w_fault w (w_op w) with
  | NoFault =>
      let '(r, fs') := eff (w_fs w) in
      (match r with inl k => Err (os_error k) | inr a => Ok a end, set_fs fs' (bump_op w))
  | FailIo t => (Err (os_error OtherIo), set_fs (leave t) (bump_op w))
  | Kill t => (Killed, set_fs (leave t) (bump_op w))
  end.

Definition untorn : Bytes -> fsys -> fsys := fun _ fs => fs.

Definition is_dir (fs : fsys) (p : path) : bool :=
  match p with
  | [] | ["/"] => true
  | _ => match fs !! p with Some (Dir _) => true | _ => false end
  end.
Definition is_file (fs : fsys) (p : path) : bool :=
  match fs !! p with Some (File _) => true | _ => false end.
(** A component of the way to [p] is a regular file. *)
Definition blocked (fs : fsys) (p : path) : bool := existsb (is_file fs) (proper_prefixes p).
Definition missing_kind (fs : fsys) (p : path) : io_kind :=
  if blocked fs p then NotADirectory else NotFound.
Definition parent_is_dir (fs : fsys) (p : path) : bool :=
  match parent p with Some d => is_dir fs d | None => false end.

(** [std::fs::read]. *)
Definition eff_read (p : path) (fs : fsys) : io_kind + Bytes :=
  match fs !! p with
  | Some (File b) => inr b
  | Some (Dir _) => inl IsADirectory
  | None => inl (missing_kind fs p)
  end.
Definition fs_read (p : path) : M io_error Bytes :=
  syscall untorn (fun fs => (eff_read p fs, fs)).

(** [std::fs::write]: creates or truncates, then writes. *)
Definition writable (fs : fsys) (p : path) : bool :=
  parent_is_dir fs p && match fs !! p with Some (Dir _) => false | _ => true end.
Definition eff_write (p : path) (b : Bytes) (fs : fsys) : (io_kind + unit) * fsys :=
  if writable fs p then (inr tt, <[p := File b]> fs)
  else (inl (if parent_is_dir fs p then IsADirectory else missing_kind fs p), fs).
Definition torn_write (p : path) (b : Bytes) (fs : fsys) : fsys :=
  if writable fs p then <[p := File b]> fs else fs.
Definition fs_write (p : path) (b : Bytes) : M io_error unit :=
  syscall (torn_write p) (eff_write p b).

(** [std::fs::rename] of a file: atomic. *)
Definition eff_rename (a b : path) (fs : fsys) : (io_kind + unit) * fsys :=
  match fs !! a with
  | Some (File c) =>
      if writable fs b then (inr tt, <[b := File c]> (delete a fs))
      else (inl (if parent_is_dir fs b then IsADirectory else missing_kind fs b), fs)
  | Some (Dir _) => (inl OtherIo, fs)
  | None => (inl (missing_kind fs a), fs)
  end.
Definition fs_rename (a b : path) : M io_error unit := syscall untorn (eff_rename a b).

(** [std::fs::create_dir] and [create_dir_all]; a new directory's modification
    time is the current clock value. *)
Definition eff_create_dir (p : path) (now : Z) (fs : fsys) : (io_kind + unit) * fsys :=
  if is_dir fs p || is_file fs p then (inl AlreadyExists, fs)
  else if parent_is_dir fs p then (inr tt, <[p := Dir now]> fs)
  else (inl (missing_kind fs p), fs).
Definition fs_create_dir (p : path) : M io_error unit := fun w =>
  syscall untorn (eff_create_dir p (w_clock w (w_tick w))) w.

Fixpoint make_dirs (ps : list path) (now : Z) (fs : fsys) : (io_kind + unit) * fsys :=
  match ps with
  | [] => (inr tt, fs)
  | p :: ps' =>
      if is_dir fs p then make_dirs ps' now fs
      else if is_file fs p then (inl NotADirectory, fs)
      else make_dirs ps' now (<[p := Dir now]> fs)
  end.
Definition eff_create_dir_all (p : path) (now : Z) (fs : fsys) : (io_kind + unit) * fsys :=
  make_dirs (proper_prefixes p ++ [p]) now fs.
Definition fs_create_dir_all (p : path) : M io_error unit := fun w =>
  syscall untorn (eff_create_dir_all p (w_clock w (w_tick w))) w.

Definition has_children (fs : fsys) (p : path) : bool :=
  existsb (fun q => bool_decide (parent (fst q) = Some p)) (map_to_list fs).
Definition eff_remove_dir (p : path) (fs : fsys) : (io_kind + unit) * fsys :=
  match fs !! p with
  | None => (inl (missing_kind fs p), fs)
  | Some (File _) => (inl NotADirectory, fs)
  | Some (Dir _) => if has_children fs p then (inl DirectoryNotEmpty, fs)
                    else (inr tt, delete p fs)
  end.
Definition fs_remove_dir (p : path) : M io_error unit := syscall untorn (eff_remove_dir p).

Definition eff_remove_file (p : path) (fs : fsys) : (io_kind + unit) * fsys :=
  match fs !! p with
  | None => (inl (missing_kind fs p), fs)
  | Some (Dir _) => (inl IsADirectory, fs)
  | Some (File _) => (inr tt, delete p fs)
  end.
Definition fs_remove_file (p : path) : M io_error unit := syscall untorn (eff_remove_file p).

(** [symlink_metadata]. *)
Definition eff_metadata (p : path) (fs : fsys) : io_kind + node :=
  match fs !! p with Some n => inr n | None => inl (missing_kind fs p) end.
Definition fs_metadata (p : path) : M io_error node :=
  syscall untorn (fun fs => (eff_metadata p fs, fs)).

(** [utimensat] on a directory. *)
Definition eff_set_mtime (p : path) (t : Z) (fs : fsys) : (io_kind + unit) * fsys :=
  match fs !! p with
  | Some (Dir _) => (inr tt, <[p := Dir t]> fs)
  | Some (File _) => (inr tt, fs)
  | None => (inl (missing_kind fs p), fs)
  end.
Definition fs_set_mtime (p : path) (t : Z) : M io_error unit :=
  syscall untorn (eff_set_mtime p t).

(** [read_dir]: the children of a directory, in the order the file system
    yields them. *)
Definition children (p : path) (fs : fsys) : list path :=
  List.filter (fun q => bool_decide (parent q = Some p)) (fst <$> map_to_list fs).
Definition eff_read_dir (p : path) (fs : fsys) : io_kind + list path :=
  if is_dir fs p then inr (children p fs)
  else inl (if is_file fs p then NotADirectory else missing_kind fs p).
Definition fs_read_dir (p : path) : M io_error (list path) :=
  syscall untorn (fun fs => (eff_read_dir p fs, fs)).

(** [Path::exists] / [Path::is_file]: an error reads as absence. *)
Definition fs_exists {E} (p : path) : M E bool :=
  let* r := attempt (fs_metadata p) in
  ret (match r with inr _ => true | inl _ => false end).
Definition fs_is_file {E} (p : path) : M E bool :=
  let* r := attempt (fs_metadata p) in
  ret (match r with inr (File _) => true | _ => false end).

(** ** The clock *)
Definition now_ms {E} : M E Z := fun w => (Ok (w_clock w (w_tick w)), bump_tick w).
Definition now_iso {E} : M E string := let* t := now_ms in ret (iso_from_unix_ms t).

(** ** Weakest preconditions *)
Definition wp {E A} (m : M E A) (Q : result E A -> World -> Prop) (w : World) : Prop :=
  Q (m w).1 (m w).2.

Lemma bind_ok {E A B} (m : M E A) (f : A -> M E B) w b w' :
  bind m f w = (Ok b, w') -> exists a w1, m w = (Ok a, w1) /\ f a w1 = (Ok b, w').
Proof. unfold bind. destruct (m w) as [[a|e|] w1]; [|done|done]. eauto. Qed.
Lemma map_err_run {E F A} (g : E -> F) (m : M E A) w a w' : map_err g m w = (Ok a, w') -> m w = (Ok a, w').
Proof. unfold map_err. by destruct (m w) as [[] ?]; intros [= -> ->]. Qed.
Lemma wp_ret {E A} (a : A) (Q : result E A -> World -> Prop) w : Q (Ok a) w -> wp (ret a) Q w.
Proof. done. Qed.
Lemma wp_throw {E A} (e : E) (Q : result E A -> World -> Prop) w : Q (Err e) w -> wp (throw e) Q w.
Proof. done. Qed.
Lemma wp_bind {E A B} (m : M E A) (f : A -> M E B) (Q : result E B -> World -> Prop) w :
  wp m (fun r w' => match r with
                    | Ok a => wp (f a) Q w'
                    | Err e => Q (Err e) w'
                    | Killed => Q Killed w'
                    end) w -> wp (bind m f) Q w.
Proof. unfold wp, bind. by destruct (m w) as [[a|e|] w']. Qed.
Lemma wp_map_err {E F A} (g : E -> F) (m : M E A) (Q : result F A -> World -> Prop) w :
  wp m (fun r w' => match r with
                    | Ok a => Q (Ok a) w'
                    | Err e => Q (Err (g e)) w'
                    | Killed => Q Killed w'
                    end) w -> wp (map_err g m) Q w.
Proof. unfold wp, map_err. by destruct (m w) as [[a|e|] w']. Qed.
Lemma wp_attempt {E F A} (m : M E A) (Q : result F (E + A) -> World -> Prop) w :
  wp m (fun r w' => match r with
                    | Ok a => Q (Ok (inr a)) w'
                    | Err e => Q (Ok (inl e)) w'
                    | Killed => Q Killed w'
                    end) w -> wp (attempt m) Q w.
Proof. unfold wp, attempt. by destruct (m w) as [[a|e|] w']. Qed.
Lemma wp_lift {E A} (m : E + A) (Q : result E A -> World -> Prop) w :
  match m with inl e => Q (Err e) w | inr a => Q (Ok a) w end -> wp (lift m) Q w.
Proof. unfold wp, lift. by destruct m. Qed.
Lemma wp_mono {E A} (m : M E A) (P Q : result E A -> World -> Prop) w :
  wp m P w -> (forall r w', P r w' -> Q r w') -> wp m Q w.
Proof. unfold wp. eauto. Qed.
(** Read a [wp] fact off a run. *)
Lemma wp_run {E A} (m : M E A) (Q : result E A -> World -> Prop) w r w' :
  m w = (r, w') -> wp m Q w -> Q r w'.
Proof. unfold wp. by intros ->. Qed.
Lemma run_wp {E A} (m : M E A) (Q : result E A -> World -> Prop) w :
  (forall r w', m w = (r, w') -> Q r w') -> wp m Q w.
Proof. unfold wp. intros Hq. apply Hq. by destruct (m w). Qed.
End Syscalls.

(** ** Frames: which files a program may change *)
Create HintDb keeps.

Section Frames.
Context `{Env}.

(** The content of the regular file at [q], if there is one. *)
Definition file_in (fs : fsys) (q : path) : option Bytes :=
  match fs !! q with Some (File b) => Some b | _ => None end.
Definition file_at (w : World) (q : path) : option Bytes := file_in (w_fs w) q.

(** Something, a file or a directory, is at [q]. *)
Definition present (w : World) (q : path) : Prop := is_Some (w_fs w !! q).

(** Between two file systems, [q] holds the same file and does not vanish. *)
Definition untouched (fs fs' : fsys) (q : path) : Prop :=
  file_in fs' q = file_in fs q /\ (is_Some (fs !! q) -> is_Some (fs' !! q)).

(** [frame S w w']: from [w] to [w'] no regular file outside [S] changed,
    nothing outside [S] vanished, the clock only moved forward, and the fault
    schedule is the same. *)
Record frame (S : path -> Prop) (w w' : World) : Prop := mkFrame {
  frame_untouched : forall q, ~ S q -> untouched (w_fs w) (w_fs w') q;
  frame_clock : w_clock w' = w_clock w;
  frame_tick : (w_tick w <= w_tick w')%nat;
  frame_fault : w_fault w' = w_fault w
}.

Lemma untouched_refl (fs : fsys) q : untouched fs fs q.
Proof. done. Qed.
Lemma untouched_trans (a b c : fsys) q : untouched a b q -> untouched b c q -> untouched a c q.
Proof. intros [F1 P1] [F2 P2]. split; [congruence | auto]. Qed.

Lemma frame_files (S : path -> Prop) w w' :
  frame S w w' -> forall q, ~ S q -> file_at w' q = file_at w q.
Proof. intros HF q Hq. by apply (frame_untouched _ _ _ HF q). Qed.
Lemma frame_present (S : path -> Prop) w w' :
  frame S w w' -> forall q, ~ S q -> present w q -> present w' q.
Proof. intros HF q Hq. by apply (frame_untouched _ _ _ HF q). Qed.

Lemma frame_refl S w : frame S w w.
Proof. constructor; [by intros; apply untouched_refl|done..]. Qed.
Lemma frame_trans (S : path -> Prop) w1 w2 w3 : frame S w1 w2 -> frame S w2 w3 -> frame S w1 w3.
Proof.
  intros [F1 C1 T1 A1] [F2 C2 T2 A2]. constructor; [|congruence|lia|congruence].
  intros q Hq. eapply untouched_trans; auto.
Qed.
Lemma frame_weaken (S T : path -> Prop) w w' :
  frame S w w' -> (forall q, S q -> T q) -> frame T w w'.
Proof. intros [F C Ti A] HS. constructor; auto. Qed.

(** [keeps S m]: whatever faults happen, [m] stays inside the frame [S]. *)
Definition keeps (S : path -> Prop) {E A : Type} (m : M E A) : Prop :=
  forall w, frame S w (m w).2.

Lemma keeps_run (S : path -> Prop) {E A} (m : M E A) w r w' :
  keeps S m -> m w = (r, w') -> frame S w w'.
Proof. intros Hk Hm. specialize (Hk w). by rewrite Hm in Hk. Qed.

Lemma keeps_weaken (S T : path -> Prop) {E A} (m : M E A) :
  keeps S m -> (forall q, S q -> T q) -> keeps T m.
Proof. intros Hm HS w. by eapply frame_weaken. Qed.

Lemma keeps_ret (S : path -> Prop) {E A} (a : A) : keeps S (ret (E:=E) a).
Proof. intros w. apply frame_refl. Qed.
Lemma keeps_throw (S : path -> Prop) {E A} (e : E) : keeps S (throw (A:=A) e).
Proof. intros w. apply frame_refl. Qed.
Lemma keeps_panic (S : path -> Prop) {E A} : keeps S (panic (E:=E) (A:=A)).
Proof. intros w. apply frame_refl. Qed.
Lemma keeps_lift (S : path -> Prop) {E A} (m : E + A) : keeps S (lift m).
Proof. intros w. unfold lift. destruct m; apply frame_refl. Qed.
Lemma keeps_bind (S : path -> Prop) {E A B} (m : M E A) (f : A -> M E B) :
  keeps S m -> (forall a, keeps S (f a)) -> keeps S (bind m f).
Proof.
  intros Hm Hf w. unfold bind. specialize (Hm w).
  destruct (m w) as [[a|e|] w']; cbn in *; [|done|done].
  eapply frame_trans; [done | apply Hf].
Qed.
Lemma keeps_map_err (S : path -> Prop) {E F A} (g : E -> F) (m : M E A) :
  keeps S m -> keeps S (map_err g m).
Proof. intros Hm w. specialize (Hm w). unfold map_err. by destruct (m w) as [[] ?]. Qed.
Lemma keeps_attempt (S : path -> Prop) {E F A} (m : M E A) :
  keeps S m -> keeps S (attempt (F:=F) m).
Proof. intros Hm w. specialize (Hm w). unfold attempt. by destruct (m w) as [[] ?]. Qed.
Lemma keeps_now_ms (S : path -> Prop) {E} : keeps S (now_ms (E:=E)).
Proof. intros w. constructor; cbn; [intros; apply untouched_refl|done|lia|done]. Qed.

Lemma keeps_syscall (S : path -> Prop) {A : Type} (torn_eff : Bytes -> fsys -> fsys)
    (eff : fsys -> (io_kind + A) * fsys) :
  (forall fs q, ~ S q -> untouched fs (eff fs).2 q) ->
  (forall b fs q, ~ S q -> untouched fs (torn_eff b fs) q) ->
  keeps S (syscall torn_eff eff).
Proof.
  intros He Ht w. unfold syscall. specialize (He (w_fs w)).
  destruct (w_fault w (w_op w)) as [|[b|]|[b|]];
    [destruct (eff (w_fs w))| | | |]; constructor; cbn; auto using untouched_refl.
Qed.

Lemma untouched_insert (fs : fsys) (p : path) (n : node) (q : path) :
  p <> q -> untouched fs (<[p := n]> fs) q.
Proof. intros. unfold untouched, file_in. by rewrite lookup_insert_ne. Qed.
Lemma untouched_delete (fs : fsys) (p q : path) : p <> q -> untouched fs (delete p fs) q.
Proof. intros. unfold untouched, file_in. by rewrite lookup_delete_ne. Qed.
(** Making a directory where there is no file. *)
Lemma untouched_mkdir (fs : fsys) (p : path) (t : Z) (q : path) :
  is_file fs p = false -> untouched fs (<[p := Dir t]> fs) q.
Proof.
  unfold is_file. intros Hp. destruct (decide (p = q)) as [->|]; [|by apply untouched_insert].
  unfold untouched, file_in. rewrite lookup_insert_eq. by destruct (fs !! q) as [[]|].
Qed.

Lemma keeps_fs_read (S : path -> Prop) p : keeps S (fs_read p).
Proof. apply keeps_syscall; intros; apply untouched_refl. Qed.
Lemma keeps_fs_metadata (S : path -> Prop) p : keeps S (fs_metadata p).
Proof. apply keeps_syscall; intros; apply untouched_refl. Qed.
Lemma keeps_fs_read_dir (S : path -> Prop) p : keeps S (fs_read_dir p).
Proof. apply keeps_syscall; intros; apply untouched_refl. Qed.
Lemma keeps_fs_write (S : path -> Prop) p b : S p -> keeps S (fs_write p b).
Proof.
  intros HS. apply keeps_syscall.
  - intros fs q Hq. unfold eff_write. destruct (writable fs p); cbn; [|apply untouched_refl].
    apply untouched_insert. naive_solver.
  - intros b' fs q Hq. unfold torn_write. destruct (writable fs p); cbn; [|apply untouched_refl].
    apply untouched_insert. naive_solver.
Qed.
Lemma keeps_fs_rename (S : path -> Prop) a b : S a -> S b -> keeps S (fs_rename a b).
Proof.
  intros Ha Hb. apply keeps_syscall; [|intros; apply untouched_refl].
  intros fs q Hq. unfold eff_rename.
  destruct (fs !! a) as [[c|t]|]; try apply untouched_refl.
  destruct (writable fs b); cbn; [|apply untouched_refl].
  eapply untouched_trans; [apply (untouched_delete _ a) | apply untouched_insert]; naive_solver.
Qed.
Lemma keeps_fs_create_dir (S : path -> Prop) p : keeps S (fs_create_dir p).
Proof.
  intros w. apply (keeps_syscall S); [|intros; apply untouched_refl].
  intros fs q _. unfold eff_create_dir.
  destruct (is_dir fs p); cbn; [apply untouched_refl|].
  destruct (is_file fs p) eqn:Ef; cbn; [apply untouched_refl|].
  destruct (parent_is_dir fs p); cbn; [|apply untouched_refl]. by apply untouched_mkdir.
Qed.
Lemma untouched_make_dirs (ps : list path) (now : Z) (fs : fsys) (q : path) :
  untouched fs (make_dirs ps now fs).2 q.
Proof.
  revert fs. induction ps as [|p ps IH]; intros fs; cbn; [apply untouched_refl|].
  destruct (is_dir fs p); [apply IH|]. destruct (is_file fs p) eqn:Ef; [apply untouched_refl|].
  eapply untouched_trans; [by apply (untouched_mkdir _ p) | apply IH].
Qed.
Lemma keeps_fs_create_dir_all (S : path -> Prop) p : keeps S (fs_create_dir_all p).
Proof.
  intros w. apply (keeps_syscall S); [|intros; apply untouched_refl].
  intros fs q _. apply untouched_make_dirs.
Qed.
Lemma keeps_fs_remove_dir (S : path -> Prop) p : S p -> keeps S (fs_remove_dir p).
Proof.
  intros HS. apply keeps_syscall; [|intros; apply untouched_refl].
  intros fs q Hq. unfold eff_remove_dir.
  destruct (fs !! p) as [[c|t]|] eqn:E; try apply untouched_refl.
  destruct (has_children fs p); [apply untouched_refl|]. apply untouched_delete. naive_solver.
Qed.
Lemma keeps_fs_remove_file (S : path -> Prop) p : S p -> keeps S (fs_remove_file p).
Proof.
  intros HS. apply keeps_syscall; [|intros; apply untouched_refl].
  intros fs q Hq. unfold eff_remove_file.
  destruct (fs !! p) as [[c|t]|] eqn:E; try apply untouched_refl.
  apply untouched_delete. naive_solver.
Qed.
Lemma keeps_fs_set_mtime (S : path -> Prop) p t : keeps S (fs_set_mtime p t).
Proof.
  apply keeps_syscall; [|intros; apply untouched_refl].
  intros fs q _. unfold eff_set_mtime.
  destruct (fs !! p) as [[c|t']|] eqn:E; try apply untouched_refl.
  apply untouched_mkdir. unfold is_file. by rewrite E.
Qed.
End Frames.

#[export] Hint Resolve keeps_ret keeps_throw keeps_panic keeps_lift keeps_now_ms keeps_fs_read
  keeps_fs_metadata keeps_fs_read_dir keeps_fs_write keeps_fs_rename keeps_fs_create_dir
  keeps_fs_create_dir_all keeps_fs_remove_dir keeps_fs_remove_file keeps_fs_set_mtime : keeps.

(** [solve_keeps] walks a program and discharges a [keeps] goal call by call. *)
Ltac solve_keeps :=
  repeat first
    [ progress intros
    | solve [auto 3 with keeps]
    | simple apply keeps_bind
    | simple apply keeps_map_err
    | simple apply keeps_attempt
    | match goal with
      | |- keeps _ (match ?x with _ => _ end) => destruct x
      | |- keeps _ (let _ := ?x in _) => cbv zeta
      end ].

Section FrameDerived.
Context `{Env}.
Lemma keeps_now_iso (S : path -> Prop) {E} : keeps S (now_iso (E:=E)).
Proof. unfold now_iso. solve_keeps. Qed.
Lemma keeps_fs_exists (S : path -> Prop) {E} p : keeps S (fs_exists (E:=E) p).
Proof. unfold fs_exists. solve_keeps. Qed.
Lemma keeps_fs_is_file (S : path -> Prop) {E} p : keeps S (fs_is_file (E:=E) p).
Proof. unfold fs_is_file. solve_keeps. Qed.
End FrameDerived.
#[export] Hint Resolve keeps_now_iso keeps_fs_exists keeps_fs_is_file : keeps.

(** ** [anyhow] errors: the messages of the chain, outermost first *)
Record anyhow := Anyhow { anyhow_chain : list string }.
Definition anyhow_msg (s : string) : anyhow := Anyhow [s].
(** [.context(c)] / [.with_context]. *)
Definition anyhow_context (c : string) (e : anyhow) : anyhow := Anyhow (c :: anyhow_chain e).
(** [error.to_string()] shows the outermost message, [{error:#}] the chain. *)
Definition anyhow_display (e : anyhow) : string := default "" (head (anyhow_chain e)).
Definition anyhow_display_full (e : anyhow) : string := join_with ": " (anyhow_chain e).

(** ** Runs without faults *)
Section Quiet.
Context `{Env}.
Definition quiet (w : World) : Prop := forall n, w_fault w n = NoFault.

Lemma quiet_eq w w' : w_fault w' = w_fault w -> quiet w -> quiet w'.
Proof. unfold quiet. by intros ->. Qed.

Lemma syscall_quiet {A : Type} (t : Bytes -> fsys -> fsys) (eff : fsys -> (io_kind + A) * fsys) w :
  quiet w ->
  syscall t eff w =
  (match (eff (w_fs w)).1 with inl k => Err (os_error k) | inr a => Ok a end,
   set_fs (eff (w_fs w)).2 (bump_op w)).
Proof. intros Hq. unfold syscall. rewrite Hq. by destruct (eff (w_fs w)). Qed.

Lemma set_fs_same w : set_fs (w_fs w) (bump_op w) = bump_op w.
Proof. by destruct w. Qed.
End Quiet.

(** ** Path lemmas *)
Lemma last_snoc_path {A} (l : list A) x : last (l ++ [x])%list = Some x.
Proof. apply last_snoc. Qed.
Lemma removelast_snoc {A} (l : list A) x : removelast (l ++ [x])%list = l.
Proof. by rewrite removelast_app, app_nil_r. Qed.

Lemma parent_snoc (p : path) c : c <> "/" -> parent (p ++ [c])%list = Some p.
Proof.
  intros Hc. unfold parent. rewrite removelast_snoc.
  destruct p as [|x [|y p]]; cbn; [|by repeat case_match..].
  repeat case_match; naive_solver.
Qed.

Definition plain_name (s : string) : bool :=
  negb (contains_char "/" s) && negb (is_empty s) && negb (String.eqb s ".").

Lemma split_char_plain c s : contains_char c s = false -> split_char c s = [s].
Proof.
  induction s as [|d s IH]; cbn; [done|]. intros [-> Hs]%orb_false_iff. by rewrite IH.
Qed.

Lemma join_plain (p : path) s : plain_name s = true -> join p s = (p ++ [s])%list.
Proof.
  unfold plain_name, join. rewrite !andb_true_iff, !negb_true_iff. intros [[Hs He] Hd].
  rewrite split_char_plain by done.
  assert (starts_with "/" s = false) as ->.
  { destruct s as [|c s]; [done|]. unfold starts_with. cbn [strip_prefix].
    cbn [contains_char] in Hs. apply orb_false_iff in Hs as [-> _]. done. }
  cbn [List.filter]. by rewrite He, Hd.
Qed.

Lemma file_name_snoc (p : path) c :
  plain_name c = true -> c <> ".." -> file_name (p ++ [c])%list = Some c.
Proof.
  unfold plain_name, file_name. rewrite last_snoc_path, !andb_true_iff, !negb_true_iff.
  intros [[Hs _] Hd] Hdd. rewrite Hd. destruct (String.eqb_spec c ".."); [done|].
  destruct (String.eqb_spec c "/") as [->|]; [done|]. done.
Qed.

Lemma contains_char_app c a b :
  contains_char c (a ++ b) = contains_char c a || contains_char c b.
Proof. induction a as [|d a IH]; cbn; [done|]. by rewrite IH, orb_assoc. Qed.
