(* ===== verification/LedgerReplay.v ===== *)
(** * The spawn ledger: records, replay and path resolution
      ([crates/pa-daemon/src/rlm_ledger/replay.rs], the types and the fold of
      [rlm_ledger.rs], [canonical_session_path] of [lease.rs])

    One line of the ledger is one JSON record.  Replay folds the records into
    the edges of the session family, joined through an index of keys, and the
    live-edge reads resolve the recorded paths against the file system. *)
From Stdlib Require Import SpecFloat.
From S2P Require Import Prelude RustStr Lines Json Time World.
#[local] Open Scope string_scope.
#[local] Open Scope Z_scope.

(** ** 64-bit floats *)
Abbreviation f64 := spec_float.
Definition f64_add (a b : f64) : f64 := SFadd 53 1024 a b.
Definition f64_zero : f64 := S754_zero false.
Definition is_finite (x : f64) : bool := match x with S754_zero _ | S754_finite _ _ _ => true | _ => false end.
Definition is_nan (x : f64) : bool := match x with S754_nan => true | _ => false end.
Definition is_sign_negative (x : f64) : bool :=
  match x with S754_zero s | S754_infinity s | S754_finite s _ _ => s | S754_nan => false end.
(** [x > 0.0]. *)
Definition f64_positive (x : f64) : bool := SFltb f64_zero x.

(** What the ledger takes from other crates: the shortest decimal text of a
    float and its reading ([serde_json]), and the digest of [sha2]. *)
Class LedgerEnv := {
  f64_text : f64 -> string;
  text_f64 : string -> f64;
  sha256 : string -> string
}.

(** ** The file system as the ledger reads it

    Paths resolve ([std::fs::canonicalize]) to the canonical paths under
    which files and directories are kept. *)
Record View := mkView {
  v_realpath : path -> option path;
  v_files : gmap path string;
  v_dirs : gmap path (list string);
  v_cwd : option path
}.
Definition view_read (v : View) (p : path) : option string := v_realpath v p ≫= (fun q => v_files v !! q).
Definition view_is_file (v : View) (p : path) : bool :=
  match view_read v p with Some _ => true | None => false end.
(** The paths of [std::fs::read_dir]'s entries. *)
Definition view_read_dir (v : View) (p : path) : option (list path) :=
  match v_realpath v p ≫= (fun q => v_dirs v !! q) with
  | Some names => Some (map (fun n : string => p ++ [n])%list names)
  | None => None
  end.

(** [lease.rs]: the realpath of the file, or of its directory when the file is
    gone. *)
Definition canonical_session_path (v : View) (p : path) : path :=
  match v_realpath v p with
  | Some canonical => canonical
  | None =>
      match parent p with
      | Some d =>
          match v_realpath v d with
          | Some d' => join d' (default "" (file_name p))
          | None => p
          end
      | None => p
      end
  end.
Definition canonical_text (v : View) (s : string) : string := path_display (canonical_session_path v (path_of_string s)).

(** [Path::file_stem]: the file name without its extension. *)
Definition file_stem (p : path) : option string :=
  match file_name p with
  | None => None
  | Some name =>
      match rsplit_once "." name with
      | Some (stem, _) => if is_empty stem then Some name else Some stem
      | None => Some name
      end
  end.

(** [resolve_path]: [.] and [..] folded lexically, against the current
    directory. *)
Definition push_component (out : path) (c : string) : path :=
  if String.eqb c "." then out
  else if String.eqb c ".." then default out (parent out)
  else (out ++ [c])%list.
Definition is_absolute (p : path) : bool := match p with "/" :: _ => true | _ => false end.
Definition resolve_path (v : View) (dir : path) : path :=
  let joined := if is_absolute dir then dir else (default ["."] (v_cwd v) ++ dir)%list in
  foldl push_component [] joined.
Definition canonicalize_dir (v : View) (dir : path) : path :=
  let resolved := resolve_path v dir in default resolved (v_realpath v resolved).

(** ** Records *)
Inductive RlmLedgerDeleteReason := User | ParentTeardown | Revoked | Gc.
#[export] Instance delete_reason_eq_dec : EqDecision RlmLedgerDeleteReason.
Proof. solve_decision. Defined.
Definition from_wire (value : string) : option RlmLedgerDeleteReason :=
  if String.eqb value "user" then Some User
  else if String.eqb value "parent-teardown" then Some ParentTeardown
  else if String.eqb value "revoked" then Some Revoked
  else if String.eqb value "gc" then Some Gc
  else None.
Definition wire_name (r : RlmLedgerDeleteReason) : string :=
  match r with
  | User => "user" | ParentTeardown => "parent-teardown" | Revoked => "revoked" | Gc => "gc"
  end.

Record SessionUsageSummary := mkUsage { u_input_tokens : Z; u_output_tokens : Z; u_cost : f64 }.

Record RlmLedgerEdge := mkEdge {
  e_child_id : string;
  e_parent : string;
  e_child : string;
  e_depth : Z;
  e_name : string;
  e_deleted : option RlmLedgerDeleteReason;
  e_deleted_usage : option SessionUsageSummary
}.

Inductive LedgerRecord :=
| Spawn (child_id parent child : string) (depth : Z) (name : string)
| Rename (child_id child name : string)
| Delete (child_id child : string) (reason : RlmLedgerDeleteReason) (usage : option SessionUsageSummary).
Definition record_child_id (r : LedgerRecord) : string :=
  match r with Spawn id _ _ _ _ | Rename id _ _ | Delete id _ _ _ => id end.

(** [Value::as_u64] and [Value::as_f64]. *)
Definition as_u64 (v : Value) : option Z :=
  match v with VNumber n => if (0 <=? n) && (n <=? u64_max) then Some n else None | _ => None end.

Section Grammar.
Context `{Env} `{LedgerEnv}.

Definition as_f64 (v : Value) : option f64 :=
  match v with
  | VNumber n => Some (binary_normalize 53 1024 n 0 false)
  | VFloat t => Some (text_f64 t)
  | _ => None
  end.

Definition malformed (line_no : nat) (what : string) : anyhow :=
  anyhow_msg ("malformed RLM ledger line " ++ show_Z (Z.of_nat line_no) ++ ": " ++ what).

(** [parse_deleted_usage]. *)
Definition parse_deleted_usage (usage : Value) (line_no : nat) : anyhow + SessionUsageSummary :=
  let invalid := malformed line_no "invalid delete usage" in
  match get "inputTokens" usage ≫= as_u64, get "outputTokens" usage ≫= as_u64, get "cost" usage ≫= as_f64 with
  | Some input, Some output, Some cost =>
      if is_nan cost || is_sign_negative cost then inl invalid else inr (mkUsage input output cost)
  | _, _, _ => inl invalid
  end.

Definition parse_spawn (record : Value) (line_no : nat) : anyhow + option LedgerRecord :=
  let invalid := malformed line_no "invalid spawn record" in
  match get_str "childId" record, get_str "parent" record, get_str "child" record, get_str "name" record with
  | Some child_id, Some parent, Some child, Some name =>
      match get "depth" record ≫= as_u64 with
      | Some depth =>
          if (depth <? 1) || (u32_max <? depth) then inl invalid
          else inr (Some (Spawn child_id parent child depth name))
      | None => inl invalid
      end
  | _, _, _, _ => inl invalid
  end.
Definition parse_rename (record : Value) (line_no : nat) : anyhow + option LedgerRecord :=
  match get_str "childId" record, get_str "child" record, get_str "name" record with
  | Some child_id, Some child, Some name => inr (Some (Rename child_id child name))
  | _, _, _ => inl (malformed line_no "invalid rename record")
  end.
Definition parse_delete (record : Value) (line_no : nat) : anyhow + option LedgerRecord :=
  let invalid := malformed line_no "invalid delete record" in
  match get_str "childId" record, get_str "child" record, get_str "reason" record ≫= from_wire with
  | Some child_id, Some child, Some reason =>
      match get "usage" record with
      | None => inr (Some (Delete child_id child reason None))
      | Some usage =>
          let? u := parse_deleted_usage usage line_no in
          inr (Some (Delete child_id child reason (Some u)))
      end
  | _, _, _ => inl invalid
  end.

(** A document of the ledger: [None] is a record of a known version with an
    unknown operation. *)
Definition parse_record (record : Value) (line_no : nat) : anyhow + option LedgerRecord :=
  match get "v" record with
  | Some (VNumber 1) =>
      match get_str "at" record with
      | None => inl (malformed line_no "missing at")
      | Some _ =>
          let op := default "" (get_str "op" record) in
          if String.eqb op "spawn" then parse_spawn record line_no
          else if String.eqb op "rename" then parse_rename record line_no
          else if String.eqb op "delete" then parse_delete record line_no
          else inr None
      end
  | _ => inl (malformed line_no "unsupported record version")
  end.

(** [parse_ledger_line]. *)
Definition parse_ledger_line (line : string) (index : nat) : anyhow + option LedgerRecord :=
  let line_no := S index in
  match from_str (trim line) with
  | inl e => inl (anyhow_context ("malformed RLM ledger line " ++ show_Z (Z.of_nat line_no)) (anyhow_msg e))
  | inr record => parse_record record line_no
  end.
End Grammar.

(** ** Replay *)
Section Replay.
Context (v : View).

(** [edge_key]: the child id and the canonical child path around a NUL. *)
Definition nul : ascii := ascii_of_N 0.
Definition edge_key (child_id child : string) : string := child_id ++ String nul (canonical_text v child).
Definition key_of (e : RlmLedgerEdge) : string := edge_key (e_child_id e) (e_child e).

Record ReplayState := mkReplay { rs_edges : list RlmLedgerEdge; rs_index : gmap string nat }.
Definition empty_replay : ReplayState := mkReplay [] ∅.

(** [sole_edge_by_child_id]: the loop, from position [at_]. *)
Fixpoint sole_edge_from (at_ : nat) (sole : option nat) (edges : list RlmLedgerEdge) (child_id : string)
    : option nat :=
  match edges with
  | [] => sole
  | e :: rest =>
      if String.eqb (e_child_id e) child_id then
        match sole with
        | Some _ => None
        | None => sole_edge_from (S at_) (Some at_) rest child_id
        end
      else sole_edge_from (S at_) sole rest child_id
  end.
Definition sole_edge_by_child_id (st : ReplayState) (child_id : string) : option nat :=
  sole_edge_from 0 None (rs_edges st) child_id.

Definition rename_edge (name : string) (e : RlmLedgerEdge) : RlmLedgerEdge :=
  mkEdge (e_child_id e) (e_parent e) (e_child e) (e_depth e) name (e_deleted e) (e_deleted_usage e).
(** A tombstone without a usage block keeps an earlier snapshot. *)
Definition delete_edge (reason : RlmLedgerDeleteReason) (usage : option SessionUsageSummary) (e : RlmLedgerEdge)
    : RlmLedgerEdge :=
  mkEdge (e_child_id e) (e_parent e) (e_child e) (e_depth e) (e_name e) (Some reason)
    (match usage with Some u => Some u | None => e_deleted_usage e end).

Definition join_at (st : ReplayState) (child_id child : string) : option nat :=
  match rs_index st !! edge_key child_id child with
  | Some at_ => Some at_
  | None => sole_edge_by_child_id st child_id
  end.
Definition alter_edge (f : RlmLedgerEdge -> RlmLedgerEdge) (at_ : option nat) (st : ReplayState) : ReplayState :=
  match at_ with
  | Some i => mkReplay (alter f i (rs_edges st)) (rs_index st)
  | None => st
  end.

(** One record of [fold_records]. *)
Definition fold_record (st : ReplayState) (r : LedgerRecord) : ReplayState :=
  match r with
  | Spawn child_id parent child depth name =>
      let key := edge_key child_id child in
      let edge := mkEdge child_id parent child depth name None None in
      match rs_index st !! key with
      | Some at_ => mkReplay (<[at_ := edge]> (rs_edges st)) (rs_index st)
      | None => mkReplay (rs_edges st ++ [edge]) (<[key := List.length (rs_edges st)]> (rs_index st))
      end
  | Rename child_id child name => alter_edge (rename_edge name) (join_at st child_id child) st
  | Delete child_id child reason usage => alter_edge (delete_edge reason usage) (join_at st child_id child) st
  end.
Definition fold_records (keep : string -> bool) (records : list LedgerRecord) : ReplayState :=
  foldl (fun st r => if keep (record_child_id r) then fold_record st r else st) empty_replay records.

(** ** Live edges *)
Record LivePathResolver := mkResolver {
  lr_agent_dir : path;
  lr_sessions_dir : path;
  lr_resolved : gmap string (option path);
  lr_artifact_index : option (gmap string path)
}.
Definition new_resolver (agent_dir sessions_dir : path) : LivePathResolver :=
  mkResolver agent_dir sessions_dir ∅ None.

(** [artifact_session_index]: the [.jsonl] files two levels under the
    artifacts directory by their stem, a later one replacing an earlier one. *)
Definition index_file (index : gmap string path) (file : path) : gmap string path :=
  match extension file, file_stem file with
  | Some ext, Some stem => if String.eqb ext "jsonl" then <[stem := file]> index else index
  | _, _ => index
  end.
Definition artifact_session_index (agent_dir : path) : gmap string path :=
  let entries p := default [] (view_read_dir v p) in
  foldl (fun index parent_dir =>
    foldl (fun index sub => foldl index_file index (entries sub)) index (entries parent_dir))
    ∅ (entries (agent_dir ++ ["session-artifacts"])%list).

(** [resolve_uncached] and [resolve]. *)
Definition resolve_uncached (r : LivePathResolver) (recorded : string) : option path * LivePathResolver :=
  let recorded_path := path_of_string recorded in
  if view_is_file v recorded_path then (Some recorded_path, r)
  else match file_stem recorded_path with
  | None => (None, r)
  | Some id =>
      if is_empty id then (None, r)
      else
        let sessions_candidate := join (lr_sessions_dir r) (id ++ ".jsonl") in
        if view_is_file v sessions_candidate then (Some sessions_candidate, r)
        else
          let index := default (artifact_session_index (lr_agent_dir r)) (lr_artifact_index r) in
          (index !! id, mkResolver (lr_agent_dir r) (lr_sessions_dir r) (lr_resolved r) (Some index))
  end.
Definition resolve (r : LivePathResolver) (recorded : string) : option path * LivePathResolver :=
  match lr_resolved r !! recorded with
  | Some hit => (hit, r)
  | None =>
      let '(live, r') := resolve_uncached r recorded in
      (live, mkResolver (lr_agent_dir r') (lr_sessions_dir r') (<[recorded := live]> (lr_resolved r')) (lr_artifact_index r'))
  end.

(** [resolve_live_edges]. *)
Fixpoint resolve_edges (r : LivePathResolver) (edges : list RlmLedgerEdge) : list RlmLedgerEdge :=
  match edges with
  | [] => []
  | e :: rest =>
      match e_deleted e with
      | Some _ => resolve_edges r rest
      | None =>
          let '(child, r1) := resolve r (e_child e) in
          let '(parent, r2) := resolve r1 (e_parent e) in
          match child, parent with
          | Some c, Some p =>
              mkEdge (e_child_id e) (path_display p) (path_display c) (e_depth e) (e_name e) (e_deleted e) (e_deleted_usage e)
              :: resolve_edges r2 rest
          | _, _ => resolve_edges r2 rest
          end
      end
  end.
Definition resolve_live_edges (st : ReplayState) (r : LivePathResolver) : list RlmLedgerEdge :=
  resolve_edges r (rs_edges st).
End Replay.
