(* ===== verification/Paths.v ===== *)
(** * Paths and their text

    [Path::new] of a path's own text is the path again, and the session path
    of [lease.rs] is a fixed point of canonicalization. *)
From S2P Require Import Prelude RustStr Lines Json Time World LedgerReplay.
#[local] Open Scope string_scope.

(** A normal component. *)
Definition good_name (c : string) : Prop := c <> "" /\ c <> "." /\ contains_char "/" c = false.
Inductive path_shape : path -> Prop :=
| shape_absolute l : Forall good_name l -> path_shape ("/" :: l)
| shape_current l : Forall good_name l -> path_shape ("." :: l)
| shape_relative l : Forall good_name l -> path_shape l.

Lemma split_char_clean c s : Forall (fun w => contains_char c w = false) (split_char c s).
Proof.
  induction s as [|d s IH]; cbn; [by repeat constructor|]. destruct (Ascii.eqb c d) eqn:E; [by constructor|].
  destruct (split_char c s) as [|w ws]; [by repeat constructor; cbn; rewrite E|].
  inversion_clear IH. constructor; [|done]. cbn. by rewrite E.
Qed.
Definition normal (c : string) : bool := negb (is_empty c) && negb (String.eqb c ".").
Lemma normal_good s : Forall good_name (List.filter normal (split_char "/" s)).
Proof.
  apply Forall_forall. intros c Hc. apply list_elem_of_In, List.filter_In in Hc as [Hin Hn].
  apply list_elem_of_In in Hin. pose proof (split_char_clean "/" s) as Hs. rewrite Forall_forall in Hs.
  apply andb_true_iff in Hn as [H1 H2]. apply negb_true_iff in H1, H2. split_and!.
  - by intros ->.
  - by intros ->.
  - by apply Hs.
Qed.
Lemma path_of_string_shape s : path_shape (path_of_string s).
Proof.
  unfold path_of_string. fold normal. repeat case_match; constructor; apply normal_good.
Qed.

Lemma split_char_none c s : contains_char c s = false -> split_char c s = [s].
Proof.
  induction s as [|d s IH]; [done|]. cbn. intros [Hd Hs]%orb_false_iff. rewrite Hd, IH by done. done.
Qed.
Lemma split_char_app c a b : contains_char c a = false -> split_char c (a ++ String c b) = a :: split_char c b.
Proof.
  induction a as [|d a IH]; cbn; intros Ha; [by rewrite Ascii.eqb_refl|].
  apply orb_false_iff in Ha as [Hd Ha]. by rewrite Hd, IH.
Qed.
Lemma good_normal l : Forall good_name l -> List.filter normal l = l.
Proof.
  induction 1 as [|c l (H1 & H2 & _) _ IH]; [done|]. cbn. rewrite IH.
  assert (normal c = true) as ->; [|done]. unfold normal. apply andb_true_iff. split; apply negb_true_iff.
  - by destruct c.
  - by apply String.eqb_neq.
Qed.
Lemma split_join l : Forall good_name l -> l <> [] -> split_char "/" (join_with "/" l) = l.
Proof.
  induction 1 as [|c l (_ & _ & H3) Hl IH]; [done|]. intros _. destruct l as [|d l]; [by apply split_char_none|].
  change (join_with "/" (c :: d :: l)) with (c ++ "/" ++ join_with "/" (d :: l)). cbn [String.append].
  rewrite split_char_app by done. by rewrite IH.
Qed.
Lemma filter_split_join l : Forall good_name l -> List.filter normal (split_char "/" (join_with "/" l)) = l.
Proof. intros Hl. destruct l as [|c l]; [done|]. rewrite split_join by done. by apply good_normal. Qed.

(** The first byte of a relative path. *)
Lemma relative_head c l : good_name c -> starts_with "/" (join_with "/" (c :: l)) = false.
Proof.
  intros (Hc & _ & Hs). destruct c as [|x c]; [done|]. cbn in Hs. apply orb_false_iff in Hs as [Hx _].
  unfold starts_with. destruct l; cbn; by rewrite Hx.
Qed.
Lemma relative_dot c l : good_name c -> starts_with "./" (join_with "/" (c :: l)) || String.eqb (join_with "/" (c :: l)) "." = false.
Proof.
  intros (Hc & Hd & Hs). destruct c as [|x c]; [done|]. unfold starts_with.
  destruct c as [|y c].
  - assert (Ascii.eqb "." x = false) as Hx.
    { apply Ascii.eqb_neq. by intros <-. }
    destruct l; cbn -[Ascii.eqb]; rewrite Hx; cbn -[Ascii.eqb]; by rewrite Ascii.eqb_sym, Hx.
  - cbn [contains_char] in Hs. apply orb_false_iff in Hs as [_ Hs]. apply orb_false_iff in Hs as [Hy _].
    destruct l; cbn -[Ascii.eqb]; rewrite Hy; destruct (Ascii.eqb "." x), (Ascii.eqb x "."); done.
Qed.

Lemma path_text_round_trip p : path_shape p -> path_of_string (path_display p) = p.
Proof.
  intros [l Hl|l Hl|l Hl]; unfold path_of_string; fold normal.
  - cbn [path_display]. change (starts_with "/" ("/" ++ join_with "/" l)) with true. cbn [String.append]. f_equal.
    exact (filter_split_join l Hl).
  - destruct l as [|c l]; [done|]. inversion_clear Hl as [|? ? Hc Hl'].
    change (path_display ("." :: c :: l)) with (String "." (String "/" (join_with "/" (c :: l)))).
    cbn [starts_with strip_prefix]. change (starts_with "/" _) with false. change (starts_with "./" _) with true. cbn [orb].
    f_equal. change (List.filter normal (split_char "/" (join_with "/" (c :: l))) = c :: l).
    apply filter_split_join. by constructor.
  - destruct l as [|c l]; [done|]. inversion Hl as [|? ? Hc Hl']; subst.
    assert (path_display (c :: l) = join_with "/" (c :: l)) as ->.
    { cbn [path_display]. destruct Hc as (_ & _ & Hs). do 2 (destruct c as [|[[] [] [] [] [] [] [] []] c]; try done). }
    rewrite relative_head, relative_dot by done. by apply filter_split_join.
Qed.

(** ** Canonical session paths *)

(** What [realpath] promises: its answers are absolute, free of [.] and of
    empty components, and resolve to themselves; a name that is missing in a
    directory is missing in the directory's realpath. *)
Record view_ok (v : View) : Prop := {
  vo_absolute p q : v_realpath v p = Some q -> exists l, q = "/" :: l /\ Forall good_name l;
  vo_fixed p q : v_realpath v p = Some q -> v_realpath v q = Some q;
  vo_missing p d d' n : v_realpath v p = None -> parent p = Some d -> v_realpath v d = Some d' ->
    file_name p = Some n -> v_realpath v (d' ++ [n])%list = None
}.

Lemma file_name_good p n : path_shape p -> file_name p = Some n -> good_name n /\ n <> "..".
Proof.
  intros Hp. unfold file_name. destruct (last p) as [c|] eqn:El; [|done].
  destruct (String.eqb c "..") eqn:E1; [done|]. destruct (String.eqb c "/") eqn:E2; [done|].
  destruct (String.eqb c ".") eqn:E3; [done|]. intros [= <-]. apply String.eqb_neq in E1, E2, E3. split; [|done].
  assert (forall l, Forall good_name l -> last l = Some c -> good_name c) as Hl.
  { intros l Hl Hc. rewrite Forall_forall in Hl. apply Hl. by apply last_Some_elem_of. }
  destruct Hp as [l Hg|l Hg|l Hg]; [| |by eapply Hl]; rewrite last_cons in El; destruct (last l) eqn:E; simplify_eq; by eapply Hl.
Qed.
Lemma join_name d n : good_name n -> join d n = (d ++ [n])%list.
Proof.
  intros Hn. unfold join. fold normal. assert (starts_with "/" n = false) as ->.
  { destruct Hn as (Hn & _ & Hs). destruct n as [|x n]; [done|]. cbn [contains_char] in Hs.
    apply orb_false_iff in Hs as [Hx _]. unfold starts_with. cbn [strip_prefix]. by rewrite Hx. }
  rewrite split_char_none by by destruct Hn as (_ & _ & ?). rewrite good_normal; [done|]. by constructor.
Qed.
Lemma parent_absolute l n : parent ("/" :: l ++ [n])%list = Some ("/" :: l).
Proof.
  change ("/" :: l ++ [n])%list with (("/" :: l) ++ [n])%list. unfold parent.
  rewrite <- (removelast_last ("/" :: l) n) at 2. destruct l; done.
Qed.
Lemma file_name_last d n : good_name n -> n <> ".." -> file_name (d ++ [n])%list = Some n.
Proof.
  intros (H1 & H2 & H3) H4. unfold file_name. rewrite last_snoc.
  rewrite (proj2 (String.eqb_neq n "..") H4), (proj2 (String.eqb_neq n ".") H2).
  assert (String.eqb n "/" = false) as ->; [|done]. apply String.eqb_neq. by intros ->.
Qed.

(** The session path of a session path's text is that path. *)
Lemma canonical_stable v s :
  view_ok v -> canonical_session_path v (path_of_string (canonical_text v s)) = canonical_session_path v (path_of_string s).
Proof.
  intros Hv. unfold canonical_text. pose proof (path_of_string_shape s) as Hp. set (p := path_of_string s) in *. clearbody p.
  assert (forall q, v_realpath v q = Some q -> canonical_session_path v (path_of_string (path_display q)) = q) as Hreal.
  { intros q Hq. destruct (vo_absolute v Hv _ _ Hq) as (l & -> & Hl).
    rewrite path_text_round_trip by by constructor. unfold canonical_session_path. by rewrite Hq. }
  destruct (v_realpath v p) as [q|] eqn:Er.
  { assert (canonical_session_path v p = q) as -> by (unfold canonical_session_path; by rewrite Er). apply Hreal. by apply (vo_fixed v Hv p). }
  destruct (parent p) as [d|] eqn:Ep; [destruct (v_realpath v d) as [d'|] eqn:Ed|].
  2, 3: assert (canonical_session_path v p = p) as -> by (unfold canonical_session_path; by rewrite Er, Ep, ?Ed);
    rewrite path_text_round_trip by done; unfold canonical_session_path; by rewrite Er, Ep, ?Ed.
  assert (canonical_session_path v p = join d' (default "" (file_name p))) as ->
    by (unfold canonical_session_path; by rewrite Er, Ep, Ed).
  destruct (vo_absolute v Hv _ _ Ed) as (l & -> & Hl). pose proof (vo_fixed v Hv _ _ Ed) as Hd.
  destruct (file_name p) as [n|] eqn:En; cbn [default from_option].
  2: { assert (join ("/" :: l) "" = "/" :: l) as -> by (unfold join; cbn; by rewrite app_nil_r). by apply Hreal. }
  destruct (file_name_good p n Hp En) as [Hn Hnn]. cbn [id]. rewrite (join_name _ n Hn).
  rewrite path_text_round_trip.
  2: { apply (shape_absolute (l ++ [n])). apply Forall_app. split; [done|]. by constructor. }
  unfold canonical_session_path. rewrite (vo_missing v Hv p d ("/" :: l) n) by done.
  cbn [app]. rewrite parent_absolute, Hd. change ("/" :: l ++ [n])%list with (("/" :: l) ++ [n])%list.
  rewrite file_name_last by done. cbn. by apply join_name.
Qed.
