(* ===== verification/Ledger.v ===== *)
(** * The spawn ledger: the file and its operations
      ([crates/pa-daemon/src/rlm_ledger.rs], [rlm_ledger/legacy_registry.rs])

    The ledger is one append-only file shared by several processes.  The state
    of one process is the file's bytes, its stat-guarded replay and whether it
    has tried to seed; a [Scene] says what surrounds its run: the rest of the
    file system, the lines other processes append before each of its system
    calls, and which calls fail or kill it. *)
From S2P Require Import Prelude RustStr Lines Json Time World LedgerReplay.
#[local] Open Scope string_scope.
#[local] Open Scope Z_scope.

Definition RLM_LEDGER_MAX_BYTES : Z := 32 * 1024 * 1024.
Definition RLM_LEDGER_MAX_RECORDS : Z := 100000.
Definition LEGACY_REGISTRY_HEADER_READ_MAX_BYTES : nat := 64 * 1024.

(** ** The legacy registries *)
Record LegacyRlmSubagentEntry := mkLegacy {
  le_child_id : string;
  le_session_name : string;
  le_session_file : string;
  le_rlm_depth : Z;
  le_status : string
}.

(** [u64] of a struct field, and a field of any JSON type. *)
Definition decode_any (v : Value) : option Value := Some v.

(** [Deserialize]: every field is typed, the display-grade ones too. *)
Definition decode_legacy (v : Value) : option LegacyRlmSubagentEntry :=
  ms ← object_members v;
  child_id ← defaulted "" decode "childId" ms;
  session_name ← defaulted "" decode "sessionName" ms;
  session_file ← defaulted "" decode "sessionFile" ms;
  rlm_depth ← defaulted 0 decode_u32 "rlmDepth" ms;
  status ← defaulted "" decode "status" ms;
  _ ← defaulted "" (decode (A:=string)) "sessionDir" ms;
  _ ← defaulted "" (decode (A:=string)) "parentSessionId" ms;
  _ ← defaulted "" (decode (A:=string)) "parentSessionFile" ms;
  _ ← defaulted None (decode (A:=option string)) "rlmParentNodeId" ms;
  _ ← defaulted None (decode (A:=option string)) "prompt" ms;
  _ ← defaulted None (decode (A:=option string)) "spawnCode" ms;
  _ ← defaulted VNull decode_any "model" ms;
  _ ← defaulted 0 as_u64 "createdAt" ms;
  Some (mkLegacy child_id session_name session_file rlm_depth status).

(** [read_first_line_bounded]: the first line, when it or the whole file ends
    within [max] bytes. *)
Definition strip_line_return (line : string) : string := default line (strip_suffix (String cr "") line).
Definition first_line_bounded (content : string) (max : nat) : option string :=
  match split_once nl_str (str_take (S max) content) with
  | Some (line, _) => Some (strip_line_return line)
  | None =>
      if is_empty content then None
      else if Nat.leb (len content) max then Some (strip_line_return content) else None
  end.

Section Ledger.
Context `{Env} `{LedgerEnv}.

(** [legacy_registry_path]. *)
Definition legacy_registry_path (v : View) (session_file : path) : option path :=
  content ← view_read v session_file;
  line ← first_line_bounded content LEGACY_REGISTRY_HEADER_READ_MAX_BYTES;
  if is_utf8 line then
    match from_str (trim line) with
    | inl _ => None
    | inr header =>
        header_id ← get_str "id" header;
        d ← parent session_file;
        root ← parent d;
        Some (join (join (root ++ ["session-artifacts"])%list header_id) "rlm-subagents.jsonl")
    end
  else None.

(** [read_legacy_registry]: the latest entry per child id, in the hash map's
    order. *)
Definition known_status (s : string) : bool :=
  String.eqb s "running" || String.eqb s "completed" || String.eqb s "deleted".
Definition legacy_line (latest : gmap string LegacyRlmSubagentEntry) (line : string)
    : gmap string LegacyRlmSubagentEntry :=
  let trimmed := trim line in
  if is_empty trimmed then latest
  else match from_str trimmed with
  | inl _ => latest
  | inr v =>
      match decode_legacy v with
      | None => latest
      | Some entry =>
          if is_empty (le_child_id entry) || is_empty (le_session_file entry) || negb (known_status (le_status entry))
          then latest else <[le_child_id entry := entry]> latest
      end
  end.
Definition read_legacy_registry (order : list LegacyRlmSubagentEntry -> list LegacyRlmSubagentEntry)
    (v : View) (session_file : path) : list LegacyRlmSubagentEntry :=
  match legacy_registry_path v session_file ≫= view_read v with
  | None => []
  | Some content =>
      if is_utf8 content then order (map snd (map_to_list (foldl legacy_line ∅ (lines content)))) else []
  end.

(** ** The process and its surroundings *)
Record FileIdentity := mkIdentity { fi_size : nat; fi_mtime : option Z; fi_ino : option Z }.
#[export] Instance file_identity_eq_dec : EqDecision FileIdentity.
Proof. solve_decision. Defined.

(** A system call on the ledger runs, fails, or is where the process dies; a
    write that does not complete leaves its first [written] bytes. *)
Inductive lfault := LRun | LFail (k : io_kind) (written : nat) | LDie (written : nat).

Record Scene := mkScene {
  sc_view : View;
  sc_fault : nat -> lfault;
  sc_other : nat -> list string;  (* the lines other processes append before the call *)
  sc_stamp : nat -> option Z * option Z;  (* the file's modification time and inode *)
  sc_clock : nat -> Z;
  sc_order : list LegacyRlmSubagentEntry -> list LegacyRlmSubagentEntry
}.
Record Conf := mkConf { cf_path : path; cf_agent_dir : path; cf_sessions_dir : path }.

Record LState := mkLState {
  ls_file : option string;
  ls_cache : option (FileIdentity * ReplayState);
  ls_seeded : bool;
  ls_step : nat
}.
(** [rlm_ledger_path] and [RlmSpawnLedger::new]. *)
Definition hex_digit (n : N) : ascii := if (n <? 10)%N then ascii_of_N (48 + n) else ascii_of_N (87 + n).
Fixpoint hex (s : string) : string :=
  match s with
  | EmptyString => ""
  | String c s' => String (hex_digit (code c / 16)) (String (hex_digit (code c mod 16)) (hex s'))
  end.
Definition hash_key (input : string) (chars : nat) : string := str_take chars (hex (sha256 input)).
Definition rlm_ledger_path (v : View) (agent_dir sessions_dir : path) : path :=
  (agent_dir ++ ["rlm-ledger"; (hash_key (path_display (canonicalize_dir v sessions_dir)) 16 ++ ".jsonl")%string])%list.
Definition open_ledger (v : View) (agent_dir sessions_dir : path) : Conf :=
  mkConf (rlm_ledger_path v agent_dir sessions_dir) (canonicalize_dir v agent_dir) (canonicalize_dir v sessions_dir).
Definition fresh_process (file : option string) : LState := mkLState file None false 0.

Definition LM (E A : Type) : Type := LState -> result E A * LState.
Definition lret {E A} (a : A) : LM E A := fun s => (Ok a, s).
Definition lthrow {E A} (e : E) : LM E A := fun s => (Err e, s).
Definition lbind {E A B} (m : LM E A) (f : A -> LM E B) : LM E B := fun s =>
  match m s with
  | (Ok a, s') => f a s'
  | (Err e, s') => (Err e, s')
  | (Killed, s') => (Killed, s')
  end.
(** Match on the [Result] of a call. *)
Definition ltry {E F A} (m : LM E A) : LM F (E + A) := fun s =>
  match m s with
  | (Ok a, s') => (Ok (inr a), s')
  | (Err e, s') => (Ok (inl e), s')
  | (Killed, s') => (Killed, s')
  end.
Definition lmap_err {E F A} (f : E -> F) (m : LM E A) : LM F A := fun s =>
  match m s with
  | (Ok a, s') => (Ok a, s')
  | (Err e, s') => (Err (f e), s')
  | (Killed, s') => (Killed, s')
  end.
Definition llift {E A} (m : E + A) : LM E A := fun s =>
  match m with inl e => (Err e, s) | inr a => (Ok a, s) end.
End Ledger.

Notation "'let!' x ':=' m 'in' k" := (lbind m (fun x => k))
  (at level 10, x name, m at level 100, k at level 200) : bb_scope.
Notation "'do!' m 'in' k" := (lbind m (fun _ => k))
  (at level 10, m at level 100, k at level 200) : bb_scope.

Section Operations.
Context `{Env} `{LedgerEnv} (cf : Conf) (sc : Scene).
Abbreviation view := (sc_view sc).

(** The file ends where a line may start. *)
Definition terminated (content : string) : bool :=
  is_empty content || match strip_suffix nl_str content with Some _ => true | None => false end.
(** What other processes appended: whole lines, as [append_record] writes them,
    on a fresh line; a file that is not there is created. *)
Definition fresh_line (content : string) : string := if terminated content then "" else nl_str.
Definition line_block (texts : list string) : string := foldr (fun t rest => (t ++ nl_str) ++ rest) "" texts.
Definition grow (file : option string) (more : list string) : option string :=
  match more with
  | [] => file
  | _ => let content := default "" file in Some (content ++ fresh_line content ++ line_block more)
  end.

(** One system call on the ledger file. *)
Definition lsys {A : Type} (part : nat -> option string -> option string)
    (eff : option string -> (io_kind + A) * option string) : LM io_error A := fun s =>
  let file := grow (ls_file s) (sc_other sc (ls_step s)) in
  let after f := mkLState f (ls_cache s) (ls_seeded s) (S (ls_step s)) in
  match sc_fault sc (ls_step s) with
  | LRun => let '(r, f) := eff file in (match r with inl k => Err (os_error k) | inr a => Ok a end, after f)
  | LFail k n => (Err (os_error k), after (part n file))
  | LDie n => (Killed, after (part n file))
  end.
(** A call that only reads the ledger file, or touches another one. *)
Definition lquery {A : Type} (q : option string -> io_kind + A) : LM io_error A :=
  lsys (fun _ f => f) (fun f => (q f, f)).
Definition elsewhere : LM io_error unit := lquery (fun _ => inr tt).
(** [write_all] on a handle opened with [O_APPEND]. *)
Definition append_bytes (text : string) : LM io_error unit :=
  lsys (fun n f => Some (default "" f ++ str_take n text)) (fun f => (inr tt, Some (default "" f ++ text))).

Definition io_err (e : io_error) : anyhow := anyhow_msg (io_error_text e).
Definition now_text : LM anyhow string := fun s => (Ok (iso_from_unix_ms (sc_clock sc (ls_step s))), s).

(** The documents the ledger writes. *)
Definition record_value (at_ op : string) (fields : list (string * Value)) : Value :=
  VObject (("v", VNumber 1) :: ("op", VString op) :: ("at", VString at_) :: fields).
Definition meta_value (at_ : string) : Value :=
  record_value at_ "meta" [("sessionsDir", VString (path_display (cf_sessions_dir cf)))].
Definition spawn_value (at_ child_id parent child : string) (depth : Z) (name : string) : Value :=
  record_value at_ "spawn" [("childId", VString child_id); ("parent", VString parent); ("child", VString child);
                            ("depth", VNumber depth); ("name", VString name)].
Definition rename_value (at_ child_id child name : string) : Value :=
  record_value at_ "rename" [("childId", VString child_id); ("child", VString child); ("name", VString name)].
Definition usage_value (u : SessionUsageSummary) : Value :=
  VObject [("inputTokens", VNumber (u_input_tokens u)); ("outputTokens", VNumber (u_output_tokens u));
           ("cost", VFloat (f64_text (u_cost u)))].
Definition delete_value (at_ child_id child : string) (reason : RlmLedgerDeleteReason)
    (usage : option SessionUsageSummary) : Value :=
  record_value at_ "delete"
    ([("childId", VString child_id); ("child", VString child); ("reason", VString (wire_name reason))]
     ++ match usage with Some u => [("usage", usage_value u)] | None => [] end)%list.
Definition line_of (v : Value) : string := value_display v ++ nl_str.

(** ** Seeding *)

(** One entry of a parent's registry: the child is recorded once, at the
    registry's depth or one below its parent. *)
Record SeedState := mkSeed {
  sd_queue : list (path * Z);   (* the last element is popped first *)
  sd_visited : list path;
  sd_records : list Value
}.
Definition seed_entry (session_file : path) (depth : Z) (at_ : string) (st : SeedState)
    (entry : LegacyRlmSubagentEntry) : SeedState :=
  if String.eqb (le_status entry) "deleted" then st
  else if is_empty (le_child_id entry) then st
  else
    let child_path := canonical_session_path view (path_of_string (le_session_file entry)) in
    if bool_decide (child_path ∈ sd_visited st) then st
    else
      let child_depth := if 1 <=? le_rlm_depth entry then le_rlm_depth entry else u32_wrapping_add depth 1 in
      mkSeed (sd_queue st ++ [(path_of_string (le_session_file entry), child_depth)])
        (sd_visited st ++ [child_path])
        (sd_records st ++ [spawn_value at_ (le_child_id entry)
           (path_display (canonical_session_path view session_file)) (path_display child_path)
           child_depth (le_session_name entry)]).
Fixpoint seed_walk (fuel : nat) (at_ : string) (st : SeedState) : option (list Value) :=
  match last (sd_queue st) with
  | None => Some (sd_records st)
  | Some (session_file, depth) =>
      match fuel with
      | O => None
      | S fuel' =>
          seed_walk fuel' at_
            (foldl (seed_entry session_file depth at_)
               (mkSeed (removelast (sd_queue st)) (sd_visited st) (sd_records st))
               (read_legacy_registry (sc_order sc) view session_file))
      end
  end.
(** Every step but the roots' visits one more child path named on some line of
    some file. *)
Definition seed_fuel (roots : nat) : nat :=
  (roots + sum_list_with (fun f => List.length (lines (snd f))) (map_to_list (v_files view)))%nat.

Definition seed_roots (entries : list path) : list (path * Z) :=
  (fun p => (p, 0)) <$> merge_sort path_le (List.filter (fun p => bool_decide (extension p = Some "jsonl")) entries).

(** [seed]. *)
Definition seed_publish (records : list Value) : LM anyhow unit :=
  let text := line_block (map value_display records) in
  if (RLM_LEDGER_MAX_BYTES <? Z.of_nat (len text)) || (RLM_LEDGER_MAX_RECORDS <? Z.of_nat (List.length records) + 1)
  then lret tt
  else
    let! at_ := now_text in
    let payload := line_of (meta_value at_) ++ text in
    do! lmap_err io_err elsewhere in                       (* create_dir_all *)
    do! lmap_err io_err elsewhere in                       (* File::create *)
    do! lmap_err io_err elsewhere in                       (* write_all *)
    do! lmap_err io_err elsewhere in                       (* sync_all *)
    do! ltry (lsys (fun _ f => f) (fun f =>                (* hard_link *)
          match f with Some _ => (inl AlreadyExists, f) | None => (inr tt, Some payload) end)) in
    do! ltry elsewhere in                                  (* remove_file *)
    lret tt.
Definition seed : LM anyhow unit :=
  let! present := ltry (lquery (fun f => match f with Some _ => inr tt | None => inl NotFound end)) in
  match present with
  | inr _ => lret tt
  | inl _ =>
      match view_read_dir view (cf_sessions_dir cf) with
      | None => lret tt
      | Some entries =>
          let! at_ := now_text in
          let queue := seed_roots entries in
          let visited := map (fun q => canonical_session_path view (fst q)) queue in
          match seed_walk (seed_fuel (List.length queue)) at_ (mkSeed queue visited []) with
          | None => lret tt
          | Some [] => lret tt
          | Some records => seed_publish records
          end
      end
  end.
Definition mark_seeded : LM anyhow bool := fun s =>
  (Ok (ls_seeded s), mkLState (ls_file s) (ls_cache s) true (ls_step s)).
Definition seed_once : LM anyhow unit :=
  let! attempted := mark_seeded in
  if attempted then lret tt else do! ltry (E:=anyhow) seed in lret tt.

(** ** Reading *)

(** The loop of [read_records]: [count] entries so far, [index] lines. *)
Fixpoint read_lines (index : nat) (count : Z) (ls : list string) : anyhow + list LedgerRecord :=
  match ls with
  | [] => inr []
  | line :: rest =>
      if is_empty (trim line) then read_lines (S index) count rest
      else if RLM_LEDGER_MAX_RECORDS <? count + 1 then
        inl (anyhow_msg ("RLM ledger " ++ path_display (cf_path cf) ++ " exceeds " ++ show_Z RLM_LEDGER_MAX_RECORDS
               ++ " records; refusing to read"))
      else
        let? records := read_lines (S index) (count + 1) rest in
        match parse_ledger_line line index with
        | inr (Some r) => inr (r :: records)
        | _ => inr records
        end
  end.
Definition decode_records (bytes : string) : anyhow + list LedgerRecord :=
  if RLM_LEDGER_MAX_BYTES <? Z.of_nat (len bytes) then
    inl (anyhow_msg ("RLM ledger " ++ path_display (cf_path cf) ++ " exceeds " ++ show_Z RLM_LEDGER_MAX_BYTES
           ++ " bytes; refusing to read"))
  else read_lines 0 0 (lines (from_utf8_lossy bytes)).
(** [read_records]: a file that cannot be read has no records. *)
Definition read_records : LM anyhow (list LedgerRecord) :=
  let! bytes := ltry (lquery (fun f => match f with Some b => inr b | None => inl NotFound end)) in
  match bytes with
  | inl _ => lret []
  | inr b => llift (decode_records b)
  end.
Definition replay : LM anyhow ReplayState :=
  let! records := read_records in lret (fold_records view (fun _ => true) records).

(** [file_identity]. *)
Definition file_identity : LM anyhow (option FileIdentity) := fun s =>
  let stamp := sc_stamp sc (ls_step s) in
  (let! size := ltry (lquery (fun f => match f with Some b => inr (len b) | None => inl NotFound end)) in
   match size with
   | inl _ => lret None
   | inr n => lret (Some (mkIdentity n (fst stamp) (snd stamp)))
   end) s.
Definition get_cache : LM anyhow (option (FileIdentity * ReplayState)) := fun s => (Ok (ls_cache s), s).
Definition set_cache (c : option (FileIdentity * ReplayState)) : LM anyhow unit := fun s =>
  (Ok tt, mkLState (ls_file s) c (ls_seeded s) (ls_step s)).
(** [replay_cached]. *)
Definition replay_fresh (identity : option FileIdentity) : LM anyhow ReplayState :=
  let! st := replay in
  match identity with
  | Some id => do! set_cache (Some (id, st)) in lret st
  | None => lret st
  end.
Definition replay_cached : LM anyhow ReplayState :=
  let! identity := file_identity in
  let! cache := get_cache in
  match identity, cache with
  | Some id, Some (cached_id, st) => if bool_decide (id = cached_id) then lret st else replay_fresh identity
  | _, _ => replay_fresh identity
  end.
(** [replay_of_parent]. *)
Definition spawned_by (stem : option string) (r : LedgerRecord) : bool :=
  match r with Spawn _ parent _ _ _ => bool_decide (file_stem (path_of_string parent) = stem) | _ => false end.
Definition own_children (parent_file : path) (records : list LedgerRecord) : list string :=
  record_child_id <$> List.filter (spawned_by (file_stem parent_file)) records.
Definition replay_of_parent (parent_file : path) : LM anyhow ReplayState :=
  let! records := read_records in
  let own := own_children parent_file records in
  lret (fold_records view (fun id => bool_decide (id ∈ own)) records).

(** ** Appending *)
(** [append_record]: a new file starts with the meta header; a file that does
    not end its last line gets a newline first. *)
Definition choose_line (record : Value) (size : nat) : LM anyhow string :=
  if Nat.eqb size 0 then
    let! at_ := now_text in
    do! lmap_err io_err (append_bytes (line_of (meta_value at_))) in
    lret (line_of record)
  else
    let! offset := lmap_err io_err (lquery (fun f => inr (len (default "" f) - 1)%nat)) in             (* seek *)
    let! last := lmap_err io_err (lquery (fun f => inr (String.get offset (default "" f)))) in         (* read *)
    lret (if bool_decide (last = Some nl) then line_of record else nl_str ++ line_of record).
Definition append_record (record : Value) : LM anyhow unit :=
  do! seed_once in
  do! lmap_err io_err elsewhere in                                                                     (* ensure_dir *)
  do! lmap_err (fun e => anyhow_context ("open RLM ledger " ++ path_display (cf_path cf)) (io_err e))
        (lsys (fun _ f => f) (fun f => (inr tt, Some (default "" f)))) in                              (* open *)
  let! size := lmap_err io_err (lquery (fun f => inr (len (default "" f)))) in
  let! line := choose_line record size in
  do! lmap_err io_err (append_bytes line) in
  do! lmap_err io_err elsewhere in                                                                     (* sync_all *)
  set_cache None.

(** The inputs of [append_spawn]. *)
Record RlmSpawnInput := mkSpawnInput {
  si_child_id : string; si_parent : string; si_child : string; si_depth : Z; si_name : string
}.
Definition invalid_spawn (i : RlmSpawnInput) : bool :=
  is_empty (si_child_id i) || is_empty (si_parent i) || is_empty (si_child i) || (si_depth i <? 1).
Definition at_path (target : path) (e : RlmLedgerEdge) : bool :=
  bool_decide (canonical_session_path view (path_of_string (e_child e)) = target).
Definition live (e : RlmLedgerEdge) : bool := match e_deleted e with None => true | Some _ => false end.
Definition claims_path (target : path) (child_id : string) (e : RlmLedgerEdge) : bool :=
  live e && at_path target e && negb (String.eqb (e_child_id e) child_id).
Definition append_spawn (i : RlmSpawnInput) : LM anyhow unit :=
  if invalid_spawn i then
    lthrow (anyhow_msg ("RLM ledger: invalid spawn for "
      ++ (if is_empty (si_child_id i) then "<missing childId>" else si_child_id i)
      ++ " (depth " ++ show_Z (si_depth i) ++ ")"))
  else
    let child_path := canonical_session_path view (path_of_string (si_child i)) in
    let! st := replay_cached in
    match find_first (claims_path child_path (si_child_id i)) (rs_edges st) with
    | Some e => lthrow (anyhow_msg ("RLM ledger: duplicate child session path " ++ path_display child_path
                          ++ " (already " ++ e_child_id e ++ ")"))
    | None =>
        let! at_ := now_text in
        append_record (spawn_value at_ (si_child_id i)
          (path_display (canonical_session_path view (path_of_string (si_parent i))))
          (path_display child_path) (si_depth i) (si_name i))
    end.
Definition append_rename (child_id child name : string) : LM anyhow unit :=
  let! at_ := now_text in
  append_record (rename_value at_ child_id (canonical_text view child) name).
Definition append_delete (child_id child : string) (reason : RlmLedgerDeleteReason) : LM anyhow unit :=
  let! at_ := now_text in
  append_record (delete_value at_ child_id (canonical_text view child) reason None).
Definition append_delete_with_usage (child_id child : string) (reason : RlmLedgerDeleteReason)
    (usage : SessionUsageSummary) : LM anyhow unit :=
  if negb (is_finite (u_cost usage)) || is_sign_negative (u_cost usage) then append_delete child_id child reason
  else
    let! at_ := now_text in
    append_record (delete_value at_ child_id (canonical_text view child) reason (Some usage)).

(** A loop that stops at the first error. *)
Fixpoint for_each {A} (f : A -> LM anyhow unit) (l : list A) : LM anyhow unit :=
  match l with
  | [] => lret tt
  | a :: rest => do! f a in for_each f rest
  end.
Definition append_rename_by_child_path (child name : string) : LM anyhow unit :=
  let target := canonical_session_path view (path_of_string child) in
  let! st := replay_cached in
  for_each (fun e =>
    if live e && at_path target e then
      let! at_ := now_text in append_record (rename_value at_ (e_child_id e) (path_display target) name)
    else lret tt) (rs_edges st).
Definition tombstone_child_path_with_usage (child : string) (reason : RlmLedgerDeleteReason)
    (usage : option SessionUsageSummary) : LM anyhow (list RlmLedgerEdge) :=
  let target := canonical_session_path view (path_of_string child) in
  let! st := replay_cached in
  let matching := List.filter (at_path target) (rs_edges st) in
  do! for_each (fun e =>
        match usage with
        | Some u => append_delete_with_usage (e_child_id e) (e_child e) reason u
        | None => append_delete (e_child_id e) (e_child e) reason
        end) matching in
  lret matching.
Definition tombstone_child_path (child : string) (reason : RlmLedgerDeleteReason) : LM anyhow (list RlmLedgerEdge) :=
  tombstone_child_path_with_usage child reason None.

(** ** Querying *)
Definition edges (include_deleted : bool) : LM anyhow (list RlmLedgerEdge) :=
  do! seed_once in
  let! st := replay_cached in
  lret (List.filter (fun e => include_deleted || live e) (rs_edges st)).
Definition fresh_resolver : LivePathResolver := new_resolver (cf_agent_dir cf) (cf_sessions_dir cf).
Definition live_edges : LM anyhow (list RlmLedgerEdge) :=
  do! seed_once in
  let! st := replay_cached in
  lret (resolve_live_edges view st fresh_resolver).
Definition has_parent (parent_file : path) (e : RlmLedgerEdge) : bool :=
  bool_decide (canonical_session_path view (path_of_string (e_parent e)) = parent_file).
Definition live_edges_of_parent (parent_file : path) : LM anyhow (list RlmLedgerEdge) :=
  do! seed_once in
  let parent_file := canonical_session_path view parent_file in
  let! st := replay_of_parent parent_file in
  lret (List.filter (has_parent parent_file) (resolve_live_edges view st fresh_resolver)).
Definition edge_is_live (child_id child : string) : LM anyhow bool :=
  let child := canonical_session_path view (path_of_string child) in
  let! seeded := ltry (E:=anyhow) (seed_once) in
  match seeded with
  | inl _ => lret false
  | inr _ =>
      let! replayed := ltry (E:=anyhow) replay_cached in
      match replayed with
      | inl _ => lret false
      | inr st =>
          lret (existsb (fun e =>
            String.eqb (e_child_id e) child_id && live e && at_path child e
            && view_is_file view (path_of_string (e_child e)) && view_is_file view (path_of_string (e_parent e)))
            (rs_edges st))
      end
  end.
End Operations.
