(* ===== verification/LedgerProofs.v ===== *)
(** * The spawn ledger: replay

    The indexed fold against a reference that looks every edge up by its key,
    the fold restricted to one parent's children, and the resolver's cache. *)
From S2P Require Import Prelude RustStr Lines Json Time World LedgerReplay Ledger.
#[local] Open Scope string_scope.
#[local] Open Scope Z_scope.

(** ** The reference fold *)
Section Reference.
Context (v : View).

Definition has_key (k : string) (e : RlmLedgerEdge) : bool := String.eqb (key_of v e) k.
Definition has_id (id : string) (e : RlmLedgerEdge) : bool := String.eqb (e_child_id e) id.
#[local] Arguments has_key : simpl never.
#[local] Arguments has_id : simpl never.
Definition update {A} (p : A -> bool) (f : A -> A) (l : list A) : list A := map (fun e => if p e then f e else e) l.

(** The edge a rename or a delete joins: the one with its key, otherwise the
    only one with its child id. *)
Definition spec_join (f : RlmLedgerEdge -> RlmLedgerEdge) (child_id child : string) (l : list RlmLedgerEdge)
    : list RlmLedgerEdge :=
  if existsb (has_key (edge_key v child_id child)) l then update (has_key (edge_key v child_id child)) f l
  else if Nat.eqb (List.length (List.filter (has_id child_id) l)) 1 then update (has_id child_id) f l
  else l.
Definition spec_record (l : list RlmLedgerEdge) (r : LedgerRecord) : list RlmLedgerEdge :=
  match r with
  | Spawn child_id parent child depth name =>
      let edge := mkEdge child_id parent child depth name None None in
      if existsb (has_key (key_of v edge)) l then update (has_key (key_of v edge)) (fun _ => edge) l
      else (l ++ [edge])%list
  | Rename child_id child name => spec_join (rename_edge name) child_id child l
  | Delete child_id child reason usage => spec_join (delete_edge reason usage) child_id child l
  end.
Definition spec_fold (keep : string -> bool) (records : list LedgerRecord) : list RlmLedgerEdge :=
  foldl (fun l r => if keep (record_child_id r) then spec_record l r else l) [] records.

(** ** The index *)

(** The index holds each edge's position under its key, and nothing else. *)
Definition indexed (st : ReplayState) : Prop :=
  forall k i, rs_index st !! k = Some i <-> exists e, rs_edges st !! i = Some e /\ key_of v e = k.

Lemma update_lookup {A} (p : A -> bool) f (l : list A) i :
  update p f l !! i = (fun e => if p e then f e else e) <$> l !! i.
Proof. unfold update. apply list_lookup_fmap. Qed.

Lemma update_at {A} (p : A -> bool) f (l : list A) i :
  (forall j e, l !! j = Some e -> p e = true <-> j = i) -> update p f l = alter f i l.
Proof.
  intros Hp. apply list_eq. intros j. rewrite update_lookup. destruct (l !! j) as [e|] eqn:E.
  - cbn. specialize (Hp j e E). destruct (decide (j = i)) as [->|Hne].
    + rewrite (proj2 Hp eq_refl), list_lookup_alter_eq, E. done.
    + destruct (p e); [naive_solver|]. by rewrite list_lookup_alter_ne by done.
  - cbn. destruct (decide (j = i)) as [->|Hne]; [by rewrite list_lookup_alter_eq, E|]. by rewrite list_lookup_alter_ne by done.
Qed.

Lemma indexed_key st k i :
  indexed st -> rs_index st !! k = Some i -> forall j e, rs_edges st !! j = Some e -> has_key k e = true <-> j = i.
Proof.
  intros Hi Hk j e Hj. unfold has_key. rewrite String.eqb_eq. split.
  - intros He. assert (rs_index st !! k = Some j) as Hk' by (apply Hi; eauto). congruence.
  - intros ->. apply Hi in Hk as (e' & He' & <-). congruence.
Qed.
Lemma indexed_absent st k : indexed st -> rs_index st !! k = None -> existsb (has_key k) (rs_edges st) = false.
Proof.
  intros Hi Hk. apply not_true_is_false. rewrite existsb_exists. intros (e & Hin & He).
  apply list_elem_of_In, list_elem_of_lookup in Hin as [i Hin]. apply String.eqb_eq in He.
  assert (rs_index st !! k = Some i) by (apply Hi; eauto). congruence.
Qed.
Lemma indexed_present st k i : indexed st -> rs_index st !! k = Some i -> existsb (has_key k) (rs_edges st) = true.
Proof.
  intros Hi Hk. apply Hi in Hk as (e & He & Hk). apply existsb_exists. exists e. split.
  - apply list_elem_of_In. by apply list_elem_of_lookup_2 in He.
  - by apply String.eqb_eq.
Qed.

Lemma indexed_alter st f i :
  (forall e, key_of v (f e) = key_of v e) -> indexed st -> indexed (alter_edge f i st).
Proof.
  intros Hf Hi. destruct i as [i|]; [|done]. intros k j. cbn. rewrite (Hi k j).
  destruct (decide (j = i)) as [->|Hne].
  - rewrite list_lookup_alter_eq. destruct (rs_edges st !! i) as [e|]; cbn; naive_solver.
  - by rewrite list_lookup_alter_ne by done.
Qed.

Lemma existsb_never {A} (l : list A) : existsb (fun _ => false) l = false.
Proof. by induction l. Qed.

(** The scan for the only edge of a child id. *)
Lemma sole_edge_taken n j l id :
  sole_edge_from n (Some j) l id = if existsb (has_id id) l then None else Some j.
Proof.
  revert n. induction l as [|e l IH]; intros n; [done|]. cbn. unfold has_id at 1.
  destruct (String.eqb (e_child_id e) id); [done|]. apply IH.
Qed.
Lemma filter_none {A} (p : A -> bool) l : existsb p l = false -> List.filter p l = [].
Proof. induction l as [|a l IH]; cbn; [done|]. destruct (p a); [done|]. apply IH. Qed.
Lemma filter_some {A} (p : A -> bool) l : existsb p l = true -> List.filter p l <> [].
Proof. induction l as [|a l IH]; cbn; [done|]. destruct (p a); [done|]. apply IH. Qed.
Lemma update_none {A} (p : A -> bool) f l : existsb p l = false -> update p f l = l.
Proof. unfold update. induction l as [|a l IH]; cbn; [done|]. destruct (p a); [done|]. intros E. by rewrite IH. Qed.
Lemma sole_edge_spec n l id :
  match sole_edge_from n None l id with
  | Some i => List.length (List.filter (has_id id) l) = 1%nat
              /\ exists j, i = (n + j)%nat /\ forall f, alter f j l = update (has_id id) f l
  | None => List.length (List.filter (has_id id) l) <> 1%nat
  end.
Proof.
  revert n. induction l as [|e l IH]; intros n; [done|]. cbn [sole_edge_from List.filter update map].
  change (String.eqb (e_child_id e) id) with (has_id id e). destruct (has_id id e) eqn:He.
  - rewrite sole_edge_taken. destruct (existsb (has_id id) l) eqn:E.
    + pose proof (filter_some _ _ E). destruct (List.filter (has_id id) l); cbn; [done|lia].
    + rewrite (filter_none _ _ E). split; [done|]. exists 0%nat. split; [lia|]. intros f. unfold update. cbn. f_equal. symmetry. by apply update_none.
  - specialize (IH (S n)). destruct (sole_edge_from (S n) None l id) as [i|]; [|done].
    destruct IH as (Hl & j & -> & Hf). split; [done|]. exists (S j). split; [lia|]. intros f. unfold update. cbn. f_equal. apply Hf.
Qed.

Lemma join_refines st f id child :
  indexed st -> rs_edges (alter_edge f (join_at v st id child) st) = spec_join f id child (rs_edges st).
Proof.
  intros Hi. unfold join_at, spec_join. destruct (rs_index st !! edge_key v id child) as [i|] eqn:E.
  - rewrite (indexed_present st _ i) by done. symmetry. apply update_at. by apply indexed_key.
  - rewrite indexed_absent by done. unfold sole_edge_by_child_id. pose proof (sole_edge_spec 0 (rs_edges st) id) as Hs.
    destruct (sole_edge_from 0 None (rs_edges st) id) as [i|]; cbn.
    + destruct Hs as (-> & j & -> & Hf). apply Hf.
    + by rewrite (proj2 (Nat.eqb_neq _ _) Hs).
Qed.

Lemma fold_record_refines st r :
  indexed st -> indexed (fold_record v st r) /\ rs_edges (fold_record v st r) = spec_record (rs_edges st) r.
Proof.
  intros Hi. destruct r as [id parent child depth name|id child name|id child reason usage]; cbn [fold_record spec_record].
  - set (edge := mkEdge _ _ _ _ _ _ _). change (edge_key v id child) with (key_of v edge).
    destruct (rs_index st !! key_of v edge) as [i|] eqn:E.
    + rewrite (indexed_present st _ i) by done. pose proof (indexed_key st _ i Hi E) as Hk.
      assert (exists e, rs_edges st !! i = Some e /\ key_of v e = key_of v edge) as (e & He & Hke) by by apply Hi.
      assert (<[i:=edge]> (rs_edges st) = alter (fun _ => edge) i (rs_edges st)) as Ha.
      { apply list_eq. intros j. destruct (decide (j = i)) as [->|Hne].
        - rewrite list_lookup_alter_eq, He, list_lookup_insert_eq; [done|]. by eapply lookup_lt_Some.
        - by rewrite list_lookup_alter_ne, list_lookup_insert_ne by done. }
      cbn. split; [|by rewrite (update_at _ _ _ i)].
      intros k j. cbn. rewrite (Hi k j), Ha. destruct (decide (j = i)) as [->|Hne].
      * rewrite list_lookup_alter_eq, He. cbn. naive_solver.
      * by rewrite list_lookup_alter_ne by done.
    + rewrite indexed_absent by done. split; [|done]. intros k i. cbn. pose proof (Hi (key_of v edge)) as Hnone.
      destruct (decide (k = key_of v edge)) as [->|Hk].
      * rewrite lookup_insert_eq. split.
        -- intros [= <-]. exists edge. split; [|done]. rewrite lookup_app_r by done. by rewrite Nat.sub_diag.
        -- intros (e & He & Hke). rewrite lookup_app_Some in He. destruct He as [He|[Hl He]].
           ++ assert (rs_index st !! key_of v edge = Some i) by (apply Hnone; eauto). congruence.
           ++ apply list_lookup_singleton_Some in He as [He _]. f_equal. lia.
      * rewrite lookup_insert_ne by done. rewrite (Hi k i). split; intros (e & He & Hke); exists e; (split; [|done]).
        -- rewrite lookup_app_l; [done|]. by eapply lookup_lt_Some.
        -- rewrite lookup_app_Some in He. destruct He as [He|[_ He]]; [done|].
           apply list_lookup_singleton_Some in He as [_ <-]. congruence.
  - split; [by apply indexed_alter|by apply join_refines].
  - split; [by apply indexed_alter|by apply join_refines].
Qed.

Lemma fold_from_refines (keep : string -> bool) (records : list LedgerRecord) st :
  indexed st ->
  let step := fun (st : ReplayState) (r : LedgerRecord) => if keep (record_child_id r) then fold_record v st r else st in
  indexed (foldl step st records) /\
  rs_edges (foldl step st records)
  = foldl (fun l r => if keep (record_child_id r) then spec_record l r else l) (rs_edges st) records.
Proof.
  cbv zeta. revert st. induction records as [|r records IH]; intros st Hi; [done|]. cbn.
  destruct (keep (record_child_id r)); [|by apply IH].
  destruct (fold_record_refines st r Hi) as [Hi' He]. rewrite <- He. by apply IH.
Qed.
Lemma empty_indexed : indexed empty_replay.
Proof. intros k i. cbn. rewrite lookup_empty. naive_solver. Qed.
Lemma fold_reference (keep : string -> bool) (records : list LedgerRecord) :
  indexed (fold_records v keep records) /\ rs_edges (fold_records v keep records) = spec_fold keep records.
Proof. apply (fold_from_refines keep records empty_replay empty_indexed). Qed.

(** ** One parent's children *)

(** The record's child id is not split by the key's separator. *)
Definition plain_id (r : LedgerRecord) : Prop := contains_char nul (record_child_id r) = false.
Definition plain_ids (l : list RlmLedgerEdge) : Prop := forall e, e ∈ l -> contains_char nul (e_child_id e) = false.

Lemma edge_key_id a p b q :
  contains_char nul a = false -> contains_char nul b = false -> edge_key v a p = edge_key v b q -> a = b.
Proof.
  intros Ha Hb Hk. unfold edge_key in Hk. pose proof (split_once_char_app nul a (canonical_text v p) Ha) as Hs.
  rewrite Hk, split_once_char_app in Hs by done. congruence.
Qed.
Lemma has_key_id id child e :
  contains_char nul id = false -> contains_char nul (e_child_id e) = false ->
  has_key (edge_key v id child) e = true -> e_child_id e = id.
Proof. intros Hid He Hk. apply String.eqb_eq in Hk. by apply edge_key_id in Hk. Qed.

Lemma update_in {A} (p : A -> bool) f (l : list A) x :
  x ∈ update p f l -> x ∈ l \/ exists e, e ∈ l /\ p e = true /\ x = f e.
Proof.
  unfold update. intros Hx. apply list_elem_of_fmap in Hx as (e & -> & He). destruct (p e) eqn:E; naive_solver.
Qed.

(** A record changes edges of its own child id only. *)
Definition touches_id (id : string) (l l' : list RlmLedgerEdge) : Prop :=
  exists (p : RlmLedgerEdge -> bool) (f : RlmLedgerEdge -> RlmLedgerEdge) extra,
    l' = (update p f l ++ extra)%list /\
    (forall e, e ∈ l -> p e = true -> e_child_id e = id /\ e_child_id (f e) = id) /\
    (forall e, e ∈ extra -> e_child_id e = id).
Lemma touches_none id l : touches_id id l l.
Proof.
  exists (fun _ => false), (fun e => e), []. split_and!; [|done|]; [|intros e He; by apply elem_of_nil in He].
  rewrite app_nil_r, update_none; [done|]. apply existsb_never.
Qed.
Lemma touches_update id (p : RlmLedgerEdge -> bool) f l :
  (forall e, e ∈ l -> p e = true -> e_child_id e = id /\ e_child_id (f e) = id) -> touches_id id l (update p f l).
Proof. intros Hp. exists p, f, []. split_and!; [by rewrite app_nil_r|done|]. intros e He. by apply elem_of_nil in He. Qed.
Lemma spec_join_touches f id child l :
  (forall e, e_child_id (f e) = e_child_id e) -> contains_char nul id = false -> plain_ids l ->
  touches_id id l (spec_join f id child l).
Proof.
  intros Hf Hid Hl. unfold spec_join. destruct (existsb _ l); [|case_match; [|apply touches_none]].
  - apply touches_update. intros e He Hk. rewrite Hf. apply has_key_id in Hk; auto.
  - apply touches_update. intros e He Hk. rewrite Hf. apply String.eqb_eq in Hk. auto.
Qed.
Lemma spec_record_touches l r : plain_id r -> plain_ids l -> touches_id (record_child_id r) l (spec_record l r).
Proof.
  intros Hr Hl. destruct r as [id parent child depth name|id child name|id child reason usage]; cbn [spec_record record_child_id].
  - unfold key_of. cbn [e_child_id e_child]. destruct (existsb _ l) eqn:E.
    + apply touches_update. intros e He Hk. apply has_key_id in Hk; auto.
    + set (edge := mkEdge _ _ _ _ _ _ _). exists (fun _ => false), (fun e => e), [edge]. split_and!.
      * rewrite update_none; [done|]. apply existsb_never.
      * done.
      * by intros e ->%list_elem_of_singleton.
  - by apply spec_join_touches.
  - by apply spec_join_touches.
Qed.

Lemma plain_step l r : plain_id r -> plain_ids l -> plain_ids (spec_record l r).
Proof.
  intros Hr Hl e He. destruct (spec_record_touches l r Hr Hl) as (p & f & extra & Heq & Hp & Hx).
  rewrite Heq in He. apply elem_of_app in He as [He|He].
  - apply update_in in He as [He | (e' & He & Hpe & ->)]; [by apply Hl|]. destruct (Hp e' He Hpe) as [_ ->]. done.
  - by rewrite (Hx e He).
Qed.

(** Restricting commutes with a record whose child id is kept ... *)
Section Keep.
Context (keep : string -> bool).
Definition kept (e : RlmLedgerEdge) : bool := keep (e_child_id e).

Lemma filter_update (p : RlmLedgerEdge -> bool) f (l : list RlmLedgerEdge) :
  (forall e, e ∈ l -> p e = true -> kept (f e) = kept e) -> List.filter kept (update p f l) = update p f (List.filter kept l).
Proof.
  unfold update. induction l as [|e l IH]; intros Hp; [done|]. cbn.
  assert (kept (if p e then f e else e) = kept e) as ->.
  { destruct (p e) eqn:E; [|done]. apply Hp; [by left|done]. }
  rewrite IH by (intros; apply Hp; [by right|done]). by destruct (kept e).
Qed.
Lemma filter_exists (p : RlmLedgerEdge -> bool) (l : list RlmLedgerEdge) :
  (forall e, e ∈ l -> p e = true -> kept e = true) -> existsb p (List.filter kept l) = existsb p l.
Proof.
  induction l as [|e l IH]; intros Hp; [done|]. cbn. specialize (IH (fun x Hx => Hp x (list_elem_of_further _ _ _ Hx))).
  destruct (p e) eqn:E.
  - rewrite Hp; [|by left|done]. cbn. by rewrite E.
  - destruct (kept e); cbn; [by rewrite E|]. done.
Qed.
Lemma filter_filter_ids id (l : list RlmLedgerEdge) :
  keep id = true -> List.filter (has_id id) (List.filter kept l) = List.filter (has_id id) l.
Proof.
  intros Hk. induction l as [|e l IH]; [done|]. cbn. destruct (has_id id e) eqn:E.
  - assert (kept e = true) as ->. { unfold kept. apply String.eqb_eq in E. by rewrite E. }
    cbn. by rewrite E, IH.
  - destruct (kept e); cbn; [by rewrite E|]. done.
Qed.
Lemma restrict_join f id child l :
  (forall e, e_child_id (f e) = e_child_id e) -> contains_char nul id = false -> plain_ids l -> keep id = true ->
  List.filter kept (spec_join f id child l) = spec_join f id child (List.filter kept l).
Proof.
  intros Hf Hid Hl Hk. assert (forall e, kept (f e) = kept e) as Hkf by (intros e; unfold kept; by rewrite Hf).
  unfold spec_join. rewrite filter_exists.
  2: { intros e He Hke. apply has_key_id in Hke; auto. unfold kept. by rewrite Hke. }
  rewrite filter_filter_ids by done. destruct (existsb _ l); [|case_match; [|done]]; apply filter_update; auto.
Qed.
Lemma restrict_kept l r :
  plain_id r -> plain_ids l -> keep (record_child_id r) = true ->
  List.filter kept (spec_record l r) = spec_record (List.filter kept l) r.
Proof.
  intros Hr Hl Hk. destruct r as [id parent child depth name|id child name|id child reason usage]; cbn [spec_record record_child_id] in *.
  - unfold key_of. cbn [e_child_id e_child]. set (edge := mkEdge _ _ _ _ _ _ _).
    assert (forall e, e ∈ l -> has_key (edge_key v id child) e = true -> kept e = true) as Hke.
    { intros e He Hke. apply has_key_id in Hke; auto. unfold kept. by rewrite Hke. }
    rewrite filter_exists by done. destruct (existsb _ l).
    + apply filter_update. intros e He Hke'. rewrite (Hke e He Hke'). exact Hk.
    + rewrite List.filter_app. cbn. unfold kept at 2. cbn. by rewrite Hk.
  - by apply restrict_join.
  - by apply restrict_join.
Qed.
(** ... and a record whose child id is not kept changes nothing that is. *)
Lemma restrict_dropped l r :
  plain_id r -> plain_ids l -> keep (record_child_id r) = false ->
  List.filter kept (spec_record l r) = List.filter kept l.
Proof.
  intros Hr Hl Hk. destruct (spec_record_touches l r Hr Hl) as (p & f & extra & -> & Hp & Hx).
  rewrite List.filter_app. assert (List.filter kept extra = []) as ->.
  { clear -Hx Hk. induction extra as [|e extra IH]; [done|]. cbn. unfold kept at 1.
    rewrite (Hx e) by by left. rewrite Hk. apply IH. intros x Hxx. apply Hx. by right. }
  rewrite app_nil_r. clear -Hp Hk. unfold update. induction l as [|e l IH]; [done|]. cbn.
  rewrite IH by (intros x Hx; apply Hp; by right). destruct (p e) eqn:E; [|done].
  destruct (Hp e (list_elem_of_here _ _) E) as [H1 H2]. unfold kept. by rewrite H1, H2, Hk.
Qed.

Lemma restrict_fold (records : list LedgerRecord) l :
  Forall plain_id records -> plain_ids l ->
  foldl (fun l r => if keep (record_child_id r) then spec_record l r else l) (List.filter kept l) records
  = List.filter kept (foldl spec_record l records).
Proof.
  intros Hr. revert l. induction Hr as [|r records Hr _ IH]; intros l Hl; [done|]. cbn.
  rewrite <- IH by by apply plain_step. f_equal. destruct (keep (record_child_id r)) eqn:Hk.
  - symmetry. by apply restrict_kept.
  - symmetry. by apply restrict_dropped.
Qed.
End Keep.
End Reference.

(** Replaying through the index computes what looking every edge up by
    its key computes, and the index always holds exactly the positions of the
    edges, so that no position it yields is out of range. *)
Theorem replay_by_key v (keep : string -> bool) (records : list LedgerRecord) :
  rs_edges (fold_records v keep records) = spec_fold v keep records /\
  forall k i, rs_index (fold_records v keep records) !! k = Some i <->
    exists e, rs_edges (fold_records v keep records) !! i = Some e /\ key_of v e = k.
Proof. destruct (fold_reference v keep records) as [Hi He]. split; [exact He|exact Hi]. Qed.

Lemma spec_fold_all v (records : list LedgerRecord) : spec_fold v (fun _ => true) records = foldl (spec_record v) [] records.
Proof. done. Qed.
Lemma fold_restricts v (keep : string -> bool) (records : list LedgerRecord) :
  Forall plain_id records ->
  rs_edges (fold_records v keep records) = List.filter (kept keep) (rs_edges (fold_records v (fun _ => true) records)).
Proof.
  intros Hr. destruct (fold_reference v keep records) as [_ ->], (fold_reference v (fun _ => true) records) as [_ ->].
  rewrite spec_fold_all. apply (restrict_fold v keep records []); [done|]. intros e He. by apply elem_of_nil in He.
Qed.

(** The replay of one parent's children is the whole replay restricted to
    them. *)
Theorem parent_replay_is_restriction v parent_file (records : list LedgerRecord) :
  Forall plain_id records ->
  let own := fun id => bool_decide (id ∈ own_children parent_file records) in
  rs_edges (fold_records v own records)
  = List.filter (fun e => own (e_child_id e)) (rs_edges (fold_records v (fun _ => true) records)).
Proof. intros Hr own. by apply fold_restricts. Qed.

(** ** Where edges come from *)
Definition from_spawn (records : list LedgerRecord) (e : RlmLedgerEdge) : Prop :=
  exists child depth name, Spawn (e_child_id e) (e_parent e) child depth name ∈ records.
Lemma from_spawn_more records r e : from_spawn records e -> from_spawn (records ++ [r]) e.
Proof. intros (c & d & n & Hin). exists c, d, n. apply elem_of_app. by left. Qed.
Lemma update_all {A} (P : A -> Prop) (p : A -> bool) f l :
  (forall e, P e -> P (f e)) -> (forall e, e ∈ l -> P e) -> forall e, e ∈ update p f l -> P e.
Proof. intros Hf Hl e He. apply update_in in He as [He | (e' & He & _ & ->)]; auto. Qed.
Lemma spec_join_all v (P : RlmLedgerEdge -> Prop) f id child l :
  (forall e, P e -> P (f e)) -> (forall e, e ∈ l -> P e) -> forall e, e ∈ spec_join v f id child l -> P e.
Proof. intros Hf Hl. unfold spec_join. repeat case_match; [by apply update_all..|done]. Qed.
Lemma fold_from_spawn v (records : list LedgerRecord) e :
  e ∈ rs_edges (fold_records v (fun _ => true) records) -> from_spawn records e.
Proof.
  destruct (fold_reference v (fun _ => true) records) as [_ ->]. rewrite spec_fold_all.
  revert e. induction records as [|r records IH] using rev_ind; intros e; [by intros ?%elem_of_nil|].
  rewrite foldl_app. cbn. set (l := foldl (spec_record v) [] records) in *.
  assert (forall e, e ∈ l -> from_spawn (records ++ [r]) e) as Hl by (intros; apply from_spawn_more; auto).
  destruct r as [id parent child depth name|id child name|id child reason usage]; cbn [spec_record].
  - set (edge := mkEdge _ _ _ _ _ _ _).
    assert (from_spawn (records ++ [Spawn id parent child depth name]) edge) as Hedge.
    { exists child, depth, name. apply elem_of_app. right. by apply list_elem_of_singleton. }
    destruct (existsb _ l); [by apply update_all|]. intros [He | ->%list_elem_of_singleton]%elem_of_app; auto.
  - by apply spec_join_all.
  - by apply spec_join_all.
Qed.

(** ** The resolver's pass

    The pass remembers what it resolved and indexes the artifacts once; its
    answers are those of resolving each path on its own. *)
Section Resolver.
Context (v : View) (agent_dir sessions_dir : path).

Definition resolve_path_of (recorded : string) : option path :=
  fst (resolve_uncached v (new_resolver agent_dir sessions_dir) recorded).
Definition resolve_edge (e : RlmLedgerEdge) : option RlmLedgerEdge :=
  match e_deleted e, resolve_path_of (e_child e), resolve_path_of (e_parent e) with
  | None, Some c, Some p =>
      Some (mkEdge (e_child_id e) (path_display p) (path_display c) (e_depth e) (e_name e) None (e_deleted_usage e))
  | _, _, _ => None
  end.

Record pass_ok (r : LivePathResolver) : Prop := {
  pass_agent : lr_agent_dir r = agent_dir;
  pass_sessions : lr_sessions_dir r = sessions_dir;
  pass_index : forall i, lr_artifact_index r = Some i -> i = artifact_session_index v agent_dir;
  pass_resolved : forall k h, lr_resolved r !! k = Some h -> h = resolve_path_of k
}.
Lemma new_pass_ok : pass_ok (new_resolver agent_dir sessions_dir).
Proof. split; [done..| |]; [done|]. intros k h. cbn. by rewrite lookup_empty. Qed.

Lemma resolve_uncached_ok r k :
  pass_ok r -> fst (resolve_uncached v r k) = resolve_path_of k /\ pass_ok (snd (resolve_uncached v r k)).
Proof.
  intros [Ha Hs Hi Hr]. unfold resolve_path_of, resolve_uncached. cbn [new_resolver lr_sessions_dir lr_agent_dir lr_artifact_index].
  rewrite Ha, Hs. assert (pass_ok r) as Hok by by split.
  destruct (view_is_file v _); [done|]. destruct (file_stem _) as [id|]; [|done]. destruct (is_empty id); [done|].
  destruct (view_is_file v _); [done|].
  assert (default (artifact_session_index v agent_dir) (lr_artifact_index r) = artifact_session_index v agent_dir) as Hidx.
  { destruct (lr_artifact_index r) as [i|] eqn:E; [|done]. by apply Hi. }
  rewrite Hidx. split; [done|]. split; cbn; [done|done| |exact Hr]. by intros i [= <-].
Qed.
Lemma resolve_ok r k : pass_ok r -> fst (resolve v r k) = resolve_path_of k /\ pass_ok (snd (resolve v r k)).
Proof.
  intros Hok. unfold resolve. destruct (lr_resolved r !! k) as [h|] eqn:E.
  - split; [|done]. by apply (pass_resolved r Hok).
  - destruct (resolve_uncached_ok r k Hok) as [Hf [Ha Hs Hi Hr]]. destruct (resolve_uncached v r k) as [live r'].
    cbn in *. split; [done|]. split; cbn; [done..|]. intros k' h. destruct (decide (k' = k)) as [->|Hne].
    + rewrite lookup_insert_eq. by intros [= <-].
    + rewrite lookup_insert_ne by done. apply Hr.
Qed.
Lemma resolve_edges_ok r l : pass_ok r -> resolve_edges v r l = omap resolve_edge l.
Proof.
  revert r. induction l as [|e l IH]; intros r Hok; [done|]. cbn [resolve_edges omap list_omap]. unfold resolve_edge at 1.
  destruct (e_deleted e) eqn:Ed; [by apply IH|].
  destruct (resolve_ok r (e_child e) Hok) as [Hc Hok1]. destruct (resolve v r (e_child e)) as [c r1]. cbn in Hc, Hok1.
  destruct (resolve_ok r1 (e_parent e) Hok1) as [Hp Hok2]. destruct (resolve v r1 (e_parent e)) as [p r2]. cbn in Hp, Hok2.
  rewrite <- Hc, <- Hp. destruct c as [c|], p as [p|]; try (by apply IH). f_equal. by apply IH.
Qed.
End Resolver.
