(* ===== verification/LedgerSeed.v ===== *)
(** * The spawn ledger: seeding from the legacy registries

    The walk over the registries ends, whatever cycles they describe, and
    records every child session once. *)
From S2P Require Import Prelude RustStr Lines Json Time World LedgerReplay Ledger.
#[local] Open Scope string_scope.
#[local] Open Scope Z_scope.

(** One element fewer. *)
Lemma size_visit {A} `{Countable A} (X Y : gset A) x : x ∈ X -> x ∉ Y -> S (size (X ∖ (Y ∪ {[x]}))) = size (X ∖ Y).
Proof.
  intros Hx Hy. assert (X ∖ Y = (X ∖ (Y ∪ {[x]})) ∪ {[x]}) as ->.
  { apply set_eq. intros y. destruct (decide (y = x)) as [->|Hne]; set_solver. }
  rewrite (size_union (X ∖ (Y ∪ {[x]})) {[x]}), size_singleton by set_solver. lia.
Qed.

Section Seed.
Context `{Env} `{LedgerEnv} (sc : Scene).
Abbreviation view := (sc_view sc).
Context (Horder : forall l, sc_order sc l ≡ₚ l).

(** The child paths the lines of the file system's files can name. *)
Definition child_path (entry : LegacyRlmSubagentEntry) : path :=
  canonical_session_path view (path_of_string (le_session_file entry)).
Definition line_path (line : string) : path :=
  match from_str (trim line) with
  | inr doc => match decode_legacy doc with Some entry => child_path entry | None => [] end
  | inl _ => []
  end.
Definition named_paths : list path :=
  List.concat (map (fun f => map line_path (lines (snd f))) (map_to_list (v_files view))).
Definition universe : gset path := list_to_set named_paths.

Lemma named_length :
  List.length named_paths = sum_list_with (fun f => List.length (lines (snd f))) (map_to_list (v_files view)).
Proof.
  unfold named_paths. induction (map_to_list (v_files view)) as [|f l IH]; [done|]. cbn. by rewrite length_app, length_map, IH.
Qed.
Lemma universe_size : (size universe <= sum_list_with (fun f => List.length (lines (snd f))) (map_to_list (v_files view)))%nat.
Proof.
  rewrite <- named_length. unfold universe. generalize named_paths. intros l. induction l as [|p l IH].
  { apply Nat.eq_le_incl, size_empty. }
  cbn [List.length]. change (list_to_set (p :: l)) with ({[p]} ∪ list_to_set l : gset path).
  rewrite size_union_alt, size_singleton.
  assert (size (list_to_set l ∖ {[p]} : gset path) <= size (list_to_set l : gset path))%nat by (apply subseteq_size; set_solver). lia.
Qed.

(** A registry's entries come from the lines of a file. *)
Lemma legacy_line_from (latest : gmap string LegacyRlmSubagentEntry) line k entry :
  legacy_line latest line !! k = Some entry -> latest !! k = Some entry \/ line_path line = child_path entry.
Proof.
  unfold legacy_line, line_path. destruct (is_empty (trim line)); [by left|]. destruct (from_str (trim line)) as [|doc]; [by left|].
  destruct (decode_legacy doc) as [e|]; [|by left]. destruct (_ || _ || _); [by left|].
  destruct (decide (k = le_child_id e)) as [->|Hne]; [rewrite lookup_insert_eq; intros [= <-]; by right|].
  rewrite lookup_insert_ne by done. by left.
Qed.
Lemma legacy_lines_from (ls : list string) k entry :
  foldl legacy_line ∅ ls !! k = Some entry -> exists line, line ∈ ls /\ line_path line = child_path entry.
Proof.
  induction ls as [|line ls IH] using rev_ind; [done|]. rewrite foldl_app. cbn. intros [Hk|Hl]%legacy_line_from.
  - destruct (IH Hk) as (l & Hin & Hl). exists l. split; [|done]. apply elem_of_app. by left.
  - exists line. split; [|done]. apply elem_of_app. right. by apply list_elem_of_singleton.
Qed.
Lemma registry_named session_file entry :
  entry ∈ read_legacy_registry (sc_order sc) view session_file -> child_path entry ∈ universe.
Proof.
  unfold read_legacy_registry. destruct (legacy_registry_path view session_file ≫= view_read view) as [content|] eqn:E; [|by intros ?%elem_of_nil].
  destruct (is_utf8 content); [|by intros ?%elem_of_nil]. rewrite Horder. intros Hin.
  apply list_elem_of_fmap in Hin as ([k e] & -> & Hin). apply elem_of_map_to_list, legacy_lines_from in Hin as (line & Hline & Hp).
  apply bind_Some in E as (q & _ & Hq). unfold view_read in Hq. apply bind_Some in Hq as (q' & _ & Hq).
  unfold universe, named_paths. apply elem_of_list_to_set, list_elem_of_In, in_concat. exists (map line_path (lines content)). split.
  - apply in_map_iff. exists (q', content). split; [done|]. by apply list_elem_of_In, elem_of_map_to_list.
  - apply in_map_iff. exists line. split; [done|]. by apply list_elem_of_In.
Qed.

(** ** The walk *)
Definition unvisited (st : SeedState) : gset path := universe ∖ list_to_set (sd_visited st).
Definition seed_measure (st : SeedState) : nat := (List.length (sd_queue st) + size (unvisited st))%nat.

(** The records so far: one per child path visited since the start. *)
Definition record_child (v : Value) : option string := get_str "child" v.
Inductive seeding (roots : list path) (st : SeedState) : Prop :=
| Seeding (cs : list path) :
    sd_visited st = (roots ++ cs)%list -> NoDup cs -> (forall p, p ∈ cs -> p ∉ roots) ->
    map record_child (sd_records st) = map (fun p => Some (path_display p)) cs -> seeding roots st.

Lemma seed_entry_ok roots session_file depth at_ st entry :
  child_path entry ∈ universe -> seeding roots st ->
  (seed_measure (seed_entry sc session_file depth at_ st entry) <= seed_measure st)%nat
  /\ seeding roots (seed_entry sc session_file depth at_ st entry).
Proof.
  intros Hu Hs. unfold seed_entry. destruct (String.eqb _ _); [done|]. destruct (is_empty _); [done|].
  fold (child_path entry). case_bool_decide as Hv; [done|]. destruct Hs as [cs Hvis Hnd Hnew Hrec]. split.
  - unfold seed_measure, unvisited. cbn [sd_queue sd_visited]. rewrite length_app. cbn [List.length].
    rewrite list_to_set_app_L. cbn [list_to_set]. rewrite union_empty_r_L.
    pose proof (size_visit universe (list_to_set (sd_visited st)) (child_path entry) Hu) as Hsize.
    rewrite elem_of_list_to_set in Hsize. specialize (Hsize Hv). lia.
  - apply (Seeding _ _ (cs ++ [child_path entry])%list); cbn.
    + by rewrite Hvis, app_assoc.
    + apply NoDup_app. split_and!; [done| |apply NoDup_singleton]. intros p Hp ->%list_elem_of_singleton. apply Hv. rewrite Hvis.
      apply elem_of_app. by right.
    + intros p [Hp| ->%list_elem_of_singleton]%elem_of_app; [by apply Hnew|]. intros Hr. apply Hv. rewrite Hvis. apply elem_of_app. by left.
    + rewrite !map_app, Hrec. done.
Qed.
Lemma seed_entries_ok roots session_file depth at_ (es : list LegacyRlmSubagentEntry) st :
  (forall e, e ∈ es -> child_path e ∈ universe) -> seeding roots st ->
  (seed_measure (foldl (seed_entry sc session_file depth at_) st es) <= seed_measure st)%nat
  /\ seeding roots (foldl (seed_entry sc session_file depth at_) st es).
Proof.
  revert st. induction es as [|e es IH]; intros st Hu Hs; [done|]. cbn.
  destruct (seed_entry_ok roots session_file depth at_ st e (Hu e (list_elem_of_here _ _)) Hs) as [Hm Hs'].
  destruct (IH _ (fun x Hx => Hu x (list_elem_of_further _ _ _ Hx)) Hs') as [Hm' Hs'']. split; [lia|done].
Qed.
Lemma seed_walk_ok roots fuel at_ st :
  (seed_measure st <= fuel)%nat -> seeding roots st ->
  exists records (cs : list path), seed_walk sc fuel at_ st = Some records /\ NoDup cs /\ (forall p, p ∈ cs -> p ∉ roots)
    /\ map record_child records = map (fun p => Some (path_display p)) cs.
Proof.
  revert st. induction fuel as [|fuel IH]; intros st Hm Hs; cbn [seed_walk];
    (destruct (last (sd_queue st)) as [[session_file depth]|] eqn:El; [|destruct Hs as [cs ? ? ? ?]; by exists (sd_records st), cs]);
    apply last_Some in El as [queue Hq]; unfold seed_measure in Hm; rewrite Hq, length_app in Hm; cbn [List.length] in Hm; [lia|].
  rewrite Hq, removelast_last. set (st0 := mkSeed queue _ _).
  destruct (seed_entries_ok roots session_file depth at_ (read_legacy_registry (sc_order sc) view session_file) st0) as [Hm' Hs'].
  - intros e. apply registry_named.
  - destruct Hs as [cs ? ? ? ?]. by apply (Seeding _ _ cs).
  - apply IH; [|done]. unfold seed_measure at 2 in Hm'. unfold unvisited in *. cbn [sd_queue sd_visited st0] in Hm'. lia.
Qed.
End Seed.

(** Seeding ends within its fuel on every file system, registries that
    name each other in circles included, and records each child session once
    and no root session. *)
Theorem seeding_ends `{Env} `{LedgerEnv} (sc : Scene) (listed : list path) at_ :
  (forall l, sc_order sc l ≡ₚ l) ->
  let queue := seed_roots listed in
  let visited := map (fun q => canonical_session_path (sc_view sc) (fst q)) queue in
  exists records (cs : list path),
    seed_walk sc (seed_fuel sc (List.length queue)) at_ (mkSeed queue visited []) = Some records /\
    NoDup cs /\ (forall p, p ∈ cs -> p ∉ visited) /\
    map record_child records = map (fun p => Some (path_display p)) cs.
Proof.
  intros Ho queue visited. apply seed_walk_ok; [done| |].
  - unfold seed_measure, seed_fuel, unvisited. cbn [sd_queue sd_visited]. pose proof (universe_size sc Ho) as Hu.
    apply Nat.add_le_mono_l. etrans; [apply subseteq_size|exact Hu]. set_solver.
  - apply (Seeding _ _ []); cbn; [by rewrite app_nil_r|apply NoDup_nil_2|by intros p ?%elem_of_nil|done].
Qed.
