(* ===== verification/LedgerUsage.v ===== *)
(** * The spawn ledger: the spend of deleted children
      ([deleted_descendant_usage_by_parent] of [crates/pa-daemon/src/rlm_ledger.rs])

    The captured usage of tombstoned children, folded bottom-up over their
    family with an explicit stack, per parent. *)
From Stdlib Require Import SpecFloat.
From S2P Require Import Prelude RustStr Lines Json Time World LedgerReplay Paths Ledger LedgerProofs.
#[local] Open Scope string_scope.
#[local] Open Scope Z_scope.

Definition u64_saturating_add (a b : Z) : Z := Z.min u64_max (a + b).
Definition usage_zero : SessionUsageSummary := mkUsage 0 0 f64_zero.
Definition usage_add (left right : SessionUsageSummary) : SessionUsageSummary :=
  mkUsage (u64_saturating_add (u_input_tokens left) (u_input_tokens right))
    (u64_saturating_add (u_output_tokens left) (u_output_tokens right))
    (f64_add (u_cost left) (u_cost right)).
Definition usage_positive (u : SessionUsageSummary) : bool :=
  (0 <? u_input_tokens u) || (0 <? u_output_tokens u) || f64_positive (u_cost u).

(** ** The family of the tombstones *)
Record Family := mkFamily {
  fam_children : gmap string (list string);                      (* children_by_parent *)
  fam_snapshot : gmap string (option SessionUsageSummary)        (* snapshot_by_path *)
}.
Definition children (f : Family) (p : string) : list string := default [] (fam_children f !! p).

Section Family.
Context (v : View) (sessions_dir : path).

(** The paths of live edges. *)
Definition live_paths (l : list RlmLedgerEdge) : gset string :=
  list_to_set (map (fun e => canonical_text v (e_child e)) (List.filter live l)).
(** The row of the flat catalog bills the child. *)
Definition has_row (child : string) : bool :=
  view_is_file v (path_of_string child) && bool_decide (parent (path_of_string child) = Some sessions_dir).
Definition family_step (living : gset string) (f : Family) (e : RlmLedgerEdge) : Family :=
  if live e then f
  else
    let child := canonical_text v (e_child e) in
    if bool_decide (child ∈ living) || bool_decide (is_Some (fam_snapshot f !! child)) then f
    else if has_row child then f
    else
      let parent := canonical_text v (e_parent e) in
      mkFamily (<[parent := (children f parent ++ [child])%list]> (fam_children f))
        (<[child := e_deleted_usage e]> (fam_snapshot f)).
Definition family (l : list RlmLedgerEdge) : Family := foldl (family_step (live_paths l)) (mkFamily ∅ ∅) l.
End Family.

(** ** The walk *)
Section Walk.
Context (f : Family) (transcript_usage : string -> option SessionUsageSummary).

(** [tombstone_usage]: the snapshot, or the transcript's own usage. *)
Definition tombstone_usage (p : string) : SessionUsageSummary :=
  match mjoin (fam_snapshot f !! p) with
  | Some snapshot => snapshot
  | None => default usage_zero (transcript_usage p)
  end.
Definition add_known (contribution : gmap string SessionUsageSummary) (total : SessionUsageSummary) (p : string)
    : SessionUsageSummary :=
  match contribution !! p with Some folded => usage_add total folded | None => total end.
Definition pending (contribution : gmap string SessionUsageSummary) (on_stack : gset string) (p : string) : list string :=
  List.filter (fun c => bool_decide (contribution !! c = None) && bool_decide (c ∉ on_stack)) (children f p).

(** The loop over the stack, its top first. *)
Fixpoint walk (fuel : nat) (contribution : gmap string SessionUsageSummary) (on_stack : gset string) (stack : list string)
    : option (gmap string SessionUsageSummary * gset string) :=
  match stack with
  | [] => Some (contribution, on_stack)
  | current :: rest =>
      match fuel with
      | O => None
      | S fuel' =>
          match contribution !! current with
          | Some _ => walk fuel' contribution (on_stack ∖ {[current]}) rest
          | None =>
              match pending contribution on_stack current with
              | [] =>
                  let total := foldl (add_known contribution) (tombstone_usage current) (children f current) in
                  walk fuel' (<[current := total]> contribution) (on_stack ∖ {[current]}) rest
              | next => walk fuel' contribution (on_stack ∪ list_to_set next) (rev next ++ stack)
              end
          end
      end
  end.
(** Every path is pushed at most once, so twice the paths bound the steps. *)
Definition paths : gset string := list_to_set (List.concat (map snd (map_to_list (fam_children f)))).
Definition walk_fuel : nat := S (2 * size paths).
Definition walk_root (st : option (gmap string SessionUsageSummary * gset string)) (root : string)
    : option (gmap string SessionUsageSummary * gset string) :=
  match st with
  | None => None
  | Some (contribution, on_stack) =>
      match contribution !! root with
      | Some _ => st
      | None => walk walk_fuel contribution (on_stack ∪ {[root]}) [root]
      end
  end.
(** [order] is the hash map's iteration order. *)
Definition contributions (order : list (string * list string) -> list (string * list string))
    : option (gmap string SessionUsageSummary * gset string) :=
  foldl walk_root (Some (∅, ∅)) (List.concat (map snd (order (map_to_list (fam_children f))))).
Definition bucket (contribution : gmap string SessionUsageSummary) (cs : list string) : option SessionUsageSummary :=
  let total := foldl (add_known contribution) usage_zero cs in
  if usage_positive total then Some total else None.
Definition rollup (order : list (string * list string) -> list (string * list string)) : option (gmap string SessionUsageSummary) :=
  match contributions order with
  | None => None
  | Some (contribution, _) => Some (omap (bucket contribution) (fam_children f))
  end.
End Walk.

(** [deleted_descendant_usage_by_parent]; [None] would be a walk that does not
    end. *)
Definition deleted_descendant_usage_by_parent `{Env} `{LedgerEnv} (cf : Conf) (sc : Scene)
    (order : list (string * list string) -> list (string * list string))
    (transcript_usage : string -> option SessionUsageSummary) : LM anyhow (option (gmap string SessionUsageSummary)) :=
  let! l := edges cf sc true in
  lret (rollup (family (sc_view sc) (cf_sessions_dir cf) l) transcript_usage order).

(** ** One parent per child *)
Section FamilyShape.
Context (v : View) (sessions_dir : path).

(** Each child is listed once, under one parent. *)
Record family_ok (f : Family) : Prop := {
  fam_nodup p : NoDup (children f p);
  fam_one p q c : c ∈ children f p -> c ∈ children f q -> p = q;
  fam_known p c : c ∈ children f p -> is_Some (fam_snapshot f !! c)
}.
Lemma children_insert f p c s q :
  children (mkFamily (<[p := (children f p ++ [c])%list]> (fam_children f)) s) q
  = if decide (q = p) then (children f p ++ [c])%list else children f q.
Proof.
  unfold children at 1. cbn. destruct (decide (q = p)) as [->|Hne]; [by rewrite lookup_insert_eq|by rewrite lookup_insert_ne].
Qed.
Lemma family_step_ok living f e : family_ok f -> family_ok (family_step v sessions_dir living f e).
Proof.
  intros Hf. unfold family_step. destruct (live e); [done|]. set (c := canonical_text v (e_child e)).
  destruct (bool_decide (c ∈ living)); [done|]. cbn [orb]. case_bool_decide as Hnew; [done|]. destruct (has_row v sessions_dir c); [done|].
  set (p := canonical_text v (e_parent e)). assert (forall q, c ∉ children f q) as Hfresh.
  { intros q Hq. apply Hnew. by eapply fam_known. }
  split.
  - intros q. rewrite children_insert. case_decide; [|by apply fam_nodup]. apply NoDup_app. split_and!; [by apply fam_nodup| |apply NoDup_singleton].
    intros x Hx ->%list_elem_of_singleton. by eapply Hfresh.
  - intros q1 q2 x. rewrite !children_insert. destruct (decide (q1 = p)) as [->|N1], (decide (q2 = p)) as [->|N2]; [done| | |by apply fam_one].
    + intros [Hx|Hx%list_elem_of_singleton]%elem_of_app Hx2; [by eapply fam_one|subst x; by apply Hfresh in Hx2].
    + intros Hx2 [Hx|Hx%list_elem_of_singleton]%elem_of_app; [by eapply fam_one|subst x; by apply Hfresh in Hx2].
  - intros q x. rewrite children_insert. cbn. destruct (decide (x = c)) as [->|Hne]; [by rewrite lookup_insert_eq|].
    rewrite lookup_insert_ne by done. case_decide; [|by apply fam_known].
    intros [Hx|Hx%list_elem_of_singleton]%elem_of_app; [by eapply fam_known|done].
Qed.
Lemma family_shape l : family_ok (family v sessions_dir l).
Proof.
  unfold family. generalize (live_paths v l). intros living. assert (family_ok (mkFamily ∅ ∅)) as H0.
  { split; unfold children; intros *; cbn; rewrite ?lookup_empty; cbn; [apply NoDup_nil_2|by intros ?%elem_of_nil|by intros ?%elem_of_nil]. }
  revert H0. generalize (mkFamily ∅ ∅). induction l as [|e l IH]; intros f Hf; [done|]. cbn. apply IH. by apply family_step_ok.
Qed.
End FamilyShape.

(** ** The walk ends *)
Section Termination.
Context (f : Family) (Hf : family_ok f) (transcript_usage : string -> option SessionUsageSummary).

Definition unseen_paths (contribution : gmap string SessionUsageSummary) (on_stack : gset string) : gset string :=
  paths f ∖ (dom contribution ∪ on_stack).
Lemma children_paths p c : c ∈ children f p -> c ∈ paths f.
Proof.
  unfold children, paths. destruct (fam_children f !! p) as [cs|] eqn:E; cbn; [|by intros ?%elem_of_nil]. intros Hc.
  apply elem_of_list_to_set, list_elem_of_In, in_concat. exists cs. split; [|by apply list_elem_of_In].
  apply in_map_iff. exists (p, cs). split; [done|]. by apply list_elem_of_In, elem_of_map_to_list.
Qed.
Lemma pending_spec contribution on_stack p c :
  c ∈ pending f contribution on_stack p <-> c ∈ children f p /\ contribution !! c = None /\ c ∉ on_stack.
Proof.
  unfold pending. rewrite list_elem_of_In, List.filter_In, andb_true_iff, !bool_decide_eq_true, <- list_elem_of_In. done.
Qed.
Lemma pending_nodup contribution on_stack p : NoDup (pending f contribution on_stack p).
Proof. apply NoDup_ListNoDup, List.NoDup_filter, NoDup_ListNoDup, Hf. Qed.
Lemma size_push contribution on_stack p next :
  pending f contribution on_stack p = next ->
  (size (unseen_paths contribution (on_stack ∪ list_to_set next)) + List.length next = size (unseen_paths contribution on_stack))%nat.
Proof.
  intros <-. set (next := pending f contribution on_stack p).
  assert (size (list_to_set next : gset string) = List.length next) as <- by apply size_list_to_set, pending_nodup.
  rewrite <- size_union.
  - f_equal. unfold unseen_paths. apply set_eq. intros x. rewrite !elem_of_union, !elem_of_difference, !elem_of_union.
    destruct (decide (x ∈ (list_to_set next : gset string))) as [Hx|Hx]; [|tauto].
    apply elem_of_list_to_set, pending_spec in Hx as Hp. destruct Hp as (Hc & Hn & Hs). apply children_paths in Hc.
    rewrite elem_of_dom, Hn. split; [intros _|intros _; right; by apply elem_of_list_to_set]. split; [done|]. intros [[? ?]|?]; done.
  - unfold unseen_paths. set_solver.
Qed.
Lemma walk_total fuel contribution on_stack stack :
  (2 * size (unseen_paths contribution on_stack) + List.length stack <= fuel)%nat ->
  is_Some (walk f transcript_usage fuel contribution on_stack stack).
Proof.
  revert contribution on_stack stack. induction fuel as [|fuel IH]; intros contribution on_stack stack Hm;
    (destruct stack as [|current rest]; [by eexists|]); cbn [List.length] in Hm; [lia|]. cbn [walk].
  destruct (contribution !! current) as [u|] eqn:Ec.
  - apply IH. assert (size (unseen_paths contribution (on_stack ∖ {[current]})) <= size (unseen_paths contribution on_stack))%nat; [|lia].
    apply subseteq_size. unfold unseen_paths. intros x. rewrite !elem_of_difference, !elem_of_union, elem_of_difference, elem_of_dom, elem_of_singleton.
    intros [Hx Hn]. split; [done|]. intros [Hd|Ho]; [tauto|]. apply Hn. right. split; [done|]. intros ->. apply Hn. left. by eexists.
  - destruct (pending f contribution on_stack current) as [|n ns] eqn:Ep.
    + apply IH. match goal with |- (2 * size ?X + _ <= _)%nat => assert (size X <= size (unseen_paths contribution on_stack))%nat; [|lia] end.
      apply subseteq_size. unfold unseen_paths. rewrite dom_insert_L. intros x. rewrite !elem_of_difference, !elem_of_union, !elem_of_difference, !elem_of_singleton.
      intros [Hx Hn]. split; [done|]. intros [Hd|Ho]; [tauto|]. destruct (decide (x = current)); tauto.
    + apply IH. pose proof (size_push contribution on_stack current _ Ep) as Hs.
      rewrite length_app, length_rev. cbn [List.length] in *. lia.
Qed.
Lemma walk_root_total st root : is_Some st -> is_Some (walk_root f transcript_usage st root).
Proof.
  intros [[contribution on_stack] ->]. cbn [walk_root]. destruct (contribution !! root); [by eexists|]. apply walk_total. unfold walk_fuel. cbn [List.length].
  assert (size (unseen_paths contribution (on_stack ∪ {[root]})) <= size (paths f))%nat; [|lia].
  apply subseteq_size. unfold unseen_paths. set_solver.
Qed.
Lemma contributions_total order : is_Some (contributions f transcript_usage order).
Proof.
  unfold contributions. generalize (List.concat (map snd (order (map_to_list (fam_children f))))). intros roots.
  assert (is_Some (Some (∅, ∅) : option (gmap string SessionUsageSummary * gset string))) as H0 by by eexists.
  revert H0. generalize (Some (∅, ∅) : option (gmap string SessionUsageSummary * gset string)).
  induction roots as [|root roots IH]; intros st Hst; [done|]. cbn. apply IH. by apply walk_root_total.
Qed.
End Termination.

(** ** What the walk computes *)
Lemma elem_of_rev {A} (l : list A) x : x ∈ rev l <-> x ∈ l.
Proof. rewrite !list_elem_of_In. symmetry. apply List.in_rev. Qed.
Lemma rev_elem {A} (l : list A) x : x ∈ rev l -> x ∈ l.
Proof. by rewrite elem_of_rev. Qed.
Section Totals.
Context (f : Family) (Hf : family_ok f) (transcript_usage : string -> option SessionUsageSummary).
Context (rank : string -> nat) (Hrank : forall p c, c ∈ children f p -> (rank c < rank p)%nat).

(** The spend of a subtree: the node's own, then each child's in turn. *)
Fixpoint subtree (n : nat) (p : string) : SessionUsageSummary :=
  match n with
  | O => tombstone_usage f transcript_usage p
  | S n' => foldl usage_add (tombstone_usage f transcript_usage p) (map (subtree n') (children f p))
  end.
Definition subtree_total (p : string) : SessionUsageSummary := subtree (S (rank p)) p.
Lemma subtree_enough n m p : (rank p < n)%nat -> (rank p < m)%nat -> subtree n p = subtree m p.
Proof.
  revert m p. induction n as [|n IH]; intros m p Hn Hm; [lia|]. destruct m as [|m]; [lia|]. cbn. f_equal.
  apply map_ext_in. intros c Hc. apply list_elem_of_In, Hrank in Hc. apply IH; lia.
Qed.
Lemma subtree_total_eq p :
  subtree_total p = foldl usage_add (tombstone_usage f transcript_usage p) (map subtree_total (children f p)).
Proof.
  unfold subtree_total at 1. cbn. f_equal. apply map_ext_in. intros c Hc. apply list_elem_of_In, Hrank in Hc.
  apply subtree_enough; lia.
Qed.

Definition correct (contribution : gmap string SessionUsageSummary) : Prop :=
  forall p u, contribution !! p = Some u -> u = subtree_total p.
Lemma add_known_all contribution (cs : list string) t :
  correct contribution -> (forall c, c ∈ cs -> is_Some (contribution !! c)) ->
  foldl (add_known contribution) t cs = foldl usage_add t (map subtree_total cs).
Proof.
  intros Hc. revert t. induction cs as [|c cs IH]; intros t Hk; [done|]. cbn [foldl map]. destruct (Hk c (list_elem_of_here _ _)) as [u Hu].
  unfold add_known at 2. rewrite Hu, <- (Hc c u Hu). apply IH. intros x Hx. apply Hk. by right.
Qed.

(** Below the root every path on the stack has its parent further down. *)
Fixpoint chained (root : string) (stack : list string) : Prop :=
  match stack with
  | [] => True
  | x :: below => (x = root \/ exists p, p ∈ below /\ x ∈ children f p) /\ chained root below
  end.
Lemma chained_elem root stack x : chained root stack -> x ∈ stack -> x = root \/ exists p, p ∈ stack /\ x ∈ children f p.
Proof.
  induction stack as [|y stack IH]; [by intros _ ?%elem_of_nil|]. intros [Hy Hs] [-> |Hx]%elem_of_cons.
  - destruct Hy as [-> |(p & Hp & Hy)]; [by left|]. right. exists p. split; [by right|done].
  - destruct (IH Hs Hx) as [-> |(p & Hp & Hxp)]; [by left|]. right. exists p. split; [by right|done].
Qed.
Lemma chained_push root next current stack :
  (forall x, x ∈ next -> x ∈ children f current) -> current ∈ stack -> chained root stack -> chained root (next ++ stack).
Proof.
  intros Hn Hc Hs. induction next as [|x next IH]; [done|]. cbn. split; [|apply IH; intros y Hy; apply Hn; by right].
  right. exists current. split; [apply elem_of_app; by right|]. apply Hn. by left.
Qed.

Record walking (root : string) (contribution : gmap string SessionUsageSummary) (on_stack : gset string) (stack : list string) : Prop := {
  wk_nodup : NoDup stack;
  wk_stack x : x ∈ on_stack <-> x ∈ stack;
  wk_chain : chained root stack;
  wk_rank x : x ∈ stack -> (rank x <= rank root)%nat;
  wk_correct : correct contribution;
  wk_todo x : x ∈ stack -> contribution !! x = None
}.
(** When nothing is pending, every child of the top has its total. *)
Lemma walking_known root contribution on_stack current rest c :
  walking root contribution on_stack (current :: rest) -> pending f contribution on_stack current = [] ->
  c ∈ children f current -> is_Some (contribution !! c).
Proof.
  intros [Hnd Hst Hch Hrk _ _] Hp Hc. destruct (contribution !! c) as [u|] eqn:E; [by eexists|]. exfalso.
  assert (c ∈ on_stack) as Hon.
  { destruct (decide (c ∈ on_stack)) as [?|Hno]; [done|]. assert (c ∈ pending f contribution on_stack current) as Hin by by apply pending_spec.
    rewrite Hp in Hin. by apply elem_of_nil in Hin. }
  apply Hst in Hon. pose proof (Hrank _ _ Hc) as Hlt. apply elem_of_cons in Hon as [-> |Hon]; [lia|].
  apply NoDup_cons in Hnd as [Hnot _]. destruct Hch as [_ Hch]. destruct (chained_elem _ _ _ Hch Hon) as [-> |(p & Hpin & Hcp)].
  - specialize (Hrk current (list_elem_of_here _ _)). lia.
  - assert (p = current) as -> by by eapply fam_one. done.
Qed.

Lemma walk_correct fuel root contribution on_stack stack contribution' on_stack' :
  walking root contribution on_stack stack -> walk f transcript_usage fuel contribution on_stack stack = Some (contribution', on_stack') ->
  correct contribution' /\ on_stack' = ∅ /\ (forall x, x ∈ stack \/ is_Some (contribution !! x) -> is_Some (contribution' !! x)).
Proof.
  revert contribution on_stack stack. induction fuel as [|fuel IH]; intros contribution on_stack stack Hw Hr;
    (destruct stack as [|current rest]; [injection Hr as <- <-; split_and!;
       [by apply (wk_correct _ _ _ _ Hw)|apply set_eq; intros x; rewrite (wk_stack _ _ _ _ Hw), elem_of_nil; set_solver|
        by intros x [?%elem_of_nil|?]]|]); [done|].
  cbn [walk] in Hr. rewrite (wk_todo _ _ _ _ Hw current) in Hr by by left.
  destruct (pending f contribution on_stack current) as [|n ns] eqn:Ep.
  - rewrite add_known_all, <- subtree_total_eq in Hr; [|by apply (wk_correct _ _ _ _ Hw)|intros c Hc; by eapply walking_known].
    pose proof Hw as [Hnd Hst [_ Hch] Hrk Hco Htd]. apply NoDup_cons in Hnd as [Hnot Hnd].
    apply IH in Hr as (H1 & H2 & H3).
    + split_and!; [done..|]. intros x Hx. apply H3. destruct (decide (x = current)) as [->|Hne]; [right; rewrite lookup_insert_eq; by eexists|].
      rewrite lookup_insert_ne by done. destruct Hx as [[? |?]%elem_of_cons|?]; [done|by left|by right].
    + split; [done| |done| | |].
      * intros x. rewrite elem_of_difference, elem_of_singleton, Hst, elem_of_cons. split; [naive_solver|].
        intros Hx. split; [by right|]. by intros ->.
      * intros x Hx. apply Hrk. by right.
      * intros p u. destruct (decide (p = current)) as [->|Hne]; [rewrite lookup_insert_eq; by intros [= <-]|].
        rewrite lookup_insert_ne by done. apply Hco.
      * intros x Hx. rewrite lookup_insert_ne; [apply Htd; by right|]. by intros ->.
  - pose proof Hw as [Hnd Hst Hch Hrk Hco Htd]. set (next := n :: ns) in *.
    assert (forall x, x ∈ next <-> x ∈ children f current /\ contribution !! x = None /\ x ∉ on_stack) as Hnext.
    { intros x. rewrite <- Ep. apply pending_spec. }
    apply IH in Hr as (H1 & H2 & H3).
    + split_and!; [done..|]. intros x [Hx|Hx]; apply H3; [left|by right]. apply elem_of_app. by right.
    + split.
      * apply NoDup_app. split_and!; [rewrite <- Ep; apply NoDup_ListNoDup, List.NoDup_rev, NoDup_ListNoDup, pending_nodup, Hf| |done].
        intros x Hx%rev_elem. apply Hnext in Hx as (_ & _ & Hx). by rewrite <- Hst.
      * intros x. rewrite elem_of_union, elem_of_list_to_set, elem_of_app, Hst, elem_of_rev. tauto.
      * apply (chained_push root (rev next) current); [|by left|done].
        intros x Hx%rev_elem. by apply Hnext in Hx as [? _].
      * intros x [Hx%rev_elem|Hx]%elem_of_app; [|by apply Hrk].
        apply Hnext in Hx as [Hx _]. apply Hrank in Hx. specialize (Hrk current (list_elem_of_here _ _)). lia.
      * done.
      * intros x [Hx%rev_elem|Hx]%elem_of_app; [by apply Hnext in Hx as (_ & ? & _)|by apply Htd].
Qed.

Lemma roots_correct (roots : list string) contribution :
  correct contribution ->
  exists contribution', foldl (walk_root f transcript_usage) (Some (contribution, ∅)) roots = Some (contribution', ∅)
    /\ correct contribution' /\ forall x, x ∈ roots \/ is_Some (contribution !! x) -> is_Some (contribution' !! x).
Proof.
  revert contribution. induction roots as [|root roots IH]; intros contribution Hc.
  { exists contribution. split_and!; [done..|]. by intros x [?%elem_of_nil|?]. }
  cbn [foldl]. assert (exists c1, walk_root f transcript_usage (Some (contribution, ∅)) root = Some (c1, ∅) /\ correct c1
    /\ forall x, x = root \/ is_Some (contribution !! x) -> is_Some (c1 !! x)) as (c1 & -> & Hc1 & Hk1).
  { cbn [walk_root]. destruct (contribution !! root) as [u|] eqn:E.
    - exists contribution. split_and!; [done..|]. intros x [-> |?]; [by eexists|done].
    - assert (walking root contribution (∅ ∪ {[root]}) [root]) as Hw.
      { split; [apply NoDup_singleton|set_solver|by split; [left|]| |done|]; intros x ->%list_elem_of_singleton; [lia|done]. }
      destruct (walk_root_total f Hf transcript_usage (Some (contribution, ∅)) root) as [[c1 s1] Hr]; [by eexists|].
      cbn [walk_root] in Hr. rewrite E in Hr. destruct (walk_correct _ _ _ _ _ _ _ Hw Hr) as (H1 & -> & H3).
      exists c1. split_and!; [done..|]. intros x [-> |?]; apply H3; [left; by left|by right]. }
  destruct (IH c1 Hc1) as (c2 & -> & Hc2 & Hk2). exists c2. split_and!; [done..|].
  intros x [[-> |?]%elem_of_cons|?]; apply Hk2; [right; apply Hk1; by left|by left|right; apply Hk1; by right].
Qed.
Lemma rollup_spec order :
  (forall l, order l ≡ₚ l) ->
  exists m, rollup f transcript_usage order = Some m /\
    forall p, m !! p = fam_children f !! p ≫= (fun cs =>
      let t := foldl usage_add usage_zero (map subtree_total cs) in if usage_positive t then Some t else None).
Proof.
  intros Ho. unfold rollup, contributions.
  destruct (roots_correct (List.concat (map snd (order (map_to_list (fam_children f))))) ∅) as (c & -> & Hc & Hk).
  { intros p u. by rewrite lookup_empty. }
  eexists. split; [done|]. intros p. rewrite lookup_omap. destruct (fam_children f !! p) as [cs|] eqn:E; [|done]. cbn.
  unfold bucket. rewrite add_known_all; [done|done|]. intros x Hx. apply Hk. left.
  apply list_elem_of_In, in_concat. exists cs. split; [|by apply list_elem_of_In]. apply in_map_iff. exists (p, cs). split; [done|].
  apply list_elem_of_In. rewrite (Ho (map_to_list (fam_children f))). by apply elem_of_map_to_list.
Qed.
End Totals.

(** A listed child is a tombstoned path that nothing else bills. *)
Lemma family_billed v sessions_dir l p c :
  c ∈ children (family v sessions_dir l) p -> c ∉ live_paths v l /\ has_row v sessions_dir c = false.
Proof.
  unfold family. generalize (live_paths v l). intros living.
  assert (forall f, (forall p c, c ∈ children f p -> c ∉ living /\ has_row v sessions_dir c = false) ->
    forall p c, c ∈ children (foldl (family_step v sessions_dir living) f l) p -> c ∉ living /\ has_row v sessions_dir c = false) as Hgen.
  { induction l as [|e l IH]; intros f Hf; [done|]. cbn. apply IH. clear IH p c. intros p c. unfold family_step.
    destruct (live e); [by apply Hf|]. case_bool_decide as Hl; [by apply Hf|]. case_bool_decide; [by apply Hf|]. cbn [orb].
    destruct (has_row v sessions_dir (canonical_text v (e_child e))) eqn:Hrow; [by apply Hf|]. rewrite children_insert.
    case_decide; [|by apply Hf]. intros [Hc| ->%list_elem_of_singleton]%elem_of_app; [by eapply Hf|done]. }
  apply Hgen. intros q x. unfold children. cbn. rewrite lookup_empty. by intros ?%elem_of_nil.
Qed.

(** The rollup of deleted children's spend ends on every ledger, families
    that loop through raced records included. *)
Theorem usage_rollup_ends v sessions_dir (l : list RlmLedgerEdge) transcript_usage order :
  is_Some (rollup (family v sessions_dir l) transcript_usage order).
Proof.
  unfold rollup. destruct (contributions_total _ (family_shape v sessions_dir l) transcript_usage order) as [[c s] ->]. by eexists.
Qed.

(** C40: on families without loops each parent is billed the spend of all its
    deleted descendants, every path's own usage once, whatever order the hash
    map is walked in; a path that is live or has a row of its own is never
    billed, and no path is billed to two parents. *)
Theorem usage_rollup_bills_subtrees v sessions_dir (l : list RlmLedgerEdge) transcript_usage order (rank : string -> nat) :
  let f := family v sessions_dir l in
  (forall l, order l ≡ₚ l) -> (forall p c, c ∈ children f p -> (rank c < rank p)%nat) ->
  exists total m,
    (forall p, total p = foldl usage_add (tombstone_usage f transcript_usage p) (map total (children f p))) /\
    rollup f transcript_usage order = Some m /\
    (forall p, m !! p = fam_children f !! p ≫= (fun cs =>
       let t := foldl usage_add usage_zero (map total cs) in if usage_positive t then Some t else None)) /\
    (forall p c, c ∈ children f p -> c ∉ live_paths v l /\ has_row v sessions_dir c = false) /\
    (forall p q c, c ∈ children f p -> c ∈ children f q -> p = q).
Proof.
  intros f Ho Hr. pose proof (family_shape v sessions_dir l) as Hf.
  destruct (rollup_spec f Hf transcript_usage rank Hr order Ho) as (m & Hm & Hp).
  exists (subtree_total f transcript_usage rank), m. split_and!; [|done|done| |].
  - intros p. by apply subtree_total_eq.
  - intros p c. apply family_billed.
  - intros p q c. by apply fam_one.
Qed.
