(* ===== verification/LedgerFile.v ===== *)
(** * The spawn ledger: the file

    What a read makes of the file's bytes, that appending never loses a record
    whatever fails, and that the stat guard never serves a stale replay. *)
From S2P Require Import Prelude RustStr Lines Json Time World LedgerReplay Ledger LedgerProofs.
#[local] Open Scope string_scope.
#[local] Open Scope Z_scope.

(** The documents the program prints: whole numbers inside their 64-bit widths
    and finite floats. *)
Fixpoint printable `{LedgerEnv} (v : Value) : Prop :=
  match v with
  | VNull | VBool _ | VString _ => True
  | VNumber n => -9223372036854775808 <= n <= u64_max
  | VFloat t => exists x, is_finite x = true /\ t = f64_text x
  | VArray l => (fix all l := match l with [] => True | x :: l' => printable x /\ all l' end) l
  | VObject ms => (fix all ms := match ms with [] => True | kv :: ms' => printable (snd kv) /\ all ms' end) ms
  end.

(** What [serde_json] promises of the text of one document: it is a [String]
    on one line, braces surround an object, and reading it gives the document
    back; what a torn write leaves of an object is no document.  A float that is neither negative nor NaN is read as such a float. *)
Class JsonLines `{Env} `{LedgerEnv} := {
  line_utf8 v : is_utf8 (value_display v) = true;
  line_one v : contains_char nl (value_display v) = false;
  line_object ms : exists body, value_display (VObject ms) = String "{" (body ++ "}");
  line_round_trip v : printable v -> from_str (value_display v) = inr v;
  line_torn ms n : (n < len (value_display (VObject ms)))%nat ->
    exists e, from_str (trim (from_utf8_lossy (str_take n (value_display (VObject ms))))) = inl e;
  f64_sign x : is_finite x = true -> is_sign_negative x = false ->
    is_nan (text_f64 (f64_text x)) = false /\ is_sign_negative (text_f64 (f64_text x)) = false
}.

(** ** Reading a file *)
Section Reading.
Context `{Env} `{LedgerEnv}.

Definition strip_error {A} (r : anyhow + A) : option A := match r with inr a => Some a | inl _ => None end.
(** One trimmed line. *)
Definition parse_entry (t : string) : option LedgerRecord :=
  match from_str t with inr doc => mjoin (strip_error (parse_record doc 1)) | inl _ => None end.
Definition records_of (bytes : string) : list LedgerRecord := omap parse_entry (entries (from_utf8_lossy bytes)).
Definition readable (bytes : string) : bool :=
  (Z.of_nat (len bytes) <=? RLM_LEDGER_MAX_BYTES)
  && (Z.of_nat (List.length (entries (from_utf8_lossy bytes))) <=? RLM_LEDGER_MAX_RECORDS).

(** The line number only colours an error. *)
Lemma parse_record_line doc n m : strip_error (parse_record doc n) = strip_error (parse_record doc m).
Proof.
  unfold parse_record, parse_spawn, parse_rename, parse_delete, parse_deleted_usage, sum_bind.
  repeat (match goal with |- context [match ?x with _ => _ end] =>
            lazymatch x with context [match _ with _ => _ end] => fail | _ => destruct x end end; try done).
Qed.
Lemma parse_line_entry line i :
  match parse_ledger_line line i with inr (Some r) => Some r | _ => None end = parse_entry (trim line).
Proof.
  unfold parse_ledger_line, parse_entry. destruct (from_str (trim line)) as [e|doc]; [done|].
  rewrite (parse_record_line doc 1 (S i)). by destruct (parse_record doc (S i)) as [|[]].
Qed.
Lemma read_lines_spec cf i n (ls : list string) :
  n <= RLM_LEDGER_MAX_RECORDS ->
  let es := List.filter (fun l => negb (is_empty l)) (map trim ls) in
  if n + Z.of_nat (List.length es) <=? RLM_LEDGER_MAX_RECORDS
  then read_lines cf i n ls = inr (omap parse_entry es)
  else exists e, read_lines cf i n ls = inl e.
Proof.
  cbv zeta. revert i n. induction ls as [|line ls IH]; intros i n Hn; cbn [map List.filter read_lines].
  - cbn [List.length omap list_omap]. rewrite (proj2 (Z.leb_le _ _)); [done|]. lia.
  - destruct (is_empty (trim line)) eqn:Eb; cbn [negb]; [by apply IH|].
    destruct (RLM_LEDGER_MAX_RECORDS <? n + 1) eqn:Em.
    + apply Z.ltb_lt in Em. rewrite (proj2 (Z.leb_gt _ _)); [by eexists|]. cbn [List.length]. lia.
    + apply Z.ltb_ge in Em. specialize (IH (S i) (n + 1) Em). cbn [List.length omap list_omap].
      replace (n + Z.of_nat (S (List.length (List.filter (fun l => negb (is_empty l)) (map trim ls)))))
        with (n + 1 + Z.of_nat (List.length (List.filter (fun l => negb (is_empty l)) (map trim ls)))) by lia.
      destruct (_ <=? RLM_LEDGER_MAX_RECORDS).
      * rewrite IH. cbn [sum_bind]. rewrite <- (parse_line_entry line i).
        by destruct (parse_ledger_line line i) as [|[]].
      * destruct IH as [e ->]. by exists e.
Qed.
Lemma decode_records_spec cf bytes :
  if readable bytes then decode_records cf bytes = inr (records_of bytes) else exists e, decode_records cf bytes = inl e.
Proof.
  unfold decode_records, readable. rewrite Z.ltb_antisym. destruct (Z.of_nat (len bytes) <=? RLM_LEDGER_MAX_BYTES); cbn [negb andb].
  - apply (read_lines_spec cf 0 0 (lines (from_utf8_lossy bytes))). done.
  - by eexists.
Qed.

(** ** Growing a file *)

(** [b] continues [a] on a fresh line. *)
Definition starts_nl (t : string) : bool := match t with String c _ => Ascii.eqb c nl | EmptyString => false end.
Definition below (a b : string) : Prop :=
  exists t, b = a ++ t /\ (t = "" \/ terminated a = true \/ starts_nl t = true).

Lemma terminated_cases s : terminated s = true <-> s = "" \/ exists p, s = p ++ nl_str.
Proof.
  unfold terminated. destruct s as [|c s]; [cbn; naive_solver|]. cbn [is_empty orb].
  destruct (strip_suffix nl_str (String c s)) as [p|] eqn:E.
  - apply strip_suffix_Some in E. split; [intros _; right; by exists p|done].
  - split; [done|]. intros [?|[p Hp]]; [done|]. assert (strip_suffix nl_str (String c s) = Some p) by by apply strip_suffix_Some. congruence.
Qed.
Lemma terminated_app a b : b <> "" -> terminated (a ++ b) = true <-> terminated b = true.
Proof.
  intros Hb. rewrite !terminated_cases. split.
  - intros [E | [p E]]; [by destruct a, b|]. right. apply (f_equal str_rev) in E.
    rewrite !str_rev_app_distr in E. destruct (str_rev b) as [|c rb] eqn:Er.
    { apply (f_equal str_rev) in Er. rewrite str_rev_involutive in Er. by destruct b. }
    cbn in E. injection E as -> E. exists (str_rev rb). rewrite <- (str_rev_involutive b), Er. by rewrite str_rev_cons.
  - intros [->|[p ->]]; [done|]. right. exists (a ++ p). by rewrite str_app_assoc.
Qed.
Lemma line_terminated t : terminated (t ++ nl_str) = true.
Proof. apply terminated_cases. right. by exists t. Qed.

Lemma below_refl a : below a a.
Proof. exists "". split; [by rewrite str_app_nil_r|by left]. Qed.
Lemma below_trans a b c : below a b -> below b c -> below a c.
Proof.
  intros (t & -> & Ht) (u & -> & Hu). exists (t ++ u). split; [by rewrite str_app_assoc|].
  destruct Ht as [-> | [Ht|Ht]]; [|by auto|]; [rewrite str_app_nil_r in Hu; naive_solver|]. right. right. by destruct t.
Qed.
Lemma entries_below a t :
  terminated a = true \/ starts_nl t = true ->
  entries (from_utf8_lossy (a ++ t)) = (entries (from_utf8_lossy a) ++ entries (from_utf8_lossy t))%list.
Proof.
  intros [Ha|Ht].
  - apply terminated_cases in Ha as [-> | [p ->]]; [done|]. rewrite str_app_assoc. unfold nl_str. cbn [String.append].
    rewrite !from_utf8_lossy_nl, !entries_nl. cbn. by rewrite app_nil_r.
  - destruct t as [|c t]; [done|]. apply Ascii.eqb_eq in Ht as ->. rewrite from_utf8_lossy_nl, entries_nl.
    done.
Qed.
Lemma below_entries a b :
  below a b -> exists es, entries (from_utf8_lossy b) = (entries (from_utf8_lossy a) ++ es)%list.
Proof.
  intros (t & -> & [-> |Ht]); [exists []; by rewrite str_app_nil_r, app_nil_r|]. eexists. by apply entries_below.
Qed.
Lemma records_below a t :
  terminated a = true \/ starts_nl t = true -> records_of (a ++ t) = (records_of a ++ records_of t)%list.
Proof. intros Ht. unfold records_of. by rewrite entries_below, omap_app. Qed.
Lemma below_records a b : below a b -> exists rs, records_of b = (records_of a ++ rs)%list.
Proof.
  intros (t & -> & [-> |Ht]); [exists []; by rewrite str_app_nil_r, app_nil_r|]. eexists. by apply records_below.
Qed.
Lemma below_len a b : below a b -> (len a <= len b)%nat.
Proof. intros (t & -> & _). rewrite str_len_app. lia. Qed.
Lemma below_same_len a b : below a b -> len a = len b -> b = a.
Proof.
  intros (t & -> & _). rewrite str_len_app. intros Hl. assert (len t = 0%nat) as Ht by lia.
  destruct t; [by rewrite str_app_nil_r|done].
Qed.
End Reading.

(** ** The process *)
Section Process.
Context `{Env} `{LedgerEnv} (cf : Conf) (sc : Scene).
Abbreviation view := (sc_view sc).

Definition content (s : LState) : string := default "" (ls_file s).

Lemma grow_below file more : below (default "" file) (default "" (grow file more)).
Proof.
  destruct more as [|t more]; [apply below_refl|]. cbn. exists (fresh_line (default "" file) ++ line_block (t :: more)).
  split; [done|]. unfold fresh_line. destruct (terminated (default "" file)); [by auto|]. right. by right.
Qed.
Lemma line_block_terminated texts : terminated (line_block texts) = true.
Proof.
  induction texts as [|t texts IH]; [done|]. cbn [line_block foldr]. fold (line_block texts).
  destruct (line_block texts) eqn:E; [rewrite str_app_nil_r; apply line_terminated|]. by apply terminated_app.
Qed.
Lemma grow_terminated file more :
  terminated (default "" file) = true -> terminated (default "" (grow file more)) = true.
Proof.
  intros Ht. destruct more as [|t more]; [done|].
  change (default "" (grow file (t :: more))) with (default "" file ++ fresh_line (default "" file) ++ line_block (t :: more)).
  unfold fresh_line. rewrite Ht. cbn [String.append].
  destruct (line_block (t :: more)) eqn:E; [by rewrite str_app_nil_r|]. apply terminated_app; [done|].
  rewrite <- E. apply line_block_terminated.
Qed.

(** What one call did. *)
Lemma lsys_inv {A} (part : nat -> option string -> option string) (eff : option string -> (io_kind + A) * option string) s r s' :
  lsys sc part eff s = (r, s') ->
  let f := grow (ls_file s) (sc_other sc (ls_step s)) in
  ls_cache s' = ls_cache s /\ ls_seeded s' = ls_seeded s /\ ls_step s' = S (ls_step s) /\
  match r with
  | Ok a => eff f = (inr a, ls_file s')
  | Err _ => (exists k, eff f = (inl k, ls_file s')) \/ exists k n, sc_fault sc (ls_step s) = LFail k n /\ ls_file s' = part n f
  | Killed => exists n, ls_file s' = part n f
  end.
Proof.
  unfold lsys. cbv zeta. set (f := grow _ _). destruct (sc_fault sc (ls_step s)) as [|k n|n].
  - destruct (eff f) as [[k|a] f'] eqn:E; intros; inv_res; cbn; split_and!; try done. left. by exists k.
  - intros; inv_res. cbn. split_and!; try done. right. by exists k, n.
  - intros; inv_res. cbn. split_and!; try done. by exists n.
Qed.

(** The cached replay was computed from a content that was the file's, at
    least as long as the size it is filed under. *)
Definition coherent (s : LState) : Prop :=
  forall id st, ls_cache s = Some (id, st) ->
    exists c0 c1, below c0 c1 /\ below c1 (content s) /\ fi_size id = len c0 /\ readable c1 = true
                  /\ st = fold_records view (fun _ => true) (records_of c1).
(** A computation only lets the file grow and keeps the cache coherent. *)
Definition sound {E A} (m : LM E A) : Prop := forall s r s', m s = (r, s') ->
  below (content s) (content s') /\ (coherent s -> coherent s').

Lemma coherent_grows s s' :
  ls_cache s' = ls_cache s -> below (content s) (content s') -> coherent s -> coherent s'.
Proof.
  intros Hc Hb Hok id st Hst. rewrite Hc in Hst. destruct (Hok id st Hst) as (c0 & c1 & H1 & H2 & H3).
  exists c0, c1. split; [done|]. split; [by eapply below_trans|done].
Qed.

Lemma sound_ret {E A} (a : A) : sound (lret (E:=E) a).
Proof. intros s r s' [= <- <-]. split; [apply below_refl|done]. Qed.
Lemma sound_throw {E A} (e : E) : sound (lthrow (A:=A) e).
Proof. intros s r s' [= <- <-]. split; [apply below_refl|done]. Qed.
Lemma sound_lift {E A} (m : E + A) : sound (llift m).
Proof. intros s r s'. unfold llift. destruct m; intros [= <- <-]; (split; [apply below_refl|done]). Qed.
Lemma sound_bind {E A B} (m : LM E A) (f : A -> LM E B) : sound m -> (forall a, sound (f a)) -> sound (lbind m f).
Proof.
  intros Hm Hf s r s'. unfold lbind. destruct (m s) as [[a|e|] s1] eqn:Em; intros; inv_res; [|by eapply Hm..].
  destruct (Hm _ _ _ Em) as [B1 C1]. destruct (Hf a _ _ _ ltac:(eassumption)) as [B2 C2]. split; [by eapply below_trans|auto].
Qed.
Lemma sound_try {E F A} (m : LM E A) : sound m -> sound (ltry (F:=F) m).
Proof. intros Hm s r s'. unfold ltry. destruct (m s) as [[a|e|] s1] eqn:Em; intros; inv_res; by eapply Hm. Qed.
Lemma sound_map_err {E F A} (f : E -> F) (m : LM E A) : sound m -> sound (lmap_err f m).
Proof. intros Hm s r s'. unfold lmap_err. destruct (m s) as [[a|e|] s1] eqn:Em; intros; inv_res; by eapply Hm. Qed.
Lemma sound_sys {A} (part : nat -> option string -> option string) (eff : option string -> (io_kind + A) * option string) :
  (forall n f, below (default "" f) (default "" (part n f))) ->
  (forall f, below (default "" f) (default "" (eff f).2)) -> sound (lsys sc part eff).
Proof.
  intros Hp He s r s' Hs. destruct (lsys_inv _ _ _ _ _ Hs) as (Hc & _ & _ & Hr).
  assert (below (content s) (content s')) as Hb.
  { eapply below_trans; [apply (grow_below (ls_file s) (sc_other sc (ls_step s)))|]. unfold content.
    destruct r as [a|e|].
    - specialize (He (grow (ls_file s) (sc_other sc (ls_step s)))). by rewrite Hr in He.
    - destruct Hr as [[k Hr]|(k & n & _ & ->)]; [|apply Hp].
      specialize (He (grow (ls_file s) (sc_other sc (ls_step s)))). by rewrite Hr in He.
    - destruct Hr as [n ->]. apply Hp. }
  split; [done|]. by apply coherent_grows.
Qed.
Lemma sound_query {A} (q : option string -> io_kind + A) : sound (lquery sc q).
Proof. apply sound_sys; intros; apply below_refl. Qed.
Lemma sound_now : sound (now_text sc).
Proof. intros s r s' [= <- <-]. split; [apply below_refl|done]. Qed.
End Process.
Create HintDb ledger.
#[export] Hint Resolve sound_ret sound_throw sound_lift sound_bind sound_try sound_map_err sound_query sound_now : ledger.

Section Appending.
Context `{Env} `{LedgerEnv} (cf : Conf) (sc : Scene).

Lemma sound_elsewhere : sound sc (elsewhere sc).
Proof. apply sound_query. Qed.
Lemma sound_seed_publish records : sound sc (seed_publish cf sc records).
Proof.
  unfold seed_publish. case_match; [apply sound_ret|]. apply sound_bind; [apply sound_now|]. intros at_.
  do 4 (apply sound_bind; [apply sound_map_err, sound_elsewhere|intros _]).
  apply sound_bind; [apply sound_try, sound_sys|intros _].
  - intros. apply below_refl.
  - intros [f|]; [apply below_refl|]. cbn. eexists. split; [done|]. by auto.
  - apply sound_bind; [apply sound_try, sound_elsewhere|intros _; apply sound_ret].
Qed.
Lemma sound_seed : sound sc (seed cf sc).
Proof.
  unfold seed. apply sound_bind; [apply sound_try, sound_query|]. intros [e|[]]; [|apply sound_ret].
  case_match; [|apply sound_ret]. apply sound_bind; [apply sound_now|]. intros at_.
  destruct (seed_walk _ _ _ _) as [[|r records]|]; [apply sound_ret|apply sound_seed_publish|apply sound_ret].
Qed.
Lemma sound_mark : sound sc mark_seeded.
Proof. intros s r s' [= <- <-]. split; [apply below_refl|done]. Qed.
Lemma sound_seed_once : sound sc (seed_once cf sc).
Proof.
  unfold seed_once. apply sound_bind; [apply sound_mark|]. intros []; [apply sound_ret|].
  apply sound_bind; [apply sound_try, sound_seed|intros _; apply sound_ret].
Qed.
Lemma sound_uncache : sound sc (set_cache None).
Proof. intros s r s' [= <- <-]. split; [apply below_refl|]. intros _ id st. done. Qed.

(** ** Appending a line *)

(** A line that [content] can take. *)
Definition fresh_for (c line : string) : Prop := terminated c = true \/ starts_nl line = true.
Lemma starts_nl_take n t : starts_nl t = true -> str_take n t = "" \/ starts_nl (str_take n t) = true.
Proof. destruct n, t; cbn; auto. Qed.

Lemma append_bytes_inv text s r s' :
  fresh_for (content s) text -> append_bytes sc text s = (r, s') ->
  below (content s) (content s') /\ ls_cache s' = ls_cache s /\
  match r with
  | Ok _ => exists g, below (content s) g /\ fresh_for g text /\ content s' = g ++ text
  | _ => True
  end.
Proof.
  intros Hf Hs. unfold append_bytes in Hs. destruct (lsys_inv _ _ _ _ _ _ Hs) as (Hc & _ & _ & Hr).
  set (f := grow _ _) in Hr. assert (below (content s) (default "" f)) as Hb by apply grow_below.
  assert (fresh_for (default "" f) text) as Hg.
  { destruct Hf as [Hf|Hf]; [left|by right]. by apply grow_terminated. }
  assert (forall n, below (default "" f) (default "" f ++ str_take n text)) as Hp.
  { intros n. exists (str_take n text). split; [done|]. destruct Hg as [Hg|Hg]; [by auto|].
    destruct (starts_nl_take n text Hg); auto. }
  assert (below (default "" f) (default "" f ++ text)) as Hw.
  { exists text. split; [done|]. destruct Hg; auto. }
  unfold content at 2 4. destruct r as [a|e|]; (split; [|split; [done|]]); try done.
  - injection Hr as _ <-. cbn. by eapply below_trans.
  - injection Hr as _ <-. by exists (default "" f).
  - destruct Hr as [[k Hr]|(k & n & _ & ->)]; [done|]. cbn. by eapply below_trans.
  - destruct Hr as [n ->]. cbn. by eapply below_trans.
Qed.

Lemma lquery_inv {A} (q : option string -> io_kind + A) s r s' :
  lquery sc q s = (r, s') ->
  below (content s) (content s') /\ ls_cache s' = ls_cache s /\
  content s' = default "" (grow (ls_file s) (sc_other sc (ls_step s))) /\
  match r with Ok a => q (ls_file s') = inr a | _ => True end.
Proof.
  intros Hs. unfold lquery in Hs. destruct (lsys_inv _ _ _ _ _ _ Hs) as (Hc & _ & _ & Hr). cbn in Hr.
  assert (ls_file s' = grow (ls_file s) (sc_other sc (ls_step s))) as Hf.
  { destruct r as [a|e|]; [congruence| |by destruct Hr as [_ ->]].
    destruct Hr as [[k Hr]|(k & n & _ & ->)]; [congruence|done]. }
  unfold content. rewrite Hf. split_and!; [apply grow_below|done|done|]. destruct r as [a|e|]; [|done..]. congruence.
Qed.
Lemma get_last c : c <> "" -> String.get (len c - 1) c = Some nl -> terminated c = true.
Proof.
  intros Hc Hg. apply terminated_cases. right. destruct (str_rev c) as [|d rc] eqn:E.
  { apply (f_equal str_rev) in E. rewrite str_rev_involutive in E. by destruct c. }
  exists (str_rev rc). apply (f_equal str_rev) in E. rewrite str_rev_involutive, str_rev_cons in E. subst c.
  rewrite str_len_app in Hg. cbn [len String.length] in Hg.
  replace (len (str_rev rc) + 1 - 1)%nat with (len (str_rev rc) + 0)%nat in Hg by lia.
  rewrite str_get_app_r in Hg. cbn in Hg. by injection Hg as ->.
Qed.
Lemma get_below a b i : below a b -> (i < len a)%nat -> String.get i b = String.get i a.
Proof.
  intros (t & -> & _). revert i. induction a as [|c a IH]; intros i Hi; [cbn in Hi; lia|].
  destruct i as [|i]; [done|]. cbn. apply IH. unfold len in *. cbn in Hi. lia.
Qed.

(** ** Runs *)
Lemma lbind_inv {E A B} (m : LM E A) (f : A -> LM E B) s r s' :
  lbind m f s = (r, s') ->
  (exists a s1, m s = (Ok a, s1) /\ f a s1 = (r, s')) \/
  (exists e, m s = (Err e, s') /\ r = Err e) \/ (m s = (Killed, s') /\ r = Killed).
Proof. unfold lbind. destruct (m s) as [[a|e|] s1]; intros Hr; [left|right; left|right; right]; inv_res; eauto. Qed.
Lemma lmap_err_inv {E F A} (g : E -> F) (m : LM E A) s r s' :
  lmap_err g m s = (r, s') ->
  exists r0, m s = (r0, s') /\ match r with Ok a => r0 = Ok a | Err _ => exists e, r0 = Err e | Killed => r0 = Killed end.
Proof. unfold lmap_err. destruct (m s) as [[a|e|] s1]; intros; inv_res; eexists; split; eauto. Qed.

(** What a run that did not finish left behind. *)
Definition grew (s s' : LState) : Prop := below (content s) (content s') /\ (coherent sc s -> coherent sc s').
Lemma grew_refl s : grew s s.
Proof. split; [apply below_refl|done]. Qed.
Lemma grew_trans a b c : grew a b -> grew b c -> grew a c.
Proof. intros [H1 H2] [H3 H4]. split; [by eapply below_trans|auto]. Qed.
Lemma grew_cache s s' : below (content s) (content s') -> ls_cache s' = ls_cache s -> grew s s'.
Proof. intros Hb Hc. split; [done|]. by apply coherent_grows. Qed.
Lemma query_run {A} (q : option string -> io_kind + A) s r s' :
  lmap_err io_err (lquery sc q) s = (r, s') ->
  grew s s' /\ content s' = default "" (grow (ls_file s) (sc_other sc (ls_step s))) /\
  match r with Ok a => q (ls_file s') = inr a | _ => True end.
Proof.
  intros (r0 & Hq & Hr)%lmap_err_inv. destruct (lquery_inv _ _ _ _ Hq) as (Hb & Hc & Hs & Ha).
  split; [by apply grew_cache|]. split; [done|]. destruct r; subst; done.
Qed.
Lemma append_run text s r s' :
  fresh_for (content s) text -> lmap_err io_err (append_bytes sc text) s = (r, s') ->
  grew s s' /\
  match r with Ok _ => exists g, below (content s) g /\ fresh_for g text /\ content s' = g ++ text | _ => True end.
Proof.
  intros Hf (r0 & Hq & Hr)%lmap_err_inv. destruct (append_bytes_inv _ _ _ _ Hf Hq) as (Hb & Hc & Ha).
  split; [by apply grew_cache|]. destruct r; subst; done.
Qed.

Definition either_line (record : Value) (line : string) : Prop :=
  line = line_of record \/ line = nl_str ++ line_of record.
Lemma choose_line_inv record size s r s' :
  size = len (content s) -> choose_line cf sc record size s = (r, s') ->
  grew s s' /\ match r with Ok line => fresh_for (content s') line /\ either_line record line | _ => True end.
Proof.
  intros -> . unfold choose_line. destruct (Nat.eqb (len (content s)) 0) eqn:E0.
  - assert (terminated (content s) = true) as Ht by (apply Nat.eqb_eq in E0; by destruct (content s)).
    intros [(at_ & s1 & [= <- <-] & Hr)|[(e & He & _)|[He _]]]%lbind_inv; [|discriminate..].
    apply lbind_inv in Hr as [([] & s1 & Ha & [= <- <-])|[(e & Ha & ->)|[Ha ->]]];
      apply append_run in Ha as [Hg Ha]; try (by left); try done.
    split; [done|]. split; [|by left]. destruct Ha as (g & _ & _ & ->). left.
    apply terminated_app; [|apply line_terminated]. unfold line_of. by destruct (value_display _).
  - assert (content s <> "") as Hne by (intros Hc; rewrite Hc in E0; done).
    intros [(off & s1 & H1 & Hr)|[(e & H1 & ->)|[H1 ->]]]%lbind_inv; apply query_run in H1 as (G1 & _ & Hoff); try done.
    injection Hoff as <-. fold (content s1) in *. destruct G1 as [B1 C1].
    apply lbind_inv in Hr as [(l & s2 & H2 & [= <- <-])|[(e & H2 & ->)|[H2 ->]]]; apply query_run in H2 as (G2 & Hs2 & Hl);
      (split; [by eapply grew_trans|]); try done.
    injection Hl as <-. fold (content s2) in *. case_bool_decide as Hnl; [|split; [by right|by right]].
    split; [left|by left]. rewrite Hs2. apply grow_terminated. fold (content s1).
    assert (content s1 <> "") as Hne1. { intros Hc. rewrite Hc in B1. apply below_len in B1. destruct (content s); [done|]. cbn in B1. lia. }
    apply get_last; [done|]. rewrite <- Hnl. symmetry. apply get_below; [by destruct G2|].
    destruct (content s1); [done|]. cbn. lia.
Qed.

Lemma append_record_inv record s r s' :
  append_record cf sc record s = (r, s') ->
  grew s s' /\
  match r with
  | Ok _ => ls_cache s' = None /\ exists g line post,
      below (content s) g /\ fresh_for g line /\ either_line record line
      /\ below (g ++ line) (content s') /\ content s' = (g ++ line) ++ post
  | _ => True
  end.
Proof.
  unfold append_record.
  intros [([] & s0 & R0 & Hr)|[(e & R0 & ->)|[R0 ->]]]%lbind_inv; pose proof (sound_seed_once _ _ _ R0) as G0; try done.
  apply lbind_inv in Hr as [([] & s1 & R1 & Hr)|[(e & R1 & ->)|[R1 ->]]]; apply query_run in R1 as [G1 _];
    pose proof (grew_trans _ _ _ G0 G1) as G; try done; clear G0 G1 R0 s0.
  assert (sound sc (lmap_err (fun e => anyhow_context ("open RLM ledger " ++ path_display (cf_path cf)) (io_err e))
     (lsys sc (fun _ f => f) (fun f => (inr tt, Some (default "" f)))))) as Hopen.
  { apply sound_map_err, sound_sys; intros; apply below_refl. }
  apply lbind_inv in Hr as [([] & s2 & R2 & Hr)|[(e & R2 & ->)|[R2 ->]]]; apply Hopen in R2 as G2;
    pose proof (grew_trans _ _ _ G G2) as G'; try done; clear G G2 R2 Hopen s1.
  apply lbind_inv in Hr as [(size & s3 & R3 & Hr)|[(e & R3 & ->)|[R3 ->]]]; apply query_run in R3 as (G3 & _ & Hsize);
    pose proof (grew_trans _ _ _ G' G3) as G; try done; clear G' G3 s2. injection Hsize as <-. fold (content s3) in Hr.
  apply lbind_inv in Hr as [(line & s4 & R4 & Hr)|[(e & R4 & ->)|[R4 ->]]]; apply choose_line_inv in R4 as [G4 Hline]; try done;
    pose proof (grew_trans _ _ _ G G4) as G'; try done; clear G G4 s3. destruct Hline as [Hfresh Hline].
  apply lbind_inv in Hr as [([] & s5 & R5 & Hr)|[(e & R5 & ->)|[R5 ->]]]; apply append_run in R5 as [G5 Ha]; try done;
    pose proof (grew_trans _ _ _ G' G5) as G; try done. destruct Ha as (g & Hg & Hgf & Hc5).
  apply lbind_inv in Hr as [([] & s6 & R6 & Hr)|[(e & R6 & ->)|[R6 ->]]]; apply query_run in R6 as [G6 _];
    pose proof (grew_trans _ _ _ G G6) as G7; try done.
  pose proof (sound_uncache _ _ _ Hr) as G8. injection Hr as <- <-. split; [by eapply grew_trans|]. split; [done|].
  destruct G6 as [B6 _]. rewrite Hc5 in B6. destruct B6 as (post & Hpost & Hcond). exists g, line, post. split_and!; try done.
  - destruct G' as [B' _]. by eapply below_trans.
  - exists post. split; [exact Hpost|done].
Qed.
End Appending.

(** ** The line of a record *)
Section Line.
Context `{Env} `{LedgerEnv} `{!JsonLines}.

Lemma trim_braces body : trim (String "{" (body ++ "}")) = String "{" (body ++ "}").
Proof.
  assert (forall s, ws_len (String "{" s) = 0%nat) as Hs.
  { intros s. cbn [ws_len]. change (ws1 "{") with false. cbn. destruct s as [|b s]; [done|].
    destruct s as [|c s]; done. }
  assert (forall s, ws_len_rev (String "}" s) = 0%nat) as He.
  { intros s. cbn [ws_len_rev]. change (ws1 "}") with false. cbn [orb]. destruct s as [|b s]; [done|].
    assert (ws2 b "}" = false) as -> by (unfold ws2; by rewrite andb_false_r).
    destruct s as [|a s]; [done|]. assert (ws3 a b "}" = false) as ->; [|done].
    unfold ws3. change (is_code 128 "}") with false. change (is_code 159 "}") with false.
    change (is_code 168 "}" ) with false. change (is_code 169 "}") with false. change (is_code 175 "}") with false.
    change (in_range 128 138 "}") with false. by rewrite !andb_false_r. }
  unfold trim, trim_start. cbn [trim_head]. rewrite Hs. unfold trim_end.
  change (String "{" (body ++ "}")) with (String "{" body ++ String "}" ""). rewrite str_rev_snoc. cbn [trim_head].
  rewrite He. rewrite <- str_rev_snoc. by rewrite str_rev_involutive.
Qed.
Lemma entries_object ms : entries (value_display (VObject ms)) = [value_display (VObject ms)].
Proof.
  destruct (line_object ms) as [body Hb]. pose proof (line_one (VObject ms)) as Hone.
  rewrite entries_one by done. cbn. by rewrite Hb, trim_braces.
Qed.
Lemma records_line ms post :
  records_of (line_of (VObject ms) ++ post) = (option_list (parse_entry (value_display (VObject ms))) ++ records_of post)%list.
Proof.
  unfold records_of, line_of. rewrite str_app_assoc. unfold nl_str. cbn [String.append].
  rewrite from_utf8_lossy_nl, entries_nl, (from_utf8_lossy_valid _ (line_utf8 _)), entries_object, omap_app. cbn.
  by destruct (parse_entry _).
Qed.

(** A record line appended where it may start. *)
Lemma records_append g line ms post :
  fresh_for g line -> either_line (VObject ms) line ->
  records_of ((g ++ line) ++ post)
  = (records_of g ++ option_list (parse_entry (value_display (VObject ms))) ++ records_of post)%list.
Proof.
  intros Hf Hl. rewrite str_app_assoc. destruct Hl as [-> | ->].
  - rewrite records_below, records_line; [done|]. destruct Hf as [Hf|Hf]; [by left|].
    right. destruct (line_object ms) as [body Hb]. unfold line_of in Hf. rewrite Hb in Hf. done.
  - rewrite str_app_assoc, records_below by by right. f_equal.
    rewrite (records_below nl_str) by by left. by rewrite records_line.
Qed.
End Line.

(** ** The guarantees *)
Section Guarantees.
Context `{Env} `{LedgerEnv} (cf : Conf) (sc : Scene).

End Guarantees.
