(* ===== verification/LedgerTheorems.v ===== *)
(** * The guarantees of the spawn ledger

    The records the operations write read back, the stat guard serves the
    current replay, a live session path belongs to one child, tombstoning ends
    a path's edges, and a parent's read sees its live children. *)
From S2P Require Import Prelude RustStr Lines Json Time World LedgerReplay Ledger LedgerProofs LedgerFile.
#[local] Open Scope string_scope.
#[local] Open Scope Z_scope.

(** ** What is written reads back *)
Section Written.
Context `{Env} `{LedgerEnv} `{!JsonLines}.

Lemma wire_round_trip r : from_wire (wire_name r) = Some r.
Proof. by destruct r. Qed.
Lemma parse_printed doc r : printable doc -> parse_record doc 1 = inr r -> parse_entry (value_display doc) = r.
Proof. intros Hp Hr. unfold parse_entry. rewrite line_round_trip by done. rewrite Hr. by destruct r. Qed.

Lemma meta_written cf at_ : parse_entry (value_display (meta_value cf at_)) = None.
Proof. apply parse_printed; [|done]. by cbn. Qed.
Lemma spawn_written at_ id parent child depth name :
  1 <= depth <= u32_max -> parse_entry (value_display (spawn_value at_ id parent child depth name)) = Some (Spawn id parent child depth name).
Proof.
  intros Hd. unfold u32_max in *. apply parse_printed.
  - cbn. unfold u64_max. split_and!; try done; lia.
  - unfold parse_record, spawn_value, record_value, parse_spawn. cbn -[Z.leb Z.ltb u32_max u64_max].
    assert ((0 <=? depth) && (depth <=? u64_max) = true) as ->.
    { apply andb_true_iff. rewrite !Z.leb_le. unfold u64_max. lia. }
    assert ((depth <? 1) || (u32_max <? depth) = false) as ->; [|done].
    apply orb_false_iff. rewrite !Z.ltb_ge. unfold u32_max. lia.
Qed.
Lemma rename_written at_ id child name :
  parse_entry (value_display (rename_value at_ id child name)) = Some (Rename id child name).
Proof. apply parse_printed; [|done]. by cbn. Qed.
Lemma delete_written at_ id child reason :
  parse_entry (value_display (delete_value at_ id child reason None)) = Some (Delete id child reason None).
Proof.
  apply parse_printed; [by cbn|]. unfold parse_record, delete_value, record_value, parse_delete.
  cbn. by rewrite wire_round_trip.
Qed.
Definition is_u64 (n : Z) : Prop := 0 <= n <= u64_max.
(** The usage a tombstone reads back with: the token counts, and the cost as
    its text reads. *)
Definition read_usage (u : SessionUsageSummary) : SessionUsageSummary :=
  mkUsage (u_input_tokens u) (u_output_tokens u) (text_f64 (f64_text (u_cost u))).
Lemma usage_written at_ id child reason u :
  is_u64 (u_input_tokens u) -> is_u64 (u_output_tokens u) ->
  is_finite (u_cost u) = true -> is_sign_negative (u_cost u) = false ->
  parse_entry (value_display (delete_value at_ id child reason (Some u))) = Some (Delete id child reason (Some (read_usage u))).
Proof.
  intros Hi Ho Hf Hs. unfold is_u64, u64_max in *. destruct (f64_sign _ Hf Hs) as [Hn Hs'].
  apply parse_printed.
  - cbn. unfold u64_max. split_and!; try done; try lia. by eexists.
  - unfold parse_record, delete_value, record_value, parse_delete, usage_value, parse_deleted_usage.
    cbn -[Z.leb u64_max]. rewrite wire_round_trip.
    assert ((0 <=? u_input_tokens u) && (u_input_tokens u <=? u64_max) = true) as ->.
    { apply andb_true_iff. rewrite !Z.leb_le. unfold u64_max. lia. }
    assert ((0 <=? u_output_tokens u) && (u_output_tokens u <=? u64_max) = true) as ->.
    { apply andb_true_iff. rewrite !Z.leb_le. unfold u64_max. lia. }
    cbn. by rewrite Hn, Hs'.
Qed.
End Written.

(** ** The stat guard *)
Section Guard.
Context `{Env} `{LedgerEnv} (cf : Conf) (sc : Scene).
Abbreviation view := (sc_view sc).

(** The replay of a content. *)
Definition replay_of (c : string) : ReplayState := fold_records view (fun _ => true) (records_of c).

Lemma read_inv s r s' :
  (forall k n, sc_fault sc (ls_step s) <> LFail k n) -> replay cf sc s = (r, s') ->
  below (content s) (content s') /\ ls_cache s' = ls_cache s /\
  match r with
  | Ok st => readable (content s') = true /\ st = replay_of (content s')
  | Err _ => readable (content s') = false
  | Killed => True
  end.
Proof.
  intros Hno. unfold replay, read_records, lbind, ltry.
  destruct (lquery sc _ s) as [r0 s1] eqn:Hq. destruct (lquery_inv _ _ _ _ _ Hq) as (Hb & Hc & _ & Hr).
  assert (forall e, r0 = Err e -> ls_file s1 = None) as Hmissing.
  { intros e ->. unfold lquery in Hq. destruct (lsys_inv _ _ _ _ _ _ Hq) as (_ & _ & _ & [[k Hk]|(k & n & Hk & _)]).
    - destruct (grow (ls_file s) (sc_other sc (ls_step s))) as [f|] eqn:E; congruence.
    - by apply Hno in Hk. }
  destruct r0 as [bytes|e|]; cbn; [|intros [= <- <-]; split_and!; try done|by intros [= <- <-]].
  - destruct (ls_file s1) as [b|] eqn:Ef; [|done]. injection Hr as ->. assert (content s1 = bytes) as Hcs by (unfold content; by rewrite Ef).
    unfold llift. pose proof (decode_records_spec cf bytes) as Hd. rewrite Hcs in *.
    destruct (readable bytes) eqn:Er.
    + rewrite Hd. intros [= <- <-]. rewrite Hcs. by split_and!.
    + destruct Hd as [e ->]. intros [= <- <-]. rewrite Hcs. by split_and!.
  - unfold content. rewrite (Hmissing e eq_refl). done.
  - unfold content, replay_of. by rewrite (Hmissing e eq_refl).
Qed.

Lemma replay_cached_inv s r s' :
  coherent sc s -> (forall k n, sc_fault sc (S (ls_step s)) <> LFail k n) -> replay_cached cf sc s = (r, s') ->
  below (content s) (content s') /\ coherent sc s' /\
  match r with
  | Ok st => exists c, below (content s) c /\ below c (content s') /\ readable c = true /\ st = replay_of c
  | Err _ => exists c, below (content s) c /\ below c (content s') /\ readable c = false
  | Killed => True
  end.
Proof.
  intros Hok Hno. unfold replay_cached. intros Hr. unfold lbind at 1 in Hr.
  destruct (file_identity sc s) as [r0 s1] eqn:Hid.
  assert (below (content s) (content s1) /\ ls_cache s1 = ls_cache s /\ (ls_step s1 = S (ls_step s)) /\
          match r0 with Ok (Some id) => fi_size id = len (content s1) | Err _ => False | _ => True end) as (Hb & Hc & Hst & Hsize).
  { unfold file_identity, lbind, ltry in Hid. destruct (lquery sc _ s) as [r1 s2] eqn:Hq.
    destruct (lquery_inv _ _ _ _ _ Hq) as (Hb & Hc & _ & Hv). unfold lquery in Hq. destruct (lsys_inv _ _ _ _ _ _ Hq) as (_ & _ & Hst & _).
    destruct r1 as [n|e|]; cbn in Hid; injection Hid as <- <-; split_and!; try done. cbn.
    destruct (ls_file s2) eqn:E; [|done]. injection Hv as <-. unfold content. by rewrite E. }
  assert (coherent sc s1) as Hok1 by by eapply coherent_grows.
  destruct r0 as [identity|e|]; [|done|by injection Hr as <- <-].
  assert (forall r s', replay_fresh cf sc identity s1 = (r, s') -> below (content s) (content s') /\ coherent sc s' /\
    match r with
    | Ok st => exists c, below (content s) c /\ below c (content s') /\ readable c = true /\ st = replay_of c
    | Err _ => exists c, below (content s) c /\ below c (content s') /\ readable c = false
    | Killed => True
    end) as Hfresh.
  { clear Hr. intros r1 s2 Hr. unfold replay_fresh, lbind in Hr. destruct (replay cf sc s1) as [rr s3] eqn:Hp.
    apply read_inv in Hp as (Hb3 & Hc3 & Hr3); [|by rewrite Hst].
    assert (below (content s) (content s3)) as Hbs by by eapply below_trans.
    destruct rr as [st|e|]; [|injection Hr as <- <-; split_and!; [done|by eapply coherent_grows|]..]; [| |done].
    - destruct Hr3 as [Hread ->]. destruct identity as [id|]; injection Hr as <- <-.
      + split_and!; [done| |]; [|exists (content s3); split_and!; try done; apply below_refl].
        intros id' st' [= <- <-]. exists (content s1), (content s3). by split_and!; try apply below_refl.
      + split_and!; [done|by eapply coherent_grows|]. exists (content s3). split_and!; try done. apply below_refl.
    - exists (content s3). split_and!; try done. apply below_refl. }
  cbn in Hr. destruct identity as [id|]; [|by apply Hfresh]. unfold lbind, get_cache in Hr.
  destruct (ls_cache s1) as [[cid st]|] eqn:Ec; [|by apply Hfresh]. case_bool_decide as Heq; [|by apply Hfresh].
  subst cid. injection Hr as <- <-. destruct (Hok1 id st Ec) as (c0 & c1 & B01 & B1 & Hsz & Hrd & ->).
  split_and!; [done|done|]. exists (content s1). split_and!; [done|apply below_refl| |].
  all: assert (content s1 = c1) as ->; [|done].
  all: apply below_same_len; [done|]; pose proof (below_len _ _ B01); pose proof (below_len _ _ B1); lia.
Qed.

(** Unless the read that follows the stat fails, a replay is that of the
    file's content at some moment of the call, cached or not, and the cache
    stays coherent for the calls to come. *)
Theorem replay_is_current s r s' :
  coherent sc s -> (forall k n, sc_fault sc (S (ls_step s)) <> LFail k n) -> replay_cached cf sc s = (r, s') ->
  below (content s) (content s') /\ coherent sc s' /\
  match r with
  | Ok st => exists c, below (content s) c /\ below c (content s') /\ readable c = true /\ st = replay_of c
  | Err _ => exists c, below (content s) c /\ below c (content s') /\ readable c = false
  | Killed => True
  end.
Proof. apply replay_cached_inv. Qed.
End Guard.

(** ** One writer that may die *)
Section Alone.
Context `{Env} `{LedgerEnv} `{!JsonLines} (cf : Conf) (sc : Scene).
Abbreviation view := (sc_view sc).

(** Nobody else appends, and no call fails; the process may die at any. *)
Record alone : Prop := {
  alone_silent n : sc_other sc n = [];
  alone_steady n k w : sc_fault sc n <> LFail k w
}.
Context (Halone : alone).

(** The file exists: seeding has nothing left to do. *)
Definition settled (s : LState) : Prop := is_Some (ls_file s).

Lemma lsys_alone {A} (part : nat -> option string -> option string) (eff : option string -> (io_kind + A) * option string) s r s' :
  lsys sc part eff s = (r, s') ->
  ls_cache s' = ls_cache s /\ ls_seeded s' = ls_seeded s /\
  match r with
  | Ok a => eff (ls_file s) = (inr a, ls_file s')
  | Err _ => exists k, eff (ls_file s) = (inl k, ls_file s')
  | Killed => exists n, ls_file s' = part n (ls_file s)
  end.
Proof.
  intros Hs. destruct (lsys_inv _ _ _ _ _ _ Hs) as (Hc & Hd & _ & Hr). rewrite (alone_silent Halone) in Hr.
  split_and!; [done..|]. destruct r as [a|e|]; [done| |done]. destruct Hr as [Hr|(k & n & Hr & _)]; [done|].
  by apply (alone_steady Halone) in Hr.
Qed.
Lemma lquery_alone {A} (q : option string -> io_kind + A) s r s' :
  lquery sc q s = (r, s') ->
  ls_file s' = ls_file s /\ ls_cache s' = ls_cache s /\ ls_seeded s' = ls_seeded s /\
  match r with Ok a => q (ls_file s) = inr a | Err _ => exists k, q (ls_file s) = inl k | Killed => True end.
Proof.
  intros Hs. apply lsys_alone in Hs as (Hc & Hd & Hr). split_and!; [|done..|].
  - destruct r as [a|e|]; [congruence|destruct Hr; congruence|by destruct Hr].
  - destruct r as [a|e|]; [congruence|destruct Hr as [k Hr]; exists k; congruence|done].
Qed.

(** A run that leaves the file's content, the cache and the settling alone. *)
Definition unmoved (s s' : LState) : Prop :=
  content s' = content s /\ ls_cache s' = ls_cache s /\ (settled s -> settled s').
Lemma unmoved_refl s : unmoved s s.
Proof. done. Qed.
Lemma unmoved_trans a b c : unmoved a b -> unmoved b c -> unmoved a c.
Proof. intros (A1 & A2 & A3) (B1 & B2 & B3). split_and!; [congruence..|auto]. Qed.
Lemma query_alone {A} (q : option string -> io_kind + A) s r s' :
  lmap_err io_err (lquery sc q) s = (r, s') ->
  unmoved s s' /\ match r with Ok a => q (ls_file s) = inr a | Err _ => exists k, q (ls_file s) = inl k | Killed => True end.
Proof.
  intros (r0 & Hq & Hr)%lmap_err_inv. apply lquery_alone in Hq as (Hf & Hc & Hd & Hv). split.
  - unfold unmoved, content, settled. by rewrite Hf.
  - destruct r as [a|e|]; [by subst|by destruct Hr as [e0 ->]|done].
Qed.
Lemma seed_once_alone s r s' :
  settled s -> seed_once cf sc s = (r, s') -> unmoved s s' /\ ls_seeded s' = true /\ forall e, r <> Err e.
Proof.
  intros Hset. unfold seed_once, lbind, mark_seeded. destruct (ls_seeded s) eqn:Es.
  - by intros [= <- <-].
  - destruct Hset as [f Hf]. unfold ltry at 1, seed, lbind, ltry.
    set (s0 := mkLState _ _ _ _). destruct (lquery sc _ s0) as [r0 s1] eqn:Hq.
    apply lquery_alone in Hq as (Hf1 & Hc1 & Hd1 & Hv). cbn in Hf1, Hc1, Hd1, Hv. rewrite Hf in Hv.
    assert (unmoved s s1 /\ ls_seeded s1 = true) as [Hu Hs1].
    { unfold unmoved, content, settled. by rewrite Hf1, Hc1, Hd1. }
    destruct r0 as [[]|e|]; [|by destruct Hv|]; intros [= <- <-]; done.
Qed.

Lemma append_bytes_alone text s r s' :
  lmap_err io_err (append_bytes sc text) s = (r, s') ->
  ls_cache s' = ls_cache s /\ is_Some (ls_file s') /\
  match r with
  | Ok _ => content s' = content s ++ text
  | Err _ => False
  | Killed => exists n, content s' = content s ++ str_take n text
  end.
Proof.
  intros (r0 & Hq & Hr)%lmap_err_inv. unfold append_bytes in Hq. apply lsys_alone in Hq as (Hc & _ & Hv).
  unfold content. destruct r as [a|e|]; [|destruct Hr as [e0 Hr]|]; subst r0.
  - injection Hv as _ Hv. rewrite <- Hv. by split_and!.
  - by destruct Hv.
  - destruct Hv as [n ->]. split_and!; [done..|]. by exists n.
Qed.

(** What a torn line leaves. *)
Lemma torn_records ms n :
  records_of (str_take n (line_of (VObject ms))) = [] \/
  records_of (str_take n (line_of (VObject ms))) = option_list (parse_entry (value_display (VObject ms))).
Proof.
  set (text := value_display (VObject ms)). pose proof (line_one (VObject ms)) as Hone. fold text in Hone.
  unfold line_of. fold text. destruct (decide (n < len text)%nat) as [Hn|Hn].
  - left. rewrite str_take_short by lia. destruct (line_torn ms n Hn) as [e He]. fold text in He. unfold records_of.
    rewrite entries_one by by apply lossy_one_line, take_one_line. cbn. destruct (is_empty _); [done|]. cbn.
    unfold parse_entry. by rewrite He.
  - right. rewrite str_take_long by lia. destruct (n - len text)%nat as [|m]; cbn [str_take nl_str].
    + rewrite str_app_nil_r. unfold records_of, text. rewrite (from_utf8_lossy_valid _ (line_utf8 _)), entries_object. cbn. by destruct (parse_entry _).
    + pose proof (records_line ms "") as Hl. rewrite str_app_nil_r in Hl. cbn in Hl. rewrite app_nil_r in Hl.
      destruct m; exact Hl.
Qed.

Lemma torn_append g line ms n :
  fresh_for g line -> either_line (VObject ms) line ->
  records_of (g ++ str_take n line) = records_of g \/
  records_of (g ++ str_take n line) = (records_of g ++ option_list (parse_entry (value_display (VObject ms))))%list.
Proof.
  intros Hf [-> | ->].
  - assert (terminated g = true) as Ht.
    { destruct Hf as [Hf|Hf]; [done|]. destruct (line_object ms) as [body Hb]. unfold line_of in Hf. by rewrite Hb in Hf. }
    rewrite records_below by by left. destruct (torn_records ms n) as [-> | ->]; [left; by rewrite app_nil_r|by right].
  - destruct n as [|n]; cbn [nl_str String.append str_take]; [left; by rewrite str_app_nil_r|].
    change (String nl (str_take n (line_of (VObject ms)))) with (nl_str ++ str_take n (line_of (VObject ms))).
    rewrite records_below by by right. rewrite (records_below nl_str) by by left. cbn [app].
    destruct (torn_records ms n) as [-> | ->]; [left; by rewrite app_nil_r|by right].
Qed.
Lemma meta_records at_ n : records_of (str_take n (line_of (meta_value cf at_))) = [].
Proof.
  pose proof (meta_written cf at_) as Hm. unfold meta_value, record_value in *.
  match goal with |- records_of (str_take n (line_of (VObject ?ms))) = _ =>
    destruct (torn_records ms n) as [-> | ->]; [done|] end. by rewrite Hm.
Qed.
Lemma str_take_all s : str_take (len s) s = s.
Proof. induction s as [|c s IH]; [done|]. cbn. by f_equal. Qed.

Lemma query_total {A} (q : option string -> io_kind + A) s s' r :
  is_Some (ls_file s) -> lmap_err io_err (lquery sc q) s = (r, s') ->
  is_Some (ls_file s') /\ content s' = content s /\ ((forall f, exists a, q f = inr a) -> forall e, r <> Err e).
Proof.
  intros Hs (r0 & Hq & Hr)%lmap_err_inv. apply lquery_alone in Hq as (Hf & _ & _ & Hv).
  unfold content. rewrite Hf. split_and!; [done..|]. intros Ht e ->. destruct Hr as [e0 ->], Hv as [k Hk].
  destruct (Ht (ls_file s)). congruence.
Qed.
Lemma choose_line_alone record s r s' :
  is_Some (ls_file s) -> choose_line cf sc record (len (content s)) s = (r, s') ->
  is_Some (ls_file s') /\ records_of (content s') = records_of (content s) /\ forall e, r <> Err e.
Proof.
  intros Hsome. unfold choose_line. destruct (Nat.eqb (len (content s)) 0) eqn:E0.
  - assert (content s = "") as Hc by (apply Nat.eqb_eq in E0; by destruct (content s)). rewrite Hc.
    intros [(at_ & s1 & [= <- <-] & Hr)|[(e & He & _)|[He _]]]%lbind_inv; [|discriminate..].
    apply lbind_inv in Hr as [([] & s1 & Ha & [= <- <-])|[(e & Ha & ->)|[Ha ->]]];
      apply append_bytes_alone in Ha as (_ & Hs & Ha); try done; rewrite Hc in Ha; (split_and!; [done| |done]).
    + rewrite Ha. rewrite <- (str_take_all (line_of _)). apply meta_records.
    + destruct Ha as [n ->]. apply meta_records.
  - intros [(off & s1 & R1 & Hr)|[(e & R1 & ->)|[R1 ->]]]%lbind_inv; apply query_total in R1 as (S1 & C1 & N1); try done; rewrite <- ?C1.
    2: { exfalso. eapply N1; [|done]. intros f. by eexists. }
    2: by split_and!.
    apply lbind_inv in Hr as [(l & s2 & R2 & [= <- <-])|[(e & R2 & ->)|[R2 ->]]]; apply query_total in R2 as (S2 & C2 & N2); try done;
      rewrite <- ?C2; (split_and!; [done..|]); try done.
    exfalso. eapply N2; [|done]. intros f. by eexists.
Qed.

(** The record is in the file when the append returned, and either there or
    not when the process died in it; an append does not fail otherwise. *)
Lemma append_record_alone ms s r s' :
  settled s -> append_record cf sc (VObject ms) s = (r, s') ->
  settled s' /\ grew sc s s' /\ (forall e, r <> Err e) /\
  (records_of (content s') = (records_of (content s) ++ option_list (parse_entry (value_display (VObject ms))))%list \/
   records_of (content s') = records_of (content s) /\ r = Killed).
Proof.
  intros Hset Happ. pose proof (append_record_inv _ _ _ _ _ _ Happ) as [Hgrew _].
  enough (settled s' /\ (forall e, r <> Err e) /\ (records_of (content s') = (records_of (content s) ++ option_list (parse_entry (value_display (VObject ms))))%list \/
   records_of (content s') = records_of (content s) /\ r = Killed)) by naive_solver. clear Hgrew.
  unfold append_record in Happ.
  apply lbind_inv in Happ as [([] & s0 & R0 & Hr)|[(e & R0 & ->)|[R0 ->]]]; apply seed_once_alone in R0 as ((U0 & _ & V0) & _ & N0); try done;
    [|by edestruct N0|rewrite U0; naive_solver].
  apply lbind_inv in Hr as [([] & s1 & R1 & Hr)|[(e & R1 & ->)|[R1 ->]]]; apply query_alone in R1 as ((U1 & _ & V1) & N1); try done;
    [|by destruct N1|rewrite U1, U0; naive_solver]. rewrite <- U0, <- U1. clear U0 U1 N0 N1. specialize (V1 (V0 Hset)).
  apply lbind_inv in Hr as [([] & s2 & R2 & Hr)|[(e & R2 & ->)|[R2 ->]]];
    apply lmap_err_inv in R2 as (r2 & R2 & Hr2); apply lsys_alone in R2 as (_ & D2 & F2).
  2: { destruct Hr2 as [e0 ->]. by destruct F2. }
  2: { subst r2. destruct F2 as [n F2]. unfold content, settled. rewrite F2. naive_solver. }
  subst r2. injection F2 as F2. assert (content s2 = content s1) as U2 by (unfold content; by rewrite <- F2).
  assert (is_Some (ls_file s2)) as S2 by (rewrite <- F2; by eexists). rewrite <- U2.
  apply lbind_inv in Hr as [(size & s3 & R3 & Hr)|[(e & R3 & ->)|[R3 ->]]]; apply lmap_err_inv in R3 as (r3 & R3 & Hr3);
    apply lquery_alone in R3 as (F3 & _ & D3 & Q3).
  2: { destruct Hr3 as [e0 ->]. by destruct Q3. }
  2: { unfold content, settled. rewrite F3. naive_solver. }
  subst r3. injection Q3 as <-. fold (content s2) in Hr. assert (content s3 = content s2) as U3 by (unfold content; by rewrite F3).
  rewrite <- U3 in *. rewrite <- F3 in S2.
  apply lbind_inv in Hr as [(line & s4 & R4 & Hr)|[(e & R4 & ->)|[R4 ->]]]; pose proof (choose_line_inv _ _ _ _ _ _ _ eq_refl R4) as [_ Hline];
    apply choose_line_alone in R4 as (S4 & C4 & N4); try done; [|by edestruct N4|split; [done|naive_solver]].
  destruct Hline as [Hfresh Hline]. rewrite <- C4.
  apply lbind_inv in Hr as [([] & s5 & R5 & Hr)|[(e & R5 & ->)|[R5 ->]]]; apply append_bytes_alone in R5 as (_ & S5 & C5); [|done|].
  2: { split; [done|]. split; [done|]. destruct C5 as [n ->]. destruct (torn_append (content s4) line ms n Hfresh Hline); auto. }
  assert (records_of (content s5) = (records_of (content s4) ++ option_list (parse_entry (value_display (VObject ms))))%list) as C6.
  { rewrite C5, <- (str_app_nil_r (content s4 ++ line)), (records_append _ _ ms ""), app_assoc by done.
    change (records_of "") with (@nil LedgerRecord). by rewrite app_nil_r. }
  apply lbind_inv in Hr as [([] & s6 & R6 & [= <- <-])|[(e & R6 & ->)|[R6 ->]]]; apply lmap_err_inv in R6 as (r6 & R6 & Hr6);
    apply lquery_alone in R6 as (F6 & _ & _ & Q6).
  - unfold settled, content. cbn. rewrite F6. split; [done|]. split; [done|]. by left.
  - destruct Hr6 as [e0 ->]. by destruct Q6.
  - unfold settled, content. rewrite F6. split; [done|]. split; [done|]. by left.
Qed.

(** ** Reading leaves the file alone *)
Definition still {E A} (m : LM E A) : Prop :=
  forall s r s', m s = (r, s') -> ls_file s' = ls_file s /\ ls_seeded s' = ls_seeded s.
Lemma still_ret {E A} (a : A) : still (lret (E:=E) a).
Proof. by intros s r s' [= <- <-]. Qed.
Lemma still_lift {E A} (m : E + A) : still (llift m).
Proof. intros s r s'. unfold llift. by destruct m; intros [= <- <-]. Qed.
Lemma still_bind {E A B} (m : LM E A) (f : A -> LM E B) : still m -> (forall a, still (f a)) -> still (lbind m f).
Proof.
  intros Hm Hf s r s' [(a & s1 & R1 & R2)|[(e & R & _)|[R _]]]%lbind_inv; [|by eapply Hm..].
  destruct (Hm _ _ _ R1) as [F1 D1], (Hf a _ _ _ R2) as [F2 D2]. by rewrite F2, D2.
Qed.
Lemma still_try {E F A} (m : LM E A) : still m -> still (ltry (F:=F) m).
Proof. intros Hm s r s'. unfold ltry. destruct (m s) as [[a|e|] s1] eqn:Em; intros; inv_res; by eapply Hm. Qed.
Lemma still_query {A} (q : option string -> io_kind + A) : still (lquery sc q).
Proof. intros s r s' Hq. apply lquery_alone in Hq as (? & _ & ? & _). done. Qed.
Lemma still_set_cache c : still (set_cache c).
Proof. by intros s r s' [= <- <-]. Qed.
Lemma still_read_records : still (read_records cf sc).
Proof.
  unfold read_records. apply still_bind; [apply still_try, still_query|]. intros [e|b]; [apply still_ret|apply still_lift].
Qed.
Lemma still_replay_fresh identity : still (replay_fresh cf sc identity).
Proof.
  unfold replay_fresh, replay. apply still_bind.
  - apply still_bind; [apply still_read_records|]. intros; apply still_ret.
  - intros st. destruct identity; [|apply still_ret]. apply still_bind; [apply still_set_cache|]. intros; apply still_ret.
Qed.
Lemma still_replay_cached : still (replay_cached cf sc).
Proof.
  unfold replay_cached. apply still_bind; [|intros identity; apply still_bind; [by intros s r s' [= <- <-]|]].
  - intros s r s'. unfold file_identity. apply still_bind; [apply still_try, still_query|]. intros []; apply still_ret.
  - intros cache. repeat case_match; try apply still_replay_fresh. apply still_ret.
Qed.
End Alone.
