(* ===== verification/LedgerInvariant.v ===== *)
(** * The spawn ledger: one live child per session path

    The operations of a process that may die at any moment, as changes of the
    replayed edges, and what they keep true. *)
From S2P Require Import Prelude RustStr Lines Json Time World LedgerReplay Paths Ledger LedgerProofs LedgerFile LedgerTheorems.
#[local] Open Scope string_scope.
#[local] Open Scope Z_scope.

(** ** Edges and their sessions *)
Section Edges.
Context (v : View).

Definition session_of (e : RlmLedgerEdge) : path := canonical_session_path v (path_of_string (e_child e)).
(** At most one child id is live at a session path. *)
Definition claims_unique (l : list RlmLedgerEdge) : Prop := forall e1 e2,
  e1 ∈ l -> e2 ∈ l -> live e1 = true -> live e2 = true -> session_of e1 = session_of e2 -> e_child_id e1 = e_child_id e2.

(** A change of an edge that revives nothing and moves nothing. *)
Definition calm (f : RlmLedgerEdge -> RlmLedgerEdge) : Prop := forall e,
  e_child_id (f e) = e_child_id e /\ e_child (f e) = e_child e /\ (live (f e) = true -> live e = true).
Lemma rename_calm name : calm (rename_edge name).
Proof. done. Qed.
Lemma delete_calm reason usage : calm (delete_edge reason usage).
Proof. done. Qed.
Lemma update_calm (p : RlmLedgerEdge -> bool) f l : calm f -> claims_unique l -> claims_unique (update p f l).
Proof.
  intros Hf Hl e1 e2 H1 H2. unfold update in *. apply list_elem_of_fmap in H1 as (a & -> & Ha), H2 as (b & -> & Hb).
  destruct (Hf a) as (A1 & A2 & A3), (Hf b) as (B1 & B2 & B3).
  destruct (p a), (p b); unfold session_of; rewrite ?A1, ?A2, ?B1, ?B2; intros; apply Hl; auto.
Qed.
Lemma join_calm f id child l : calm f -> claims_unique l -> claims_unique (spec_join v f id child l).
Proof. intros Hf Hl. unfold spec_join. repeat case_match; by try apply update_calm. Qed.
(** A spawn keeps the claims when nobody else holds the path. *)
Lemma spawn_unique l id parent child depth name :
  (forall e, e ∈ l -> live e = true -> session_of e = canonical_session_path v (path_of_string child) -> e_child_id e = id) ->
  claims_unique l -> claims_unique (spec_record v l (Spawn id parent child depth name)).
Proof.
  intros Hfree Hl. cbn [spec_record]. set (edge := mkEdge _ _ _ _ _ _ _).
  assert (forall e, e ∈ (if existsb (has_key v (key_of v edge)) l then update (has_key v (key_of v edge)) (fun _ => edge) l
                         else (l ++ [edge])%list) -> e ∈ l \/ e = edge) as Hin.
  { intros e He. case_match.
    - apply update_in in He as [He|(e' & _ & _ & ->)]; auto.
    - apply elem_of_app in He as [He|He%list_elem_of_singleton]; auto. }
  intros e1 e2 He1 He2. apply Hin in He1 as [He1 | ->], He2 as [He2 | ->]; [by apply Hl| | |done].
  - intros L1 _ Hs. by apply Hfree.
  - intros _ L2 Hs. symmetry. by apply Hfree.
Qed.
End Edges.

(** ** Operations *)
Section Ops.
Context `{Env} `{LedgerEnv} `{!JsonLines} (cf : Conf) (sc : Scene).
Abbreviation view := (sc_view sc).

Inductive LedgerOp :=
| OpLedgerSpawn (i : RlmSpawnInput)
| OpLedgerRename (child_id child name : string)
| OpLedgerRenamePath (child name : string)
| OpLedgerDelete (child_id child : string) (reason : RlmLedgerDeleteReason)
| OpLedgerDeleteUsage (child_id child : string) (reason : RlmLedgerDeleteReason) (usage : SessionUsageSummary)
| OpLedgerTombstone (child : string) (reason : RlmLedgerDeleteReason) (usage : option SessionUsageSummary)
| OpLedgerEdges (include_deleted : bool)
| OpLedgerLive
| OpLedgerIsLive (child_id child : string).
Definition ldiscard {A} (m : LM anyhow A) : LM anyhow unit := do! m in lret tt.
Definition run_ledger (op : LedgerOp) : LM anyhow unit :=
  match op with
  | OpLedgerSpawn i => append_spawn cf sc i
  | OpLedgerRename id child name => append_rename cf sc id child name
  | OpLedgerRenamePath child name => append_rename_by_child_path cf sc child name
  | OpLedgerDelete id child reason => append_delete cf sc id child reason
  | OpLedgerDeleteUsage id child reason usage => append_delete_with_usage cf sc id child reason usage
  | OpLedgerTombstone child reason usage => ldiscard (tombstone_child_path_with_usage cf sc child reason usage)
  | OpLedgerEdges b => ldiscard (edges cf sc b)
  | OpLedgerLive => ldiscard (live_edges cf sc)
  | OpLedgerIsLive id child => ldiscard (edge_is_live cf sc id child)
  end.
(** The widths of the machine integers among the arguments. *)
Definition usage_typed (u : SessionUsageSummary) : Prop := is_u64 (u_input_tokens u) /\ is_u64 (u_output_tokens u).
Definition op_typed (op : LedgerOp) : Prop :=
  match op with
  | OpLedgerSpawn i => is_u32 (si_depth i)
  | OpLedgerDeleteUsage _ _ _ u | OpLedgerTombstone _ _ (Some u) => usage_typed u
  | _ => True
  end.

(** The replayed edges of the file. *)
Definition table (s : LState) : list RlmLedgerEdge := foldl (spec_record view) [] (records_of (content s)).
Lemma table_replay s : rs_edges (replay_of sc (content s)) = table s.
Proof. destruct (fold_reference view (fun _ => true) (records_of (content s))) as [_ He]. exact He. Qed.

Context (Halone : alone sc) (Hview : view_ok view).

(** The state between operations. *)
Definition ledger_inv (s : LState) : Prop := settled s /\ coherent sc s /\ claims_unique view (table s).

Lemma append_table ms s r s' :
  settled s -> append_record cf sc (VObject ms) s = (r, s') ->
  settled s' /\ (coherent sc s -> coherent sc s') /\ (forall e, r <> Err e) /\
  (table s' = foldl (spec_record view) (table s) (option_list (parse_entry (value_display (VObject ms))))
   \/ table s' = table s /\ r = Killed).
Proof.
  intros Hs Ha. destruct (append_record_alone cf sc Halone ms s r s' Hs Ha) as (Hs' & [_ Hc] & Hr & Ht).
  split_and!; [done..|]. unfold table. destruct Ht as [-> |[-> ->]]; [left; by rewrite foldl_app|by right].
Qed.
(** A record that keeps the claims may be appended. *)
Lemma append_inv ms s r s' :
  ledger_inv s -> claims_unique view (foldl (spec_record view) (table s) (option_list (parse_entry (value_display (VObject ms))))) ->
  append_record cf sc (VObject ms) s = (r, s') -> ledger_inv s'.
Proof.
  intros (Hs & Hc & Hu) Hn Ha. destruct (append_table ms s r s' Hs Ha) as (Hs' & Hc' & _ & Ht).
  split_and!; [done|auto|]. destruct Ht as [-> |[-> _]]; done.
Qed.
Lemma replay_table s r s' :
  settled s -> coherent sc s -> replay_cached cf sc s = (r, s') ->
  settled s' /\ coherent sc s' /\ content s' = content s /\
  match r with Ok st => st = replay_of sc (content s) | _ => True end.
Proof.
  intros Hs Hc Hr. pose proof Hr as Hr'.
  apply (replay_cached_inv cf sc) in Hr as (_ & Hc' & Hv); [|done|apply (alone_steady sc Halone)].
  apply (still_replay_cached cf sc Halone) in Hr' as [Hf Hd].
  assert (content s' = content s) as Hsame by (unfold content; by rewrite Hf).
  split_and!; [unfold settled; by rewrite Hf|done|done|]. destruct r as [st|e|]; [|done..].
  destruct Hv as (c & B1 & B2 & _ & ->). rewrite Hsame in B2. f_equal.
  apply below_same_len; [done|]. pose proof (below_len _ _ B1). pose proof (below_len _ _ B2). lia.
Qed.
Lemma replay_inv s r s' :
  ledger_inv s -> replay_cached cf sc s = (r, s') ->
  ledger_inv s' /\ table s' = table s /\ match r with Ok st => rs_edges st = table s | _ => True end.
Proof.
  intros (Hs & Hc & Hu) Hr. destruct (replay_table s r s' Hs Hc Hr) as (Hs' & Hc' & Hsame & Hv).
  assert (table s' = table s) as Ht by (unfold table; by rewrite Hsame).
  split; [unfold ledger_inv; by rewrite Ht|]. split; [done|]. destruct r as [st|e|]; [|done..]. rewrite Hv. apply table_replay.
Qed.

(** ** What every operation keeps *)
Definition keeps_inv {A} (m : LM anyhow A) : Prop := forall s r s', ledger_inv s -> m s = (r, s') -> ledger_inv s'.
Lemma inv_ret {A} (a : A) : keeps_inv (lret a).
Proof. by intros s r s' Hi [= <- <-]. Qed.
Lemma inv_throw {A} e : keeps_inv (lthrow (A:=A) e).
Proof. by intros s r s' Hi [= <- <-]. Qed.
Lemma keeps_now : keeps_inv (now_text sc).
Proof. by intros s r s' Hi [= <- <-]. Qed.
Lemma inv_bind {A B} (m : LM anyhow A) (f : A -> LM anyhow B) :
  keeps_inv m -> (forall a, keeps_inv (f a)) -> keeps_inv (lbind m f).
Proof.
  intros Hm Hf s r s' Hi [(a & s1 & R1 & R2)|[(e & R & _)|[R _]]]%lbind_inv; [|by eapply Hm..].
  eapply Hf; [|exact R2]. by eapply Hm.
Qed.
Lemma keeps_try {A} (m : LM anyhow A) : keeps_inv m -> keeps_inv (ltry (F:=anyhow) m).
Proof. intros Hm s r s' Hi. unfold ltry. destruct (m s) as [[a|e|] s1] eqn:Em; intros; inv_res; by eapply Hm. Qed.
Lemma keeps_replay : keeps_inv (replay_cached cf sc).
Proof. intros s r s' Hi Hr. by apply replay_inv in Hr as [? _]. Qed.
Lemma keeps_seed_once : keeps_inv (seed_once cf sc).
Proof.
  intros s r s' (Hs & Hc & Hu) Hr. pose proof (sound_seed_once cf sc _ _ _ Hr) as [_ Hc'].
  apply (seed_once_alone cf sc Halone) in Hr as ((Hsame & _ & Hs') & _); [|done].
  unfold ledger_inv, table. rewrite Hsame. auto.
Qed.
Lemma keeps_calm ms f id child :
  calm f -> (forall l, foldl (spec_record view) l (option_list (parse_entry (value_display (VObject ms)))) = spec_join view f id child l) ->
  keeps_inv (append_record cf sc (VObject ms)).
Proof.
  intros Hf Hp s r s' Hi. apply append_inv; [done|]. rewrite Hp. apply join_calm; [done|]. by destruct Hi as (_ & _ & ?).
Qed.
Lemma keeps_rename_record at_ id child name : keeps_inv (append_record cf sc (rename_value at_ id child name)).
Proof.
  apply (keeps_calm _ (rename_edge name) id child); [apply rename_calm|]. intros l.
  fold (record_value at_ "rename" [("childId", VString id); ("child", VString child); ("name", VString name)]).
  fold (rename_value at_ id child name). by rewrite rename_written.
Qed.
Lemma keeps_rename id child name : keeps_inv (append_rename cf sc id child name).
Proof. unfold append_rename. apply inv_bind; [apply keeps_now|]. intros at_. apply keeps_rename_record. Qed.
Lemma keeps_delete id child reason : keeps_inv (append_delete cf sc id child reason).
Proof.
  unfold append_delete. apply inv_bind; [apply keeps_now|]. intros at_.
  apply (keeps_calm _ (delete_edge reason None) id (canonical_text view child)); [apply delete_calm|]. intros l.
  pose proof (delete_written at_ id (canonical_text view child) reason) as Hd. unfold delete_value, record_value in Hd. by rewrite Hd.
Qed.
Lemma keeps_delete_usage id child reason usage :
  usage_typed usage -> keeps_inv (append_delete_with_usage cf sc id child reason usage).
Proof.
  intros [Hin Hout]. unfold append_delete_with_usage. destruct (is_finite (u_cost usage)) eqn:Ef; [|apply keeps_delete].
  destruct (is_sign_negative (u_cost usage)) eqn:Es; [apply keeps_delete|]. cbn [negb orb].
  apply inv_bind; [apply keeps_now|]. intros at_.
  apply (keeps_calm _ (delete_edge reason (Some (read_usage usage))) id (canonical_text view child)); [apply delete_calm|]. intros l.
  pose proof (usage_written at_ id (canonical_text view child) reason usage Hin Hout Ef Es) as Hd.
  unfold delete_value, record_value in Hd. by rewrite Hd.
Qed.
Lemma keeps_for_each {A} (f : A -> LM anyhow unit) l : (forall a, a ∈ l -> keeps_inv (f a)) -> keeps_inv (for_each f l).
Proof.
  induction l as [|a l IH]; intros Hf; [apply inv_ret|]. cbn. apply inv_bind; [apply Hf; by left|].
  intros _. apply IH. intros b Hb. apply Hf. by right.
Qed.

Lemma keeps_spawn i : is_u32 (si_depth i) -> keeps_inv (append_spawn cf sc i).
Proof.
  intros Hd. unfold append_spawn. destruct (invalid_spawn i) eqn:Ei; [apply inv_throw|].
  set (child_path := canonical_session_path view (path_of_string (si_child i))).
  intros s r s' Hi [(st & s1 & R1 & R2)|[(e & R1 & _)|[R1 _]]]%lbind_inv; [|by apply replay_inv in R1 as [? _]..].
  apply replay_inv in R1 as (Hi1 & Ht & Hst); [|done]. rewrite <- Ht in Hst.
  destruct (find_first _ (rs_edges st)) as [e|] eqn:Ef; [by injection R2 as <- <-|].
  apply lbind_inv in R2 as [(at_ & s2 & [= <- <-] & R2)|[(e & He & _)|[He _]]]; [|discriminate..].
  rewrite find_first_None, Hst in Ef. set (at0 := iso_from_unix_ms _) in R2.
  pose proof (spawn_written at0 (si_child_id i) (path_display (canonical_session_path view (path_of_string (si_parent i))))
    (path_display child_path) (si_depth i) (si_name i)) as Hw. unfold spawn_value, record_value in Hw.
  eapply append_inv; [exact Hi1| |exact R2]. rewrite Hw.
  2: { unfold invalid_spawn in Ei. apply orb_false_iff in Ei as [_ Ei]. apply Z.ltb_ge in Ei. unfold is_u32 in Hd. lia. }
  cbn [option_list foldl]. apply spawn_unique; [|by destruct Hi1 as (_ & _ & ?)].
  intros e He Hl Hs. specialize (Ef e He). unfold claims_path in Ef. rewrite Hl in Ef. cbn [andb] in Ef.
  assert (session_of view e = child_path) as Hpath.
  { rewrite Hs. exact (canonical_stable view (si_child i) Hview). }
  unfold at_path in Ef. unfold session_of in Hpath. rewrite (bool_decide_eq_true_2 _ Hpath) in Ef. cbn in Ef.
  apply negb_false_iff in Ef. by apply String.eqb_eq.
Qed.

Lemma run_ledger_keeps op : op_typed op -> keeps_inv (run_ledger op).
Proof.
  destruct op as [i|id child name|child name|id child reason|id child reason u|child reason usage|b| |id child]; cbn [run_ledger op_typed]; intros Ht.
  - by apply keeps_spawn.
  - apply keeps_rename.
  - unfold append_rename_by_child_path. apply inv_bind; [apply keeps_replay|]. intros st. apply keeps_for_each.
    intros e _. case_match; [|apply inv_ret]. apply inv_bind; [apply keeps_now|]. intros at_. apply keeps_rename_record.
  - apply keeps_delete.
  - by apply keeps_delete_usage.
  - unfold ldiscard, tombstone_child_path_with_usage. apply inv_bind; [|intros; apply inv_ret].
    apply inv_bind; [apply keeps_replay|]. intros st. apply inv_bind; [|intros; apply inv_ret].
    apply keeps_for_each. intros e _. destruct usage as [u|]; [by apply keeps_delete_usage|apply keeps_delete].
  - unfold ldiscard, edges. apply inv_bind; [|intros; apply inv_ret].
    apply inv_bind; [apply keeps_seed_once|intros _]. apply inv_bind; [apply keeps_replay|intros; apply inv_ret].
  - unfold ldiscard, live_edges. apply inv_bind; [|intros; apply inv_ret].
    apply inv_bind; [apply keeps_seed_once|intros _]. apply inv_bind; [apply keeps_replay|intros; apply inv_ret].
  - unfold ldiscard, edge_is_live. apply inv_bind; [|intros; apply inv_ret]. apply inv_bind; [apply keeps_try, keeps_seed_once|].
    intros [e|[]]; [apply inv_ret|]. apply inv_bind; [apply keeps_try, keeps_replay|]. intros [e|st]; apply inv_ret.
Qed.
End Ops.

(** ** Histories *)
Section History.
Context `{Env} `{LedgerEnv} `{!JsonLines} (cf : Conf) (v : View).

(** A ledger used by one process at a time: operations that may be cut short
    by the process's death at any system call, and restarts. *)
Inductive history : LState -> Prop :=
| history_start : history (fresh_process (Some ""))
| history_op sc op s r s' : sc_view sc = v -> alone sc -> op_typed op -> history s -> run_ledger cf sc op s = (r, s') -> history s'
| history_restart s : history s -> history (fresh_process (ls_file s)).

Lemma coherent_fresh sc file : coherent sc (fresh_process file).
Proof. intros id st. done. Qed.
Lemma inv_view sc sc' s : sc_view sc = sc_view sc' -> ledger_inv sc s -> ledger_inv sc' s.
Proof. intros Hs. unfold ledger_inv, coherent, table. by rewrite Hs. Qed.
Lemma history_inv s : view_ok v -> history s -> forall sc, sc_view sc = v -> ledger_inv sc s.
Proof.
  intros Hv. induction 1 as [|sc op s r s' Hsv Ha Ht _ IH Hr|s _ IH]; intros sc' Hsv'.
  - split_and!; [by eexists|apply coherent_fresh|]. intros e1 e2 He1. by apply elem_of_nil in He1.
  - apply (inv_view sc); [congruence|]. eapply run_ledger_keeps; [done|by rewrite Hsv|done|by apply IH|done].
  - destruct (IH sc' Hsv') as (Hs & _ & Hu). split_and!; [done|apply coherent_fresh|done].
Qed.

End History.
