(* ===== verification/LedgerQueries.v ===== *)
(** * The spawn ledger: tombstones and a parent's children *)
From S2P Require Import Prelude RustStr Lines Json Time World LedgerReplay Paths Ledger LedgerProofs LedgerFile LedgerTheorems LedgerInvariant.
#[local] Open Scope string_scope.
#[local] Open Scope Z_scope.

Section Tombstone.
Context `{Env} `{LedgerEnv} `{!JsonLines} (cf : Conf) (sc : Scene).
Abbreviation view := (sc_view sc).
Context (Halone : alone sc) (Hview : view_ok view).

(** The usage snapshot that reaches the edge: none when the reader would
    refuse its cost. *)
Definition snapshot (usage : option SessionUsageSummary) : option SessionUsageSummary :=
  match usage with
  | Some u => if negb (is_finite (u_cost u)) || is_sign_negative (u_cost u) then None else Some (read_usage u)
  | None => None
  end.
Definition usage_ok (usage : option SessionUsageSummary) : Prop :=
  match usage with Some u => usage_typed u | None => True end.

Lemma canonical_text_stable s : canonical_text view (canonical_text view s) = canonical_text view s.
Proof. unfold canonical_text at 1. rewrite (canonical_stable view s Hview). done. Qed.
Lemma canonical_key id child : edge_key view id (canonical_text view child) = edge_key view id child.
Proof. unfold edge_key. by rewrite canonical_text_stable. Qed.
Lemma session_text e1 e2 :
  canonical_text view (e_child e1) = canonical_text view (e_child e2) -> session_of view e1 = session_of view e2.
Proof.
  intros Ht. unfold session_of. rewrite <- (canonical_stable view (e_child e1) Hview), Ht. by apply canonical_stable.
Qed.

(** One tombstone of the loop. *)
Definition tombstone_one (reason : RlmLedgerDeleteReason) (usage : option SessionUsageSummary) (e : RlmLedgerEdge) : LM anyhow unit :=
  match usage with
  | Some u => append_delete_with_usage cf sc (e_child_id e) (e_child e) reason u
  | None => append_delete cf sc (e_child_id e) (e_child e) reason
  end.
Lemma append_delete_table id child reason s s' :
  settled s -> append_delete cf sc id child reason s = (Ok tt, s') ->
  settled s' /\ table sc s' = spec_join view (delete_edge reason None) id (canonical_text view child) (table sc s).
Proof.
  intros Hs. unfold append_delete. intros [(at_ & s1 & [= <- <-] & R)|[(e & He & _)|[He _]]]%lbind_inv; [|discriminate..].
  set (at0 := iso_from_unix_ms _) in R. pose proof (delete_written at0 id (canonical_text view child) reason) as Hd.
  unfold delete_value, record_value in R, Hd. apply (append_table cf sc Halone) in R as (Hs' & _ & _ & [Ht|[_ Hk]]); [|done|done].
  rewrite Hd in Ht. done.
Qed.
Lemma tombstone_one_table reason usage e s s' :
  usage_ok usage -> settled s -> tombstone_one reason usage e s = (Ok tt, s') ->
  settled s' /\ table sc s' = spec_join view (delete_edge reason (snapshot usage)) (e_child_id e) (canonical_text view (e_child e)) (table sc s).
Proof.
  intros Hu Hs. destruct usage as [u|]; cbn [tombstone_one snapshot]; [|by apply append_delete_table].
  unfold append_delete_with_usage. destruct (negb (is_finite (u_cost u)) || is_sign_negative (u_cost u)) eqn:E; [by apply append_delete_table|].
  apply orb_false_iff in E as [Ef Es]. apply negb_false_iff in Ef.
  intros [(at_ & s1 & [= <- <-] & R)|[(e' & He & _)|[He _]]]%lbind_inv; [|discriminate..].
  set (at0 := iso_from_unix_ms _) in R. destruct Hu as [Hi Ho].
  pose proof (usage_written at0 (e_child_id e) (canonical_text view (e_child e)) reason u Hi Ho Ef Es) as Hd.
  unfold delete_value, record_value in R, Hd. apply (append_table cf sc Halone) in R as (Hs' & _ & _ & [Ht|[_ Hk]]); [|done|done].
  rewrite Hd in Ht. done.
Qed.

(** The loop ends every edge whose key is among the matching ones. *)
Definition matches (m : list RlmLedgerEdge) (e : RlmLedgerEdge) : bool := existsb (fun x => has_key view (key_of view x) e) m.
Lemma update_twice (p q : RlmLedgerEdge -> bool) reason usage l :
  (forall e, p (delete_edge reason usage e) = p e) ->
  update p (delete_edge reason usage) (update q (delete_edge reason usage) l) = update (fun e => p e || q e) (delete_edge reason usage) l.
Proof.
  intros Hp. unfold update. rewrite map_map. apply map_ext. intros e.
  destruct (q e); rewrite ?Hp; destruct (p e); cbn; try done. unfold delete_edge. cbn. by destruct usage.
Qed.
Lemma update_keys (p : RlmLedgerEdge -> bool) reason usage k l :
  existsb (has_key view k) (update p (delete_edge reason usage) l) = existsb (has_key view k) l.
Proof. unfold update. induction l as [|e l IH]; [done|]. cbn [map existsb]. rewrite IH. f_equal. by destruct (p e). Qed.
Lemma for_each_table reason usage m l s s' :
  usage_ok usage -> settled s -> (forall e, e ∈ m -> existsb (has_key view (key_of view e)) l = true) ->
  (exists p, table sc s = update p (delete_edge reason (snapshot usage)) l) ->
  for_each (tombstone_one reason usage) m s = (Ok tt, s') ->
  table sc s' = update (matches m) (delete_edge reason (snapshot usage)) (table sc s).
Proof.
  intros Hu. revert s. induction m as [|e m IH]; intros s Hs Hm [p Hp] Hr.
  - injection Hr as <-. symmetry. apply update_none, existsb_never.
  - cbn in Hr. apply lbind_inv in Hr as [([] & s1 & R1 & R2)|[(e' & He & Hx)|[He Hx]]]; [|done..].
    apply tombstone_one_table in R1 as [Hs1 T1]; [|done|done].
    assert (table sc s1 = update (has_key view (key_of view e)) (delete_edge reason (snapshot usage)) (table sc s)) as T1'.
    { rewrite T1. unfold spec_join. rewrite canonical_key. change (edge_key view (e_child_id e) (e_child e)) with (key_of view e).
      assert (existsb (has_key view (key_of view e)) (table sc s) = true) as ->; [|done].
      rewrite Hp, update_keys. apply Hm. by left. }
    apply IH in R2; [|done|intros x Hx; apply Hm; by right|].
    2: { rewrite T1', Hp. eexists. by apply update_twice. }
    rewrite R2, T1', update_twice by done. unfold update. apply map_ext. intros x. unfold matches. cbn [existsb]. by rewrite orb_comm.
Qed.

Lemma table_plain s : Forall plain_id (records_of (content s)) -> plain_ids (table sc s).
Proof.
  unfold table. intros Hr. assert (plain_ids []) as Hn by (intros e He; by apply elem_of_nil in He).
  revert Hn. generalize (@nil RlmLedgerEdge). induction Hr as [|r rs Hr _ IH]; intros l Hl; [done|]. cbn. apply IH. by apply plain_step.
Qed.
Lemma matches_at_path target l :
  plain_ids l -> forall e, e ∈ l -> matches (List.filter (at_path sc target) l) e = at_path sc target e.
Proof.
  intros Hl e He. destruct (at_path sc target e) eqn:Ea.
  - apply existsb_exists. exists e. split; [apply List.filter_In; split; [by apply list_elem_of_In|done]|]. by apply String.eqb_eq.
  - apply not_true_is_false. unfold matches. rewrite existsb_exists. intros (x & Hx & Hk).
    apply List.filter_In in Hx as [Hx Hax]. apply list_elem_of_In in Hx. apply String.eqb_eq in Hk.
    unfold key_of, edge_key in Hk. pose proof (split_once_char_app nul _ (canonical_text view (e_child e)) (Hl e He)) as S1.
    rewrite Hk, (split_once_char_app nul _ _ (Hl x Hx)) in S1. injection S1 as _ Ht. apply session_text in Ht.
    apply bool_decide_eq_true in Hax. apply bool_decide_eq_false in Ea. unfold session_of in Ht. congruence.
Qed.

(** Tombstoning a session path returns its edges, marks every one of them
    deleted with the reason and the usage snapshot the reader accepts, and
    changes no edge of another path. *)
Theorem tombstone_ends_path child reason usage s l s' :
  usage_ok usage -> settled s -> coherent sc s -> Forall plain_id (records_of (content s)) ->
  tombstone_child_path_with_usage cf sc child reason usage s = (Ok l, s') ->
  let target := canonical_session_path view (path_of_string child) in
  let before := rs_edges (fold_records view (fun _ => true) (records_of (content s))) in
  let after := rs_edges (fold_records view (fun _ => true) (records_of (content s'))) in
  l = List.filter (at_path sc target) before /\
  after = map (fun e => if at_path sc target e then delete_edge reason (snapshot usage) e else e) before.
Proof.
  intros Hu Hs Hc Hp Hr target before after. assert (before = table sc s) as -> by apply table_replay.
  assert (after = table sc s') as -> by apply table_replay. unfold tombstone_child_path_with_usage in Hr.
  apply lbind_inv in Hr as [(st & s1 & R1 & Hr)|[(e & _ & He)|[_ He]]]; [|done..].
  apply (replay_table cf sc Halone) in R1 as (Hs1 & _ & Hsame & ->); [|done..].
  assert (rs_edges (replay_of sc (content s)) = table sc s) as Ht by apply table_replay. rewrite Ht in Hr.
  assert (table sc s1 = table sc s) as Ht1 by (unfold table; by rewrite Hsame).
  apply lbind_inv in Hr as [([] & s2 & R2 & [= <- <-])|[(e & _ & He)|[_ He]]]; [|done..]. split; [done|].
  apply (for_each_table reason usage _ (table sc s)) in R2; [|done|done| |].
  - rewrite R2, Ht1. unfold update. apply map_ext_in. intros e He. apply list_elem_of_In in He.
    rewrite matches_at_path; [done|by apply table_plain|done].
  - intros e He. apply list_elem_of_In, List.filter_In in He as [He _]. apply existsb_exists. exists e. split; [done|]. by apply String.eqb_eq.
  - exists (fun _ => false). rewrite Ht1. symmetry. apply update_none, existsb_never.
Qed.
End Tombstone.

(** ** A parent's children *)
Section Children.
Context `{Env} `{LedgerEnv} `{!JsonLines} (cf : Conf) (sc : Scene).
Abbreviation view := (sc_view sc).

(** The directories are absolute, a directory lists names, a regular file has
    a name, and no session file is a link to a file of another name. *)
Definition absolute (p : path) : Prop := exists l, p = "/" :: l /\ Forall good_name l.
Record sessions_ok : Prop := {
  so_agent : absolute (cf_agent_dir cf);
  so_sessions : absolute (cf_sessions_dir cf);
  so_listed d names n : v_dirs view !! d = Some names -> n ∈ names -> good_name n;
  so_named q : view_is_file view q = true -> is_Some (file_stem q);
  so_stem q n : path_shape q -> file_stem q = Some n -> file_stem (canonical_session_path view q) = Some n
}.
Context (Halone : alone sc) (Hok : sessions_ok).

Lemma absolute_snoc p n : absolute p -> good_name n -> absolute (p ++ [n])%list.
Proof. intros (l & -> & Hl) Hn. exists (l ++ [n])%list. split; [done|]. apply Forall_app. split; [done|]. by constructor. Qed.
Lemma absolute_shape p : absolute p -> path_shape p.
Proof. intros (l & -> & Hl). by constructor. Qed.
Lemma listed_absolute d l p : absolute d -> view_read_dir view d = Some l -> p ∈ l -> absolute p.
Proof.
  intros Hd. unfold view_read_dir. destruct (v_realpath view d ≫= _) as [names|] eqn:E; [|done].
  intros [= <-] Hp. apply list_elem_of_fmap in Hp as (n & -> & Hn). apply bind_Some in E as (q & _ & Hq).
  apply absolute_snoc; [done|]. by eapply so_listed.
Qed.

Definition index_ok (index : gmap string path) : Prop :=
  forall id p, index !! id = Some p -> file_stem p = Some id /\ absolute p.
Lemma foldl_keeps {A B} (P : A -> Prop) (f : A -> B -> A) (l : list B) a :
  (forall a b, b ∈ l -> P a -> P (f a b)) -> P a -> P (foldl f a l).
Proof.
  revert a. induction l as [|b l IH]; intros a Hf Ha; [done|]. cbn. apply IH; [|apply Hf; [by left|done]].
  intros a' b' Hb'. apply Hf. by right.
Qed.
Lemma artifact_index_ok : index_ok (artifact_session_index view (cf_agent_dir cf)).
Proof.
  unfold artifact_session_index. set (entries := fun p => default [] (view_read_dir view p)).
  assert (forall d p, absolute d -> p ∈ entries d -> absolute p) as He.
  { intros d p Hd. unfold entries. destruct (view_read_dir view d) as [l|] eqn:E; cbn; [by eapply listed_absolute|]. by intros ?%elem_of_nil. }
  assert (absolute (cf_agent_dir cf ++ ["session-artifacts"])%list) as Hroot.
  { apply absolute_snoc; [by apply so_agent|]. by split_and!. }
  apply foldl_keeps; [|by intros id p; rewrite lookup_empty]. intros i1 d1 Hd1 Hi1.
  apply foldl_keeps; [|done]. intros i2 d2 Hd2 Hi2. apply foldl_keeps; [|done]. intros i3 f Hf Hi3.
  assert (absolute f) as Habs by eauto. unfold index_file. destruct (extension f), (file_stem f) as [stem|] eqn:Es; try done.
  case_match; [|done]. intros id p. destruct (decide (id = stem)) as [->|Hne].
  - rewrite lookup_insert_eq. by intros [= <-].
  - rewrite lookup_insert_ne by done. apply Hi3.
Qed.

(** A path resolves to a file of the same stem. *)
Lemma no_slash_prefix a b : contains_char "/" (a ++ b) = false -> contains_char "/" a = false.
Proof. induction a as [|c a IH]; [done|]. cbn [String.append contains_char]. intros [-> Hr]%orb_false_iff. by apply IH. Qed.
Lemma stem_no_slash p id : path_shape p -> file_stem p = Some id -> contains_char "/" id = false.
Proof.
  intros Hp. unfold file_stem. destruct (file_name p) as [n|] eqn:En; [|done].
  destruct (file_name_good p n Hp En) as [(_ & _ & Hs) _]. destruct (rsplit_once "." n) as [[stem ext]|] eqn:Er; [|by intros [= <-]].
  destruct (is_empty stem); intros [= <-]; [done|]. apply rsplit_once_sound in Er as [Er _]. rewrite Er in Hs. by apply no_slash_prefix in Hs.
Qed.
Lemma candidate_name id : is_empty id = false -> contains_char "/" id = false ->
  good_name (id ++ ".jsonl") /\ (id ++ ".jsonl") <> "..".
Proof.
  intros He Hs. destruct id as [|x id]; [done|]. split; [split_and!|].
  - done.
  - cbn. intros [= _ Hx]. by destruct id.
  - clear He. revert Hs. generalize (String x id). intros s. induction s as [|c s IH]; [done|].
    cbn [String.append contains_char]. intros [-> Hs]%orb_false_iff. by apply IH.
  - cbn. intros [= _ Hx]. destruct id as [|y id]; [done|]. cbn in Hx. injection Hx as _ Hx. by destruct id.
Qed.
Lemma resolved_stem recorded p :
  resolve_path_of view (cf_agent_dir cf) (cf_sessions_dir cf) recorded = Some p ->
  path_shape p /\ is_Some (file_stem p) /\ file_stem p = file_stem (path_of_string recorded).
Proof.
  unfold resolve_path_of, resolve_uncached. destruct (view_is_file view (path_of_string recorded)) eqn:Ef.
  { intros [= <-]. split_and!; [apply path_of_string_shape|by apply so_named|done]. }
  pose proof (path_of_string_shape recorded) as Hshape.
  destruct (file_stem (path_of_string recorded)) as [id|] eqn:Es; [|done]. pose proof (stem_no_slash _ _ Hshape Es) as Hs.
  destruct (is_empty id) eqn:Ei; [done|]. destruct (candidate_name id Ei Hs) as [Hc1 Hc2].
  cbn [new_resolver lr_sessions_dir lr_agent_dir lr_artifact_index]. rewrite (join_name _ _ Hc1).
  destruct (view_is_file view (cf_sessions_dir cf ++ [(id ++ ".jsonl")%string])%list).
  - intros [= <-]. assert (file_stem (cf_sessions_dir cf ++ [(id ++ ".jsonl")%string])%list = Some id) as ->.
    { unfold file_stem. rewrite file_name_last by done. change (id ++ ".jsonl") with (id ++ String "." "jsonl").
      rewrite rsplit_once_app by done. by rewrite Ei. }
    split_and!; [|by eexists|done]. apply absolute_shape, absolute_snoc; [by apply so_sessions|done].
  - cbn [fst]. intros Hp. apply artifact_index_ok in Hp as [Hstem Habs]. rewrite Hstem.
    split_and!; [by apply absolute_shape|by eexists|done].
Qed.

Lemma own_resolved parent_file (records : list LedgerRecord) e e' :
  e ∈ rs_edges (fold_records view (fun _ => true) records) ->
  resolve_edge view (cf_agent_dir cf) (cf_sessions_dir cf) e = Some e' -> has_parent sc parent_file e' = true ->
  e_child_id e ∈ own_children parent_file records.
Proof.
  intros He Hr Hp. unfold resolve_edge in Hr. destruct (e_deleted e); [done|].
  destruct (resolve_path_of _ _ _ (e_child e)); [|done]. destruct (resolve_path_of _ _ _ (e_parent e)) as [p|] eqn:Ep; [|done].
  injection Hr as <-. apply bool_decide_eq_true in Hp. cbn in Hp. destruct (resolved_stem _ _ Ep) as (Hshape & [n Hn] & Hstem).
  rewrite path_text_round_trip in Hp by done. apply so_stem in Hn as Hc; [|done|done]. rewrite Hp in Hc.
  apply fold_from_spawn in He as (child & depth & name & Hin). unfold own_children. apply list_elem_of_fmap.
  exists (Spawn (e_child_id e) (e_parent e) child depth name). split; [done|].
  apply list_elem_of_In, List.filter_In. split; [by apply list_elem_of_In|]. apply bool_decide_eq_true. congruence.
Qed.
Lemma filter_omap_own {A} (keep q : A -> bool) (f : A -> option A) (l : list A) :
  (forall x y, x ∈ l -> f x = Some y -> q y = true -> keep x = true) ->
  List.filter q (omap f (List.filter keep l)) = List.filter q (omap f l).
Proof.
  induction l as [|x l IH]; intros Hk; [done|]. cbn [List.filter]. specialize (IH (fun a b Ha => Hk a b (list_elem_of_further _ _ _ Ha))).
  destruct (keep x) eqn:Ek; cbn [omap list_omap].
  - destruct (f x); cbn [List.filter]; [|done]. by rewrite IH.
  - rewrite IH. destruct (f x) as [y|] eqn:Ef; [|done]. cbn [List.filter]. destruct (q y) eqn:Eq; [|done].
    assert (keep x = true) by (apply (Hk x y); [by left|done..]). congruence.
Qed.

(** C39: a parent's read returns exactly the live edges whose resolved parent
    is that parent's file, although it folds and resolves only the records of
    its own children. *)
Theorem parent_sees_its_children parent_file s all s1 own s2 :
  settled s -> coherent sc s -> Forall plain_id (records_of (content s)) -> readable (content s) = true ->
  live_edges cf sc s = (Ok all, s1) -> live_edges_of_parent cf sc parent_file s = (Ok own, s2) ->
  own = List.filter (has_parent sc (canonical_session_path view parent_file)) all.
Proof.
  intros Hs Hc Hplain Hread Hall Hown.
  unfold live_edges in Hall. apply lbind_inv in Hall as [([] & a1 & A1 & Hall)|[(e & _ & He)|[_ He]]]; [|done..].
  pose proof (sound_seed_once cf sc _ _ _ A1) as [_ C1]. apply (seed_once_alone cf sc Halone) in A1 as ((U1 & _ & V1) & _); [|done].
  apply lbind_inv in Hall as [(st & a2 & A2 & [= <- <-])|[(e & _ & He)|[_ He]]]; [|done..].
  apply (replay_table cf sc Halone) in A2 as (_ & _ & _ & ->); [|by auto..]. rewrite U1.
  unfold live_edges_of_parent in Hown. apply lbind_inv in Hown as [([] & b1 & B1 & Hown)|[(e & _ & He)|[_ He]]]; [|done..].
  apply (seed_once_alone cf sc Halone) in B1 as ((W1 & _ & X1) & _); [|done]. specialize (X1 Hs).
  apply lbind_inv in Hown as [(st & b2 & B2 & [= <- <-])|[(e & _ & He)|[_ He]]]; [|done..].
  unfold replay_of_parent in B2. apply lbind_inv in B2 as [(records & b3 & B3 & [= <- <-])|[(e & _ & He)|[_ He]]]; [|done..].
  assert (records = records_of (content s)) as ->.
  { unfold read_records in B3. apply lbind_inv in B3 as [(x & b4 & B4 & B5)|[(e & _ & He)|[_ He]]]; [|done..].
    unfold ltry in B4. destruct (lquery sc _ b1) as [r b5] eqn:Hq. apply (lquery_alone sc Halone) in Hq as (_ & _ & _ & Hv).
    destruct X1 as [c Hcf]. rewrite Hcf in Hv. assert (content s = c) as Hcc by (rewrite <- W1; unfold content; by rewrite Hcf).
    destruct r as [b|e|]; [|by destruct Hv|done]. injection Hv as <-. injection B4 as <- <-. cbn in B5. unfold llift in B5.
    rewrite <- Hcc in B5. pose proof (decode_records_spec cf (content s)) as Hd. rewrite Hread in Hd. rewrite Hd in B5. by injection B5 as <-. }
  unfold resolve_live_edges, fresh_resolver. rewrite !(resolve_edges_ok _ _ _ _ _ (new_pass_ok _ _ _)).
  rewrite fold_restricts by done. unfold replay_of. apply filter_omap_own.
  intros e e' He Hr Hp. apply bool_decide_eq_true. by eapply own_resolved.
Qed.
End Children.
