(* ===== verification/LedgerSim.v ===== *)
(** * A concrete text of documents

    An instance of the environment in which every document has a text of one
    line, used to evaluate the spawn ledger: the text is the document's code in
    binary digits between braces. *)
From Stdlib Require Import SpecFloat.
From stdpp Require Import countable.
From S2P Require Import Prelude RustStr Lines Json Time World LedgerReplay Ledger LedgerProofs LedgerFile.
#[local] Open Scope string_scope.

(** ** Documents as trees *)
Fixpoint value_tree (v : Value) : gen_tree (string + Z) :=
  match v with
  | VNull => GenNode 0 []
  | VBool b => GenNode (if b then 2 else 1) []
  | VNumber n => GenNode 3 [GenLeaf (inr n)]
  | VFloat t => GenNode 4 [GenLeaf (inl t)]
  | VString s => GenNode 5 [GenLeaf (inl s)]
  | VArray l => GenNode 6 (map value_tree l)
  | VObject ms => GenNode 7 (map (fun kv => GenNode 8 [GenLeaf (inl (fst kv)); value_tree (snd kv)]) ms)
  end.
Fixpoint tree_value (t : gen_tree (string + Z)) : Value :=
  match t with
  | GenNode 1 _ => VBool false
  | GenNode 2 _ => VBool true
  | GenNode 3 [GenLeaf (inr n)] => VNumber n
  | GenNode 4 [GenLeaf (inl t)] => VFloat t
  | GenNode 5 [GenLeaf (inl s)] => VString s
  | GenNode 6 l => VArray (map tree_value l)
  | GenNode 7 l => VObject (map (fun t => match t with GenNode 8 [GenLeaf (inl k); v] => (k, tree_value v) | _ => ("", VNull) end) l)
  | _ => VNull
  end.
Fixpoint tree_value_tree (v : Value) : tree_value (value_tree v) = v.
Proof.
  destruct v as [|[]| | | |l|ms]; try reflexivity.
  - cbn. f_equal. rewrite map_map. induction l as [|v l IH]; [reflexivity|]. cbn. f_equal; [apply tree_value_tree|exact IH].
  - cbn. f_equal. rewrite map_map. induction ms as [|[k v] ms IH]; [reflexivity|]. cbn. f_equal; [f_equal; apply tree_value_tree|exact IH].
Qed.

(** ** Binary digits *)
Fixpoint pos_bits (p : positive) : string :=
  match p with xH => "" | xO q => String "0" (pos_bits q) | xI q => String "1" (pos_bits q) end.
Fixpoint bits_pos (s : string) : option positive :=
  match s with
  | EmptyString => Some 1%positive
  | String c s' => if Ascii.eqb c "0" then xO <$> bits_pos s' else if Ascii.eqb c "1" then xI <$> bits_pos s' else None
  end.
Lemma bits_pos_bits p : bits_pos (pos_bits p) = Some p.
Proof. induction p as [p IH|p IH|]; cbn; [by rewrite IH..|done]. Qed.
Definition is_bit (c : ascii) : bool := Ascii.eqb c "0" || Ascii.eqb c "1".
Lemma pos_bits_bits p : str_forall is_bit (pos_bits p) = true.
Proof. by induction p. Qed.

Definition float_text (x : spec_float) : string :=
  match x with S754_finite false m e => pos_bits (countable.encode (m, e)) | _ => "" end.
Definition text_float (t : string) : spec_float :=
  match bits_pos t ≫= countable.decode with Some (m, e) => S754_finite false m e | None => S754_zero false end.

(** ** Reading takes only documents the program prints *)
Fixpoint readable_value (v : Value) : bool :=
  match v with
  | VNull | VBool _ | VString _ => true
  | VNumber n => (-9223372036854775808 <=? n)%Z && (n <=? u64_max)%Z
  | VFloat t => String.eqb t "" || String.eqb (float_text (text_float t)) t
  | VArray l => forallb readable_value l
  | VObject ms => forallb (fun kv => readable_value (snd kv)) ms
  end.
Definition doc_text (v : Value) : string := String "{" (pos_bits (countable.encode (value_tree v)) ++ "}").
Definition read_tree (t : gen_tree (string + Z)) : string + Value :=
  if readable_value (tree_value t) then inr (tree_value t) else inl "number out of range".
Definition read_doc (s : string) : string + Value :=
  match strip_prefix "{" s with
  | Some t =>
      match strip_suffix "}" t with
      | Some body => match bits_pos body ≫= countable.decode with Some tree => read_tree tree | None => inl "expected value" end
      | None => inl "EOF while parsing an object"
      end
  | None => inl "expected value"
  end.
Lemma read_doc_text v : readable_value v = true -> read_doc (doc_text v) = inr v.
Proof.
  intros Hv. unfold read_doc, doc_text. cbn [strip_prefix]. change (Ascii.eqb "{" "{") with true. cbv iota.
  assert (strip_suffix "}" (pos_bits (countable.encode (value_tree v)) ++ "}") = Some (pos_bits (countable.encode (value_tree v)))) as ->
    by by apply strip_suffix_Some.
  rewrite bits_pos_bits. cbn. rewrite countable.decode_encode. unfold read_tree. by rewrite tree_value_tree, Hv.
Qed.

#[export] Instance doc_env : Env := {|
  Bytes := string;
  text_bytes s := s;
  bytes_text s := if is_utf8 s then Some s else None;
  to_string_pretty v := inr (doc_text v);
  from_slice := read_doc;
  from_str := read_doc;
  value_display := doc_text;
  schema_error_text _ := "schema mismatch";
  os_error_text k := match k with NotFound => "No such file or directory (os error 2)" | _ => "I/O error" end;
  Ext := unit;
  git_run x _ _ := (x, GitFail "no such command");
  daemon_connect x _ := (x, ConnectFailed "Connection refused");
  daemon_send x _ := (x, SendFailed "not connected");
  http_post x _ _ _ := (x, HttpFailed "down");
  process_alive _ _ := false;
  flock_held _ _ := false
|}.
#[export] Instance doc_ledger_env : LedgerEnv := {|
  f64_text := float_text; text_f64 := text_float; sha256 s := s
|}.

(** ** The laws *)
Lemma readable_float t : readable_value (VFloat t) = true <-> exists x, is_finite x = true /\ t = float_text x.
Proof.
  cbn. rewrite orb_true_iff, !String.eqb_eq. split.
  - intros [->|Ht]; [by exists (S754_zero false)|]. exists (text_float t). split; [|done].
    unfold text_float. by destruct (bits_pos t ≫= countable.decode) as [[]|].
  - intros (x & _ & ->). destruct x as [| | |[] m e]; try by left. right. unfold text_float. cbn [float_text].
    rewrite bits_pos_bits. cbn [option_bind mbind]. by rewrite countable.decode_encode.
Qed.
Fixpoint readable_printable (v : Value) : readable_value v = true <-> printable v.
Proof.
  destruct v as [|b|n|t|s|l|ms]; [by cbn|by cbn| | |by cbn| |].
  - cbn. rewrite andb_true_iff, !Z.leb_le. tauto.
  - apply readable_float.
  - induction l as [|v l IH]; [split; reflexivity|]. cbn in IH |- *. rewrite andb_true_iff, IH, (readable_printable v). tauto.
  - induction ms as [|[k v] ms IH]; [split; reflexivity|]. cbn in IH |- *. rewrite andb_true_iff, IH, (readable_printable v). tauto.
Qed.
Definition is_plain (c : ascii) : bool := in_range 33 126 c.
Lemma plain_utf8 s : str_forall is_plain s = true -> is_utf8 s = true.
Proof.
  unfold is_utf8. induction s as [|c s IH]; [done|]. cbn. intros [Hc Hs]%andb_true_iff.
  assert (chunk c s = (true, 0%nat)) as ->; [|by apply IH]. unfold chunk, trailing.
  assert (in_range 0 127 c = true) as ->; [|done]. unfold is_plain, in_range in *.
  apply andb_true_iff in Hc as [H1 H2]. apply andb_true_iff. rewrite !N.leb_le in *. lia.
Qed.
Lemma plain_no_char c s : is_plain c = false -> str_forall is_plain s = true -> contains_char c s = false.
Proof.
  intros Hc. induction s as [|d s IH]; [done|]. cbn. intros [Hd Hs]%andb_true_iff. rewrite IH by done.
  destruct (Ascii.eqb c d) eqn:E; [|done]. apply Ascii.eqb_eq in E. congruence.
Qed.
Lemma bits_plain s : str_forall is_bit s = true -> str_forall is_plain s = true /\ contains_char "}" s = false.
Proof.
  induction s as [|c s IH]; [done|]. cbn [str_forall contains_char]. intros [Hc Hs]%andb_true_iff. destruct (IH Hs) as [-> ->].
  apply orb_true_iff in Hc as [Hc|Hc]; apply Ascii.eqb_eq in Hc as ->; done.
Qed.
Lemma doc_text_plain v : str_forall is_plain (doc_text v) = true.
Proof.
  unfold doc_text. cbn [str_forall]. rewrite str_forall_app. by rewrite (proj1 (bits_plain _ (pos_bits_bits _))).
Qed.
Lemma trim_head_contains c measure k s : contains_char c s = false -> contains_char c (trim_head measure k s) = false.
Proof.
  revert k. induction s as [|d s IH]; intros k Hs; [done|]. cbn [trim_head]. pose proof Hs as Hs'.
  cbn [contains_char] in Hs'. apply orb_false_iff in Hs' as [_ Hs']. repeat case_match; auto.
Qed.
Lemma contains_char_rev c s : contains_char c (str_rev s) = contains_char c s.
Proof.
  induction s as [|d s IH]; [done|]. rewrite str_rev_cons, contains_char_app, IH. cbn [contains_char]. by rewrite orb_false_r, orb_comm.
Qed.
Lemma trim_contains c s : contains_char c s = false -> contains_char c (trim s) = false.
Proof.
  intros Hs. unfold trim, trim_end, trim_start. rewrite contains_char_rev. apply trim_head_contains.
  rewrite contains_char_rev. by apply trim_head_contains.
Qed.
Lemma open_doc s : contains_char "}" s = false -> exists e, read_doc s = inl e.
Proof.
  intros Hs. unfold read_doc. destruct (strip_prefix "{" s) as [t|] eqn:E; [|by eexists]. apply strip_prefix_Some in E as ->.
  destruct (strip_suffix "}" t) as [b|] eqn:E; [|by eexists]. apply strip_suffix_Some in E as ->.
  rewrite !contains_char_app in Hs. cbn in Hs. by rewrite !orb_true_r in Hs.
Qed.
Lemma str_take_forall p n s : str_forall p s = true -> str_forall p (str_take n s) = true.
Proof. revert n. induction s as [|c s IH]; intros [|n]; cbn; [done..|]. intros [-> Hs]%andb_true_iff. by apply IH. Qed.

#[export] Instance doc_lines : JsonLines.
Proof.
  split.
  - intros v. apply plain_utf8, doc_text_plain.
  - intros v. apply plain_no_char; [done|apply doc_text_plain].
  - intros ms. by eexists.
  - intros v Hv. apply read_doc_text. by apply readable_printable.
  - intros ms n Hn. cbn [value_display doc_env] in *. unfold doc_text in *.
    set (bits := pos_bits _) in *. assert (str_forall is_bit bits = true) as Hb by apply pos_bits_bits.
    apply open_doc, trim_contains. rewrite from_utf8_lossy_valid.
    2: { apply plain_utf8, str_take_forall. cbn [str_forall]. rewrite str_forall_app. by rewrite (proj1 (bits_plain _ Hb)). }
    destruct n as [|n]; [done|]. cbn [str_take contains_char]. change (Ascii.eqb "}" "{") with false. cbn [orb].
    assert (n <= len bits)%nat as Hle. { unfold len in *. cbn in Hn. fold (len (bits ++ "}")) in Hn. rewrite str_len_app in Hn. cbn in Hn. unfold len in Hn. lia. }
    rewrite str_take_short by done. apply bits_plain. by apply str_take_forall.
  - intros x Hf Hs. cbn. unfold text_float, float_text. destruct x as [s| | |s m e]; try done.
    cbn in Hs. subst s. rewrite bits_pos_bits. cbn [option_bind mbind]. rewrite countable.decode_encode. done.
Qed.
