(* ===== verification/LedgerWitnesses.v ===== *)
(** * The spawn ledger on a concrete file system *)
From Stdlib Require Import SpecFloat.
From S2P Require Import Prelude RustStr Lines Json Time World LedgerReplay Paths Ledger LedgerProofs LedgerSeed LedgerUsage.
From S2P Require Import LedgerFile LedgerTheorems LedgerInvariant LedgerQueries LedgerSim.
#[local] Open Scope string_scope.
#[local] Open Scope Z_scope.

(** A sessions directory with a parent and two children. *)
Definition home : path := ["/"; "a"].
Definition sessions : path := ["/"; "a"; "s"].
Definition file_p : path := ["/"; "a"; "s"; "p.jsonl"].
Definition file_c : path := ["/"; "a"; "s"; "c.jsonl"].
Definition file_d : path := ["/"; "a"; "s"; "d.jsonl"].
Definition known_paths : list path := [["/"]; home; sessions; file_p; file_c; file_d].
Definition demo_realpath (p : path) : option path := if bool_decide (p ∈ known_paths) then Some p else None.
Definition demo_files : gmap path string := {[file_p := "{}"; file_c := "{}"; file_d := "{}"]}.
Definition demo_dirs : gmap path (list string) := {[sessions := ["p.jsonl"; "c.jsonl"; "d.jsonl"]]}.
Definition demo_view : View := mkView demo_realpath demo_files demo_dirs None.
Definition demo_conf : Conf := open_ledger demo_view home sessions.
Definition scene (fault : nat -> lfault) : Scene :=
  mkScene demo_view fault (fun _ => []) (fun n => (Some 5, Some 7)) (fun n => 1700000000000 + Z.of_nat n) (fun l => l).
Definition calm_scene : Scene := scene (fun _ => LRun).
Definition name_p : string := "/a/s/p.jsonl".
Definition name_c : string := "/a/s/c.jsonl".
Definition name_d : string := "/a/s/d.jsonl".

Definition good_nameb (c : string) : bool := negb (is_empty c) && negb (String.eqb c ".") && negb (contains_char "/" c).
Lemma good_nameb_sound c : good_nameb c = true -> good_name c.
Proof.
  unfold good_nameb. rewrite !andb_true_iff, !negb_true_iff. intros [[H1 H2] H3]. apply String.eqb_neq in H2.
  split_and!; [|done|done]. by intros ->.
Qed.
Lemma last_split (p : path) n : last p = Some n -> p = (removelast p ++ [n])%list.
Proof. intros Hl. apply last_Some in Hl as [q ->]. by rewrite removelast_last. Qed.
Lemma parent_removelast p d : parent p = Some d -> d = removelast p.
Proof. unfold parent. intros Hd. repeat case_match; simplify_eq; done. Qed.
Lemma demo_view_ok : view_ok demo_view.
Proof.
  split.
  - intros p q. cbn. unfold demo_realpath. case_bool_decide as Hp; [|done]. intros [= <-].
    repeat (apply elem_of_cons in Hp as [-> |Hp];
      [eexists; split; [reflexivity|repeat (constructor; [by apply good_nameb_sound|]); constructor]|]).
    by apply elem_of_nil in Hp.
  - intros p q. cbn. unfold demo_realpath. case_bool_decide as Hp; [|done]. intros [= <-]. by rewrite bool_decide_eq_true_2.
  - intros p d d' n Hp Hd Hd' Hn. cbn in *. unfold demo_realpath in *. case_bool_decide as Hkd; [|done]. injection Hd' as <-.
    assert (p = (d ++ [n])%list) as <-; [|done]. unfold file_name in Hn. destruct (last p) as [c|] eqn:El; [|done].
    destruct (_ || _ || _); [done|]. injection Hn as ->. rewrite (last_split p n El). f_equal.
    symmetry. by apply parent_removelast.
Qed.
Lemma calm_alone : alone calm_scene.
Proof. by split. Qed.

Definition spawn_c : RlmSpawnInput := mkSpawnInput "k1" name_p name_c 1 "worker".
Definition spawn_d : RlmSpawnInput := mkSpawnInput "k2" name_c name_d 2 "helper".
Definition l0 : LState := fresh_process (Some "").
Definition l1 : LState := (run_ledger demo_conf calm_scene (OpLedgerSpawn spawn_c) l0).2.
Definition l2 : LState := (run_ledger demo_conf calm_scene (OpLedgerSpawn spawn_d) l1).2.
Definition edges_in (s : LState) : list RlmLedgerEdge := rs_edges (fold_records demo_view (fun _ => true) (records_of (content s))).
Definition edge_c : RlmLedgerEdge := mkEdge "k1" name_p name_c 1 "worker" None None.
Definition edge_d : RlmLedgerEdge := mkEdge "k2" name_c name_d 2 "helper" None None.
Example spawned : edges_in l2 = [edge_c; edge_d].
Proof. vm_compute. reflexivity. Qed.

(** ** Appending and replaying *)
(** The process dies while it writes the second record: half a line is left. *)
Definition dying_scene : Scene := scene (fun n => if Nat.eqb n 16 then LDie 40 else LRun).
Definition l_torn : LState := (run_ledger demo_conf dying_scene (OpLedgerSpawn spawn_d) l1).2.
Definition spawn_doc : list (string * Value) :=
  [("v", VNumber 1); ("op", VString "spawn"); ("at", VString "now"); ("childId", VString "k2"); ("parent", VString name_c);
   ("child", VString name_d); ("depth", VNumber 2); ("name", VString "helper")].
Definition l_mended : LState := (append_record demo_conf calm_scene (VObject spawn_doc) (fresh_process (ls_file l_torn))).2.
#[local] Strategy expand [edges_in l_torn l_mended calm_scene scene].
Example mended : edges_in l_mended = [edge_c; edge_d].
Proof. vm_compute. reflexivity. Qed.

Lemma coherent_l2 : coherent calm_scene l2.
Proof. intros id st. assert (ls_cache l2 = None) as -> by (vm_compute; reflexivity). done. Qed.
Definition l_read : LState := (replay_cached demo_conf calm_scene l2).2.
Lemma coherent_read : coherent calm_scene l_read.
Proof.
  unfold l_read. pose proof (replay_cached_inv demo_conf calm_scene l2 _ _ coherent_l2
    (alone_steady _ calm_alone (S (ls_step l2))) (surjective_pairing _)) as (_ & Hc & _). exact Hc.
Qed.
Lemma replay_is_current_witness :
  is_Some (ls_cache l_read) /\
  exists st, (replay_cached demo_conf calm_scene l_read).1 = Ok st /\
    exists c, below (content l_read) c /\ below c (content (replay_cached demo_conf calm_scene l_read).2)
              /\ readable c = true /\ st = replay_of calm_scene c.
Proof.
  split; [vm_compute; by eexists|].
  pose proof (replay_is_current demo_conf calm_scene l_read _ _ coherent_read
    (alone_steady _ calm_alone (S (ls_step l_read))) (surjective_pairing _)) as (_ & _ & Hc).
  assert (is_ok (replay_cached demo_conf calm_scene l_read).1 = true) as Hok by (vm_compute; reflexivity).
  destruct ((replay_cached demo_conf calm_scene l_read).1) as [st|e|]; [|discriminate Hok..]. exists st. split; [reflexivity|exact Hc].
Defined.

Lemma plain_by_test rs : forallb (fun r => negb (contains_char nul (record_child_id r))) rs = true -> Forall plain_id rs.
Proof. rewrite forallb_forall. intros Hb. apply Forall_forall. intros r Hr. apply negb_true_iff, Hb. by apply list_elem_of_In. Qed.
Lemma plain_l2 : Forall plain_id (records_of (content l2)).
Proof. apply plain_by_test. vm_compute. reflexivity. Qed.
Lemma parent_replay_is_restriction_witness :
  rs_edges (fold_records demo_view (fun id => bool_decide (id ∈ own_children file_p (records_of (content l2)))) (records_of (content l2)))
  = [edge_c].
Proof.
  refine (eq_trans (parent_replay_is_restriction demo_view file_p (records_of (content l2)) plain_l2) _).
  vm_compute. reflexivity.
Defined.

(** ** One live edge per path *)
Lemma history_l2 : history demo_conf demo_view l2.
Proof.
  apply (history_op _ _ calm_scene (OpLedgerSpawn spawn_d) l1 (run_ledger demo_conf calm_scene (OpLedgerSpawn spawn_d) l1).1 l2);
    [done|apply calm_alone|done| |apply surjective_pairing].
  apply (history_op _ _ calm_scene (OpLedgerSpawn spawn_c) l0 (run_ledger demo_conf calm_scene (OpLedgerSpawn spawn_c) l0).1 l1);
    [done|apply calm_alone|done|constructor|apply surjective_pairing].
Qed.
(** A third child may not take the path of the second. *)
Definition l3 : LState := (run_ledger demo_conf calm_scene (OpLedgerSpawn (mkSpawnInput "k3" name_p name_d 1 "thief")) l2).2.
Lemma history_l3 : history demo_conf demo_view l3.
Proof.
  apply (history_op _ _ calm_scene (OpLedgerSpawn (mkSpawnInput "k3" name_p name_d 1 "thief")) l2
    (run_ledger demo_conf calm_scene (OpLedgerSpawn (mkSpawnInput "k3" name_p name_d 1 "thief")) l2).1 l3);
    [done|apply calm_alone|done|apply history_l2|apply surjective_pairing].
Qed.

(** ** Tombstones *)
Definition demo_usage : SessionUsageSummary := mkUsage 10 20 (S754_finite false 1 0).
Definition tombstoned : result anyhow (list RlmLedgerEdge) * LState :=
  tombstone_child_path_with_usage demo_conf calm_scene name_c User (Some demo_usage) l2.
Lemma settled_l2 : settled l2.
Proof. vm_compute. by eexists. Qed.
#[local] Strategy expand [tombstoned].
Lemma usage_ok_demo : usage_ok (Some demo_usage).
Proof. by vm_compute. Qed.
Lemma tombstoned_ok : tombstoned.1 = Ok [edge_c].
Proof. vm_compute. reflexivity. Qed.
Lemma run_result {E A} (p : result E A * LState) r : p.1 = r -> p = (r, p.2).
Proof. destruct p. by intros <-. Qed.
Lemma tombstoned_run :
  tombstone_child_path_with_usage demo_conf calm_scene name_c User (Some demo_usage) l2 = (Ok [edge_c], tombstoned.2).
Proof. exact (run_result tombstoned (Ok [edge_c]) tombstoned_ok). Qed.
Lemma tombstone_ends_path_witness :
  tombstoned.1 = Ok [edge_c] /\
  edges_in tombstoned.2 = [delete_edge User (Some demo_usage) edge_c; edge_d].
Proof.
  split; [exact tombstoned_ok|].
  pose proof (tombstone_ends_path demo_conf calm_scene calm_alone demo_view_ok name_c User (Some demo_usage) l2 [edge_c] tombstoned.2
    usage_ok_demo settled_l2 coherent_l2 plain_l2 tombstoned_run) as [_ Ha].
  unfold edges_in. cbn [sc_view calm_scene scene] in Ha. rewrite Ha. fold (edges_in l2). rewrite spawned. vm_compute. reflexivity.
Defined.

(** ** A parent's own read *)
Lemma demo_sessions_ok : sessions_ok demo_conf calm_scene.
Proof.
  assert (forall c, good_nameb c = true -> absolute ["/"; c]) as Habs.
  { intros c Hc. exists [c]. split; [done|]. constructor; [by apply good_nameb_sound|constructor]. }
  split.
  - by apply (Habs "a").
  - exists ["a"; "s"]. split; [vm_compute; reflexivity|]. repeat (constructor; [by apply good_nameb_sound|]). constructor.
  - intros d names n Hd Hn. cbn [sc_view calm_scene scene v_dirs demo_view] in Hd. unfold demo_dirs in Hd.
    apply lookup_singleton_Some in Hd as [_ <-].
    repeat (apply elem_of_cons in Hn as [-> |Hn]; [by apply good_nameb_sound|]). by apply elem_of_nil in Hn.
  - intros q. cbn [sc_view calm_scene scene]. unfold view_is_file, view_read, demo_view. cbn [v_realpath v_files].
    unfold demo_realpath. case_bool_decide as Hq; [|done].
    repeat (apply elem_of_cons in Hq as [-> |Hq]; [vm_compute; first [done|by eexists]|]). by apply elem_of_nil in Hq.
  - intros q n Hq Hn. cbn [sc_view calm_scene scene]. enough (canonical_session_path demo_view q = q) as -> by done.
    unfold canonical_session_path, demo_view. cbn [v_realpath]. unfold demo_realpath at 1. case_bool_decide; [done|].
    destruct (parent q) as [d|] eqn:Ed; [|done]. unfold demo_realpath. case_bool_decide; [|done].
    unfold file_stem in Hn. destruct (file_name q) as [c|] eqn:Ec; [|done].
    destruct (file_name_good q c Hq Ec) as [Hg _]. change (default "" (Some c)) with c. rewrite (join_name d c Hg).
    rewrite (parent_removelast _ _ Ed). symmetry. apply last_split. unfold file_name in Ec.
    destruct (last q) as [x|]; [|done]. by destruct (_ || _ || _); simplify_eq.
Qed.
Definition all_read : result anyhow (list RlmLedgerEdge) * LState := live_edges demo_conf calm_scene l2.
Definition own_read : result anyhow (list RlmLedgerEdge) * LState := live_edges_of_parent demo_conf calm_scene file_p l2.
#[local] Strategy expand [all_read own_read].
Lemma all_read_ok : all_read.1 = Ok [edge_c; edge_d].
Proof. vm_compute. reflexivity. Qed.
Lemma own_read_ok : own_read.1 = Ok [edge_c].
Proof. vm_compute. reflexivity. Qed.
Lemma readable_l2 : readable (content l2) = true.
Proof. vm_compute. reflexivity. Qed.
Lemma parent_sees_its_children_witness :
  [edge_c] = List.filter (has_parent calm_scene (canonical_session_path demo_view file_p)) [edge_c; edge_d].
Proof.
  exact (parent_sees_its_children demo_conf calm_scene calm_alone demo_sessions_ok file_p l2 [edge_c; edge_d] all_read.2 [edge_c] own_read.2
    settled_l2 coherent_l2 plain_l2 readable_l2 (run_result all_read _ all_read_ok) (run_result own_read _ own_read_ok)).
Defined.

(** ** The spend of a deleted family *)
Definition gone_c : RlmLedgerEdge := mkEdge "k1" "/a/s/p.jsonl" "/a/x/c.jsonl" 1 "worker" (Some User) (Some (mkUsage 10 20 (S754_finite false 1 0))).
Definition gone_d : RlmLedgerEdge := mkEdge "k2" "/a/x/c.jsonl" "/a/x/d.jsonl" 2 "helper" (Some User) (Some (mkUsage 1 2 f64_zero)).
Definition gone_family : Family := family demo_view sessions [gone_c; gone_d].
Definition gone_rank (p : string) : nat :=
  if String.eqb p "/a/s/p.jsonl" then 2%nat else if String.eqb p "/a/x/c.jsonl" then 1%nat else 0%nat.
Lemma gone_children : fam_children gone_family = {["/a/x/c.jsonl" := ["/a/x/d.jsonl"]; "/a/s/p.jsonl" := ["/a/x/c.jsonl"]]}.
Proof. vm_compute. reflexivity. Qed.
Lemma gone_ranked p c : c ∈ children gone_family p -> (gone_rank c < gone_rank p)%nat.
Proof.
  unfold children. rewrite gone_children.
  destruct (decide (p = "/a/x/c.jsonl")) as [-> |Hc]; [|rewrite lookup_insert_ne by done; destruct (decide (p = "/a/s/p.jsonl")) as [-> |Hp]].
  - rewrite lookup_insert_eq. intros ->%list_elem_of_singleton. vm_compute. lia.
  - rewrite lookup_singleton_eq. intros ->%list_elem_of_singleton. vm_compute. lia.
  - rewrite lookup_singleton_ne by done. by intros ?%elem_of_nil.
Qed.
Lemma usage_rollup_bills_subtrees_witness :
  exists m, rollup gone_family (fun _ => None) (fun l => l) = Some m /\
    (u_input_tokens <$> m !! "/a/s/p.jsonl") = Some 11 /\
    (forall p q c, c ∈ children gone_family p -> c ∈ children gone_family q -> p = q).
Proof.
  destruct (usage_rollup_bills_subtrees demo_view sessions [gone_c; gone_d] (fun _ => None) (fun l => l) gone_rank
    (fun l => reflexivity l) gone_ranked) as (total & m & _ & Hm & _ & _ & Hone).
  exists m. split; [exact Hm|]. split; [|exact Hone].
  assert (match rollup gone_family (fun _ => None) (fun l => l) with
          | Some m => u_input_tokens <$> m !! "/a/s/p.jsonl" | None => None end = Some 11) as He by (vm_compute; reflexivity).
  unfold gone_family in He. rewrite Hm in He. exact He.
Defined.

(** ** Seeding from registries that name each other in a circle *)
Definition header (id : string) : string := line_of (VObject [("id", VString id)]).
Definition legacy_entry (id file : string) : string :=
  line_of (VObject [("childId", VString id); ("sessionFile", VString file); ("status", VString "running")]).
Definition registry_of (id : string) : path := ["/"; "a"; "session-artifacts"; id; "rlm-subagents.jsonl"].
Definition legacy_files : gmap path string :=
  {[file_p := header "P"; file_c := header "C"; registry_of "P" := legacy_entry "k1" name_c;
    registry_of "C" := legacy_entry "k0" name_p ++ legacy_entry "k2" name_d]}.
Definition legacy_view : View := mkView (fun p => Some p) legacy_files ∅ None.
Definition legacy_scene : Scene :=
  mkScene legacy_view (fun _ => LRun) (fun _ => []) (fun _ => (None, None)) (fun _ => 0) (fun l => l).
Lemma seeding_ends_witness :
  exists records (cs : list path),
    seed_walk legacy_scene (seed_fuel legacy_scene 1) "now" (mkSeed [(file_p, 0)] [file_p] []) = Some records /\
    map record_child records = [Some name_c; Some name_d] /\ NoDup cs /\ map record_child records = map (fun p => Some (path_display p)) cs.
Proof.
  destruct (seeding_ends legacy_scene [file_p] "now" (fun l => reflexivity l)) as (records & cs & Hw & Hn & _ & Hr).
  exists records, cs.
  assert (seed_roots [file_p] = [(file_p, 0)]) as Hs by (vm_compute; reflexivity). rewrite Hs in Hw.
  assert (seed_walk legacy_scene (seed_fuel legacy_scene 1) "now" (mkSeed [(file_p, 0)] [file_p] []) = Some records) as Hw' by exact Hw.
  split; [exact Hw'|]. split; [|split; [exact Hn|exact Hr]].
  assert (map record_child <$> seed_walk legacy_scene (seed_fuel legacy_scene 1) "now" (mkSeed [(file_p, 0)] [file_p] [])
          = Some [Some name_c; Some name_d]) as He by (vm_compute; reflexivity).
  rewrite Hw' in He. injection He as He. exact He.
Defined.

(** ** What the spawn ledger's model showed

    Behaviours of the ledger that differ from what a comment or the
    surrounding code says, each evaluated on the file system
    above. *)
(** A read of the ledger that fails after its stat succeeded replays as an
    empty ledger.  The duplicate check of [append_spawn] is then vacuous: a
    second live child takes a path that is taken ... *)
Definition flaky_scene : Scene := scene (fun n => if Nat.eqb n 1 then LFail OtherIo 0 else LRun).
Definition thief : RlmSpawnInput := mkSpawnInput "k3" name_p name_d 1 "thief".
Definition robbed : result anyhow unit * LState :=
  run_ledger demo_conf flaky_scene (OpLedgerSpawn thief) (fresh_process (ls_file l2)).
Example read_failure_reopens_path :
  robbed.1 = Ok tt /\ edges_in robbed.2 = [edge_c; edge_d; mkEdge "k3" name_p name_d 1 "thief" None None].
Proof. vm_compute. split; reflexivity. Qed.
(** ... and the empty replay is kept under the identity of the full file, so
    later reads that would succeed still answer from it. *)
Definition after_flaky_read : LState := (replay_cached demo_conf flaky_scene (fresh_process (ls_file l2))).2.
Example read_failure_is_cached :
  (rs_edges <$> option_map snd (ls_cache after_flaky_read)) = Some [] /\
  match (replay_cached demo_conf calm_scene after_flaky_read).1 with Ok st => rs_edges st | _ => [edge_c] end = [] /\
  edges_in after_flaky_read = [edge_c; edge_d].
Proof. vm_compute. split_and!; reflexivity. Qed.

(** A session file that moved to the sessions directory is a live edge of
    [live_edges] and not one of [edge_is_live]. *)
Definition moved_child : string := "/a/x/d.jsonl".
Definition moved : LState :=
  (run_ledger demo_conf calm_scene (OpLedgerSpawn (mkSpawnInput "k2" name_c moved_child 2 "helper")) l1).2.
Example moved_session_disagrees :
  (live_edges demo_conf calm_scene moved).1 = Ok [edge_c; mkEdge "k2" name_c name_d 2 "helper" None None] /\
  (edge_is_live demo_conf calm_scene "k2" moved_child moved).1 = Ok false /\
  (edge_is_live demo_conf calm_scene "k2" name_d moved).1 = Ok false.
Proof. vm_compute. split_and!; reflexivity. Qed.

(** Child ids are joined to paths by a NUL byte, which nothing keeps out of either:
    two different children can share a key, and a parent's own replay is then
    not the restriction of the full one. *)
Definition odd_id : string := "k" ++ String nul "/x".
Definition odd_path : string := "/x" ++ String nul "/y".
Definition colliding : list LedgerRecord := [Spawn odd_id name_p "/y" 1 "one"; Spawn "k" name_c odd_path 1 "two"].
Example colliding_keys :
  rs_edges (fold_records demo_view (fun id => bool_decide (id ∈ own_children file_p colliding)) colliding)
  = [mkEdge odd_id name_p "/y" 1 "one" None None] /\
  rs_edges (fold_records demo_view (fun _ => true) colliding) = [mkEdge "k" name_c odd_path 1 "two" None None].
Proof. vm_compute. split; reflexivity. Qed.
