(* ===== verification/Effects.v ===== *)
(** * Stateful fallible code

    The monad of the daemon components that keep their own state: a function
    from the state to a [Result] (or a death) and the next state, whatever the
    result. *)
From S2P Require Import Prelude.

Definition SM (S E A : Type) : Type := S -> result E A * S.
Definition sret {S E A} (a : A) : SM S E A := fun s => (Ok a, s).
Definition sthrow {S E A} (e : E) : SM S E A := fun s => (Err e, s).
Definition sbind {S E A B} (m : SM S E A) (f : A -> SM S E B) : SM S E B := fun s =>
  match m s with
  | (Ok a, s') => f a s'
  | (Err e, s') => (Err e, s')
  | (Killed, s') => (Killed, s')
  end.
Definition smap_err {S E F A} (f : E -> F) (m : SM S E A) : SM S F A := fun s =>
  match m s with
  | (Ok a, s') => (Ok a, s')
  | (Err e, s') => (Err (f e), s')
  | (Killed, s') => (Killed, s')
  end.
(** Match on the [Result] of a call instead of returning early. *)
Definition stry {S E F A} (m : SM S E A) : SM S F (E + A) := fun s =>
  match m s with
  | (Ok a, s') => (Ok (inr a), s')
  | (Err e, s') => (Ok (inl e), s')
  | (Killed, s') => (Killed, s')
  end.
Definition slift {S E A} (m : E + A) : SM S E A := fun s =>
  match m with inl e => (Err e, s) | inr a => (Ok a, s) end.
Definition sget {S E A} (f : S -> A) : SM S E A := fun s => (Ok (f s), s).
Definition smodify {S E} (f : S -> S) : SM S E unit := fun s => (Ok tt, f s).
(** [for x in l { m(x)?; }]. *)
Fixpoint sfor_each {S E A} (m : A -> SM S E unit) (l : list A) : SM S E unit :=
  match l with
  | [] => sret tt
  | x :: l' => sbind (m x) (fun _ => sfor_each m l')
  end.
(** A guard's [Drop]: [f] runs when [m] returns an error. *)
Definition son_error {S E A} (f : S -> S) (m : SM S E A) : SM S E A := fun s =>
  match m s with
  | (Ok a, s') => (Ok a, s')
  | (Err e, s') => (Err e, f s')
  | (Killed, s') => (Killed, s')
  end.

Notation "'let+' x ':=' m 'in' k" := (sbind m (fun x => k))
  (at level 10, x name, m at level 100, k at level 200) : bb_scope.
Notation "'do+' m 'in' k" := (sbind m (fun _ => k))
  (at level 10, m at level 100, k at level 200) : bb_scope.

(** ** Postconditions

    [spec P m Q]: from a state satisfying [P], whatever [m] answers is related
    to the state it leaves by [Q]. *)
Section Spec.
Context {S E : Type}.

Definition spec {A} (P : S -> Prop) (m : SM S E A) (Q : result E A -> S -> Prop) : Prop :=
  forall s, P s -> Q (fst (m s)) (snd (m s)).

Lemma spec_ret {A} P (a : A) (Q : result E A -> S -> Prop) :
  (forall s, P s -> Q (Ok a) s) -> spec P (sret a) Q.
Proof. intros HQ s Hs. by apply HQ. Qed.
Lemma spec_throw {A} P (e : E) (Q : result E A -> S -> Prop) :
  (forall s, P s -> Q (Err e) s) -> spec P (sthrow e) Q.
Proof. intros HQ s Hs. by apply HQ. Qed.
(** The postcondition of the first part holds for what ends there and is what
    the rest starts from. *)
Lemma spec_bind {A B} P (m : SM S E A) (f : A -> SM S E B) R (Q : result E B -> S -> Prop) :
  spec P m R ->
  (forall a, spec (R (Ok a)) (f a) Q) ->
  (forall e s, R (Err e) s -> Q (Err e) s) ->
  (forall s, R Killed s -> Q Killed s) ->
  spec P (sbind m f) Q.
Proof.
  intros Hm Hf He Hk s Hs. specialize (Hm s Hs). unfold sbind.
  destruct (m s) as [[a|e|] s']; cbn in *; [by apply Hf | by apply He | by apply Hk].
Qed.
Lemma spec_weaken {A} P P' (m : SM S E A) (Q Q' : result E A -> S -> Prop) :
  spec P m Q -> (forall s, P' s -> P s) -> (forall r s, Q r s -> Q' r s) -> spec P' m Q'.
Proof. intros Hm HP HQ s Hs. by apply HQ, Hm, HP. Qed.
Lemma spec_get {A} P (f : S -> A) (Q : result E A -> S -> Prop) :
  (forall s, P s -> Q (Ok (f s)) s) -> spec P (sget f) Q.
Proof. intros HQ s Hs. by apply HQ. Qed.
Lemma spec_modify P (f : S -> S) (Q : result E unit -> S -> Prop) :
  (forall s, P s -> Q (Ok tt) (f s)) -> spec P (smodify f) Q.
Proof. intros HQ s Hs. by apply HQ. Qed.
(** A fact of the precondition that is not about the state. *)
Lemma spec_fact {A} (P : S -> Prop) (phi : Prop) (m : SM S E A) Q :
  (phi -> spec P m Q) -> spec (fun s => P s /\ phi) m Q.
Proof. intros Hm s [Hs Hp]. by apply Hm. Qed.
End Spec.
