(* ===== verification/Protocol.v ===== *)
(** * Answers of the daemon

    The response of a command ([protocol.rs], [pa-types/daemon/outbound.rs]),
    shared by the supervisor's routes and the worker's handlers. *)
From S2P Require Import Prelude Json.

Inductive DaemonErrorInfo :=
| MissingSessionCwd (issue : Value)
| SessionImportFileNotFound (file_path : string)
| SessionAlreadyActive (session_path : string) (active_session_id : option string)
| SessionRecovering (active_session_id : string)
| UpdateRestarting
| CommandResultUncertain (client_id command_id : string)
| UpdatePrepareRefused (active_update_id : string)
| ModelProviderUnauthenticated (provider : string)
| WorkerOverloaded
| UnknownErrorInfo.

Record DaemonResponse := mkResponse {
  dr_id : option string;
  dr_command : string;
  dr_success : bool;
  dr_data : option Value;
  dr_error : option string;
  dr_error_info : option DaemonErrorInfo
}.
Definition response_success (id : option string) (command : string) (data : option Value) : DaemonResponse :=
  mkResponse id command true data None None.
Definition response_failure (id : option string) (command error : string) (info : option DaemonErrorInfo) : DaemonResponse :=
  mkResponse id command false None (Some error) info.
