(* ===== verification/Slash.v ===== *)
(** * Slash commands

    [pa-types/slash_commands.rs]: the table of builtin commands, the parser of
    a command line, which commands the session itself executes, and the
    suggestion for a mistyped name. *)
From S2P Require Import Prelude RustStr.
#[local] Open Scope string_scope.

Inductive SlashCommandExecution := Client | Session.
(** Without the texts shown to the user. *)
Record BuiltinSlashCommand := mkBuiltin {
  bc_name : string;
  bc_execution : SlashCommandExecution;
  bc_aliases : list string;
  bc_takes_argument : bool
}.
Definition CANONICAL_BUILTIN_SLASH_COMMANDS : list BuiltinSlashCommand :=
  [
   mkBuiltin "settings" Client [] false;
   mkBuiltin "model" Client [] false;
   mkBuiltin "effort" Client ["thinking"] false;
   mkBuiltin "fast" Client [] false;
   mkBuiltin "tier" Client [] false;
   mkBuiltin "export" Client [] true;
   mkBuiltin "import" Client [] true;
   mkBuiltin "share" Client [] false;
   mkBuiltin "copy" Client [] false;
   mkBuiltin "btw" Client ["side"] true;
   mkBuiltin "name" Client ["rename"] true;
   mkBuiltin "session" Client [] false;
   mkBuiltin "system-prompt" Client [] false;
   mkBuiltin "logs" Client [] false;
   mkBuiltin "traces" Client [] false;
   mkBuiltin "telemetry" Client [] true;
   mkBuiltin "context" Client ["usage"] false;
   mkBuiltin "changelog" Client [] false;
   mkBuiltin "update" Client [] false;
   mkBuiltin "nightly" Client [] true;
   mkBuiltin "hotkeys" Client [] false;
   mkBuiltin "fork" Client [] false;
   mkBuiltin "clone" Client [] false;
   mkBuiltin "tree" Client [] false;
   mkBuiltin "login" Client [] false;
   mkBuiltin "logout" Client [] false;
   mkBuiltin "mcp" Client [] false;
   mkBuiltin "plugins" Client [] true;
   mkBuiltin "new" Client ["clear"] true;
   mkBuiltin "compact" Session [] false;
   mkBuiltin "refine" Session [] false;
   mkBuiltin "goal" Session [] true;
   mkBuiltin "autonomous" Session [] true;
   mkBuiltin "rlm-max-depth" Client [] true;
   mkBuiltin "heartbeat" Client [] true;
   mkBuiltin "heartbeats" Client [] false;
   mkBuiltin "factory" Client [] true;
   mkBuiltin "resume" Client [] true;
   mkBuiltin "reload" Client [] false;
   mkBuiltin "speed" Client [] true;
   mkBuiltin "quit" Client [] false].
Definition SESSION_SLASH_COMMAND_NAMES : list string := ["compact"; "refine"; "goal"; "autonomous"].
Definition is_session_slash_command_name (value : string) : bool := bool_decide (value ∈ SESSION_SLASH_COMMAND_NAMES).

(** ** The registry *)
Record SlashCommandRegistry := mkRegistry {
  rg_by_name : gmap string BuiltinSlashCommand;
  rg_alias_to_name : gmap string string
}.
Definition register_builtin (r : SlashCommandRegistry) (command : BuiltinSlashCommand) : SlashCommandRegistry :=
  mkRegistry (<[bc_name command := command]> (rg_by_name r))
    (foldl (fun m alias => <[alias := bc_name command]> m) (rg_alias_to_name r) (bc_aliases command)).
Definition builtin : SlashCommandRegistry := foldl register_builtin (mkRegistry ∅ ∅) CANONICAL_BUILTIN_SLASH_COMMANDS.
Definition resolve_name (r : SlashCommandRegistry) (name : string) : option string :=
  match rg_alias_to_name r !! name with
  | Some n => Some n
  | None => bc_name <$> rg_by_name r !! name
  end.

(** ** Parsing *)

(** [split_once(char::is_whitespace)]: at the first white-space character,
    which may have several bytes. *)
Fixpoint split_once_ws (s : string) : option (string * string) :=
  match s with
  | EmptyString => None
  | String a s' =>
      match ws_len s with
      | O => '(x, y) ← split_once_ws s'; Some (String a x, y)
      | S k => Some (EmptyString, str_drop k s')
      end
  end.
Definition parse_slash_command (text : string) : option (string * string) :=
  rest ← strip_prefix "/" text;
  match split_once_ws rest with
  | Some (name, args) => Some (name, trim args)
  | None => Some (rest, "")
  end.
Record ResolvedSlashCommand := mkResolved { rc_name : string; rc_original_name : string; rc_is_alias : bool; rc_args : string }.
Definition parse_line (r : SlashCommandRegistry) (text : string) : option ResolvedSlashCommand :=
  '(name, args) ← parse_slash_command text;
  resolved ← resolve_name r name;
  Some (mkResolved resolved name (negb (String.eqb resolved name)) args).

Record SessionSlashCommand := mkSessionCommand { ss_name : string; ss_args : string; ss_text : string }.
Definition parse_session_command (r : SlashCommandRegistry) (text : string) : option SessionSlashCommand :=
  resolved ← parse_line r text;
  if is_session_slash_command_name (rc_name resolved) then Some (mkSessionCommand (rc_name resolved) (rc_args resolved) text) else None.
(** [session_commands.rs]. *)
Definition parse_prompt_session_command (text : string) : option SessionSlashCommand := parse_session_command builtin text.
