(* ===== verification/Journal.v ===== *)
(** * The worker recovery journal

    [journal.rs]: the append-only file in which a worker records, per session,
    whether it is busy and what it has queued, so that a restarted daemon knows
    which work was interrupted.  Records are lines of JSON; the latest line of
    a session wins; a journal whose sessions are all idle is compacted through
    a temporary file and a rename.  One process at a time owns the journal for
    writing, by a lock on a sidecar file. *)
From S2P Require Import Prelude RustStr Lines Json Time World LedgerReplay Effects.
#[local] Open Scope string_scope.
#[local] Open Scope Z_scope.

Definition RECOVERY_JOURNAL_SUFFIX : string := ".recovery.jsonl".
Definition ORPHAN_JOURNAL_SUFFIX : string := ".orphans.jsonl".
Definition orphan_journal_path (descriptor_dir : path) (worker_id : string) : path :=
  join descriptor_dir (worker_id ++ ORPHAN_JOURNAL_SUFFIX).

(** ** Records *)
Record WorkerRecoveryRecord := mkRecovery {
  wr_active_session_id : string;
  wr_session_id : string;
  wr_session_file : option string;
  wr_busy : bool;
  wr_operation : string;
  wr_recorded_at : string
}.
#[export] Instance recovery_eq_dec : EqDecision WorkerRecoveryRecord.
Proof. solve_decision. Defined.

(** [worker/queue.rs]. *)
Inductive QueuePriority := Human | Pinned | Background.
Inductive TurnPolicy := Queued | Injected | Direct.
Definition journal_value (p : TurnPolicy) : string :=
  match p with Queued => "queued" | Injected => "injected" | Direct => "direct" end.

Record WorkerQueueItemRecord := mkItem {
  qi_message : string;
  qi_priority : option QueuePriority;
  qi_preview : option string;
  qi_custom_message : option Value;
  qi_queue_key : option string;
  qi_queue_visible : bool;
  qi_policy : string
}.
Definition queue_visible_default : bool := true.
Definition queue_policy_default : string := "queued".
(** [WorkerQueueItemRecord::policy]. *)
Definition item_policy (i : WorkerQueueItemRecord) : TurnPolicy :=
  if String.eqb (qi_policy i) "injected" then Injected
  else if String.eqb (qi_policy i) "direct" then Direct else Queued.

Record WorkerQueueSnapshotRecord := mkSnapshot {
  qs_version : Z;
  qs_type : string;
  qs_active_session_id : string;
  qs_steering : list WorkerQueueItemRecord;
  qs_follow_up : list WorkerQueueItemRecord;
  qs_recorded_at : string
}.
Definition QUEUE_SNAPSHOT_RECORD_TYPE : string := "queue_snapshot".
Definition QUEUE_SNAPSHOT_VERSION : Z := 2.

(** ** Documents *)
Definition decode_bool (v : Value) : option bool := match v with VBool b => Some b | _ => None end.
Definition decode_opt {A} (dec : Value -> option A) (v : Value) : option (option A) :=
  match v with VNull => Some None | _ => Some <$> dec v end.
(** A member left out when [None]. *)
Definition skip_none {A} (enc : A -> Value) (k : string) (o : option A) : list (string * Value) :=
  match o with Some a => [(k, enc a)] | None => [] end.

(** [rename_all = "camelCase"]. *)
Definition recovery_value (r : WorkerRecoveryRecord) : Value :=
  VObject ([("activeSessionId", VString (wr_active_session_id r)); ("sessionId", VString (wr_session_id r))]
    ++ skip_none VString "sessionFile" (wr_session_file r)
    ++ [("busy", VBool (wr_busy r)); ("operation", VString (wr_operation r)); ("recordedAt", VString (wr_recorded_at r))])%list.
Definition decode_recovery (v : Value) : option WorkerRecoveryRecord :=
  ms ← object_members v;
  a ← required as_str "activeSessionId" ms;
  s ← required as_str "sessionId" ms;
  f ← defaulted None (decode_opt as_str) "sessionFile" ms;
  b ← required decode_bool "busy" ms;
  o ← required as_str "operation" ms;
  t ← required as_str "recordedAt" ms;
  Some (mkRecovery a s f b o t).

(** [rename_all = "snake_case"] with [serde(other)]: an unknown name is
    [Background]; a unit variant is its name, or an object of one member that
    is null. *)
Definition priority_value (p : QueuePriority) : Value :=
  VString match p with Human => "human" | Pinned => "pinned" | Background => "background" end.
Definition priority_of_name (s : string) : QueuePriority :=
  if String.eqb s "human" then Human else if String.eqb s "pinned" then Pinned else Background.
(** The members of a document read as a map: a repeated key keeps its first
    place and takes its last value. *)
Definition insert_member (ms : list (string * Value)) (kv : string * Value) : list (string * Value) :=
  if existsb (fun m => String.eqb (fst m) (fst kv)) ms
  then map (fun m => if String.eqb (fst m) (fst kv) then kv else m) ms
  else (ms ++ [kv])%list.
Definition index_map (ms : list (string * Value)) : list (string * Value) := foldl insert_member [] ms.
Definition decode_priority (v : Value) : option QueuePriority :=
  match v with
  | VString s => Some (priority_of_name s)
  | VObject ms => match index_map ms with [(k, VNull)] => Some (priority_of_name k) | _ => None end
  | _ => None
  end.

Definition item_value (i : WorkerQueueItemRecord) : Value :=
  VObject ([("message", VString (qi_message i))]
    ++ skip_none priority_value "priority" (qi_priority i)
    ++ skip_none VString "preview" (qi_preview i)
    ++ skip_none id "custom_message" (qi_custom_message i)
    ++ skip_none VString "queue_key" (qi_queue_key i)
    ++ [("queue_visible", VBool (qi_queue_visible i)); ("policy", VString (qi_policy i))])%list.
Definition decode_item (entry : list (string * Value)) : option WorkerQueueItemRecord :=
  let ms := index_map entry in
  m ← required as_str "message" ms;
  p ← defaulted None (decode_opt decode_priority) "priority" ms;
  v ← defaulted None (decode_opt as_str) "preview" ms;
  c ← defaulted None (decode_opt Some) "custom_message" ms;
  k ← defaulted None (decode_opt as_str) "queue_key" ms;
  q ← defaulted queue_visible_default decode_bool "queue_visible" ms;
  t ← defaulted queue_policy_default as_str "policy" ms;
  Some (mkItem m p v c k q t).

Definition snapshot_value (s : WorkerQueueSnapshotRecord) : Value :=
  VObject [("version", VNumber (qs_version s)); ("type", VString (qs_type s));
           ("active_session_id", VString (qs_active_session_id s));
           ("steering", VArray (map item_value (qs_steering s)));
           ("follow_up", VArray (map item_value (qs_follow_up s)));
           ("recorded_at", VString (qs_recorded_at s))].
(** [parse_snapshot_lane]. *)
Definition plain_item (message : string) : WorkerQueueItemRecord :=
  mkItem message None None None None true queue_policy_default.
Definition lane_entry (entry : Value) : option WorkerQueueItemRecord :=
  match entry with
  | VString message => Some (plain_item message)
  | VObject ms => decode_item ms
  | _ => None
  end.
Definition parse_snapshot_lane (value : option Value) : list WorkerQueueItemRecord :=
  match value ≫= as_array with Some entries => omap lane_entry entries | None => [] end.
(** The loop body of [parse_queue_snapshot_records]. *)
Definition decode_snapshot (record : Value) : option WorkerQueueSnapshotRecord :=
  if negb (bool_decide (get_str "type" record = Some QUEUE_SNAPSHOT_RECORD_TYPE)) then None
  else
    let version := get "version" record ≫= as_u64 in
    if negb (bool_decide (version = Some 1)) && negb (bool_decide (version = Some QUEUE_SNAPSHOT_VERSION)) then None
    else
      active_session_id ← get_str "active_session_id" record;
      Some (mkSnapshot QUEUE_SNAPSHOT_VERSION QUEUE_SNAPSHOT_RECORD_TYPE active_session_id
              (parse_snapshot_lane (get "steering" record)) (parse_snapshot_lane (get "follow_up" record))
              (default "" (get_str "recorded_at" record))).

(** ** Reading *)

(** What a read takes from [serde_json] and the standard library: whether bytes
    fail to parse because they end too early ([Error::is_eof]), and the message
    of bytes that are not UTF-8. *)
Class JournalText := {
  slice_is_eof : string -> bool;
  utf8_error_text : string -> string
}.

(** The journal in memory. *)
Record WorkerRecoveryJournal := mkJournal {
  j_latest : gmap string WorkerRecoveryRecord;
  j_snapshots : gmap string WorkerQueueSnapshotRecord
}.

Section Reading.
Context `{Env} `{JournalText} (p : path).

(** [decode_journal_lines]. *)
Fixpoint decode_lines (newline_ends : bool) (records : list string) : anyhow + list string :=
  match records with
  | [] => inr []
  | raw :: rest =>
      if is_utf8 raw then let? ls := decode_lines newline_ends rest in inr (raw :: ls)
      else
        let incomplete_final :=
          match rest with [] => negb newline_ends && slice_is_eof raw | _ => false end in
        if incomplete_final then decode_lines newline_ends rest
        else inl (anyhow_context ("invalid UTF-8 in journal " ++ path_display p) (anyhow_msg (utf8_error_text raw)))
  end.
Definition ends_with_newline (bytes : string) : bool :=
  match strip_suffix nl_str bytes with Some _ => true | None => false end.
Definition decode_journal_lines (bytes : string) : anyhow + list string :=
  decode_lines (ends_with_newline bytes) (split_char nl bytes).

Definition worker_line (latest : gmap string WorkerRecoveryRecord) (line : string) : gmap string WorkerRecoveryRecord :=
  if is_empty line then latest
  else match from_str line with
       | inr v => match decode_recovery v with
                  | Some record => <[wr_active_session_id record := record]> latest
                  | None => latest
                  end
       | inl _ => latest
       end.
Definition snapshot_line (latest : gmap string WorkerQueueSnapshotRecord) (line : string) : gmap string WorkerQueueSnapshotRecord :=
  match from_str line with
  | inr v => match decode_snapshot v with
             | Some entry => <[qs_active_session_id entry := entry]> latest
             | None => latest
             end
  | inl _ => latest
  end.
(** The two passes over the bytes of a file; no file reads as nothing. *)
Definition worker_records (content : option string) : anyhow + gmap string WorkerRecoveryRecord :=
  match content with
  | None => inr ∅
  | Some bytes => let? ls := decode_journal_lines bytes in inr (foldl worker_line ∅ ls)
  end.
Definition snapshot_records (content : option string) : anyhow + gmap string WorkerQueueSnapshotRecord :=
  match content with
  | None => inr ∅
  | Some bytes => let? ls := decode_journal_lines bytes in inr (foldl snapshot_line ∅ ls)
  end.
End Reading.

(** ** The disk and the process *)

(** A system call runs, fails (an error that is neither absence nor
    contention), or is where the process dies; a write that does not complete
    leaves its first [written] bytes. *)
Inductive jfault := JRun | JFail (written : nat) | JDie (written : nat).
Record JScene := mkJScene {
  jc_path : path;
  jc_fault : nat -> jfault;
  jc_clock : nat -> Z;
  jc_order : forall A : Type, list A -> list A  (* the order in which a [HashMap] yields its values *)
}.
(** The journal file, the temporary file of a compaction, whether the write
    lock is held, the number of calls made, and the open journal. *)
Record JHost := mkJHost {
  jh_file : option string;
  jh_temp : option string;
  jh_owned : bool;
  jh_step : nat;
  jh_journal : WorkerRecoveryJournal
}.
Definition set_file (f : option string) (h : JHost) : JHost :=
  mkJHost f (jh_temp h) (jh_owned h) (jh_step h) (jh_journal h).
Definition set_temp (f : option string) (h : JHost) : JHost :=
  mkJHost (jh_file h) f (jh_owned h) (jh_step h) (jh_journal h).
Definition set_owned (b : bool) (h : JHost) : JHost :=
  mkJHost (jh_file h) (jh_temp h) b (jh_step h) (jh_journal h).
Definition set_journal (j : WorkerRecoveryJournal) (h : JHost) : JHost :=
  mkJHost (jh_file h) (jh_temp h) (jh_owned h) (jh_step h) j.
Definition jtick (h : JHost) : JHost :=
  mkJHost (jh_file h) (jh_temp h) (jh_owned h) (S (jh_step h)) (jh_journal h).

Section Journal.
Context `{Env} `{JournalText} (sc : JScene).
Abbreviation JM := (SM JHost).

Definition jsys {A : Type} (part : nat -> JHost -> JHost) (eff : JHost -> (io_kind + A) * JHost) : JM io_error A := fun h =>
  match jc_fault sc (jh_step h) with
  | JRun => let '(r, h') := eff h in (match r with inl k => Err (os_error k) | inr a => Ok a end, jtick h')
  | JFail n => (Err (os_error OtherIo), jtick (part n h))
  | JDie n => (Killed, jtick (part n h))
  end.
(** A call that changes neither the journal nor its temporary file. *)
Definition jquery {A : Type} (q : JHost -> io_kind + A) : JM io_error A := jsys (fun _ h => h) (fun h => (q h, h)).
Definition jelsewhere : JM io_error unit := jquery (fun _ => inr tt).

Definition plain {A} (m : JM io_error A) : JM anyhow A := smap_err (fun e => anyhow_msg (io_error_text e)) m.
Definition with_context {A} (what : string) (m : JM io_error A) : JM anyhow A :=
  smap_err (fun e => anyhow_context (what ++ path_display (jc_path sc)) (anyhow_msg (io_error_text e))) m.
Definition jnow_iso : JM anyhow string := fun h => (Ok (iso_from_unix_ms (jc_clock sc (jh_step h))), jtick h).

(** The text of records, one line each. *)
Definition record_lines (records : list Value) : string :=
  foldr (fun v rest => (value_display v ++ nl_str) ++ rest) "" records.

(** Opening for append creates the file; the write lands at its end. *)
Definition open_append : JM io_error unit :=
  jsys (fun _ h => h) (fun h => (inr tt, set_file (Some (default "" (jh_file h))) h)).
Definition write_append (text : string) : JM io_error unit :=
  jsys (fun n h => set_file (Some (default "" (jh_file h) ++ str_take n text)) h)
       (fun h => (inr tt, set_file (Some (default "" (jh_file h) ++ text)) h)).
Definition append_records (records : list Value) : JM anyhow unit :=
  do+ with_context "create " jelsewhere in
  do+ with_context "open journal " open_append in
  do+ plain (write_append (record_lines records)) in
  plain jelsewhere.
Definition append_record (record : Value) : JM anyhow unit :=
  do+ with_context "create " jelsewhere in
  do+ with_context "open journal " open_append in
  do+ plain (write_append (value_display record ++ nl_str)) in
  plain jelsewhere.

Inductive Finalize := Synced | Bare.
Definition rewrite_records (records : list Value) (finalize : Finalize) : JM anyhow unit :=
  do+ with_context "create " (jsys (fun _ h => h) (fun h => (inr tt, set_temp (Some "") h))) in
  do+ plain (jsys (fun n h => set_temp (Some (default "" (jh_temp h) ++ str_take n (record_lines records))) h)
                  (fun h => (inr tt, set_temp (Some (default "" (jh_temp h) ++ record_lines records)) h))) in
  do+ (match finalize with Bare => sret tt | Synced => plain jelsewhere end) in
  with_context "persist "
    (jsys (fun _ h => h)
       (fun h => match jh_temp h with
                 | Some bytes => (inr tt, set_temp None (set_file (Some bytes) h))
                 | None => (inl NotFound, h)
                 end)).

(** [journal_write_owner]: the sidecar is opened, then locked without waiting.
    The lock goes with the journal, by [Drop] or by the process's end. *)
Definition journal_write_owner : JM anyhow unit :=
  do+ with_context "open journal ownership " jelsewhere in
  with_context "acquire journal ownership "
    (jsys (fun _ h => h) (fun h => if jh_owned h then (inl WouldBlock, h) else (inr tt, set_owned true h))).

(** [fs::read], a missing file apart. *)
Definition read_journal : JM anyhow (option string) :=
  with_context "read journal " (jquery (fun h => inr (jh_file h))).
Definition parse_worker_records : JM anyhow (gmap string WorkerRecoveryRecord) :=
  let+ content := read_journal in slift (worker_records (jc_path sc) content).
Definition parse_queue_snapshot_records : JM anyhow (gmap string WorkerQueueSnapshotRecord) :=
  let+ content := read_journal in slift (snapshot_records (jc_path sc) content).

Definition tail_is_torn : JM anyhow bool :=
  let+ content := with_context "open journal tail " (jquery (fun h => inr (jh_file h))) in
  match content with
  | None => sret false
  | Some bytes =>
      let+ size := with_context "stat journal tail " (jquery (fun _ => inr (len bytes))) in
      if Nat.eqb size 0 then sret false
      else
        do+ with_context "seek journal tail " jelsewhere in
        do+ with_context "read journal tail " jelsewhere in
        sret (negb (ends_with_newline bytes))
  end.

Definition hash_values {A} (m : gmap string A) : list A := jc_order sc A (map snd (map_to_list m)).
Definition compact (finalize : Finalize) : JM anyhow unit :=
  let+ j := sget jh_journal in
  rewrite_records (map recovery_value (hash_values (j_latest j)) ++ map snapshot_value (hash_values (j_snapshots j))) finalize.

(** [WorkerRecoveryJournal::open]. *)
Definition open_journal : JM anyhow unit :=
  do+ plain jelsewhere in
  do+ journal_write_owner in
  son_error (set_owned false)
    (let+ queue_snapshots := parse_queue_snapshot_records in
     let+ latest := parse_worker_records in
     do+ smodify (set_journal (mkJournal latest queue_snapshots)) in
     let+ torn := tail_is_torn in
     if torn then compact Synced else sret tt).


Definition unchanged (previous : WorkerRecoveryRecord) (session_file : option string) (busy : bool) (operation : string) : bool :=
  Bool.eqb (wr_busy previous) busy && String.eqb (wr_operation previous) operation
  && bool_decide (wr_session_file previous = session_file).
Definition all_idle (latest : gmap string WorkerRecoveryRecord) : bool :=
  forallb (fun r => negb (wr_busy r)) (map snd (map_to_list latest)).
Definition insert_latest (r : WorkerRecoveryRecord) (h : JHost) : JHost :=
  set_journal (mkJournal (<[wr_active_session_id r := r]> (j_latest (jh_journal h))) (j_snapshots (jh_journal h))) h.
Definition insert_snapshot (s : WorkerQueueSnapshotRecord) (h : JHost) : JHost :=
  set_journal (mkJournal (j_latest (jh_journal h)) (<[qs_active_session_id s := s]> (j_snapshots (jh_journal h)))) h.
(** The all-idle compaction. *)
Definition compact_when_idle : JM anyhow unit :=
  let+ j := sget jh_journal in
  if all_idle (j_latest j) then compact Bare else sret tt.

(** [WorkerRecoveryJournal::record]. *)
Definition record (active_session_id session_id : string) (session_file : option string) (busy : bool) (operation : string)
    : JM anyhow unit :=
  let+ j := sget jh_journal in
  if match j_latest j !! active_session_id with
     | Some previous => unchanged previous session_file busy operation
     | None => false
     end
  then sret tt
  else
    let+ now := jnow_iso in
    let r := mkRecovery active_session_id session_id session_file busy operation now in
    do+ append_record (recovery_value r) in
    do+ smodify (insert_latest r) in
    compact_when_idle.

Definition queue_snapshot (active_session_id : string) (steering follow_up : list WorkerQueueItemRecord) (now : string)
    : WorkerQueueSnapshotRecord :=
  mkSnapshot QUEUE_SNAPSHOT_VERSION QUEUE_SNAPSHOT_RECORD_TYPE active_session_id steering follow_up now.
(** [WorkerRecoveryJournal::record_queue_snapshot]. *)
Definition record_queue_snapshot (active_session_id : string) (steering follow_up : list WorkerQueueItemRecord) : JM anyhow unit :=
  let+ now := jnow_iso in
  let s := queue_snapshot active_session_id steering follow_up now in
  do+ append_record (snapshot_value s) in
  smodify (insert_snapshot s).

(** [WorkerRecoveryJournal::record_queue_checkpoint]. *)
Definition record_queue_checkpoint (active_session_id session_id : string) (session_file : option string) (busy : bool)
    (operation : string) (steering follow_up : list WorkerQueueItemRecord) : JM anyhow unit :=
  let+ now := jnow_iso in
  let s := queue_snapshot active_session_id steering follow_up now in
  let+ j := sget jh_journal in
  let verdict_unchanged :=
    match j_latest j !! active_session_id with
    | Some previous => unchanged previous session_file busy operation
    | None => false
    end in
  let+ now' := jnow_iso in
  let verdict := if verdict_unchanged then None
                 else Some (mkRecovery active_session_id session_id session_file busy operation now') in
  let batch := snapshot_value s :: match verdict with Some r => [recovery_value r] | None => [] end in
  do+ append_records batch in
  do+ smodify (insert_snapshot s) in
  match verdict with
  | Some r => do+ smodify (insert_latest r) in compact_when_idle
  | None => sret tt
  end.

(** [WorkerRecoveryJournal::latest_queue_snapshot] and [read_queue_snapshot]. *)
Definition lanes (s : WorkerQueueSnapshotRecord) : list WorkerQueueItemRecord * list WorkerQueueItemRecord :=
  (qs_steering s, qs_follow_up s).
Definition latest_queue_snapshot (j : WorkerRecoveryJournal) (active_session_id : string)
    : option (list WorkerQueueItemRecord * list WorkerQueueItemRecord) :=
  lanes <$> j_snapshots j !! active_session_id.
Definition read_queue_snapshot (active_session_id : string)
    : JM anyhow (option (list WorkerQueueItemRecord * list WorkerQueueItemRecord)) :=
  let+ snapshots := parse_queue_snapshot_records in sret (lanes <$> snapshots !! active_session_id).

(** Dropping the journal releases the lock. *)
Definition close_journal (h : JHost) : JHost := set_owned false h.

(** [WorkerRecoveryJournal::settle_busy_records]. *)
Definition settle_record (operation : string) (r : WorkerRecoveryRecord) : JM anyhow unit :=
  record (wr_active_session_id r) (wr_session_id r) (wr_session_file r) false operation.
Definition settle_busy_records (operation : string) : JM anyhow unit :=
  do+ open_journal in
  do+ son_error close_journal
        (let+ busy := sget (fun h => List.filter wr_busy (hash_values (j_latest (jh_journal h)))) in
         sfor_each (settle_record operation) busy) in
  smodify close_journal.

(** What the supervisor reads off a journal file: [read_latest],
    [read_interrupted] and [latest_busy_recorded_at]. *)
Definition read_latest : JM anyhow (list WorkerRecoveryRecord) :=
  let+ latest := parse_worker_records in sret (hash_values latest).
Definition read_interrupted : JM anyhow bool :=
  let+ records := stry read_latest in
  sret match records with inr l => existsb wr_busy l | inl _ => false end.
Definition str_max (a b : string) : string := if str_leb a b then b else a.
Definition max_str (l : list string) : option string :=
  match l with [] => None | x :: l' => Some (foldl str_max x l') end.
Definition latest_busy_recorded_at : JM anyhow (option string) :=
  let+ records := stry read_latest in
  sret match records with inr l => max_str (map wr_recorded_at (List.filter wr_busy l)) | inl _ => None end.
End Journal.
