(* ===== verification/JournalProofs.v ===== *)
(** * The recovery journal: what a file says

    The bytes of a journal determine a state ([journal_of]); appending records
    to a file that ends in a newline adds them to that state, a torn append
    adds the first few of them, and the text of a compaction says what the
    journal in memory says. *)
From S2P Require Import Prelude RustStr Lines Json Time World LedgerReplay LedgerFile Effects Journal.
#[local] Open Scope string_scope.
#[local] Open Scope Z_scope.

(** What [serde_json] promises of documents cut short: less than an object's
    text is no document, and when it is not even UTF-8 the error is that it
    ended early; numbers that are read have a width. *)
Class JournalTextOk `{Env} `{LedgerEnv} `{JournalText} := {
  torn_line ms n : (n < len (value_display (VObject ms)))%nat ->
    exists e, from_str (str_take n (value_display (VObject ms))) = inl e;
  torn_eof ms n : (n < len (value_display (VObject ms)))%nat ->
    is_utf8 (str_take n (value_display (VObject ms))) = false ->
    slice_is_eof (str_take n (value_display (VObject ms))) = true;
  read_printable s v : from_str s = inr v -> printable v
}.

(** ** Lines *)
Definition whole (c : string) : Prop := c = "" \/ ends_with_newline c = true.
Definition body (c : string) : list string := removelast (split_char nl c).

Lemma split_char_nonempty c s : split_char c s <> [].
Proof. destruct s; cbn; [done|]. repeat case_match; done. Qed.
Lemma split_char_at c a b : split_char c (a ++ String c b) = (split_char c a ++ split_char c b)%list.
Proof.
  induction a as [|d a IH]; cbn.
  - by rewrite Ascii.eqb_refl.
  - rewrite IH. destruct (Ascii.eqb c d); [done|].
    destruct (split_char c a) eqn:E; [by apply split_char_nonempty in E|done].
Qed.
Lemma split_char_one c s : contains_char c s = false -> split_char c s = [s].
Proof.
  induction s as [|d s IH]; [done|]. cbn. intros [-> Hs]%orb_false_iff. by rewrite IH.
Qed.
Lemma whole_nl a : whole (a ++ nl_str).
Proof. right. unfold ends_with_newline. by rewrite (proj2 (strip_suffix_Some nl_str _ a) eq_refl). Qed.
Lemma whole_cases c : whole c -> c = "" \/ exists a, c = a ++ nl_str.
Proof.
  intros [->|Hc]; [by left|right]. unfold ends_with_newline in Hc.
  destruct (strip_suffix nl_str c) as [a|] eqn:E; [|done]. apply strip_suffix_Some in E. by exists a.
Qed.
Lemma body_nl a : body (a ++ nl_str) = split_char nl a.
Proof. unfold body, nl_str. rewrite split_char_at. cbn. by rewrite removelast_last. Qed.
Lemma split_whole c t : whole c -> split_char nl (c ++ t) = (body c ++ split_char nl t)%list.
Proof.
  intros [->|[a ->]]%whole_cases; [done|]. rewrite body_nl, str_app_assoc. apply split_char_at.
Qed.
Lemma body_app c t : whole c -> contains_char nl t = false -> body (c ++ t ++ nl_str) = (body c ++ [t])%list.
Proof.
  intros Hc Ht. unfold body at 1. rewrite split_whole by done. unfold nl_str. rewrite split_char_at, (split_char_one _ t) by done.
  cbn [split_char]. rewrite !app_assoc. by rewrite removelast_last.
Qed.
Lemma whole_app c t : whole (c ++ t ++ nl_str).
Proof. rewrite <- str_app_assoc. apply whole_nl. Qed.

Lemma str_take_whole n s : (len s <= n)%nat -> str_take n s = s.
Proof.
  revert n. induction s as [|c s IH]; intros [|n]; cbn; unfold len in *; cbn; try done; [lia|].
  intros Hn. by rewrite IH by lia.
Qed.

(** ** The state of a file *)
Definition no_journal : WorkerRecoveryJournal := mkJournal ∅ ∅.

Section Replay.
Context `{Env} `{JournalText}.

Definition step_line (j : WorkerRecoveryJournal) (line : string) : WorkerRecoveryJournal :=
  mkJournal (worker_line (j_latest j) line) (snapshot_line (j_snapshots j) line).
Definition replay_lines (ls : list string) : WorkerRecoveryJournal := foldl step_line no_journal ls.
Definition journal_of (bytes : string) : option WorkerRecoveryJournal :=
  match decode_journal_lines [] bytes with inr ls => Some (replay_lines ls) | inl _ => None end.
(** A missing file says as much as an empty one. *)
Definition reads (file : option string) : option WorkerRecoveryJournal := journal_of (default "" file).

Lemma replay_lines_split ls j :
  foldl step_line j ls = mkJournal (foldl worker_line (j_latest j) ls) (foldl snapshot_line (j_snapshots j) ls).
Proof. revert j. induction ls as [|l ls IH]; intros j; cbn; [by destruct j|]. by rewrite IH. Qed.
Lemma decode_lines_path p q b ls :
  match decode_lines p b ls, decode_lines q b ls with inr x, inr y => x = y | inl _, inl _ => True | _, _ => False end.
Proof.
  induction ls as [|l ls IH]; cbn; [done|]. unfold sum_bind in *.
  destruct (is_utf8 l).
  - destruct (decode_lines p b ls), (decode_lines q b ls); cbn; [done..|by subst].
  - destruct ls; cbn; [by destruct (negb b && slice_is_eof l)|done].
Qed.
Context (Hempty : exists e, from_str "" = inl e).
Lemma step_empty j : step_line j "" = j.
Proof.
  destruct Hempty as [e He]. unfold step_line, worker_line, snapshot_line. rewrite He. by destruct j.
Qed.
(** The two passes read the two halves of the state. *)
Lemma passes_read p file :
  match reads file with
  | Some j => worker_records p file = inr (j_latest j) /\ snapshot_records p file = inr (j_snapshots j)
  | None => exists e, worker_records p file = inl e /\ snapshot_records p file = inl e
  end.
Proof.
  unfold reads, journal_of, worker_records, snapshot_records. destruct file as [c|]; cbn [default].
  - unfold decode_journal_lines. pose proof (decode_lines_path [] p (ends_with_newline c) (split_char nl c)) as Hp.
    destruct (decode_lines [] _ _), (decode_lines p _ _) as [e|]; cbn in *; try done; [by exists e|subst].
    unfold replay_lines. by rewrite replay_lines_split.
  - change (decode_journal_lines [] "") with (@inr anyhow _ [""]). unfold replay_lines. cbn [foldl]. by rewrite step_empty.
Qed.

Lemma decode_lines_app p b xs ys :
  ys <> [] ->
  decode_lines p b (xs ++ ys) =
  match decode_lines p true xs with
  | inr _ => sum_bind (decode_lines p b ys) (fun ls => inr (xs ++ ls)%list)
  | inl e => inl e
  end.
Proof.
  intros Hys. induction xs as [|x xs IH]; cbn; [by destruct (decode_lines p b ys)|].
  destruct (is_utf8 x).
  - rewrite IH. unfold sum_bind. destruct (decode_lines p true xs); [done|]. by destruct (decode_lines p b ys).
  - destruct xs as [|x' xs]; cbn; [destruct ys; [done|]|]; done.
Qed.
Lemma decode_lines_true p xs ls : decode_lines p true xs = inr ls -> ls = xs.
Proof.
  revert ls. induction xs as [|x xs IH]; intros ls; cbn; [by intros [= <-]|].
  destruct (is_utf8 x).
  - unfold sum_bind. destruct (decode_lines p true xs); [done|]. intros [= <-]. by rewrite (IH _ eq_refl).
  - destruct xs; done.
Qed.
Lemma ends_app c t : t <> "" -> ends_with_newline (c ++ t) = ends_with_newline t.
Proof.
  intros Ht. unfold ends_with_newline, strip_suffix. rewrite str_rev_app_distr.
  destruct (str_rev t) as [|d r] eqn:E.
  - rewrite <- (str_rev_involutive t), E in Ht. done.
  - change (str_rev nl_str) with (String nl ""). cbn [strip_prefix String.append]. by destruct (Ascii.eqb nl d).
Qed.
Lemma ends_one_line t : contains_char nl t = false -> ends_with_newline t = false.
Proof.
  intros Ht. unfold ends_with_newline. destruct (strip_suffix nl_str t) as [a|] eqn:E; [|done].
  apply strip_suffix_Some in E as ->. rewrite contains_char_app in Ht. cbn in Ht. by rewrite orb_true_r in Ht.
Qed.

(** A whole file whose lines are UTF-8 says what its lines say. *)
Lemma journal_of_whole c :
  whole c ->
  journal_of c = match decode_lines [] true (body c) with inr _ => Some (replay_lines (body c)) | inl _ => None end.
Proof.
  intros Hc. unfold journal_of, decode_journal_lines.
  assert (split_char nl c = (body c ++ [""])%list) as ->.
  { rewrite <- (str_app_nil_r c) at 1. by rewrite split_whole. }
  rewrite decode_lines_app by done. destruct (decode_lines [] true (body c)) eqn:E; [done|].
  cbn. unfold replay_lines. by rewrite foldl_app; cbn; rewrite step_empty.
Qed.
(** A fragment after a whole file is one more line, or is dropped. *)
Lemma journal_of_fragment c t j :
  whole c -> journal_of c = Some j -> contains_char nl t = false -> t <> "" ->
  journal_of (c ++ t) =
  if is_utf8 t then Some (step_line j t) else if slice_is_eof t then Some j else None.
Proof.
  intros Hc Hj Ht Hne. rewrite journal_of_whole in Hj by done.
  unfold journal_of, decode_journal_lines. rewrite split_whole, (split_char_one _ t), ends_app, ends_one_line by done.
  rewrite decode_lines_app by done. destruct (decode_lines [] true (body c)) as [|ls]; [done|]. injection Hj as <-.
  cbn. destruct (is_utf8 t); cbn; [unfold replay_lines; by rewrite foldl_app|].
  destruct (slice_is_eof t); cbn; [by rewrite app_nil_r|done].
Qed.
Lemma journal_of_line c t j :
  whole c -> journal_of c = Some j -> contains_char nl t = false -> is_utf8 t = true ->
  journal_of (c ++ t ++ nl_str) = Some (step_line j t).
Proof.
  intros Hc Hj Ht Hu. rewrite journal_of_whole in Hj by done.
  rewrite journal_of_whole by apply whole_app. rewrite body_app by done.
  rewrite decode_lines_app by done. destruct (decode_lines [] true (body c)) as [|ls]; [done|]. injection Hj as <-.
  cbn. rewrite Hu. cbn. unfold replay_lines. by rewrite foldl_app.
Qed.
End Replay.

(** ** Records that are written *)
Definition item_ok `{LedgerEnv} (i : WorkerQueueItemRecord) : Prop :=
  match qi_custom_message i with Some v => v <> VNull /\ printable v | None => True end.
Record snapshot_ok `{LedgerEnv} (s : WorkerQueueSnapshotRecord) : Prop := {
  so_version : qs_version s = QUEUE_SNAPSHOT_VERSION;
  so_type : qs_type s = QUEUE_SNAPSHOT_RECORD_TYPE;
  so_steering : Forall item_ok (qs_steering s);
  so_follow_up : Forall item_ok (qs_follow_up s)
}.
(** A line of the journal. *)
Inductive jentry := Verdict (r : WorkerRecoveryRecord) | Snapshot (s : WorkerQueueSnapshotRecord).
Definition entry_value (e : jentry) : Value :=
  match e with Verdict r => recovery_value r | Snapshot s => snapshot_value s end.
Definition entry_ok `{LedgerEnv} (e : jentry) : Prop :=
  match e with Verdict _ => True | Snapshot s => snapshot_ok s end.
(** The latest line of a session wins. *)
Definition put (j : WorkerRecoveryJournal) (e : jentry) : WorkerRecoveryJournal :=
  match e with
  | Verdict r => mkJournal (<[wr_active_session_id r := r]> (j_latest j)) (j_snapshots j)
  | Snapshot s => mkJournal (j_latest j) (<[qs_active_session_id s := s]> (j_snapshots j))
  end.
Record journal_ok `{LedgerEnv} (j : WorkerRecoveryJournal) : Prop := {
  jo_latest k r : j_latest j !! k = Some r -> wr_active_session_id r = k;
  jo_snapshots k s : j_snapshots j !! k = Some s -> qs_active_session_id s = k /\ snapshot_ok s
}.

Lemma printable_object `{LedgerEnv} ms : printable (VObject ms) <-> Forall (fun kv => printable (snd kv)) ms.
Proof.
  cbn [printable]. induction ms as [|kv ms IH]; [done|].
  rewrite Forall_cons, <- IH. done.
Qed.
Lemma printable_array `{LedgerEnv} l : printable (VArray l) <-> Forall printable l.
Proof. cbn [printable]. induction l as [|v l IH]; [done|]. rewrite Forall_cons, <- IH. done. Qed.

Lemma recovery_round_trip r : decode_recovery (recovery_value r) = Some r.
Proof. by destruct r as [a s [f|] b o t]. Qed.
Lemma recovery_not_snapshot r : decode_snapshot (recovery_value r) = None.
Proof. by destruct r as [a s [f|] b o t]. Qed.
Lemma snapshot_not_recovery s : decode_recovery (snapshot_value s) = None.
Proof. done. Qed.

Lemma decode_priority_value p : decode_priority (priority_value p) = Some p.
Proof. by destruct p. Qed.
Lemma item_entry `{LedgerEnv} i : item_ok i -> lane_entry (item_value i) = Some i.
Proof.
  destruct i as [m p v c k q t]. unfold item_ok. cbn [qi_custom_message]. intros Hc.
  assert (match c with Some v => decode_opt Some v = Some (Some v) | None => True end) as Hd.
  { destruct c as [[]|]; try done. by destruct Hc. }
  destruct p as [[]|], v, c as [c|], k; unfold lane_entry, item_value; cbn; rewrite ?Hd; reflexivity.
Qed.
Lemma lane_round_trip `{LedgerEnv} l :
  Forall item_ok l -> parse_snapshot_lane (Some (VArray (map item_value l))) = l.
Proof.
  intros Hl. unfold parse_snapshot_lane. cbn [mbind option_bind as_array]. induction Hl as [|i l Hi _ IH]; [done|].
  cbn [map omap list_omap]. rewrite item_entry by done. by f_equal.
Qed.
Lemma snapshot_round_trip `{LedgerEnv} s : snapshot_ok s -> decode_snapshot (snapshot_value s) = Some s.
Proof.
  destruct s as [v y a st fu t]. intros [Hv Hy Hst Hfu]. cbn in *. subst.
  unfold decode_snapshot, snapshot_value. cbn -[parse_snapshot_lane].
  by rewrite !lane_round_trip.
Qed.
Lemma item_value_printable `{LedgerEnv} i : item_ok i -> printable (item_value i).
Proof.
  destruct i as [m p v c k q t]. unfold item_ok, item_value. cbn [qi_message qi_priority qi_preview qi_custom_message qi_queue_key qi_queue_visible qi_policy].
  intros Hc. apply printable_object. rewrite !Forall_app.
  destruct p, v, c, k; cbn; repeat split; repeat constructor; naive_solver.
Qed.
Lemma entry_value_printable `{LedgerEnv} e : entry_ok e -> printable (entry_value e).
Proof.
  destruct e as [[a s f b o t]|s]; cbn [entry_ok entry_value].
  - intros _. apply printable_object. destruct f; repeat constructor.
  - intros Hs. destruct Hs as [Hv Hy Hst Hfu]. apply printable_object. rewrite Hv.
    assert (forall l, Forall item_ok l -> printable (VArray (map item_value l))) as Hl.
    { intros l Hl. apply printable_array. induction Hl; constructor; auto using item_value_printable. }
    repeat constructor; try done; cbn; by apply Hl.
Qed.

Section Written.
Context `{Env} `{LedgerEnv} `{!JsonLines} `{JournalText} `{!JournalTextOk}.
Abbreviation text e := (value_display (entry_value e)).

Lemma entry_object e : exists ms, entry_value e = VObject ms.
Proof. destruct e; by eexists. Qed.
Lemma text_nonempty e : text e <> "".
Proof. destruct (entry_object e) as [ms ->]. by destruct (line_object ms) as [body ->]. Qed.
Lemma empty_is_torn : exists e, from_str "" = inl e.
Proof. apply (torn_line [] 0). destruct (line_object []) as [b ->]. cbn. unfold len. cbn. lia. Qed.

Lemma step_entry j e : entry_ok e -> step_line j (text e) = put j e.
Proof.
  intros He. unfold step_line, worker_line, snapshot_line.
  pose proof (text_nonempty e). destruct (text e) as [|c t] eqn:E; [done|]. cbn [is_empty]. rewrite <- E.
  rewrite line_round_trip by by apply entry_value_printable. destruct e as [r|s]; cbn [entry_value put].
  - by rewrite recovery_round_trip, recovery_not_snapshot.
  - by rewrite snapshot_not_recovery, snapshot_round_trip.
Qed.
Lemma step_torn j e n : (n < len (text e))%nat -> step_line j (str_take n (text e)) = j.
Proof.
  intros Hn. destruct (entry_object e) as [ms E]. rewrite E in *. destruct (torn_line ms n Hn) as [err He].
  unfold step_line, worker_line, snapshot_line. rewrite He. destruct j. by destruct (is_empty _).
Qed.

(** One more line. *)
Lemma entry_appended c e j :
  whole c -> journal_of c = Some j -> entry_ok e -> journal_of (c ++ text e ++ nl_str) = Some (put j e).
Proof.
  intros Hc Hj He. erewrite journal_of_line; [|by apply empty_is_torn|done..|apply line_one|apply line_utf8].
  by rewrite step_entry.
Qed.
(** A line that is torn counts when only its newline is missing. *)
Lemma entry_torn c e j n :
  whole c -> journal_of c = Some j -> entry_ok e ->
  journal_of (c ++ str_take n (text e)) = Some (if (n <? len (text e))%nat then j else put j e).
Proof.
  intros Hc Hj He. destruct (decide (str_take n (text e) = "")) as [E|Hne].
  { rewrite E, str_app_nil_r, Hj. destruct (Nat.ltb_spec n (len (text e))); [done|].
    pose proof (text_nonempty e). destruct n; [|by destruct (text e)]. destruct (text e); [done|unfold len in *; cbn in *; lia]. }
  rewrite (journal_of_fragment empty_is_torn c _ j) by (done || apply take_one_line, line_one).
  destruct (Nat.ltb_spec n (len (text e))) as [Hn|Hn].
  - rewrite step_torn by done. destruct (is_utf8 _) eqn:Hu; [done|].
    destruct (entry_object e) as [ms E]. rewrite E in *. by rewrite torn_eof.
  - by rewrite str_take_whole, line_utf8, step_entry.
Qed.

(** ** Appending *)
Definition block (es : list jentry) : string := record_lines (map entry_value es).
Lemma block_cons e es : block (e :: es) = (text e ++ nl_str) ++ block es.
Proof. done. Qed.

Lemma block_appended c es j :
  whole c -> journal_of c = Some j -> Forall entry_ok es ->
  whole (c ++ block es) /\ journal_of (c ++ block es) = Some (foldl put j es).
Proof.
  intros Hc Hj Hes. revert c j Hc Hj. induction Hes as [|e es He _ IH]; intros c j Hc Hj.
  - cbn. by rewrite str_app_nil_r.
  - rewrite block_cons, <- str_app_assoc. apply IH; [apply whole_app|by apply entry_appended].
Qed.
(** A torn append leaves the first few records. *)
Lemma block_torn c es j n :
  whole c -> journal_of c = Some j -> Forall entry_ok es ->
  exists k, (k <= List.length es)%nat /\ journal_of (c ++ str_take n (block es)) = Some (foldl put j (take k es)).
Proof.
  intros Hc Hj Hes. revert c j n Hc Hj. induction Hes as [|e es He Hes IH]; intros c j n Hc Hj.
  - exists 0%nat. split; [done|]. cbn. by destruct n; rewrite str_app_nil_r.
  - rewrite block_cons. destruct (le_lt_dec n (len (text e))) as [Hn|Hn].
    + exists (if (n <? len (text e))%nat then 0 else 1)%nat. split; [cbn; case_match; lia|].
      rewrite str_app_assoc, str_take_short by done. rewrite (entry_torn c e j) by done.
      by destruct (n <? len (text e))%nat.
    + destruct (IH (c ++ text e ++ nl_str) (put j e) (n - len (text e ++ nl_str))%nat) as (k & Hk & Hr);
        [apply whole_app|by apply entry_appended|]. exists (S k). split; [cbn; lia|].
      rewrite str_take_long by (rewrite str_len_app; unfold nl_str, len; cbn; unfold len in *; lia).
      by rewrite <- str_app_assoc.
Qed.

(** ** Compacting *)
Lemma entries_foldl (rs : list WorkerRecoveryRecord) (ss : list WorkerQueueSnapshotRecord) j :
  foldl put j (map Verdict rs ++ map Snapshot ss) =
  mkJournal (foldl (fun m r => <[wr_active_session_id r := r]> m) (j_latest j) rs)
            (foldl (fun m s => <[qs_active_session_id s := s]> m) (j_snapshots j) ss).
Proof.
  rewrite foldl_app. revert j. induction rs as [|r rs IH]; intros j; [|cbn; by rewrite IH]. cbn.
  revert j. induction ss as [|s ss IH]; intros j; cbn; [by destruct j|by rewrite IH].
Qed.
Lemma foldl_insert_lookup {A} (key : A -> string) (l : list A) (m : gmap string A) k :
  NoDup (map key l) ->
  foldl (fun m a => <[key a := a]> m) m l !! k =
  match find_first (fun a => String.eqb (key a) k) l with Some a => Some a | None => m !! k end.
Proof.
  revert m. induction l as [|a l IH]; intros m Hd; [done|]. cbn [map] in Hd. apply NoDup_cons in Hd as [Ha Hd].
  cbn. rewrite IH by done. unfold find_first. cbn. destruct (String.eqb_spec (key a) k) as [<-|Hk].
  - destruct (List.find _ l) as [b|] eqn:E; [|by rewrite lookup_insert_eq].
    apply find_first_Some in E as [Hb E]. apply String.eqb_eq in E. destruct Ha. rewrite <- E.
    apply list_elem_of_fmap. by exists b.
  - destruct (List.find _ l); [done|]. by rewrite lookup_insert_ne.
Qed.
(** Writing all values of a map, in any order, rebuilds it. *)
Lemma foldl_insert_values {A} (key : A -> string) (m : gmap string A) (l : list A) :
  l ≡ₚ map snd (map_to_list m) -> (forall k a, m !! k = Some a -> key a = k) ->
  foldl (fun m a => <[key a := a]> m) ∅ l = m.
Proof.
  intros Hl Hkey. assert (map key l ≡ₚ map fst (map_to_list m)) as Hp.
  { rewrite Hl, map_map. apply reflexive_eq, map_ext_in. intros [k a] Hin. cbn. apply Hkey.
    apply elem_of_map_to_list. by apply list_elem_of_In. }
  apply map_eq. intros k. rewrite foldl_insert_lookup by (rewrite Hp; apply NoDup_fst_map_to_list).
  destruct (find_first _ l) as [a|] eqn:E.
  - apply find_first_Some in E as [Ha E]. apply String.eqb_eq in E as <-. rewrite Hl in Ha.
    apply list_elem_of_fmap in Ha as [[k a'] [-> Ha]]. apply elem_of_map_to_list in Ha. cbn.
    by rewrite (Hkey _ _ Ha).
  - rewrite lookup_empty. destruct (m !! k) as [a|] eqn:Em; [|done]. rewrite find_first_None in E.
    assert (a ∈ l) as Ha. { rewrite Hl. apply list_elem_of_fmap. exists (k, a). split; [done|by apply elem_of_map_to_list]. }
    specialize (E a Ha). cbn in E. rewrite (Hkey _ _ Em), String.eqb_refl in E. done.
Qed.
Lemma compacted (rs : list WorkerRecoveryRecord) (ss : list WorkerQueueSnapshotRecord) j :
  journal_ok j -> rs ≡ₚ map snd (map_to_list (j_latest j)) -> ss ≡ₚ map snd (map_to_list (j_snapshots j)) ->
  let bytes := record_lines (map recovery_value rs ++ map snapshot_value ss) in
  whole bytes /\ journal_of bytes = Some j.
Proof.
  intros Hj Hrs Hss bytes.
  assert (bytes = "" ++ block (map Verdict rs ++ map Snapshot ss)) as ->.
  { unfold bytes, block. rewrite map_app, !map_map. done. }
  assert (journal_of "" = Some no_journal) as Hnone.
  { rewrite journal_of_whole; [done|apply empty_is_torn|by left]. }
  destruct (block_appended "" (map Verdict rs ++ map Snapshot ss) no_journal) as [Hw ->]; [by left|done| |].
  - rewrite Forall_app. split; apply Forall_forall; intros e [x [-> Hx]]%list_elem_of_fmap; [done|].
    cbn. rewrite Hss in Hx. apply list_elem_of_fmap in Hx as [[k s] [-> Hs]].
    apply elem_of_map_to_list in Hs. by apply (jo_snapshots j Hj k).
  - split; [done|]. rewrite entries_foldl. f_equal. destruct Hj as [Hl Hs]. destruct j as [latest snaps]. cbn in *.
    f_equal; apply foldl_insert_values; try done. intros k s E. by apply (Hs k).
Qed.

(** ** What is read is well formed *)
Lemma member_printable k ms v : Forall (fun kv => printable (snd kv)) ms -> member k ms = Some v -> printable v.
Proof.
  intros Hms. unfold member, find_last. destruct (List.find _ (rev ms)) as [[k' w]|] eqn:E; [|done]. intros [= <-].
  apply List.find_some in E as [Hin _]. apply in_rev, list_elem_of_In in Hin. by apply (proj1 (Forall_forall _ _) Hms (k', w)).
Qed.
Lemma index_map_printable ms :
  Forall (fun kv => printable (snd kv)) ms -> Forall (fun kv => printable (snd kv)) (index_map ms).
Proof.
  unfold index_map. assert (Forall (fun kv : string * Value => printable (snd kv)) []) as Hacc by constructor.
  revert Hacc. generalize (@nil (string * Value)). induction ms as [|kv ms IH]; intros acc Hacc Hms; [done|].
  apply Forall_cons in Hms as [Hkv Hms]. cbn. apply IH; [|done]. unfold insert_member. destruct (existsb _ acc).
  - apply Forall_forall. intros x [m [-> Hm]]%list_elem_of_fmap. apply (proj1 (Forall_forall _ _) Hacc) in Hm. by case_match.
  - apply Forall_app. by repeat constructor.
Qed.
Lemma field_printable k ms v : Forall (fun kv => printable (snd kv)) ms -> field k ms = Present v -> printable v.
Proof.
  intros Hms. unfold field. destruct (List.filter _ ms) as [|[k' w] [|]] eqn:E; try done. intros [= <-].
  assert ((k', w) ∈ ms) as Hin. { apply list_elem_of_In. eapply (proj1 (filter_In _ _ _)). rewrite E. by left. }
  by apply (proj1 (Forall_forall _ _) Hms (k', w)).
Qed.
Lemma decode_item_ok ms i : Forall (fun kv => printable (snd kv)) ms -> decode_item ms = Some i -> item_ok i.
Proof.
  intros Hms%index_map_printable Hi. unfold decode_item in Hi. inv_decode Hi. unfold item_ok. cbn.
  destruct x2 as [c|]; [|done]. unfold defaulted in Hx2.
  destruct (field "custom_message" (index_map ms)) as [|w|] eqn:E; [done| |done].
  apply field_printable in E; [|done]. by destruct w; cbn in Hx2; inv_res.
Qed.
Lemma lane_ok v k : printable v -> Forall item_ok (parse_snapshot_lane (get k v)).
Proof.
  intros Hv. unfold parse_snapshot_lane. destruct (get k v) as [w|] eqn:E; [|done]. destruct v as [| | | | | |ms]; try done.
  apply printable_object in Hv. apply member_printable in E; [|done]. destruct w as [| | | | |l|]; try done. cbn.
  apply printable_array in E. apply Forall_forall. intros i (x & Hx & Hi)%list_elem_of_omap.
  apply (proj1 (Forall_forall _ _) E) in Hx. destruct x as [| | | |m| |ms']; try done.
  - by injection Hi as <-.
  - apply printable_object in Hx. by apply decode_item_ok in Hi.
Qed.
Lemma decode_snapshot_ok v s : printable v -> decode_snapshot v = Some s -> snapshot_ok s.
Proof.
  intros Hv. unfold decode_snapshot. repeat (case_match; [done|]). intros (a & _ & [= <-])%bind_Some.
  by constructor; cbn; [..|apply lane_ok|apply lane_ok].
Qed.
Lemma step_line_ok j l : journal_ok j -> journal_ok (step_line j l).
Proof.
  intros [Hl Hs]. split; cbn; intros k x; unfold worker_line, snapshot_line.
  - destruct (is_empty l); [apply Hl|]. destruct (from_str l) as [|v]; [apply Hl|].
    destruct (decode_recovery v) as [r|]; [|apply Hl]. rewrite lookup_insert_Some. intros [[<- <-]|[_ Hx]]; [done|by apply Hl].
  - destruct (from_str l) as [|v] eqn:E; [apply Hs|]. destruct (decode_snapshot v) as [s|] eqn:Ed; [|apply Hs].
    rewrite lookup_insert_Some. intros [[<- <-]|[_ Hx]]; [|by apply Hs].
    apply read_printable in E. by apply decode_snapshot_ok in Ed.
Qed.
Lemma no_journal_ok : journal_ok no_journal.
Proof. by split; cbn. Qed.
Lemma journal_of_ok c j : journal_of c = Some j -> journal_ok j.
Proof.
  unfold journal_of. destruct (decode_journal_lines [] c) as [|ls]; [done|]. intros [= <-]. unfold replay_lines.
  assert (journal_ok no_journal) as Hok by apply no_journal_ok. revert Hok. generalize no_journal.
  induction ls as [|l ls IH]; intros j Hj; [done|]. cbn. by apply IH, step_line_ok.
Qed.
Lemma put_ok j e : journal_ok j -> entry_ok e -> journal_ok (put j e).
Proof.
  intros [Hl Hs] He. destruct e as [r|s]; split; cbn; intros k x; try by eauto;
    rewrite lookup_insert_Some; intros [[<- <-]|[_ Hx]]; by eauto.
Qed.
End Written.
