(* ===== verification/JournalTheorems.v ===== *)
(** * The recovery journal: its guarantees

    Each operation against its specification under every schedule of faults:
    what an acknowledged operation recorded survives any number of deaths and
    restarts, and an interrupted one is applied up to some record of its batch.
    [settle_busy_records] leaves no busy session behind. *)
From S2P Require Import Prelude RustStr Lines Json Time World LedgerReplay LedgerFile Effects Journal JournalProofs.
#[local] Open Scope string_scope.
#[local] Open Scope Z_scope.

(** ** The worker's operations *)
Inductive job :=
| Record_ (active_session_id session_id : string) (session_file : option string) (busy : bool) (operation : string)
| QueueSnapshot (active_session_id : string) (steering follow_up : list WorkerQueueItemRecord)
| Checkpoint (active_session_id session_id : string) (session_file : option string) (busy : bool) (operation : string)
    (steering follow_up : list WorkerQueueItemRecord).
Definition job_ok `{LedgerEnv} (w : job) : Prop :=
  match w with
  | Record_ _ _ _ _ _ => True
  | QueueSnapshot _ steering follow_up | Checkpoint _ _ _ _ _ steering follow_up =>
      Forall item_ok steering /\ Forall item_ok follow_up
  end.
(** The records an operation writes from state [j] when the clock reads [t] and
    [t']: a verdict that changes nothing is skipped. *)
Definition says (j : WorkerRecoveryJournal) (a : string) (f : option string) (b : bool) (o : string) : bool :=
  match j_latest j !! a with Some previous => unchanged previous f b o | None => false end.
Definition job_entries (j : WorkerRecoveryJournal) (w : job) (t t' : string) : list jentry :=
  match w with
  | Record_ a s f b o => if says j a f b o then [] else [Verdict (mkRecovery a s f b o t)]
  | QueueSnapshot a steering follow_up => [Snapshot (queue_snapshot a steering follow_up t)]
  | Checkpoint a s f b o steering follow_up =>
      Snapshot (queue_snapshot a steering follow_up t)
      :: if says j a f b o then [] else [Verdict (mkRecovery a s f b o t')]
  end.
Lemma job_entries_ok `{LedgerEnv} j w t t' : job_ok w -> Forall entry_ok (job_entries j w t t').
Proof.
  destruct w; cbn; [|intros [??]..]; try case_match; repeat constructor; done.
Qed.

Section Operations.
Context `{Env} `{LedgerEnv} `{!JsonLines} `{JournalText} `{!JournalTextOk} (sc : JScene).
Context (Horder : forall A (l : list A), jc_order sc A l ≡ₚ l).

Definition run_job (w : job) : SM JHost anyhow unit :=
  match w with
  | Record_ a s f b o => record sc a s f b o
  | QueueSnapshot a steering follow_up => record_queue_snapshot sc a steering follow_up
  | Checkpoint a s f b o steering follow_up => record_queue_checkpoint sc a s f b o steering follow_up
  end.

(** The file says [j] and ends in a newline, and the process holds [m]. *)
Record holds (j m : WorkerRecoveryJournal) (h : JHost) : Prop := {
  ho_whole : whole (default "" (jh_file h));
  ho_reads : reads (jh_file h) = Some j;
  ho_memory : jh_journal h = m;
  ho_owned : jh_owned h = true
}.
Abbreviation at_rest j := (holds j j).
(** The file says [j] and the process still owns it. *)
Definition left_as (j : WorkerRecoveryJournal) (h : JHost) : Prop :=
  reads (jh_file h) = Some j /\ jh_owned h = true.
Definition torn_by (j : WorkerRecoveryJournal) (es : list jentry) (h : JHost) : Prop :=
  exists k, (k <= List.length es)%nat /\ left_as (foldl put j (take k es)) h.

Lemma holds_tick j m h : holds j m h -> holds j m (jtick h).
Proof. by intros []. Qed.
Lemma holds_left j m h : holds j m h -> left_as j h.
Proof. by intros []. Qed.
Lemma torn_whole j es h : left_as (foldl put j es) h -> torn_by j es h.
Proof. intros Hl. exists (List.length es). by rewrite firstn_all. Qed.
Lemma torn_none j es h : left_as j h -> torn_by j es h.
Proof. intros Hl. exists 0%nat. split; [lia|done]. Qed.

Lemma spec_jsys {A} P part (eff : JHost -> (io_kind + A) * JHost) (Q : result io_error A -> JHost -> Prop) :
  (forall h, P h -> Q (match fst (eff h) with inl k => Err (os_error k) | inr a => Ok a end) (jtick (snd (eff h)))) ->
  (forall h n, P h -> Q (Err (os_error OtherIo)) (jtick (part n h)) /\ Q Killed (jtick (part n h))) ->
  spec P (jsys sc part eff) Q.
Proof.
  intros Heff Hpart h Hh. unfold jsys. destruct (jc_fault sc (jh_step h)).
  - specialize (Heff h Hh). by destruct (eff h) as [[] h'].
  - by apply Hpart.
  - by apply Hpart.
Qed.
(** Errors only change their text on the way up. *)
Lemma spec_err {A} P (f : io_error -> anyhow) (m : SM JHost io_error A) (Q : result anyhow A -> JHost -> Prop) :
  spec P m (fun r h => Q (match r with Ok a => Ok a | Err e => Err (f e) | Killed => Killed end) h) ->
  spec P (smap_err f m) Q.
Proof. intros Hm h Hh. specialize (Hm h Hh). unfold smap_err. by destruct (m h) as [[] h']. Qed.
(** A call that leaves the journal alone. *)
Lemma spec_elsewhere (P : JHost -> Prop) (f : io_error -> anyhow) :
  (forall h, P h -> P (jtick h)) ->
  spec P (smap_err f (jelsewhere sc)) (fun _ h => P h).
Proof. intros HP. apply spec_err, spec_jsys; cbn; [|intros h n; split]; auto. Qed.

Lemma append_one v : append_record sc v = append_records sc [v].
Proof. unfold append_record, append_records. cbn [record_lines foldr]. by rewrite str_app_nil_r. Qed.
Lemma append_spec j m es :
  Forall entry_ok es ->
  spec (holds j m) (append_records sc (map entry_value es))
    (fun r h => match r with Ok _ => holds (foldl put j es) m h | _ => torn_by j es h end).
Proof.
  intros Hes. unfold append_records, with_context, plain.
  eapply spec_bind; [apply spec_elsewhere, holds_tick| |cbn; eauto using torn_none, holds_left..]. intros [].
  eapply spec_bind with (R := fun r h => holds j m h);
    [| |cbn; eauto using torn_none, holds_left..].
  { apply spec_err, spec_jsys; cbn; [|intros h n Hh; split; by apply holds_tick].
    intros h []. constructor; cbn; [done| |done..]. unfold reads in *. by destruct (jh_file h). }
  intros []. eapply spec_bind with (R := fun r h => match r with Ok _ => holds (foldl put j es) m h | _ => torn_by j es h end);
    [| |done..].
  - apply spec_err, spec_jsys; cbn.
    + intros h [Hw Hr Hm Ho]. destruct (block_appended (default "" (jh_file h)) es j) as [Hw' Hr']; [done..|].
      by constructor.
    + intros h n [Hw Hr Hm Ho]. destruct (block_torn (default "" (jh_file h)) es j n) as (k & Hk & Hr'); [done..|].
      split; exists k; by repeat split.
  - intros []. eapply spec_weaken; [apply (spec_elsewhere (holds (foldl put j es) m)), holds_tick|done|].
    cbn. intros [] h Hh; [done|apply torn_whole; by eapply holds_left..].
Qed.

Lemma rewrite_spec j m vs fin bytes_j :
  whole (record_lines vs) -> journal_of (record_lines vs) = Some bytes_j ->
  spec (fun h => left_as j h /\ jh_journal h = m) (rewrite_records sc vs fin)
    (fun r h => match r with Ok _ => holds bytes_j m h | _ => left_as j h end).
Proof.
  intros Hw Hr. unfold rewrite_records, with_context, plain.
  eapply spec_bind with (R := fun r h => (left_as j h /\ jh_journal h = m) /\ (r = Ok tt -> jh_temp h = Some ""));
    [| |naive_solver..].
  { apply spec_err, spec_jsys; cbn; [done|]. intros h n Hh. by split. }
  intros []. eapply spec_bind with (R := fun r h => (left_as j h /\ jh_journal h = m) /\ (r = Ok tt -> jh_temp h = Some (record_lines vs)));
    [| |naive_solver..].
  { apply spec_err, spec_jsys; cbn.
    - intros h [Hh Ht]. split; [done|]. intros _. by rewrite Ht.
    - intros h n [Hh Ht]. by split. }
  intros []. eapply spec_bind with (R := fun r h => (left_as j h /\ jh_journal h = m) /\ (r = Ok tt -> jh_temp h = Some (record_lines vs)));
    [| |naive_solver..].
  { destruct fin; [|by apply spec_ret; naive_solver].
    apply spec_err, spec_jsys; cbn; [|intros h n Hh; split]; naive_solver. }
  intros []. apply spec_err, spec_jsys; cbn.
  - intros h [[Hh Hm] Ht]. rewrite Ht by done. cbn. destruct Hh. by constructor.
  - intros h n [[Hh Hm] _]. by split.
Qed.
Lemma compact_spec j fin :
  journal_ok j ->
  spec (fun h => left_as j h /\ jh_journal h = j) (compact sc fin)
    (fun r h => match r with Ok _ => at_rest j h | _ => left_as j h end).
Proof.
  intros Hj. unfold compact. eapply spec_bind with (R := fun r h => r = Ok j /\ left_as j h /\ jh_journal h = j);
    [apply spec_get; naive_solver| |naive_solver..].
  intros a h (E & Hh & Hm). injection E as ->. unfold hash_values.
  destruct (compacted (jc_order sc _ (map snd (map_to_list (j_latest j)))) (jc_order sc _ (map snd (map_to_list (j_snapshots j)))) j)
    as [Hw Hr]; [done|apply Horder..|]. by apply (rewrite_spec j j _ fin j).
Qed.
Lemma compact_when_idle_spec j :
  journal_ok j ->
  spec (at_rest j) (compact_when_idle sc) (fun r h => match r with Ok _ => at_rest j h | _ => left_as j h end).
Proof.
  intros Hj. unfold compact_when_idle. eapply spec_bind with (R := fun r h => r = Ok j /\ at_rest j h);
    [apply spec_get; intros h Hh; by rewrite (ho_memory _ _ _ Hh)| |naive_solver..].
  intros a h [E Hh]. injection E as ->. destruct (all_idle (j_latest j)); [|done].
  apply (compact_spec j Bare Hj). split; [by eapply holds_left|by apply ho_memory in Hh].
Qed.

Lemma foldl_put_ok es j : journal_ok j -> Forall entry_ok es -> journal_ok (foldl put j es).
Proof. intros Hj Hes. revert j Hj. induction Hes; intros j Hj; [done|]. cbn. auto using put_ok. Qed.

(** ** One operation *)
Definition job_post (j : WorkerRecoveryJournal) (w : job) (r : result anyhow unit) (h : JHost) : Prop :=
  exists t t', let es := job_entries j w t t' in
  match r with Ok _ => at_rest (foldl put j es) h | _ => torn_by j es h end.

(** The clock and the journal in memory are read without a system call. *)
Lemma spec_now {B} P (k : string -> SM JHost anyhow B) Q :
  (forall h, P h -> P (jtick h)) -> (forall t, spec P (k t) Q) -> spec P (sbind (jnow_iso sc) k) Q.
Proof. intros HP Hk h Hh. unfold sbind, jnow_iso. cbn. by apply Hk, HP. Qed.
Lemma spec_memory {B} j m (k : WorkerRecoveryJournal -> SM JHost anyhow B) Q :
  spec (holds j m) (k m) Q -> spec (holds j m) (sbind (sget jh_journal) k) Q.
Proof. intros Hk h Hh. unfold sbind, sget. cbn. rewrite (ho_memory _ _ _ Hh). by apply Hk. Qed.
Lemma spec_put {B} j m e (k : SM JHost anyhow B) f Q :
  (forall h, jh_journal h = m -> f h = set_journal (put m e) h) ->
  spec (holds j (put m e)) k Q -> spec (holds j m) (sbind (smodify f) (fun _ => k)) Q.
Proof.
  intros Hf Hk h [Hw Hr Hm Ho]. unfold sbind, smodify. cbn. rewrite (Hf h Hm). apply Hk. by constructor.
Qed.

Lemma record_spec j a s f b o :
  journal_ok j -> spec (at_rest j) (record sc a s f b o) (job_post j (Record_ a s f b o)).
Proof.
  intros Hj. unfold record. apply spec_memory. unfold job_post. cbn [job_entries].
  fold (says j a f b o). destruct (says j a f b o).
  { apply spec_ret. intros h Hh. exists "", "". done. }
  apply spec_now; [apply holds_tick|]. intros t. set (e := Verdict (mkRecovery a s f b o t)).
  rewrite append_one. eapply spec_bind; [by apply (append_spec j j [e]); repeat constructor| |naive_solver..]. intros [].
  cbn [foldl]. apply (spec_put _ _ e); [by intros h <-|].
  eapply spec_weaken; [apply (compact_when_idle_spec (put j e)); by apply put_ok|done|].
  intros r h Hh. exists t, "". destruct r; [done|by apply (torn_whole j [e])..].
Qed.
Lemma snapshot_spec j a st fu :
  job_ok (QueueSnapshot a st fu) ->
  spec (at_rest j) (record_queue_snapshot sc a st fu) (job_post j (QueueSnapshot a st fu)).
Proof.
  intros Hok. unfold record_queue_snapshot, job_post. cbn [job_entries].
  apply spec_now; [apply holds_tick|]. intros t. set (e := Snapshot (queue_snapshot a st fu t)).
  assert (Forall entry_ok [e]) as He by apply (job_entries_ok j _ t "" Hok).
  rewrite append_one. eapply spec_bind; [by apply (append_spec j j [e])| |naive_solver..]. intros [].
  apply spec_modify. intros h [Hw Hr Hm Ho]. exists t, "". cbn [foldl] in *. constructor; [done..| |done].
  unfold insert_snapshot. by rewrite Hm.
Qed.
Lemma checkpoint_spec j a s f b o st fu :
  journal_ok j -> job_ok (Checkpoint a s f b o st fu) ->
  spec (at_rest j) (record_queue_checkpoint sc a s f b o st fu) (job_post j (Checkpoint a s f b o st fu)).
Proof.
  intros Hj Hok. unfold record_queue_checkpoint, job_post. cbn [job_entries].
  apply spec_now; [apply holds_tick|]. intros t. apply spec_memory. apply spec_now; [apply holds_tick|]. intros t'.
  pose proof (job_entries_ok j _ t t' Hok) as He. cbn [job_entries] in He.
  fold (says j a f b o). set (e := Snapshot (queue_snapshot a st fu t)) in *.
  destruct (says j a f b o).
  - eapply spec_bind; [by apply (append_spec j j [e])| |naive_solver..]. intros [].
    apply (spec_put _ _ e); [by intros h <-|]. apply spec_ret. intros h Hh. by exists t, "".
  - set (r := Verdict (mkRecovery a s f b o t')) in *.
    eapply spec_bind; [by apply (append_spec j j [e; r])| |naive_solver..]. intros [].
    apply (spec_put _ _ e); [by intros h <-|]. apply (spec_put _ _ r); [by intros h <-|].
    eapply spec_weaken; [apply (compact_when_idle_spec (foldl put j [e; r])); by apply foldl_put_ok|done|].
    intros x h Hh. exists t, t'. destruct x; [done|by apply (torn_whole j [e; r])..].
Qed.
Lemma job_spec j w : journal_ok j -> job_ok w -> spec (at_rest j) (run_job w) (job_post j w).
Proof. destruct w; intros Hj Hw; [by apply record_spec|by apply snapshot_spec|by apply checkpoint_spec]. Qed.

(** ** A run of operations *)

(** The operations of a worker, one after the other until one fails or the
    process dies; the number is how many were acknowledged. *)
Fixpoint run_jobs (ws : list job) (h : JHost) : nat * JHost :=
  match ws with
  | [] => (0%nat, h)
  | w :: ws' => match run_job w h with
                | (Ok _, h') => let '(n, h'') := run_jobs ws' h' in (S n, h'')
                | (_, h') => (0%nat, h')
                end
  end.
(** [wrote j ws n log]: a run of [ws] from state [j] in which [n] operations
    were acknowledged wrote [log]: all records of those, and of the operation
    that was cut off some first ones. *)
Inductive wrote : WorkerRecoveryJournal -> list job -> nat -> list jentry -> Prop :=
| wrote_nil j : wrote j [] 0 []
| wrote_job j w ws t t' n log :
    wrote (foldl put j (job_entries j w t t')) ws n log -> wrote j (w :: ws) (S n) (job_entries j w t t' ++ log)
| wrote_torn j w ws t t' k : wrote j (w :: ws) 0 (take k (job_entries j w t t')).

Lemma run_spec ws j h :
  journal_ok j -> Forall job_ok ws -> at_rest j h ->
  exists log, wrote j ws (fst (run_jobs ws h)) log /\ left_as (foldl put j log) (snd (run_jobs ws h)).
Proof.
  intros Hj Hws. revert j h Hj. induction Hws as [|w ws Hw Hws IH]; intros j h Hj Hh; cbn [run_jobs].
  { exists []. split; [constructor|by eapply holds_left]. }
  pose proof (job_spec j w Hj Hw h Hh) as (t & t' & Hp). destruct (run_job w h) as [[]h']; cbn in Hp.
  - destruct (IH (foldl put j (job_entries j w t t')) h') as (log & Hlog & Hl);
      [by apply foldl_put_ok, job_entries_ok|done|].
    destruct (run_jobs ws h') as [n h'']. exists (job_entries j w t t' ++ log)%list. rewrite foldl_app.
    split; [by apply wrote_job|done].
  - destruct Hp as (k & _ & Hl). eexists. split; [apply (wrote_torn j w ws t t' k)|done].
  - destruct Hp as (k & _ & Hl). eexists. split; [apply (wrote_torn j w ws t t' k)|done].
Qed.
End Operations.

(** ** Opening *)
Section Opening.
Context `{Env} `{LedgerEnv} `{!JsonLines} `{JournalText} `{!JournalTextOk} (sc : JScene).
Context (Horder : forall A (l : list A), jc_order sc A l ≡ₚ l).

Abbreviation at_rest j := (holds j j).
Definition says_file (j : WorkerRecoveryJournal) (owned : bool) (h : JHost) : Prop :=
  reads (jh_file h) = Some j /\ jh_owned h = owned.
Lemma spec_on_error {A} P f (m : SM JHost anyhow A) (Q : result anyhow A -> JHost -> Prop) :
  spec P m (fun r h => match r with Err e => Q (Err e) (f h) | _ => Q r h end) -> spec P (son_error f m) Q.
Proof. intros Hm h Hh. specialize (Hm h Hh). unfold son_error. by destruct (m h) as [[] h']. Qed.

(** A pass over the file of a readable journal finds its half of the state. *)
Lemma pass_spec {A} j b (half : WorkerRecoveryJournal -> A) (parse : option string -> anyhow + A) :
  (forall f, reads f = Some j -> parse f = inr (half j)) ->
  spec (says_file j b) (let+ content := read_journal sc in slift (parse content))
    (fun r h => says_file j b h /\ match r with Ok a => a = half j | _ => True end).
Proof.
  intros Hp. eapply spec_bind with (R := fun r h => says_file j b h /\ match r with Ok f => reads f = Some j | _ => True end);
    [| |done..].
  - apply spec_err, spec_jsys; cbn; [by intros h []|done].
  - intros f h [Hh Hf]. unfold slift. rewrite (Hp f Hf). done.
Qed.
Lemma tail_spec (P : JHost -> Prop) :
  (forall h, P h -> P (jtick h)) ->
  spec P (tail_is_torn sc)
    (fun r h => P h /\ match r with Ok torn => torn = false -> whole (default "" (jh_file h)) | _ => True end).
Proof.
  intros Htick. unfold tail_is_torn, with_context.
  eapply spec_bind with (R := fun r h => P h /\ match r with Ok f => f = jh_file h | _ => True end); [| |naive_solver..].
  { apply spec_err, spec_jsys; cbn; auto. }
  intros [c|].
  2: { apply spec_ret. intros h [Hh Hf]. split; [done|]. rewrite <- Hf. by left. }
  eapply spec_bind with (R := fun r h => (P h /\ Some c = jh_file h) /\ match r with Ok n => n = len c | _ => True end);
    [| |naive_solver..].
  { apply spec_err, spec_jsys; cbn; naive_solver. }
  intros n. apply spec_fact. intros ->. destruct (Nat.eqb_spec (len c) 0) as [E|_].
  { apply spec_ret. intros h [Hh Hf]. split; [done|]. cbn. rewrite <- Hf. left. by destruct c. }
  eapply spec_bind; [apply (spec_elsewhere sc (fun h => P h /\ Some c = jh_file h)); naive_solver| |naive_solver..]. intros [].
  eapply spec_bind; [apply (spec_elsewhere sc (fun h => P h /\ Some c = jh_file h)); naive_solver| |naive_solver..]. intros []. apply spec_ret.
  intros h [Hh Hf]. split; [done|]. rewrite <- Hf. cbn. intros Hn. right. by destruct (ends_with_newline c).
Qed.

(** From a readable file, opening recovers its state; failing or dying on the
    way, it leaves that state to the next one. *)
Lemma open_spec j :
  spec (says_file j false) (open_journal sc)
    (fun r h => match r with Ok _ => at_rest j h | Err _ => says_file j false h | Killed => reads (jh_file h) = Some j end).
Proof.
  unfold open_journal. eapply spec_bind; [apply (spec_elsewhere sc (says_file j false)); done| |done|by intros h []].
  intros []. unfold journal_write_owner, with_context.
  eapply spec_bind with (R := fun r h => match r with Ok _ => says_file j true h | _ => says_file j false h end);
    [| |done|by intros h []].
  { eapply spec_bind; [apply (spec_elsewhere sc (says_file j false)); done| |done..]. intros [].
    apply spec_err, spec_jsys; cbn; [|done]. intros h [Hr Ho]. rewrite Ho. done. }
  intros []. apply spec_on_error.
  eapply spec_bind; [apply (pass_spec j true j_snapshots)| |by intros e h [[Hr Ho] _]|by intros h [[Hr Ho] _]].
  { intros f Hf. pose proof (passes_read empty_is_torn (jc_path sc) f) as Hp. rewrite Hf in Hp. apply Hp. }
  intros snaps. apply spec_fact. intros ->.
  eapply spec_bind; [apply (pass_spec j true j_latest)| |by intros e h [[Hr Ho] _]|by intros h [[Hr Ho] _]].
  { intros f Hf. pose proof (passes_read empty_is_torn (jc_path sc) f) as Hp. rewrite Hf in Hp. apply Hp. }
  intros latest. apply spec_fact. intros ->. set (J := mkJournal (j_latest j) (j_snapshots j)).
  assert (J = j) as EJ by by destruct j. rewrite EJ. clear J EJ.
  eapply spec_bind with (R := fun r h => says_file j true h /\ jh_journal h = j); [apply spec_modify; by intros h []| |by intros e h [[] _]|by intros h [[] _]].
  intros []. eapply spec_bind; [apply (tail_spec (fun h => says_file j true h /\ jh_journal h = j)); by intros h [[]]| | |].
  2: { by intros e h [[[] _] _]. }
  2: { by intros h [[[] _] _]. }
  intros torn h [[[Hr Ho] Hm] Hw]. assert (journal_ok j) as Hj by by eapply journal_of_ok.
  destruct torn; [|cbn; by constructor; auto].
  pose proof (compact_spec sc Horder j Synced Hj h (conj (conj Hr Ho) Hm)) as Hc.
  destruct (compact sc Synced h) as [[]]; cbn in *; [done|by destruct Hc..].
Qed.

(** The write lock: an owned journal is not opened a second time, and the
    attempt changes nothing. *)
Lemma open_refused j :
  spec (says_file j true) (open_journal sc) (fun r h => match r with Ok _ => False | _ => says_file j true h end).
Proof.
  unfold open_journal. eapply spec_bind; [apply (spec_elsewhere sc (says_file j true)); done| |done..].
  intros []. unfold journal_write_owner, with_context.
  eapply spec_bind with (R := fun r h => match r with Ok _ => False | _ => says_file j true h end); [| |done..].
  - eapply spec_bind; [apply (spec_elsewhere sc (says_file j true)); done| |done..]. intros [].
    apply spec_err, spec_jsys; cbn; [|done]. intros h [Hr Ho]. by rewrite Ho.
  - by intros [] h [].
Qed.
End Opening.
