(* ===== verification/JournalLives.v ===== *)
(** * The recovery journal through deaths and restarts

    What workers recorded survives any sequence of process lives, the
    supervisor's give-up settles it, and what it reads at boot is what the file
    says. *)
From S2P Require Import Prelude RustStr Lines Json Time World LedgerReplay LedgerFile Effects Journal JournalProofs JournalTheorems.
#[local] Open Scope string_scope.
#[local] Open Scope Z_scope.

(** ** Lives *)
Section Lives.
Context `{Env} `{LedgerEnv} `{!JsonLines} `{JournalText} `{!JournalTextOk}.

(** One worker process: what fails around it, and what it records. *)
Record life := mkLife { lf_scene : JScene; lf_jobs : list job }.
Record life_ok (l : life) : Prop := {
  lo_order A (xs : list A) : jc_order (lf_scene l) A xs ≡ₚ xs;
  lo_jobs : Forall job_ok (lf_jobs l)
}.
(** It opens the journal and works until it is done, an operation fails, or it
    dies; then its lock is gone.  [None]: it did not get the journal open. *)
Definition live_out (l : life) (h : JHost) : option nat * JHost :=
  match open_journal (lf_scene l) h with
  | (Ok _, h') => let '(n, h'') := run_jobs (lf_scene l) (lf_jobs l) h' in (Some n, h'')
  | (_, h') => (None, h')
  end.
Definition next_process (h : JHost) : JHost := mkJHost (jh_file h) (jh_temp h) false 0 no_journal.
Fixpoint live_all (ls : list life) (h : JHost) : list (option nat) * JHost :=
  match ls with
  | [] => ([], h)
  | l :: ls' => let '(o, h') := live_out l (next_process h) in
                let '(os, h'') := live_all ls' h' in (o :: os, h'')
  end.

(** [survives j ls os log]: lives [ls] with outcomes [os] from a file that says
    [j] recorded [log]. *)
Inductive survives : WorkerRecoveryJournal -> list life -> list (option nat) -> list jentry -> Prop :=
| survives_nil j : survives j [] [] []
| survives_refused j l ls os log : survives j ls os log -> survives j (l :: ls) (None :: os) log
| survives_life j l ls os n log rest :
    wrote j (lf_jobs l) n log -> survives (foldl put j log) ls os rest -> survives j (l :: ls) (Some n :: os) (log ++ rest).

Lemma life_spec l j h :
  life_ok l -> journal_ok j -> says_file j false h ->
  match live_out l h with
  | (None, h') => reads (jh_file h') = Some j
  | (Some n, h') => exists log, wrote j (lf_jobs l) n log /\ reads (jh_file h') = Some (foldl put j log)
  end.
Proof.
  intros [Ho Hw] Hj Hh. unfold live_out. pose proof (open_spec (lf_scene l) Ho j h Hh) as Hop.
  destruct (open_journal (lf_scene l) h) as [[]h']; cbn in Hop; [|by destruct Hop|done].
  destruct (run_spec (lf_scene l) Ho (lf_jobs l) j h' Hj Hw Hop) as (log & Hlog & Hl).
  destruct (run_jobs _ _ h') as [n h'']. exists log. by destruct Hl.
Qed.

Lemma wrote_ok j ws n log : wrote j ws n log -> Forall job_ok ws -> Forall entry_ok log.
Proof.
  induction 1 as [|j w ws t t' n log _ IH|]; intros Hws; [constructor| |];
    apply Forall_cons in Hws as [Hw Hws]; pose proof (job_entries_ok j w t t' Hw) as He.
  - apply Forall_app. auto.
  - by apply Forall_take.
Qed.
Lemma lives_survive ls h j :
  Forall life_ok ls -> reads (jh_file h) = Some j -> journal_ok j ->
  exists log, survives j ls (fst (live_all ls h)) log /\ reads (jh_file (snd (live_all ls h))) = Some (foldl put j log).
Proof.
  intros Hls. revert h j. induction Hls as [|l ls Hl _ IH]; intros h j Hr Hj; cbn [live_all].
  { exists []. split; [constructor|done]. }
  pose proof (life_spec l j (next_process h) Hl Hj (conj Hr eq_refl)) as Hlife.
  destruct (live_out l (next_process h)) as [[n|] h'].
  - destruct Hlife as (log & Hlog & Hr').
    assert (journal_ok (foldl put j log)) as Hj' by (apply foldl_put_ok; [done|eapply wrote_ok; [done|apply lo_jobs, Hl]]).
    destruct (IH h' _ Hr' Hj') as (rest & Hsv & Hf). destruct (live_all ls h') as [os h'']. exists (log ++ rest)%list.
    split; [by econstructor|by rewrite foldl_app].
  - destruct (IH h' j Hlife Hj) as (log & Hsv & Hf). destruct (live_all ls h') as [os h'']. exists log. split; [by constructor|done].
Qed.
End Lives.

(** ** Settling *)

(** [calmer j j']: no session became busy, the idle ones and what is queued
    stayed as they were. *)
Record calmer (j j' : WorkerRecoveryJournal) : Prop := {
  ca_snapshots : j_snapshots j' = j_snapshots j;
  ca_sessions k : is_Some (j_latest j' !! k) <-> is_Some (j_latest j !! k);
  ca_busy k r : j_latest j' !! k = Some r -> wr_busy r = true -> j_latest j !! k = Some r;
  ca_idle k r : j_latest j !! k = Some r -> wr_busy r = false -> j_latest j' !! k = Some r
}.
Definition no_busy (j : WorkerRecoveryJournal) : Prop := forall k r, j_latest j !! k = Some r -> wr_busy r = false.
Lemma calmer_refl j : calmer j j.
Proof. by split. Qed.
Lemma calmer_put j j' r0 r :
  calmer j j' -> j_latest j !! wr_active_session_id r0 = Some r0 -> wr_busy r0 = true ->
  wr_active_session_id r = wr_active_session_id r0 -> wr_busy r = false -> calmer j (put j' (Verdict r)).
Proof.
  intros [Hs Hd Hb Hi] H0 Hb0 Hk Hr. split; cbn; [done| | |]; rewrite Hk.
  - intros k. rewrite <- Hd. destruct (decide (k = wr_active_session_id r0)) as [->|Hne].
    + rewrite lookup_insert_eq. split; [intros _; apply Hd; by eexists|done].
    + by rewrite lookup_insert_ne.
  - intros k x. rewrite lookup_insert_Some. intros [[_ <-]|[_ Hx]]; [congruence|by apply Hb].
  - intros k x Hx Hxb. rewrite lookup_insert_ne; [by apply Hi|]. intros <-. congruence.
Qed.

Section Settling.
Context `{Env} `{LedgerEnv} `{!JsonLines} `{JournalText} `{!JournalTextOk} (sc : JScene).
Context (Horder : forall A (l : list A), jc_order sc A l ≡ₚ l).

(** The sessions still busy are those the loop has yet to visit. *)
Record settling (j : WorkerRecoveryJournal) (rest : list WorkerRecoveryRecord) (j' : WorkerRecoveryJournal) : Prop := {
  se_calmer : calmer j j';
  se_ok : journal_ok j';
  se_rest r : r ∈ rest -> j_latest j !! wr_active_session_id r = Some r /\ wr_busy r = true;
  se_busy k r : j_latest j' !! k = Some r -> wr_busy r = true -> r ∈ rest
}.
Lemma settle_step j r rest j' t t' :
  settling j (r :: rest) j' ->
  let es := job_entries j' (Record_ (wr_active_session_id r) (wr_session_id r) (wr_session_file r) false t) t' "" in
  settling j rest (foldl put j' es) /\ forall k, calmer j (foldl put j' (take k es)).
Proof.
  intros [Hc Hj Hr Hb] es. destruct (Hr r) as [Hr1 Hr2]; [by left|]. unfold es. cbn [job_entries].
  unfold says. destruct (j_latest j' !! wr_active_session_id r) as [x|] eqn:Ex.
  2: { destruct (ca_sessions _ _ Hc (wr_active_session_id r)) as [_ Hd]. rewrite Ex in Hd. by destruct Hd. }
  destruct (unchanged x (wr_session_file r) false t) eqn:Eu.
  - split; [|by intros k; rewrite take_nil]. split; [done..|intros y Hy; apply Hr; by right|].
    cbn. intros k y Hy Hyb. specialize (Hb k y Hy Hyb). apply elem_of_cons in Hb as [->|Hb]; [|done].
    rewrite (jo_latest _ Hj k r Hy) in Ex. rewrite Hy in Ex. injection Ex as <-.
    unfold unchanged in Eu. by rewrite Hyb in Eu.
  - set (v := mkRecovery _ _ _ _ _ _). assert (calmer j (put j' (Verdict v))) as Hv by by apply (calmer_put j j' r).
    split; [|intros [|[|k]]; done]. split; [done|by apply put_ok|intros y Hy; apply Hr; by right|].
    intros k y. cbn. rewrite lookup_insert_Some. intros [[_ <-]|[Hne Hy]]; [done|]. intros Hyb.
    specialize (Hb k y Hy Hyb). apply elem_of_cons in Hb as [->|Hb]; [|done]. by rewrite (jo_latest _ Hj k r Hy) in Hne.
Qed.
Lemma settle_loop j operation rest j' :
  settling j rest j' ->
  spec (holds j' j') (sfor_each (settle_record sc operation) rest) (fun r h =>
    exists j'', calmer j j'' /\ left_as j'' h /\ (r = Ok tt -> no_busy j'')).
Proof.
  revert j'. induction rest as [|r rest IH]; intros j' Hs; cbn [sfor_each].
  - apply spec_ret. intros h Hh. exists j'. split; [apply Hs|]. split; [by eapply holds_left|].
    intros _ k x Hx. destruct (wr_busy x) eqn:E; [|done]. by apply (se_busy _ _ _ Hs k) in E; [apply elem_of_nil in E|].
  - eapply spec_bind; [apply (record_spec sc Horder j'); apply Hs| | |].
    + intros [] h (t & t' & Hh). apply (IH _ (proj1 (settle_step j r rest j' operation t Hs)) h Hh).
    + intros e h (t & t' & k & _ & Hh). eexists. split; [apply (proj2 (settle_step j r rest j' operation t Hs) k)|]. split; [apply Hh|done].
    + intros h (t & t' & k & _ & Hh). eexists. split; [apply (proj2 (settle_step j r rest j' operation t Hs) k)|]. split; [apply Hh|done].
Qed.

(** Settling from a readable file: done, no session is busy; failing or dying,
    what was settled stays settled. *)
Lemma settle_spec j operation :
  spec (says_file j false) (settle_busy_records sc operation) (fun r h =>
    exists j', calmer j j' /\ reads (jh_file h) = Some j' /\ (r = Ok tt -> no_busy j') /\ (r <> Killed -> jh_owned h = false)).
Proof.
  unfold settle_busy_records. eapply spec_bind; [by apply open_spec| | |].
  2: { intros e h [Hr Ho]. exists j. split; [apply calmer_refl|]. done. }
  2: { intros h Hr. exists j. split; [apply calmer_refl|]. done. }
  intros []. eapply spec_bind with (R := fun r h => exists j', calmer j j' /\ reads (jh_file h) = Some j'
      /\ match r with Ok _ => no_busy j' | Err _ => jh_owned h = false | Killed => True end).
  - apply spec_on_error. eapply spec_bind with (R := fun r h => holds j j h /\ r = Ok (List.filter wr_busy (hash_values sc (j_latest j)))).
    + apply spec_get. intros h Hh. split; [done|]. by rewrite (ho_memory _ _ _ Hh).
    + intros busy. apply spec_fact. intros [= ->].
      intros h Hh. assert (journal_ok j) as Hj by by eapply journal_of_ok, ho_reads.
      destruct (settle_loop j operation (List.filter wr_busy (hash_values sc (j_latest j))) j) with (s := h) as (j' & Hc & Hl & Hn); [|done|].
      * assert (forall r, r ∈ List.filter wr_busy (hash_values sc (j_latest j)) <-> j_latest j !! wr_active_session_id r = Some r /\ wr_busy r = true) as Hin.
        { intros r. rewrite list_elem_of_In, filter_In, <- list_elem_of_In. unfold hash_values. rewrite Horder, list_elem_of_fmap. split.
          - intros [([k x] & -> & Hx) Hb]. apply elem_of_map_to_list in Hx. cbn in *. by rewrite (jo_latest _ Hj k x).
          - intros [Hx Hb]. split; [|done]. exists (wr_active_session_id r, r). split; [done|by apply elem_of_map_to_list]. }
        split; [apply calmer_refl|done|intros r; apply Hin|]. intros k r Hr Hb. apply Hin. by rewrite (jo_latest _ Hj k r).
      * destruct (sfor_each _ _ h) as [[[]|e|] h']; exists j'; cbn in *; destruct Hl; naive_solver.
    + intros e h [_ ?]. done.
    + intros h [_ ?]. done.
  - intros []. apply spec_modify. intros h (j' & Hc & Hr & Hn). by exists j'.
  - intros e h (j' & Hc & Hr & Ho). by exists j'.
  - intros h (j' & Hc & Hr & _). by exists j'.
Qed.

(** ** What the supervisor reads *)
Definition busy_at (j : WorkerRecoveryJournal) (t : string) : Prop :=
  exists k r, j_latest j !! k = Some r /\ wr_busy r = true /\ wr_recorded_at r = t.
Lemma read_latest_spec j b :
  spec (says_file j b) (read_latest sc) (fun r h =>
    says_file j b h /\ match r with Ok l => l ≡ₚ map snd (map_to_list (j_latest j)) | _ => True end).
Proof.
  unfold read_latest. eapply spec_bind; [apply (pass_spec sc j b j_latest)| |by intros e h []..|by intros h []].
  { intros f Hf. pose proof (passes_read empty_is_torn (jc_path sc) f) as Hp. rewrite Hf in Hp. apply Hp. }
  intros l. apply spec_fact. intros ->. apply spec_ret. intros h Hh. split; [done|apply Horder].
Qed.
Lemma spec_stry {A F} P (m : SM JHost anyhow A) (Q : result F (anyhow + A) -> JHost -> Prop) :
  spec P m (fun r h => Q (match r with Ok a => Ok (inr a) | Err e => Ok (inl e) | Killed => Killed end) h) -> spec P (stry m) Q.
Proof. intros Hm h Hh. specialize (Hm h Hh). unfold stry. by destruct (m h) as [[] h']. Qed.
Lemma read_busy_spec {B} j b (f : anyhow + list WorkerRecoveryRecord -> B) (Q : B -> Prop) :
  (forall e, Q (f (inl e))) ->
  (forall l, l ≡ₚ map snd (map_to_list (j_latest j)) -> Q (f (inr l))) ->
  spec (E := anyhow) (says_file j b) (let+ records := stry (read_latest sc) in sret (f records)) (fun r h =>
    says_file j b h /\ match r with Ok x => Q x | _ => True end).
Proof.
  intros Hl Hr. eapply spec_bind with (R := fun r h => says_file j b h /\ match r with Ok (inr l) => l ≡ₚ map snd (map_to_list (j_latest j)) | _ => True end);
    [| |by intros e h []|by intros h []].
  - apply spec_stry. eapply spec_weaken; [apply read_latest_spec|done|]. by intros [] h.
  - intros [e|l]; apply spec_fact; intros Hx; apply spec_ret; intros h Hh; auto.
Qed.
Lemma elem_of_values j l r : l ≡ₚ map snd (map_to_list (j_latest j)) -> r ∈ l -> exists k, j_latest j !! k = Some r.
Proof. intros ->. rewrite list_elem_of_fmap. intros ([k x] & -> & Hx). exists k. by apply elem_of_map_to_list. Qed.
Lemma interrupted_spec j b :
  spec (says_file j b) (read_interrupted sc) (fun r h =>
    says_file j b h /\ match r with Ok i => i = true -> exists t, busy_at j t | _ => True end).
Proof.
  apply (read_busy_spec j b (fun records => match records with inr l => existsb wr_busy l | inl _ => false end)); [done|].
  intros l Hl (r & Hin%list_elem_of_In & Hb)%existsb_exists. destruct (elem_of_values j l r Hl Hin) as [k Hk].
  by exists (wr_recorded_at r), k, r.
Qed.
Lemma max_str_elem l t : max_str l = Some t -> t ∈ l.
Proof.
  destruct l as [|x l]; [done|]. cbn. intros [= <-]. revert x. induction l as [|y l IH]; intros x; cbn; [by left|].
  specialize (IH (str_max x y)). apply elem_of_cons in IH as [IH|IH]; [|by right; right]. rewrite IH. unfold str_max. case_match; [right|]; by left.
Qed.
Lemma busy_recorded_spec j b :
  spec (says_file j b) (latest_busy_recorded_at sc) (fun r h =>
    says_file j b h /\ match r with Ok (Some t) => busy_at j t | _ => True end).
Proof.
  eapply spec_weaken; [apply (read_busy_spec j b (fun records => match records with inr l => max_str (map wr_recorded_at (List.filter wr_busy l)) | inl _ => None end)
    (fun o => match o with Some t => busy_at j t | None => True end)); [done|]|done|].
  - intros l Hl. destruct (max_str _) as [t|] eqn:E; [|done]. apply max_str_elem, list_elem_of_fmap in E as (r & -> & Hin).
    apply list_elem_of_In, filter_In in Hin as [Hin%list_elem_of_In Hb]. destruct (elem_of_values j l r Hl Hin) as [k Hk]. by exists k, r.
  - intros [[t|]| |] h; done.
Qed.
End Settling.

(** ** When nothing fails *)
Section Quiet.
Context `{Env} `{LedgerEnv} `{!JsonLines} `{JournalText} `{!JournalTextOk} (sc : JScene).
Context (Hquiet : forall n, jc_fault sc n = JRun).

Lemma quiet_sys {A} part (eff : JHost -> (io_kind + A) * JHost) h :
  jsys sc part eff h = (match fst (eff h) with inl k => Err (os_error k) | inr a => Ok a end, jtick (snd (eff h))).
Proof. unfold jsys. rewrite Hquiet. by destruct (eff h) as [[] h']. Qed.
Ltac quiet := unfold with_context, plain, jelsewhere, jquery, open_append, write_append, smap_err, sbind; rewrite ?quiet_sys; cbn.

Lemma append_answers vs h : exists h', append_records sc vs h = (Ok tt, h').
Proof. unfold append_records. quiet. repeat (rewrite quiet_sys; cbn). by eexists. Qed.
Lemma rewrite_answers vs fin h : exists h', rewrite_records sc vs fin h = (Ok tt, h').
Proof. unfold rewrite_records. quiet. repeat (rewrite quiet_sys; cbn). destruct fin; cbn; quiet; repeat (rewrite quiet_sys; cbn); by eexists. Qed.
Lemma idle_answers h : exists h', compact_when_idle sc h = (Ok tt, h').
Proof.
  unfold compact_when_idle, compact, sbind, sget. destruct (all_idle _); [apply rewrite_answers|by eexists].
Qed.
Lemma job_answers w h : exists h', run_job sc w h = (Ok tt, h').
Proof.
  destruct w as [a s f b o|a st fu|a s f b o st fu]; cbn [run_job].
  - unfold record. unfold sbind at 1, sget at 1. destruct (match j_latest (jh_journal h) !! a with Some _ => _ | None => _ end); [by eexists|].
    unfold sbind at 1, jnow_iso at 1. rewrite append_one. unfold sbind at 1.
    edestruct append_answers as [h' ->]. apply idle_answers.
  - unfold record_queue_snapshot. unfold sbind at 1, jnow_iso at 1. rewrite append_one. unfold sbind at 1.
    edestruct append_answers as [h' ->]. by eexists.
  - unfold record_queue_checkpoint. unfold sbind at 1, jnow_iso at 1. unfold sbind at 1, sget at 1. unfold sbind at 1, jnow_iso at 1. unfold sbind at 1.
    edestruct append_answers as [h' ->]. destruct (match j_latest _ !! a with Some _ => _ | None => _ end); [by eexists|apply idle_answers].
Qed.
Lemma jobs_answer ws h : fst (run_jobs sc ws h) = List.length ws.
Proof.
  revert h. induction ws as [|w ws IH]; intros h; [done|]. cbn. destruct (job_answers w h) as [h' ->].
  specialize (IH h'). destruct (run_jobs sc ws h'). cbn in *. by f_equal.
Qed.
Lemma open_answers j h : says_file j false h -> exists h', open_journal sc h = (Ok tt, h').
Proof.
  intros [Hr Ho]. pose proof (passes_read empty_is_torn (jc_path sc) (jh_file h)) as Hp. rewrite Hr in Hp. destruct Hp as [Hw Hs].
  unfold open_journal, journal_write_owner, parse_queue_snapshot_records, parse_worker_records, read_journal. quiet.
  repeat (rewrite quiet_sys; cbn). rewrite Ho. cbn. unfold son_error. quiet. rewrite Hs. cbn.
  repeat (rewrite quiet_sys; cbn). rewrite Hw. cbn. unfold tail_is_torn. quiet.
  destruct (jh_file h) as [c|]; cbn; [|by eexists]. repeat (rewrite quiet_sys; cbn). destruct (Nat.eqb (len c) 0); [by eexists|].
  repeat (rewrite quiet_sys; cbn). destruct (negb (ends_with_newline c)); [|by eexists].
  unfold compact, sbind, sget. edestruct rewrite_answers as [h' ->]. by eexists.
Qed.
End Quiet.
