(* ===== verification/Queue.v ===== *)
(** * The items a session has queued

    The data of [worker/queue.rs]: items with a priority and a turn class, the
    two lanes, how an item is placed in a lane, which prefix of a lane becomes
    one turn, how lanes go to the recovery journal and come back, and the
    mutation of one item ([queue_commands.rs]). *)
From S2P Require Import Prelude RustStr Json Time World LedgerReplay Protocol Slash Journal.
#[local] Open Scope string_scope.

(** ** Items *)
Inductive Lane := Steering | FollowUp.
#[export] Instance lane_eq_dec : EqDecision Lane.
Proof. solve_decision. Defined.
#[export] Instance policy_eq_dec : EqDecision TurnPolicy.
Proof. solve_decision. Defined.
Definition lane_as_str (l : Lane) : string := match l with Steering => "steering" | FollowUp => "follow_up" end.
Definition QUEUED_INPUT_SUSPENDED : string := "Cannot admit a session action while queued session input is suspended.".
Definition PROMPT_ABORTED_BEFORE_DELIVERY : string := "Prompt aborted before delivery.".
Definition QUEUED_PROMPT_DELETED : string := "Queued prompt was deleted before delivery.".
Definition ABORTED_TURN_SETTLE_ERROR : string := "No response produced.".
Definition AUTONOMOUS_QUEUE_KEY : string := "autonomous:continuation".

Inductive TurnSettle := SettleCompleted | SettleAborted | Withdrawn (text : string) | SettleFailed (text : string).
Definition wire_error (s : TurnSettle) : option string :=
  match s with
  | SettleCompleted => None
  | SettleAborted => Some ABORTED_TURN_SETTLE_ERROR
  | Withdrawn text | SettleFailed text => Some text
  end.

Definition rank (p : QueuePriority) : Z := match p with Background => 0 | Human => 1 | Pinned => 2 end.
Record ImageContent := mkImage { im_data : string; im_mime_type : string }.
(** [qd_done]: the caller that waits, by number. *)
Record QueuedItem := mkQueued {
  qd_message : string;
  qd_priority : QueuePriority;
  qd_preview : option string;
  qd_custom_message : option Value;
  qd_agent_message : option string;
  qd_queue_key : option string;
  qd_admission_id : option string;
  qd_images : list ImageContent;
  qd_done : option nat;
  qd_queue_visible : bool;
  qd_policy : TurnPolicy;
  qd_forced_batch : bool
}.

(** The walk back over a lower-priority suffix, from the end of the lane. *)
Fixpoint insert_point (r : Z) (reversed : list QueuedItem) : nat :=
  match reversed with
  | x :: rest => if (rank (qd_priority x) <? r)%Z then insert_point r rest else List.length reversed
  | [] => 0
  end.
Definition enqueue_priority (lane : list QueuedItem) (item : QueuedItem) : list QueuedItem :=
  let i := insert_point (rank (qd_priority item)) (rev lane) in
  (take i lane ++ item :: drop i lane)%list.

(** ** Wire data *)
Definition parse_image (image : Value) : option ImageContent :=
  if negb (bool_decide (get_str "type" image = Some "image")) then None
  else
    data ← get_str "data" image;
    mime ← get_str "mimeType" image;
    Some (mkImage data mime).
Definition parse_prompt_images (payload : Value) : list ImageContent :=
  match get "images" payload ≫= as_array with Some images => omap parse_image images | None => [] end.
Definition invalid_custom_message : string := "Invalid customMessage: expected a custom message object with a customType".
Definition parse_custom_message (value : option Value) : string + option Value :=
  match value with
  | None | Some VNull => inr None
  | Some (VObject ms as v) =>
      if negb (bool_decide (get_str "role" v = Some "custom")) then inl invalid_custom_message
      else match get_str "customType" v with
           | Some kind => if is_empty kind then inl invalid_custom_message else inr (Some v)
           | None => inl invalid_custom_message
           end
  | Some _ => inl invalid_custom_message
  end.
Definition wire_lane (value : option Value) : option Lane :=
  match value ≫= as_str with
  | Some "steering" => Some Steering
  | Some "followUp" => Some FollowUp
  | _ => None
  end.
Definition restored_turn_policy (payload : Value) : TurnPolicy :=
  match (get "executionPolicy" payload ≫= get_str "nextTurnContextTiming") with
  | Some "preparation" => Direct
  | _ => Queued
  end.

(** [child_status_notices.rs]: rows only the daemon may queue. *)
Definition RLM_CHILD_TERMINAL_NOTICE_CUSTOM_TYPE : string := "rlm_child_terminal_notice".
Definition RLM_CHILD_FAILURE_CUSTOM_TYPE : string := "rlm_child_failure".
Definition is_reserved_child_status_custom_type (custom_message : Value) : bool :=
  bool_decide (get_str "customType" custom_message = Some RLM_CHILD_TERMINAL_NOTICE_CUSTOM_TYPE)
  || bool_decide (get_str "customType" custom_message = Some RLM_CHILD_FAILURE_CUSTOM_TYPE).
Definition reserved_intake_error : string :=
  "Invalid customMessage: the " ++ RLM_CHILD_TERMINAL_NOTICE_CUSTOM_TYPE ++ "/" ++ RLM_CHILD_FAILURE_CUSTOM_TYPE
  ++ " custom types are reserved for daemon-injected RLM child status notices".
Definition GOAL_CONTEXT_CUSTOM_TYPE : string := "goal_context".
Definition is_goal_context_item (item : QueuedItem) : bool :=
  match qd_custom_message item with Some row => bool_decide (get_str "customType" row = Some GOAL_CONTEXT_CUSTOM_TYPE) | None => false end.
Definition ASYNC_BASH_COMPLETION_CUSTOM_TYPE : string := "async_bash_completion".
Record BashConsumedNotice := mkConsumed { bn_pid : Z; bn_command : string }.
Definition is_bash_completion_notice_for (item : QueuedItem) (notice : BashConsumedNotice) : bool :=
  match qd_custom_message item with
  | None => false
  | Some row =>
      if negb (bool_decide (get_str "customType" row = Some ASYNC_BASH_COMPLETION_CUSTOM_TYPE)) then false
      else
        let details := default VNull (get "details" row) in
        bool_decide (get "pid" details ≫= as_u64 = Some (bn_pid notice))
        && bool_decide (get_str "command" details = Some (bn_command notice))
  end.

(** ** Lanes *)

(** The prefix that joins the front of a lane in its turn. *)
Definition joins (first_policy : TurnPolicy) (forced : bool) (next : QueuedItem) : bool :=
  negb (negb (bool_decide (qd_policy next = first_policy))
        || bool_decide (is_Some (qd_custom_message next))
        || (forced && negb (qd_forced_batch next))
        || bool_decide (is_Some (parse_prompt_session_command (qd_message next)))).
Fixpoint take_joining (policy : TurnPolicy) (forced : bool) (lane : list QueuedItem) : list QueuedItem * list QueuedItem :=
  match lane with
  | next :: rest =>
      if joins policy forced next
      then let '(batch, kept) := take_joining policy forced rest in (next :: batch, kept)
      else ([], lane)
  | [] => ([], [])
  end.
(** [gather_delivery_batch] on a lane: the batch, the rest of the lane, and
    [forced_all_steering]. *)
Definition gather_delivery_batch (lane : Lane) (mode : string) (forced_all : bool) (items : list QueuedItem)
    : list QueuedItem * list QueuedItem * bool :=
  match items with
  | [] => ([], [], forced_all)
  | first :: rest =>
      let steering := bool_decide (lane = Steering) in
      let forced := steering && forced_all && qd_forced_batch first in
      let forced_all' :=
        if steering && forced_all && negb forced && negb (existsb qd_forced_batch items) then false else forced_all in
      if bool_decide (is_Some (qd_custom_message first)) || bool_decide (qd_policy first = Direct)
         || bool_decide (is_Some (parse_prompt_session_command (qd_message first)))
      then ([first], rest, forced_all')
      else if forced || String.eqb mode "all"
      then let '(batch, kept) := take_joining (qd_policy first) forced rest in (first :: batch, kept, forced_all')
      else ([first], rest, forced_all')
  end.

(** [queue_lanes] and the [pending] of [restore_queue_snapshot], on an item. *)
Definition item_record (item : QueuedItem) : WorkerQueueItemRecord :=
  mkItem (qd_message item) (Some (qd_priority item)) (qd_preview item) (qd_custom_message item) (qd_queue_key item)
    (qd_queue_visible item) (journal_value (qd_policy item)).
Definition restored_item (r : WorkerQueueItemRecord) : QueuedItem :=
  mkQueued (qi_message r)
    (default (if bool_decide (is_Some (qi_custom_message r)) then Background else Human) (qi_priority r))
    (qi_preview r) (qi_custom_message r) None (qi_queue_key r) None [] None (qi_queue_visible r) (item_policy r) false.
Definition restore_queue_snapshot (j : WorkerRecoveryJournal) (active_session_id : string) : list QueuedItem * list QueuedItem :=
  match latest_queue_snapshot j active_session_id with
  | Some (steering, follow_up) => (map restored_item steering, map restored_item follow_up)
  | None => ([], [])
  end.

(** ** Mutations *)
Definition shown (item : QueuedItem) : string := default (qd_message item) (qd_preview item).
Definition wrap_i64 (n : Z) : Z := ((n + 2 ^ 63) mod 2 ^ 64 - 2 ^ 63)%Z.
Definition swap_items (lane : list QueuedItem) (i j : nat) : list QueuedItem :=
  match lane !! i, lane !! j with
  | Some x, Some y => <[j := x]> (<[i := y]> lane)
  | _, _ => lane
  end.
Definition edited (item : QueuedItem) (text : string) (images : option (list ImageContent)) : QueuedItem :=
  mkQueued text (qd_priority item) None (qd_custom_message item) (qd_agent_message item) (qd_queue_key item) (qd_admission_id item)
    (default (qd_images item) images) (qd_done item) (qd_queue_visible item) (qd_policy item) (qd_forced_batch item).
(** [None]: rejected.  The waiter of a deleted item comes with the lane. *)
Definition mutate_lane (lane : list QueuedItem) (index : nat) (expected : string) (mutation : Value) (mutation_type : string)
    : option (list QueuedItem * list nat) :=
  match lane !! index with
  | None => None
  | Some item =>
      if negb (String.eqb (shown item) expected) then None
      else if String.eqb mutation_type "delete" then Some (delete index lane, option_list (qd_done item))
      else if String.eqb mutation_type "move" then
        let direction := default 0%Z (get "direction" mutation ≫= as_i64) in
        let target := wrap_i64 (Z.of_nat index + direction) in
        if (target <? 0)%Z || (Z.of_nat (List.length lane) <=? target)%Z || (direction =? 0)%Z then None
        else Some (swap_items lane index (Z.to_nat target), [])
      else if String.eqb mutation_type "replace" then
        if bool_decide (is_Some (qd_custom_message item)) || bool_decide (is_Some (qd_agent_message item)) then None
        else match get_str "text" mutation with
             | None => None
             | Some text =>
                 let images := match get "images" mutation with Some _ => Some (parse_prompt_images mutation) | None => None end in
                 Some (<[index := edited item text images]> lane, [])
             end
      else None
  end.
