(* ===== verification/QueueWorker.v ===== *)
(** * The input queue of a session

    What changes the lanes of a session: the handlers of [worker/input.rs],
    [queue_commands.rs], [worker/commands.rs], [agent_message_ingest.rs],
    [session_custom.rs] and [scheduled_jobs.rs], the worker's half of
    [prompt_admission.rs] and [session_input_pause.rs], the sinks of
    [worker/queue.rs], and the pickup and settle of the turn runner
    ([worker/turn.rs]).  Every change that leaves work behind is checkpointed
    in the recovery journal.

    Handlers, the runner and checkpoints interleave at the locks they take: a
    step of [qstep] is one critical section.  A handler with several is spread
    over steps through [ws_pending]; a checkpoint is owed after the section
    that asks for it, reads the lanes under the journal's lock, and writes what
    it read later.  Events, the roster and the wake-ups are not modelled: the
    runner may look at its queue at any time. *)
From S2P Require Import Prelude RustStr Json Time World LedgerReplay Effects Protocol Slash Journal Queue.
#[local] Open Scope string_scope.

(** ** State *)
Inductive AdmissionStatus := Waiting | Owned | CancelledAdmission.
#[export] Instance admission_status_eq_dec : EqDecision AdmissionStatus.
Proof. solve_decision. Defined.
Record InputPauseEntry := mkPause { pa_active_session_id : string; pa_owner_client_id : string; pa_lease_key : string }.
#[export] Instance pause_eq_dec : EqDecision InputPauseEntry.
Proof. solve_decision. Defined.

(** The parts of [SessionCore] the queue works on. *)
Record SessionCore := mkCore {
  co_active_session_id : string;
  co_session_id : string;
  co_session_file : option string;
  co_created : bool;
  co_steering_mode : string;
  co_follow_up_mode : string;
  co_steering : list QueuedItem;
  co_follow_up : list QueuedItem;
  co_busy : bool;
  co_shutdown_requested : bool;
  co_abort_requested : bool;
  co_compacting : bool;
  co_suspended : bool;                     (* [queued_input_suspended] *)
  co_forced_all_steering : bool;
  co_running_admission_ids : list string
}.
Definition with_lanes (steering follow_up : list QueuedItem) (c : SessionCore) : SessionCore :=
  mkCore (co_active_session_id c) (co_session_id c) (co_session_file c) (co_created c) (co_steering_mode c) (co_follow_up_mode c)
    steering follow_up (co_busy c) (co_shutdown_requested c) (co_abort_requested c) (co_compacting c) (co_suspended c)
    (co_forced_all_steering c) (co_running_admission_ids c).
Definition with_run (busy : bool) (running : list string) (c : SessionCore) : SessionCore :=
  mkCore (co_active_session_id c) (co_session_id c) (co_session_file c) (co_created c) (co_steering_mode c) (co_follow_up_mode c)
    (co_steering c) (co_follow_up c) busy (co_shutdown_requested c) (co_abort_requested c) (co_compacting c) (co_suspended c)
    (co_forced_all_steering c) running.
Definition with_flags (shutdown abort compacting suspended forced_all : bool) (c : SessionCore) : SessionCore :=
  mkCore (co_active_session_id c) (co_session_id c) (co_session_file c) (co_created c) (co_steering_mode c) (co_follow_up_mode c)
    (co_steering c) (co_follow_up c) (co_busy c) shutdown abort compacting suspended forced_all (co_running_admission_ids c).
Definition suspend (b : bool) (c : SessionCore) : SessionCore :=
  with_flags (co_shutdown_requested c) (co_abort_requested c) (co_compacting c) b (co_forced_all_steering c) c.
Definition abort_flag (b : bool) (c : SessionCore) : SessionCore :=
  with_flags (co_shutdown_requested c) b (co_compacting c) (co_suspended c) (co_forced_all_steering c) c.
Definition compacting_flag (b : bool) (c : SessionCore) : SessionCore :=
  with_flags (co_shutdown_requested c) (co_abort_requested c) b (co_suspended c) (co_forced_all_steering c) c.
Definition force_all (b : bool) (c : SessionCore) : SessionCore :=
  with_flags (co_shutdown_requested c) (co_abort_requested c) (co_compacting c) (co_suspended c) b c.
Definition on_lane (l : Lane) (f : list QueuedItem -> list QueuedItem) (c : SessionCore) : SessionCore :=
  match l with
  | Steering => with_lanes (f (co_steering c)) (co_follow_up c) c
  | FollowUp => with_lanes (co_steering c) (f (co_follow_up c)) c
  end.
Definition queued_work (c : SessionCore) : bool := match co_steering c, co_follow_up c with [], [] => false | _, _ => true end.
(** Every queued item. *)
Definition queue (c : SessionCore) : list QueuedItem := (co_steering c ++ co_follow_up c)%list.

(** [QueueCheckpoint]: the work is live, or the verdict follows the lanes. *)
Inductive QueueCheckpoint := CheckpointAdmitted (operation : string) | CheckpointSettle (operation : string).
(** What a checkpoint has read and is about to append. *)
Record CheckpointRead := mkRead {
  cr_active_session_id : string;
  cr_session_id : string;
  cr_session_file : option string;
  cr_busy : bool;
  cr_operation : string;
  cr_steering : list WorkerQueueItemRecord;
  cr_follow_up : list WorkerQueueItemRecord
}.
(** The turn runner: waiting, in a turn, between the end of a turn and its
    settle, or gone after a shutdown. *)
Inductive Runner := Parked | InTurn (items : list QueuedItem) | Ended (items : list QueuedItem) (out : option TurnSettle) | Gone.
(** The answers of code outside the queue to a delivery: a new message id, the
    clock, whether the sender's recorded parent is this session, and how the
    session is described. *)
Record DeliveryProbe := mkProbeD {
  dp_id : string; dp_now_ms : Z; dp_now_iso : string; dp_child : bool; dp_runtime_kind : option string; dp_session_name : option string }.
(** The rest of a handler that is between two critical sections. *)
Inductive Pending :=
| PromptReady (message : string) (images : list ImageContent) (custom : option Value) (streaming : option string)
    (admission_id : option string) (wait : bool)
| InputReady (lane : Lane) (message : string) (images : list ImageContent) (custom : option Value)
| DeliveryReady (payload : Value) (probe : DeliveryProbe)
| ResumeThenCheckpoint (c : QueueCheckpoint)
| ResumeIfQueued
| AbortReady.

(** What a waiting caller was told; [None]: its channel was dropped. *)
Record WorkerState := mkWorker {
  ws_core : SessionCore;
  ws_admissions : gmap string AdmissionStatus;
  ws_pauses : gmap string InputPauseEntry;
  ws_notices : gset string;                (* unconsumed notice capabilities *)
  ws_agent_paused : bool;
  ws_runner : Runner;
  ws_pending : list Pending;
  ws_owed : list QueueCheckpoint;
  ws_writing : option CheckpointRead;      (* the recovery lock is held *)
  ws_next_waiter : nat;
  ws_answers : list (nat * option TurnSettle);
  ws_journal : JHost;
  ws_dead : bool
}.
Definition set_core f (s : WorkerState) : WorkerState := mkWorker (f (ws_core s)) (ws_admissions s) (ws_pauses s) (ws_notices s) (ws_agent_paused s) (ws_runner s) (ws_pending s) (ws_owed s) (ws_writing s) (ws_next_waiter s) (ws_answers s) (ws_journal s) (ws_dead s).
Definition set_admissions f (s : WorkerState) : WorkerState := mkWorker (ws_core s) (f (ws_admissions s)) (ws_pauses s) (ws_notices s) (ws_agent_paused s) (ws_runner s) (ws_pending s) (ws_owed s) (ws_writing s) (ws_next_waiter s) (ws_answers s) (ws_journal s) (ws_dead s).
Definition set_pauses f (s : WorkerState) : WorkerState := mkWorker (ws_core s) (ws_admissions s) (f (ws_pauses s)) (ws_notices s) (ws_agent_paused s) (ws_runner s) (ws_pending s) (ws_owed s) (ws_writing s) (ws_next_waiter s) (ws_answers s) (ws_journal s) (ws_dead s).
Definition set_notices f (s : WorkerState) : WorkerState := mkWorker (ws_core s) (ws_admissions s) (ws_pauses s) (f (ws_notices s)) (ws_agent_paused s) (ws_runner s) (ws_pending s) (ws_owed s) (ws_writing s) (ws_next_waiter s) (ws_answers s) (ws_journal s) (ws_dead s).
Definition set_agent_paused b (s : WorkerState) : WorkerState := mkWorker (ws_core s) (ws_admissions s) (ws_pauses s) (ws_notices s) b (ws_runner s) (ws_pending s) (ws_owed s) (ws_writing s) (ws_next_waiter s) (ws_answers s) (ws_journal s) (ws_dead s).
Definition set_runner r (s : WorkerState) : WorkerState := mkWorker (ws_core s) (ws_admissions s) (ws_pauses s) (ws_notices s) (ws_agent_paused s) r (ws_pending s) (ws_owed s) (ws_writing s) (ws_next_waiter s) (ws_answers s) (ws_journal s) (ws_dead s).
Definition set_pending f (s : WorkerState) : WorkerState := mkWorker (ws_core s) (ws_admissions s) (ws_pauses s) (ws_notices s) (ws_agent_paused s) (ws_runner s) (f (ws_pending s)) (ws_owed s) (ws_writing s) (ws_next_waiter s) (ws_answers s) (ws_journal s) (ws_dead s).
Definition set_owed f (s : WorkerState) : WorkerState := mkWorker (ws_core s) (ws_admissions s) (ws_pauses s) (ws_notices s) (ws_agent_paused s) (ws_runner s) (ws_pending s) (f (ws_owed s)) (ws_writing s) (ws_next_waiter s) (ws_answers s) (ws_journal s) (ws_dead s).
Definition set_writing w (s : WorkerState) : WorkerState := mkWorker (ws_core s) (ws_admissions s) (ws_pauses s) (ws_notices s) (ws_agent_paused s) (ws_runner s) (ws_pending s) (ws_owed s) w (ws_next_waiter s) (ws_answers s) (ws_journal s) (ws_dead s).
Definition take_waiter (s : WorkerState) : WorkerState := mkWorker (ws_core s) (ws_admissions s) (ws_pauses s) (ws_notices s) (ws_agent_paused s) (ws_runner s) (ws_pending s) (ws_owed s) (ws_writing s) (S (ws_next_waiter s)) (ws_answers s) (ws_journal s) (ws_dead s).
Definition answer (out : option TurnSettle) (ws : list nat) (s : WorkerState) : WorkerState := mkWorker (ws_core s) (ws_admissions s) (ws_pauses s) (ws_notices s) (ws_agent_paused s) (ws_runner s) (ws_pending s) (ws_owed s) (ws_writing s) (ws_next_waiter s) (ws_answers s ++ map (fun w => (w, out)) ws)%list (ws_journal s) (ws_dead s).
Definition set_host h dead (s : WorkerState) : WorkerState := mkWorker (ws_core s) (ws_admissions s) (ws_pauses s) (ws_notices s) (ws_agent_paused s) (ws_runner s) (ws_pending s) (ws_owed s) (ws_writing s) (ws_next_waiter s) (ws_answers s) h dead.
Definition owe (c : QueueCheckpoint) : WorkerState -> WorkerState := set_owed (fun l => l ++ [c])%list.
Definition later (p : Pending) : WorkerState -> WorkerState := set_pending (fun l => l ++ [p])%list.
Definition waiters (items : list QueuedItem) : list nat := omap qd_done items.

(** [worker.rs], [lifecycle.rs]: [resume_queued_input]. *)
Definition resume_queued_input : WorkerState -> WorkerState := set_core (suspend false).

(** ** Guards *)
Definition require_created (command_type : string) (c : SessionCore) : option DaemonResponse :=
  if negb (co_created c) then Some (response_failure None command_type "Session is still initializing" None)
  else if co_shutdown_requested c then Some (response_failure None command_type "Session is shutting down" None)
  else None.
Definition when_created (command_type : string) (k : WorkerState -> WorkerState * DaemonResponse) (s : WorkerState)
    : WorkerState * DaemonResponse :=
  match require_created command_type (ws_core s) with Some response => (s, response) | None => k s end.

(** ** Admissions *)
Definition commit (id : string) (m : gmap string AdmissionStatus) : bool * gmap string AdmissionStatus :=
  match m !! id with
  | Some Waiting => (true, <[id := Owned]> m)
  | Some Owned => (true, m)
  | Some CancelledAdmission | None => (false, m)
  end.
Definition cancel_admission (id : string) (m : gmap string AdmissionStatus) : option AdmissionStatus * gmap string AdmissionStatus :=
  match m !! id with
  | None => (None, m)
  | Some Waiting => (Some CancelledAdmission, <[id := CancelledAdmission]> m)
  | Some status => (Some status, m)
  end.
Definition clear_admissions (items : list QueuedItem) (m : gmap string AdmissionStatus) : gmap string AdmissionStatus :=
  foldl (fun m id => delete id m) m (omap qd_admission_id items).

(** Items leave both lanes; the callers that wait for them are told [out]. *)
Definition retain (keep : QueuedItem -> bool) (out : option TurnSettle) (s : WorkerState) : WorkerState :=
  let gone := List.filter (fun i => negb (keep i)) (queue (ws_core s)) in
  answer out (waiters gone)
    (set_core (fun c => with_lanes (List.filter keep (co_steering c)) (List.filter keep (co_follow_up c)) c) s).

(** ** Prompts *)
Definition prompt_command (wait : bool) : string := if wait then "prompt_and_wait" else "prompt".
(** [handle_prompt], up to the admission; [None]: it goes on. *)
Definition handle_prompt (payload : Value) (wait : bool) (s : WorkerState) : WorkerState * option DaemonResponse :=
  match require_created "prompt" (ws_core s) with
  | Some response => (s, Some response)
  | None =>
      let message := default "" (get_str "message" payload) in
      let images := parse_prompt_images payload in
      if is_empty message && (match images with [] => true | _ => false end)
      then (s, Some (response_failure None "prompt" "Prompt cannot be empty" None))
      else
        let streaming := get_str "streamingBehavior" payload in
        match parse_custom_message (get "customMessage" payload) with
        | inl error => (s, Some (response_failure None "prompt" error None))
        | inr custom =>
            if match custom with Some row => is_reserved_child_status_custom_type row | None => false end
            then (s, Some (response_failure None "prompt" reserved_intake_error None))
            else if co_suspended (ws_core s) && negb (co_busy (ws_core s)) && bool_decide (streaming = None)
            then (s, Some (response_failure None (prompt_command wait) QUEUED_INPUT_SUSPENDED None))
            else
              let s1 := if co_suspended (ws_core s) && negb (co_busy (ws_core s)) then resume_queued_input s else s in
              let admission_id := match get_str "admissionId" payload with Some id => if is_empty id then None else Some id | None => None end in
              let s2 := match admission_id with Some id => set_admissions (<[id := Waiting]>) s1 | None => s1 end in
              (later (PromptReady message images custom streaming admission_id wait) s2, None)
        end
  end.
(** The section that commits the admission and queues the prompt; [None]: the
    caller waits. *)
Definition prompt_lane (streaming : option string) (busy : bool) : Lane :=
  match streaming with
  | Some "steer" => Steering
  | _ => if busy then FollowUp else Steering
  end.
Definition admit_prompt (message : string) (images : list ImageContent) (custom : option Value) (streaming : option string)
    (admission_id : option string) (wait : bool) (s : WorkerState) : WorkerState * option DaemonResponse :=
  let '(ok, admissions) := match admission_id with Some id => commit id (ws_admissions s) | None => (true, ws_admissions s) end in
  if negb ok then (s, Some (response_failure None (prompt_command wait) "Prompt admission was cancelled." None))
  else
    let busy := co_busy (ws_core s) in
    let item := mkQueued message (if bool_decide (is_Some custom) then Background else Human) None custom None None admission_id images
                  (if wait then Some (ws_next_waiter s) else None) busy (if busy then Queued else Direct) false in
    let s1 := set_core (on_lane (prompt_lane streaming busy) (fun l => enqueue_priority l item)) (set_admissions (fun _ => admissions) s) in
    let s2 := owe (CheckpointAdmitted "prompt_accepted") (if wait then take_waiter s1 else s1) in
    (s2, if wait then None else Some (response_success None "prompt" None)).
(** What the caller of [prompt_and_wait] is told in the end. *)
Definition prompt_reply (out : option TurnSettle) : DaemonResponse :=
  match out with
  | Some settle =>
      match wire_error settle with
      | None => response_success None "prompt_and_wait" None
      | Some error => response_failure None "prompt_and_wait" error None
      end
  | None => response_failure None "prompt_and_wait" "Prompt did not complete" None
  end.

(** ** Steering and follow-up input *)
Definition queued_operation (lane : Lane) : string := match lane with Steering => "steer_queued" | FollowUp => "follow_up_queued" end.
(** [handle_queue] up to its last section: the resume comes before the checks,
    and a reserved row needs a capability, which is used up. *)
Definition handle_queue (payload : Value) (lane : Lane) (s : WorkerState) : WorkerState * option DaemonResponse :=
  match require_created (lane_as_str lane) (ws_core s) with
  | Some response => (s, Some response)
  | None =>
      let s1 := resume_queued_input s in
      match parse_custom_message (get "customMessage" payload) with
      | inl error => (s1, Some (response_failure None (lane_as_str lane) error None))
      | inr custom =>
          let go := InputReady lane (default "" (get_str "message" payload)) (parse_prompt_images payload) custom in
          if match custom with Some row => is_reserved_child_status_custom_type row | None => false end then
            let nonce := get_str "rlmNoticeNonce" payload in
            if match nonce with Some n => bool_decide (n ∈ ws_notices s1) | None => false end
            then (later go (set_notices (fun ns => ns ∖ {[ default "" nonce ]}) s1), None)
            else (s1, Some (response_failure None (lane_as_str lane) reserved_intake_error None))
          else (later go s1, None)
      end
  end.
Definition admit_input (lane : Lane) (message : string) (images : list ImageContent) (custom : option Value) (s : WorkerState)
    : WorkerState * DaemonResponse :=
  let item := mkQueued message (if bool_decide (is_Some custom) then Background else Human) None custom None None None images None true Queued false in
  (owe (CheckpointAdmitted (queued_operation lane)) (set_core (on_lane lane (fun l => enqueue_priority l item)) s),
   response_success None (match lane with Steering => "steer" | FollowUp => "follow_up" end) (Some (VObject [("queued", VBool true)]))).

(** ** Agent messages *)
Definition AGENT_MESSAGE_CUSTOM_TYPE : string := "agent_message".
Definition AGENT_MESSAGE_RECEIVED_PREVIEW_LABEL : string := "Agent message received".
Definition AGENT_MESSAGE_SOURCE : string := "agent_message".
Definition DEFAULT_AGENT_MESSAGE_MAX_CHARS : Z := 16384.
Definition DEFAULT_AGENT_MESSAGE_MAX_PENDING_PER_SESSION : nat := 20.
Definition normalize_agent_session_message (message : string) : string + string :=
  let trimmed := trim message in
  if is_empty trimmed then inl "Agent session message cannot be empty"
  else if (DEFAULT_AGENT_MESSAGE_MAX_CHARS <? Z.of_nat (chars_count trimmed))%Z
  then inl ("Agent session message is too long: " ++ show_Z (Z.of_nat (chars_count trimmed)) ++ " chars exceeds "
            ++ show_Z DEFAULT_AGENT_MESSAGE_MAX_CHARS)
  else inr trimmed.
Definition assert_agent_message_queue_capacity (unfinished max_pending : nat) : option string :=
  if (max_pending <=? unfinished)%nat
  then Some ("Target session has too many pending messages: " ++ show_Z (Z.of_nat unfinished) ++ " unfinished, limit is " ++ show_Z (Z.of_nat max_pending))
  else None.
(** [sanitize_message_header_value], [skip] bytes into a white-space character. *)
Fixpoint sanitize_from (skip : nat) (pending_space started : bool) (value : string) : string :=
  match value with
  | EmptyString => ""
  | String a rest =>
      match skip, ws_len value with
      | S k, _ => sanitize_from k pending_space started rest
      | O, S k => sanitize_from k true started rest
      | O, O =>
          if contains_char a ",:[]" then sanitize_from 0 true started rest
          else (if pending_space && started then " " else "") ++ String a (sanitize_from 0 false true rest)
      end
  end.
Definition sanitize_message_header_value : string -> string := sanitize_from 0 false false.
Definition create_agent_session_message_prompt (message sender_name : string) (child : bool) : string :=
  let name := sanitize_message_header_value sender_name in
  let sender := if is_empty name then "unknown" else name in
  "[agent-message from " ++ (if child then "child:" ++ sender else sender) ++ "]" ++ nl_str ++ nl_str ++ message.
Definition create_agent_session_message_row (id prompt message : string) (from : Value) (child : bool) (target : Value) (timestamp : Z) : Value :=
  VObject [("role", VString "custom"); ("customType", VString AGENT_MESSAGE_CUSTOM_TYPE); ("content", VString prompt); ("display", VBool true);
           ("details", VObject ([("id", VString id); ("message", VString message); ("from", from)]
                                ++ (if child then [("fromRelationship", VString "child")] else []) ++ [("target", target)])%list);
           ("timestamp", VNumber timestamp)].
Definition sender_label (sender : Value) : string :=
  default "unknown" (head (omap (fun k => get_str k sender) ["sessionName"; "sessionId"; "activeSessionId"; "clientId"])).
Definition delivery_lane (payload : Value) : Lane := if bool_decide (get_str "deliveryMode" payload = Some "follow_up") then FollowUp else Steering.
Definition delivery_target (c : SessionCore) (pr : DeliveryProbe) : Value :=
  VObject ([("activeSessionId", VString (co_active_session_id c)); ("sessionId", VString (co_session_id c));
            ("runtimeKind", VString (default "top-level" (dp_runtime_kind pr)))]
           ++ match dp_session_name pr with Some n => if is_empty n then [] else [("sessionName", VString n)] | None => [] end)%list.
(** [handle_worker_deliver_message]: the checks, then the section that queues. *)
Definition handle_worker_deliver_message (payload : Value) (pr : DeliveryProbe) (s : WorkerState) : WorkerState * option DaemonResponse :=
  let fail e := response_failure None "worker_deliver_message" e None in
  match require_created "worker_deliver_message" (ws_core s) with
  | Some response => (s, Some response)
  | None =>
      match normalize_agent_session_message (default "" (get_str "message" payload)) with
      | inl error => (s, Some (fail error))
      | inr _ =>
          if ws_agent_paused s then (s, Some (fail "Agent messaging is paused"))
          else if co_suspended (ws_core s) && negb (co_busy (ws_core s)) && negb (co_compacting (ws_core s))
          then (s, Some (fail QUEUED_INPUT_SUSPENDED))
          else (later (DeliveryReady payload pr) s, None)
      end
  end.
Definition admit_delivery (payload : Value) (pr : DeliveryProbe) (s : WorkerState) : WorkerState * DaemonResponse :=
  let message := default "" (get_str "message" payload) in
  let sender := default VNull (get "sender" payload) in
  let prompt := create_agent_session_message_prompt message (sender_label sender) (dp_child pr) in
  let lane := delivery_lane payload in
  match assert_agent_message_queue_capacity (List.length (queue (ws_core s))) DEFAULT_AGENT_MESSAGE_MAX_PENDING_PER_SESSION with
  | Some error => (s, response_failure None "worker_deliver_message" error None)
  | None =>
      let target := delivery_target (ws_core s) pr in
      let item := mkQueued prompt Background (Some (AGENT_MESSAGE_RECEIVED_PREVIEW_LABEL ++ ": " ++ message))
                    (Some (create_agent_session_message_row (dp_id pr) prompt message sender (dp_child pr) target (dp_now_ms pr)))
                    (Some message) None None [] None true Injected false in
      let status := if co_busy (ws_core s) then [("deliveryStatus", VString "queued"); ("queuedAt", VString (dp_now_iso pr))]
                    else [("deliveryStatus", VString "delivered"); ("deliveredAt", VString (dp_now_iso pr))] in
      let receipt := VObject ([("id", VString (dp_id pr)); ("source", VString AGENT_MESSAGE_SOURCE); ("target", target); ("message", VString message);
                               ("deliveryMode", VString (match lane with FollowUp => "follow_up" | Steering => "steer" end))]
                              ++ status ++ match sender with VNull => [] | _ => [("from", sender)] end)%list in
      (owe (CheckpointAdmitted (queued_operation lane)) (set_core (on_lane lane (fun l => enqueue_priority l item)) s),
       response_success None "worker_deliver_message" (Some receipt))
  end.
(** [agent_messages_clear], [agent_messages_pause], [agent_messages_resume]. *)
Definition clear_queued_agent_messages (s : WorkerState) : WorkerState * Value :=
  let removed lane := VArray (map (fun i => VString (qd_message i)) (List.filter (fun i => bool_decide (is_Some (qd_agent_message i))) lane)) in
  (owe (CheckpointSettle "queue_mutated") (retain (fun i => negb (bool_decide (is_Some (qd_agent_message i)))) None s),
   VObject [("steering", removed (co_steering (ws_core s))); ("followUp", removed (co_follow_up (ws_core s)))]).
Definition agent_message_safety_status (paused : bool) : Value :=
  VObject [("paused", VBool paused); ("maxMessageChars", VNumber 16384); ("maxPendingPerSession", VNumber 20);
           ("rateLimitCapacity", VNumber 3); ("rateLimitRefillMs", VNumber 1000)].
Definition handle_agent_messages_clear : WorkerState -> WorkerState * DaemonResponse := when_created "agent_messages_clear" (fun s =>
  let '(s1, cleared) := clear_queued_agent_messages s in (s1, response_success None "agent_messages_clear" (Some cleared))).
Definition handle_agent_messages_pause : WorkerState -> WorkerState * DaemonResponse := when_created "agent_messages_pause" (fun s =>
  (fst (clear_queued_agent_messages (set_agent_paused true s)), response_success None "agent_messages_pause" (Some (agent_message_safety_status true)))).
Definition handle_agent_messages_resume : WorkerState -> WorkerState * DaemonResponse := when_created "agent_messages_resume" (fun s =>
  (set_agent_paused false s, response_success None "agent_messages_resume" (Some (agent_message_safety_status false)))).

(** ** Queue commands *)

(** A replace that names the other lane: to its back. *)
Definition change_lane (lane target : Lane) (index : nat) (c : SessionCore) : SessionCore :=
  match lane, target with
  | Steering, FollowUp =>
      match co_steering c !! index with Some i => with_lanes (delete index (co_steering c)) (co_follow_up c ++ [i])%list c | None => c end
  | FollowUp, Steering =>
      match co_follow_up c !! index with Some i => with_lanes (co_steering c ++ [i])%list (delete index (co_follow_up c)) c | None => c end
  | _, _ => c
  end.
Definition mutation_status (status : string) : DaemonResponse :=
  response_success None "mutate_queued_message" (Some (VObject [("status", VString status)])).
Definition handle_mutate_queued_message (payload : Value) : WorkerState -> WorkerState * DaemonResponse := when_created "mutate_queued_message" (fun s =>
  let fail e := (s, response_failure None "mutate_queued_message" e None) in
  match wire_lane (get "lane" payload) with
  | None => fail ("mutate_queued_message requires lane " ++ dquote ++ "steering" ++ dquote ++ " or " ++ dquote ++ "followUp" ++ dquote)
  | Some lane =>
  match get "index" payload ≫= as_u64 with
  | None => fail "mutate_queued_message requires an index"
  | Some index64 =>
  match get "mutation" payload with
  | None => fail "mutate_queued_message requires a mutation"
  | Some mutation =>
      let expected := default "" (get_str "expectedText" payload) in
      let mutation_type := default "" (get_str "type" mutation) in
      if negb (bool_decide (mutation_type ∈ ["delete"; "move"; "replace"]))
      then fail ("mutate_queued_message requires mutation.type " ++ dquote ++ "delete" ++ dquote ++ ", " ++ dquote ++ "move"
                 ++ dquote ++ ", or " ++ dquote ++ "replace" ++ dquote)
      else
        let index := Z.to_nat index64 in
        let items := match lane with Steering => co_steering (ws_core s) | FollowUp => co_follow_up (ws_core s) end in
        match mutate_lane items index expected mutation mutation_type with
        | None => (s, mutation_status "rejected")
        | Some (items', withdrawn) =>
            let c1 := on_lane lane (fun _ => items') (ws_core s) in
            let c2 := if String.eqb mutation_type "replace"
                      then match wire_lane (get "lane" mutation) with Some target => change_lane lane target index c1 | None => c1 end
                      else c1 in
            (later (ResumeThenCheckpoint (CheckpointSettle "queue_mutated"))
               (answer (Some (Withdrawn QUEUED_PROMPT_DELETED)) withdrawn (set_core (fun _ => c2) s)),
             mutation_status "applied")
        end
  end end end).
Definition handle_resume_queue : WorkerState -> WorkerState * DaemonResponse := when_created "resume_queue" (fun s =>
  (resume_queued_input s,
   if queued_work (ws_core s) then response_success None "resume_queue" None
   else response_failure None "resume_queue" "No queued work to resume" None)).
Definition shown_lane (lane : list QueuedItem) : Value := VArray (map (fun i => VString (shown i)) lane).
Definition handle_get_queue : WorkerState -> WorkerState * DaemonResponse := when_created "get_queue" (fun s =>
  (s, response_success None "get_queue"
        (Some (VObject [("steering", shown_lane (co_steering (ws_core s))); ("followUp", shown_lane (co_follow_up (ws_core s)))])))).
Definition handle_clear_queue : WorkerState -> WorkerState * DaemonResponse := when_created "clear_queue" (fun s =>
  let texts lane := VArray (map (fun i => VString (qd_message i)) lane) in
  (owe (CheckpointSettle "queue_cleared")
     (set_admissions (clear_admissions (queue (ws_core s))) (retain (fun _ => false) None s)),
   response_success None "clear_queue"
     (Some (VObject [("steering", texts (co_steering (ws_core s))); ("followUp", texts (co_follow_up (ws_core s)))])))).
Definition handle_abort_and_clear_queue (s : WorkerState) : WorkerState * DaemonResponse :=
  let '(s1, cleared) := handle_clear_queue s in
  if negb (dr_success cleared) then (s1, cleared)
  else (later AbortReady s1, response_success None "abort_and_clear_queue" (dr_data cleared)).

(** ** Aborts *)

(** [request_abort]: the queue is suspended and the items no client sees are
    withdrawn.  (Its two sections are one here: nothing between them reads the
    flags it sets.) *)
Definition request_abort (s : WorkerState) : WorkerState :=
  let hidden := List.filter (fun i => negb (qd_queue_visible i)) (queue (ws_core s)) in
  set_admissions (clear_admissions hidden)
    (retain qd_queue_visible (Some (Withdrawn PROMPT_ABORTED_BEFORE_DELIVERY)) (set_core (fun c => suspend true (abort_flag true c)) s)).
Definition handle_abort (s : WorkerState) : WorkerState * DaemonResponse := (request_abort s, response_success None "abort" None).
Definition armable (i : QueuedItem) : bool :=
  qd_queue_visible i && bool_decide (qd_agent_message i = None) && bool_decide (qd_custom_message i = None).
Definition arm (i : QueuedItem) : QueuedItem :=
  mkQueued (qd_message i) (qd_priority i) (qd_preview i) (qd_custom_message i) (qd_agent_message i) (qd_queue_key i) (qd_admission_id i)
    (qd_images i) (qd_done i) (qd_queue_visible i) (qd_policy i) (if armable i then true else qd_forced_batch i).
Definition arm_forced_all_steering (c : SessionCore) : SessionCore :=
  if negb (existsb armable (co_steering c)) then c
  else with_lanes (map arm (co_steering c)) (co_follow_up c) (force_all true c).
Definition paused (s : WorkerState) : bool := bool_decide (ws_pauses s ≠ ∅).
(** The queued work is looked at, and the queue resumed, in a later section. *)
Definition abort_and_send_queued (s : WorkerState) : WorkerState :=
  if paused s || co_shutdown_requested (ws_core s) then request_abort s
  else later ResumeIfQueued (request_abort (set_core arm_forced_all_steering s)).

(** ** Admissions, cancelled *)
Definition carries (id : string) (i : QueuedItem) : bool := bool_decide (qd_admission_id i = Some id).
Definition handle_cancel_prompt_admission (payload : Value) : WorkerState -> WorkerState * DaemonResponse := when_created "cancel_prompt_admission" (fun s =>
  let id := default "" (get_str "admissionId" payload) in
  let cancel_owned := bool_decide (get "cancelOwned" payload ≫= decode_bool = Some true) in
  let '(status, admissions) := cancel_admission id (ws_admissions s) in
  let s1 := set_admissions (fun _ => admissions) s in
  let owned := bool_decide (status = Some Owned) in
  let queued := existsb (carries id) (queue (ws_core s)) in
  let dropped := bool_decide (status = Some CancelledAdmission) || (cancel_owned && owned && queued) in
  let s2 := if dropped then set_admissions (delete id) (retain (fun i => negb (carries id i)) None s1) else s1 in
  let abort_running := cancel_owned && owned && bool_decide (id ∈ co_running_admission_ids (ws_core s)) in
  let s3 := if abort_running then set_core (abort_flag true) s2 else s2 in
  (if dropped then owe (CheckpointSettle "queue_dropped") s3 else s3,
   response_success None "cancel_prompt_admission"
     (Some (VObject [("status", VString match status with None => "unknown" | Some Owned => "owned" | Some _ => "cancelled" end)])))).

(** ** Input pauses *)
Definition same_lease (e : InputPauseEntry) (kv : string * InputPauseEntry) : bool := bool_decide (snd kv = e).
(** [acquire] (with the new id) and [release]: unknown, foreign or released. *)
Definition acquire_pause (fresh : string) (e : InputPauseEntry) (m : gmap string InputPauseEntry) : string * gmap string InputPauseEntry :=
  match List.filter (same_lease e) (map_to_list m) with
  | (id, _) :: _ => (id, m)
  | [] => (fresh, <[fresh := e]> m)
  end.
Definition release_pause (id owner active_session_id : string) (m : gmap string InputPauseEntry) : option bool * gmap string InputPauseEntry :=
  match m !! id with
  | None => (None, m)
  | Some e =>
      if bool_decide (pa_owner_client_id e ≠ owner) || bool_decide (pa_active_session_id e ≠ active_session_id) then (Some false, m)
      else (Some true, delete id m)
  end.
Definition handle_acquire_session_input_pause (payload : Value) (fresh : string) : WorkerState -> WorkerState * DaemonResponse :=
  when_created "acquire_session_input_pause" (fun s =>
    let active := default (co_active_session_id (ws_core s)) (get_str "activeSessionId" payload) in
    match get_str "leaseKey" payload with
    | None => (s, response_failure None "acquire_session_input_pause" "acquire_session_input_pause requires a leaseKey" None)
    | Some key =>
        let '(id, pauses) := acquire_pause fresh (mkPause active (default "" (get_str "clientId" payload)) key) (ws_pauses s) in
        (set_pauses (fun _ => pauses) s, response_success None "acquire_session_input_pause" (Some (VObject [("pauseId", VString id)])))
    end).
Definition handle_release_session_input_pause (payload : Value) : WorkerState -> WorkerState * DaemonResponse :=
  when_created "release_session_input_pause" (fun s =>
    let id := default "" (get_str "pauseId" payload) in
    let active := default (co_active_session_id (ws_core s)) (get_str "activeSessionId" payload) in
    let '(outcome, pauses) := release_pause id (default "" (get_str "clientId" payload)) active (ws_pauses s) in
    (set_pauses (fun _ => pauses) s,
     match outcome with
     | Some false => response_failure None "release_session_input_pause" ("Session input pause is owned by another client: " ++ id) None
     | _ => response_success None "release_session_input_pause" None
     end)).
Definition release_input_pauses_for_detach (owner : string) : WorkerState -> WorkerState :=
  set_pauses (base.filter (fun kv => pa_owner_client_id (snd kv) ≠ owner)).

(** ** What the engine queues *)
Definition engine_item (message : string) (custom : option Value) (key : option string) (images : list ImageContent) : QueuedItem :=
  mkQueued message Background None custom None key None images None false Injected false.
Definition admit_autonomous_follow_up (text : string) (s : WorkerState) : WorkerState :=
  owe (CheckpointAdmitted "follow_up_queued")
    (set_core (on_lane FollowUp (fun l => l ++ [engine_item text None (Some AUTONOMOUS_QUEUE_KEY) []])%list) s).
Definition purge_autonomous (s : WorkerState) : WorkerState :=
  owe (CheckpointSettle "queue_purged") (retain (fun i => negb (bool_decide (qd_queue_key i = Some AUTONOMOUS_QUEUE_KEY))) None s).
Definition admit_goal_follow_up (lane : Lane) (message : string) (custom : option Value) (images : list ImageContent) (s : WorkerState) : WorkerState :=
  owe (CheckpointAdmitted (queued_operation lane))
    (set_core (on_lane lane (fun l => enqueue_priority l (engine_item message custom None images))) s).
Definition purge_goal_contexts (s : WorkerState) : WorkerState :=
  owe (CheckpointSettle "queue_purged") (retain (fun i => negb (is_goal_context_item i)) None s).
Definition ASYNC_BASH_COMPLETION_PREVIEW_LABEL : string := "Background command finished".
(** The text and the row of the notice come from [pa-core]; [closed]: the
    session is marked closed. *)
Definition admit_bash_completion_notice (content : string) (row : Value) (closed : bool) (s : WorkerState) : WorkerState :=
  if closed then s
  else
    let busy := co_busy (ws_core s) in
    let item := mkQueued content Background (Some (ASYNC_BASH_COMPLETION_PREVIEW_LABEL ++ ": " ++ content)) (Some row) None None None [] None
                  busy (if busy then Queued else Injected) false in
    owe (CheckpointAdmitted "steer_queued") (set_core (on_lane Steering (fun l => l ++ [item])%list) s).
(** The front-most notice of the two lanes. *)
Fixpoint remove_first (f : QueuedItem -> bool) (l : list QueuedItem) : option (QueuedItem * list QueuedItem) :=
  match l with
  | [] => None
  | i :: rest => if f i then Some (i, rest) else '(x, rest') ← remove_first f rest; Some (x, i :: rest')
  end.
Definition withdraw_bash_completion_notice (notice : BashConsumedNotice) (s : WorkerState) : WorkerState :=
  let f i := is_bash_completion_notice_for i notice in
  let c := ws_core s in
  let drop_with i c' := owe (CheckpointSettle "queue_purged") (answer None (waiters [i]) (set_core (fun _ => c') s)) in
  match remove_first f (co_steering c) with
  | Some (i, steering) => drop_with i (with_lanes steering (co_follow_up c) c)
  | None =>
      match remove_first f (co_follow_up c) with
      | Some (i, follow_up) => drop_with i (with_lanes (co_steering c) follow_up c)
      | None => s
      end
  end.

(** ** Scheduled jobs: the section of [run_job] that queues the fire *)
Record Fire := mkFire {
  fi_heartbeat : bool; fi_job_id : string; fi_steering : bool; fi_active : bool;
  fi_message : string; fi_preview : option string; fi_custom : option Value }.
Definition run_job_queues (f : Fire) (s : WorkerState) : WorkerState * bool :=
  let c := ws_core s in
  if negb (co_created c) || co_shutdown_requested c || negb (fi_active f) then (s, false)
  else
    let key := if fi_heartbeat f then Some ("heartbeat:" ++ fi_job_id f) else None in
    let s1 := resume_queued_input s in
    let s2 := match key with Some k => retain (fun i => negb (bool_decide (qd_queue_key i = Some k))) None s1 | None => s1 end in
    let lane := if fi_heartbeat f && fi_steering f then Steering else FollowUp in
    let item := mkQueued (fi_message f) Background (fi_preview f) (fi_custom f) None key None [] (Some (ws_next_waiter s)) true Injected false in
    (owe (CheckpointAdmitted (queued_operation lane)) (take_waiter (set_core (on_lane lane (fun l => enqueue_priority l item)) s2)), true).

(** ** Actions restored by a client *)
Definition SESSION_ACTION_RECOVERY_FORMAT_VERSION : Z := 1.
Definition AGENT_MESSAGE_ID_PREFIX : string := "agentmsg_".
Definition is_agent_session_message_id (id : option string) : bool :=
  match id with Some i => starts_with AGENT_MESSAGE_ID_PREFIX i | None => false end.
(** The validation pass; [None]: every action may be restored. *)
Fixpoint restore_error (seen : list string) (actions : list Value) : option string :=
  match actions with
  | [] => None
  | action :: rest =>
      match get_str "id" action with
      | None => Some "restore_actions requires an action id"
      | Some id =>
          if bool_decide (id ∈ seen) then Some ("Duplicate session action id: " ++ id)
          else
            let payload := default VNull (get "payload" action) in
            let records := default [] (get "records" payload ≫= as_array) in
            if bool_decide (get_str "kind" payload = Some "turn")
               && negb (forallb (fun r => bool_decide (get_str "ownerActionId" r = Some id)) records)
            then Some ("Session action " ++ id ++ " has invalid delivery correlation")
            else if match get "customMessage" payload with Some row => is_reserved_child_status_custom_type row | None => false end
            then Some (reserved_intake_error ++ " (action " ++ id ++ ")")
            else restore_error (id :: seen) rest
      end
  end.
Definition not_null (v : option Value) : option Value := match v with Some VNull => None | _ => v end.
Definition restored_priority (action payload : Value) : QueuePriority :=
  match get_str "priority" action with
  | Some "pinned" => Pinned
  | Some "user" => Human
  | Some _ => Background
  | None =>
      if bool_decide (is_Some (not_null (get "customMessage" payload)))
         || is_agent_session_message_id (get_str "agentMessageId" action)
         || negb (bool_decide (get_str "source" action ∈ [Some "interactive"; Some "rpc"]))
      then Background else Human
  end.
Definition restored_action (action : Value) : QueuedItem :=
  let payload := default VNull (get "payload" action) in
  mkQueued (default "" (get_str "text" payload)) (restored_priority action payload)
    (match get_str "preview" payload with Some p => if is_empty p then None else Some p | None => None end)
    (not_null (get "customMessage" payload)) None (get_str "queueKey" action) None (parse_prompt_images payload) None
    (default true (get "queueVisible" payload ≫= decode_bool)) (restored_turn_policy payload) false.
Definition action_lane (action : Value) : Lane :=
  if bool_decide (get_str "delivery" action = Some "next_turn_boundary") then Steering else FollowUp.
Definition restore_action (c : SessionCore) (action : Value) : SessionCore :=
  on_lane (action_lane action) (fun l => l ++ [restored_action action])%list c.
Definition handle_restore_actions (payload : Value) : WorkerState -> WorkerState * DaemonResponse := when_created "restore_actions" (fun s =>
  let fail e := (s, response_failure None "restore_actions" e None) in
  match get "snapshot" payload with
  | Some (VObject _ as snapshot) =>
      let version := default 0%Z (get "formatVersion" snapshot ≫= as_u64) in
      if negb (version =? SESSION_ACTION_RECOVERY_FORMAT_VERSION)%Z
      then fail ("Unsupported session action recovery format version: " ++ show_Z version)
      else match get "actions" snapshot ≫= as_array with
           | None => fail "restore_actions requires a snapshot actions array"
           | Some actions =>
               match restore_error [] actions with
               | Some error => fail error
               | None =>
                   let s1 := set_core (fun c => foldl restore_action c actions) s in
                   (match actions with [] => s1 | _ => owe (CheckpointAdmitted "actions_restored") s1 end,
                    response_success None "restore_actions" (Some (VObject [("restored", VNumber (Z.of_nat (List.length actions)))])))
               end
           end
  | _ => fail "restore_actions requires a snapshot"
  end).

(** ** The turn runner *)
Definition pickup_from (lane : Lane) (c : SessionCore) : list QueuedItem * SessionCore :=
  let '(batch, kept, forced) :=
    match lane with
    | Steering => gather_delivery_batch Steering (co_steering_mode c) (co_forced_all_steering c) (co_steering c)
    | FollowUp => gather_delivery_batch FollowUp (co_follow_up_mode c) (co_forced_all_steering c) (co_follow_up c)
    end in
  (batch, with_run true (omap qd_admission_id batch) (abort_flag false (force_all forced (on_lane lane (fun _ => kept) c)))).
Definition pickup (s : WorkerState) : WorkerState :=
  match ws_runner s with
  | Parked =>
      let c := ws_core s in
      if co_shutdown_requested c then set_runner Gone s
      else if paused s || co_suspended c || co_compacting c then set_core (fun c => with_run false (co_running_admission_ids c) c) s
      else
        let start lane := let '(batch, c') := pickup_from lane c in set_runner (InTurn batch) (set_core (fun _ => c') s) in
        match co_steering c, co_follow_up c with
        | _ :: _, _ => start Steering
        | [], _ :: _ => start FollowUp
        | [], [] => set_core (fun c => with_run false (co_running_admission_ids c) c) s
        end
  | _ => s
  end.
Definition turn_ends (out : option TurnSettle) (s : WorkerState) : WorkerState :=
  match ws_runner s with
  | InTurn items => owe (CheckpointSettle "turn_end") (set_runner (Ended items out) (set_core (with_run false []) s))
  | _ => s
  end.
Definition checkpoint_operation (c : QueueCheckpoint) : string := match c with CheckpointAdmitted o | CheckpointSettle o => o end.
(** The runner's own checkpoint is still to be written. *)
Definition settle_outstanding (s : WorkerState) : bool :=
  existsb (fun c => String.eqb (checkpoint_operation c) "turn_end") (ws_owed s)
  || match ws_writing s with Some r => String.eqb (cr_operation r) "turn_end" | None => false end.
(** After its checkpoint the runner clears the admissions, answers the callers
    and looks at the queue again. *)
Definition turn_resolves (s : WorkerState) : WorkerState :=
  match ws_runner s with
  | Ended items out =>
      if settle_outstanding s then s
      else set_runner Parked (answer out (waiters items) (set_admissions (clear_admissions items) s))
  | _ => s
  end.

(** ** Checkpoints *)
Definition read_checkpoint (c : SessionCore) (k : QueueCheckpoint) : CheckpointRead :=
  mkRead (co_active_session_id c) (co_session_id c) (co_session_file c)
    (match k with CheckpointAdmitted _ => true | CheckpointSettle _ => co_busy c || queued_work c end) (checkpoint_operation k)
    (map item_record (co_steering c)) (map item_record (co_follow_up c)).
Definition checkpoint_reads (n : nat) (s : WorkerState) : WorkerState :=
  match ws_writing s, ws_owed s !! n with
  | None, Some k => set_writing (Some (read_checkpoint (ws_core s) k)) (set_owed (delete n) s)
  | _, _ => s
  end.
Definition checkpoint_writes `{Env} (sc : JScene) (s : WorkerState) : WorkerState :=
  match ws_writing s with
  | Some r =>
      let '(res, h) := record_queue_checkpoint sc (cr_active_session_id r) (cr_session_id r) (cr_session_file r) (cr_busy r)
                         (cr_operation r) (cr_steering r) (cr_follow_up r) (ws_journal s) in
      set_writing None (set_host h (match res with Killed => true | _ => false end) s)
  | None => s
  end.

(** The next section of a handler. *)
Definition proceed (n : nat) (s : WorkerState) : WorkerState * option DaemonResponse :=
  match ws_pending s !! n with
  | None => (s, None)
  | Some p =>
      let s1 := set_pending (delete n) s in
      match p with
      | PromptReady message images custom streaming id wait => admit_prompt message images custom streaming id wait s1
      | InputReady lane message images custom => let '(s2, r) := admit_input lane message images custom s1 in (s2, Some r)
      | DeliveryReady payload pr => let '(s2, r) := admit_delivery payload pr s1 in (s2, Some r)
      | ResumeThenCheckpoint c => (owe c (resume_queued_input s1), None)
      | ResumeIfQueued => (if queued_work (ws_core s1) then resume_queued_input s1 else s1, None)
      | AbortReady => (set_core (fun c => suspend true (abort_flag true c)) s1, None)
      end
  end.

(** ** Steps *)
Inductive QEvent :=
| Prompt (payload : Value) (wait : bool)
| Input (lane : Lane) (payload : Value)
| Deliver (payload : Value) (probe : DeliveryProbe)
| AgentMessagesClear | AgentMessagesPause | AgentMessagesResume
| Proceed (n : nat)
| Mutate (payload : Value)
| RestoreActions (payload : Value)
| ResumeQueue | ClearQueue | AbortAndClear | AbortTurn | AbortAndSend
| CancelAdmission (payload : Value)
| AcquirePause (payload : Value) (fresh : string) | ReleasePause (payload : Value) | Detach (owner : string)
| Mint (nonce : string)
| Autonomous (text : string) | PurgeAutonomous
| Goal (lane : Lane) (message : string) (custom : option Value) (images : list ImageContent) | PurgeGoals
| BashDone (content : string) (row : Value) (closed : bool) | BashConsumed (notice : BashConsumedNotice)
| CronFires (f : Fire)
| CompactionSuspends | CompactionBegins | CompactionEnds
| Shutdown
| Pickup | TurnEnds (out : option TurnSettle) | TurnResolves
| CheckpointReads (n : nat) | CheckpointWrites.

Section Steps.
Context `{Env} (sc : JScene).

Definition qstep (e : QEvent) (s : WorkerState) : WorkerState :=
  if ws_dead s then s else
  match e with
  | Prompt payload wait => fst (handle_prompt payload wait s)
  | Input lane payload => fst (handle_queue payload lane s)
  | Deliver payload pr => fst (handle_worker_deliver_message payload pr s)
  | AgentMessagesClear => fst (handle_agent_messages_clear s)
  | AgentMessagesPause => fst (handle_agent_messages_pause s)
  | AgentMessagesResume => fst (handle_agent_messages_resume s)
  | Proceed n => fst (proceed n s)
  | Mutate payload => fst (handle_mutate_queued_message payload s)
  | RestoreActions payload => fst (handle_restore_actions payload s)
  | ResumeQueue => fst (handle_resume_queue s)
  | ClearQueue => fst (handle_clear_queue s)
  | AbortAndClear => fst (handle_abort_and_clear_queue s)
  | AbortTurn => fst (handle_abort s)
  | AbortAndSend => abort_and_send_queued s
  | CancelAdmission payload => fst (handle_cancel_prompt_admission payload s)
  | AcquirePause payload fresh => fst (handle_acquire_session_input_pause payload fresh s)
  | ReleasePause payload => fst (handle_release_session_input_pause payload s)
  | Detach owner => release_input_pauses_for_detach owner s
  | Mint nonce => set_notices (fun ns => {[ nonce ]} ∪ ns) s
  | Autonomous text => admit_autonomous_follow_up text s
  | PurgeAutonomous => purge_autonomous s
  | Goal lane message custom images => admit_goal_follow_up lane message custom images s
  | PurgeGoals => purge_goal_contexts s
  | BashDone content row closed => admit_bash_completion_notice content row closed s
  | BashConsumed notice => withdraw_bash_completion_notice notice s
  | CronFires f => fst (run_job_queues f s)
  | CompactionSuspends => set_core (suspend true) s
  | CompactionBegins => set_core (compacting_flag true) s
  | CompactionEnds => set_core (compacting_flag false) s
  | Shutdown => set_core (fun c => with_flags true true (co_compacting c) (co_suspended c) (co_forced_all_steering c) c) s
  | Pickup => pickup s
  | TurnEnds out => turn_ends out s
  | TurnResolves => turn_resolves s
  | CheckpointReads n => checkpoint_reads n s
  | CheckpointWrites => checkpoint_writes sc s
  end.
Definition run_events (es : list QEvent) (s : WorkerState) : WorkerState := foldl (fun s e => qstep e s) s es.
End Steps.

(** A worker after [create]: its lanes are what the journal has. *)
Definition created_core (active session : string) (file : option string) (steering_mode follow_up_mode : string)
    (lanes : list QueuedItem * list QueuedItem) : SessionCore :=
  mkCore active session file true steering_mode follow_up_mode (fst lanes) (snd lanes) false false false false false false [].
Definition created_worker (c : SessionCore) (h : JHost) : WorkerState :=
  mkWorker c ∅ ∅ ∅ false Parked [] [] None 0 [] h false.
