(* ===== verification/QueueProofs.v ===== *)
(** * The input queue: its lemmas

    Placement in a lane and delivery batches; then, for every critical section
    of the worker, what it does with the callers that wait, with the state of
    the runner and with what the journal has on record. *)
From S2P Require Import Prelude RustStr Json Time World LedgerReplay Effects Protocol Slash Journal Queue QueueWorker.
#[local] Open Scope string_scope.

(** ** Lanes *)
Lemma insert_point_spec r l :
  (insert_point r l <= List.length l)%nat
  /\ Forall (fun x => (rank (qd_priority x) < r)%Z) (take (List.length l - insert_point r l) l)
  /\ match drop (List.length l - insert_point r l) l with x :: _ => (r <= rank (qd_priority x))%Z | [] => True end.
Proof.
  induction l as [|x l (Hle & Hf & Hd)]; [done|]. cbn [insert_point List.length].
  destruct (Z.ltb_spec (rank (qd_priority x)) r) as [Hx|Hx].
  - replace (S (List.length l) - insert_point r l)%nat with (S (List.length l - insert_point r l)) by lia.
    cbn. split; [lia|]. split; [by constructor|done].
  - replace (S (List.length l) - S (List.length l))%nat with 0%nat by lia. cbn. split; [lia|]. split; [constructor|done].
Qed.
(** An item goes behind everything but the lower-priority suffix. *)
Lemma enqueue_priority_spec lane item :
  exists pre post, lane = (pre ++ post)%list /\ enqueue_priority lane item = (pre ++ item :: post)%list
    /\ Forall (fun x => (rank (qd_priority x) < rank (qd_priority item))%Z) post
    /\ match last pre with Some x => (rank (qd_priority item) <= rank (qd_priority x))%Z | None => True end.
Proof.
  unfold enqueue_priority. set (r := rank (qd_priority item)). set (i := insert_point r (rev lane)).
  destruct (insert_point_spec r (rev lane)) as (Hle & Hf & Hd). fold i in Hle, Hf, Hd. rewrite length_rev in *.
  exists (take i lane), (drop i lane). split; [by rewrite take_drop|]. split; [done|]. split.
  - rewrite firstn_rev in Hf. replace (List.length lane - (List.length lane - i))%nat with i in Hf by lia.
    rewrite <- (rev_involutive (drop i lane)). by apply Forall_rev.
  - rewrite skipn_rev in Hd. replace (List.length lane - (List.length lane - i))%nat with i in Hd by lia.
    rewrite <- (rev_involutive (take i lane)). destruct (rev (take i lane)) as [|x l]; [done|]. cbn. by rewrite last_snoc.
Qed.
Lemma enqueue_perm lane item : enqueue_priority lane item ≡ₚ item :: lane.
Proof. destruct (enqueue_priority_spec lane item) as (pre & post & -> & -> & _). by rewrite Permutation_middle. Qed.

Lemma take_joining_spec p f lane :
  let '(batch, kept) := take_joining p f lane in
  lane = (batch ++ kept)%list /\ Forall (fun i => joins p f i = true) batch.
Proof.
  induction lane as [|x lane IH]; [done|]. cbn. destruct (joins p f x) eqn:E; [|done].
  destruct (take_joining p f lane) as [batch kept], IH as [-> Hb]. split; [done|by constructor].
Qed.
(** A batch is a prefix of its lane, and empty only when the lane is. *)
Lemma gather_prefix lane mode forced items :
  let '(batch, kept, _) := gather_delivery_batch lane mode forced items in
  items = (batch ++ kept)%list /\ (items <> [] -> batch <> []).
Proof.
  destruct items as [|x rest]; [done|]. unfold gather_delivery_batch. cbn zeta.
  destruct (_ || _ || _); [done|]. destruct (_ || String.eqb mode "all"); [|done].
  pose proof (take_joining_spec (qd_policy x) (bool_decide (lane = Steering) && forced && qd_forced_batch x) rest) as Ht.
  destruct (take_joining _ _ rest) as [batch kept]. by destruct Ht as [-> _].
Qed.

(** ** Waiting callers *)
Definition runner_items (r : Runner) : list QueuedItem := match r with InTurn items | Ended items _ => items | _ => [] end.
(** Every caller there ever was: queued, in the turn, or answered. *)
Definition accounts (s : WorkerState) : list nat :=
  (waiters (queue (ws_core s)) ++ waiters (runner_items (ws_runner s)) ++ map fst (ws_answers s))%list.
Definition grows (s s' : WorkerState) : Prop :=
  exists k, ws_next_waiter s' = (ws_next_waiter s + k)%nat /\ accounts s' ≡ₚ (seq (ws_next_waiter s) k ++ accounts s)%list.

Lemma grows_same s s' : ws_next_waiter s' = ws_next_waiter s -> accounts s' ≡ₚ accounts s -> grows s s'.
Proof. intros Hn Ha. exists 0%nat. rewrite Hn, Ha. split; [lia|done]. Qed.
Lemma grows_one s s' : ws_next_waiter s' = S (ws_next_waiter s) -> accounts s' ≡ₚ ws_next_waiter s :: accounts s -> grows s s'.
Proof. intros Hn Ha. exists 1%nat. rewrite Hn, Ha. split; [lia|done]. Qed.
Lemma grows_trans s1 s2 s3 : grows s1 s2 -> grows s2 s3 -> grows s1 s3.
Proof.
  intros (k & Hk & Ha) (k' & Hk' & Ha'). exists (k + k')%nat. split; [lia|].
  rewrite Ha', Ha, Hk, seq_app, !app_assoc. by rewrite (Permutation_app_comm (seq _ k)).
Qed.

Lemma waiters_app a b : waiters (a ++ b) = (waiters a ++ waiters b)%list.
Proof. apply omap_app. Qed.
#[export] Instance waiters_perm : Proper ((≡ₚ) ==> (≡ₚ)) waiters.
Proof. intros a b Hp. unfold waiters. by apply omap_Permutation. Qed.
Lemma waiters_cons i l : waiters (i :: l) = (option_list (qd_done i) ++ waiters l)%list.
Proof. unfold waiters. cbn. by destruct (qd_done i). Qed.
Lemma filter_perm {A} (f : A -> bool) (l : list A) : List.filter f l ++ List.filter (fun x => negb (f x)) l ≡ₚ l.
Proof. induction l as [|x l IH]; [done|]. cbn. destruct (f x); cbn; [by rewrite IH|]. by rewrite <- Permutation_middle, IH. Qed.
Lemma map_fst_answer (ws : list nat) (out : option TurnSettle) : map fst (map (fun w => (w, out)) ws) = ws.
Proof. rewrite map_map. cbn. apply map_id. Qed.

Lemma accounts_retain keep out s : accounts (retain keep out s) ≡ₚ accounts s.
Proof.
  unfold accounts, retain. cbn. rewrite map_app, map_fst_answer.
  unfold queue at 1. cbn. rewrite <- List.filter_app. fold (queue (ws_core s)).
  rewrite <- (filter_perm keep (queue (ws_core s))) at 3. rewrite waiters_app. solve_Permutation.
Qed.
Lemma queue_on_lane l f c : queue (on_lane l f c) ≡ₚ (f (match l with Steering => co_steering c | FollowUp => co_follow_up c end)
    ++ match l with Steering => co_follow_up c | FollowUp => co_steering c end)%list.
Proof. destruct l; cbn; unfold queue; cbn; [done|]. by rewrite Permutation_app_comm. Qed.
(** Whatever a section does besides, an item that joins a lane brings its
    caller. *)
Lemma accounts_add l f item c s s' :
  (forall q, f q ≡ₚ item :: q) -> queue (ws_core s') = queue (on_lane l f c) -> queue c = queue (ws_core s) ->
  co_steering c = co_steering (ws_core s) -> ws_runner s' = ws_runner s -> ws_answers s' = ws_answers s ->
  accounts s' ≡ₚ (option_list (qd_done item) ++ accounts s)%list.
Proof.
  intros Hf Hq Hc Hs Hr Ha. unfold accounts. rewrite Hq, Hr, Ha, queue_on_lane, Hf. cbn [app]. rewrite waiters_cons.
  assert (((match l with Steering => co_steering c | FollowUp => co_follow_up c end)
    ++ match l with Steering => co_follow_up c | FollowUp => co_steering c end)%list ≡ₚ queue (ws_core s)) as ->.
  { rewrite <- Hc. unfold queue. destruct l; [done|]. by rewrite Permutation_app_comm. }
  by rewrite <- app_assoc.
Qed.
Lemma snoc_perm {A} (x : A) q : (q ++ [x])%list ≡ₚ x :: q.
Proof. by rewrite Permutation_app_comm. Qed.
Create HintDb queue.
#[export] Hint Resolve enqueue_perm snoc_perm : queue.

Lemma delete_perm {A} (l : list A) i x : l !! i = Some x -> x :: delete i l ≡ₚ l.
Proof. intros Hi. by rewrite <- (delete_Permutation l i x). Qed.
Lemma insert_perm {A} (l : list A) i x y : l !! i = Some x -> <[i := y]> l ≡ₚ y :: delete i l.
Proof.
  intros Hi. rewrite insert_take_drop by by eapply lookup_lt_Some. rewrite delete_take_drop. by rewrite Permutation_middle.
Qed.
Lemma swap_perm l i j : swap_items l i j ≡ₚ l.
Proof.
  unfold swap_items. destruct (l !! i) as [x|] eqn:Ei; [|done]. destruct (l !! j) as [y|] eqn:Ej; [|done].
  destruct (decide (i = j)) as [->|Hij].
  - simplify_eq. by rewrite list_insert_insert_eq, list_insert_id.
  - set (m := <[i := y]> l). assert (Hm : m !! j = Some y) by by (unfold m; rewrite list_lookup_insert_ne).
    rewrite (insert_perm m j y) by done. rewrite <- (delete_perm l i x) by done. constructor.
    apply (Permutation_cons_inv (a := y)). rewrite (delete_perm m j y) by done. unfold m. by apply insert_perm with x.
Qed.
(** A mutation answers the caller of the item it deletes and keeps the rest. *)
Lemma mutate_waiters lane i expected m mt lane' gone :
  mutate_lane lane i expected m mt = Some (lane', gone) -> waiters lane ≡ₚ (waiters lane' ++ gone)%list.
Proof.
  unfold mutate_lane. destruct (lane !! i) as [x|] eqn:Ei; [|done]. repeat case_match; intros; simplify_eq; try done;
    [|by rewrite swap_perm, app_nil_r|..]; transitivity (waiters (x :: delete i lane)); try by rewrite delete_perm.
  - by rewrite waiters_cons, Permutation_app_comm.
  - rewrite (insert_perm lane i x) by done. by rewrite !waiters_cons, app_nil_r.
  - rewrite (insert_perm lane i x) by done. by rewrite !waiters_cons, app_nil_r.
Qed.
Lemma change_lane_perm l t i c : queue (change_lane l t i c) ≡ₚ queue c.
Proof.
  destruct l, t; cbn; try done; case_match eqn:E; try done; unfold queue; cbn.
  - rewrite <- (delete_perm _ _ _ E) at 2. by rewrite app_assoc, snoc_perm.
  - rewrite <- (delete_perm _ _ _ E) at 2. by rewrite <- app_assoc.
Qed.
Lemma remove_first_perm f l x l' : remove_first f l = Some (x, l') -> x :: l' ≡ₚ l.
Proof.
  revert l'. induction l as [|y l IH]; [done|]. intros l'. cbn. destruct (f y); [by intros [= <- <-]|].
  intros ([z l''] & E & [= <- <-])%bind_Some. rewrite <- (IH _ E). apply perm_swap.
Qed.
Lemma restore_perm actions c : queue (foldl restore_action c actions) ≡ₚ (map restored_action actions ++ queue c)%list.
Proof.
  revert c. induction actions as [|a actions IH]; intros c; [done|]. cbn. rewrite IH. unfold restore_action at 1.
  rewrite queue_on_lane, snoc_perm. cbn. rewrite <- Permutation_middle. constructor. apply Permutation_app_head.
  unfold queue. destruct (action_lane a); [done|]. by rewrite Permutation_app_comm.
Qed.
Lemma pickup_perm lane c : let '(batch, c') := pickup_from lane c in (batch ++ queue c')%list ≡ₚ queue c.
Proof.
  unfold pickup_from, queue. destruct lane.
  - pose proof (gather_prefix Steering (co_steering_mode c) (co_forced_all_steering c) (co_steering c)) as Hg.
    destruct (gather_delivery_batch _ _ _ _) as [[batch kept] forced], Hg as [-> _]. cbn. by rewrite app_assoc.
  - pose proof (gather_prefix FollowUp (co_follow_up_mode c) (co_forced_all_steering c) (co_follow_up c)) as Hg.
    destruct (gather_delivery_batch _ _ _ _) as [[batch kept] forced], Hg as [-> _]. cbn.
    rewrite !app_assoc. by rewrite (Permutation_app_comm batch).
Qed.
(** Handlers up to their last section leave the work alone. *)
Definition same_work (s s' : WorkerState) : Prop :=
  co_steering (ws_core s') = co_steering (ws_core s) /\ co_follow_up (ws_core s') = co_follow_up (ws_core s)
  /\ co_busy (ws_core s') = co_busy (ws_core s) /\ co_running_admission_ids (ws_core s') = co_running_admission_ids (ws_core s)
  /\ ws_runner s' = ws_runner s /\ ws_owed s' = ws_owed s /\ ws_writing s' = ws_writing s /\ ws_journal s' = ws_journal s
  /\ ws_next_waiter s' = ws_next_waiter s /\ ws_answers s' = ws_answers s /\ ws_dead s' = ws_dead s
  /\ co_active_session_id (ws_core s') = co_active_session_id (ws_core s)
  /\ (exists ps, ws_pending s' = (ws_pending s ++ ps)%list /\ Forall (fun p => match p with ResumeThenCheckpoint _ => False | _ => True end) ps).
Lemma same_work_refl s : same_work s s.
Proof. repeat split. exists []. split; [by rewrite app_nil_r|done]. Qed.
Ltac same_work :=
  repeat split; cbn; first [exists []; split; [by rewrite ?app_nil_r|done] | eexists; split; [reflexivity|by repeat constructor]].
Lemma prompt_same payload wait s : same_work s (fst (handle_prompt payload wait s)).
Proof. unfold handle_prompt. repeat case_match; same_work. Qed.
Lemma input_same payload lane s : same_work s (fst (handle_queue payload lane s)).
Proof. unfold handle_queue. repeat case_match; same_work. Qed.
Lemma delivery_same payload pr s : same_work s (fst (handle_worker_deliver_message payload pr s)).
Proof. unfold handle_worker_deliver_message. repeat case_match; same_work. Qed.
Lemma guarded_either cmd k s (P : WorkerState -> Prop) : P s -> P (fst (k s)) -> P (fst (when_created cmd k s)).
Proof. unfold when_created. by case_match. Qed.
Lemma same_grows s s' : same_work s s' -> grows s s'.
Proof.
  intros (H1 & H2 & _ & _ & H3 & _ & _ & _ & H4 & H5 & _). apply grows_same; [done|]. unfold accounts, queue. by rewrite H1, H2, H3, H5.
Qed.

Lemma admit_prompt_grows m i c st id w s : grows s (fst (admit_prompt m i c st id w s)).
Proof.
  unfold admit_prompt. destruct (match id with Some _ => _ | None => _ end) as [ok adm]. destruct ok; cbn; [|by apply grows_same].
  set (item := mkQueued m _ _ _ _ _ _ _ _ _ _ _). destruct w; cbn.
  - apply grows_one; [done|].
    rewrite (accounts_add (prompt_lane st (co_busy (ws_core s))) (fun l => enqueue_priority l item) item (ws_core s) s _); auto with queue.
  - apply grows_same; [done|].
    rewrite (accounts_add (prompt_lane st (co_busy (ws_core s))) (fun l => enqueue_priority l item) item (ws_core s) s _); auto with queue.
Qed.
Lemma added_grows l f item s s' :
  (forall q, f q ≡ₚ item :: q) -> qd_done item = None -> ws_core s' = on_lane l f (ws_core s) ->
  ws_runner s' = ws_runner s -> ws_answers s' = ws_answers s -> ws_next_waiter s' = ws_next_waiter s -> grows s s'.
Proof.
  intros Hf Hd Hc Hr Ha Hn. apply grows_same; [done|].
  rewrite (accounts_add l f item (ws_core s) s s'); [by rewrite Hd|done|by rewrite Hc|done..].
Qed.
Lemma retain_grows keep out s s' :
  queue (ws_core s') = queue (ws_core (retain keep out s)) -> ws_runner s' = ws_runner s ->
  ws_answers s' = ws_answers (retain keep out s) -> ws_next_waiter s' = ws_next_waiter s -> grows s s'.
Proof.
  intros Hq Hr Ha Hn. apply grows_same; [done|]. rewrite <- (accounts_retain keep out s). unfold accounts. by rewrite Hq, Hr, Ha.
Qed.
Lemma mutate_grows payload s : grows s (fst (handle_mutate_queued_message payload s)).
Proof.
  unfold handle_mutate_queued_message. apply guarded_either; [by apply grows_same|]. cbn zeta.
  destruct (wire_lane _) as [lane|]; [|by apply grows_same]. destruct (_ ≫= as_u64) as [n|]; [|by apply grows_same].
  destruct (get "mutation" payload) as [m|]; [|by apply grows_same]. destruct (negb _); [by apply grows_same|].
  destruct (mutate_lane _ _ _ _ _) as [[items gone]|] eqn:E; [|by apply grows_same]. apply mutate_waiters in E.
  apply grows_same; [done|]. unfold accounts. cbn. rewrite map_app, map_fst_answer.
  assert (forall c, queue c ≡ₚ queue (on_lane lane (fun _ => items) (ws_core s)) ->
    waiters (queue c) ++ gone ≡ₚ waiters (queue (ws_core s)))%list as Hq.
  { intros c ->. rewrite queue_on_lane. unfold queue. rewrite !waiters_app, <- app_assoc, (Permutation_app_comm _ gone), app_assoc, <- E.
    destruct lane; [done|]. apply Permutation_app_comm. }
  match goal with |- (waiters (queue ?c) ++ _)%list ≡ₚ _ => rewrite <- (Hq c); [solve_Permutation|] end.
  destruct (String.eqb _ _); [|done]. destruct (wire_lane (get "lane" m)); [apply change_lane_perm|done].
Qed.
Lemma pickup_grows s : grows s (pickup s).
Proof.
  unfold pickup. destruct (ws_runner s) eqn:Er; try (by apply grows_same).
  destruct (co_shutdown_requested _). { apply grows_same; [done|]. unfold accounts. cbn. by rewrite Er. }
  destruct (_ || _ || _); [by apply grows_same|].
  assert (forall lane, grows s (let '(batch, c') := pickup_from lane (ws_core s) in set_runner (InTurn batch) (set_core (fun _ => c') s))) as Hp.
  { intros lane. pose proof (pickup_perm lane (ws_core s)) as Hq. destruct (pickup_from _ _) as [batch c']. apply grows_same; [done|].
    unfold accounts. cbn. rewrite Er, <- Hq, waiters_app. cbn. solve_Permutation. }
  destruct (co_steering (ws_core s)); [destruct (co_follow_up (ws_core s)); [by apply grows_same|]|]; apply Hp.
Qed.
Lemma bash_consumed_grows n s : grows s (withdraw_bash_completion_notice n s).
Proof.
  unfold withdraw_bash_completion_notice.
  destruct (remove_first _ (co_steering _)) as [[i st]|] eqn:E; [|destruct (remove_first _ (co_follow_up _)) as [[i fu]|] eqn:E2];
    [..|by apply grows_same]; apply grows_same; try done; unfold accounts, queue; cbn; rewrite map_app, map_fst_answer, !waiters_app.
  - rewrite <- (remove_first_perm _ _ _ _ E), !waiters_cons. cbn. solve_Permutation.
  - rewrite <- (remove_first_perm _ _ _ _ E2), !waiters_cons. cbn. solve_Permutation.
Qed.
Lemma cron_grows f s : grows s (fst (run_job_queues f s)).
Proof.
  unfold run_job_queues. destruct (_ || _ || _); [by apply grows_same|].
  set (s2 := match _ with Some k => _ | None => _ end). set (item := mkQueued _ _ _ _ _ _ _ _ _ _ _ _).
  assert (grows s s2 /\ ws_next_waiter s2 = ws_next_waiter s) as [Hg Hn].
  { unfold s2. destruct (fi_heartbeat f); [|split; [by apply grows_same|done]]. split; [|done].
    by eapply retain_grows with (s := resume_queued_input s). }
  eapply grows_trans; [exact Hg|]. cbn [fst]. set (lane := if fi_heartbeat f && fi_steering f then Steering else FollowUp).
  apply grows_one; [done|]. rewrite Hn.
  rewrite (accounts_add lane (fun l => enqueue_priority l item) item (ws_core s2) s2 _); auto with queue.
Qed.
Lemma restored_no_waiters actions : waiters (map restored_action actions) = [].
Proof. by induction actions. Qed.
Lemma restore_grows payload s : grows s (fst (handle_restore_actions payload s)).
Proof.
  unfold handle_restore_actions. apply guarded_either; [by apply grows_same|]. cbn zeta.
  destruct (get "snapshot" payload) as [[]|]; try (by apply grows_same). destruct (negb _); [by apply grows_same|].
  destruct (_ ≫= as_array) as [actions|]; [|by apply grows_same]. destruct (restore_error [] actions); [by apply grows_same|].
  assert (forall s', ws_core s' = foldl restore_action (ws_core s) actions -> ws_runner s' = ws_runner s -> ws_answers s' = ws_answers s ->
    ws_next_waiter s' = ws_next_waiter s -> grows s s') as Hg.
  { intros s' Hc Hr Ha Hn. apply grows_same; [done|]. unfold accounts. by rewrite Hc, Hr, Ha, restore_perm, waiters_app, restored_no_waiters. }
  destruct actions; by apply Hg.
Qed.

Lemma grows_refl s : grows s s.
Proof. by apply grows_same. Qed.
#[export] Hint Resolve grows_refl same_grows prompt_same input_same delivery_same admit_prompt_grows mutate_grows pickup_grows
  bash_consumed_grows cron_grows restore_grows : queue.
Lemma admit_delivery_grows payload pr s : grows s (fst (admit_delivery payload pr s)).
Proof. unfold admit_delivery. case_match; [auto with queue|]. cbn [fst]. (eapply added_grows; [| |reflexivity|done..]; [intros; apply enqueue_perm|done]). Qed.
Lemma proceed_grows n s : grows s (fst (proceed n s)).
Proof.
  unfold proceed. destruct (ws_pending s !! n) as [p|]; [|apply grows_refl]. eapply grows_trans; [apply (grows_same s (set_pending (delete n) s)); done|].
  destruct p; cbn [fst]; [apply admit_prompt_grows|(eapply added_grows; [| |reflexivity|done..]; [intros; apply enqueue_perm|done])| | |case_match|];
    try (apply same_grows; same_work).
  - pose proof (admit_delivery_grows payload probe (set_pending (delete n) s)). by destruct (admit_delivery _ _ _).
  - by apply grows_same.
Qed.
#[export] Hint Resolve proceed_grows : queue.
Ltac guarded_same := match goal with |- same_work ?s _ => apply (guarded_either _ _ s (same_work s)) end; [apply same_work_refl|]; repeat case_match; same_work.
Lemma resume_queue_same s : same_work s (fst (handle_resume_queue s)).
Proof. guarded_same. Qed.
Lemma agent_resume_same s : same_work s (fst (handle_agent_messages_resume s)).
Proof. guarded_same. Qed.
Lemma acquire_same payload fresh s : same_work s (fst (handle_acquire_session_input_pause payload fresh s)).
Proof.
  apply (guarded_either _ _ s (same_work s)); [apply same_work_refl|]. cbn zeta. destruct (get_str "leaseKey" payload); [|apply same_work_refl].
  destruct (acquire_pause _ _ _). same_work.
Qed.
Lemma release_same payload s : same_work s (fst (handle_release_session_input_pause payload s)).
Proof. unfold handle_release_session_input_pause. apply (guarded_either _ _ s (same_work s)); [apply same_work_refl|]. destruct (release_pause _ _ _ _). same_work. Qed.
#[export] Hint Resolve resume_queue_same agent_resume_same acquire_same release_same : queue.
Lemma clear_grows s : grows s (fst (handle_clear_queue s)).
Proof. apply (guarded_either _ _ s (grows s)); [apply grows_refl|]. by apply (retain_grows (fun _ => false) None). Qed.
Lemma abort_grows s s0 : same_work s s0 -> grows s (request_abort s0).
Proof.
  intros Hs. apply (grows_trans _ s0); [by apply same_grows|].
  by apply (retain_grows qd_queue_visible (Some (Withdrawn PROMPT_ABORTED_BEFORE_DELIVERY))).
Qed.
Lemma cancel_grows payload s : grows s (fst (handle_cancel_prompt_admission payload s)).
Proof.
  apply (guarded_either _ _ s (grows s)); [apply grows_refl|]. cbn zeta. set (id := default "" (get_str "admissionId" payload)).
  destruct (cancel_admission id (ws_admissions s)) as [status adm]. cbn [fst].
  destruct (_ || _); [|case_match; apply same_grows; same_work].
  destruct (_ && _ && _); by apply (retain_grows (fun i => negb (carries id i)) None).
Qed.
Lemma arm_waiters l : waiters (map arm l) = waiters l.
Proof. induction l as [|x l IH]; [done|]. cbn [map]. by rewrite !waiters_cons, IH. Qed.
Lemma send_grows s : grows s (abort_and_send_queued s).
Proof.
  unfold abort_and_send_queued. destruct (_ || _); [by apply abort_grows, same_work_refl|].
  apply (grows_trans _ (set_core arm_forced_all_steering s)).
  - apply grows_same; [done|]. unfold accounts, arm_forced_all_steering. cbn. destruct (negb _); [done|].
    unfold queue. cbn. by rewrite !waiters_app, arm_waiters.
  - by apply (retain_grows qd_queue_visible (Some (Withdrawn PROMPT_ABORTED_BEFORE_DELIVERY))).
Qed.
Lemma resolves_grows s : grows s (turn_resolves s).
Proof.
  unfold turn_resolves. destruct (ws_runner s) eqn:Er; try apply grows_refl. destruct (settle_outstanding s); [apply grows_refl|].
  apply grows_same; [done|]. unfold accounts. cbn. rewrite Er, map_app, map_fst_answer. cbn. solve_Permutation.
Qed.
(** Every section keeps account of every caller. *)
Lemma step_grows `{Env} sc e s : grows s (qstep sc e s).
Proof.
  unfold qstep. destruct (ws_dead s); [apply grows_refl|].
  destruct e; eauto using clear_grows, cancel_grows, send_grows, resolves_grows with queue; try (by apply grows_same).
  - apply (guarded_either _ _ s (grows s)); [apply grows_refl|]. cbn. by eapply (retain_grows _ None).
  - apply (guarded_either _ _ s (grows s)); [apply grows_refl|]. cbn. by eapply (retain_grows _ None).
  - unfold handle_abort_and_clear_queue. pose proof (clear_grows s) as Hc. destruct (handle_clear_queue s) as [s1 r]. cbn in Hc.
    destruct (negb _); [done|]. apply (grows_trans _ s1); [done|]. by apply grows_same.
  - by apply abort_grows, same_work_refl.
  - eapply added_grows; [| |reflexivity|done..]; [intros; apply snoc_perm|done].
  - by eapply (retain_grows _ None).
  - eapply added_grows; [| |reflexivity|done..]; [intros; apply enqueue_perm|done].
  - by eapply (retain_grows _ None).
  - unfold admit_bash_completion_notice. destruct closed; [apply grows_refl|].
    eapply added_grows; [| |reflexivity|done..]; [intros; apply snoc_perm|done].
  - unfold turn_ends. destruct (ws_runner s) eqn:Er; try apply grows_refl. apply grows_same; [done|]. unfold accounts. cbn. by rewrite Er.
  - unfold checkpoint_reads. repeat case_match; try apply grows_refl. by apply grows_same.
  - unfold checkpoint_writes. destruct (ws_writing s); [|apply grows_refl]. destruct (record_queue_checkpoint _ _ _ _ _ _ _ _ _). by apply grows_same.
Qed.
