(* ===== verification/QueueRecord.v ===== *)
(** * The input queue: what is on record

    The runner's flags agree with its state, and whenever no checkpoint is
    outstanding the journal has every queued item and says that the session is
    busy if it has anything to do. *)
From S2P Require Import Prelude RustStr Lines Json Time World LedgerReplay LedgerFile Effects Protocol Slash Journal JournalProofs JournalTheorems JournalLives Queue QueueWorker QueueProofs.
#[local] Open Scope string_scope.

(** ** The runner's flags *)
Definition in_turn (r : Runner) : list QueuedItem := match r with InTurn items => items | _ => [] end.
Definition runs (r : Runner) : bool := match r with InTurn _ => true | _ => false end.
Record runner_agrees (s : WorkerState) : Prop := {
  ra_busy : co_busy (ws_core s) = runs (ws_runner s);
  ra_running : co_running_admission_ids (ws_core s) = omap qd_admission_id (in_turn (ws_runner s));
  ra_turn : forall items, ws_runner s = InTurn items -> items <> []
}.
Definition run_view (s : WorkerState) : bool * list string * Runner * string :=
  (co_busy (ws_core s), co_running_admission_ids (ws_core s), ws_runner s, co_active_session_id (ws_core s)).
Lemma view_agrees s s' : run_view s' = run_view s -> runner_agrees s -> runner_agrees s'.
Proof. intros [= H1 H2 H3 _] [Hb Hr Ht]. split; by rewrite ?H1, ?H2, ?H3. Qed.
Lemma same_view s s' : same_work s s' -> run_view s' = run_view s.
Proof. intros (_ & _ & H1 & H2 & H3 & _ & _ & _ & _ & _ & _ & H4 & _). unfold run_view. by rewrite H1, H2, H3, H4. Qed.
Lemma lane_view l f c : co_busy (on_lane l f c) = co_busy c /\ co_running_admission_ids (on_lane l f c) = co_running_admission_ids c
  /\ co_active_session_id (on_lane l f c) = co_active_session_id c.
Proof. by destruct l. Qed.
Lemma restore_view actions c : let c' := foldl restore_action c actions in
  co_busy c' = co_busy c /\ co_running_admission_ids c' = co_running_admission_ids c /\ co_active_session_id c' = co_active_session_id c.
Proof.
  revert c. induction actions as [|a actions IH]; intros c; [done|]. cbn. destruct (IH (restore_action c a)) as (-> & -> & ->).
  apply lane_view.
Qed.
Lemma change_lane_view l t i c : let c' := change_lane l t i c in
  co_busy c' = co_busy c /\ co_running_admission_ids c' = co_running_admission_ids c /\ co_active_session_id c' = co_active_session_id c.
Proof. destruct l, t; cbn; try done; by case_match. Qed.
Definition runner_event (e : QEvent) : bool := match e with Pickup | TurnEnds _ | TurnResolves => true | _ => false end.
Ltac lanes_view := unfold run_view; cbn; repeat match goal with |- context [on_lane ?l ?f ?c] => destruct (lane_view l f c) as (-> & -> & ->) end; done.
Lemma proceed_view n s : run_view (fst (proceed n s)) = run_view s.
Proof.
  unfold proceed. destruct (ws_pending s !! n) as [p|]; [|done]. destruct p; cbn [fst]; [|lanes_view| |done|by case_match|done].
  - unfold admit_prompt. destruct (match admission_id with Some _ => _ | None => _ end) as [[] adm]; [|done]. destruct wait; lanes_view.
  - unfold admit_delivery. destruct (assert_agent_message_queue_capacity _ _); [done|]. lanes_view.
Qed.
Lemma mutate_view payload s : run_view (fst (handle_mutate_queued_message payload s)) = run_view s.
Proof.
  apply (guarded_either _ _ s (fun s' => run_view s' = run_view s)); [done|]. cbn zeta.
  destruct (wire_lane _) as [lane|]; [|done]. destruct (_ ≫= as_u64) as [n|]; [|done]. destruct (get "mutation" payload) as [m|]; [|done].
  destruct (negb _); [done|]. destruct (mutate_lane _ _ _ _ _) as [[items gone]|]; [|done]. unfold run_view. cbn.
  destruct (String.eqb _ _); [destruct (wire_lane (get "lane" m))|];
    [edestruct change_lane_view as (-> & -> & ->)|..]; destruct (lane_view lane (fun _ => items) (ws_core s)) as (-> & -> & ->); done.
Qed.
Lemma restore_actions_view payload s : run_view (fst (handle_restore_actions payload s)) = run_view s.
Proof.
  apply (guarded_either _ _ s (fun s' => run_view s' = run_view s)); [done|]. cbn zeta.
  destruct (get "snapshot" payload) as [[]|]; try done. destruct (negb _); [done|].
  destruct (_ ≫= as_array) as [actions|]; [|done]. destruct (restore_error [] actions); [done|].
  assert (run_view (set_core (fun c => foldl restore_action c actions) s) = run_view s) as Hv.
  { unfold run_view. cbn. by destruct (restore_view actions (ws_core s)) as (-> & -> & ->). }
  destruct actions; [done|]. exact Hv.
Qed.
Lemma guarded_view cmd k s : run_view (fst (k s)) = run_view s -> run_view (fst (when_created cmd k s)) = run_view s.
Proof. intros Hk. by apply (guarded_either cmd k s (fun s' => run_view s' = run_view s)). Qed.
Lemma cancel_view payload s : run_view (fst (handle_cancel_prompt_admission payload s)) = run_view s.
Proof. apply guarded_view. cbn zeta. destruct (cancel_admission (default "" (get_str "admissionId" payload)) (ws_admissions s)). cbn [fst]. by repeat case_match. Qed.
Lemma step_view `{Env} sc e s : runner_event e = false -> run_view (qstep sc e s) = run_view s.
Proof.
  intros He. unfold qstep. destruct (ws_dead s); [done|].
  destruct e; try done; eauto using same_view, proceed_view, mutate_view, restore_actions_view, cancel_view with queue.
  - by apply guarded_view.
  - by apply guarded_view.
  - by apply guarded_view.
  - unfold handle_abort_and_clear_queue. assert (Hc : run_view (fst (handle_clear_queue s)) = run_view s) by by apply guarded_view.
    destruct (handle_clear_queue s); cbn in Hc |- *. by destruct (negb _).
  - unfold abort_and_send_queued. destruct (_ || _); [done|]. unfold run_view, arm_forced_all_steering. cbn. by destruct (negb _).
  - lanes_view.
  - unfold admit_bash_completion_notice. destruct closed; [done|]. lanes_view.
  - unfold withdraw_bash_completion_notice. by repeat case_match.
  - unfold run_job_queues. repeat case_match; done || lanes_view.
  - unfold checkpoint_reads. by repeat case_match.
  - unfold checkpoint_writes. destruct (ws_writing s); [|done]. by destruct (record_queue_checkpoint _ _ _ _ _ _ _ _ _).
Qed.
Lemma pickup_run lane c :
  let '(batch, c') := pickup_from lane c in
  co_busy c' = true /\ co_running_admission_ids c' = omap qd_admission_id batch /\ co_active_session_id c' = co_active_session_id c
  /\ (match lane with Steering => co_steering c | FollowUp => co_follow_up c end <> [] -> batch <> []).
Proof.
  unfold pickup_from. destruct lane; [pose proof (gather_prefix Steering (co_steering_mode c) (co_forced_all_steering c) (co_steering c)) as Hg
  |pose proof (gather_prefix FollowUp (co_follow_up_mode c) (co_forced_all_steering c) (co_follow_up c)) as Hg];
    destruct (gather_delivery_batch _ _ _ _) as [[batch kept] forced]; by destruct Hg.
Qed.
(** The cases of a pickup. *)
Lemma pickup_cases s (P : WorkerState -> Prop) :
  (forall r, ws_runner s <> Parked \/ r = Gone -> P (match ws_runner s with Parked => set_runner r s | _ => s end)) ->
  (ws_runner s = Parked -> P (set_core (fun c => with_run false (co_running_admission_ids c) c) s)) ->
  (forall lane, ws_runner s = Parked -> match lane with Steering => co_steering (ws_core s) | FollowUp => co_follow_up (ws_core s) end <> [] ->
    P (let '(batch, c') := pickup_from lane (ws_core s) in set_runner (InTurn batch) (set_core (fun _ => c') s))) ->
  P (pickup s).
Proof.
  intros Hn Hi Hp. unfold pickup. destruct (ws_runner s) eqn:Er; try (apply (Hn Gone); by left).
  destruct (co_shutdown_requested _); [apply (Hn Gone); by right|]. destruct (_ || _ || _); [by apply Hi|].
  destruct (co_steering (ws_core s)) eqn:Es; [destruct (co_follow_up (ws_core s)) eqn:Ef; [by apply Hi|]|].
  - by apply (Hp FollowUp).
  - by apply (Hp Steering).
Qed.
(** Every section keeps the flags in step with the runner. *)
Lemma step_agrees `{Env} sc e s : runner_agrees s -> runner_agrees (qstep sc e s).
Proof.
  intros Hs. destruct (runner_event e) eqn:He; [|by eapply view_agrees; [apply step_view|]].
  unfold qstep. destruct (ws_dead s); [done|]. destruct Hs as [Hb Hr Ht]. destruct e; try done.
  - apply pickup_cases.
    + intros r Hor. destruct (ws_runner s) eqn:Er; try (split; by rewrite ?Er). destruct Hor as [Hne|Hg]; [done|]. subst r. by split.
    + intros Er. rewrite Er in *. split; cbn; by rewrite Er.
    + intros lane Er Hl. pose proof (pickup_run lane (ws_core s)) as Hp. destruct (pickup_from _ _) as [batch c'].
      destruct Hp as (Hpb & Hpr & _ & Hne). constructor; [exact Hpb|exact Hpr|]. intros items [= <-]. by apply Hne.
  - unfold turn_ends. destruct (ws_runner s) eqn:Er; try (split; by rewrite ?Er).
  - unfold turn_resolves. destruct (ws_runner s) eqn:Er; try (split; by rewrite ?Er). destruct (settle_outstanding s); [split; by rewrite ?Er|].
    split; cbn; [by rewrite Hb|by rewrite Hr|done].
Qed.

(** ** Documents that can be written *)
Section Printable.
Context `{LedgerEnv}.
Definition custom_ok (o : option Value) : Prop := match o with Some v => v <> VNull /\ printable v | None => True end.
Definition pending_ok (p : Pending) : Prop :=
  match p with
  | PromptReady _ _ custom _ _ _ | InputReady _ _ _ custom => custom_ok custom
  | DeliveryReady payload pr => printable payload /\ (0 <= dp_now_ms pr <= u64_max)%Z
  | _ => True
  end.
Definition read_ok (r : CheckpointRead) : Prop := Forall item_ok (cr_steering r) /\ Forall item_ok (cr_follow_up r).
Definition documents_ok (s : WorkerState) : Prop :=
  Forall (fun i => custom_ok (qd_custom_message i)) (queue (ws_core s)) /\ Forall pending_ok (ws_pending s)
  /\ match ws_writing s with Some r => read_ok r | None => True end.
(** What arrives from outside was read from JSON. *)
Definition event_ok (e : QEvent) : Prop :=
  match e with
  | Prompt payload _ | Input _ payload | RestoreActions payload => printable payload
  | Deliver payload pr => printable payload /\ (0 <= dp_now_ms pr <= u64_max)%Z
  | Goal _ _ custom _ => custom_ok custom
  | BashDone _ row _ => row <> VNull /\ printable row
  | CronFires f => custom_ok (fi_custom f)
  | _ => True
  end.

Lemma get_printable k v x : printable v -> get k v = Some x -> printable x.
Proof. destruct v; cbn [get]; try done. rewrite printable_object. apply member_printable. Qed.
Lemma not_null_ok o : (forall v, o = Some v -> printable v) -> custom_ok (not_null o).
Proof. intros Hv. destruct o as [v|]; [|done]. specialize (Hv v eq_refl). by destruct v. Qed.
Lemma parse_custom_ok payload c : printable payload -> parse_custom_message (get "customMessage" payload) = inr c -> custom_ok c.
Proof.
  intros Hp. unfold parse_custom_message. destruct (get "customMessage" payload) as [v|] eqn:E; [|by intros [= <-]].
  pose proof (get_printable _ _ _ Hp E). destruct v; try (by intros [= <-]) || done. repeat case_match; intros; by simplify_eq.
Qed.

Abbreviation items_ok := (Forall (fun i => custom_ok (qd_custom_message i))).
Lemma docs_intro s s' :
  documents_ok s -> (items_ok (queue (ws_core s)) -> items_ok (queue (ws_core s'))) ->
  (Forall pending_ok (ws_pending s) -> Forall pending_ok (ws_pending s')) -> ws_writing s' = ws_writing s -> documents_ok s'.
Proof. intros (H1 & H2 & H3) Hq Hp Hw. split; [by apply Hq|]. split; [by apply Hp|]. by rewrite Hw. Qed.
Lemma lane_items_ok l f c item :
  (forall q, f q ≡ₚ item :: q) -> custom_ok (qd_custom_message item) -> items_ok (queue c) -> items_ok (queue (on_lane l f c)).
Proof.
  intros Hf Hi Hq. rewrite queue_on_lane, Hf. constructor; [done|]. unfold queue in Hq.
  rewrite Forall_app in Hq. apply Forall_app. destruct l; tauto.
Qed.
Lemma filter_items_ok f c : items_ok (queue c) -> items_ok (queue (with_lanes (List.filter f (co_steering c)) (List.filter f (co_follow_up c)) c)).
Proof. unfold queue. cbn. rewrite <- List.filter_app. rewrite !List.Forall_forall. intros Hq x [Hx _]%filter_In. by apply Hq. Qed.
Lemma mutate_items_ok lane i expected m mt lane' gone :
  mutate_lane lane i expected m mt = Some (lane', gone) -> items_ok lane -> items_ok lane'.
Proof.
  unfold mutate_lane. destruct (lane !! i) as [x|] eqn:Ei; [|done]. intros Hm Hl.
  pose proof (Forall_lookup_1 _ _ _ _ Hl Ei) as Hx. cbn in Hx.
  repeat case_match; simplify_eq; try (by apply Forall_delete); try (by rewrite swap_perm); by apply Forall_insert.
Qed.
Lemma restored_ok action : printable action -> custom_ok (qd_custom_message (restored_action action)).
Proof.
  intros Ha. cbn. apply not_null_ok. intros v. destruct (get "payload" action) as [p|] eqn:E; cbn; [|done].
  apply get_printable. by eapply get_printable.
Qed.
Lemma delivery_row_ok payload pr c :
  printable payload -> (0 <= dp_now_ms pr <= u64_max)%Z ->
  let sender := default VNull (get "sender" payload) in
  forall id prompt message child,
  custom_ok (Some (create_agent_session_message_row id prompt message sender child (delivery_target c pr) (dp_now_ms pr))).
Proof.
  intros Hp Hn sender id prompt message child. split; [done|].
  assert (printable sender) as Hs by (unfold sender; destruct (get "sender" payload) eqn:E; [by eapply get_printable|done]).
  assert (printable (delivery_target c pr)) as Ht by (unfold delivery_target; repeat case_match; by repeat constructor).
  unfold create_agent_session_message_row. rewrite printable_object, !Forall_cons. cbn [snd fst].
  repeat split; [exact Hs| |lia|lia|done]. by destruct child.
Qed.

Lemma same_docs s s' :
  same_work s s' -> (forall ps, ws_pending s' = (ws_pending s ++ ps)%list -> Forall pending_ok ps) -> documents_ok s -> documents_ok s'.
Proof.
  intros (H1 & H2 & _ & _ & _ & _ & H3 & _ & _ & _ & _ & _ & ps & Hp & _) Hps Hs. eapply docs_intro; [done| | |done].
  - unfold queue. by rewrite H1, H2.
  - rewrite Hp. intros Hq. apply Forall_app. split; [done|by apply Hps].
Qed.
Lemma app_fresh {A} (l : list A) ps x : (l ++ [x] = l ++ ps)%list -> ps = [x].
Proof. intros E. by apply app_inv_head in E. Qed.
Lemma app_none {A} (l : list A) ps : l = (l ++ ps)%list -> ps = [].
Proof. intros E. apply (app_inv_head l). by rewrite app_nil_r. Qed.
Ltac fresh_pending := let ps := fresh "ps" in let E := fresh "E" in intros ps E; cbn in E;
  first [apply app_none in E; subst ps; apply Forall_nil_2 | apply app_fresh in E; subst ps; apply Forall_singleton; try done].
Lemma prompt_docs payload w s : printable payload -> documents_ok s -> documents_ok (fst (handle_prompt payload w s)).
Proof.
  intros Hp. apply same_docs; [apply prompt_same|]. unfold handle_prompt. cbn zeta.
  destruct (parse_custom_message _) eqn:E; repeat case_match; fresh_pending; by eapply parse_custom_ok.
Qed.
Lemma input_docs payload l s : printable payload -> documents_ok s -> documents_ok (fst (handle_queue payload l s)).
Proof.
  intros Hp. apply same_docs; [apply input_same|]. unfold handle_queue. cbn zeta.
  destruct (parse_custom_message _) eqn:E; repeat case_match; fresh_pending; by eapply parse_custom_ok.
Qed.
Lemma delivery_docs payload pr s :
  printable payload -> (0 <= dp_now_ms pr <= u64_max)%Z -> documents_ok s -> documents_ok (fst (handle_worker_deliver_message payload pr s)).
Proof.
  intros Hp Hn. apply same_docs; [apply delivery_same|]. unfold handle_worker_deliver_message. cbn zeta. repeat case_match; fresh_pending.
Qed.
Lemma guarded_docs cmd k s : documents_ok s -> documents_ok (fst (k s)) -> documents_ok (fst (when_created cmd k s)).
Proof. apply guarded_either. Qed.
Lemma mutate_docs payload s : documents_ok s -> documents_ok (fst (handle_mutate_queued_message payload s)).
Proof.
  intros Hs. apply guarded_docs; [done|]. cbn zeta.
  destruct (wire_lane _) as [lane|]; [|done]. destruct (_ ≫= as_u64) as [n|]; [|done]. destruct (get "mutation" payload) as [m|]; [|done].
  destruct (negb _); [done|]. destruct (mutate_lane _ _ _ _ _) as [[items gone]|] eqn:E; [|done].
  apply (docs_intro s); [done| |cbn; intros; apply Forall_app; split; [done|by repeat constructor]|done]. intros Hq. cbn.
  assert (items_ok (queue (on_lane lane (fun _ => items) (ws_core s)))) as Hl.
  { unfold queue in Hq. rewrite Forall_app in Hq. rewrite queue_on_lane. apply Forall_app.
    split; [eapply mutate_items_ok; [done|]|]; destruct lane; tauto. }
  destruct (String.eqb _ _); [|done]. destruct (wire_lane (get "lane" m)); [|done]. by rewrite change_lane_perm.
Qed.
Lemma restore_docs payload s : printable payload -> documents_ok s -> documents_ok (fst (handle_restore_actions payload s)).
Proof.
  intros Hp Hs. apply guarded_docs; [done|]. cbn zeta. destruct (get "snapshot" payload) as [[]|] eqn:Es; try done. destruct (negb _); [done|].
  destruct (_ ≫= as_array) as [actions|] eqn:Ea; [|done]. destruct (restore_error [] actions); [done|].
  apply bind_Some in Ea as (v & Ev & Ea). pose proof (get_printable _ _ _ (get_printable _ _ _ Hp Es) Ev) as Hv. destruct v; try done.
  injection Ea as ->. rewrite printable_array in Hv.
  assert (documents_ok (set_core (fun c => foldl restore_action c actions) s)) as Hd.
  { apply (docs_intro s); [done| |done..]. intros Hq. cbn. rewrite restore_perm. apply Forall_app. split; [|done].
    apply Forall_map. eapply Forall_impl; [exact Hv|]. intros. by apply restored_ok. }
  destruct actions; [done|]. by apply (docs_intro (set_core (fun c => foldl restore_action c (v :: actions)) s)).
Qed.
Lemma pickup_docs s : documents_ok s -> documents_ok (pickup s).
Proof.
  intros Hs. apply pickup_cases; [intros r _; by destruct (ws_runner s)|done|]. intros lane _ _.
  pose proof (pickup_perm lane (ws_core s)) as Hp. destruct (pickup_from _ _) as [batch c'].
  apply (docs_intro s); [done| |done..]. cbn. rewrite <- Hp, Forall_app. tauto.
Qed.
Lemma proceed_docs n s : documents_ok s -> documents_ok (fst (proceed n s)).
Proof.
  intros Hs. unfold proceed. destruct (ws_pending s !! n) as [p|] eqn:E; [|done].
  assert (pending_ok p) as Hpo by by (eapply Forall_lookup_1; [apply Hs|]).
  assert (documents_ok (set_pending (delete n) s)) as Hd by (apply (docs_intro s); [done|done|by apply Forall_delete|done]).
  destruct p; cbn [fst]; cbn in Hpo; [|eapply docs_intro; [exact Hd| |done..]| |done|by case_match|done].
  - unfold admit_prompt. destruct (match admission_id with Some _ => _ | None => _ end) as [[] adm]; [|done].
    destruct wait; (eapply docs_intro; [exact Hd| |done..]); cbn; intros; eapply lane_items_ok; auto with queue.
  - cbn. intros. eapply lane_items_ok; auto with queue.
  - unfold admit_delivery. destruct (assert_agent_message_queue_capacity _ _); [done|].
    eapply docs_intro; [exact Hd| |done..]. cbn. intros. eapply lane_items_ok; [auto with queue| |done].
    by apply delivery_row_ok; destruct Hpo.
Qed.
Lemma cron_docs f s : custom_ok (fi_custom f) -> documents_ok s -> documents_ok (fst (run_job_queues f s)).
Proof.
  intros Hf Hs. unfold run_job_queues. destruct (_ || _ || _); [done|]. cbn [fst].
  set (lane := if fi_heartbeat f && fi_steering f then Steering else FollowUp). clearbody lane.
  destruct (fi_heartbeat f); (eapply docs_intro; [exact Hs| |done..]); cbn; intros; eapply lane_items_ok; auto with queue.
  by apply (filter_items_ok _ (suspend false (ws_core s))).
Qed.
Lemma arm_items_ok l : items_ok (map arm l) <-> items_ok l.
Proof. by rewrite Forall_map. Qed.
Lemma retain_docs keep c s s' :
  documents_ok s -> queue c = queue (ws_core s) -> co_steering c = co_steering (ws_core s) ->
  ws_core s' = with_lanes (List.filter keep (co_steering c)) (List.filter keep (co_follow_up c)) c ->
  ws_pending s' = ws_pending s -> ws_writing s' = ws_writing s -> documents_ok s'.
Proof.
  intros Hs Hq _ Hc Hp Hw. apply (docs_intro s); [done| |by rewrite Hp|done]. rewrite Hc. intros Hi. apply filter_items_ok. by rewrite Hq.
Qed.
Lemma clear_docs s : documents_ok s -> documents_ok (fst (handle_clear_queue s)).
Proof. intros Hs. apply guarded_docs; [done|]. by apply (retain_docs (fun _ => false) (ws_core s) s). Qed.
Lemma abort_docs s : documents_ok s -> documents_ok (request_abort s).
Proof. intros Hs. by apply (retain_docs qd_queue_visible (suspend true (abort_flag true (ws_core s))) s). Qed.
Lemma cancel_docs payload s : documents_ok s -> documents_ok (fst (handle_cancel_prompt_admission payload s)).
Proof.
  intros Hs. apply guarded_docs; [done|]. cbn zeta. set (id := default "" (get_str "admissionId" payload)).
  destruct (cancel_admission id (ws_admissions s)) as [status adm]. cbn [fst].
  destruct (_ || _); [|by case_match].
  destruct (_ && _ && _); (eapply docs_intro; [exact Hs| |done..]); cbn; intros;
    by apply (filter_items_ok (fun i => negb (carries id i)) (ws_core s)).
Qed.
Lemma bash_consumed_docs n s : documents_ok s -> documents_ok (withdraw_bash_completion_notice n s).
Proof.
  intros Hs. unfold withdraw_bash_completion_notice.
  destruct (remove_first _ (co_steering _)) as [[i st]|] eqn:E; [|destruct (remove_first _ (co_follow_up _)) as [[i fu]|] eqn:E2];
    [..|done]; apply (docs_intro s); try done; unfold queue; cbn; rewrite !Forall_app.
  - rewrite <- (remove_first_perm _ _ _ _ E), Forall_cons. tauto.
  - rewrite <- (remove_first_perm _ _ _ _ E2), Forall_cons. tauto.
Qed.
Lemma records_ok l : items_ok l -> Forall item_ok (map item_record l).
Proof. rewrite Forall_map. done. Qed.
(** Every section keeps to documents that can be written. *)
Lemma step_documents `{Env} sc e s : event_ok e -> documents_ok s -> documents_ok (qstep sc e s).
Proof.
  intros He Hs. unfold qstep. destruct (ws_dead s); [done|].
  destruct e; cbn in He; auto using prompt_docs, input_docs, mutate_docs, restore_docs, pickup_docs, proceed_docs, cron_docs, clear_docs,
    abort_docs, cancel_docs, bash_consumed_docs.
  - by apply delivery_docs; destruct He.
  - apply guarded_docs; [done|]. by eapply (retain_docs _ (ws_core s) s).
  - apply guarded_docs; [done|]. by eapply (retain_docs _ (ws_core s) s).
  - by apply guarded_docs.
  - by apply guarded_docs.
  - unfold handle_abort_and_clear_queue. pose proof (clear_docs s Hs) as Hc. destruct (handle_clear_queue s) as [s1 r]. cbn in Hc.
    destruct (negb _); [done|]. apply (docs_intro s1); [done|done| |done]. cbn. intros. apply Forall_app. by split; [|repeat constructor].
  - by apply abort_docs.
  - unfold abort_and_send_queued. destruct (_ || _); [by apply abort_docs|].
    assert (documents_ok (set_core arm_forced_all_steering s)) as Ha.
    { apply (docs_intro s); [done| |done..]. unfold arm_forced_all_steering. cbn. destruct (negb _); [done|].
      unfold queue. cbn. by rewrite !Forall_app, arm_items_ok. }
    eapply docs_intro; [exact (abort_docs _ Ha)|done| |done]. cbn. intros. apply Forall_app. by split; [|repeat constructor].
  - apply guarded_docs; [done|]. cbn zeta. destruct (get_str "leaseKey" payload); [|done]. by destruct (acquire_pause _ _ _).
  - apply guarded_docs; [done|]. cbn zeta. match goal with |- context [release_pause ?a ?b ?c ?d] => by destruct (release_pause a b c d) end.
  - apply (docs_intro s); [done| |done..]. intros. by eapply lane_items_ok; [auto with queue|..].
  - by eapply (retain_docs _ (ws_core s) s).
  - apply (docs_intro s); [done| |done..]. intros. by eapply lane_items_ok; [auto with queue|..].
  - by eapply (retain_docs _ (ws_core s) s).
  - unfold admit_bash_completion_notice. destruct closed; [done|]. apply (docs_intro s); [done| |done..].
    intros. by eapply lane_items_ok; [auto with queue|..].
  - unfold turn_ends. by destruct (ws_runner s).
  - unfold turn_resolves. destruct (ws_runner s); try done. by destruct (settle_outstanding s).
  - unfold checkpoint_reads. destruct (ws_writing s) eqn:Ew; [done|]. destruct (ws_owed s !! n); [|done].
    destruct Hs as (Hq & Hp & _). unfold queue in Hq. rewrite Forall_app in Hq. split; [by apply Forall_app|]. split; [done|].
    cbn. split; apply records_ok; tauto.
  - unfold checkpoint_writes. destruct (ws_writing s) eqn:Ew; [|done]. destruct (record_queue_checkpoint _ _ _ _ _ _ _ _ _).
    by destruct Hs as (Hq & Hp & _).
Qed.
End Printable.
