(* ===== verification/QueueDurable.v ===== *)
(** * The input queue and the recovery journal

    Between checkpoints the worker only ever takes work off its lanes, so that
    the last checkpoint written still covers what is queued. *)
From S2P Require Import Prelude RustStr Lines Json Time World LedgerReplay LedgerFile Effects Protocol Slash Journal JournalProofs JournalTheorems JournalLives Queue QueueWorker QueueProofs QueueRecord.
#[local] Open Scope string_scope.

(** Nothing has still to ask for a checkpoint. *)
Definition wants_checkpoint (p : Pending) : bool := match p with ResumeThenCheckpoint _ => true | _ => false end.
Definition quiet (s : WorkerState) : Prop := ws_owed s = [] /\ existsb wants_checkpoint (ws_pending s) = false.
Definition has_work (c : SessionCore) : bool := co_busy c || queued_work c.
(** The lanes lost items at most, and work did not come from nowhere. *)
Record shrinks (c c' : SessionCore) : Prop := {
  sh_steering : sublist (map item_record (co_steering c')) (map item_record (co_steering c));
  sh_follow_up : sublist (map item_record (co_follow_up c')) (map item_record (co_follow_up c));
  sh_work : has_work c' = true -> has_work c = true
}.
Record undisturbed (s s' : WorkerState) : Prop := {
  un_quiet : quiet s;
  un_shrinks : shrinks (ws_core s) (ws_core s');
  un_writing : ws_writing s' = ws_writing s;
  un_journal : ws_journal s' = ws_journal s
}.

Lemma has_work_eq c c' :
  co_steering c' = co_steering c -> co_follow_up c' = co_follow_up c -> co_busy c' = co_busy c -> has_work c' = has_work c.
Proof. intros H1 H2 H3. unfold has_work, queued_work. by rewrite H1, H2, H3. Qed.
Lemma shrinks_same c c' :
  co_steering c' = co_steering c -> co_follow_up c' = co_follow_up c -> (co_busy c' = true -> co_busy c = true) -> shrinks c c'.
Proof.
  intros H1 H2 H3. split; [by rewrite H1|by rewrite H2|]. unfold has_work, queued_work. rewrite H1, H2, !orb_true_iff. tauto.
Qed.
Lemma same_undisturbed s s' : same_work s s' -> quiet s' -> undisturbed s s'.
Proof.
  intros (H1 & H2 & H3 & _ & _ & H4 & H5 & H6 & _ & _ & _ & _ & ps & Hp & _) [Ho Hw]. split; [|apply shrinks_same; congruence|done..].
  split; [congruence|]. rewrite Hp, existsb_app in Hw. by apply orb_false_iff in Hw as [Hw _].
Qed.
Lemma owes_something (l : list QueueCheckpoint) c : (l ++ [c])%list <> [].
Proof. by destruct l. Qed.
(** After a section that owes a checkpoint nothing is claimed. *)
Ltac owing := let H := fresh in intros [H _]; exfalso; revert H; cbn; apply owes_something.

Lemma sublist_map {A B} (f : A -> B) l k : sublist l k -> sublist (map f l) (map f k).
Proof. induction 1; cbn; by constructor. Qed.
Lemma filter_sublist {A} (f : A -> bool) (l : list A) : sublist (List.filter f l) l.
Proof. induction l as [|x l IH]; [done|]. cbn. destruct (f x); by constructor. Qed.
Lemma shrinks_filter keep c c' :
  co_steering c' = List.filter keep (co_steering c) -> co_follow_up c' = List.filter keep (co_follow_up c) ->
  (co_busy c' = true -> co_busy c = true) -> shrinks c c'.
Proof.
  intros H1 H2 H3. split; [rewrite H1; apply sublist_map, filter_sublist|rewrite H2; apply sublist_map, filter_sublist|].
  unfold has_work, queued_work. rewrite H1, H2, !orb_true_iff. intros [Hb|Hq]; [by left; auto|right].
  by destruct (co_steering c), (co_follow_up c).
Qed.
Lemma arm_records l : map item_record (map arm l) = map item_record l.
Proof. rewrite map_map. by apply map_ext. Qed.
Lemma shrinks_trans a b c : shrinks a b -> shrinks b c -> shrinks a c.
Proof. intros [H1 H2 H3] [K1 K2 K3]. split; [by etrans|by etrans|auto]. Qed.
Lemma shrinks_arm c : shrinks c (arm_forced_all_steering c).
Proof.
  unfold arm_forced_all_steering. destruct (negb _); [by apply shrinks_same|].
  split; cbn; [by rewrite arm_records|done|]. unfold has_work, queued_work. cbn. by destruct (co_steering c).
Qed.
Lemma shrinks_pickup lane c :
  match lane with Steering => co_steering c | FollowUp => co_follow_up c end <> [] ->
  shrinks c (snd (pickup_from lane c)).
Proof.
  intros Hl. unfold pickup_from. destruct lane;
    [pose proof (gather_prefix Steering (co_steering_mode c) (co_forced_all_steering c) (co_steering c)) as Hg
    |pose proof (gather_prefix FollowUp (co_follow_up_mode c) (co_forced_all_steering c) (co_follow_up c)) as Hg];
    destruct (gather_delivery_batch _ _ _ _) as [[batch kept] forced], Hg as [Hg _]; split; cbn; rewrite ?Hg; try done;
    try (apply sublist_map; by apply sublist_inserts_l);
    intros _; unfold has_work, queued_work; rewrite orb_true_iff; right; by destruct (co_steering c), (co_follow_up c).
Qed.
Lemma delete_wants l n p : l !! n = Some p -> wants_checkpoint p = false -> existsb wants_checkpoint (delete n l) = false ->
  existsb wants_checkpoint l = false.
Proof.
  intros Hl Hp. rewrite <- (take_drop_middle l n p Hl) at 2. rewrite delete_take_drop, !existsb_app, !orb_false_iff. cbn. rewrite Hp. done.
Qed.
Definition checkpoint_event (e : QEvent) : bool := match e with CheckpointReads _ | CheckpointWrites => true | _ => false end.
Lemma undisturbed_refl s : quiet s -> undisturbed s s.
Proof. intros Hq. split; [done|by apply shrinks_same|done..]. Qed.
Lemma guarded_undisturbed cmd k s :
  (quiet (fst (k s)) -> undisturbed s (fst (k s))) -> quiet (fst (when_created cmd k s)) -> undisturbed s (fst (when_created cmd k s)).
Proof. intros Hk. apply (guarded_either cmd k s (fun s' => quiet s' -> undisturbed s s')); [apply undisturbed_refl|done]. Qed.
Lemma proceed_undisturbed n s : quiet (fst (proceed n s)) -> undisturbed s (fst (proceed n s)).
Proof.
  unfold proceed. destruct (ws_pending s !! n) as [p|] eqn:E; [|apply undisturbed_refl].
  assert (wants_checkpoint p = false -> forall s', ws_owed s' = ws_owed s -> ws_pending s' = delete n (ws_pending s) ->
    shrinks (ws_core s) (ws_core s') -> ws_writing s' = ws_writing s -> ws_journal s' = ws_journal s -> quiet s' -> undisturbed s s') as Hu.
  { intros Hp s' Ho Hpe Hs Hw Hj [Hq1 Hq2]. split; [|done..]. split; [congruence|]. rewrite Hpe in Hq2. by eapply delete_wants. }
  destruct p; cbn [fst].
  - unfold admit_prompt. destruct (match admission_id with Some _ => _ | None => _ end) as [[] adm]; [destruct wait; owing|].
    by apply Hu; [..|apply shrinks_same| |].
  - owing.
  - unfold admit_delivery. destruct (assert_agent_message_queue_capacity _ _); [|owing]. by apply Hu; [..|apply shrinks_same| |].
  - owing.
  - case_match; by apply Hu; [..|apply shrinks_same| |].
  - by apply Hu; [..|apply shrinks_same| |].
Qed.
Lemma abort_undisturbed s s0 :
  shrinks (ws_core s) (ws_core s0) -> ws_owed s0 = ws_owed s -> ws_pending s0 = ws_pending s -> ws_writing s0 = ws_writing s ->
  ws_journal s0 = ws_journal s -> quiet s -> undisturbed s (request_abort s0).
Proof.
  intros Hs Ho Hp Hw Hj Hq. split; [done| |done..]. eapply shrinks_trans; [exact Hs|]. by apply (shrinks_filter qd_queue_visible).
Qed.
Lemma pickup_undisturbed s : quiet (pickup s) -> undisturbed s (pickup s).
Proof.
  apply pickup_cases.
  - intros r _ Hq. destruct (ws_runner s); try (by apply undisturbed_refl). split; [done|by apply shrinks_same|done..].
  - intros _ Hq. split; [done|by apply shrinks_same|done..].
  - intros lane _ Hl. pose proof (shrinks_pickup lane (ws_core s) Hl) as Hs. destruct (pickup_from _ _) as [batch c']. intros Hq. by split.
Qed.
Lemma cancel_undisturbed payload s :
  quiet (fst (handle_cancel_prompt_admission payload s)) -> undisturbed s (fst (handle_cancel_prompt_admission payload s)).
Proof.
  apply guarded_undisturbed. cbn zeta. set (id := default "" (get_str "admissionId" payload)).
  destruct (cancel_admission id (ws_admissions s)) as [status adm]. cbn [fst].
  destruct (_ || _); [destruct (_ && _ && _); owing|]. case_match; intros Hq; (split; [done|by apply shrinks_same|done..]).
Qed.
Lemma mutate_undisturbed payload s : quiet (fst (handle_mutate_queued_message payload s)) -> undisturbed s (fst (handle_mutate_queued_message payload s)).
Proof.
  apply guarded_undisturbed. cbn zeta. pose proof (undisturbed_refl s) as Hr.
  destruct (wire_lane _) as [lane|]; [|done]. destruct (_ ≫= as_u64) as [n|]; [|done]. destruct (get "mutation" payload) as [m|]; [|done].
  destruct (negb _); [done|]. destruct (mutate_lane _ _ _ _ _) as [[items gone]|]; [|done].
  intros [_ Hp]. exfalso. revert Hp. cbn. by rewrite existsb_app, orb_true_r.
Qed.
Lemma restore_undisturbed payload s : quiet (fst (handle_restore_actions payload s)) -> undisturbed s (fst (handle_restore_actions payload s)).
Proof.
  apply guarded_undisturbed. cbn zeta. pose proof (undisturbed_refl s) as Hr.
  destruct (get "snapshot" payload) as [[]|]; try done. destruct (negb _); [done|].
  destruct (_ ≫= as_array) as [actions|]; [|done]. destruct (restore_error [] actions); [done|].
  destruct actions; [by apply same_undisturbed; same_work|owing].
Qed.
(** A section that owes no checkpoint only takes work off the lanes. *)
Lemma step_undisturbed `{Env} sc e s :
  checkpoint_event e = false -> quiet (qstep sc e s) -> undisturbed s (qstep sc e s).
Proof.
  intros He. unfold qstep. destruct (ws_dead s); [apply undisturbed_refl|].
  destruct e; try done; try owing; eauto using same_undisturbed, proceed_undisturbed, pickup_undisturbed, cancel_undisturbed,
    mutate_undisturbed, restore_undisturbed with queue; try (apply same_undisturbed; same_work).
  - apply guarded_undisturbed. owing.
  - apply guarded_undisturbed. owing.
  - apply guarded_undisturbed. owing.
  - unfold handle_abort_and_clear_queue, handle_clear_queue, when_created. destruct (require_created _ _) as [r|] eqn:Er; cbn; [|owing].
    unfold require_created in Er. repeat case_match; simplify_eq; apply undisturbed_refl.
  - intros Hq. by apply (abort_undisturbed s s); [apply shrinks_same|..].
  - unfold abort_and_send_queued. destruct (_ || _); [intros Hq; by apply (abort_undisturbed s s); [apply shrinks_same|..]|].
    intros [Hq1 Hq2]. cbn in Hq2. rewrite existsb_app, orb_false_iff in Hq2.
    assert (undisturbed s (request_abort (set_core arm_forced_all_steering s))) as [Hu1 Hu2 Hu3 Hu4]; [|by split].
    apply abort_undisturbed; [apply shrinks_arm|done..|]. split; [done|tauto].
  - unfold admit_bash_completion_notice. destruct closed; [apply undisturbed_refl|owing].
  - unfold withdraw_bash_completion_notice. destruct (remove_first _ (co_steering _)) as [[]|]; [owing|].
    destruct (remove_first _ (co_follow_up _)) as [[]|]; [owing|apply undisturbed_refl].
  - unfold run_job_queues. destruct (_ || _ || _); [apply undisturbed_refl|]. cbn. destruct (fi_heartbeat f); owing.
  - unfold turn_ends. destruct (ws_runner s); try apply undisturbed_refl. owing.
  - unfold turn_resolves. destruct (ws_runner s); try apply undisturbed_refl. destruct (settle_outstanding s); [apply undisturbed_refl|].
    intros Hq. split; [done|by apply shrinks_same|done..].
Qed.
(** ... and never touches the journal. *)
Definition journal_view (s : WorkerState) : JHost * option CheckpointRead * bool := (ws_journal s, ws_writing s, ws_dead s).
Lemma same_journal s s' : same_work s s' -> journal_view s' = journal_view s.
Proof. intros (_ & _ & _ & _ & _ & _ & H1 & H2 & _ & _ & H3 & _). unfold journal_view. by rewrite H1, H2, H3. Qed.
Lemma guarded_journal cmd k s : journal_view (fst (k s)) = journal_view s -> journal_view (fst (when_created cmd k s)) = journal_view s.
Proof. intros Hk. by apply (guarded_either cmd k s (fun s' => journal_view s' = journal_view s)). Qed.
Lemma proceed_journal n s : journal_view (fst (proceed n s)) = journal_view s.
Proof.
  unfold proceed. destruct (ws_pending s !! n) as [p|]; [|done]. destruct p; cbn [fst]; try done; [..|by case_match].
  - unfold admit_prompt. destruct (match admission_id with Some _ => _ | None => _ end) as [[] adm]; [|done]. by destruct wait.
  - unfold admit_delivery. by destruct (assert_agent_message_queue_capacity _ _).
Qed.
Lemma mutate_journal payload s : journal_view (fst (handle_mutate_queued_message payload s)) = journal_view s.
Proof.
  apply guarded_journal. cbn zeta. destruct (wire_lane _) as [lane|]; [|done]. destruct (_ ≫= as_u64) as [n|]; [|done].
  destruct (get "mutation" payload) as [m|]; [|done]. destruct (negb _); [done|]. by destruct (mutate_lane _ _ _ _ _) as [[items gone]|].
Qed.
Lemma restore_journal payload s : journal_view (fst (handle_restore_actions payload s)) = journal_view s.
Proof.
  apply guarded_journal. cbn zeta. destruct (get "snapshot" payload) as [[]|]; try done. destruct (negb _); [done|].
  destruct (_ ≫= as_array) as [actions|]; [|done]. destruct (restore_error [] actions); [done|]. by destruct actions.
Qed.
Lemma cancel_journal payload s : journal_view (fst (handle_cancel_prompt_admission payload s)) = journal_view s.
Proof.
  apply guarded_journal. cbn zeta. destruct (cancel_admission (default "" (get_str "admissionId" payload)) (ws_admissions s)) as [status adm].
  cbn [fst]. destruct (_ || _), (_ && _ && _); done.
Qed.
Lemma step_journal `{Env} sc e s : checkpoint_event e = false -> journal_view (qstep sc e s) = journal_view s.
Proof.
  intros He. unfold qstep. destruct (ws_dead s); [done|].
  destruct e; try done; eauto using same_journal, proceed_journal, mutate_journal, restore_journal, cancel_journal with queue.
  - by apply guarded_journal.
  - by apply guarded_journal.
  - by apply guarded_journal.
  - unfold handle_abort_and_clear_queue. assert (Hc : journal_view (fst (handle_clear_queue s)) = journal_view s) by by apply guarded_journal.
    destruct (handle_clear_queue s); cbn in Hc |- *. by destruct (negb _).
  - unfold abort_and_send_queued. by destruct (_ || _).
  - unfold admit_bash_completion_notice. by destruct closed.
  - unfold withdraw_bash_completion_notice. by repeat case_match.
  - unfold run_job_queues. destruct (_ || _ || _); [done|]. by destruct (fi_heartbeat f).
  - by apply pickup_cases; [intros r _; destruct (ws_runner s)|..|intros lane _ _; destruct (pickup_from _ _)].
  - unfold turn_ends. by destruct (ws_runner s).
  - unfold turn_resolves. destruct (ws_runner s); try done. by destruct (settle_outstanding s).
Qed.
Lemma step_active `{Env} sc e s : co_active_session_id (ws_core (qstep sc e s)) = co_active_session_id (ws_core s).
Proof.
  destruct (runner_event e) eqn:He; [|pose proof (step_view sc e s He) as Hv; by injection Hv].
  unfold qstep. destruct (ws_dead s); [done|]. destruct e; try done.
  - apply pickup_cases; [intros r _; by destruct (ws_runner s)|done|]. intros lane _ _.
    pose proof (pickup_run lane (ws_core s)) as Hp. destruct (pickup_from _ _) as [batch c']. apply Hp.
  - unfold turn_ends. by destruct (ws_runner s).
  - unfold turn_resolves. destruct (ws_runner s); try done. by destruct (settle_outstanding s).
Qed.

(** ** The journal *)
Definition covers (b : bool) (st fu : list WorkerQueueItemRecord) (c : SessionCore) : Prop :=
  sublist (map item_record (co_steering c)) st /\ sublist (map item_record (co_follow_up c)) fu /\ (has_work c = true -> b = true).
Lemma covers_shrinks b st fu c c' : shrinks c c' -> covers b st fu c -> covers b st fu c'.
Proof. intros [H1 H2 H3] (K1 & K2 & K3). split; [by etrans|]. split; [by etrans|auto]. Qed.
(** What the journal says of a session. *)
Definition verdict (j : WorkerRecoveryJournal) (a : string) : bool := match j_latest j !! a with Some r => wr_busy r | None => false end.
Definition snapshot_of (j : WorkerRecoveryJournal) (a : string) : list WorkerQueueItemRecord * list WorkerQueueItemRecord :=
  default ([], []) (latest_queue_snapshot j a).
Definition on_record (j : WorkerRecoveryJournal) (c : SessionCore) : Prop :=
  let a := co_active_session_id c in covers (verdict j a) (fst (snapshot_of j a)) (snd (snapshot_of j a)) c.

Section Durable.
Context `{Env} `{LedgerEnv} `{!JsonLines} `{JournalText} `{!JournalTextOk} (sc : JScene).
Context (Horder : forall A (l : list A), jc_order sc A l ≡ₚ l) (Hrun : forall n, jc_fault sc n = JRun).

(** The state of a worker whose journal is in order. *)
Record queue_durable (s : WorkerState) : Prop := {
  qd_agrees : runner_agrees s;
  qd_docs : documents_ok s;
  qd_alive : ws_dead s = false;
  qd_rest : exists j, holds j j (ws_journal s)
    /\ match ws_writing s with
       | Some r => cr_active_session_id r = co_active_session_id (ws_core s)
                   /\ (quiet s -> covers (cr_busy r) (cr_steering r) (cr_follow_up r) (ws_core s))
       | None => quiet s -> on_record j (ws_core s)
       end
}.

(** After a checkpoint the journal says what the checkpoint read. *)
Lemma checkpoint_says j a s f b o st fu t t' :
  let j' := foldl put j (job_entries j (Checkpoint a s f b o st fu) t t') in
  verdict j' a = b /\ snapshot_of j' a = (st, fu).
Proof.
  cbn. destruct (says j a f b o) eqn:E; cbn; split; unfold verdict, snapshot_of, latest_queue_snapshot; cbn; rewrite ?lookup_insert_eq; try done.
  unfold says in E. destruct (j_latest j !! a) as [r|]; [|done]. unfold unchanged in E.
  rewrite !andb_true_iff in E. by apply eqb_prop, E.
Qed.
Lemma step_durable e s : event_ok e -> queue_durable s -> queue_durable (qstep sc e s).
Proof.
  intros He [Ha Hd Hl (j & Hj & Hw)]. pose proof (step_agrees sc e s Ha) as Ha'. pose proof (step_documents sc e s He Hd) as Hd'.
  destruct (checkpoint_event e) eqn:Ec.
  - destruct e; try done; unfold qstep in *; rewrite Hl in *.
    + unfold checkpoint_reads in *. destruct (ws_writing s) as [r|] eqn:Ew; [split; try done; exists j; by rewrite Ew|].
      destruct (ws_owed s !! n) as [k|]; [|split; try done; exists j; by rewrite Ew]. split; try done. exists j. split; [done|].
      cbn. split; [done|]. intros _. split; [done|]. split; [done|]. by destruct k.
    + unfold checkpoint_writes in *. destruct (ws_writing s) as [r|] eqn:Ew; [|split; try done; exists j; by rewrite Ew].
      destruct Hw as [Hid Hcov]. destruct Hd as (_ & _ & Hr). rewrite Ew in Hr. set (w := Checkpoint (cr_active_session_id r) (cr_session_id r)
        (cr_session_file r) (cr_busy r) (cr_operation r) (cr_steering r) (cr_follow_up r)).
      destruct (job_answers sc Hrun w (ws_journal s)) as [h' Eh].
      pose proof (job_spec sc Horder j w (journal_of_ok _ _ (ho_reads _ _ _ Hj)) Hr (ws_journal s) Hj) as (t & t' & Hp).
      cbn [run_job w] in Eh, Hp. rewrite Eh in *. cbn [fst snd] in Hp. split; try done.
      destruct (checkpoint_says j (cr_active_session_id r) (cr_session_id r) (cr_session_file r) (cr_busy r)
        (cr_operation r) (cr_steering r) (cr_follow_up r) t t') as [Hv Hsn]. fold w in Hv, Hsn.
      exists (foldl put j (job_entries j w t t')). split; [done|]. cbn [ws_writing set_writing]. intros Hq. unfold on_record.
      cbn [ws_core set_writing set_host]. rewrite <- Hid, Hv, Hsn. by apply Hcov.
  - pose proof (step_undisturbed sc e s Ec) as Hu. split; try done.
    { pose proof (step_journal sc e s Ec) as E. injection E as _ _ ->. done. }
    exists j. pose proof (step_journal sc e s Ec) as E. injection E as -> Ew _. split; [done|].
    pose proof (step_active sc e s) as Eid. rewrite Ew. destruct (ws_writing s) as [r|].
    + destruct Hw as [Hid Hcov]. split; [congruence|]. intros Hq. destruct (Hu Hq) as [Hq0 Hs _ _].
      eapply covers_shrinks; [exact Hs|]. by apply Hcov.
    + intros Hq. destruct (Hu Hq) as [Hq0 Hs _ _]. unfold on_record. rewrite Eid.
      eapply covers_shrinks; [exact Hs|]. by apply Hw.
Qed.
Lemma run_durable es s : Forall event_ok es -> queue_durable s -> queue_durable (run_events sc es s).
Proof. intros Hes. revert s. induction Hes; intros s Hs; [done|]. cbn. by apply IHHes, step_durable. Qed.
(** A worker just created, whose lanes are covered by its journal. *)
Lemma created_durable c h j :
  holds j j h -> on_record j c -> co_busy c = false -> co_running_admission_ids c = [] ->
  Forall (fun i => custom_ok (qd_custom_message i)) (queue c) -> queue_durable (created_worker c h).
Proof.
  intros Hj Hon Hb Hr Hq. split; [by split; cbn; [rewrite Hb|rewrite Hr|]|split; [done|split; [apply Forall_nil_2|done]]|done|]. exists j. split; [done|]. intros _. exact Hon.
Qed.
End Durable.
