(* ===== verification/QueueAdmission.v ===== *)
(** * Prompt admissions

    An admission id is carried by one prompt: while it waits between its two
    critical sections, in a lane, or in a turn.  An item with an id is in a
    lane or in a turn only while the registry says that it is owned. *)
From S2P Require Import Prelude RustStr Json Time World LedgerReplay Effects Protocol Slash Journal Queue QueueWorker QueueProofs QueueRecord.
#[local] Open Scope string_scope.

Definition ids_of (items : list QueuedItem) : list string := omap qd_admission_id items.
Definition item_ids (s : WorkerState) : list string := (ids_of (queue (ws_core s)) ++ ids_of (runner_items (ws_runner s)))%list.
Definition pending_id (p : Pending) : option string := match p with PromptReady _ _ _ _ id _ => id | _ => None end.
Definition pending_ids (s : WorkerState) : list string := omap pending_id (ws_pending s).
Definition ids (s : WorkerState) : list string := (item_ids s ++ pending_ids s)%list.
(** The id a [prompt] command registers. *)
Definition prompt_id (e : QEvent) : option string :=
  match e with
  | Prompt payload _ => match get_str "admissionId" payload with Some id => if is_empty id then None else Some id | None => None end
  | _ => None
  end.
Definition proceeds (e : QEvent) : bool := match e with Proceed _ => true | _ => false end.

Lemma ids_app a b : ids_of (a ++ b) = (ids_of a ++ ids_of b)%list.
Proof. apply omap_app. Qed.
#[export] Instance ids_perm : Proper ((≡ₚ) ==> (≡ₚ)) ids_of.
Proof. intros a b Hp. unfold ids_of. by apply omap_Permutation. Qed.
Lemma omap_sub {A B} (f : A -> option B) l k : sublist l k -> sublist (omap f l) (omap f k).
Proof. induction 1; cbn; [done|..]; destruct (f x); try done; by constructor. Qed.
Lemma filter_ids f l : ids_of (List.filter f l) ⊆+ ids_of l.
Proof. apply sublist_submseteq, omap_sub. induction l as [|x l IH]; [done|]. cbn. destruct (f x); by constructor. Qed.
Lemma ids_cons i l : ids_of (i :: l) = (option_list (qd_admission_id i) ++ ids_of l)%list.
Proof. unfold ids_of. cbn. by destruct (qd_admission_id i). Qed.

(** Sections that leave the lanes and the runner alone. *)
Lemma same_items s s' : same_work s s' -> item_ids s' ⊆+ item_ids s.
Proof. intros (H1 & H2 & _ & _ & H3 & _). unfold item_ids, queue. by rewrite H1, H2, H3. Qed.
Lemma retain_items keep c s s' :
  queue c = queue (ws_core s) -> queue (ws_core s') = queue (with_lanes (List.filter keep (co_steering c)) (List.filter keep (co_follow_up c)) c) ->
  ws_runner s' = ws_runner s -> item_ids s' ⊆+ item_ids s.
Proof.
  intros Hc Hq Hr. unfold item_ids. rewrite Hq, Hr. apply submseteq_app; [|done].
  unfold queue at 1. cbn. rewrite <- List.filter_app. fold (queue c). rewrite Hc. apply filter_ids.
Qed.
Lemma added_items l f item c s s' :
  (forall q, f q ≡ₚ item :: q) -> qd_admission_id item = None -> ws_core s' = on_lane l f c ->
  ids_of (queue c) ⊆+ ids_of (queue (ws_core s)) -> ws_runner s' = ws_runner s -> item_ids s' ⊆+ item_ids s.
Proof.
  intros Hf Hi Hq Hc Hr. unfold item_ids. rewrite Hq, Hr, queue_on_lane, Hf. cbn [app]. rewrite ids_cons, Hi. cbn.
  apply submseteq_app; [|done]. etrans; [|exact Hc]. unfold queue. destruct l; [done|]. by rewrite Permutation_app_comm.
Qed.
Lemma mutate_ids lane i expected m mt lane' gone :
  mutate_lane lane i expected m mt = Some (lane', gone) -> ids_of lane' ⊆+ ids_of lane.
Proof.
  unfold mutate_lane. destruct (lane !! i) as [x|] eqn:Ei; [|done]. repeat case_match; intros; simplify_eq;
    [|by rewrite swap_perm|..]; transitivity (ids_of (x :: delete i lane)); try (by rewrite delete_perm).
  - rewrite ids_cons. by apply submseteq_inserts_l.
  - rewrite (insert_perm lane i x) by done. by rewrite !ids_cons.
  - rewrite (insert_perm lane i x) by done. by rewrite !ids_cons.
Qed.
Lemma mutate_items payload s : item_ids (fst (handle_mutate_queued_message payload s)) ⊆+ item_ids s.
Proof.
  apply (guarded_either _ _ s (fun s' => item_ids s' ⊆+ item_ids s)); [done|]. cbn zeta.
  destruct (wire_lane _) as [lane|]; [|done]. destruct (_ ≫= as_u64) as [n|]; [|done]. destruct (get "mutation" payload) as [m|]; [|done].
  destruct (negb _); [done|]. destruct (mutate_lane _ _ _ _ _) as [[items gone]|] eqn:E; [|done]. apply mutate_ids in E.
  unfold item_ids. cbn. apply submseteq_app; [|done].
  assert (forall c, queue c ≡ₚ queue (on_lane lane (fun _ => items) (ws_core s)) -> ids_of (queue c) ⊆+ ids_of (queue (ws_core s))) as Hq.
  { intros c ->. rewrite queue_on_lane, ids_app. unfold queue. rewrite ids_app. destruct lane; [by apply submseteq_app|].
    rewrite Permutation_app_comm. by apply submseteq_app. }
  apply Hq. destruct (String.eqb _ _); [|done]. destruct (wire_lane (get "lane" m)); [apply change_lane_perm|done].
Qed.
Lemma restored_no_ids actions : ids_of (map restored_action actions) = [].
Proof. by induction actions. Qed.
Lemma restore_items payload s : item_ids (fst (handle_restore_actions payload s)) ⊆+ item_ids s.
Proof.
  apply (guarded_either _ _ s (fun s' => item_ids s' ⊆+ item_ids s)); [done|]. cbn zeta.
  destruct (get "snapshot" payload) as [[]|]; try done. destruct (negb _); [done|].
  destruct (_ ≫= as_array) as [actions|]; [|done]. destruct (restore_error [] actions); [done|].
  assert (item_ids (set_core (fun c => foldl restore_action c actions) s) ⊆+ item_ids s) as Hi.
  { unfold item_ids. cbn. by rewrite restore_perm, ids_app, restored_no_ids. }
  destruct actions; [done|]. exact Hi.
Qed.
Lemma pickup_items s : item_ids (pickup s) ⊆+ item_ids s.
Proof.
  apply pickup_cases; [intros r Hr|done|].
  - destruct (ws_runner s) eqn:Er; try done. destruct Hr as [Hr|Hr]; [done|]. subst r. unfold item_ids. cbn. by rewrite Er.
  - intros lane Er _. pose proof (pickup_perm lane (ws_core s)) as Hp. destruct (pickup_from _ _) as [batch c'].
    unfold item_ids. cbn. by rewrite Er, <- Hp, ids_app, app_nil_r, Permutation_app_comm.
Qed.
Lemma guarded_items cmd k s : item_ids (fst (k s)) ⊆+ item_ids s -> item_ids (fst (when_created cmd k s)) ⊆+ item_ids s.
Proof. intros Hk. by apply (guarded_either cmd k s (fun s' => item_ids s' ⊆+ item_ids s)). Qed.
Lemma clear_items s : item_ids (fst (handle_clear_queue s)) ⊆+ item_ids s.
Proof. apply guarded_items. by apply (retain_items (fun _ => false) (ws_core s)). Qed.
Lemma cancel_items payload s : item_ids (fst (handle_cancel_prompt_admission payload s)) ⊆+ item_ids s.
Proof.
  apply guarded_items. cbn zeta. set (id := default "" (get_str "admissionId" payload)).
  destruct (cancel_admission id (ws_admissions s)) as [status adm]. cbn [fst].
  destruct (_ || _), (_ && _ && _); try done; by apply (retain_items (fun i => negb (carries id i)) (ws_core s)).
Qed.
Lemma bash_consumed_items n s : item_ids (withdraw_bash_completion_notice n s) ⊆+ item_ids s.
Proof.
  unfold withdraw_bash_completion_notice.
  destruct (remove_first _ (co_steering _)) as [[i st]|] eqn:E; [|destruct (remove_first _ (co_follow_up _)) as [[i fu]|] eqn:E2];
    [..|done]; unfold item_ids, queue; cbn; (apply submseteq_app; [|done]); rewrite !ids_app.
  - rewrite <- (remove_first_perm _ _ _ _ E), ids_cons. apply submseteq_app; [by apply submseteq_inserts_l|done].
  - rewrite <- (remove_first_perm _ _ _ _ E2), ids_cons. apply submseteq_app; [done|by apply submseteq_inserts_l].
Qed.
Lemma abort_items s s0 : item_ids s0 ⊆+ item_ids s -> item_ids (request_abort s0) ⊆+ item_ids s.
Proof. intros <-. by apply (retain_items qd_queue_visible (suspend true (abort_flag true (ws_core s0)))). Qed.
Lemma arm_ids l : ids_of (map arm l) = ids_of l.
Proof. induction l as [|x l IH]; [done|]. cbn [map]. by rewrite !ids_cons, IH. Qed.
Lemma armed_items s : item_ids (set_core arm_forced_all_steering s) ⊆+ item_ids s.
Proof.
  unfold item_ids, arm_forced_all_steering. cbn. destruct (negb _); [done|]. unfold queue. cbn. by rewrite !ids_app, arm_ids.
Qed.
Ltac adds := eapply added_items; [| |reflexivity|done|done]; [intros; first [apply enqueue_perm|apply snoc_perm]|done].
(** No section but the second of a prompt brings an id to the lanes. *)
Lemma step_items `{Env} sc e s : proceeds e = false -> item_ids (qstep sc e s) ⊆+ item_ids s.
Proof.
  intros He. unfold qstep. destruct (ws_dead s); [done|].
  destruct e; try done; eauto using same_items, mutate_items, restore_items, pickup_items, clear_items, cancel_items, bash_consumed_items with queue.
  - apply guarded_items. by eapply (retain_items _ (ws_core s)).
  - apply guarded_items. by eapply (retain_items _ (ws_core s)).
  - unfold handle_abort_and_clear_queue. pose proof (clear_items s) as Hc. destruct (handle_clear_queue s) as [s1 r]. by destruct (negb _).
  - by apply abort_items.
  - unfold abort_and_send_queued. destruct (_ || _); [by apply abort_items|]. apply (abort_items s (set_core arm_forced_all_steering s)), armed_items.
  - adds.
  - by eapply (retain_items _ (ws_core s)).
  - adds.
  - by eapply (retain_items _ (ws_core s)).
  - unfold admit_bash_completion_notice. destruct closed; [done|]. adds.
  - unfold run_job_queues. destruct (_ || _ || _); [done|]. cbn [fst].
    set (lane := if fi_heartbeat f && fi_steering f then Steering else FollowUp). clearbody lane.
    destruct (fi_heartbeat f); (eapply added_items; [| |reflexivity| |done]; [intros; apply enqueue_perm|done|]); [|done].
    cbn. unfold queue at 1. cbn. rewrite <- List.filter_app. apply filter_ids.
  - unfold turn_ends. destruct (ws_runner s) eqn:Er; try done. unfold item_ids. cbn. by rewrite Er.
  - unfold turn_resolves. destruct (ws_runner s) eqn:Er; try done. destruct (settle_outstanding s); [done|]. unfold item_ids. cbn. rewrite Er. cbn.
    rewrite app_nil_r. by apply submseteq_inserts_r.
  - unfold checkpoint_reads. by repeat case_match.
  - unfold checkpoint_writes. destruct (ws_writing s); [|done]. by destruct (record_queue_checkpoint _ _ _ _ _ _ _ _ _).
Qed.

(** ** Prompts between their sections *)
Definition brings (o : option string) (s s' : WorkerState) : Prop := pending_ids s' ⊆+ (option_list o ++ pending_ids s)%list.
Lemma brings_same o s s' : ws_pending s' = ws_pending s -> brings o s s'.
Proof. intros Hp. unfold brings, pending_ids. rewrite Hp. by apply submseteq_inserts_l. Qed.
Lemma brings_one p s s' : ws_pending s' = (ws_pending s ++ [p])%list -> brings (pending_id p) s s'.
Proof.
  intros Hp. unfold brings, pending_ids. rewrite Hp, omap_app, Permutation_app_comm. cbn. by destruct (pending_id p).
Qed.
Lemma guarded_brings o cmd k s : brings o s (fst (k s)) -> brings o s (fst (when_created cmd k s)).
Proof. intros Hk. apply (guarded_either cmd k s (brings o s)); [by apply brings_same|done]. Qed.
Lemma prompt_brings payload w s : brings (prompt_id (Prompt payload w)) s (fst (handle_prompt payload w s)).
Proof.
  unfold handle_prompt. destruct (require_created _ _); [by apply brings_same|]. cbn zeta. destruct (_ && _); [by apply brings_same|].
  destruct (parse_custom_message _) as [|custom]; [by apply brings_same|]. destruct (match custom with Some _ => _ | None => _ end); [by apply brings_same|].
  destruct (_ && _ && _); [by apply brings_same|]. cbn [fst prompt_id].
  set (id := match get_str "admissionId" payload with Some _ => _ | None => _ end).
  change id with (pending_id (PromptReady (default "" (get_str "message" payload)) (parse_prompt_images payload) custom
    (get_str "streamingBehavior" payload) id w)) at 1. apply brings_one. by destruct (_ && _), id.
Qed.
Lemma input_brings payload l s : brings None s (fst (handle_queue payload l s)).
Proof.
  unfold handle_queue. cbn zeta. repeat case_match; cbn [fst]; try (by apply brings_same);
    by eapply (brings_one (InputReady _ _ _ _)).
Qed.
Lemma delivery_brings payload pr s : brings None s (fst (handle_worker_deliver_message payload pr s)).
Proof.
  unfold handle_worker_deliver_message. cbn zeta. repeat case_match; cbn [fst]; try (by apply brings_same); by apply (brings_one (DeliveryReady payload pr)).
Qed.
(** The pending sections a step leaves besides those there were. *)
Lemma step_pending `{Env} sc e s : proceeds e = false -> brings (prompt_id e) s (qstep sc e s).
Proof.
  intros He. unfold qstep. destruct (ws_dead s); [by apply brings_same|].
  destruct e; try done; try (by apply prompt_brings); cbn [prompt_id]; auto using input_brings, delivery_brings; try (by apply brings_same);
    try (by apply guarded_brings, brings_same).
  - apply guarded_brings. cbn zeta. destruct (wire_lane _) as [lane|]; [|by apply brings_same]. destruct (_ ≫= as_u64) as [n|]; [|by apply brings_same].
    destruct (get "mutation" payload) as [m|]; [|by apply brings_same]. destruct (negb _); [by apply brings_same|].
    destruct (mutate_lane _ _ _ _ _) as [[items gone]|]; [|by apply brings_same]. by eapply (brings_one (ResumeThenCheckpoint _)).
  - apply guarded_brings. cbn zeta. destruct (get "snapshot" payload) as [[]|]; try (by apply brings_same). destruct (negb _); [by apply brings_same|].
    destruct (_ ≫= as_array) as [actions|]; [|by apply brings_same]. destruct (restore_error [] actions); [by apply brings_same|].
    by destruct actions; apply brings_same.
  - unfold handle_abort_and_clear_queue, handle_clear_queue, when_created. destruct (require_created _ _) as [r|]; cbn; [destruct (negb _)|];
      [by apply brings_same|by apply (brings_one AbortReady)..].
  - unfold abort_and_send_queued. destruct (_ || _); [by apply brings_same|]. by apply (brings_one ResumeIfQueued).
  - apply guarded_brings. cbn zeta. destruct (cancel_admission (default "" (get_str "admissionId" payload)) (ws_admissions s)) as [status adm].
    cbn [fst]. destruct (_ || _), (_ && _ && _); by apply brings_same.
  - apply guarded_brings. cbn zeta. destruct (get_str "leaseKey" payload); [|by apply brings_same]. destruct (acquire_pause _ _ _). by apply brings_same.
  - apply guarded_brings. cbn zeta. match goal with |- context [release_pause ?a ?b ?c ?d] => destruct (release_pause a b c d) end. by apply brings_same.
  - unfold admit_bash_completion_notice. destruct closed; by apply brings_same.
  - unfold withdraw_bash_completion_notice. repeat case_match; by apply brings_same.
  - unfold run_job_queues. destruct (_ || _ || _); [by apply brings_same|]. destruct (fi_heartbeat f); by apply brings_same.
  - apply pickup_cases; [intros r _; destruct (ws_runner s); by apply brings_same|by intros; apply brings_same|].
    intros lane _ _. destruct (pickup_from _ _). by apply brings_same.
  - unfold turn_ends. destruct (ws_runner s); by apply brings_same.
  - unfold turn_resolves. destruct (ws_runner s); try (by apply brings_same). destruct (settle_outstanding s); by apply brings_same.
  - unfold checkpoint_reads. repeat case_match; by apply brings_same.
  - unfold checkpoint_writes. destruct (ws_writing s); [|by apply brings_same]. destruct (record_queue_checkpoint _ _ _ _ _ _ _ _ _). by apply brings_same.
Qed.

(** ** The second section of a prompt *)
Lemma delete_pending n s p :
  ws_pending s !! n = Some p -> pending_ids s ≡ₚ (option_list (pending_id p) ++ pending_ids (set_pending (delete n) s))%list.
Proof.
  intros Hp. unfold pending_ids. cbn. rewrite <- (delete_perm (ws_pending s) n p Hp) at 1. cbn. by destruct (pending_id p).
Qed.
(** It moves the id to a lane, or drops it. *)
Lemma proceed_ids n s : ids (fst (proceed n s)) ⊆+ ids s.
Proof.
  unfold proceed. destruct (ws_pending s !! n) as [p|] eqn:E; [|done]. unfold ids. rewrite (delete_pending n s p E).
  assert (forall s', ws_pending s' = delete n (ws_pending s) -> item_ids s' ⊆+ (option_list (pending_id p) ++ item_ids s)%list ->
    (item_ids s' ++ pending_ids s')%list ⊆+ (item_ids s ++ option_list (pending_id p) ++ pending_ids (set_pending (delete n) s))%list) as Hg.
  { intros s' Hp Hi. unfold pending_ids at 1. rewrite Hp, app_assoc. apply submseteq_app; [|done]. by rewrite Hi, Permutation_app_comm. }
  assert (forall s', ws_pending s' = delete n (ws_pending s) -> item_ids s' ⊆+ item_ids s ->
    (item_ids s' ++ pending_ids s')%list ⊆+ (item_ids s ++ option_list (pending_id p) ++ pending_ids (set_pending (delete n) s))%list) as Hn.
  { intros s' Hp Hi. apply Hg; [done|]. rewrite Hi. by apply submseteq_inserts_l. }
  destruct p; cbn [fst].
  - unfold admit_prompt. destruct (match admission_id with Some _ => _ | None => _ end) as [[] adm]; [|by apply Hn].
    destruct wait; (apply Hg; [done|]); unfold item_ids; cbn -[queue on_lane]; rewrite queue_on_lane, enqueue_perm; cbn [app];
      rewrite ids_cons, <- app_assoc; (apply submseteq_app; [done|]); (apply submseteq_app; [|done]); unfold queue;
      destruct (prompt_lane _ _); try done; by rewrite Permutation_app_comm.
  - apply Hn; [done|]. adds.
  - unfold admit_delivery. destruct (assert_agent_message_queue_capacity _ _); apply Hn; try done. adds.
  - by apply Hn.
  - case_match; by apply Hn.
  - by apply Hn.
Qed.
(** Every step: no id comes from nowhere. *)
Lemma step_ids `{Env} sc e s : ids (qstep sc e s) ⊆+ (option_list (prompt_id e) ++ ids s)%list.
Proof.
  destruct (proceeds e) eqn:Ep.
  - destruct e; try done. unfold qstep. destruct (ws_dead s); [done|]. apply proceed_ids.
  - unfold ids. rewrite Permutation_app_comm. etrans; [apply submseteq_app; [apply (step_pending sc e s Ep)|apply (step_items sc e s Ep)]|].
    by rewrite <- app_assoc, (Permutation_app_comm (pending_ids s)).
Qed.

(** ** Ownership *)
Definition owned_items (s : WorkerState) : Prop := forall id, id ∈ item_ids s -> ws_admissions s !! id = Some Owned.
(** Neither registered nor carried. *)
Definition absent (id : string) (s : WorkerState) : Prop := ws_admissions s !! id = None /\ id ∉ item_ids s.
Definition touches_admissions (e : QEvent) : bool :=
  match e with
  | Prompt _ _ | Proceed _ | ClearQueue | AbortAndClear | AbortTurn | AbortAndSend | CancelAdmission _ | TurnResolves => true
  | _ => false
  end.
Lemma guarded_admissions cmd k s :
  ws_admissions (fst (k s)) = ws_admissions s -> ws_admissions (fst (when_created cmd k s)) = ws_admissions s.
Proof. intros Hk. by apply (guarded_either cmd k s (fun s' => ws_admissions s' = ws_admissions s)). Qed.
Lemma step_registry `{Env} sc e s : touches_admissions e = false -> ws_admissions (qstep sc e s) = ws_admissions s.
Proof.
  intros He. unfold qstep. destruct (ws_dead s); [done|]. destruct e; try done; try (by apply guarded_admissions).
  - unfold handle_queue. cbn zeta. by repeat case_match.
  - unfold handle_worker_deliver_message. cbn zeta. by repeat case_match.
  - apply guarded_admissions. cbn zeta. destruct (wire_lane _) as [lane|]; [|done]. destruct (_ ≫= as_u64) as [n|]; [|done].
    destruct (get "mutation" payload) as [m|]; [|done]. destruct (negb _); [done|]. by destruct (mutate_lane _ _ _ _ _) as [[items gone]|].
  - apply guarded_admissions. cbn zeta. destruct (get "snapshot" payload) as [[]|]; try done. destruct (negb _); [done|].
    destruct (_ ≫= as_array) as [actions|]; [|done]. destruct (restore_error [] actions); [done|]. by destruct actions.
  - apply guarded_admissions. cbn zeta. destruct (get_str "leaseKey" payload); [|done]. by destruct (acquire_pause _ _ _).
  - apply guarded_admissions. cbn zeta. match goal with |- context [release_pause ?a ?b ?c ?d] => by destruct (release_pause a b c d) end.
  - unfold admit_bash_completion_notice. by destruct closed.
  - unfold withdraw_bash_completion_notice. by repeat case_match.
  - unfold run_job_queues. destruct (_ || _ || _); [done|]. by destruct (fi_heartbeat f).
  - apply pickup_cases; [intros r _; by destruct (ws_runner s)|done|]. intros lane _ _. by destruct (pickup_from _ _).
  - unfold turn_ends. by destruct (ws_runner s).
  - unfold checkpoint_reads. by repeat case_match.
  - unfold checkpoint_writes. destruct (ws_writing s); [|done]. by destruct (record_queue_checkpoint _ _ _ _ _ _ _ _ _).
Qed.
Lemma clear_lookup items m id : id ∉ ids_of items -> clear_admissions items m !! id = m !! id.
Proof.
  unfold clear_admissions. fold (ids_of items). revert m. induction (ids_of items) as [|x l IH]; intros m Hid; [done|]. cbn.
  rewrite not_elem_of_cons in Hid. destruct Hid as [Hx Hl]. rewrite IH by done. by rewrite lookup_delete_ne.
Qed.
Lemma clear_shrinks items m id : m !! id = None -> clear_admissions items m !! id = None.
Proof.
  unfold clear_admissions. revert m. induction (omap _ items) as [|x l IH]; intros m Hm; [done|]. cbn. apply IH.
  destruct (decide (x = id)) as [->|Hx]; [by rewrite lookup_delete_eq|by rewrite lookup_delete_ne].
Qed.
(** Items dropped from the lanes are cleared, and only they. *)
Lemma dropped_owned keep s s' :
  owned_items s -> NoDup (item_ids s) ->
  queue (ws_core s') = List.filter keep (queue (ws_core s)) -> ws_runner s' = ws_runner s ->
  (forall id, id ∉ ids_of (List.filter (fun i => negb (keep i)) (queue (ws_core s))) -> ws_admissions s' !! id = ws_admissions s !! id) ->
  owned_items s'.
Proof.
  intros Ho Hn Hq Hr Ha id Hid. unfold item_ids in *. rewrite Hq, Hr in Hid.
  rewrite <- (filter_perm keep (queue (ws_core s))), ids_app, <- app_assoc in Hn.
  assert (id ∉ ids_of (List.filter (fun i => negb (keep i)) (queue (ws_core s)))) as Hg.
  { apply NoDup_app in Hn as (_ & Hd & Hn). apply NoDup_app in Hn as (_ & Hd2 & _).
    apply elem_of_app in Hid as [Hid|Hid]; intros Hin; [by eapply Hd; [exact Hid|]; set_solver|by eapply Hd2]. }
  rewrite Ha by done. apply Ho. unfold item_ids. rewrite elem_of_app in Hid |- *.
  destruct Hid as [Hid|Hid]; [left|by right]. eapply elem_of_submseteq; [exact Hid|apply filter_ids].
Qed.
Lemma filter_queue keep c : queue (with_lanes (List.filter keep (co_steering c)) (List.filter keep (co_follow_up c)) c) = List.filter keep (queue c).
Proof. unfold queue. cbn. by rewrite List.filter_app. Qed.
Lemma filter_true {A} (f : A -> bool) l : (forall x, f x = true) -> List.filter f l = l.
Proof. intros Hf. induction l as [|x l IH]; [done|]. cbn. by rewrite Hf, IH. Qed.
Lemma clear_owned s : owned_items s -> NoDup (item_ids s) -> owned_items (fst (handle_clear_queue s)).
Proof.
  intros Ho Hn. apply (guarded_either _ _ s owned_items); [done|]. cbn [fst].
  apply (dropped_owned (fun _ => false) s); [done|done|apply filter_queue|done|]. intros id Hid. cbn. apply clear_lookup.
  by rewrite filter_true in Hid.
Qed.
Lemma abort_owned s0 :
  owned_items s0 -> NoDup (item_ids s0) -> owned_items (request_abort s0).
Proof.
  intros Ho Hn. apply (dropped_owned qd_queue_visible s0); [done|done|apply (filter_queue _ (suspend true (abort_flag true (ws_core s0))))|done|].
  intros id Hid. cbn. by apply clear_lookup.
Qed.
Lemma armed_ids s : item_ids (set_core arm_forced_all_steering s) = item_ids s.
Proof.
  unfold item_ids, arm_forced_all_steering. cbn. destruct (negb _); [done|]. unfold queue. cbn. by rewrite !ids_app, arm_ids.
Qed.
Lemma carries_ids id l : existsb (carries id) l = true -> id ∈ ids_of l.
Proof.
  intros (i & Hi & Hc)%existsb_exists. unfold carries in Hc. apply bool_decide_eq_true in Hc.
  apply list_elem_of_omap. exists i. split; [by apply list_elem_of_In|done].
Qed.
Lemma not_carried id l : id ∉ ids_of (List.filter (fun i => negb (carries id i)) l).
Proof.
  intros (i & Hi & Hc)%list_elem_of_omap. apply list_elem_of_In, filter_In in Hi as [_ Hi]. unfold carries in Hi.
  rewrite bool_decide_eq_true_2 in Hi by done. done.
Qed.
Lemma cancel_cases id m :
  (m !! id = None /\ cancel_admission id m = (None, m)) \/ (m !! id = Some Owned /\ cancel_admission id m = (Some Owned, m))
  \/ ((m !! id = Some Waiting \/ m !! id = Some CancelledAdmission)
      /\ fst (cancel_admission id m) = Some CancelledAdmission /\ forall id', id' <> id -> snd (cancel_admission id m) !! id' = m !! id').
Proof.
  unfold cancel_admission. destruct (m !! id) as [[]|] eqn:E; [..|by left].
  - right. right. split; [by left|]. split; [done|]. intros id' Hne. cbn. by rewrite lookup_insert_ne.
  - right. by left.
  - right. right. split; [by right|]. done.
Qed.
Lemma cancel_owned_items payload s :
  owned_items s -> NoDup (item_ids s) -> owned_items (fst (handle_cancel_prompt_admission payload s)).
Proof.
  intros Ho Hn. apply (guarded_either _ _ s owned_items); [done|]. cbn zeta. set (id := default "" (get_str "admissionId" payload)).
  set (co := bool_decide (get "cancelOwned" payload ≫= decode_bool = Some true)).
  assert (forall s', queue (ws_core s') = List.filter (fun i => negb (carries id i)) (queue (ws_core s)) -> ws_runner s' = ws_runner s ->
    (forall id', id' <> id -> ws_admissions s' !! id' = ws_admissions s !! id') ->
    id ∉ ids_of (runner_items (ws_runner s)) -> owned_items s') as Hdrop.
  { intros s' Hq Hr Ha Hrun id' Hid. assert (id' <> id) as Hne.
    { intros ->. unfold item_ids in Hid. rewrite Hq, Hr, elem_of_app in Hid. destruct Hid as [Hid|Hid]; [by eapply not_carried|done]. }
    rewrite Ha by done. apply Ho. unfold item_ids in *. rewrite Hq, Hr, elem_of_app in Hid. rewrite elem_of_app.
    destruct Hid as [Hid|Hid]; [left|by right]. eapply elem_of_submseteq; [exact Hid|apply filter_ids]. }
  destruct (cancel_cases id (ws_admissions s)) as [[Em ->]|[[Em ->]|(Em & Est & Eid)]].
  - cbn -[existsb]. rewrite !andb_false_r. rewrite bool_decide_eq_false_2 by done. exact Ho.
  - cbn -[existsb]. rewrite bool_decide_eq_false_2, bool_decide_eq_true_2, andb_true_r by done. cbn [orb].
    destruct (co && existsb (carries id) (queue (ws_core s))) eqn:Eq; [|case_match; exact Ho].
    apply andb_true_iff in Eq as [_ Eq]. apply carries_ids in Eq.
    destruct (co && _); (apply Hdrop; [apply filter_queue|done| |]).
    1,3: intros id' Hne; cbn; by rewrite lookup_delete_ne.
    all: intros Hin; unfold item_ids in Hn; apply NoDup_app in Hn as (_ & Hd & _); by eapply Hd.
  - destruct (cancel_admission id (ws_admissions s)) as [status adm]. cbn in Est, Eid. subst status. cbn -[existsb].
    rewrite bool_decide_eq_true_2 by done. cbn [orb].
    assert (id ∉ ids_of (runner_items (ws_runner s))) as Hrun.
    { intros Hin. assert (ws_admissions s !! id = Some Owned) as E by (apply Ho; unfold item_ids; set_solver). destruct Em; congruence. }
    destruct (_ && _ && _); (apply Hdrop; [apply filter_queue|done| |done]); intros id' Hne; cbn; by rewrite lookup_delete_ne, Eid.
Qed.
Lemma commit_cases id m :
  (fst (commit id m) = false /\ (m !! id = None \/ m !! id = Some CancelledAdmission))
  \/ (fst (commit id m) = true /\ is_Some (m !! id) /\ snd (commit id m) !! id = Some Owned
      /\ forall id', id' <> id -> snd (commit id m) !! id' = m !! id').
Proof.
  unfold commit. destruct (m !! id) as [[]|] eqn:E; cbn.
  - right. split; [done|]. split; [done|]. rewrite lookup_insert_eq. split; [done|]. intros id' Hne. by rewrite lookup_insert_ne.
  - right. by rewrite E.
  - left. split; [done|by right].
  - left. split; [done|by left].
Qed.
(** What the second section of a prompt did to the lanes and the registry. *)
Lemma admit_prompt_effect m i c st id w s :
  let s' := fst (admit_prompt m i c st id w s) in
  (item_ids s' = item_ids s /\ ws_admissions s' = ws_admissions s)
  \/ (item_ids s' ≡ₚ (option_list id ++ item_ids s)%list
      /\ match id with
         | Some id => is_Some (ws_admissions s !! id) /\ ws_admissions s' !! id = Some Owned
                      /\ forall id', id' <> id -> ws_admissions s' !! id' = ws_admissions s !! id'
         | None => ws_admissions s' = ws_admissions s
         end).
Proof.
  cbn zeta. unfold admit_prompt. set (p := match id with Some _ => _ | None => _ end).
  assert (fst p = false \/ fst p = true /\ match id with
         | Some id => is_Some (ws_admissions s !! id) /\ snd p !! id = Some Owned
                      /\ forall id', id' <> id -> snd p !! id' = ws_admissions s !! id'
         | None => snd p = ws_admissions s
         end) as Hp.
  { unfold p. destruct id as [id|]; [|by right]. destruct (commit_cases id (ws_admissions s)) as [[? _]|[? ?]]; [by left|by right]. }
  destruct p as [[] adm]; cbn [fst snd] in Hp; [|by left]. destruct Hp as [Hp|[_ Hp]]; [done|]. right.
  set (item := mkQueued _ _ _ _ _ _ _ _ _ _ _ _). split.
  - assert (ids_of (queue (on_lane (prompt_lane st (co_busy (ws_core s))) (fun l => enqueue_priority l item) (ws_core s)))
      ≡ₚ (option_list id ++ ids_of (queue (ws_core s)))%list) as Hq.
    { rewrite queue_on_lane, enqueue_perm. cbn [app]. rewrite ids_cons. cbn [qd_admission_id item]. apply Permutation_app_head.
      unfold queue. destruct (prompt_lane _ _); [done|]. by rewrite Permutation_app_comm. }
    destruct w; unfold item_ids; cbn -[queue on_lane]; rewrite Hq; by rewrite <- app_assoc.
  - by destruct w, id.
Qed.
(** The second section of anything else. *)
Lemma proceed_effect n s :
  let s' := fst (proceed n s) in
  (item_ids s' ⊆+ item_ids s /\ ws_admissions s' = ws_admissions s)
  \/ exists id, item_ids s' ≡ₚ id :: item_ids s /\ is_Some (ws_admissions s !! id) /\ ws_admissions s' !! id = Some Owned
      /\ forall id', id' <> id -> ws_admissions s' !! id' = ws_admissions s !! id'.
Proof.
  cbn zeta. unfold proceed. destruct (ws_pending s !! n) as [p|] eqn:E; [|by left]. destruct p; cbn [fst].
  - destruct (admit_prompt_effect message images custom streaming admission_id wait (set_pending (delete n) s)) as [[Hi Ha]|[Hi Ha]].
    + left. by rewrite Hi, Ha.
    + destruct admission_id as [id|]; [right; by exists id|left]. split; [by rewrite Hi|done].
  - left. split; [adds|done].
  - left. unfold admit_delivery. destruct (assert_agent_message_queue_capacity _ _); split; try done. adds.
  - by left.
  - left. by case_match.
  - by left.
Qed.
Lemma prompt_registry payload w s :
  ws_admissions (fst (handle_prompt payload w s)) = ws_admissions s
  \/ exists id, prompt_id (Prompt payload w) = Some id /\ ws_admissions (fst (handle_prompt payload w s)) = <[id := Waiting]> (ws_admissions s).
Proof.
  unfold handle_prompt. destruct (require_created _ _); [by left|]. cbn zeta. destruct (_ && _); [by left|].
  destruct (parse_custom_message _) as [|custom]; [by left|]. destruct (match custom with Some _ => _ | None => _ end); [by left|].
  destruct (_ && _ && _); [by left|]. cbn [fst prompt_id]. destruct (match get_str _ _ with Some _ => _ | None => _ end) as [id|].
  - right. exists id. split; [done|]. by destruct (_ && _).
  - left. by destruct (_ && _).
Qed.
Lemma handle_prompt_items payload w s : item_ids (fst (handle_prompt payload w s)) ⊆+ item_ids s.
Proof. apply same_items, prompt_same. Qed.
Lemma resolves_owned s : owned_items s -> NoDup (item_ids s) -> owned_items (turn_resolves s).
Proof.
  intros Ho Hn. unfold turn_resolves. destruct (ws_runner s) eqn:Er; try done. destruct (settle_outstanding s); [done|].
  intros id Hid. unfold item_ids in Hid, Hn. cbn in Hid |- *. rewrite Er in Hn. cbn in Hn. rewrite app_nil_r in Hid.
  rewrite clear_lookup; [apply Ho; unfold item_ids; set_solver|]. apply NoDup_app in Hn as (_ & Hd & _). by apply Hd.
Qed.
(** Every step keeps the registry and the items together. *)
Lemma step_owned `{Env} sc e s :
  owned_items s -> NoDup (ids s) -> (forall id, prompt_id e = Some id -> id ∉ ids s) -> owned_items (qstep sc e s).
Proof.
  intros Ho Hn Hf. assert (NoDup (item_ids s)) as Hi by (apply NoDup_app in Hn; tauto).
  destruct (touches_admissions e) eqn:Et.
  - unfold qstep. destruct (ws_dead s); [done|]. destruct e; try done; auto using clear_owned, cancel_owned_items, resolves_owned.
    + intros id Hid. eapply elem_of_submseteq in Hid; [|apply handle_prompt_items].
      destruct (prompt_registry payload wait s) as [->|(id' & Ep & ->)]; [by apply Ho|].
      specialize (Hf id' Ep). rewrite lookup_insert_ne; [by apply Ho|]. intros ->. apply Hf. unfold ids. set_solver.
    + intros id Hid. destruct (proceed_effect n s) as [[Hs Ha]|(id' & Hs & _ & Ha & Hne)].
      * rewrite Ha. apply Ho. by eapply elem_of_submseteq.
      * destruct (decide (id = id')) as [->|Hd]; [done|]. rewrite Hne by done. apply Ho. rewrite Hs in Hid. set_solver.
    + unfold handle_abort_and_clear_queue. pose proof (clear_owned s Ho Hi) as Hc. destruct (handle_clear_queue s) as [s1 r]. by destruct (negb _).
    + by apply abort_owned.
    + unfold abort_and_send_queued. destruct (_ || _); [by apply abort_owned|]. apply (abort_owned (set_core arm_forced_all_steering s)).
      * intros id. rewrite armed_ids. apply Ho.
      * by rewrite armed_ids.
  - intros id Hid. rewrite (step_registry sc e s Et). apply Ho. eapply elem_of_submseteq; [exact Hid|].
    apply step_items. by destruct e.
Qed.
(** An absent id stays absent until it is registered again. *)
Lemma cancel_absent payload id s : ws_admissions s !! id = None -> ws_admissions (fst (handle_cancel_prompt_admission payload s)) !! id = None.
Proof.
  intros Hn. apply (guarded_either _ _ s (fun s' => ws_admissions s' !! id = None)); [done|]. cbn zeta.
  set (id' := default "" (get_str "admissionId" payload)).
  assert (snd (cancel_admission id' (ws_admissions s)) !! id = None) as Hs.
  { destruct (decide (id = id')) as [->|Hne]; [unfold cancel_admission; by rewrite Hn|].
    unfold cancel_admission. destruct (ws_admissions s !! id') as [[]|]; cbn; by rewrite ?lookup_insert_ne. }
  destruct (cancel_admission id' (ws_admissions s)) as [status adm]. cbn in Hs |- *.
  assert (delete id' adm !! id = None) as Hd by (apply lookup_delete_None; by right).
  destruct (_ || _), (_ && _ && _); done.
Qed.
Lemma step_absent `{Env} sc e id s : prompt_id e <> Some id -> absent id s -> absent id (qstep sc e s).
Proof.
  intros Hp [Hn Hi]. destruct (proceeds e) eqn:Ee.
  - destruct e; try done. unfold qstep. destruct (ws_dead s); [done|].
    destruct (proceed_effect n s) as [[Hs Ha]|(id' & Hs & [x Hx] & _ & Hne)].
    + split; [by rewrite Ha|]. intros Hin. apply Hi. by eapply elem_of_submseteq.
    + assert (id' <> id) as Hd by congruence. split; [by rewrite Hne|]. rewrite Hs. set_solver.
  - split; [|intros Hin; apply Hi; eapply elem_of_submseteq; [exact Hin|by apply step_items]].
    destruct (touches_admissions e) eqn:Et; [|by rewrite step_registry].
    unfold qstep. destruct (ws_dead s); [done|]. destruct e; try done; auto using cancel_absent.
    + destruct (prompt_registry payload wait s) as [->|(id' & Ep & ->)]; [done|]. by rewrite lookup_insert_ne by congruence.
    + apply (guarded_either _ _ s (fun s' => ws_admissions s' !! id = None)); [done|]. by apply clear_shrinks.
    + unfold handle_abort_and_clear_queue. assert (Hc : ws_admissions (fst (handle_clear_queue s)) !! id = None).
      { apply (guarded_either _ _ s (fun s' => ws_admissions s' !! id = None)); [done|]. by apply clear_shrinks. }
      destruct (handle_clear_queue s) as [s1 r]. by destruct (negb _).
    + by apply clear_shrinks.
    + unfold abort_and_send_queued. destruct (_ || _); by apply clear_shrinks.
    + unfold turn_resolves. destruct (ws_runner s); try done. destruct (settle_outstanding s); [done|]. by apply clear_shrinks.
Qed.
Lemma run_absent `{Env} sc es id s : (forall e, e ∈ es -> prompt_id e <> Some id) -> absent id s -> absent id (run_events sc es s).
Proof.
  revert s. induction es as [|e es IH]; intros s Hes Ha; [done|]. cbn. apply IH; [set_solver|]. apply step_absent; [set_solver|done].
Qed.
Lemma nodup_sub {A} (l k : list A) : l ⊆+ k -> NoDup k -> NoDup l.
Proof. intros [k' ->]%submseteq_Permutation. intros Hn. apply NoDup_app in Hn. tauto. Qed.
(** Ids submitted once: the items that carry them are owned. *)
Lemma run_owned `{Env} sc es s :
  owned_items s -> NoDup (omap prompt_id es ++ ids s)%list ->
  owned_items (run_events sc es s) /\ NoDup (ids (run_events sc es s)) /\ ids (run_events sc es s) ⊆+ (omap prompt_id es ++ ids s)%list.
Proof.
  revert s. induction es as [|e es IH]; intros s Ho Hn; [done|]. cbn [run_events foldl].
  pose proof (step_ids sc e s) as Hi.
  assert ((omap prompt_id es ++ ids (qstep sc e s))%list ⊆+ (omap prompt_id (e :: es) ++ ids s)%list) as Hs.
  { etrans; [apply submseteq_app; [done|exact Hi]|]. cbn. destruct (prompt_id e) as [id|]; [|done]. cbn. by rewrite <- Permutation_middle. }
  destruct (IH (qstep sc e s)) as (IH1 & IH2 & IH3).
  - apply step_owned; [done|by apply NoDup_app in Hn as (_ & _ & ?)|].
    intros id Ep. cbn in Hn. rewrite Ep in Hn. apply NoDup_cons in Hn as [Hx _]. set_solver.
  - by eapply nodup_sub.
  - split; [done|]. split; [done|]. by etrans.
Qed.
