(* ===== verification/Lease.v ===== *)
(** * Session leases ([crates/pa-daemon/src/lease.rs])

    One process may host one runtime per session file.  A lease is a directory
    of [session-leases/] with an [owner.json] inside, taken by an atomic rename
    under a guard directory; several processes, each with several threads,
    contend for it.  The functions are programs ([proc]): trees of the system
    calls and atomic memory operations they make, so that a scheduler can
    interleave them at every call.  [Host] is what they share, [exec] what one
    call does to it, [Sys] the threads and their programs. *)
From S2P Require Import Prelude RustStr Json Time World LedgerReplay Ledger.
#[local] Open Scope string_scope.
#[local] Open Scope Z_scope.

(** ** Data *)
Record LeaseOwner := mkOwner {
  lo_version : Z; lo_token : string; lo_pid : Z;
  lo_process_start_id : option string; lo_active_session_id : option string;
  lo_session_path : string; lo_created_at : string
}.
#[export] Instance owner_codec : Codec LeaseOwner := {
  encode o := VObject (
    [("version", VNumber (lo_version o)); ("token", VString (lo_token o)); ("pid", VNumber (lo_pid o))]
    ++ opt_member "processStartId" (lo_process_start_id o)
    ++ opt_member "activeSessionId" (lo_active_session_id o)
    ++ [("sessionPath", VString (lo_session_path o)); ("createdAt", VString (lo_created_at o))])%list;
  decode v :=
    ms ← object_members v;
    version ← required decode_u32 "version" ms;
    token ← required as_str "token" ms;
    pid ← required decode_u32 "pid" ms;
    start ← defaulted None decode "processStartId" ms;
    active ← defaulted None decode "activeSessionId" ms;
    session ← required as_str "sessionPath" ms;
    created ← required as_str "createdAt" ms;
    Some (mkOwner version token pid start active session created)
}.

Record SessionAlreadyActiveError := mkActive {
  ae_session_path : string; ae_active_session_id : option string; ae_owner : string; ae_holder_pid : option Z
}.
Definition active_error_display (e : SessionAlreadyActiveError) : string :=
  "Session is already active in " ++ ae_owner e ++ ": " ++ ae_session_path e.
Definition nonempty (o : option string) : option string :=
  match o with Some id => if is_empty id then None else Some id | None => None end.
Definition for_owner (session_path : string) (owner : option LeaseOwner) : SessionAlreadyActiveError :=
  let id := nonempty (owner ≫= lo_active_session_id) in
  mkActive session_path id
    (match id, owner with
     | Some id, _ => id
     | None, Some o => "another process (pid " ++ show_Z (lo_pid o) ++ ")"
     | None, None => "another process"
     end)
    (lo_pid <$> owner).
(** An error of this module: the typed refusal, or any other. *)
Inductive lease_error := AlreadyActive (e : SessionAlreadyActiveError) | OtherError (e : anyhow).
Record LiveLeaseOwner := mkLiveOwner { lv_pid : Z; lv_active_session_id : option string }.

(** The directories of [session-leases/], by what they are for; a UUID is the
    number of its draw. *)
Inductive entry :=
| Lease (name : string)
| Guard (name : string)
| Candidate (name : string) (pid : Z) (uuid : nat)
| Stale (name : string) (pid : Z) (uuid : nat).
#[export] Instance entry_eq_dec : EqDecision entry.
Proof. solve_decision. Defined.
#[export] Instance entry_countable : Countable entry.
Proof.
  refine (inj_countable'
    (fun e => match e with
              | Lease n => inl (inl n) | Guard n => inl (inr n)
              | Candidate n p u => inr (inl (n, p, u)) | Stale n p u => inr (inr (n, p, u)) end)
    (fun s => match s with
              | inl (inl n) => Lease n | inl (inr n) => Guard n
              | inr (inl (n, p, u)) => Candidate n p u | inr (inr (n, p, u)) => Stale n p u end) _).
  by intros [].
Defined.

(** What the machine gives a process: the text of UUIDs, pids, start
    identities, environment variables. *)
Class Machine := {
  uuid_text : nat -> string;         (* hyphenated *)
  uuid_simple : nat -> string;
  pid_of : nat -> Z;
  start_of : nat -> option string;   (* [process_start_id] where it can be observed *)
  owner_id_env : nat -> option string;
  leases_env : nat -> option string
}.
Definition SESSION_LEASES_ON : list string := ["1"; "true"; "yes"].
Definition STALE_GUARD_AFTER : Z := 5000.
Definition FAST_GUARD_ATTEMPTS : Z := 100.
Definition THROUGH_STALE_SLACK : Z := 500.
Definition APPEND_DRAIN_AFTER : Z := 10000.
Inductive GuardWait := Fast | ThroughStale.

(** A thread: its process and its number there. *)
Abbreviation task := (nat * nat)%type.
(** A held lease: what does not change ([SessionLease]), and its number. *)
Record SessionLease := mkLease {
  sl_id : nat; sl_session_path : path; sl_opened_path : path; sl_directory : string; sl_token : nat
}.

Section Lease.
Context `{Env} `{LedgerEnv} `{Machine}.

Definition stem_of (name : string) : string :=
  match rsplit_once "." name with
  | Some (stem, _) => if is_empty stem then name else stem
  | None => name
  end.
(** The names on disk ([with_extension] replaces what follows the last dot). *)
Definition entry_text (e : entry) : string :=
  match e with
  | Lease name => name
  | Guard name => name ++ ".guard"
  | Candidate name pid u => stem_of name ++ ".lock.candidate-" ++ show_Z pid ++ "-" ++ uuid_simple u
  | Stale name pid u => stem_of name ++ ".lock.stale-" ++ show_Z pid ++ "-" ++ uuid_simple u
  end.
(** [lease_directory], inside [session-leases/]. *)
Definition lease_directory (v : View) (session_path : path) : string :=
  hex (sha256 (path_display (canonical_session_path v session_path))) ++ ".lock".

(** ** Calls *)
Inductive Op :=
| EnsureRoot                                  (* create_dir_all(session-leases) *)
| EnterGuard (name : string)                  (* create_dir(guard) *)
| LeaveGuard (name : string)                  (* remove_dir_all(guard), by its holder *)
| StealGuard (name : string)                  (* remove_dir_all(guard), by a waiter *)
| GuardMtime (name : string)                  (* metadata(guard).modified() *)
| MakeCandidate (e : entry)                   (* create_dir_all(candidate) *)
| WriteOwner (e : entry) (b : Bytes)          (* write(candidate/owner.json) *)
| MoveDir (a b : entry)                       (* rename *)
| RemoveDir (e : entry)                       (* remove_dir_all *)
| ReadOwner (name : string)                   (* read_to_string(lease/owner.json) *)
| ListRoot                                    (* read_dir(session-leases) *)
| IsAlive (pid : Z)                           (* is_process_alive *)
| StartId (pid : Z)                           (* get_process_start_id *)
| Now                                         (* Instant::now, SystemTime::now *)
| Sleep                                       (* sleep, yield_now *)
| NewUuid                                     (* Uuid::new_v4 *)
| NewLease (session opened : path) (name : string) (token : nat)   (* the SessionLease value *)
| SwapReleased (id : nat)                     (* released.swap(true) *)
| LoadReleased (id : nat)                     (* released.load() *)
| LoadFlights (id : nat)                      (* append_in_flight.load() *)
| AddFlight (id : nat)                        (* append_in_flight.fetch_add(1) *)
| DropFlight (id : nat)                       (* append_in_flight.fetch_sub(1) *)
| EndDrain (id : nat)                         (* the end of the drain loop *)
| FlushCaches (p : path)                      (* flush_cache, persist_info_sidecar *)
| AppendRow (id : nat) (p : path) (bytes : string).   (* append_cached *)
Definition resp (op : Op) : Type :=
  match op with
  | EnsureRoot | EnterGuard _ | LeaveGuard _ | StealGuard _ | MakeCandidate _ | WriteOwner _ _ | MoveDir _ _
  | RemoveDir _ | AppendRow _ _ _ => io_error + unit
  | GuardMtime _ => option Z
  | ReadOwner _ => io_error + Bytes
  | ListRoot => io_error + list entry
  | IsAlive _ => option bool
  | StartId _ => option string
  | Now => Z
  | NewUuid | NewLease _ _ _ _ | LoadFlights _ => nat
  | SwapReleased _ | LoadReleased _ => bool
  | Sleep | AddFlight _ | DropFlight _ | EndDrain _ | FlushCaches _ => unit
  end.

(** A program: a result, a call with what follows its answer, or a loop that
    was cut off ([Spin] takes no more steps). *)
Inductive proc (A : Type) : Type :=
| Ret (a : A)
| Call (op : Op) (k : resp op -> proc A)
| Spin.
Arguments Ret {A} a.
Arguments Call {A} op k.
Arguments Spin {A}.
Fixpoint pbind {A B} (p : proc A) (f : A -> proc B) : proc B :=
  match p with
  | Ret a => f a
  | Call op k => Call op (fun r => pbind (k r) f)
  | Spin => Spin
  end.
Definition call (op : Op) : proc (resp op) := Call op Ret.
End Lease.
Arguments Ret {_ A} a.
Arguments Call {_ A} op k.
Arguments Spin {_ A}.

Notation "'let@' x ':=' m 'in' k" := (pbind m (fun x => k))
  (at level 10, x name, m at level 100, k at level 200) : bb_scope.
Notation "'do@' m 'in' k" := (pbind m (fun _ => k))
  (at level 10, m at level 100, k at level 200) : bb_scope.

(** ** The functions, run by process [p] *)
Section Programs.
Context `{Env} `{LedgerEnv} `{Machine} (v : View) (fuel : nat).

Definition of_io {A} (e : io_error) : lease_error + A := inl (OtherError (io_err e)).

(** [read_owner]. *)
Definition read_owner (name : string) : proc (lease_error + option LeaseOwner) :=
  let@ content := call (ReadOwner name) in
  match content with
  | inl e => if decide (io_error_kind e = NotFound) then Ret (inr None) else Ret (of_io e)
  | inr b =>
      let corrupt msg := inl (OtherError (anyhow_msg
        ("Corrupt session lease owner file: " ++ name ++ "/owner.json - " ++ msg))) in
      match from_slice b with
      | inl msg => Ret (corrupt msg)
      | inr doc =>
          match decode doc with
          | Some o => Ret (inr (Some o))
          | None => Ret (corrupt (schema_error_text doc))
          end
      end
  end.

(** [owner_alive]: what cannot be verified counts as alive. *)
Definition owner_alive (o : LeaseOwner) : proc bool :=
  let@ alive := call (IsAlive (lo_pid o)) in
  match alive with
  | None => Ret true
  | Some false => Ret false
  | Some true =>
      match lo_process_start_id o with
      | None => Ret true
      | Some expected =>
          let@ current := call (StartId (lo_pid o)) in
          Ret (match current with Some c => String.eqb c expected | None => true end)
      end
  end.
(** [lease_reclaimable]. *)
Definition lease_reclaimable (o : option LeaseOwner) : proc bool :=
  match o with
  | None => Ret true
  | Some o => let@ alive := owner_alive o in Ret (negb alive)
  end.
(** [is_rename_target_contention], on Unix. *)
Definition is_rename_target_contention (e : io_error) : bool :=
  bool_decide (io_error_kind e = AlreadyExists) || bool_decide (io_error_kind e = DirectoryNotEmpty).

(** [reclaim_stale]: on Unix no failure is tried again. *)
Definition reclaim_stale (p : nat) (name : string) : proc bool :=
  let@ u := call NewUuid in
  let stale := Stale name (pid_of p) u in
  let@ moved := call (MoveDir (Lease name) stale) in
  match moved with
  | inr _ => do@ call (RemoveDir stale) in Ret true
  | inl e => Ret (bool_decide (io_error_kind e = NotFound))
  end.

(** [mtime_age] of the guard against [STALE_GUARD_AFTER], and the owner as a
    stand-in for the guard's holder. *)
Definition stale_guard (name : string) : proc bool :=
  let@ modified := call (GuardMtime name) in
  match modified with
  | None => Ret false
  | Some t =>
      let@ now := call Now in
      if STALE_GUARD_AFTER <? now - t then
        let@ owner := read_owner name in
        match owner with
        | inr (Some o) => let@ alive := owner_alive o in Ret (negb alive)
        | inr None => Ret true
        | inl _ => Ret false
        end
      else Ret false
  end.

(** The acquisition loop of [with_lease_guard]. *)
Fixpoint guard_loop (n : nat) (name : string) (deadline : option Z) (attempt : Z) : proc (lease_error + bool) :=
  match n with
  | O => Spin
  | S n' =>
      let@ made := call (EnterGuard name) in
      match made with
      | inr _ => Ret (inr true)
      | inl e =>
          if decide (io_error_kind e = AlreadyExists) then
            let attempt := attempt + 1 in
            let@ exhausted := match deadline with
                              | Some d => let@ now := call Now in Ret (d <=? now)
                              | None => Ret (FAST_GUARD_ATTEMPTS <=? attempt)
                              end in
            if exhausted : bool then Ret (inr false)
            else
              let@ stale := stale_guard name in
              let@ stolen := if stale : bool then
                               let@ removed := call (StealGuard name) in
                               Ret (match removed with inr _ => true | inl _ => false end)
                             else Ret false in
              if stolen : bool then guard_loop n' name deadline attempt
              else do@ call Sleep in guard_loop n' name deadline attempt
          else Ret (of_io e)
      end
  end.
Definition guard_acquire (name : string) (wait : GuardWait) : proc (lease_error + bool) :=
  match wait with
  | Fast => guard_loop fuel name None 0
  | ThroughStale =>
      let@ now := call Now in
      guard_loop fuel name (Some (now + STALE_GUARD_AFTER + THROUGH_STALE_SLACK)) 0
  end.
(** [with_lease_guard]. *)
Definition with_lease_guard {A} (name : string) (wait : GuardWait) (action : proc (lease_error + A)) : proc (lease_error + A) :=
  let@ acquired := guard_acquire name wait in
  match acquired with
  | inl e => Ret (inl e)
  | inr false => Ret (inl (OtherError (anyhow_msg ("Could not coordinate session lease: " ++ name))))
  | inr true =>
      let@ result := action in
      do@ call (LeaveGuard name) in
      Ret result
  end.

(** The owner record of process [p]. *)
Definition owner_doc (p : nat) (token : nat) (start : option string) (canonical : path) (created_at : string) : LeaseOwner :=
  mkOwner 1 (uuid_text token) (pid_of p) start (owner_id_env p) (path_display canonical) created_at.

(** What the last read of the owner answers: the refusal, or [otherwise]. *)
Definition refuse_or {A} (name : string) (canonical : path) (otherwise : proc (lease_error + A)) : proc (lease_error + A) :=
  let@ existing := read_owner name in
  match existing with
  | inl e => Ret (inl e)
  | inr existing =>
      let@ reclaimable := lease_reclaimable existing in
      if reclaimable : bool then otherwise
      else Ret (inl (AlreadyActive (for_owner (path_display canonical) existing)))
  end.
(** The end of one attempt: the owner file, the rename, and what its failure
    says; [retry] is the next attempt. *)
Definition publish (p : nat) (session_path canonical : path) (name : string) (token : nat) (candidate : entry) (b : Bytes)
    (retry : proc (lease_error + SessionLease)) : proc (lease_error + SessionLease) :=
  let@ written := call (WriteOwner candidate b) in
  match written with
  | inl e => Ret (of_io e)
  | inr _ =>
      let@ moved := call (MoveDir candidate (Lease name)) in
      match moved with
      | inr _ =>
          let@ id := call (NewLease canonical session_path name token) in
          Ret (inr (mkLease id canonical session_path name token))
      | inl e =>
          do@ call (RemoveDir candidate) in
          if decide (io_error_kind e = NotFound) then retry
          else if is_rename_target_contention e then
            refuse_or name canonical (do@ reclaim_stale p name in retry)
          else Ret (of_io e)
      end
  end.
(** The attempts of [acquire_runtime_session_lease], under the guard. *)
Fixpoint acquire_attempts (n : nat) (p : nat) (session_path canonical : path) (name : string) : proc (lease_error + SessionLease) :=
  match n with
  | O => refuse_or name canonical
           (Ret (inl (OtherError (anyhow_msg ("Could not acquire session lease: " ++ path_display canonical)))))
  | S n' =>
      let@ token := call NewUuid in
      let@ u := call NewUuid in
      let candidate := Candidate name (pid_of p) u in
      let@ made := call (MakeCandidate candidate) in
      match made with
      | inl e => Ret (of_io e)
      | inr _ =>
          let@ start := call (StartId (pid_of p)) in
          let@ now := call Now in
          match to_string_pretty (encode (owner_doc p token start canonical (iso_from_unix_ms now))) with
          | inl msg => Ret (inl (OtherError (anyhow_msg msg)))
          | inr b => publish p session_path canonical name token candidate b (acquire_attempts n' p session_path canonical name)
          end
      end
  end.
(** [acquire_runtime_session_lease]. *)
Definition acquire_runtime_session_lease (p : nat) (session_path : path) : proc (lease_error + SessionLease) :=
  let canonical := canonical_session_path v session_path in
  let@ made := call EnsureRoot in
  match made with
  | inl e => Ret (of_io e)
  | inr _ =>
      let name := lease_directory v canonical in
      with_lease_guard name ThroughStale (acquire_attempts 3 p session_path canonical name)
  end.
(** [acquire_session_lease], gated by an environment variable. *)
Definition leases_enabled (p : nat) : bool :=
  match leases_env p with Some s => existsb (String.eqb s) SESSION_LEASES_ON | None => false end.
Definition acquire_session_lease (p : nat) (session_path : option path) : proc (lease_error + option SessionLease) :=
  match session_path with
  | None | Some [] => Ret (inr None)
  | Some sp =>
      if leases_enabled p then
        let@ r := acquire_runtime_session_lease p sp in
        Ret (match r with inl e => inl e | inr l => inr (Some l) end)
      else Ret (inr None)
  end.
(** [live_lease_owner]. *)
Definition live_lease_owner (session_path : path) : proc (option LiveLeaseOwner) :=
  let@ owner := read_owner (lease_directory v session_path) in
  match owner with
  | inr (Some o) =>
      let@ alive := owner_alive o in
      Ret (if alive : bool then Some (mkLiveOwner (lo_pid o) (nonempty (lo_active_session_id o))) else None)
  | _ => Ret None
  end.

(** [release]. *)
Fixpoint drain (n : nat) (id : nat) (deadline : Z) : proc unit :=
  match n with
  | O => Spin
  | S n' =>
      let@ flights := call (LoadFlights id) in
      if Nat.eqb flights 0 then Ret tt
      else
        let@ now := call Now in
        if now <? deadline then do@ call Sleep in drain n' id deadline else Ret tt
  end.
Definition release_guarded (p : nat) (l : SessionLease) : proc (lease_error + unit) :=
  let@ owner := read_owner (sl_directory l) in
  match owner with
  | inr (Some o) =>
      if String.eqb (lo_token o) (uuid_text (sl_token l)) then do@ reclaim_stale p (sl_directory l) in Ret (inr tt)
      else Ret (inr tt)
  | _ => Ret (inr tt)
  end.
Definition release_lease (p : nat) (l : SessionLease) : proc unit :=
  let@ was := call (SwapReleased (sl_id l)) in
  if was : bool then Ret tt
  else
    let@ now := call Now in
    do@ drain fuel (sl_id l) (now + APPEND_DRAIN_AFTER) in
    do@ call (EndDrain (sl_id l)) in
    do@ call (FlushCaches (sl_opened_path l)) in
    do@ with_lease_guard (sl_directory l) Fast (release_guarded p l) in
    Ret tt.

(** [with_owned_mutation] and [append]. *)
Definition with_owned_mutation (l : SessionLease) (p : path) (action : proc (lease_error + unit)) : proc (lease_error + unit) :=
  do@ call (AddFlight (sl_id l)) in
  let@ released := call (LoadReleased (sl_id l)) in
  let owns := negb released && bool_decide (canonical_session_path v p = sl_session_path l) in
  let@ r := if owns then action
            else Ret (inl (OtherError (anyhow_msg "session lease does not own append target"))) in
  do@ call (DropFlight (sl_id l)) in
  Ret r.
Definition lease_append (l : SessionLease) (p : path) (bytes : string) : proc (lease_error + unit) :=
  with_owned_mutation l p (
    let@ r := call (AppendRow (sl_id l) p bytes) in
    Ret (match r with inl e => of_io e | inr _ => inr tt end)).

(** [reclaim_dead_owner_leases]. *)
Definition lock_extension (name : string) : bool :=
  match rsplit_once "." name with
  | Some (stem, ext) => negb (is_empty stem) && eq_ignore_ascii_case ext "lock"
  | None => false
  end.
Definition is_stale_name (name : string) : bool := contains ".lock.stale-" name.
Definition reap_entry (p : nat) (e : entry) : proc bool :=
  let name := entry_text e in
  if lock_extension name then
    let@ r := with_lease_guard name Fast (
      let@ existing := read_owner name in
      match existing with
      | inl e => Ret (inl e)
      | inr existing =>
          let@ reclaimable := lease_reclaimable existing in
          if reclaimable : bool then let@ r := reclaim_stale p name in Ret (inr r) else Ret (inr false)
      end) in
    Ret (match r with inr b => b | inl _ => false end)
  else if is_stale_name name then
    let@ removed := call (RemoveDir e) in
    Ret (match removed with inr _ => true | inl _ => false end)
  else Ret false.
Fixpoint reap_entries (p : nat) (es : list entry) (removed : nat) : proc nat :=
  match es with
  | [] => Ret removed
  | e :: rest => let@ gone := reap_entry p e in reap_entries p rest (if gone : bool then S removed else removed)
  end.
Definition reclaim_dead_owner_leases (p : nat) : proc nat :=
  let@ entries := call ListRoot in
  match entries with
  | inl _ => Ret O
  | inr es => reap_entries p es 0
  end.
End Programs.
