(* ===== verification/LeaseHost.v ===== *)
(** * Session leases: the machine the programs share

    The directories, the leases in the memory of their processes, the
    processes themselves; what each call does, and the threads that make the
    calls in any order.  Three fields are history that no call reads:
    [h_inside], the thread between creating a guard and removing it,
    [h_robbed], that a guard was removed under a live thread still inside, and
    [h_overrun], that a release stopped waiting for an append in flight. *)
From S2P Require Import Prelude RustStr Json Time World LedgerReplay Ledger Lease.
#[local] Open Scope string_scope.
#[local] Open Scope Z_scope.

Section Host.
Context `{Env} `{LedgerEnv} `{Machine}.

Record LeaseDir := mkLeaseDir { ld_owner : option Bytes; ld_mtime : Z }.
(** A [SessionLease] in memory: [append_in_flight] is kept as the threads it
    counts; [ob_drained] is history, that its release has ended its drain. *)
Record LeaseObj := mkObj {
  ob_lease : SessionLease; ob_proc : nat; ob_released : bool; ob_flights : gset task; ob_drained : bool
}.
Record Host := mkHost {
  h_dirs : gmap entry LeaseDir;
  h_clock : Z;
  h_draws : list task;          (* who drew each UUID *)
  h_objs : list LeaseObj;
  h_procs : gmap nat bool;      (* every process ever started, and whether it is alive *)
  h_inside : gmap string task;
  h_robbed : bool;
  h_overrun : bool
}.
Definition set_dirs (d : gmap entry LeaseDir) (h : Host) : Host :=
  mkHost d (h_clock h) (h_draws h) (h_objs h) (h_procs h) (h_inside h) (h_robbed h) (h_overrun h).
Definition set_objs (o : list LeaseObj) (h : Host) : Host :=
  mkHost (h_dirs h) (h_clock h) (h_draws h) o (h_procs h) (h_inside h) (h_robbed h) (h_overrun h).
Definition set_inside (i : gmap string task) (h : Host) : Host :=
  mkHost (h_dirs h) (h_clock h) (h_draws h) (h_objs h) (h_procs h) i (h_robbed h) (h_overrun h).
Definition set_robbed (b : bool) (h : Host) : Host :=
  mkHost (h_dirs h) (h_clock h) (h_draws h) (h_objs h) (h_procs h) (h_inside h) (h_robbed h || b) (h_overrun h).

Definition running (h : Host) (p : nat) : bool := bool_decide (h_procs h !! p = Some true).
(** A live thread, [except] apart, is inside the guard of [name]. *)
Definition occupied (h : Host) (except : option task) (name : string) : bool :=
  match h_inside h !! name with Some t => running h (fst t) && negb (bool_decide (except = Some t)) | None => false end.
Definition process_at (h : Host) (pid : Z) : option nat :=
  fst <$> find_first (fun pa : nat * bool => snd pa && (pid_of (fst pa) =? pid)) (map_to_list (h_procs h)).

(** ** One call *)
(** It runs, or the operating system fails it; a write that fails may leave
    content behind.  Memory operations always run. *)
Inductive choice := Run | FailWith (k : io_kind) (torn : option Bytes).
Definition io_ok : io_error + unit := inr tt.
Definition io_fail {A} (k : io_kind) : io_error + A := inl (os_error k).

Definition remove_entry (by_holder : option task) (e : entry) (h : Host) : (io_error + unit) * Host :=
  match h_dirs h !! e with
  | None => (io_fail NotFound, h)
  | Some _ =>
      (io_ok, set_robbed (match e with Guard name => occupied h by_holder name | _ => false end)
                (set_dirs (delete e (h_dirs h)) h))
  end.
Definition move_entry (a b : entry) (h : Host) : (io_error + unit) * Host :=
  match h_dirs h !! a with
  | None => (io_fail NotFound, h)
  | Some d =>
      match h_dirs h !! b with
      | Some (mkLeaseDir (Some _) _) => (io_fail DirectoryNotEmpty, h)
      | _ => (io_ok, set_dirs (<[b := d]> (delete a (h_dirs h))) h)
      end
  end.
Definition write_owner (e : entry) (b : Bytes) (h : Host) : (io_error + unit) * Host :=
  match h_dirs h !! e with
  | None => (io_fail NotFound, h)
  | Some d => (io_ok, set_dirs (<[e := mkLeaseDir (Some b) (h_clock h)]> (h_dirs h)) h)
  end.
Definition leave_inside (t : task) (name : string) (h : Host) : Host :=
  set_inside (if bool_decide (h_inside h !! name = Some t) then delete name (h_inside h) else h_inside h) h.
Definition alter_obj (f : LeaseObj -> LeaseObj) (id : nat) (h : Host) : Host :=
  set_objs (match h_objs h !! id with Some o => <[id := f o]> (h_objs h) | None => h_objs h end) h.
Definition obj_released (h : Host) (id : nat) : bool :=
  match h_objs h !! id with Some o => ob_released o | None => false end.
Definition obj_flights (h : Host) (id : nat) : gset task :=
  match h_objs h !! id with Some o => ob_flights o | None => ∅ end.

Definition exec (t : task) (op : Op) (c : choice) (h : Host) : resp op * Host :=
  match op as o return resp o * Host with
  | EnsureRoot => (match c with Run => io_ok | FailWith k _ => io_fail k end, h)
  | EnterGuard name =>
      match c with
      | FailWith k _ => (io_fail (if decide (k = AlreadyExists) then OtherIo else k), h)
      | Run =>
          match h_dirs h !! Guard name with
          | Some _ => (io_fail AlreadyExists, h)
          | None => (io_ok, set_inside (<[name := t]> (h_inside h))
                              (set_dirs (<[Guard name := mkLeaseDir None (h_clock h)]> (h_dirs h)) h))
          end
      end
  | LeaveGuard name =>
      match c with
      | FailWith k _ => (io_fail k, leave_inside t name h)
      | Run => let '(r, h') := remove_entry (Some t) (Guard name) h in (r, leave_inside t name h')
      end
  | StealGuard name =>
      match c with FailWith k _ => (io_fail k, h) | Run => remove_entry None (Guard name) h end
  | GuardMtime name =>
      (match c with FailWith _ _ => None | Run => ld_mtime <$> h_dirs h !! Guard name end, h)
  | MakeCandidate e =>
      match c with
      | FailWith k _ => (io_fail k, h)
      | Run =>
          match h_dirs h !! e with
          | Some _ => (io_ok, h)
          | None => (io_ok, set_dirs (<[e := mkLeaseDir None (h_clock h)]> (h_dirs h)) h)
          end
      end
  | WriteOwner e b =>
      match c with
      | FailWith k None => (io_fail k, h)
      | FailWith k (Some torn) => (io_fail k, (write_owner e torn h).2)
      | Run => write_owner e b h
      end
  | MoveDir a b =>
      match c with
      | FailWith k _ => (io_fail k, h)
      | Run => move_entry a b h
      end
  | RemoveDir e => match c with FailWith k _ => (io_fail k, h) | Run => remove_entry None e h end
  | ReadOwner name =>
      (match c with
       | FailWith k _ => io_fail (if decide (k = NotFound) then OtherIo else k)
       | Run => match h_dirs h !! Lease name ≫= ld_owner with Some b => inr b | None => io_fail NotFound end
       end, h)
  | ListRoot => (match c with FailWith k _ => io_fail k | Run => inr (fst <$> map_to_list (h_dirs h)) end, h)
  | IsAlive pid =>
      (match c with FailWith _ _ => None | Run => Some (match process_at h pid with Some _ => true | None => false end) end, h)
  | StartId pid =>
      (match c with FailWith _ _ => None | Run => process_at h pid ≫= start_of end, h)
  | Now => (h_clock h, h)
  | Sleep => (tt, h)
  | NewUuid =>
      (List.length (h_draws h),
       mkHost (h_dirs h) (h_clock h) (h_draws h ++ [t]) (h_objs h) (h_procs h) (h_inside h) (h_robbed h) (h_overrun h))
  | NewLease session opened name token =>
      let id := List.length (h_objs h) in
      (id, set_objs (h_objs h ++ [mkObj (mkLease id session opened name token) (fst t) false ∅ false]) h)
  | SwapReleased id =>
      (obj_released h id, alter_obj (fun o => mkObj (ob_lease o) (ob_proc o) true (ob_flights o) (ob_drained o)) id h)
  | LoadReleased id => (obj_released h id, h)
  | LoadFlights id => (size (obj_flights h id), h)
  | AddFlight id =>
      (tt, alter_obj (fun o => mkObj (ob_lease o) (ob_proc o) (ob_released o) (ob_flights o ∪ {[t]}) (ob_drained o)) id h)
  | DropFlight id =>
      (tt, alter_obj (fun o => mkObj (ob_lease o) (ob_proc o) (ob_released o) (ob_flights o ∖ {[t]}) (ob_drained o)) id h)
  | EndDrain id =>
      (tt, alter_obj (fun o => mkObj (ob_lease o) (ob_proc o) (ob_released o) (ob_flights o) true) id
             (mkHost (h_dirs h) (h_clock h) (h_draws h) (h_objs h) (h_procs h) (h_inside h) (h_robbed h)
                (h_overrun h || negb (bool_decide (obj_flights h id = ∅)))))
  | FlushCaches _ => (tt, h)
  | AppendRow _ _ _ => (match c with FailWith k _ => io_fail k | Run => io_ok end, h)
  end.

(** A program run by one thread while no other does anything and no call
    fails. *)
Fixpoint alone {A} (t : task) (p : proc A) (h : Host) : option (A * Host) :=
  match p with
  | Ret a => Some (a, h)
  | Call op k => alone t (k (exec t op Run h).1) (exec t op Run h).2
  | Spin => None
  end.

(** ** The threads *)
Inductive outcome :=
| Acquired (r : lease_error + SessionLease)
| Gated (r : lease_error + option SessionLease)
| Probed (r : option LiveLeaseOwner)
| Released
| Appended (r : lease_error + unit)
| Reaped (n : nat).
Inductive job :=
| JobAcquire (session_path : path)
| JobAcquireGated (session_path : option path)
| JobProbe (session_path : path)
| JobRelease (id : nat)
| JobAppend (id : nat) (p : path) (bytes : string)
| JobReap.
Record Sys := mkSys { s_host : Host; s_tasks : gmap task (proc outcome) }.

Section Steps.
Context (v : View) (fuel : nat).

(** The program of a job; a lease is used by the process that holds it. *)
Definition program (h : Host) (p : nat) (j : job) : option (proc outcome) :=
  let held id := match h_objs h !! id with
                 | Some o => if Nat.eqb (ob_proc o) p then Some (ob_lease o) else None
                 | None => None
                 end in
  match j with
  | JobAcquire sp => Some (let@ r := acquire_runtime_session_lease v fuel p sp in Ret (Acquired r))
  | JobAcquireGated sp => Some (let@ r := acquire_session_lease v fuel p sp in Ret (Gated r))
  | JobProbe sp => Some (let@ r := live_lease_owner v sp in Ret (Probed r))
  | JobRelease id => l ← held id; Some (do@ release_lease fuel p l in Ret Released)
  | JobAppend id path bytes => l ← held id; Some (let@ r := lease_append v l path bytes in Ret (Appended r))
  | JobReap => Some (let@ n := reclaim_dead_owner_leases fuel p in Ret (Reaped n))
  end.

Inductive label :=
| Start (p : nat)              (* a process starts *)
| Kill (p : nat)               (* a process dies, with all its threads *)
| Tick (ms : Z)                (* time passes, or the clock is set *)
| Begin (t : task) (j : job)   (* a thread begins a job *)
| Do (t : task) (c : choice).  (* a thread makes its next call *)

Definition set_procs (m : gmap nat bool) (h : Host) : Host :=
  mkHost (h_dirs h) (h_clock h) (h_draws h) (h_objs h) m (h_inside h) (h_robbed h) (h_overrun h).
Definition set_clock (c : Z) (h : Host) : Host :=
  mkHost (h_dirs h) c (h_draws h) (h_objs h) (h_procs h) (h_inside h) (h_robbed h) (h_overrun h).
(** One step, when the label makes sense: pids of live processes differ, a
    thread number is used once. *)
Definition sys_step (l : label) (s : Sys) : option Sys :=
  let h := s_host s in
  match l with
  | Start p =>
      match h_procs h !! p, process_at h (pid_of p) with
      | None, None => Some (mkSys (set_procs (<[p := true]> (h_procs h)) h) (s_tasks s))
      | _, _ => None
      end
  | Kill p => if running h p then Some (mkSys (set_procs (<[p := false]> (h_procs h)) h) (s_tasks s)) else None
  | Tick ms => Some (mkSys (set_clock (h_clock h + ms) h) (s_tasks s))
  | Begin t j =>
      if running h (fst t) && bool_decide (s_tasks s !! t = None)
      then (fun pr => mkSys h (<[t := pr]> (s_tasks s))) <$> program h (fst t) j
      else None
  | Do t c =>
      if running h (fst t) then
        match s_tasks s !! t with
        | Some (Call op k) => let '(r, h') := exec t op c h in Some (mkSys h' (<[t := k r]> (s_tasks s)))
        | _ => None
        end
      else None
  end.
Fixpoint sys_run (ls : list label) (s : Sys) : option Sys :=
  match ls with
  | [] => Some s
  | l :: rest => sys_step l s ≫= sys_run rest
  end.
Definition boot : Sys := mkSys (mkHost ∅ 0 [] [] ∅ ∅ false false) ∅.
(** What any interleaving reaches. *)
Definition reachable (s : Sys) : Prop := exists ls, sys_run ls boot = Some s.
End Steps.
End Host.
