(* ===== verification/LeaseLogic.v ===== *)
(** * Session leases: rely and guarantee

    [Inv] holds of the machine between any two calls, [rely t] is what the
    other threads may do to it while [t] is between two calls, and [allowed]
    what a thread may call when.  A call that is allowed keeps [Inv] and stays
    within what every other live thread relies on ([exec_ok]), as long as no
    guard is robbed; [wp] chains this over a program. *)
From S2P Require Import Prelude RustStr Json Time World LedgerReplay Ledger Lease LeaseHost.
#[local] Open Scope string_scope.
#[local] Open Scope Z_scope.

Section Logic.
Context `{Env} `{LedgerEnv} `{Machine}.

(** The owner file [b] was written by process [p] for the lease [token]. *)
Definition names (p token : nat) (b : Bytes) : Prop :=
  exists doc o, from_slice b = inr doc /\ decode doc = Some o /\ lo_token o = uuid_text token /\ lo_pid o = pid_of p /\
    (lo_process_start_id o = None \/ lo_process_start_id o = start_of p).
Definition dir_names (h : Host) (name : string) (p token : nat) : Prop :=
  exists d b, h_dirs h !! Lease name = Some d /\ ld_owner d = Some b /\ names p token b.
Abbreviation dir_of o := (sl_directory (ob_lease o)).
Abbreviation token_of o := (sl_token (ob_lease o)).
(** The process lives and the release, if any, has not come to the directory. *)
Definition holder (h : Host) (o : LeaseObj) : Prop := running h (ob_proc o) = true /\ ob_drained o = false.
Definition unheld (h : Host) (name : string) : Prop :=
  forall id o, h_objs h !! id = Some o -> dir_of o = name -> ~ holder h o.

Record Inv (h : Host) : Prop := {
  i_owned id o : h_objs h !! id = Some o -> holder h o -> dir_names h (dir_of o) (ob_proc o) (token_of o);
  i_token id o : h_objs h !! id = Some o -> is_Some (h_draws h !! token_of o);
  i_unique i j o o' : h_objs h !! i = Some o -> h_objs h !! j = Some o' -> token_of o = token_of o' -> i = j;
  i_id id o : h_objs h !! id = Some o -> sl_id (ob_lease o) = id;
  i_dir id o : h_objs h !! id = Some o -> lock_extension (dir_of o) = true;
  i_born id o : h_objs h !! id = Some o -> is_Some (h_procs h !! ob_proc o);
  i_drained id o : h_objs h !! id = Some o -> ob_drained o = true -> ob_released o = true;
  i_guard name t : h_inside h !! name = Some t -> running h (fst t) = true -> is_Some (h_dirs h !! Guard name);
  i_lock name t : h_inside h !! name = Some t -> lock_extension name = true;
  i_inborn name t : h_inside h !! name = Some t -> is_Some (h_procs h !! fst t);
  i_stale name pid u : is_Some (h_dirs h !! Stale name pid u) -> is_Some (h_draws h !! u);
  i_pids p q : running h p = true -> running h q = true -> pid_of p = pid_of q -> p = q
}.

(** A candidate of [t]. *)
Definition mine (t : task) (h : Host) (e : entry) : Prop :=
  exists name pid u, e = Candidate name pid u /\ h_draws h !! u = Some t.

Record rely (t : task) (h h' : Host) : Prop := {
  rg_inside name : h_inside h !! name = Some t ->
    h_inside h' !! name = Some t /\ h_dirs h' !! Lease name = h_dirs h !! Lease name;
  rg_mine e : mine t h e -> is_stale_name (entry_text e) = false -> h_dirs h' !! e = h_dirs h !! e;
  rg_draws : h_draws h `prefix_of` h_draws h';
  rg_objs id o : h_objs h !! id = Some o -> exists o',
    h_objs h' !! id = Some o' /\ ob_lease o' = ob_lease o /\ ob_proc o' = ob_proc o /\
    (ob_released o = true -> ob_released o' = true) /\ (ob_drained o = true -> ob_drained o' = true) /\
    (t ∈ ob_flights o -> t ∈ ob_flights o' /\ (h_overrun h' = false -> ob_drained o' = ob_drained o));
  rg_new id o' : h_objs h' !! id = Some o' -> h_objs h !! id = None ->
    h_inside h !! dir_of o' <> Some t /\ h_draws h !! token_of o' <> Some t;
  rg_procs p : running h' p = true -> running h p = true \/ forall id o, h_objs h !! id = Some o -> ob_proc o <> p;
  rg_overrun : h_overrun h' = false -> h_overrun h = false
}.
#[export] Instance rely_refl t : Reflexive (rely t).
Proof.
  intros h. split; auto.
  - intros id o Ho. exists o. split_and!; auto.
  - intros id o Ho Hn. congruence.
Qed.
Lemma draws_mono (h h' : Host) u t : h_draws h `prefix_of` h_draws h' -> h_draws h !! u = Some t -> h_draws h' !! u = Some t.
Proof. intros Hp Hu. by eapply prefix_lookup_Some. Qed.
#[export] Instance rely_trans t : Transitive (rely t).
Proof.
  intros h1 h2 h3 [In1 Mi1 Dr1 Ob1 Ne1 Pr1 Ov1] [In2 Mi2 Dr2 Ob2 Ne2 Pr2 Ov2]. split.
  - intros n Hn. destruct (In1 n Hn) as [Hn2 E2]. destruct (In2 n Hn2) as [Hn3 E3]. split; [done|congruence].
  - intros e Hm Hs. rewrite Mi2, Mi1; [done|done|done| |done].
    destruct Hm as (n & pid & u & -> & Hu). exists n, pid, u. split; [done|]. by eapply draws_mono.
  - by transitivity (h_draws h2).
  - intros id o Ho. destruct (Ob1 id o Ho) as (o2 & Ho2 & L2 & P2 & R2 & D2 & F2).
    destruct (Ob2 id o2 Ho2) as (o3 & Ho3 & L3 & P3 & R3 & D3 & F3). exists o3.
    split_and!; [done|congruence|congruence|auto|auto|]. intros Hf. destruct (F2 Hf) as [Hf2 E2]. destruct (F3 Hf2) as [Hf3 E3].
    split; [done|]. intros Hv. rewrite E3, E2 by auto. done.
  - intros id o3 Ho3 Hn. destruct (h_objs h2 !! id) as [o2|] eqn:E.
    + destruct (Ob2 id o2 E) as (o & Ho & L & _). assert (o = o3) as -> by congruence. rewrite L. by apply Ne1 in E.
    + destruct (Ne2 id o3 Ho3 E) as [Hi Hd]. split; [intros Hc; by destruct (In1 _ Hc)|]. intros Hc. apply Hd. by eapply draws_mono.
  - intros p Hp. destruct (Pr2 p Hp) as [Hp2|Hno]; [by apply Pr1|]. right. intros id o Ho.
    destruct (Ob1 id o Ho) as (o2 & Ho2 & _ & <- & _). by eapply Hno.
  - auto.
Qed.

(** ** What a thread may call *)
Definition allowed (t : task) (op : Op) (h : Host) : Prop :=
  match op with
  | EnterGuard name => lock_extension name = true
  | LeaveGuard name => h_inside h !! name = Some t
  | MakeCandidate e | WriteOwner e _ => mine t h e
  | MoveDir a b =>
      (exists name, b = Lease name /\ mine t h a /\ h_inside h !! name = Some t) \/
      (exists name pid u, a = Lease name /\ b = Stale name pid u /\ h_inside h !! name = Some t /\ unheld h name /\
         h_draws h !! u = Some t)
  | RemoveDir e =>
      mine t h e \/ (exists name pid u, e = Stale name pid u)
      \/ (lock_extension (entry_text e) = false /\ is_stale_name (entry_text e) = true)
  | NewLease _ _ name token =>
      h_inside h !! name = Some t /\ h_draws h !! token = Some t /\ dir_names h name (fst t) token /\
      forall id o, h_objs h !! id = Some o -> token_of o <> token
  | EndDrain id => obj_released h id = true
  | AppendRow id _ _ => h_overrun h = false -> exists o, h_objs h !! id = Some o /\ holder h o
  | _ => True
  end.

(** ** Changes of the directories *)
Lemma Inv_dirs h d :
  Inv h -> (forall id o, h_objs h !! id = Some o -> holder h o -> d !! Lease (dir_of o) = h_dirs h !! Lease (dir_of o)) ->
  (forall name t, h_inside h !! name = Some t -> running h (fst t) = true -> is_Some (d !! Guard name)) ->
  (forall name pid u, is_Some (d !! Stale name pid u) -> is_Some (h_dirs h !! Stale name pid u) \/ is_Some (h_draws h !! u)) ->
  Inv (set_dirs d h).
Proof.
  intros [Ow To Un Id Di Bo Dr Gu Lo Ib St Pi] Hl Hg Hst. split; try done.
  2: { intros n pid u Hd. cbn in *. destruct (Hst n pid u Hd) as [Hd'|?]; [by eapply St|done]. }
  intros id o Ho Hh. destruct (Ow id o Ho Hh) as (x & b & Hx & Hb & Hn). exists x, b. split_and!; [|done..].
  cbn [h_dirs set_dirs]. by rewrite (Hl id o Ho Hh).
Qed.
Lemma rely_dirs t h d :
  (forall name, h_inside h !! name = Some t -> d !! Lease name = h_dirs h !! Lease name) ->
  (forall e, mine t h e -> is_stale_name (entry_text e) = false -> d !! e = h_dirs h !! e) ->
  rely t h (set_dirs d h).
Proof.
  intros Hl Hm. split; cbn [h_dirs h_draws h_objs h_inside h_overrun set_dirs].
  - intros name Hn. split; [done|by apply Hl].
  - done.
  - done.
  - intros id o Ho. exists o. split_and!; auto.
  - intros id o Ho Hn. congruence.
  - by left.
  - done.
Qed.
(** One entry that is nobody else's business. *)
Lemma entry_ok h t e (d : gmap entry LeaseDir) :
  Inv h -> (forall e', e' <> e -> d !! e' = h_dirs h !! e') ->
  (forall name, e = Lease name -> h_inside h !! name = Some t /\ forall id o, h_objs h !! id = Some o -> dir_of o = name -> holder h o -> d !! e = h_dirs h !! e) ->
  (forall name t', e = Guard name -> h_inside h !! name = Some t' -> running h (fst t') = true -> is_Some (d !! e)) ->
  (forall t', t' <> t -> mine t' h e -> is_stale_name (entry_text e) = false -> False) ->
  (forall name pid u, e <> Stale name pid u) ->
  Inv (set_dirs d h) /\ forall t', t' <> t -> rely t' h (set_dirs d h).
Proof.
  intros Hi Ho Hl Hg Hm Hns. split.
  - apply Inv_dirs; [done|..].
    + intros id o Hob Hh. destruct (decide (Lease (dir_of o) = e)) as [<-|Hne]; [|by apply Ho].
      destruct (Hl _ eq_refl) as [_ Hk]. by eapply Hk.
    + intros name t' Hin Hr. destruct (decide (Guard name = e)) as [<-|Hne]; [by eapply Hg|].
      rewrite Ho by done. by eapply i_guard.
    + intros n pid u. rewrite Ho by (by apply not_eq_sym). by left.
  - intros t' Ht. apply rely_dirs.
    + intros name Hin. apply Ho. intros <-. destruct (Hl _ eq_refl). congruence.
    + intros e' Hme Hs. apply Ho. intros ->. by eapply Hm.
Qed.
Lemma mine_other t t' h e : mine t h e -> mine t' h e -> t = t'.
Proof. intros (? & ? & ? & -> & Hu) (? & ? & ? & [=] & Hu'). subst. congruence. Qed.
Lemma Inv_robbed b h : Inv h -> Inv (set_robbed b h).
Proof. intros [Ow To Un Id Di Bo Dr Gu Lo Ib St Pi]. by split. Qed.
Lemma rely_robbed b t h h' : rely t h h' -> rely t h (set_robbed b h').
Proof. intros [In Mi Dr Ob Ne Pr Ov]. by split. Qed.

(** The calls on one directory entry. *)
Lemma set_entry_ok h t e (d : gmap entry LeaseDir) :
  Inv h -> mine t h e -> (forall e', e' <> e -> d !! e' = h_dirs h !! e') ->
  Inv (set_dirs d h) /\ forall t', t' <> t -> rely t' h (set_dirs d h).
Proof.
  intros Hi Hm Ho. apply (entry_ok h t e); [done|done|..].
  - intros name ->. by destruct Hm as (? & ? & ? & [=] & _).
  - intros name t' ->. by destruct Hm as (? & ? & ? & [=] & _).
  - intros t' Ht Hm' _. apply Ht. by eapply mine_other.
  - intros n pid u ->. by destruct Hm as (? & ? & ? & [=] & _).
Qed.
Lemma insert_other (d : gmap entry LeaseDir) e x e' : e' <> e -> <[e := x]> d !! e' = d !! e'.
Proof. intros Hn. by rewrite lookup_insert_ne. Qed.
Lemma delete_other (d : gmap entry LeaseDir) e e' : e' <> e -> delete e d !! e' = d !! e'.
Proof. intros Hn. by rewrite lookup_delete_ne. Qed.

Lemma remove_ok h t e r h' :
  Inv h -> remove_entry None e h = (r, h') -> h_robbed h' = false ->
  (forall name, e = Lease name -> lock_extension name = false) ->
  (forall t', t' <> t -> mine t' h e -> is_stale_name (entry_text e) = false -> False) ->
  Inv h' /\ forall t', t' <> t -> rely t' h h'.
Proof.
  unfold remove_entry. intros Hi Hr Hrob Hl Hm. destruct (h_dirs h !! e) as [d|] eqn:Ed; injection Hr as <- <-; [|by split].
  assert (Inv (set_dirs (delete e (h_dirs h)) h) /\ forall t', t' <> t -> rely t' h (set_dirs (delete e (h_dirs h)) h)) as [Hinv Hrely].
  - assert (forall name t', e = Guard name -> h_inside h !! name = Some t' -> running h (fst t') = true -> False) as Hg.
    { intros name t' -> Hin Hrun. cbn [h_robbed set_robbed] in Hrob. apply orb_false_iff in Hrob as [_ Hocc].
      unfold occupied in Hocc. rewrite Hin, Hrun in Hocc. by rewrite bool_decide_eq_false_2 in Hocc. }
    split.
    + apply Inv_dirs; [done|..].
      * intros id o Ho Hh. apply delete_other. intros <-. pose proof (i_dir _ Hi id o Ho) as Hd. by rewrite (Hl _ eq_refl) in Hd.
      * intros name t' Hin Hrun. rewrite delete_other by (intros <-; by eapply Hg). by eapply i_guard.
      * intros n pid u [x Hx]. left. apply lookup_delete_Some in Hx as [_ Hx]. by eexists.
    + intros t' Ht. apply rely_dirs.
      * intros name Hin. apply delete_other. intros <-. pose proof (i_lock _ Hi _ _ Hin) as Hd. by rewrite (Hl _ eq_refl) in Hd.
      * intros e' Hme Hs. apply delete_other. intros ->. by eapply Hm.
  - split; [by apply Inv_robbed|]. intros t' Ht. by apply rely_robbed, Hrely.
Qed.
Lemma unheld_empty h name : Inv h -> (forall d b, h_dirs h !! Lease name = Some d -> ld_owner d = Some b -> False) -> unheld h name.
Proof. intros Hi Hn id o Ho <- Hh. destruct (i_owned _ Hi id o Ho Hh) as (d & b & Hd & Hb & _). by eapply Hn. Qed.
Lemma move_ok h t a b r h' :
  Inv h -> allowed t (MoveDir a b) h -> move_entry a b h = (r, h') -> Inv h' /\ forall t', t' <> t -> rely t' h h'.
Proof.
  unfold move_entry. intros Hi Ha Hr. destruct (h_dirs h !! a) as [d|] eqn:Ed; [|injection Hr as <- <-; by split].
  assert ((exists d' m, h_dirs h !! b = Some (mkLeaseDir (Some d') m)) /\ h' = h \/
          (forall x y, h_dirs h !! b = Some x -> ld_owner x = Some y -> False) /\ h' = set_dirs (<[b := d]> (delete a (h_dirs h))) h) as Hcase.
  { destruct (h_dirs h !! b) as [[[x|] m]|] eqn:Eb; injection Hr as _ <-; [left|right..]; split; try done; [by eexists _, _|].
    intros ? ? [= <-]. done. }
  destruct Hcase as [[_ ->]|[Hempty ->]]; [by split|]. clear Hr.
  destruct Ha as [(name & -> & Hm & Hin)|(name & pid & u & -> & -> & Hin & Hun & Hdr)].
  - assert (forall e, e <> a -> e <> Lease name -> <[Lease name := d]> (delete a (h_dirs h)) !! e = h_dirs h !! e) as Hoth.
    { intros e Ha Hb. by rewrite insert_other, delete_other. }
    assert (forall n, a <> Lease n) as Hna by (destruct Hm as (? & ? & ? & -> & _); done).
    assert (forall n, a <> Guard n) as Hng by (destruct Hm as (? & ? & ? & -> & _); done).
    pose proof (unheld_empty h name Hi Hempty) as Hun. split.
    + apply Inv_dirs; [done|..].
      * intros id o Ho Hh. apply Hoth; [by apply not_eq_sym|]. intros [= Hd]. by eapply Hun.
      * intros n t' Hn Hrun. rewrite Hoth by (done || by apply not_eq_sym). by eapply i_guard.
      * intros n pid u. rewrite Hoth; [by left| |done]. by destruct Hm as (? & ? & ? & -> & _).
    + intros t' Ht. apply rely_dirs.
      * intros n Hn. apply Hoth; [by apply not_eq_sym|]. intros [= ->]. congruence.
      * intros e Hme _. apply Hoth; [|by destruct Hme as (? & ? & ? & -> & _)]. intros ->. apply Ht. by eapply mine_other.
  - assert (forall e, e <> Lease name -> e <> Stale name pid u -> <[Stale name pid u := d]> (delete (Lease name) (h_dirs h)) !! e = h_dirs h !! e) as Hoth.
    { intros e Ha Hb. by rewrite insert_other, delete_other. }
    split.
    + apply Inv_dirs; [done|..].
      * intros id o Ho Hh. apply Hoth; [|done]. intros [= Hd]. by eapply Hun.
      * intros n t' Hn Hrun. rewrite Hoth by done. by eapply i_guard.
      * intros n pid' u' Hx. destruct (decide (Stale n pid' u' = Stale name pid u)) as [[= -> -> ->]|Hne]; [right; by eexists|].
        rewrite Hoth in Hx by done. by left.
    + intros t' Ht. apply rely_dirs.
      * intros n Hn. apply Hoth; [|done]. intros [= ->]. congruence.
      * intros e Hme _. by apply Hoth; destruct Hme as (? & ? & ? & -> & _).
Qed.

(** ** The guard *)
Lemma enter_ok h t name m :
  Inv h -> running h (fst t) = true -> lock_extension name = true -> h_dirs h !! Guard name = None ->
  let h' := set_inside (<[name := t]> (h_inside h)) (set_dirs (<[Guard name := m]> (h_dirs h)) h) in
  Inv h' /\ forall t', t' <> t -> running h (fst t') = true -> rely t' h h'.
Proof.
  intros Hi Hme Hl Hn h'. split.
  - destruct Hi as [Ow To Un Id Di Bo Dr Gu Lo Ib St Pi]. split; try done.
    + intros id o Ho Hh. destruct (Ow id o Ho Hh) as (x & b & Hx & Hb & Hnm). exists x, b. split_and!; [|done..].
      cbn. by rewrite insert_other.
    + intros n t'. cbn. intros Hin Hr. destruct (decide (n = name)) as [-> |Hne].
      * rewrite lookup_insert_eq. by eexists.
      * rewrite lookup_insert_ne in Hin by done. rewrite insert_other by congruence. by eapply Gu.
    + intros n t'. cbn. destruct (decide (n = name)) as [-> |Hne]; [done|]. rewrite lookup_insert_ne by done. by apply Lo.
    + intros n t'. cbn. destruct (decide (n = name)) as [-> |Hne]; [|rewrite lookup_insert_ne by done; by apply Ib].
      rewrite lookup_insert_eq. intros [= <-]. unfold running in Hme. apply bool_decide_eq_true in Hme. by eexists.
    + intros n pid u. cbn. rewrite insert_other by done. by eapply St.
  - intros t' Ht Hr. split; cbn [h_dirs h_draws h_objs h_inside h_overrun set_dirs set_inside h'].
    + intros n Hin. destruct (decide (n = name)) as [-> |Hne].
      { destruct (i_guard _ Hi _ _ Hin Hr) as [x Hx]. congruence. }
      rewrite lookup_insert_ne, insert_other by done. done.
    + intros e (? & ? & ? & -> & _) _. by rewrite insert_other.
    + done.
    + intros id o Ho. exists o. split_and!; auto.
    + intros id o Ho Hno. congruence.
    + by left.
    + done.
Qed.
Lemma leave_ok h t name (d : gmap entry LeaseDir) :
  Inv h -> h_inside h !! name = Some t -> (forall e, e <> Guard name -> d !! e = h_dirs h !! e) ->
  let h' := leave_inside t name (set_dirs d h) in
  Inv h' /\ forall t', t' <> t -> rely t' h h'.
Proof.
  intros Hi Hin Hd h'. assert (h' = set_inside (delete name (h_inside h)) (set_dirs d h)) as ->.
  { unfold h', leave_inside. cbn [h_inside set_dirs]. by rewrite bool_decide_eq_true_2. }
  split.
  - destruct Hi as [Ow To Un Id Di Bo Dr Gu Lo Ib St Pi]. split; try done.
    + intros id o Ho Hh. destruct (Ow id o Ho Hh) as (x & b & Hx & Hb & Hnm). exists x, b. split_and!; [|done..].
      cbn. by rewrite Hd.
    + intros n t'. cbn. intros Hn Hr. apply lookup_delete_Some in Hn as [Hne Hn]. rewrite Hd by congruence. by eapply Gu.
    + intros n t'. cbn. intros Hn. apply lookup_delete_Some in Hn as [Hne Hn]. by eapply Lo.
    + intros n t'. cbn. intros Hn. apply lookup_delete_Some in Hn as [Hne Hn]. by eapply Ib.
    + intros n pid u. cbn. rewrite Hd by done. by eapply St.
  - intros t' Ht. split; cbn [h_dirs h_draws h_objs h_inside h_overrun set_dirs set_inside].
    + intros n Hn. assert (n <> name) as Hne by (intros ->; congruence). rewrite lookup_delete_ne, Hd by done. done.
    + intros e (? & ? & ? & -> & _) _. by rewrite Hd.
    + done.
    + intros id o Ho. exists o. split_and!; auto.
    + intros id o Ho Hno. congruence.
    + by left.
    + done.
Qed.

(** ** Memory *)
Definition set_overrun (b : bool) (h : Host) : Host :=
  mkHost (h_dirs h) (h_clock h) (h_draws h) (h_objs h) (h_procs h) (h_inside h) (h_robbed h) (h_overrun h || b).
Lemma set_overrun_false h : set_overrun false h = h.
Proof. destruct h. unfold set_overrun. cbn. by rewrite orb_false_r. Qed.
(** A change of one lease that keeps what it is and who counts on it. *)
Record gentle (h : Host) (t : task) (id : nat) (b : bool) (f : LeaseObj -> LeaseObj) : Prop := {
  ge_lease o : ob_lease (f o) = ob_lease o;
  ge_proc o : ob_proc (f o) = ob_proc o;
  ge_released o : ob_released o = true -> ob_released (f o) = true;
  ge_drained o : ob_drained o = true -> ob_drained (f o) = true;
  ge_order o : h_objs h !! id = Some o -> (ob_drained o = true -> ob_released o = true) -> ob_drained (f o) = true -> ob_released (f o) = true;
  ge_flights o t' : h_objs h !! id = Some o -> t' <> t -> t' ∈ ob_flights o ->
    t' ∈ ob_flights (f o) /\ (h_overrun h || b = false -> ob_drained (f o) = ob_drained o)
}.
Lemma alter_lookup h id f i o' :
  h_objs (alter_obj f id h) !! i = Some o' ->
  exists o, h_objs h !! i = Some o /\ (i = id /\ o' = f o \/ i <> id /\ o' = o).
Proof.
  unfold alter_obj. cbn [h_objs set_objs]. destruct (h_objs h !! id) as [x|] eqn:E.
  - intros Hi. destruct (decide (i = id)) as [-> |Hne].
    + rewrite list_lookup_insert_eq in Hi by (by eapply lookup_lt_Some). simplify_eq. exists x. auto.
    + rewrite list_lookup_insert_ne in Hi by done. exists o'. auto.
  - intros Hi. exists o'. split; [done|]. right. split; [|done]. intros ->. congruence.
Qed.
Lemma alter_lookup_mono h id f i o :
  h_objs h !! i = Some o -> h_objs (alter_obj f id h) !! i = Some (if decide (i = id) then f o else o).
Proof.
  intros Hi. unfold alter_obj. cbn [h_objs set_objs]. destruct (h_objs h !! id) as [x|] eqn:E; case_decide as Hd; subst.
  - simplify_eq. by rewrite list_lookup_insert_eq by (by eapply lookup_lt_Some).
  - by rewrite list_lookup_insert_ne.
  - congruence.
  - done.
Qed.
Lemma alter_ok h t id b f :
  Inv h -> gentle h t id b f ->
  let h' := alter_obj f id (set_overrun b h) in Inv h' /\ forall t', t' <> t -> rely t' h h'.
Proof.
  intros Hi [Le Pr Re Dn Or Fl] h'.
  assert (forall i o', h_objs h' !! i = Some o' -> exists o, h_objs h !! i = Some o /\ ob_lease o' = ob_lease o /\ ob_proc o' = ob_proc o /\
    (ob_drained o' = false -> ob_drained o = false) /\ (ob_drained o' = true -> ob_released o' = true)) as Hback.
  { intros i o' Ho'. apply alter_lookup in Ho' as (o & Ho & [[-> ->]|[_ ->]]); cbn [h_objs set_overrun] in Ho; exists o.
    - split_and!; auto; [|by apply Or; [|by eapply i_drained]]. intros Hf. apply not_true_is_false. intros Ht. rewrite Dn in Hf by done. done.
    - split_and!; auto. by eapply i_drained. }
  split.
  - destruct Hi as [Ow To Un Id Di Bo Dr Gu Lo Ib St Pi]. split; try done.
    + intros i o' Ho' [Hrun Hdr]. apply Hback in Ho' as (o & Ho & El & Ep & Ed & _). rewrite El, Ep.
      apply (Ow i o Ho). split; [rewrite Ep in Hrun; exact Hrun|by apply Ed].
    + intros i o' Ho'. apply Hback in Ho' as (o & Ho & El & _). rewrite El. by eapply To.
    + intros i j o o' Ho Ho' E. apply Hback in Ho as (x & Hx & El & _), Ho' as (y & Hy & El' & _). rewrite El, El' in E. by eapply Un.
    + intros i o' Ho'. apply Hback in Ho' as (o & Ho & El & _). rewrite El. by apply Id.
    + intros i o' Ho'. apply Hback in Ho' as (o & Ho & El & _). rewrite El. by eapply Di.
    + intros i o' Ho'. apply Hback in Ho' as (o & Ho & _ & Ep & _). rewrite Ep. by eapply Bo.
    + intros i o' Ho'. by apply Hback in Ho' as (o & Ho & _ & _ & _ & ?).
  - intros t' Ht. split; try done.
    + intros i o Ho. pose proof (alter_lookup_mono (set_overrun b h) id f i o Ho) as Hl. case_decide as Hd.
      * subst. exists (f o). split_and!; [done|apply Le|apply Pr|apply Re|apply Dn|]. intros Hf. by apply Fl.
      * exists o. split_and!; auto.
    + intros i o' Ho' Hn. apply Hback in Ho' as (o & Ho & _). congruence.
    + by left.
    + cbn. by intros [? _]%orb_false_iff.
Qed.
Lemma new_lease_ok h t session opened name token :
  Inv h -> running h (fst t) = true -> allowed t (NewLease session opened name token) h ->
  let h' := set_objs (h_objs h ++ [mkObj (mkLease (List.length (h_objs h)) session opened name token) (fst t) false ∅ false]) h in
  Inv h' /\ forall t', t' <> t -> rely t' h h'.
Proof.
  intros Hi Hrun (Hin & Hdraw & Hnames & Hfresh) h'.
  assert (forall i o, h_objs h' !! i = Some o -> h_objs h !! i = Some o \/
    h_objs h !! i = None /\ i = List.length (h_objs h) /\ o = mkObj (mkLease (List.length (h_objs h)) session opened name token) (fst t) false ∅ false) as Hback.
  { intros i o Ho. unfold h' in Ho. cbn [h_objs set_objs] in Ho. apply lookup_app_Some in Ho as [Ho|[Hlen Ho]]; [by left|right].
    apply list_lookup_singleton_Some in Ho as [Hz <-]. split_and!; [by apply lookup_ge_None_2|lia|done]. }
  split.
  - pose proof Hi as [Ow To Un Id Di Bo Dr Gu Lo Ib St Pi]. split; try done.
    + intros i o Ho Hh. apply Hback in Ho as [Ho|(_ & -> & ->)]; [by eapply Ow|done].
    + intros i o Ho. apply Hback in Ho as [Ho|(_ & -> & ->)]; [by eapply To|by eexists].
    + intros i j o o' Ho Ho' E. apply Hback in Ho as [Ho|(_ & -> & ->)], Ho' as [Ho'|(_ & -> & ->)]; [by eapply Un| | |done].
      * by destruct (Hfresh i o Ho).
      * by destruct (Hfresh j o' Ho').
    + intros i o Ho. apply Hback in Ho as [Ho|(_ & -> & ->)]; [by apply Id|done].
    + intros i o Ho. apply Hback in Ho as [Ho|(_ & -> & ->)]; [by eapply Di|by eapply Lo].
    + intros i o Ho. apply Hback in Ho as [Ho|(_ & -> & ->)]; [by eapply Bo|].
      unfold running in Hrun. apply bool_decide_eq_true in Hrun. by eexists.
    + intros i o Ho. apply Hback in Ho as [Ho|(_ & -> & ->)]; [by eapply Dr|done].
  - intros t' Ht. split; try done.
    + intros i o Ho. exists o. split_and!; auto. unfold h'. cbn. by apply lookup_app_l_Some.
    + intros i o Ho Hn. apply Hback in Ho as [Ho|(_ & -> & ->)]; [congruence|]. cbn. split; congruence.
    + by left.
Qed.
Lemma draw_ok h t :
  Inv h ->
  let h' := mkHost (h_dirs h) (h_clock h) (h_draws h ++ [t]) (h_objs h) (h_procs h) (h_inside h) (h_robbed h) (h_overrun h) in
  Inv h' /\ forall t', rely t' h h'.
Proof.
  intros Hi h'. split.
  - destruct Hi as [Ow To Un Id Di Bo Dr Gu Lo Ib St Pi]. split; try done.
    + intros i o Ho. destruct (To i o Ho) as [x Hx]. exists x. cbn. by apply lookup_app_l_Some.
    + intros n pid u Hd. destruct (St n pid u Hd) as [x Hx]. exists x. cbn. by apply lookup_app_l_Some.
  - intros t'. split; try done.
    + cbn. by eexists.
    + intros i o Ho. exists o. split_and!; auto.
    + intros i o Ho Hn. cbn in Ho. congruence.
    + by left.
Qed.

(** ** Every call *)
Lemma robbed_mono t op c h : h_robbed (exec t op c h).2 = false -> h_robbed h = false.
Proof.
  assert (forall t e, h_robbed (remove_entry t e h).2 = false -> h_robbed h = false) as Hrem.
  { intros t' e. unfold remove_entry. destruct (h_dirs h !! e); [|done]. cbn. by intros [? _]%orb_false_iff. }
  destruct op; cbn [exec]; try done; destruct c as [|k torn]; try done; repeat case_match; try done; try (by apply Hrem).
  - intros Hr. apply (Hrem (Some t) (Guard name)). match goal with E : remove_entry _ _ _ = _ |- _ => by rewrite E end.
  - unfold write_owner. by destruct (h_dirs h !! e).
  - unfold write_owner. by destruct (h_dirs h !! e).
  - unfold move_entry. by repeat case_match.
Qed.

Definition ok_step (t : task) (h h' : Host) : Prop :=
  Inv h' /\ forall t', t' <> t -> running h (fst t') = true -> rely t' h h'.
Lemma ok_same t h : Inv h -> ok_step t h h.
Proof. by split. Qed.
Lemma ok_all t h h' : Inv h' /\ (forall t', t' <> t -> rely t' h h') -> ok_step t h h'.
Proof. intros [Hi Hr]. by split; auto. Qed.
Lemma write_ok t h e b : Inv h -> mine t h e -> ok_step t h (write_owner e b h).2.
Proof.
  intros Hi Hm. unfold write_owner. destruct (h_dirs h !! e); [|by apply ok_same]. apply ok_all, (set_entry_ok h t e); [done..|].
  intros e' He. by apply insert_other.
Qed.
Lemma not_stale_mine t h e : (exists n pid u, e = Stale n pid u) -> mine t h e -> False.
Proof. by intros (? & ? & ? & ->) (? & ? & ? & [=] & _). Qed.

Lemma exec_ok t op c h :
  Inv h -> running h (fst t) = true -> allowed t op h -> h_robbed (exec t op c h).2 = false -> ok_step t h (exec t op c h).2.
Proof.
  intros Hi Hrun Ha Hrob. destruct op; cbn [exec snd] in *; try (by apply ok_same).
  - destruct c as [|k torn]; [|by apply ok_same]. destruct (h_dirs h !! Guard name) eqn:E; [by apply ok_same|].
    by apply enter_ok.
  - destruct c as [|k torn]; [|apply ok_all, (leave_ok h t name (h_dirs h)); done].
    unfold remove_entry in *. destruct (h_dirs h !! Guard name) eqn:E; cbn [snd] in *; apply ok_all.
    + destruct (leave_ok h t name (delete (Guard name) (h_dirs h)) Hi Ha) as [Hinv Hrel].
      { intros e He. by apply delete_other. }
      split; [exact (Inv_robbed _ _ Hinv)|]. intros t' Ht. exact (rely_robbed _ _ _ _ (Hrel t' Ht)).
    + by apply (leave_ok h t name (h_dirs h)).
  - destruct c as [|k torn]; [|by apply ok_same]. apply ok_all.
    apply (remove_ok h t (Guard name) (remove_entry None (Guard name) h).1); [done|apply surjective_pairing|done..|].
    intros t' _ (? & ? & ? & [=] & _).
  - destruct c as [|k torn]; [|by apply ok_same]. destruct (h_dirs h !! e); [by apply ok_same|]. apply ok_all.
    apply (set_entry_ok h t e); [done..|]. intros e' He. by apply insert_other.
  - destruct c as [|k [torn|]]; [by apply write_ok..|by apply ok_same].
  - destruct c as [|k torn]; [|by apply ok_same]. apply ok_all. eapply move_ok; [done|done|apply surjective_pairing].
  - destruct c as [|k torn]; [|by apply ok_same]. apply ok_all.
    apply (remove_ok h t e (remove_entry None e h).1); [done|apply surjective_pairing|done|..].
    + intros name ->. destruct Ha as [(? & ? & ? & [=] & _)|[(? & ? & ? & [=])|[Hl _]]]. exact Hl.
    + intros t' Ht Hm Hs. destruct Ha as [Hm'|[Hst|[_ Hst]]]; [apply Ht; by eapply mine_other|by eapply not_stale_mine|congruence].
  - apply ok_all. destruct (draw_ok h t Hi) as [? ?]. by split; auto.
  - by apply ok_all, new_lease_ok.
  - apply ok_all. pose proof (alter_ok h t id false (fun o => mkObj (ob_lease o) (ob_proc o) true (ob_flights o) (ob_drained o)) Hi) as Hk.
    rewrite set_overrun_false in Hk. apply Hk. by split.
  - apply ok_all. pose proof (alter_ok h t id false (fun o => mkObj (ob_lease o) (ob_proc o) (ob_released o) (ob_flights o ∪ {[t]}) (ob_drained o)) Hi) as Hk.
    rewrite set_overrun_false in Hk. apply Hk. split; try done. intros o t' _ _ Hf. cbn. split; [set_solver|done].
  - apply ok_all. pose proof (alter_ok h t id false (fun o => mkObj (ob_lease o) (ob_proc o) (ob_released o) (ob_flights o ∖ {[t]}) (ob_drained o)) Hi) as Hk.
    rewrite set_overrun_false in Hk. apply Hk. split; try done. intros o t' _ Ht Hf. cbn. split; [set_solver|done].
  - apply ok_all. apply (alter_ok h t id _ (fun o => mkObj (ob_lease o) (ob_proc o) (ob_released o) (ob_flights o) true) Hi). split; try done.
    + intros o Ho _ _. cbn. cbn [allowed] in Ha. unfold obj_released in Ha. by rewrite Ho in Ha.
    + intros o t' Ho _ Hf. split; [done|]. intros [_ Hb]%orb_false_iff. apply negb_false_iff, bool_decide_eq_true in Hb.
      unfold obj_flights in Hb. rewrite Ho in Hb. set_solver.
Qed.

(** ** Programs *)
Section Wp.
Context (t : task).
(** From [h], whatever the others do in between, each call of the program is
    allowed and its result satisfies [Q]. *)
Fixpoint wp {A} (p : proc A) (Q : A -> Host -> Prop) (h : Host) : Prop :=
  match p with
  | Ret a => Q a h
  | Spin => True
  | Call op k =>
      forall h1, rely t h h1 -> Inv h1 -> running h1 (fst t) = true ->
        allowed t op h1 /\
        forall c, Inv (exec t op c h1).2 -> wp (k (exec t op c h1).1) Q (exec t op c h1).2
  end.
Lemma wp_seq {A B} (p : proc A) (f : A -> proc B) Q h : wp p (fun a => wp (f a) Q) h -> wp (pbind p f) Q h.
Proof.
  revert h. induction p as [a|op k IH|]; intros h Hp; [done| |done]. intros h1 Hr Hi Hl.
  destruct (Hp h1 Hr Hi Hl) as [Ha Hk]. split; [done|]. intros c Hi'. apply IH, Hk, Hi'.
Qed.
Lemma wp_call {A} op (k : resp op -> proc A) Q h :
  (forall h1, rely t h h1 -> Inv h1 -> running h1 (fst t) = true ->
     allowed t op h1 /\ forall c, Inv (exec t op c h1).2 -> wp (k (exec t op c h1).1) Q (exec t op c h1).2) ->
  wp (pbind (call op) k) Q h.
Proof. done. Qed.
Lemma wp_conseq {A} (p : proc A) (Q Q' : A -> Host -> Prop) h :
  (forall a h, Q a h -> Q' a h) -> wp p Q h -> wp p Q' h.
Proof.
  intros Hq. revert h. induction p as [a|op k IH|]; intros h Hp; [by apply Hq| |done]. intros h1 Hr Hi Hl.
  destruct (Hp h1 Hr Hi Hl) as [Ha Hk]. split; [done|]. intros c Hi'. apply IH, Hk, Hi'.
Qed.
(** What holds whatever the others do. *)
Definition steady (P : Host -> Prop) : Prop := forall h h1, P h -> rely t h h1 -> P h1.
Lemma steady_and P P' : steady P -> steady P' -> steady (fun h => P h /\ P' h).
Proof. intros H1' H2' h h1 [Hp Hp'] Hr. split; eauto. Qed.
Lemma steady_true : steady (fun _ => True).
Proof. done. Qed.
End Wp.
End Logic.
