(* ===== verification/LeaseProofs.v ===== *)
(** * Session leases: every function keeps to the rules

    The weakest preconditions of the functions of [Lease]: each of their calls
    is allowed where it is made, whatever the other threads did before it. *)
From S2P Require Import Prelude RustStr Json Time World LedgerReplay Ledger Lease LeaseHost LeaseLogic.
#[local] Open Scope string_scope.
#[local] Open Scope Z_scope.

(** What the code relies on of the machine: UUIDs do not repeat and hold no
    dot, a pid is a [u32], a digest is not empty. *)
Class MachineOk `{LedgerEnv} `{Machine} := {
  uuid_text_inj u u' : uuid_text u = uuid_text u' -> u = u';
  uuid_simple_plain u : contains_char "." (uuid_simple u) = false;
  pid_u32 p : is_u32 (pid_of p);
  sha256_long s : sha256 s <> ""
}.

(** ** The owner file is read back *)
#[export] Instance owner_codec_ok : CodecOk LeaseOwner.
Proof.
  refine (Build_CodecOk _ _ (fun o => is_u32 (lo_version o) /\ is_u32 (lo_pid o)) _ _ _).
  - intros [ve tk pid st ac se cr] [Hv Hp]. cbn [lo_version lo_pid] in *.
    cbn [decode encode owner_codec object_members mbind option_bind lo_version lo_token lo_pid lo_process_start_id
      lo_active_session_id lo_session_path lo_created_at].
    destruct st, ac; cbn -[decode_u32]; by rewrite !decode_u32_number.
  - intros [ve tk pid st ac se cr] [Hv Hp]. cbn [lo_version lo_pid] in *.
    destruct st, ac; cbn; by rewrite !u32_representable.
  - intros v o Hv. cbn [decode owner_codec] in Hv. inv_decode Hv. split; cbn; field_sound.
Defined.

(** ** Names *)
Section Names.
Context `{Env} `{LedgerEnv} `{Machine} `{!MachineOk}.

Lemma hex_dotless s : contains_char "." (hex s) = false.
Proof.
  assert (forall c, Ascii.eqb "." (hex_digit (code c / 16)) || Ascii.eqb "." (hex_digit (code c mod 16)) = false) as Hc.
  { intros [[] [] [] [] [] [] [] []]; vm_compute; reflexivity. }
  induction s as [|c s IH]; [done|]. cbn [hex contains_char]. rewrite IH, orb_false_r. exact (Hc c).
Qed.
Lemma digits_plain s : str_forall is_ascii_digit s = true -> contains_char "." s = false.
Proof.
  induction s as [|c s IH]; [done|]. cbn [str_forall contains_char]. intros [Hc Hs]%andb_true_iff. rewrite (IH Hs), orb_false_r.
  destruct (Ascii.eqb_spec "." c) as [<-|]; [by vm_compute in Hc|done].
Qed.
Lemma show_plain n : contains_char "." (show_Z n) = false.
Proof. apply digits_plain, dec_width_digits. Qed.
Lemma lock_rsplit key : rsplit_once "." (key ++ ".lock") = Some (key, "lock").
Proof. by apply rsplit_once_app. Qed.
Lemma lease_name_lock v sp : lock_extension (lease_directory v sp) = true.
Proof.
  unfold lock_extension, lease_directory. rewrite lock_rsplit.
  pose proof (sha256_long (path_display (canonical_session_path v sp))) as Hn. by destruct (sha256 _) as [|c s].
Qed.
(** A pattern that begins with a dot is not found across a part without one. *)
Lemma split_skip c p key s :
  contains_char c key = false -> split_once (String c p) s = None -> split_once (String c p) (key ++ s) = None.
Proof.
  induction key as [|d key IH]; [done|]. cbn [contains_char]. intros [Hd Hk]%orb_false_iff Hs.
  cbn [String.append split_once strip_prefix]. rewrite Hd, IH by done. done.
Qed.
Lemma split_here p d s : strip_prefix p (String d s) = None -> split_once p s = None -> split_once p (String d s) = None.
Proof. intros Hp Hs. cbn [split_once]. by rewrite Hp, Hs. Qed.
Lemma candidate_not_stale v sp pid u : is_stale_name (entry_text (Candidate (lease_directory v sp) pid u)) = false.
Proof.
  unfold is_stale_name, contains, entry_text, stem_of, lease_directory. rewrite lock_rsplit.
  assert (forall key, contains_char "." key = false ->
    match split_once ".lock.stale-" (key ++ ".lock.candidate-" ++ show_Z pid ++ "-" ++ uuid_simple u) with Some _ => true | None => false end = false) as Hk.
  { intros key Hk. assert (split_once ".lock.stale-" (show_Z pid ++ "-" ++ uuid_simple u) = None) as Hr.
    - apply split_skip; [apply show_plain|]. apply split_here; [done|]. rewrite <- (str_app_nil_r (uuid_simple u)).
      apply split_skip; [apply uuid_simple_plain|done].
    - rewrite split_skip; [done|done|]. revert Hr. generalize (show_Z pid ++ "-" ++ uuid_simple u). intros rest Hr.
      apply (split_here ".lock.stale-" "." ("lock" ++ String "." ("candidate-" ++ rest))); [done|].
      apply split_skip; [done|]. apply split_here; [done|]. by apply split_skip. }
  destruct (is_empty (hex _)) eqn:E; [|apply Hk, hex_dotless].
  assert (hex (sha256 (path_display (canonical_session_path v sp))) = "") as -> by (by destruct (hex _)).
  exfalso. pose proof (sha256_long (path_display (canonical_session_path v sp))) as Hn. by destruct (sha256 _).
Qed.
End Names.

Section Functions.
Context `{Env} `{!EnvOk} `{LedgerEnv} `{Machine} `{!MachineOk} (v : View) (fuel : nat) (t : task).
Abbreviation me := (fst t).

(** ** Facts the others leave alone *)
Definition inside (name : string) (h : Host) : Prop := h_inside h !! name = Some t.
Definition drew (u : nat) (h : Host) : Prop := h_draws h !! u = Some t.
Definition unused (token : nat) (h : Host) : Prop := forall id o, h_objs h !! id = Some o -> sl_token (ob_lease o) <> token.
Lemma steady_inside name : steady t (inside name).
Proof. intros h h1 Hi Hr. by apply (rg_inside _ _ _ Hr). Qed.
Lemma steady_drew u : steady t (drew u).
Proof. intros h h1 Hd Hr. eapply draws_mono; [apply (rg_draws _ _ _ Hr)|done]. Qed.
Lemma steady_unused token : steady t (fun h => drew token h /\ unused token h).
Proof.
  intros h h1 [Hd Hu] Hr. split; [by eapply steady_drew|]. intros id o1 Ho1. destruct (h_objs h !! id) as [o|] eqn:E.
  - destruct (rg_objs _ _ _ Hr id o E) as (o' & Ho' & El & _). assert (o' = o1) as -> by congruence. rewrite El. by eapply Hu.
  - intros Ht. destruct (rg_new _ _ _ Hr id o1 Ho1 E) as [_ Hn]. rewrite Ht in Hn. done.
Qed.
Lemma steady_dir name d : steady t (fun h => inside name h /\ h_dirs h !! Lease name = d).
Proof. intros h h1 [Hi Hd] Hr. destruct (rg_inside _ _ _ Hr name Hi) as [Hi' E]. split; [done|congruence]. Qed.
Lemma steady_unheld name : steady t (fun h => inside name h /\ unheld h name).
Proof.
  intros h h1 [Hi Hu] Hr. split; [by eapply steady_inside|]. intros id o1 Ho1 Hd [Hrun Hdr].
  destruct (h_objs h !! id) as [o|] eqn:E.
  - destruct (rg_objs _ _ _ Hr id o E) as (o' & Ho' & El & Ep & _ & Hdm & _). assert (o' = o1) as -> by congruence.
    apply (Hu id o E); [congruence|]. split.
    + destruct (rg_procs _ _ _ Hr _ Hrun) as [Hp|Hno]; [congruence|]. by destruct (Hno id o E).
    + apply not_true_is_false. intros Ht. rewrite Hdm in Hdr by done. done.
  - destruct (rg_new _ _ _ Hr id o1 Ho1 E) as [Hn _]. by rewrite Hd in Hn.
Qed.
Lemma steady_candidate e d : is_stale_name (entry_text e) = false -> steady t (fun h => mine t h e /\ h_dirs h !! e = d).
Proof.
  intros Hs h h1 [Hm Hd] Hr. split; [|by rewrite (rg_mine _ _ _ Hr e Hm Hs)].
  destruct Hm as (n & pid & u & -> & Hu). exists n, pid, u. split; [done|]. by eapply steady_drew.
Qed.

(** ** Calls that do not disturb the thread itself *)
Lemma wp_mild {A} (P : Host -> Prop) op (k : resp op -> proc A) Q h :
  steady t P -> P h -> (forall h1, P h1 -> allowed t op h1) ->
  (forall c h1, P h1 -> Inv h1 -> rely t h1 (exec t op c h1).2) ->
  (forall c h1, P h1 -> Inv h1 -> running h1 me = true -> P (exec t op c h1).2 -> Inv (exec t op c h1).2 ->
     wp t (k (exec t op c h1).1) Q (exec t op c h1).2) ->
  wp t (pbind (call op) k) Q h.
Proof.
  intros Hs Hp Ha Hr Hk. apply wp_call. intros h1 H1' Hi Hrun. assert (P h1) as Hp1 by (by eapply Hs). split; [by apply Ha|].
  intros c Hi'. apply Hk; auto. eapply Hs; [done|]. by apply Hr.
Qed.
(** Calls that change nothing. *)
Definition quiet_op (op : Op) : bool :=
  match op with
  | EnsureRoot | GuardMtime _ | ReadOwner _ | ListRoot | IsAlive _ | StartId _ | Now | Sleep | LoadReleased _ | LoadFlights _ | FlushCaches _ => true
  | _ => false
  end.
Lemma wp_quiet {A} (P : Host -> Prop) op (k : resp op -> proc A) Q h :
  quiet_op op = true -> steady t P -> P h ->
  (forall c h1, P h1 -> Inv h1 -> running h1 me = true -> wp t (k (exec t op c h1).1) Q h1) ->
  wp t (pbind (call op) k) Q h.
Proof.
  intros Hq Hs Hp Hk. assert (forall c h1, (exec t op c h1).2 = h1) as He by (intros c h1; by destruct op).
  apply (wp_mild P); [done|done| | |].
  - by destruct op.
  - intros c h1 _ _. rewrite He. reflexivity.
  - intros c h1 Hp1 Hi Hrun _ _. rewrite He. by apply Hk.
Qed.
Lemma own_draw c h : Inv h -> rely t h (exec t NewUuid c h).2.
Proof. intros Hi. by apply draw_ok. Qed.
Lemma own_remove e h : (forall n, e <> Lease n) -> (forall n p u, e <> Candidate n p u) -> rely t h (remove_entry None e h).2.
Proof.
  intros Hl Hc. unfold remove_entry. destruct (h_dirs h !! e); [|reflexivity]. apply rely_robbed, rely_dirs.
  - intros n _. by apply delete_other.
  - intros e' (n & p & u & -> & _) _. by apply delete_other.
Qed.
Lemma own_enter name c h : Inv h -> rely t h (exec t (EnterGuard name) c h).2.
Proof.
  intros Hi. cbn [exec]. destruct c as [|k torn]; [|reflexivity]. destruct (h_dirs h !! Guard name); [reflexivity|].
  split; cbn [snd h_dirs h_draws h_objs h_inside h_overrun set_dirs set_inside]; try done.
  - intros n Hin. rewrite insert_other by done. split; [|done]. destruct (decide (n = name)) as [-> |Hne]; [by rewrite lookup_insert_eq|].
    by rewrite lookup_insert_ne.
  - intros e (? & ? & ? & -> & _) _. by rewrite insert_other.
  - intros id o Ho. exists o. split_and!; auto.
  - intros id o Ho Hno. congruence.
  - by left.
Qed.

(** ** The owner *)
Definition owner_read (h : Host) (name : string) (r : lease_error + option LeaseOwner) : Prop :=
  match r with
  | inl _ => True
  | inr None => forall d b, h_dirs h !! Lease name = Some d -> ld_owner d = Some b -> False
  | inr (Some o) => exists d b doc, h_dirs h !! Lease name = Some d /\ ld_owner d = Some b /\ from_slice b = inr doc /\ decode doc = Some o
  end.
Lemma wp_read_owner (P : Host -> Prop) name Q h :
  steady t P -> P h -> (forall r h1, P h1 -> Inv h1 -> running h1 me = true -> owner_read h1 name r -> Q r h1) ->
  wp t (read_owner name) Q h.
Proof.
  intros Hs Hp Hq. unfold read_owner. apply (wp_quiet P); [done..|]. intros c h1 Hp1 Hi Hrun. cbn [exec fst].
  destruct c as [|k torn].
  - destruct (h_dirs h1 !! Lease name ≫= ld_owner) as [b|] eqn:E; cbn [io_fail].
    + apply bind_Some in E as (d & Hd & Hb). destruct (from_slice b) as [msg|doc] eqn:Ef; [by apply Hq|].
      destruct (decode doc) as [o|] eqn:Ed; apply Hq; try done. by exists d, b, doc.
    + rewrite decide_True by done. apply Hq; [done..|]. intros d b Hd Hb. rewrite Hd in E. cbn in E. congruence.
  - cbn [io_fail os_error io_error_kind]. destruct (decide (k = NotFound)) as [-> |Hne].
    + rewrite decide_False by done. by apply Hq.
    + rewrite decide_False by done. by apply Hq.
Qed.
(** No live process is the owner [o] names. *)
Definition dead_owner (h : Host) (o : LeaseOwner) : Prop :=
  forall p, running h p = true -> pid_of p = lo_pid o -> lo_process_start_id o <> None /\ lo_process_start_id o <> start_of p.
Lemma process_at_None h pid p : process_at h pid = None -> running h p = true -> pid_of p <> pid.
Proof.
  unfold process_at. intros Hn%fmap_None Hr Hp. rewrite find_first_None in Hn. unfold running in Hr. apply bool_decide_eq_true in Hr.
  specialize (Hn (p, true)). cbn in Hn. rewrite Z.eqb_neq in Hn. apply Hn; [|done]. by apply elem_of_map_to_list.
Qed.
Lemma process_at_Some h pid p : process_at h pid = Some p -> running h p = true /\ pid_of p = pid.
Proof.
  unfold process_at. intros ([q a] & Hf & ->)%fmap_Some. apply find_first_Some in Hf as [Hin Hb]. cbn in *.
  apply andb_true_iff in Hb as [-> Hb%Z.eqb_eq]. apply elem_of_map_to_list in Hin. split; [|done]. by apply bool_decide_eq_true.
Qed.
Lemma wp_owner_alive (P : Host -> Prop) o Q h :
  steady t P -> P h ->
  (forall b h1, P h1 -> Inv h1 -> running h1 me = true -> (b = false -> dead_owner h1 o) -> Q b h1) -> wp t (owner_alive o) Q h.
Proof.
  intros Hs Hp Hq. unfold owner_alive. apply (wp_quiet P); [done..|]. intros c h1 Hp1 Hi Hrun. cbn [exec fst].
  destruct c as [|k torn]; [|by apply Hq]. destruct (process_at h1 (lo_pid o)) as [q|] eqn:Ep.
  - destruct (lo_process_start_id o) as [expected|] eqn:Est; [|by apply Hq].
    apply (wp_quiet P); [done..|]. intros c h2 Hp2 Hi2 Hrun2. cbn [exec fst]. apply Hq; [done..|].
    destruct c as [|k torn]; [|done]. destruct (process_at h2 (lo_pid o)) as [p|] eqn:Ep2; [|done]. cbn.
    destruct (start_of p) as [current|] eqn:Ec; [|done]. intros Hne%String.eqb_neq p' Hr' Hpid. split; [by rewrite Est|].
    apply process_at_Some in Ep2 as [Hrp Hpp]. assert (p' = p) as -> by (apply (i_pids _ Hi2); congruence).
    rewrite Est, Ec. congruence.
  - apply Hq; [done..|]. intros _ p Hr Hpid. by destruct (process_at_None _ _ _ Ep Hr).
Qed.
Lemma dead_unheld h name o d b doc :
  Inv h -> h_dirs h !! Lease name = Some d -> ld_owner d = Some b -> from_slice b = inr doc -> decode doc = Some o ->
  dead_owner h o -> unheld h name.
Proof.
  intros Hi Hd Hb Hf Hdec Hdead id ob Hob <- Hh. destruct (i_owned _ Hi id ob Hob Hh) as (d' & b' & Hd' & Hb' & Hn).
  destruct Hn as (doc' & o' & Hf' & Hdec' & _ & Hpid & Hst). simplify_eq. rewrite Hf in Hf'. injection Hf' as <-.
  rewrite Hdec in Hdec'. injection Hdec' as <-.
  destruct Hh as [Hrun _]. destruct (Hdead _ Hrun (eq_sym Hpid)) as [Hs1 Hs2]. by destruct Hst.
Qed.

(** ** Under the guard *)
Lemma wp_reclaimable name existing Q h :
  inside name h -> owner_read h name (inr existing) -> Inv h ->
  (forall b h1, inside name h1 -> Inv h1 -> running h1 me = true -> (b = true -> unheld h1 name) -> Q b h1) ->
  running h me = true -> wp t (lease_reclaimable existing) Q h.
Proof.
  intros Hin Hread Hi Hq Hrun. destruct existing as [o|]; cbn [lease_reclaimable].
  - destruct Hread as (d & b & doc & Hd & Hb & Hf & Hdec). apply wp_seq.
    apply (wp_owner_alive (fun h => inside name h /\ h_dirs h !! Lease name = Some d)); [apply steady_dir|done|].
    intros alive h1 [Hin1 Hd1] Hi1 Hrun1 Hdead. apply Hq; [done..|]. intros Ha%negb_true_iff. subst.
    eapply dead_unheld; eauto.
  - apply Hq; [done..|]. intros _. by apply unheld_empty.
Qed.
Lemma wp_refuse_or {A} name canonical (otherwise : proc (lease_error + A)) Q h :
  inside name h ->
  (forall h1, inside name h1 -> Inv h1 -> running h1 me = true -> unheld h1 name -> wp t otherwise Q h1) ->
  (forall e h1, inside name h1 -> Q (inl e) h1) -> wp t (refuse_or name canonical otherwise) Q h.
Proof.
  intros Hin Hot Hq. unfold refuse_or. apply wp_seq. apply (wp_read_owner (inside name)); [apply steady_inside|done|].
  intros [e|existing] h1 Hin1 Hi1 Hrun1 Hread; [by apply Hq|]. apply wp_seq.
  apply (wp_reclaimable name); [done..| |done]. intros [|] h2 Hin2 Hi2 Hrun2 Hun; [by apply Hot; auto|by apply Hq].
Qed.
Lemma wp_reclaim_stale p name Q h :
  inside name h -> unheld h name -> (forall b h1, inside name h1 -> Inv h1 -> running h1 me = true -> Q b h1) ->
  wp t (reclaim_stale p name) Q h.
Proof.
  intros Hin Hun Hq. unfold reclaim_stale.
  apply (wp_mild (fun h => inside name h /\ unheld h name)); [apply steady_unheld|done|done| |].
  { intros c h1 _ Hi. by apply own_draw. }
  intros c h1 _ _ _ [Hin1 Hun1] _. set (u := (exec t NewUuid c h1).1). set (h1' := (exec t NewUuid c h1).2) in *.
  apply wp_call. intros h2 Hr2 Hi2 Hrun2.
  destruct (steady_unheld name _ _ (conj Hin1 Hun1) Hr2) as [Hin2 Hun2].
  assert (drew u h2) as Hdr2.
  { apply (steady_drew u h1'); [|done]. unfold drew, h1', u. cbn. by rewrite lookup_app_r, Nat.sub_diag by lia. }
  split; [right; by exists name, (pid_of p), u|]. intros c2 Hi2'.
  assert (forall c, inside name (exec t (MoveDir (Lease name) (Stale name (pid_of p) u)) c h2).2) as Hkeep.
  { intros [|k torn]; [|done]. cbn [exec]. unfold move_entry. by repeat case_match. }
  assert (forall c, running (exec t (MoveDir (Lease name) (Stale name (pid_of p) u)) c h2).2 me = true) as Hkrun.
  { intros [|k torn]; [|done]. cbn [exec]. unfold move_entry. by repeat case_match. }
  destruct (exec t (MoveDir (Lease name) (Stale name (pid_of p) u)) c2 h2).1 as [e|[]]; [by apply Hq|].
  apply (wp_mild (inside name)); [apply steady_inside|apply Hkeep| | |].
  - intros h3 _. right. left. by eexists _, _, _.
  - intros [|k torn] h3 _ _; [|reflexivity]. by apply own_remove.
  - intros c3 h3 Hin3 Hi3 Hrun3 Hin3' Hi3'. apply Hq; [done..|]. destruct c3 as [|k torn]; [|done].
    cbn [exec]. unfold remove_entry. by case_match.
Qed.

(** ** The guard *)
Section Guard.
Context (P : Host -> Prop) (Hsteady : steady t P) (name : string) (Hlock : lock_extension name = true).

Lemma wp_stale_guard Q h : P h -> (forall b h1, P h1 -> Q b h1) -> wp t (stale_guard name) Q h.
Proof.
  intros Hp Hq. unfold stale_guard. apply (wp_quiet P); [done..|]. intros c h1 Hp1 _ _.
  destruct (exec t (GuardMtime name) c h1).1 as [m|]; [|by apply Hq]. apply (wp_quiet P); [done..|]. intros c2 h2 Hp2 _ _.
  destruct (_ <? _); [|by apply Hq]. apply wp_seq, (wp_read_owner P); [done..|].
  intros [e|[o|]] h3 Hp3 _ _ _; [by apply Hq| |by apply Hq]. apply wp_seq, (wp_owner_alive P); [done..|].
  intros b h4 Hp4 _ _ _. by apply Hq.
Qed.
Lemma wp_guard_loop n deadline attempt Q h :
  P h -> (forall h1, P h1 -> Inv h1 -> running h1 me = true -> inside name h1 -> Q (inr true) h1) ->
  (forall r h1, P h1 -> r <> inr true -> Q r h1) -> wp t (guard_loop n name deadline attempt) Q h.
Proof.
  intros Hp Hin Hno. revert h attempt Hp. induction n as [|n IH]; intros h attempt Hp; [done|]. cbn [guard_loop].
  apply (wp_mild P); [done|done|done|intros; by apply own_enter|]. intros c h1 Hp1 Hi1 Hrun1 Hp1' Hi1'.
  destruct (exec t (EnterGuard name) c h1) as [made h2] eqn:E. cbn [fst snd] in *. destruct made as [e|[]].
  2: { assert (inside name h2 /\ running h2 me = true) as [? ?]; [|by apply Hin]. destruct c as [|k torn]; cbn [exec] in E; [|done].
       destruct (h_dirs h1 !! Guard name); [done|]. injection E as <-. split; [apply lookup_insert_eq|done]. }
  destruct (decide _); [|by apply Hno]. cbv zeta. apply wp_seq.
  assert (forall b h1, P h1 -> wp t (if b : bool then Ret (inr false) else
    let@ stale := stale_guard name in
    let@ stolen := if stale : bool then let@ removed := call (StealGuard name) in Ret (match removed with inr _ => true | inl _ => false end) else Ret false in
    if stolen : bool then guard_loop n name deadline (attempt + 1) else do@ call Sleep in guard_loop n name deadline (attempt + 1)) Q h1) as Hrest.
  { intros b h3 Hp3. destruct b; [by apply Hno|]. apply wp_seq, wp_stale_guard; [done|]. intros stale h4 Hp4. apply wp_seq.
    assert (forall b h5, P h5 -> wp t (if b : bool then guard_loop n name deadline (attempt + 1)
      else do@ call Sleep in guard_loop n name deadline (attempt + 1)) Q h5) as Hgo.
    { intros [|] h5 Hp5; [by apply IH|]. apply (wp_quiet P); [done..|]. intros _ h6 Hp6 _ _. by apply IH. }
    destruct stale; [|by apply Hgo]. apply (wp_mild P); [done|done|done| |].
    - intros [|k torn] h5 _ _; [|reflexivity]. by apply own_remove.
    - intros c5 h5 _ _ _ Hp5 _. by apply Hgo. }
  destruct deadline as [d|]; [|by apply Hrest]. apply (wp_quiet P); [done..|]. intros c3 h3 Hp3 _ _. by apply Hrest.
Qed.
Lemma wp_guard_acquire wait Q h :
  P h -> (forall h1, P h1 -> Inv h1 -> running h1 me = true -> inside name h1 -> Q (inr true) h1) ->
  (forall r h1, P h1 -> r <> inr true -> Q r h1) -> wp t (guard_acquire fuel name wait) Q h.
Proof.
  intros Hp Hin Hno. destruct wait; cbn [guard_acquire]; [by apply wp_guard_loop|].
  apply (wp_quiet P); [done..|]. intros c h1 Hp1 _ _. by apply wp_guard_loop.
Qed.
(** The action keeps the guard; nothing is known after it is left. *)
Lemma wp_with_lease_guard {A} wait (action : proc (lease_error + A)) h :
  P h ->
  (forall h1, P h1 -> Inv h1 -> running h1 me = true -> inside name h1 -> wp t action (fun _ => inside name) h1) ->
  wp t (with_lease_guard fuel name wait action) (fun _ _ => True) h.
Proof.
  intros Hp Ha. unfold with_lease_guard. apply wp_seq, wp_guard_acquire; [done|..].
  - intros h1 Hp1 Hi Hrun Hin. apply wp_seq. eapply wp_conseq; [|by apply Ha]. intros r h2 Hin2. cbn beta.
    apply wp_call. intros h3 Hr3 _ _. split; [|done]. by apply (steady_inside name h2).
  - intros [e|[]] h1 _ Hn; by cbn.
Qed.
End Guard.

(** ** Acquiring *)
Lemma own_start c h : Inv h -> running h me = true ->
  (exec t (StartId (pid_of me)) c h).1 = None \/ (exec t (StartId (pid_of me)) c h).1 = start_of me.
Proof.
  intros Hi Hrun. destruct c as [|k torn]; [|by left]. right. cbn. destruct (process_at h (pid_of me)) as [q|] eqn:E.
  - apply process_at_Some in E as [Hq Hp]. assert (q = me) as -> by (by apply (i_pids _ Hi)). done.
  - by destruct (process_at_None _ _ _ E Hrun).
Qed.
Lemma written_names token start canonical created b :
  to_string_pretty (encode (owner_doc me token start canonical created)) = inr b ->
  start = None \/ start = start_of me -> names me token b.
Proof.
  intros Hb Hst. set (o := owner_doc me token start canonical created) in *.
  assert (codec_wf o) as Hwf by (split; [unfold is_u32, u32_max; cbn; lia|apply pid_u32]).
  destruct (json_text_round_trip _ (encode_representable o Hwf)) as (b' & Hb' & Hf). assert (b' = b) as -> by congruence.
  exists (encode o), o. split_and!; [done|by apply decode_encode|done|done|exact Hst].
Qed.
(** What one attempt has drawn: a token no lease has yet, and a candidate. *)
Definition drawn (name : string) (token u : nat) (h : Host) : Prop :=
  (inside name h /\ drew token h /\ unused token h) /\ drew u h.
Lemma steady_drawn name token u : steady t (drawn name token u).
Proof. apply steady_and; [apply steady_and; [apply steady_inside|apply steady_unused]|apply steady_drew]. Qed.
Lemma drawn_mine name token u h : drawn name token u h -> mine t h (Candidate name (pid_of me) u).
Proof. intros [_ Hd]. by exists name, (pid_of me), u. Qed.
Lemma wp_draws (k : nat -> nat -> proc (lease_error + SessionLease)) name Q h :
  inside name h -> (forall token u h1, drawn name token u h1 -> wp t (k token u) Q h1) ->
  wp t (let@ token := call NewUuid in let@ u := call NewUuid in k token u) Q h.
Proof.
  intros Hin Hk. apply (wp_mild (inside name)); [apply steady_inside|done|done|intros; by apply own_draw|].
  intros c1 h1 Hin1 Hi1 Hrun1 Hin1' _. set (token := (exec t NewUuid c1 h1).1).
  set (P1 := fun h => inside name h /\ drew token h /\ unused token h).
  assert (steady t P1) as Hs1 by (apply steady_and; [apply steady_inside|apply steady_unused]).
  apply (wp_mild P1); [done| |done|intros; by apply own_draw|].
  - split_and!; [done| |].
    + unfold drew, token. cbn. by rewrite lookup_app_r, Nat.sub_diag by lia.
    + intros id o Ho Ht. cbn in Ho. destruct (i_token _ Hi1 id o Ho) as [x Hx]. rewrite Ht in Hx. apply lookup_lt_Some in Hx.
      unfold token in Hx. cbn in Hx. lia.
  - intros c2 h2 _ _ _ Hp2 _. apply Hk. split; [done|]. unfold drew. cbn. by rewrite lookup_app_r, Nat.sub_diag by lia.
Qed.
Lemma wp_publish session_path canonical sp token u b retry h (name := lease_directory v sp) (Q : (lease_error + SessionLease) -> Host -> Prop) :
  drawn name token u h -> names me token b ->
  (forall h1, inside name h1 -> wp t retry Q h1) -> (forall r h1, inside name h1 -> Q r h1) ->
  wp t (publish me session_path canonical name token (Candidate name (pid_of me) u) b retry) Q h.
Proof.
  intros Hp5 Hb IH Hq. set (cand := Candidate name (pid_of me) u). pose proof (steady_drawn name token u) as Hs2.
  assert (is_stale_name (entry_text cand) = false) as Hns by apply candidate_not_stale. unfold publish.
  apply wp_call. intros h6 Hr6 _ _. assert (drawn name token u h6) as Hp6 by (by eapply Hs2).
  split; [by eapply drawn_mine|]. intros c6 _.
  assert (drawn name token u (exec t (WriteOwner cand b) c6 h6).2) as Hp6' by (cbn [exec]; unfold write_owner; by repeat case_match).
  destruct (exec t (WriteOwner cand b) c6 h6) as [written h6'] eqn:E6. cbn [fst snd] in *.
  destruct written as [e|[]]; [by apply Hq, Hp6'|].
  assert (h_dirs h6' !! cand = Some (mkLeaseDir (Some b) (h_clock h6))) as Hc6.
  { destruct c6 as [|k [torn|]]; cbn [exec] in E6; [|done..]. unfold write_owner in E6.
    destruct (h_dirs h6 !! cand); [|done]. injection E6 as <-. cbn. apply lookup_insert_eq. }
  apply wp_call. intros h7 Hr7 _ Hrun7. assert (drawn name token u h7) as Hp7 by (by eapply Hs2).
  destruct (steady_candidate cand _ Hns h6' h7 (conj (drawn_mine _ _ _ _ Hp6') Hc6) Hr7) as [_ Hc7].
  split; [left; exists name; split_and!; [done|by eapply drawn_mine|apply Hp7]|]. intros c7 _.
  assert (drawn name token u (exec t (MoveDir cand (Lease name)) c7 h7).2) as Hp7'.
  { destruct c7; [|done]. cbn [exec]. unfold move_entry. by repeat case_match. }
  destruct (exec t (MoveDir cand (Lease name)) c7 h7) as [moved h7'] eqn:E7. cbn [fst snd] in *.
  destruct moved as [e|[]].
  - apply wp_call. intros h8 Hr8 _ _. assert (drawn name token u h8) as Hp8 by (by eapply Hs2).
    split; [left; by eapply drawn_mine|]. intros c8 _.
    assert (inside name (exec t (RemoveDir cand) c8 h8).2) as Hin8.
    { destruct c8; [|apply Hp8]. cbn [exec]. unfold remove_entry. case_match; apply Hp8. }
    destruct (decide _); [by apply IH|]. destruct (is_rename_target_contention e); [|by apply Hq].
    apply wp_refuse_or; [done| |by auto]. intros h9 Hin9 _ _ Hun9. apply wp_seq, wp_reclaim_stale; [done..|].
    intros _ h10 Hin10 _ _. by apply IH.
  - assert (h_dirs h7' !! Lease name = Some (mkLeaseDir (Some b) (h_clock h6))) as Hd7.
    { destruct c7; cbn [exec] in E7; [|done]. unfold move_entry in E7. rewrite Hc7 in E7.
      destruct (h_dirs h7 !! Lease name) as [[[]]|]; [done|..]; injection E7 as <-; cbn; apply lookup_insert_eq. }
    apply wp_call. intros h8 Hr8 _ Hrun8. assert (drawn name token u h8) as [(Hin8 & Hdr8 & Hun8) _] by (by eapply Hs2).
    destruct (steady_dir name _ h7' h8 (conj (proj1 (proj1 Hp7')) Hd7) Hr8) as [_ Hd8].
    split; [split_and!; [done|done| |done]; by eexists _, _|]. intros c8 _. apply Hq. exact Hin8.
Qed.
Lemma wp_acquire_attempts n session_path canonical sp h (name := lease_directory v sp) (Q : (lease_error + SessionLease) -> Host -> Prop) :
  inside name h -> (forall r h1, inside name h1 -> Q r h1) ->
  wp t (acquire_attempts n me session_path canonical name) Q h.
Proof.
  intros Hin Hq. revert h Hin. induction n as [|n IH]; intros h Hin; cbn [acquire_attempts].
  { apply wp_refuse_or; [done|..]; auto. intros h1 Hin1 _ _ _. by apply Hq. }
  apply (wp_draws (fun token u => _) name); [done|]. intros token u h2 Hp2. pose proof (steady_drawn name token u) as Hs2.
  set (cand := Candidate name (pid_of me) u).
  apply wp_call. intros h3 Hr3 _ _. assert (drawn name token u h3) as Hp3 by (by eapply Hs2).
  split; [by eapply drawn_mine|]. intros c3 _.
  assert (drawn name token u (exec t (MakeCandidate cand) c3 h3).2) as Hp3' by (cbn [exec]; by repeat case_match).
  destruct (exec t (MakeCandidate cand) c3 h3).1 as [e|[]]; [by apply Hq, Hp3'|].
  apply (wp_quiet (drawn name token u)); [done..|]. intros c4 h4 Hp4 Hi4 Hrun4. pose proof (own_start c4 h4 Hi4 Hrun4) as Hst.
  apply (wp_quiet (drawn name token u)); [done..|]. intros c5 h5 Hp5 Hi5 Hrun5.
  destruct (to_string_pretty _) as [msg|b] eqn:Eb; [by apply Hq, Hp5|]. apply written_names in Eb; [|done].
  by apply wp_publish.
Qed.
Lemma wp_acquire session_path h :
  wp t (acquire_runtime_session_lease v fuel me session_path) (fun _ _ => True) h.
Proof.
  unfold acquire_runtime_session_lease. apply (wp_quiet (fun _ => True)); [done|apply steady_true|done|]. intros c h1 _ _ _.
  destruct (exec t EnsureRoot c h1).1 as [e|[]]; [done|]. cbv zeta.
  apply (wp_with_lease_guard (fun _ => True)); [apply steady_true|apply lease_name_lock|done|].
  intros h2 _ _ _ Hin. by apply wp_acquire_attempts.
Qed.

(** ** Using a lease *)
(** The lease [l] of this process, with a property of its state that only
    grows. *)
Definition kept (l : SessionLease) (F : LeaseObj -> Prop) (h : Host) : Prop :=
  exists o, h_objs h !! sl_id l = Some o /\ ob_lease o = l /\ ob_proc o = me /\ F o.
Lemma steady_kept l F :
  (forall o o', F o -> (ob_released o = true -> ob_released o' = true) -> (ob_drained o = true -> ob_drained o' = true) -> F o') ->
  steady t (kept l F).
Proof.
  intros HF h h1 (o & Ho & El & Ep & Hf) Hr. destruct (rg_objs _ _ _ Hr _ o Ho) as (o' & Ho' & El' & Ep' & Hrel & Hdr & _).
  exists o'. split_and!; [done|congruence|congruence|by eapply HF].
Qed.
Lemma wp_drain n id deadline P Q h : steady t P -> P h -> (forall h1, P h1 -> Q tt h1) -> wp t (drain n id deadline) Q h.
Proof.
  intros Hs Hp Hq. revert h Hp. induction n as [|n IH]; intros h Hp; [done|]. cbn [drain].
  apply (wp_quiet P); [done..|]. intros c h1 Hp1 _ _. destruct (Nat.eqb _ _); [by apply Hq|].
  apply (wp_quiet P); [done..|]. intros c2 h2 Hp2 _ _. destruct (_ <? _); [|by apply Hq].
  apply (wp_quiet P); [done..|]. intros _ h3 Hp3 _ _. by apply IH.
Qed.
Lemma kept_alter l F f id h :
  kept l F h -> (forall o, ob_lease (f o) = ob_lease o) -> (forall o, ob_proc (f o) = ob_proc o) -> (forall o, F o -> F (f o)) -> kept l F (alter_obj f id h).
Proof.
  intros (o & Ho & El & Ep & Hf) Hl Hp HF. pose proof (alter_lookup_mono h id f _ o Ho) as Ha.
  destruct (decide _); [exists (f o)|exists o]; split_and!; auto; [by rewrite Hl|by rewrite Hp].
Qed.
(** A directory that still has the token of a given-up lease has no holder. *)
Lemma own_token_unheld l h d b doc o :
  Inv h -> kept l (fun o => ob_drained o = true) h ->
  h_dirs h !! Lease (sl_directory l) = Some d -> ld_owner d = Some b -> from_slice b = inr doc -> decode doc = Some o ->
  lo_token o = uuid_text (sl_token l) -> unheld h (sl_directory l).
Proof.
  intros Hi (ob & Hob & El & _ & Hdr) Hd Hb Hf Hdec Ht id ob' Hob' Hdir Hh.
  destruct (i_owned _ Hi id ob' Hob' Hh) as (d' & b' & Hd' & Hb' & doc' & o' & Hf' & Hdec' & Ht' & _).
  rewrite Hdir in Hd'. simplify_eq. rewrite Hf in Hf'. injection Hf' as <-. rewrite Hdec in Hdec'. injection Hdec' as <-.
  rewrite Ht in Ht'. apply uuid_text_inj in Ht'.
  assert (id = sl_id (ob_lease ob)) as -> by (eapply (i_unique _ Hi); [done|done|congruence]).
  destruct Hh as [_ Hh]. congruence.
Qed.
Lemma wp_release_guarded l h :
  Inv h -> kept l (fun o => ob_drained o = true) h -> inside (sl_directory l) h -> running h me = true ->
  wp t (release_guarded me l) (fun _ => inside (sl_directory l)) h.
Proof.
  intros Hi Hk Hin Hrun. unfold release_guarded.
  assert (steady t (kept l (fun o => ob_drained o = true))) as Hsk by (apply steady_kept; auto).
  apply wp_seq, (wp_read_owner (fun h => kept l (fun o => ob_drained o = true) h /\ inside (sl_directory l) h)).
  { apply steady_and; [done|apply steady_inside]. }
  { done. }
  intros [e|[o|]] h1 [Hk1 Hin1] Hi1 Hrun1 Hread; [done| |done].
  destruct Hread as (d & b & doc & Hd & Hb & Hf & Hdec). destruct (String.eqb_spec (lo_token o) (uuid_text (sl_token l))); [|done].
  apply wp_seq, wp_reclaim_stale; [done|by eapply own_token_unheld|]. intros _ h2 Hin2 _ _. exact Hin2.
Qed.
Lemma wp_release l h : lock_extension (sl_directory l) = true -> kept l (fun _ => True) h ->
  wp t (release_lease fuel me l) (fun _ _ => True) h.
Proof.
  intros Hl Hk. unfold release_lease. apply wp_call. intros h1 Hr1 _ _. split; [done|]. intros c _.
  destruct (exec t (SwapReleased (sl_id l)) c h1).1; [done|].
  assert (kept l (fun o => ob_released o = true) (exec t (SwapReleased (sl_id l)) c h1).2) as Hk1.
  { apply (steady_kept l (fun _ => True) (fun _ _ _ _ _ => I) h h1 Hk) in Hr1 as (o & Ho & El & Ep & _). cbn [exec snd].
    pose proof (alter_lookup_mono h1 (sl_id l) (fun o => mkObj (ob_lease o) (ob_proc o) true (ob_flights o) (ob_drained o)) _ o Ho) as Ha.
    rewrite decide_True in Ha by done. by eexists. }
  assert (steady t (kept l (fun o => ob_released o = true))) as Hs1 by (apply steady_kept; auto).
  apply (wp_quiet (kept l (fun o => ob_released o = true))); [done..|]. intros c2 h2 Hk2 _ _. apply wp_seq, (wp_drain _ _ _ _ _ _ Hs1 Hk2). intros h3 Hk3.
  apply wp_call. intros h4 Hr4 _ _. pose proof (Hs1 _ _ Hk3 Hr4) as Hk4.
  destruct Hk4 as (o & Ho & El & Ep & Hrel). split; [cbn; unfold obj_released; by rewrite Ho|]. intros c4 _.
  assert (kept l (fun o => ob_drained o = true) (exec t (EndDrain (sl_id l)) c4 h4).2) as Hk5.
  { cbn [exec snd]. match goal with |- kept _ _ (alter_obj ?f _ ?h0) => pose proof (alter_lookup_mono h0 (sl_id l) f _ o Ho) as Ha end.
    rewrite decide_True in Ha by done. by eexists. }
  assert (steady t (kept l (fun o => ob_drained o = true))) as Hs2 by (apply steady_kept; auto).
  apply (wp_quiet (kept l (fun o => ob_drained o = true))); [done..|]. intros _ h6 Hk6 _ _. apply wp_seq.
  eapply wp_conseq; [|apply (wp_with_lease_guard _ Hs2 _ Hl Fast _ _ Hk6)]; [done|].
  intros h7 Hk7 Hi7 Hrun7 Hin7. by apply wp_release_guarded.
Qed.
(** An append that was let through: counted, and the lease not given up. *)
Definition committed (l : SessionLease) (h : Host) : Prop :=
  exists o, h_objs h !! sl_id l = Some o /\ ob_proc o = me /\ t ∈ ob_flights o /\ (h_overrun h = false -> ob_drained o = false).
Lemma steady_committed l : steady t (committed l).
Proof.
  intros h h1 (o & Ho & Ep & Hf & Hd) Hr. destruct (rg_objs _ _ _ Hr _ o Ho) as (o' & Ho' & _ & Ep' & _ & _ & Hfl).
  destruct (Hfl Hf) as [Hf' Hd']. exists o'. split_and!; [done|congruence|done|]. intros Hv. rewrite Hd' by done.
  apply Hd. by apply (rg_overrun _ _ _ Hr).
Qed.
Lemma wp_append l p bytes h : kept l (fun _ => True) h -> wp t (lease_append v l p bytes) (fun _ _ => True) h.
Proof.
  intros Hk. unfold lease_append, with_owned_mutation. apply wp_call. intros h1 Hr1 _ _. split; [done|]. intros c _.
  set (counted h := exists o, h_objs h !! sl_id l = Some o /\ ob_proc o = me /\ t ∈ ob_flights o).
  assert (steady t counted) as Hs.
  { intros h2 h3 (o & Ho & Ep & Hf) Hr. destruct (rg_objs _ _ _ Hr _ o Ho) as (o' & Ho' & _ & Ep' & _ & _ & Hfl).
    exists o'. split_and!; [done|congruence|by apply Hfl]. }
  assert (counted (exec t (AddFlight (sl_id l)) c h1).2) as Hc1.
  { apply (steady_kept l (fun _ => True) (fun _ _ _ _ _ => I) h h1 Hk) in Hr1 as (o & Ho & El & Ep & _). cbn [exec snd].
    match goal with |- counted (alter_obj ?f _ _) => pose proof (alter_lookup_mono h1 (sl_id l) f _ o Ho) as Ha end.
    rewrite decide_True in Ha by done. eexists. split_and!; [done|done|]. cbn. set_solver. }
  apply (wp_quiet counted); [done..|]. intros c2 h2 Hc2 Hi2 Hrun2. cbn [exec fst]. cbv zeta. apply wp_seq.
  assert (forall (r : lease_error + unit) h3, wp t (do@ call (DropFlight (sl_id l)) in Ret r) (fun _ _ => True) h3) as Hend by (intros; by apply wp_call).
  destruct (negb (obj_released h2 (sl_id l)) && _) eqn:Eo; [|by apply Hend].
  apply andb_true_iff in Eo as [Hrel%negb_true_iff _].
  assert (committed l h2) as Hcom.
  { destruct Hc2 as (o & Ho & Ep & Hf). exists o. split_and!; [done..|]. intros _. apply not_true_is_false. intros Hd.
    apply (i_drained _ Hi2 _ _ Ho) in Hd. unfold obj_released in Hrel. rewrite Ho in Hrel. congruence. }
  apply wp_call. intros h3 Hr3 _ Hrun3. destruct (steady_committed l _ _ Hcom Hr3) as (o & Ho & Ep & _ & Hd).
  split; [|intros c3 _; by apply Hend]. intros Hv. exists o. split; [done|]. split; [by rewrite Ep|by apply Hd].
Qed.

(** ** Reaping and probing *)
Lemma wp_reap_entry e h : wp t (reap_entry fuel me e) (fun _ _ => True) h.
Proof.
  unfold reap_entry. destruct (lock_extension (entry_text e)) eqn:El.
  - apply wp_seq. eapply wp_conseq; [|apply (wp_with_lease_guard (fun _ => True) (steady_true t) _ El)]; [done|done|].
    intros h1 _ Hi1 Hrun1 Hin1. apply wp_seq, (wp_read_owner (inside (entry_text e))); [apply steady_inside|done|].
    intros [err|existing] h2 Hin2 Hi2 Hrun2 Hread; [done|]. apply wp_seq, (wp_reclaimable (entry_text e)); [done..| |done].
    intros [|] h3 Hin3 _ _ Hun; [|done]. apply wp_seq, wp_reclaim_stale; [done|by apply Hun|]. intros b h4 Hin4 _ _. exact Hin4.
  - destruct (is_stale_name (entry_text e)) eqn:Es; [|done]. apply wp_call. intros h1 _ _ _. split; [|done]. right. by right.
Qed.
Lemma wp_reap h : wp t (reclaim_dead_owner_leases fuel me) (fun _ _ => True) h.
Proof.
  unfold reclaim_dead_owner_leases. apply (wp_quiet (fun _ => True)); [done|apply steady_true|done|]. intros c h1 _ _ _.
  destruct (exec t ListRoot c h1).1 as [e|es]; [done|]. generalize 0%nat. revert h1. induction es as [|e es IH]; intros h1 n; [done|].
  cbn [reap_entries]. apply wp_seq. eapply wp_conseq; [|apply wp_reap_entry]. intros b h2 _. apply IH.
Qed.
Lemma wp_probe sp h : wp t (live_lease_owner v sp) (fun _ _ => True) h.
Proof.
  unfold live_lease_owner. apply wp_seq, (wp_read_owner (fun _ => True)); [apply steady_true|done|].
  intros [e|[o|]] h1 _ _ _ _; [done| |done]. by apply wp_seq, (wp_owner_alive (fun _ => True)); [apply steady_true|done|].
Qed.
Lemma wp_gated sp h : wp t (acquire_session_lease v fuel me sp) (fun _ _ => True) h.
Proof.
  unfold acquire_session_lease. destruct sp as [[|c sp]|]; [done| |done]. destruct (leases_enabled me); [|done].
  apply wp_seq. eapply wp_conseq; [|apply wp_acquire]. done.
Qed.
(** Every job keeps to the rules. *)
Lemma wp_job j pr h : Inv h -> program v fuel h me j = Some pr -> wp t pr (fun _ _ => True) h.
Proof.
  intros Hi Hp. assert (forall A (p : proc A) (f : A -> outcome), wp t p (fun _ _ => True) h -> wp t (let@ r := p in Ret (f r)) (fun _ _ => True) h) as Hret.
  { intros A p f Hw. apply wp_seq. eapply wp_conseq; [|exact Hw]. done. }
  assert (forall id l, match h_objs h !! id with Some o => if Nat.eqb (ob_proc o) me then Some (ob_lease o) else None | None => None end = Some l ->
    lock_extension (sl_directory l) = true /\ kept l (fun _ => True) h) as Hheld.
  { intros id l. destruct (h_objs h !! id) as [o|] eqn:Eo; [|done]. destruct (Nat.eqb_spec (ob_proc o) me); [|done]. intros [= <-].
    split; [by eapply i_dir|]. exists o. split_and!; [|done..]. by rewrite (i_id _ Hi id o Eo). }
  destruct j; unfold program in Hp.
  - apply (inj Some) in Hp. subst pr. refine (Hret _ (acquire_runtime_session_lease v fuel me session_path) Acquired _). apply wp_acquire.
  - apply (inj Some) in Hp. subst pr. refine (Hret _ (acquire_session_lease v fuel me session_path) Gated _). apply wp_gated.
  - apply (inj Some) in Hp. subst pr. refine (Hret _ (live_lease_owner v session_path) Probed _). apply wp_probe.
  - apply bind_Some in Hp as (l & Hl & Hp). apply (inj Some) in Hp. subst pr. apply Hheld in Hl as [Hlock Hk].
    refine (Hret _ (release_lease fuel me l) (fun _ => Released) _). by apply wp_release.
  - apply bind_Some in Hp as (l & Hl & Hp). apply (inj Some) in Hp. subst pr. apply Hheld in Hl as [_ Hk].
    refine (Hret _ (lease_append v l p bytes) Appended _). by apply wp_append.
  - apply (inj Some) in Hp. subst pr. refine (Hret _ (reclaim_dead_owner_leases fuel me) Reaped _). apply wp_reap.
Qed.
End Functions.
