(* ===== verification/LeaseTheorems.v ===== *)
(** * Session leases: what the system guarantees

    Every interleaving of processes, threads, failures and deaths keeps the
    invariant of [LeaseLogic] until a guard is robbed; with it at most one live
    process holds a session, and appends happen only under a lease that is
    still owned.  A thread on its own acquires a lease nobody holds and is
    refused one that somebody does. *)
From S2P Require Import Prelude RustStr Json Time World LedgerReplay Ledger Lease LeaseHost LeaseLogic LeaseProofs.
#[local] Open Scope string_scope.
#[local] Open Scope Z_scope.

Section System.
Context `{Env} `{!EnvOk} `{LedgerEnv} `{Machine} `{!MachineOk} (v : View) (fuel : nat).

Record good (s : Sys) : Prop := {
  g_inv : Inv (s_host s);
  g_born t pr : s_tasks s !! t = Some pr -> is_Some (h_procs (s_host s) !! fst t);
  g_task t pr : s_tasks s !! t = Some pr -> running (s_host s) (fst t) = true -> wp t pr (fun _ _ => True) (s_host s)
}.
Lemma wp_rely {A} t (pr : proc A) h h' : wp t pr (fun _ _ => True) h -> rely t h h' -> wp t pr (fun _ _ => True) h'.
Proof. destruct pr as [a|op k|]; [done| |done]. intros Hw Hr h1 Hr1. apply Hw. by transitivity h'. Qed.
Lemma running_insert h p q b : running (set_procs (<[p := b]> (h_procs h)) h) q = if decide (p = q) then b else running h q.
Proof.
  unfold running. cbn. case_decide as Hd; subst.
  - rewrite lookup_insert_eq. by destruct b; [apply bool_decide_eq_true_2|apply bool_decide_eq_false_2].
  - by rewrite lookup_insert_ne.
Qed.
(** Steps that only change which processes live. *)
Lemma procs_rely t h m : (forall p, running (set_procs m h) p = true -> running h p = true \/ forall id o, h_objs h !! id = Some o -> ob_proc o <> p) ->
  rely t h (set_procs m h).
Proof.
  intros Hp. split; try done.
  - intros id o Ho. exists o. split_and!; auto.
  - intros id o Ho Hn. cbn in Ho. congruence.
Qed.
Lemma procs_inv h m :
  Inv h -> (forall p, is_Some (h_procs h !! p) -> running (set_procs m h) p = true -> running h p = true) ->
  (forall p, is_Some (h_procs h !! p) -> is_Some (m !! p)) ->
  (forall p q, running (set_procs m h) p = true -> running (set_procs m h) q = true -> pid_of p = pid_of q -> p = q) -> Inv (set_procs m h).
Proof.
  intros [Ow To Un Id Di Bo Dr Gu Lo Ib St Pi] Hr Hb Hp. split; try done.
  - intros id o Ho [Hrun Hdr]. apply (Ow id o Ho). split; [|done]. apply Hr; [by eapply Bo|done].
  - intros id o Ho. apply Hb. by eapply Bo.
  - intros n t Hin Hrun. apply (Gu n t Hin). apply Hr; [by eapply Ib|done].
  - intros n t Hin. apply Hb. by eapply Ib.
Qed.
Lemma step_procs s m :
  good s -> (forall p, is_Some (h_procs (s_host s) !! p) -> running (set_procs m (s_host s)) p = true -> running (s_host s) p = true) ->
  (forall p, is_Some (h_procs (s_host s) !! p) -> is_Some (m !! p)) ->
  (forall p q, running (set_procs m (s_host s)) p = true -> running (set_procs m (s_host s)) q = true -> pid_of p = pid_of q -> p = q) ->
  good (mkSys (set_procs m (s_host s)) (s_tasks s)).
Proof.
  intros [Hi Hb Hw] Hr Hd Hp. assert (forall t, rely t (s_host s) (set_procs m (s_host s))) as Hrel.
  { intros t. apply procs_rely. intros p Hrun. destruct (h_procs (s_host s) !! p) as [b|] eqn:E.
    - left. apply Hr; [by eexists|done].
    - right. intros id o Ho <-. destruct (i_born _ Hi id o Ho). congruence. }
  split; cbn [s_host s_tasks].
  - by apply procs_inv.
  - intros t pr Ht. apply Hd. by eapply Hb.
  - intros t pr Ht Hrun. eapply wp_rely; [|apply Hrel]. apply (Hw t pr Ht). apply Hr; [by eapply Hb|done].
Qed.
Lemma same_rely t h c : rely t h (set_clock c h).
Proof.
  split; try done; [|by intros id o Ho Hn; cbn in Ho; congruence|by left].
  intros id o Ho. exists o. split_and!; auto.
Qed.
Lemma same_inv h c : Inv h -> Inv (set_clock c h).
Proof. intros [Ow To Un Id Di Bo Dr Gu Lo Ib St Pi]. by split. Qed.

Lemma exec_procs t op c h : h_procs (exec t op c h).2 = h_procs h.
Proof.
  destruct op; cbn [exec]; try done; destruct c as [|k [torn|]]; try done;
    unfold remove_entry, move_entry, write_owner; repeat case_match; try done; simplify_eq; done.
Qed.
Lemma step_do s t c s' : good s -> sys_step v fuel (Do t c) s = Some s' -> h_robbed (s_host s') = false -> good s'.
Proof.
  intros [Hi Hb Hw] Hs Hrob. cbn [sys_step] in Hs. destruct (running (s_host s) (fst t)) eqn:Hrun; [|done].
  destruct (s_tasks s !! t) as [pr|] eqn:Et; [|done]. destruct pr as [|op k|]; [done| |done].
  rewrite (surjective_pairing (exec t op c (s_host s))) in Hs. apply (inj Some) in Hs. subst s'. cbn [s_host] in Hrob.
  destruct (Hw t _ Et Hrun (s_host s) (reflexivity _) Hi Hrun) as [Ha Hk].
  destruct (exec_ok t op c (s_host s) Hi Hrun Ha Hrob) as [Hi' Hrel].
  assert (forall p, running (exec t op c (s_host s)).2 p = running (s_host s) p) as Hsame.
  { intros p. unfold running. by rewrite exec_procs. }
  split; cbn [s_host s_tasks]; [done| |].
  - intros t' pr. rewrite exec_procs. destruct (decide (t = t')) as [<-|Hne]; [|rewrite lookup_insert_ne by done; apply Hb].
    intros _. by eapply Hb.
  - intros t' pr. rewrite Hsame. destruct (decide (t = t')) as [<-|Hne].
    + rewrite lookup_insert_eq. intros [= <-] _. by apply Hk.
    + rewrite lookup_insert_ne by done. intros Ht' Hrun'. eapply wp_rely; [by apply (Hw t')|]. by apply Hrel; [apply not_eq_sym|].
Qed.
Lemma sys_step_good l s s' : good s -> sys_step v fuel l s = Some s' -> h_robbed (s_host s') = false -> good s'.
Proof.
  intros Hg Hs Hrob. destruct l as [p|p|ms|t j|t c]; [..|by eapply step_do]; cbn [sys_step] in Hs.
  - destruct (h_procs (s_host s) !! p) as [b|] eqn:Ep; [done|]. destruct (process_at (s_host s) (pid_of p)) eqn:Epid; [done|].
    injection Hs as <-. apply step_procs; [done|..].
    + intros q Hq. rewrite running_insert. case_decide as Hd; [|done]. subst. destruct Hq. congruence.
    + intros q Hq. destruct (decide (p = q)) as [<-|Hne]; [rewrite lookup_insert_eq; by eexists|by rewrite lookup_insert_ne].
    + intros q q'. rewrite !running_insert. do 2 case_decide; subst; try done.
      * intros _ Hr Hpid. by destruct (process_at_None _ _ _ Epid Hr).
      * intros Hr _ Hpid. by destruct (process_at_None _ _ _ Epid Hr).
      * apply (i_pids _ (g_inv _ Hg)).
  - destruct (running (s_host s) p) eqn:Ep; [|done]. injection Hs as <-. apply step_procs; [done|..].
    + intros q _. rewrite running_insert. by case_decide.
    + intros q Hq. destruct (decide (p = q)) as [<-|Hne]; [rewrite lookup_insert_eq; by eexists|by rewrite lookup_insert_ne].
    + intros q q'. rewrite !running_insert. do 2 case_decide; try done. apply (i_pids _ (g_inv _ Hg)).
  - injection Hs as <-. destruct Hg as [Hi Hb Hw]. split; cbn [s_host s_tasks]; [by apply same_inv|done|].
    intros t pr Ht Hrun. eapply wp_rely; [by eapply Hw|apply same_rely].
  - destruct (running (s_host s) (fst t)) eqn:Hrun; [|done]. destruct (bool_decide _); [|done]. cbn [andb] in Hs.
    apply fmap_Some in Hs as (pr & Hpr & ->). destruct Hg as [Hi Hb Hw]. split; cbn [s_host s_tasks]; [done| |].
    + intros t' pr'. destruct (decide (t = t')) as [<-|Hne]; [|rewrite lookup_insert_ne by done; apply Hb].
      intros _. unfold running in Hrun. apply bool_decide_eq_true in Hrun. by eexists.
    + intros t' pr'. destruct (decide (t = t')) as [<-|Hne]; [|rewrite lookup_insert_ne by done; apply Hw].
      rewrite lookup_insert_eq. intros [= <-] _. by eapply wp_job.
Qed.
Lemma step_robbed l s s' : sys_step v fuel l s = Some s' -> h_robbed (s_host s') = false -> h_robbed (s_host s) = false.
Proof.
  destruct l as [p|p|ms|t j|t c]; cbn [sys_step]; intros Hs.
  - destruct (h_procs (s_host s) !! p); [done|]. destruct (process_at (s_host s) (pid_of p)); [done|]. by injection Hs as <-.
  - destruct (running _ _); [|done]. by injection Hs as <-.
  - by injection Hs as <-.
  - destruct (_ && _); [|done]. by apply fmap_Some in Hs as (pr & _ & ->).
  - destruct (running _ _); [|done]. destruct (s_tasks s !! t) as [[| op k |]|]; try done.
    rewrite (surjective_pairing (exec t op c (s_host s))) in Hs. apply (inj Some) in Hs. subst s'. apply robbed_mono.
Qed.
Lemma run_robbed ls s s' : sys_run v fuel ls s = Some s' -> h_robbed (s_host s') = false -> h_robbed (s_host s) = false.
Proof.
  revert s. induction ls as [|l ls IH]; intros s; cbn [sys_run]; [by intros [= <-]|].
  intros (s1 & Hs & Hr)%bind_Some Hrob. eapply step_robbed; [done|]. by eapply IH.
Qed.
Lemma run_good ls s s' : good s -> sys_run v fuel ls s = Some s' -> h_robbed (s_host s') = false -> good s'.
Proof.
  revert s. induction ls as [|l ls IH]; intros s Hg; cbn [sys_run]; [by intros [= <-]|].
  intros (s1 & Hs & Hr)%bind_Some Hrob. eapply IH; [|done|done]. eapply sys_step_good; [done|done|]. by eapply run_robbed.
Qed.
Lemma boot_good : good boot.
Proof.
  split; try done; [|intros t pr Ht; by rewrite lookup_empty in Ht..].
  split; cbn; try (intros; by rewrite ?lookup_empty in * ).
Qed.
Lemma reachable_good s : reachable v fuel s -> h_robbed (s_host s) = false -> good s.
Proof. intros [ls Hls]. by apply run_good with (1 := boot_good) (2 := Hls). Qed.
(** Two holders of one directory are one lease. *)
Lemma holders_unique h i j o o' :
  Inv h -> h_objs h !! i = Some o -> h_objs h !! j = Some o' -> holder h o -> holder h o' ->
  sl_directory (ob_lease o) = sl_directory (ob_lease o') -> i = j.
Proof.
  intros Hi Ho Ho' Hh Hh' Hd. destruct (i_owned _ Hi i o Ho Hh) as (d & b & Hd1 & Hb & Hn).
  destruct (i_owned _ Hi j o' Ho' Hh') as (d' & b' & Hd1' & Hb' & Hn'). rewrite <- Hd in Hd1'. simplify_eq.
  destruct Hn as (doc & w & Hf & Hdec & Ht & _), Hn' as (doc' & w' & Hf' & Hdec' & Ht' & _).
  rewrite Hf in Hf'. injection Hf' as <-. rewrite Hdec in Hdec'. injection Hdec' as <-.
  eapply (i_unique _ Hi); [done|done|]. apply uuid_text_inj. congruence.
Qed.
Lemma unreleased_holder h id o : Inv h -> h_objs h !! id = Some o -> running h (ob_proc o) = true -> ob_released o = false -> holder h o.
Proof.
  intros Hi Ho Hr Hrel. split; [done|]. apply not_true_is_false. intros Hd. apply (i_drained _ Hi _ _ Ho) in Hd. congruence.
Qed.

(** C8: in every interleaving of any number of processes and threads that
    acquire, release, append and reap, with system calls that fail and
    processes that die anywhere, two live processes never hold the lease of
    one session, unless a guard was removed under a live thread still inside. *)
Theorem lease_exclusive s i j o o' :
  reachable v fuel s -> h_robbed (s_host s) = false ->
  h_objs (s_host s) !! i = Some o -> h_objs (s_host s) !! j = Some o' ->
  running (s_host s) (ob_proc o) = true -> running (s_host s) (ob_proc o') = true ->
  ob_released o = false -> ob_released o' = false ->
  sl_directory (ob_lease o) = sl_directory (ob_lease o') -> i = j.
Proof.
  intros Hs Hrob Ho Ho' Hr Hr' Hrel Hrel'. pose proof (g_inv _ (reachable_good s Hs Hrob)) as Hi.
  apply (holders_unique (s_host s)); [done|done|done|by eapply unreleased_holder..].
Qed.

(** C12: a row is appended only under a lease that is still owned: when a live
    thread is about to write, the owner file on disk is the one of its lease
    and no other live process holds the session, even if the lease's release
    has begun, unless a guard was robbed or a release gave up waiting for an
    append in flight. *)
Theorem append_is_fenced s t id p bytes k :
  reachable v fuel s -> h_robbed (s_host s) = false -> h_overrun (s_host s) = false ->
  s_tasks s !! t = Some (Call (AppendRow id p bytes) k) -> running (s_host s) (fst t) = true ->
  exists o, h_objs (s_host s) !! id = Some o /\
    dir_names (s_host s) (sl_directory (ob_lease o)) (ob_proc o) (sl_token (ob_lease o)) /\
    forall j o', h_objs (s_host s) !! j = Some o' -> running (s_host s) (ob_proc o') = true -> ob_released o' = false ->
      sl_directory (ob_lease o') = sl_directory (ob_lease o) -> j = id.
Proof.
  intros Hs Hrob Hov Ht Hrun. destruct (reachable_good s Hs Hrob) as [Hi _ Hw].
  destruct (Hw t _ Ht Hrun (s_host s) (reflexivity _) Hi Hrun) as [Ha _]. destruct (Ha Hov) as (o & Ho & Hh).
  exists o. split_and!; [done|by eapply i_owned|]. intros j o' Ho' Hr' Hrel' Hd.
  by eapply (holders_unique (s_host s)); [done|done|done|eapply unreleased_holder|..].
Qed.
End System.
