(* ===== verification/LockDir.v ===== *)
(** * Directory locks ([crates/pa-core/src/platform/lock_dir.rs])

    The cross-process lock of the state store: the directory [{file}.lock],
    reclaimed when stale.  Unix build; file permissions are not modelled. *)
From S2P Require Import Prelude RustStr Json Time World.
#[local] Open Scope string_scope.
#[local] Open Scope Z_scope.

Section LockDir.
Context `{Env}.

(** A held lock: its directory and the owner text of an owned lock. *)
Record LockDir := mkLockDir { lock_path : path; lock_owner : option string }.

(** Minimum staleness, in milliseconds. *)
Definition MIN_STALE : Z := 2000.

(** [probe_mtime]: the next whole second plus five milliseconds. *)
Definition probe_mtime {E} : M E Z :=
  let* now := now_ms in
  ret ((now + 999) / 1000 * 1000 + 5).

(** [LockDir::path_for]: the text [.lock] appended to the whole path. *)
Definition path_for (file : path) : path :=
  match last file with
  | Some c => removelast file ++ [c ++ ".lock"]
  | None => [".lock"]
  end.

Definition owner_file (p : path) : path := p ++ ["owner"].

(** [LockDir::create]: the mkdir is the acquisition; a failure after it undoes
    the directory and keeps the first error. *)
Definition lock_create (p : path) (owner : option string) : M io_error unit :=
  do* fs_create_dir p in
  let* r := attempt (
    do* match owner with
        | Some o => fs_write (owner_file p) (text_bytes (o ++ nl_str))
        | None => ret tt
        end in
    let* t := probe_mtime in
    fs_set_mtime p t) in
  match r with
  | inr _ => ret tt
  | inl e =>
      let* _ := attempt (F := io_error) (fs_remove_file (owner_file p)) in
      let* _ := attempt (F := io_error) (fs_remove_dir p) in
      throw e
  end.

(** [owner_dead]: an owner text that names no live process. *)
Definition owner_dead (x : Ext) (recorded : string) : bool :=
  match split_once " " (trim recorded) with
  | None => true
  | Some (pid, token) =>
      if is_empty token then true
      else match parse_unsigned u32_max pid with
           | None => true
           | Some n => if (n =? 0) || (2147483647 <? n) then true else negb (process_alive x n)
           end
  end.

Definition lock_held (p : path) : io_error :=
  IoError WouldBlock ("Lock file is already being held: " ++ path_display p).

(** Removing something that may already be gone. *)
Definition tolerate_not_found (m : M io_error unit) : M io_error unit :=
  let* r := attempt m in
  match r with
  | inr _ => ret tt
  | inl e => if decide (io_error_kind e = NotFound) then ret tt else throw e
  end.

(** [fs::read_to_string(path).ok()]. *)
Definition read_to_string_ok (p : path) : M io_error (option string) :=
  let* r := attempt (fs_read p) in
  ret (match r with inr b => bytes_text b | inl _ => None end).

Definition get_ext {E} : M E Ext := fun w => (Ok (w_ext w), w).

(** [judge_and_reclaim]: returns when the incumbent is gone. *)
Definition judge_and_reclaim (p : path) (stale_after : Z) : M io_error unit :=
  let* meta := attempt (fs_metadata p) in
  match meta with
  | inl e => if decide (io_error_kind e = NotFound) then ret tt else throw e
  | inr (File _) =>
      let* x := get_ext in
      if flock_held x p then throw (lock_held p)
      else tolerate_not_found (fs_remove_file p)
  | inr (Dir modified) =>
      let* now := now_ms in
      let age := Z.max 0 (now - modified) in
      if stale_after <? age then
        let* recorded := read_to_string_ok (owner_file p) in
        let* x := get_ext in
        if match recorded with Some o => negb (owner_dead x o) | None => false end
        then throw (lock_held p)
        else
          do* tolerate_not_found (fs_remove_file (owner_file p)) in
          tolerate_not_found (fs_remove_dir p)
      else throw (lock_held p)
  end.

(** [acquire_with_owner] and [acquire]. *)
Definition acquire_with_owner (file : path) (stale_after : Z) (owner : option string)
    : M io_error LockDir :=
  let p := path_for file in
  let stale_after := Z.max stale_after MIN_STALE in
  let* first := attempt (lock_create p owner) in
  match first with
  | inr _ => ret (mkLockDir p owner)
  | inl e =>
      if decide (io_error_kind e = AlreadyExists) then
        do* judge_and_reclaim p stale_after in
        let* second := attempt (lock_create p owner) in
        match second with
        | inr _ => ret (mkLockDir p owner)
        | inl e2 =>
            if decide (io_error_kind e2 = AlreadyExists) then throw (lock_held p) else throw e2
        end
      else throw e
  end.
Definition acquire (file : path) (stale_after : Z) : M io_error LockDir :=
  acquire_with_owner file stale_after None.

(** [acquire_retrying]: at most [attempts] tries (at least one), only
    contention is retried. *)
Fixpoint acquire_retrying (file : path) (stale_after : Z) (attempts : nat)
    : M io_error LockDir :=
  let* r := attempt (acquire file stale_after) in
  match r with
  | inr guard => ret guard
  | inl e =>
      if decide (io_error_kind e = WouldBlock) then
        match attempts with
        | O | S O => throw e
        | S n => acquire_retrying file stale_after n
        end
      else throw e
  end.

Definition owner_matches (p : path) (owner : string) : M io_error bool :=
  let* recorded := read_to_string_ok (owner_file p) in
  ret (match recorded with Some r => String.eqb (trim r) owner | None => false end).

(** [ensure_owned]. *)
Definition ensure_owned (l : LockDir) : M io_error unit :=
  match lock_owner l with
  | None => ret tt
  | Some o =>
      let* ok := owner_matches (lock_path l) o in
      if ok then ret tt
      else throw (IoError OtherIo ("harness state lock lost: " ++ path_display (lock_path l)))
  end.

(** [release], also what dropping the guard runs: failures are only logged. *)
Definition release (l : LockDir) : M io_error unit :=
  let* proceed := match lock_owner l with
                  | None => ret true
                  | Some o =>
                      let* ok := owner_matches (lock_path l) o in
                      if ok then
                        let* r := attempt (fs_remove_file (owner_file (lock_path l))) in
                        ret (match r with inr _ => true | inl _ => false end)
                      else ret false
                  end in
  if proceed then
    let* _ := attempt (F := io_error) (fs_remove_dir (lock_path l)) in ret tt
  else ret tt.

(** ** Frame *)

(** The only files a lock at [p] may touch. *)
Definition lock_area (p q : path) : Prop := q = p \/ q = owner_file p.

Lemma keeps_get_ext S {E} : keeps S (get_ext (E:=E)).
Proof. intros w. apply frame_refl. Qed.
Lemma keeps_probe S {E} : keeps S (probe_mtime (E:=E)).
Proof. unfold probe_mtime. solve_keeps. Qed.
Hint Resolve keeps_get_ext keeps_probe : keeps.
Lemma keeps_tolerate S m : keeps S m -> keeps S (tolerate_not_found m).
Proof. intros. unfold tolerate_not_found. solve_keeps. Qed.
Lemma keeps_read_to_string S p : keeps S (read_to_string_ok p).
Proof. unfold read_to_string_ok. solve_keeps. Qed.
Hint Resolve keeps_tolerate keeps_read_to_string : keeps.

Lemma lock_area_dir p : lock_area p p. Proof. by left. Qed.
Lemma lock_area_owner p : lock_area p (owner_file p). Proof. by right. Qed.
Hint Resolve lock_area_dir lock_area_owner : keeps.

Lemma keeps_lock_create p o : keeps (lock_area p) (lock_create p o).
Proof. unfold lock_create. solve_keeps. Qed.
Lemma keeps_judge p s : keeps (lock_area p) (judge_and_reclaim p s).
Proof. unfold judge_and_reclaim. solve_keeps. Qed.
Hint Resolve keeps_lock_create keeps_judge : keeps.

Lemma keeps_acquire file s : keeps (lock_area (path_for file)) (acquire file s).
Proof. unfold acquire, acquire_with_owner. solve_keeps. Qed.
Lemma keeps_release l : keeps (lock_area (lock_path l)) (release l).
Proof. unfold release, owner_matches. solve_keeps. Qed.

(** The guard of a successful acquisition names the lock of the guarded file. *)
Lemma acquire_guard file s w g w' :
  acquire file s w = (Ok g, w') -> g = mkLockDir (path_for file) None.
Proof.
  unfold acquire, acquire_with_owner, bind, attempt, ret, throw. cbv zeta.
  destruct (lock_create _ _ w) as [[[]|e|] w1]; cbv beta iota; [naive_solver| |done].
  case_decide; [|done].
  destruct (judge_and_reclaim _ _ w1) as [[[]|e2|] w2]; cbv beta iota; [|done|done].
  destruct (lock_create _ _ w2) as [[[]|e3|] w3]; cbv beta iota; [naive_solver| |done].
  case_decide; done.
Qed.

End LockDir.
#[export] Hint Resolve keeps_acquire keeps_release : keeps.
