(* ===== verification/Sim.v ===== *)
(** * A concrete environment

    An instance of [Env] in which every parameter is a concrete function, used
    by the witnesses to evaluate the model: files hold documents or text, and
    git, the daemon and the HTTP servers answer from tables. *)
From S2P Require Import Prelude RustStr Json Time World.
#[local] Open Scope string_scope.
#[local] Open Scope Z_scope.

Inductive sim_bytes := SimJson (v : Value) | SimText (s : string).

(** What the outside answers, and what it was sent (latest first). *)
Record sim_ext := mkSim {
  sim_git : list string -> git_answer;
  sim_connect : connect_answer;
  sim_daemon : nat -> Value -> list daemon_line;
  sim_http : string -> http_answer;
  sim_git_log : list (list string);
  sim_sent : list Value;
  sim_posts : list (string * Value)
}.

#[export] Instance sim_env : Env := {|
  Bytes := sim_bytes;
  text_bytes := SimText;
  bytes_text b := match b with SimText s => Some s | SimJson _ => None end;
  to_string_pretty v := inr (SimJson v);
  from_slice b := match b with SimJson v => inr v | SimText _ => inl "expected value" end;
  from_str s := if String.eqb s "{}" then inr (VObject [])
                else if String.eqb s "{code:200}" then inr (VObject [("code", VNumber 200)])
                else inl "expected value";
  value_display v := match v with VString s => s | _ => "<json>" end;
  schema_error_text _ := "schema mismatch";
  os_error_text k := match k with
                     | NotFound => "No such file or directory (os error 2)"
                     | _ => "I/O error"
                     end;
  Ext := sim_ext;
  git_run x _ args := (mkSim (sim_git x) (sim_connect x) (sim_daemon x) (sim_http x)
                         (args :: sim_git_log x) (sim_sent x) (sim_posts x), sim_git x args);
  daemon_connect x _ := (x, sim_connect x);
  daemon_send x v := (mkSim (sim_git x) (sim_connect x) (sim_daemon x) (sim_http x)
                        (sim_git_log x) (v :: sim_sent x) (sim_posts x),
                      Sent (sim_daemon x (List.length (sim_sent x)) v));
  http_post x url _ body := (mkSim (sim_git x) (sim_connect x) (sim_daemon x) (sim_http x)
                               (sim_git_log x) (sim_sent x) ((url, body) :: sim_posts x),
                             sim_http x url);
  process_alive _ _ := false;
  flock_held _ _ := false
|}.

#[export] Instance sim_env_ok : EnvOk.
Proof. constructor. intros v _. by exists (SimJson v). Qed.

Definition sim_silent : sim_ext :=
  mkSim (fun _ => GitFail "no such command") (ConnectFailed "Connection refused") (fun _ _ => []) (fun _ => HttpFailed "down")
    [] [] [].

(** A fault-free world with one millisecond per clock reading from [t]. *)
Definition sim_world (fs : fsys) (t : Z) (x : sim_ext) : World :=
  mkWorld fs (fun n => t + Z.of_nat n) 0 (fun _ => NoFault) 0 x fresh_memory.
(** The same world whose [k]-th system call from now meets fault [f]. *)
Definition with_fault (k : nat) (f : fault) (w : World) : World :=
  mkWorld (w_fs w) (w_clock w) (w_tick w)
    (fun n => if Nat.eqb n (w_op w + k) then f else NoFault) (w_op w) (w_ext w) (w_mem w).
(** A process restarted at time [t] on the files another one left. *)
Definition restart (t : Z) (w : World) : World := sim_world (w_fs w) t (w_ext w).
