(* ===== verification/LeaseAlone.v ===== *)
(** * Session leases: a thread that nobody disturbs

    What acquiring answers from any state the system can be in: a lease whose
    owner is gone is taken over, one whose owner lives is refused.  Then a
    machine with a few processes, runs of the system on it, and what the model
    showed. *)
From S2P Require Import Prelude RustStr Json Time World LedgerReplay Ledger Sim Lease LeaseHost LeaseLogic LeaseProofs LeaseTheorems.
#[local] Open Scope string_scope.
#[local] Open Scope Z_scope.

Section Alone.
Context `{Env} `{!EnvOk} `{LedgerEnv} `{Machine} `{!MachineOk} (v : View) (fuel : nat) (t : task).
Abbreviation me := (fst t).

Lemma alone_bind {A B} (p : proc A) (f : A -> proc B) h :
  alone t (pbind p f) h = alone t p h ≫= fun ah => alone t (f (fst ah)) (snd ah).
Proof. revert h. induction p as [a|op k IH|]; intros h; [done| |done]. cbn [pbind alone]. apply IH. Qed.
Lemma alone_call {A} op (k : resp op -> proc A) h :
  alone t (pbind (call op) k) h = alone t (k (exec t op Run h).1) (exec t op Run h).2.
Proof. done. Qed.

(** ** The owner *)
Definition owner_file (h : Host) (name : string) : option Bytes := h_dirs h !! Lease name ≫= ld_owner.
(** Who the start identity says is alive at the pid of [o]. *)
Definition alive_now (h : Host) (o : LeaseOwner) : bool :=
  match process_at h (lo_pid o) with
  | None => false
  | Some q =>
      match lo_process_start_id o, start_of q with
      | Some expected, Some current => String.eqb current expected
      | _, _ => true
      end
  end.
Lemma alone_owner_alive h o : alone t (owner_alive o) h = Some (alive_now h o, h).
Proof.
  unfold owner_alive, alive_now. rewrite alone_call. cbn [exec fst snd]. destruct (process_at h (lo_pid o)) as [q|] eqn:E; [|done].
  destruct (lo_process_start_id o); [|done]. rewrite alone_call. cbn [exec fst snd]. rewrite E. cbn. by destruct (start_of q).
Qed.
Definition owner_of (h : Host) (name : string) (o : LeaseOwner) : Prop :=
  exists b doc, owner_file h name = Some b /\ from_slice b = inr doc /\ decode doc = Some o.
Lemma alone_read_none h name : owner_file h name = None -> alone t (read_owner name) h = Some (inr None, h).
Proof.
  intros Hn. unfold read_owner. rewrite alone_call. cbn [exec fst snd]. fold (owner_file h name). rewrite Hn. cbn [io_fail].
  by rewrite decide_True.
Qed.
Lemma alone_read_some h name o : owner_of h name o -> alone t (read_owner name) h = Some (inr (Some o), h).
Proof.
  intros (b & doc & Hb & Hf & Hd). unfold read_owner. rewrite alone_call. cbn [exec fst snd]. fold (owner_file h name).
  rewrite Hb. cbn iota. by rewrite Hf, Hd.
Qed.
(** Nobody alive owns the directory. *)
Definition vacant (h : Host) (name : string) : Prop :=
  owner_file h name = None \/ exists o, owner_of h name o /\ alive_now h o = false.
Lemma alone_refuse_vacant {A} h name canonical (otherwise : proc (lease_error + A)) :
  vacant h name -> alone t (refuse_or name canonical otherwise) h = alone t otherwise h.
Proof.
  intros [Hn|(o & Ho & Ha)]; unfold refuse_or; rewrite alone_bind.
  - rewrite alone_read_none by done. done.
  - rewrite (alone_read_some _ _ o) by done. cbn [mbind option_bind fst snd lease_reclaimable]. rewrite !alone_bind, alone_owner_alive.
    cbn. by rewrite Ha.
Qed.
Lemma alone_refuse_alive {A} h name canonical o (otherwise : proc (lease_error + A)) :
  owner_of h name o -> alive_now h o = true ->
  alone t (refuse_or name canonical otherwise) h = Some (inl (AlreadyActive (for_owner (path_display canonical) (Some o))), h).
Proof.
  intros Ho Ha. unfold refuse_or. rewrite alone_bind, (alone_read_some _ _ o) by done.
  cbn [mbind option_bind fst snd lease_reclaimable]. rewrite !alone_bind, alone_owner_alive. cbn. by rewrite Ha.
Qed.

(** ** One attempt *)
(** [h'] has the directories [d] and [draws]; the rest is as in [h]. *)
Record like (h : Host) (d : gmap entry LeaseDir) (draws : list task) (objs : list LeaseObj) (h' : Host) : Prop := {
  lk_dirs : h_dirs h' = d; lk_draws : h_draws h' = draws; lk_objs : h_objs h' = objs;
  lk_procs : h_procs h' = h_procs h; lk_clock : h_clock h' = h_clock h
}.
Lemma like_self h : like h (h_dirs h) (h_draws h) (h_objs h) h.
Proof. by split. Qed.
Lemma like_running h d dr ob h' p : like h d dr ob h' -> running h' p = running h p.
Proof. intros [_ _ _ Hp _]. unfold running. by rewrite Hp. Qed.
Lemma like_process h d dr ob h' pid : like h d dr ob h' -> process_at h' pid = process_at h pid.
Proof. intros [_ _ _ Hp _]. unfold process_at. by rewrite Hp. Qed.
Lemma like_alive h d dr ob h' o : like h d dr ob h' -> alive_now h' o = alive_now h o.
Proof. intros Hl. unfold alive_now. by rewrite (like_process _ _ _ _ _ _ Hl). Qed.

Lemma alone_draw {A} (k : nat -> proc A) h0 d dr ob h :
  like h0 d dr ob h -> exists h1, like h0 d (dr ++ [t]) ob h1 /\
    alone t (pbind (call NewUuid) k) h = alone t (k (List.length dr)) h1.
Proof.
  intros Hl. rewrite alone_call. cbn [exec fst snd]. rewrite (lk_draws _ _ _ _ _ Hl). eexists. split; [|reflexivity].
  destruct Hl. split; cbn; congruence.
Qed.
Lemma alone_make {A} (k : io_error + unit -> proc A) e h0 d dr ob h :
  like h0 d dr ob h -> exists h1 d1, (forall e', e' <> e -> d1 !! e' = d !! e') /\ is_Some (d1 !! e) /\ like h0 d1 dr ob h1 /\
    alone t (pbind (call (MakeCandidate e)) k) h = alone t (k io_ok) h1.
Proof.
  intros Hl. destruct (d !! e) as [x|] eqn:E.
  - exists h, d. split_and!; [done|by eexists|done|]. rewrite alone_call. cbn [exec]. by rewrite (lk_dirs _ _ _ _ _ Hl), E.
  - exists (set_dirs (<[e := mkLeaseDir None (h_clock h)]> d) h), (<[e := mkLeaseDir None (h_clock h)]> d). split_and!.
    + intros e' He. by apply insert_other.
    + rewrite lookup_insert_eq. by eexists.
    + by destruct Hl; split.
    + rewrite alone_call. cbn [exec]. rewrite (lk_dirs _ _ _ _ _ Hl), E. done.
Qed.
Lemma alone_write {A} (k : io_error + unit -> proc A) e b h0 d dr ob h :
  like h0 d dr ob h -> is_Some (d !! e) -> exists h1, like h0 (<[e := mkLeaseDir (Some b) (h_clock h0)]> d) dr ob h1 /\
    alone t (pbind (call (WriteOwner e b)) k) h = alone t (k io_ok) h1.
Proof.
  intros Hl [x Hx]. rewrite alone_call. cbn [exec]. unfold write_owner. rewrite (lk_dirs _ _ _ _ _ Hl), Hx, (lk_clock _ _ _ _ _ Hl).
  eexists. split; [|reflexivity]. by destruct Hl; split.
Qed.
Lemma alone_move {A} (k : io_error + unit -> proc A) a b x h0 d dr ob h :
  like h0 d dr ob h -> d !! a = Some x -> d !! b ≫= ld_owner = None -> exists h1, like h0 (<[b := x]> (delete a d)) dr ob h1 /\
    alone t (pbind (call (MoveDir a b)) k) h = alone t (k io_ok) h1.
Proof.
  intros Hl Hx Hn. rewrite alone_call. cbn [exec]. unfold move_entry. rewrite (lk_dirs _ _ _ _ _ Hl), Hx.
  eexists. split; [|destruct (d !! b) as [[[]]|]; [done|reflexivity..]]. by destruct Hl; split.
Qed.
Lemma alone_move_full {A} (k : io_error + unit -> proc A) a b x y h0 d dr ob h :
  like h0 d dr ob h -> d !! a = Some x -> d !! b ≫= ld_owner = Some y ->
  alone t (pbind (call (MoveDir a b)) k) h = alone t (k (io_fail DirectoryNotEmpty)) h.
Proof.
  intros Hl Hx Hn. rewrite alone_call. cbn [exec]. unfold move_entry. rewrite (lk_dirs _ _ _ _ _ Hl), Hx.
  by destruct (d !! b) as [[[]]|].
Qed.
Lemma alone_remove {A} (k : io_error + unit -> proc A) e h0 d dr ob h :
  like h0 d dr ob h -> exists h1 d1 r, (forall e', e' <> e -> d1 !! e' = d !! e') /\ d1 !! e = None /\ like h0 d1 dr ob h1 /\
    alone t (pbind (call (RemoveDir e)) k) h = alone t (k r) h1.
Proof.
  intros Hl. rewrite alone_call. cbn [exec]. unfold remove_entry. rewrite (lk_dirs _ _ _ _ _ Hl). destruct (d !! e) as [x|] eqn:E.
  - eexists _, (delete e d), _. split_and!; [| | |reflexivity].
    + intros e' He. by apply delete_other.
    + apply lookup_delete_eq.
    + by destruct Hl; split.
  - by eexists _, d, _.
Qed.
(** The owner file of an attempt, at the point of its rename. *)
Lemma alone_attempt n session_path canonical name h0 d dr ob h (token := List.length dr) :
  Inv h0 -> running h0 me = true -> like h0 d dr ob h ->
  exists b d1 h1 (cand := Candidate name (pid_of me) (S token)),
    names me token b /\ (forall e, e <> cand -> d1 !! e = d !! e) /\ d1 !! cand = Some (mkLeaseDir (Some b) (h_clock h0)) /\
    like h0 d1 (dr ++ [t; t]) ob h1 /\
    alone t (acquire_attempts (S n) me session_path canonical name) h
    = alone t (let@ moved := call (MoveDir cand (Lease name)) in
        match moved with
        | inr _ => let@ id := call (NewLease canonical session_path name token) in Ret (inr (mkLease id canonical session_path name token))
        | inl e =>
            do@ call (RemoveDir cand) in
            if decide (io_error_kind e = NotFound) then acquire_attempts n me session_path canonical name
            else if is_rename_target_contention e then
              refuse_or name canonical (do@ reclaim_stale me name in acquire_attempts n me session_path canonical name)
            else Ret (of_io e)
        end) h1.
Proof.
  intros Hi Hrun Hl. cbn [acquire_attempts].
  match goal with |- context [alone t (pbind (call NewUuid) ?k) h] => destruct (alone_draw k h0 d dr ob h Hl) as (h1 & Hl1 & ->) end.
  match goal with |- context [alone t (pbind (call NewUuid) ?k) h1] => destruct (alone_draw k h0 d _ ob h1 Hl1) as (h2 & Hl2 & ->) end.
  rewrite length_app, Nat.add_1_r. cbv zeta. fold token. set (cand := Candidate name (pid_of me) (S token)).
  match goal with |- context [alone t (pbind (call (MakeCandidate _)) ?k) h2] =>
    destruct (alone_make k cand h0 d _ ob h2 Hl2) as (h3 & d3 & Ho3 & Hc3 & Hl3 & ->) end.
  unfold io_ok at 1. cbv iota beta. rewrite alone_call. cbn [exec fst snd]. set (start := process_at h3 (pid_of me) ≫= start_of).
  assert (start = start_of me) as Hst.
  { unfold start. rewrite (like_process _ _ _ _ _ _ Hl3). destruct (process_at h0 (pid_of me)) as [q|] eqn:E.
    - apply process_at_Some in E as [Hq Hp]. cbn. f_equal. by apply (i_pids _ Hi).
    - by destruct (process_at_None _ _ _ E Hrun). }
  rewrite alone_call. cbn [exec fst snd]. set (o := owner_doc me token start canonical (iso_from_unix_ms (h_clock h3))).
  assert (codec_wf o) as Hwf by (split; [unfold is_u32, u32_max; cbn; lia|apply pid_u32]).
  destruct (json_text_round_trip _ (encode_representable o Hwf)) as (b & Hb & Hf). rewrite Hb. unfold publish.
  match goal with |- context [alone t (pbind (call (WriteOwner _ _)) ?k) h3] =>
    destruct (alone_write k cand b h0 d3 _ ob h3 Hl3 Hc3) as (h4 & Hl4 & ->) end.
  exists b, (<[cand := mkLeaseDir (Some b) (h_clock h0)]> d3), h4. split_and!.
  - apply (written_names t token start canonical _ b Hb). by right.
  - intros e He. rewrite insert_other by done. by apply Ho3.
  - apply lookup_insert_eq.
  - rewrite <- app_assoc in Hl4. exact Hl4.
  - done.
Qed.

(** ** The attempts *)
Lemma like_owner h0 d dr ob h name : like h0 d dr ob h -> owner_file h name = d !! Lease name ≫= ld_owner.
Proof. intros Hl. unfold owner_file. by rewrite (lk_dirs _ _ _ _ _ Hl). Qed.
(** The lease was taken: its owner file and its object are there. *)
Definition taken (h0 : Host) (ob : list LeaseObj) (canonical session_path : path) (name : string) (r : lease_error + SessionLease) (h : Host) : Prop :=
  exists token d dr (l := mkLease (List.length ob) canonical session_path name token) b m,
    r = inr l /\ d !! Lease name = Some (mkLeaseDir (Some b) m) /\ names me token b /\
    like h0 d dr (ob ++ [mkObj l me false ∅ false]) h.
Lemma attempt_free n session_path canonical name h0 d dr ob h :
  Inv h0 -> running h0 me = true -> like h0 d dr ob h -> d !! Lease name ≫= ld_owner = None ->
  exists r h1, alone t (acquire_attempts (S n) me session_path canonical name) h = Some (r, h1) /\ taken h0 ob canonical session_path name r h1.
Proof.
  intros Hi Hrun Hl Hn. destruct (alone_attempt n session_path canonical name h0 d dr ob h Hi Hrun Hl) as (b & d1 & h1 & Hb & Ho & Hc & Hl1 & ->).
  match goal with |- context [alone t (pbind (call (MoveDir ?a _)) ?k) h1] =>
    destruct (alone_move k a (Lease name) _ h0 d1 _ ob h1 Hl1 Hc) as (h2 & Hl2 & ->) end.
  { by rewrite Ho. }
  unfold io_ok. cbv iota beta. rewrite alone_call. cbn [exec fst snd alone]. rewrite (lk_objs _ _ _ _ _ Hl2).
  eexists _, _. split; [reflexivity|]. eexists _, _, _, b, _. split_and!; [reflexivity|apply lookup_insert_eq|exact Hb|].
  destruct Hl2. split; cbn; try done.
Qed.
Lemma attempt_stale n session_path canonical name h0 d dr ob h :
  Inv h0 -> running h0 me = true -> like h0 d dr ob h -> vacant h name ->
  (forall pid u, (List.length dr <= u)%nat -> d !! Stale name pid u = None) ->
  exists r h1, alone t (acquire_attempts (S (S n)) me session_path canonical name) h = Some (r, h1) /\ taken h0 ob canonical session_path name r h1.
Proof.
  intros Hi Hrun Hl Hv Hfresh. destruct (d !! Lease name ≫= ld_owner) as [old|] eqn:Eold; [|by eapply attempt_free].
  destruct (alone_attempt (S n) session_path canonical name h0 d dr ob h Hi Hrun Hl) as (b & d1 & h1 & Hb & Ho & Hc & Hl1 & ->).
  set (cand := Candidate name (pid_of me) (S (List.length dr))) in *.
  rewrite (alone_move_full _ cand (Lease name) _ old h0 d1 _ ob h1 Hl1 Hc) by (by rewrite Ho). cbv beta. unfold io_fail. cbn iota.
  match goal with |- context [alone t (pbind (call (RemoveDir _)) ?k) h1] =>
    destruct (alone_remove k cand h0 d1 _ ob h1 Hl1) as (h2 & d2 & r2 & Ho2 & Hc2 & Hl2 & ->) end.
  assert (forall e, e <> cand -> d2 !! e = d !! e) as Hd2 by (intros e He; rewrite Ho2, Ho; done).
  cbv beta. rewrite decide_False by done. change (is_rename_target_contention (os_error DirectoryNotEmpty)) with true. cbv iota.
  rewrite alone_refuse_vacant.
  2: { destruct Hv as [Hno|(o & (x & doc & Hx & Hf & Hdec) & Ha)].
       - rewrite (like_owner _ _ _ _ _ _ Hl) in Hno. congruence.
       - right. exists o. split; [|rewrite (like_alive _ _ _ _ _ _ Hl2), <- (like_alive _ _ _ _ _ _ Hl); done].
         exists x, doc. split_and!; [|done..]. rewrite (like_owner _ _ _ _ _ _ Hl2), Hd2 by done. by rewrite <- (like_owner _ _ _ _ _ _ Hl). }
  rewrite alone_bind. unfold reclaim_stale.
  match goal with |- context [alone t (pbind (call NewUuid) ?k) h2] => destruct (alone_draw k h0 d2 _ ob h2 Hl2) as (h3 & Hl3 & ->) end.
  cbv zeta. set (u := List.length (dr ++ [t; t])).
  assert (is_Some (d2 !! Lease name)) as [dl Hdl].
  { rewrite Hd2 by done. destruct (d !! Lease name) as [dl|]; [by eexists|done]. }
  match goal with |- context [alone t (pbind (call (MoveDir (Lease name) ?s)) ?k) h3] =>
    destruct (alone_move k (Lease name) s dl h0 d2 _ ob h3 Hl3 Hdl) as (h4 & Hl4 & ->) end.
  { rewrite Hd2 by done. rewrite Hfresh; [done|]. unfold u. rewrite length_app. lia. }
  unfold io_ok. cbv iota beta.
  match goal with |- context [alone t (pbind (call (RemoveDir ?s)) ?k) h4] =>
    destruct (alone_remove k s h0 _ _ ob h4 Hl4) as (h5 & d5 & r5 & Ho5 & Hc5 & Hl5 & ->) end.
  cbn [alone mbind option_bind fst snd]. eapply attempt_free; [done|done|done|].
  rewrite Ho5 by done. rewrite insert_other by done. by rewrite lookup_delete_eq.
Qed.
Lemma attempt_refused n session_path canonical name o h0 d dr ob h :
  Inv h0 -> running h0 me = true -> like h0 d dr ob h -> owner_of h name o -> alive_now h o = true ->
  exists h1, alone t (acquire_attempts (S n) me session_path canonical name) h
    = Some (inl (AlreadyActive (for_owner (path_display canonical) (Some o))), h1) /\ h_dirs h1 !! Lease name = d !! Lease name.
Proof.
  intros Hi Hrun Hl Hown Ha. pose proof Hown as (old & doc & Hold & Hf & Hdec). rewrite (like_owner _ _ _ _ _ _ Hl) in Hold.
  destruct (alone_attempt n session_path canonical name h0 d dr ob h Hi Hrun Hl) as (b & d1 & h1 & Hb & Ho & Hc & Hl1 & ->).
  set (cand := Candidate name (pid_of me) (S (List.length dr))) in *.
  rewrite (alone_move_full _ cand (Lease name) _ old h0 d1 _ ob h1 Hl1 Hc) by (by rewrite Ho). cbv beta. unfold io_fail. cbn iota.
  match goal with |- context [alone t (pbind (call (RemoveDir _)) ?k) h1] =>
    destruct (alone_remove k cand h0 d1 _ ob h1 Hl1) as (h2 & d2 & r2 & Ho2 & Hc2 & Hl2 & ->) end.
  assert (d2 !! Lease name = d !! Lease name) as Hd2 by (rewrite Ho2, Ho; done).
  cbv beta. rewrite decide_False by done. change (is_rename_target_contention (os_error DirectoryNotEmpty)) with true. cbv iota.
  rewrite (alone_refuse_alive _ _ _ o).
  - exists h2. split; [done|]. by rewrite (lk_dirs _ _ _ _ _ Hl2).
  - exists old, doc. split_and!; [|done..]. by rewrite (like_owner _ _ _ _ _ _ Hl2), Hd2.
  - by rewrite (like_alive _ _ _ _ _ _ Hl2), <- (like_alive _ _ _ _ _ _ Hl).
Qed.

(** ** The guard *)
Definition guard_free (h : Host) (name : string) : Prop :=
  match h_dirs h !! Guard name with None => True | Some g => STALE_GUARD_AFTER < h_clock h - ld_mtime g end.
Lemma alone_enter n name deadline attempt h :
  h_dirs h !! Guard name = None ->
  exists h1, like h (<[Guard name := mkLeaseDir None (h_clock h)]> (h_dirs h)) (h_draws h) (h_objs h) h1 /\
    alone t (guard_loop (S n) name deadline attempt) h = Some (inr true, h1).
Proof.
  intros Hn. cbn [guard_loop]. rewrite alone_call. cbn [exec]. rewrite Hn. eexists. split; [|reflexivity]. by split.
Qed.
Lemma alone_guard name h :
  (2 <= fuel)%nat -> vacant h name -> guard_free h name ->
  exists d h1, (forall e, e <> Guard name -> d !! e = h_dirs h !! e) /\ like h d (h_draws h) (h_objs h) h1 /\
    alone t (guard_acquire fuel name ThroughStale) h = Some (inr true, h1).
Proof.
  intros Hf Hv Hg. unfold guard_acquire. rewrite alone_call. cbn [exec fst snd]. destruct fuel as [|[|f]]; [lia..|].
  destruct (h_dirs h !! Guard name) as [g|] eqn:Eg.
  2: { destruct (alone_enter (S f) name (Some (h_clock h + STALE_GUARD_AFTER + THROUGH_STALE_SLACK)) 0 h Eg) as (h1 & Hl & ->).
       eexists _, h1. split_and!; [|exact Hl|done]. intros e He. by apply insert_other. }
  unfold guard_free in Hg. rewrite Eg in Hg. remember (S f) as f' eqn:Ef. cbn [guard_loop]. rewrite alone_call. cbn [exec]. rewrite Eg.
  cbn [fst snd]. unfold io_fail. cbv iota. rewrite decide_True by done. cbv zeta. rewrite alone_bind, alone_call. cbn [exec fst snd alone mbind option_bind].
  assert (h_clock h + STALE_GUARD_AFTER + THROUGH_STALE_SLACK <=? h_clock h = false) as ->.
  { apply Z.leb_gt. unfold STALE_GUARD_AFTER, THROUGH_STALE_SLACK. lia. }
  rewrite alone_bind. assert (alone t (stale_guard name) h = Some (true, h)) as ->.
  { unfold stale_guard. rewrite alone_call. cbn [exec fst snd]. rewrite Eg. cbn [fmap option_fmap option_map]. rewrite alone_call. cbn [exec fst snd].
    assert (STALE_GUARD_AFTER <? h_clock h - ld_mtime g = true) as -> by (by apply Z.ltb_lt). rewrite alone_bind.
    destruct Hv as [Hn|(o & Ho & Ha)].
    - by rewrite alone_read_none.
    - rewrite (alone_read_some _ _ o) by done. cbn [mbind option_bind fst snd]. rewrite alone_bind, alone_owner_alive. cbn. by rewrite Ha. }
  cbn [mbind option_bind fst snd]. rewrite alone_bind, alone_call. cbn [exec]. unfold remove_entry. rewrite Eg.
  cbn [fst snd alone mbind option_bind io_ok]. subst f'.
  match goal with |- context [alone t (guard_loop (S f) name ?dl ?a) ?h2] =>
    destruct (alone_enter f name dl a h2) as (h3 & Hl3 & ->) end.
  { cbn. apply lookup_delete_eq. }
  eexists _, h3. split_and!; [|destruct Hl3; split; cbn in *; try done|done].
  intros e He. cbn. by rewrite insert_other, delete_other.
Qed.
Lemma alone_guarded {A} name (action : proc (lease_error + A)) h h1 r h2 :
  alone t (guard_acquire fuel name ThroughStale) h = Some (inr true, h1) -> alone t action h1 = Some (r, h2) ->
  exists h3, alone t (with_lease_guard fuel name ThroughStale action) h = Some (r, h3) /\
    (forall e, e <> Guard name -> h_dirs h3 !! e = h_dirs h2 !! e) /\ h_objs h3 = h_objs h2.
Proof.
  intros Hg Ha. unfold with_lease_guard. rewrite alone_bind, Hg. cbn [mbind option_bind fst snd]. rewrite alone_bind, Ha.
  cbn [mbind option_bind fst snd]. rewrite alone_call. cbn [exec alone].
  destruct (remove_entry (Some t) (Guard name) h2) as [x h'] eqn:E. eexists. split_and!; [reflexivity|..].
  - intros e He. cbn. unfold remove_entry in E. destruct (h_dirs h2 !! Guard name); injection E as <- <-; [|done]. cbn. by apply delete_other.
  - cbn. unfold remove_entry in E. by destruct (h_dirs h2 !! Guard name); injection E as <- <-.
Qed.
Lemma like_vacant h0 d dr ob h name : like h0 d dr ob h -> d !! Lease name = h_dirs h0 !! Lease name -> vacant h0 name -> vacant h name.
Proof.
  intros Hl Hd. assert (owner_file h name = owner_file h0 name) as E by (rewrite (like_owner _ _ _ _ _ _ Hl), Hd; done).
  intros [Hn|(o & Ho & Ha)]; [left; congruence|right]. exists o. unfold owner_of. rewrite E. split; [done|].
  by rewrite (like_alive _ _ _ _ _ _ Hl).
Qed.
(** A live holder's owner file says it is alive. *)
Lemma holder_alive h id o : Inv h -> h_objs h !! id = Some o -> holder h o ->
  exists w, owner_of h (sl_directory (ob_lease o)) w /\ alive_now h w = true /\ lo_pid w = pid_of (ob_proc o).
Proof.
  intros Hi Ho Hh. destruct (i_owned _ Hi id o Ho Hh) as (d & b & Hd & Hb & doc & w & Hf & Hdec & _ & Hpid & Hst).
  exists w. split_and!; [|..|done].
  - exists b, doc. split_and!; [|done..]. unfold owner_file. by rewrite Hd.
  - unfold alive_now. rewrite Hpid. destruct Hh as [Hrun _]. destruct (process_at h (pid_of (ob_proc o))) as [q|] eqn:E.
    + apply process_at_Some in E as [Hq Hp]. assert (q = ob_proc o) as -> by (by apply (i_pids _ Hi)).
      destruct Hst as [-> | ->]; [done|]. destruct (start_of (ob_proc o)); [apply String.eqb_refl|done].
    + by destruct (process_at_None _ _ _ E Hrun).
Qed.

(** C37: from every state the system can reach, a thread that nobody disturbs
    acquires a session whose recorded owner is gone, or that has none, even
    over a guard some thread left behind, once it is stale; the owner file
    then names the thread's process. *)
Theorem lease_recovers s session_path (name := lease_directory v (canonical_session_path v session_path)) :
  reachable v fuel s -> h_robbed (s_host s) = false -> running (s_host s) me = true -> (2 <= fuel)%nat ->
  vacant (s_host s) name -> guard_free (s_host s) name ->
  exists l h', alone t (acquire_runtime_session_lease v fuel me session_path) (s_host s) = Some (inr l, h') /\
    sl_directory l = name /\ dir_names h' name me (sl_token l) /\ h_objs h' !! sl_id l = Some (mkObj l me false ∅ false).
Proof.
  intros Hs Hrob Hrun Hf Hv Hg. pose proof (g_inv _ (reachable_good v fuel s Hs Hrob)) as Hi.
  destruct (alone_guard name (s_host s) Hf Hv Hg) as (d & h1 & Hd & Hl1 & Hacq).
  destruct (attempt_stale 1 session_path (canonical_session_path v session_path) name (s_host s) d _ _ h1 Hi Hrun Hl1) as (r & h2 & Ha & Htaken).
  { by apply (like_vacant _ _ _ _ _ _ Hl1); [apply Hd|]. }
  { intros pid u Hu. rewrite Hd by done. apply eq_None_not_Some. intros Hst. apply (i_stale _ Hi) in Hst as [x Hx].
    apply lookup_lt_Some in Hx. lia. }
  destruct Htaken as (token & d2 & dr2 & b & m & -> & Hd2 & Hb & Hl2).
  destruct (alone_guarded name _ _ _ _ _ Hacq Ha) as (h3 & Hrun3 & Hd3 & Ho3). eexists _, h3. split_and!.
  - unfold acquire_runtime_session_lease. cbv zeta. rewrite alone_call. exact Hrun3.
  - done.
  - exists (mkLeaseDir (Some b) m), b. split_and!; [|done..]. rewrite Hd3, (lk_dirs _ _ _ _ _ Hl2) by done. exact Hd2.
  - rewrite Ho3, (lk_objs _ _ _ _ _ Hl2). cbn. by rewrite lookup_app_r, Nat.sub_diag by lia.
Qed.

(** From every state the system can reach, a thread that nobody disturbs
    is refused a session a live process holds; the refusal names that process
    and the holder's owner file is untouched. *)
Theorem lease_refused s session_path id o (name := lease_directory v (canonical_session_path v session_path)) :
  reachable v fuel s -> h_robbed (s_host s) = false -> running (s_host s) me = true -> (1 <= fuel)%nat ->
  h_objs (s_host s) !! id = Some o -> running (s_host s) (ob_proc o) = true -> ob_released o = false ->
  sl_directory (ob_lease o) = name -> h_dirs (s_host s) !! Guard name = None ->
  exists e h', alone t (acquire_runtime_session_lease v fuel me session_path) (s_host s) = Some (inl (AlreadyActive e), h') /\
    ae_holder_pid e = Some (pid_of (ob_proc o)) /\ h_dirs h' !! Lease name = h_dirs (s_host s) !! Lease name.
Proof.
  intros Hs Hrob Hrun Hf Ho Hro Hrel Hdir Hg. pose proof (g_inv _ (reachable_good v fuel s Hs Hrob)) as Hi.
  destruct (holder_alive _ id o Hi Ho (unreleased_holder _ _ _ Hi Ho Hro Hrel)) as (w & Hw & Ha & Hpid). rewrite Hdir in Hw.
  destruct fuel as [|n] eqn:Ef; [lia|].
  destruct (alone_enter n name (Some (h_clock (s_host s) + STALE_GUARD_AFTER + THROUGH_STALE_SLACK)) 0 (s_host s) Hg) as (h1 & Hl1 & Hacq).
  destruct (attempt_refused 2 session_path (canonical_session_path v session_path) name w (s_host s) _ _ _ h1 Hi Hrun Hl1) as (h2 & Hrun2 & Hd2).
  { destruct Hw as (b & doc & Hb & Hrest). exists b, doc. split; [|done]. rewrite (like_owner _ _ _ _ _ _ Hl1), insert_other by done. exact Hb. }
  { by rewrite (like_alive _ _ _ _ _ _ Hl1). }
  rewrite insert_other in Hd2 by done.
  assert (alone t (guard_acquire fuel name ThroughStale) (s_host s) = Some (inr true, h1)) as Hacq'.
  { unfold guard_acquire. rewrite alone_call, Ef. exact Hacq. }
  destruct (alone_guarded name _ _ _ _ _ Hacq' Hrun2) as (h3 & Hrun3 & Hd3 & _). eexists _, h3. split_and!.
  - unfold acquire_runtime_session_lease. cbv zeta. rewrite alone_call. rewrite Ef in Hrun3. exact Hrun3.
  - cbn. by rewrite Hpid.
  - by rewrite Hd3.
Qed.
End Alone.

(** ** A concrete machine *)
#[local] Instance desk_ledger : LedgerEnv := {| f64_text _ := "0"; text_f64 _ := f64_zero; sha256 s := String "k" s |}.
#[local] Instance desk : Machine := {|
  uuid_text u := show_Z (Z.of_nat u); uuid_simple u := show_Z (Z.of_nat u); pid_of p := Z.of_nat p mod 4294967296;
  start_of p := Some ("proc:" ++ show_Z (Z.of_nat p)); owner_id_env _ := None; leases_env _ := Some "1"
|}.
Lemma show_nat_inj a b : show_Z (Z.of_nat a) = show_Z (Z.of_nat b) -> a = b.
Proof.
  intros E. set (hi := Z.of_nat a + Z.of_nat b). pose proof (parse_show_Z hi (Z.of_nat a) ltac:(lia)) as Ha.
  rewrite E, (parse_show_Z hi (Z.of_nat b)) in Ha by lia. injection Ha as Ha. lia.
Qed.
#[local] Instance desk_ok : MachineOk.
Proof.
  split.
  - apply show_nat_inj.
  - intros u. apply show_plain.
  - intros p. cbn. unfold is_u32, u32_max. pose proof (Z.mod_pos_bound (Z.of_nat p) 4294967296 ltac:(lia)). lia.
  - done.
Qed.
Definition desk_view : View := mkView (fun p => Some p) ∅ ∅ None.
Definition session : path := ["/"; "s.jsonl"].
Definition desk_dir : string := lease_directory desk_view session.

(** Runs without failing calls. *)
Definition act (t : task) (n : nat) : list label := repeat (Do t Run) n.
Definition can_play (ls : list label) : bool := match sys_run desk_view 50 ls boot with Some _ => true | None => false end.
Definition play (ls : list label) : Sys := default boot (sys_run desk_view 50 ls boot).
Lemma play_reachable ls : can_play ls = true -> reachable desk_view 50 (play ls).
Proof. unfold can_play, play. intros Hc. exists ls. by destruct (sys_run desk_view 50 ls boot). Qed.
Definition t0 : task := (0, 0)%nat.
Definition t1 : task := (1, 0)%nat.
Definition t2 : task := (2, 0)%nat.
Definition t3 : task := (3, 0)%nat.

(** Process 0 acquires and dies; processes 1 and 2 contend for its lease with
    interleaved calls. *)
Definition contended : Sys :=
  play ([Start 0; Begin t0 (JobAcquire session)] ++ act t0 12 ++ [Kill 0; Start 1; Start 2; Begin t1 (JobAcquire session);
         Begin t2 (JobAcquire session)] ++ act t1 5 ++ act t2 6 ++ act t1 20 ++ act t2 4)%list.
Lemma contended_reachable : reachable desk_view 50 contended.
Proof. apply play_reachable. vm_compute. reflexivity. Qed.
Definition lease_now (s : Sys) (id : nat) : LeaseObj :=
  default (mkObj (mkLease 0 [] [] "" 0) 0 true ∅ true) (h_objs (s_host s) !! id).
Definition free_lease (s : Sys) (id : nat) : bool :=
  match h_objs (s_host s) !! id with Some o => running (s_host s) (ob_proc o) && negb (ob_released o) | None => false end.
Lemma lease_now_spec s id : free_lease s id = true ->
  h_objs (s_host s) !! id = Some (lease_now s id) /\ running (s_host s) (ob_proc (lease_now s id)) = true /\ ob_released (lease_now s id) = false.
Proof. unfold free_lease, lease_now. destruct (h_objs (s_host s) !! id); [|done]. by intros [? ?%negb_true_iff]%andb_true_iff. Qed.
Example contended_lease : free_lease contended 1 = true /\ h_robbed (s_host contended) = false.
Proof. vm_compute. split; reflexivity. Qed.
Lemma lease_exclusive_witness :
  h_robbed (s_host contended) = false /\
  forall j o, h_objs (s_host contended) !! j = Some o -> running (s_host contended) (ob_proc o) = true -> ob_released o = false ->
    sl_directory (ob_lease o) = sl_directory (ob_lease (lease_now contended 1)) -> j = 1%nat.
Proof.
  pose proof (lease_now_spec contended 1 (proj1 contended_lease)) as (Ho1 & Hr1 & Hrel1). split; [exact (proj2 contended_lease)|].
  intros j o Ho Hr Hrel Hd.
  exact (lease_exclusive desk_view 50 contended j 1 o (lease_now contended 1) contended_reachable (proj2 contended_lease) Ho Ho1 Hr Hr1 Hrel Hrel1 Hd).
Defined.

(** Process 0 holds the lease; one thread appends while another releases. *)
Definition writer : task := (0, 1)%nat.
Definition releaser : task := (0, 2)%nat.
Definition appending : Sys :=
  play ([Start 0; Begin t0 (JobAcquire session)] ++ act t0 12 ++ [Begin writer (JobAppend 0 session "row")] ++ act writer 2
        ++ [Begin releaser (JobRelease 0)] ++ act releaser 7)%list.
Lemma appending_reachable : reachable desk_view 50 appending.
Proof. apply play_reachable. vm_compute. reflexivity. Qed.
Definition about_to_append (s : Sys) (t : task) : bool :=
  match s_tasks s !! t with Some (Call (AppendRow 0 p bytes) _) => bool_decide (p = session) && String.eqb bytes "row" | _ => false end.
Example appending_state :
  about_to_append appending writer = true /\ h_robbed (s_host appending) = false /\ h_overrun (s_host appending) = false /\
  running (s_host appending) 0 = true /\ free_lease appending 0 = false.
Proof. vm_compute. split_and!; reflexivity. Qed.
Lemma about_to_append_spec s t : about_to_append s t = true -> exists k, s_tasks s !! t = Some (Call (AppendRow 0 session "row") k).
Proof.
  unfold about_to_append. destruct (s_tasks s !! t) as [[|[] k|]|]; try done. destruct id; [|done].
  intros [->%bool_decide_eq_true ->%String.eqb_eq]%andb_true_iff. by exists k.
Qed.
Lemma append_is_fenced_witness :
  exists o, h_objs (s_host appending) !! 0%nat = Some o /\
    dir_names (s_host appending) (sl_directory (ob_lease o)) (ob_proc o) (sl_token (ob_lease o)).
Proof.
  destruct appending_state as (Ha & Hrob & Hov & Hrun & _). destruct (about_to_append_spec _ _ Ha) as [k Hk].
  destruct (append_is_fenced desk_view 50 appending writer 0 session "row" k appending_reachable Hrob Hov Hk Hrun) as (o & Ho & Hn & _).
  exists o. split; [exact Ho|exact Hn].
Defined.

(** Process 0 held the lease and died, process 1 died inside the guard. *)
Definition abandoned : Sys :=
  play ([Start 0; Begin t0 (JobAcquire session)] ++ act t0 12 ++ [Kill 0; Start 1; Begin t1 (JobAcquire session)] ++ act t1 3
        ++ [Kill 1; Tick 6000; Start 2; Start 3])%list.
Lemma abandoned_reachable : reachable desk_view 50 abandoned.
Proof. apply play_reachable. vm_compute. reflexivity. Qed.
Example abandoned_state :
  h_robbed (s_host abandoned) = false /\ running (s_host abandoned) 2 = true /\
  match h_dirs (s_host abandoned) !! Guard desk_dir with Some g => Z.ltb STALE_GUARD_AFTER (h_clock (s_host abandoned) - ld_mtime g) | None => false end = true /\
  match owner_file (s_host abandoned) desk_dir with
  | Some b => match from_slice b with inr doc => match decode doc with Some o => negb (alive_now (s_host abandoned) o) | None => false end | inl _ => false end
  | None => false
  end = true.
Proof. vm_compute. split_and!; reflexivity. Qed.
Lemma lease_recovers_witness :
  exists l h', alone t2 (acquire_runtime_session_lease desk_view 50 2 session) (s_host abandoned) = Some (inr l, h') /\
    sl_directory l = desk_dir /\ dir_names h' desk_dir 2 (sl_token l).
Proof.
  destruct abandoned_state as (Hrob & Hrun & Hg & Hv).
  destruct (lease_recovers desk_view 50 t2 abandoned session abandoned_reachable Hrob Hrun ltac:(lia)) as (l & h' & Ha & Hd & Hn & _).
  - right. change (lease_directory desk_view (canonical_session_path desk_view session)) with desk_dir.
    destruct (owner_file (s_host abandoned) desk_dir) as [b|] eqn:Eb; [|discriminate Hv].
    destruct (from_slice b) as [|doc] eqn:Ef; [discriminate Hv|]. destruct (decode doc) as [o|] eqn:Ed; [|discriminate Hv].
    exists o. split; [exists b, doc; split_and!; [exact Eb|exact Ef|exact Ed]|]. by apply negb_true_iff.
  - unfold guard_free. change (lease_directory desk_view (canonical_session_path desk_view session)) with desk_dir.
    destruct (h_dirs (s_host abandoned) !! Guard desk_dir) as [g|]; [|exact I]. by apply Z.ltb_lt.
  - exists l, h'. split; [exact Ha|]. split; [exact Hd|exact Hn].
Defined.

(** Process 0 holds the lease. *)
Definition held : Sys := play ([Start 0; Start 1; Begin t0 (JobAcquire session)] ++ act t0 12)%list.
Lemma held_reachable : reachable desk_view 50 held.
Proof. apply play_reachable. vm_compute. reflexivity. Qed.
Example held_state :
  h_robbed (s_host held) = false /\ running (s_host held) 1 = true /\ free_lease held 0 = true /\
  sl_directory (ob_lease (lease_now held 0)) = desk_dir /\ ob_proc (lease_now held 0) = 0%nat /\
  match h_dirs (s_host held) !! Guard desk_dir with Some _ => false | None => true end = true.
Proof. vm_compute. split_and!; reflexivity. Qed.
Lemma lease_refused_witness :
  exists e h', alone t1 (acquire_runtime_session_lease desk_view 50 1 session) (s_host held) = Some (inl (AlreadyActive e), h') /\
    ae_holder_pid e = Some 0.
Proof.
  destruct held_state as (Hrob & Hrun & Hf & Hd & Hp & Hg). destruct (lease_now_spec held 0 Hf) as (Ho & Hr & Hrel).
  destruct (lease_refused desk_view 50 t1 held session 0 (lease_now held 0) held_reachable Hrob Hrun ltac:(lia) Ho Hr Hrel Hd) as (e & h' & Ha & He & _).
  - change (lease_directory desk_view (canonical_session_path desk_view session)) with desk_dir.
    destruct (h_dirs (s_host held) !! Guard desk_dir); [discriminate Hg|reflexivity].
  - exists e, h'. split; [exact Ha|]. rewrite Hp in He. exact He.
Defined.

(** ** A guard is robbed
    Two waiters find the same stale guard, left by a dead process over a dead
    owner.  The second removes the guard the first has just made; both are
    inside, both judge the dead owner, and the second moves the first's fresh
    lease away: two live processes hold one session. *)
Definition robbery : Sys :=
  play ([Start 0; Begin t0 (JobAcquire session)] ++ act t0 12 ++ [Kill 0; Start 1; Begin t1 (JobAcquire session)] ++ act t1 3
        ++ [Kill 1; Tick 6000; Start 2; Start 3; Begin t2 (JobAcquire session); Begin t3 (JobAcquire session)]
        ++ act t2 8 ++ act t3 8 ++ act t2 2 ++ act t3 2 ++ act t2 10 ++ act t3 10 ++ act t2 12 ++ act t3 11)%list.
Example guard_robbery :
  can_play ([Start 0; Begin t0 (JobAcquire session)] ++ act t0 12 ++ [Kill 0; Start 1; Begin t1 (JobAcquire session)] ++ act t1 3
        ++ [Kill 1; Tick 6000; Start 2; Start 3; Begin t2 (JobAcquire session); Begin t3 (JobAcquire session)]
        ++ act t2 8 ++ act t3 8 ++ act t2 2 ++ act t3 2 ++ act t2 10 ++ act t3 10 ++ act t2 12 ++ act t3 11)%list = true /\
  free_lease robbery 1 = true /\ free_lease robbery 2 = true /\
  sl_directory (ob_lease (lease_now robbery 1)) = sl_directory (ob_lease (lease_now robbery 2)) /\
  ob_proc (lease_now robbery 1) = 2%nat /\ ob_proc (lease_now robbery 2) = 3%nat /\ h_robbed (s_host robbery) = true.
Proof. vm_compute. split_and!; reflexivity. Qed.
