(* ===== verification/Revival.v ===== *)
(** * Supervising workers: revival at boot, restarts and give-up

    [revival_gate.rs], the boot decision of [supervisor/adoption.rs] and the
    watch loop of [supervisor/supervision.rs].  A supervisor that starts finds
    the descriptors of the workers of an earlier one; it adopts those that
    still answer, finishes the stops that were begun, and relaunches a dead
    worker only on evidence of interrupted work.  While it runs, it restarts a
    worker that exits, a little later each time, and gives up on one that keeps
    dying young. *)
From S2P Require Import Prelude RustStr Lines Json Time World LedgerReplay LedgerFile Effects Journal JournalProofs JournalTheorems JournalLives Lease.
#[local] Open Scope string_scope.
#[local] Open Scope Z_scope.

(** [u64::saturating_add]. *)
Definition u64_saturating_add (a b : Z) : Z := Z.min u64_max (a + b).

(** ** The durable descriptor of a worker *)
Inductive DaemonWorkerLifecycle := Starting | Ready | Recovering | Stopping | Failed.
#[export] Instance lifecycle_eq_dec : EqDecision DaemonWorkerLifecycle.
Proof. solve_decision. Defined.
Record DurableDaemonCreateCommand := mkCreate {
  cc_session_path : option string;
  cc_no_session : option bool;
  cc_rest : list (string * Value)
}.
Record DaemonWorkerDescriptor := mkDescriptor {
  dw_version : Z;
  dw_worker_id : string;
  dw_pid : Z;
  dw_process_start_id : option string;
  dw_socket_path : string;
  dw_recovery_journal_path : string;
  dw_orphan_process_journal_path : option string;
  dw_supervisor_socket_path : string;
  dw_authentication_token : string;
  dw_worker_instance_id : option string;
  dw_root_active_session_id : string;
  dw_owner_client_id : option string;
  dw_root_session_id : option string;
  dw_session_file : option string;
  dw_session_dir : option string;
  dw_telemetry_disabled : option bool;
  dw_created_at : string;
  dw_updated_at : string;
  dw_lifecycle : DaemonWorkerLifecycle;
  dw_create_command : DurableDaemonCreateCommand;
  dw_consecutive_failures : Z;
  dw_stop_requested_at : option string;
  dw_archive_on_stop : option bool;
  dw_last_failure_at : option string;
  dw_last_error : option string;
  dw_rest : list (string * Value)
}.

(** [descriptor.rs]: the check of a descriptor that was read. *)
Definition normalize_path (value : string) : string := trim_end_matches "/" value.
Definition validate_descriptor (d : DaemonWorkerDescriptor) (supervisor_socket_path : string) : anyhow + unit :=
  if negb (dw_version d =? 2)
  then inl (anyhow_msg ("unsupported worker descriptor version " ++ show_Z (dw_version d)))
  else if negb (String.eqb (normalize_path (dw_supervisor_socket_path d)) (normalize_path supervisor_socket_path))
  then inl (anyhow_msg "worker descriptor belongs to another supervisor socket")
  else if is_empty (dw_worker_id d) || (dw_pid d =? 0) || is_empty (dw_socket_path d)
          || is_empty (dw_authentication_token d) || is_empty (dw_root_active_session_id d)
  then inl (anyhow_msg "worker descriptor is missing required fields")
  else inr tt.

(** ** The revival gate *)
Definition REVIVAL_BUSY_EVIDENCE_MAX_AGE_MS : Z := 30 * 60 * 1000.
Definition REVIVAL_CLOCK_SKEW_MS : Z := 60 * 1000.

Inductive RevivalVeto :=
| GaveUp
| SessionArchived
| LiveLeaseHeld (pid : Z)
| StaleBusyEvidence (recorded_at : string).
Definition log_reason (v : RevivalVeto) : string :=
  match v with
  | GaveUp => "was failed at the last give-up; not revived (reopens on the next client open)"
  | SessionArchived => "its session is archived (stopped); not revived (reopens on the next client open)"
  | LiveLeaseHeld pid => "a live worker (pid " ++ show_Z pid ++ ") holds its session lease; not revived (one owning daemon)"
  | StaleBusyEvidence recorded_at =>
      "its busy evidence is stale (recorded " ++ recorded_at ++ "); not revived (reopens on the next client open)"
  end.

(** What the gate asks of the session store and of the leases: the durable
    state in a session file, as [read_session_info] answers, and the live owner
    of its lease, as [live_lease_owner] answers. *)
Class SessionEvidence := {
  session_state : path -> option string;
  lease_owner : path -> option LiveLeaseOwner
}.

Section Gate.
Context `{SessionEvidence}.

Definition session_is_archived (session_file : path) : bool := bool_decide (session_state session_file = Some "archived").
Definition fresh (now : Z) (recorded_at : string) : bool :=
  match iso_to_unix_ms recorded_at with
  | Some at_ => (at_ <=? u64_saturating_add now REVIVAL_CLOCK_SKEW_MS)
                && (u64_saturating_sub now at_ <=? REVIVAL_BUSY_EVIDENCE_MAX_AGE_MS)
  | None => false
  end.
(** The tail of [revival_veto]; the [?] on a missing timestamp returns no veto. *)
Definition stale_veto (now : Z) (kept_by_update : bool) (busy_recorded_at : option string) : option RevivalVeto :=
  if kept_by_update then None
  else match busy_recorded_at with
       | None => None
       | Some recorded_at => if fresh now recorded_at then None else Some (StaleBusyEvidence recorded_at)
       end.
Definition revival_veto (d : DaemonWorkerDescriptor) (now : Z) (kept_by_update : bool) (busy_recorded_at : option string)
    : option RevivalVeto :=
  if bool_decide (dw_lifecycle d = Failed) then Some GaveUp
  else match path_of_string <$> dw_session_file d with
       | Some file =>
           if session_is_archived file then Some SessionArchived
           else match lease_owner file with
                | Some owner => Some (LiveLeaseHeld (lv_pid owner))
                | None => stale_veto now kept_by_update busy_recorded_at
                end
       | None => stale_veto now kept_by_update busy_recorded_at
       end.

(** ** The boot decision *)
Inductive AdoptionBoot := UpdateRoster (kept : gset string) | PlainStartup.
Inductive AdoptionOutcome := AdoptedLive | Revived | SkippedIdle | Stopped | AdoptionFailed.

Definition recorded_process_alive (alive : option bool) (expected observed : option string) : bool :=
  negb (bool_decide (alive = Some false))
  && (bool_decide (expected = None) || bool_decide (observed = None) || bool_decide (expected = observed)).

(** What the boot finds out about one descriptor: whether the worker registered
    by itself, whether its recorded process lives and under which start
    identity, whether its socket accepts, the descriptor once a pending identity
    move is applied, and the time. *)
Record BootProbe := mkProbe {
  bp_registered : bool;
  bp_alive : option bool;
  bp_observed_start : option string;
  bp_connects : bool;
  bp_resident : DaemonWorkerDescriptor;
  bp_now : Z
}.
(** What the boot does with it. *)
Inductive AdoptionAction :=
| AlreadyRegistered
| FinishStop (alive : bool)
| ConnectLive
| LeaveIdle
| LeaveVetoed (veto : RevivalVeto)
| Relaunch.
Definition kept_by (boot : AdoptionBoot) (worker_id : string) : bool :=
  match boot with UpdateRoster kept => bool_decide (worker_id ∈ kept) | PlainStartup => false end.

Context `{Env} `{JournalText} (sc : JScene).
(** The branch of a worker that does not answer: the journal, then the gate. *)
Definition revive (d : DaemonWorkerDescriptor) (worker_id : string) (boot : AdoptionBoot) (now : Z) : SM JHost anyhow AdoptionAction :=
  let+ interrupted := read_interrupted sc in
  let kept := kept_by boot worker_id in
  if negb interrupted && negb kept then sret LeaveIdle
  else
    let+ busy_recorded_at := latest_busy_recorded_at sc in
    sret match revival_veto d now kept busy_recorded_at with
         | Some veto => LeaveVetoed veto
         | None => Relaunch
         end.
Definition adopt_persisted_worker (d : DaemonWorkerDescriptor) (boot : AdoptionBoot) (b : BootProbe) : SM JHost anyhow AdoptionAction :=
  if bp_registered b then sret AlreadyRegistered
  else
    let tombstoned := match dw_stop_requested_at d with Some _ => true | None => false end in
    let process_alive := if tombstoned then recorded_process_alive (bp_alive b) (dw_process_start_id d) (bp_observed_start b) else true in
    let alive := (negb tombstoned || process_alive) && bp_connects b in
    match dw_stop_requested_at (bp_resident b) with
    | Some _ => sret (FinishStop alive)
    | None => if alive then sret ConnectLive
              else revive (bp_resident b) (dw_worker_id d) boot (bp_now b)
    end.
(** The pass's report, once connecting or relaunching has gone well or not. *)
Definition adoption_outcome (a : AdoptionAction) (ok : bool) : AdoptionOutcome :=
  match a with
  | AlreadyRegistered => AdoptedLive
  | FinishStop _ => Stopped
  | ConnectLive => if ok then AdoptedLive else AdoptionFailed
  | LeaveIdle | LeaveVetoed _ => SkippedIdle
  | Relaunch => if ok then Revived else AdoptionFailed
  end.
End Gate.

(** ** The watch loop *)
Definition MAX_CONSECUTIVE_FAILURES : Z := 5.
Definition STABLE_LIFETIME_MS : Z := 30000.
Definition BASE_BACKOFF_MS : Z := 250.
Definition MAX_BACKOFF_MS : Z := 30000.

(** The counters of a resident worker that the watch reads and writes. *)
Record Watched := mkWatched { wa_consecutive_failures : Z; wa_spawned_at_ms : Z }.
Definition stable_lifetime (w : Watched) (now_ms : Z) : bool :=
  (0 <? wa_spawned_at_ms w) && (STABLE_LIFETIME_MS <=? u64_saturating_sub now_ms (wa_spawned_at_ms w)).
Definition next_failure_count (w : Watched) (now_ms : Z) : Z * Watched :=
  if stable_lifetime w now_ms then (1, mkWatched 1 (wa_spawned_at_ms w))
  else let n := u32_wrapping_add (wa_consecutive_failures w) 1 in (n, mkWatched n (wa_spawned_at_ms w)).
Definition backoff_ms (failures : Z) : Z :=
  Z.min (Z.shiftl BASE_BACKOFF_MS (Z.min (failures - 1) 7)) MAX_BACKOFF_MS.

(** One turn of the loop as the surroundings make it: why the watch may end
    after the exit, the time of the exit, whether the supervisor is stopping at
    the give-up, whether another monitor took over during the backoff, and how
    the relaunch went: the time of its spawn, or that it failed, with the
    supervisor stopping by then or not. *)
Record Round := mkRound {
  ro_stopped : bool;     (* a child exited under an intentional stop *)
  ro_pid_moved : bool;   (* an adopted pid is no longer the descriptor's *)
  ro_superseded : bool;
  ro_now_ms : Z;
  ro_stopping : bool;
  ro_superseded_later : bool;
  ro_relaunch : bool + Z (* [inl stopping]: failed *)
}.
Inductive WatchEnd := EndStopped | EndPidMoved | EndSuperseded | EndStopping | EndGaveUp.
(** [inl]: the watch ends; [inr]: it slept for so long and watches again. *)
Definition watch_round (r : Round) (w : Watched) : (WatchEnd + Z) * Watched :=
  if ro_stopped r then (inl EndStopped, w)
  else if ro_pid_moved r then (inl EndPidMoved, w)
  else if ro_superseded r then (inl EndSuperseded, w)
  else
    let '(failures, w) := next_failure_count w (ro_now_ms r) in
    if MAX_CONSECUTIVE_FAILURES <? failures then (inl (if ro_stopping r then EndStopping else EndGaveUp), w)
    else if ro_superseded_later r then (inl EndSuperseded, w)
    else match ro_relaunch r with
         | inr spawned_at => (inr (backoff_ms failures), mkWatched (wa_consecutive_failures w) spawned_at)
         | inl true => (inl EndStopping, w)
         | inl false => (inr (backoff_ms failures), mkWatched (wa_consecutive_failures w) 0)
         end.
Fixpoint watch_worker_owned (rs : list Round) (w : Watched) : option WatchEnd * list Z * Watched :=
  match rs with
  | [] => (None, [], w)
  | r :: rs' =>
      match watch_round r w with
      | (inl e, w') => (Some e, [], w')
      | (inr sleep, w') => let '(e, sleeps, w'') := watch_worker_owned rs' w' in (e, sleep :: sleeps, w'')
      end
  end.

(** [worker_lifecycle.rs]: positive evidence that the journal's writer is gone. *)
Definition recovery_journal_owner_is_gone (process_alive : option bool) (expected current : option string) : bool :=
  match process_alive with
  | Some false => true
  | Some true => match expected, current with Some e, Some c => negb (String.eqb e c) | _, _ => false end
  | None => false
  end.
(** What the give-up does to the recovery journal; a failure is only logged. *)
Definition give_up_journal `{Env} `{JournalText} (sc : JScene) (owner_is_gone : bool) : SM JHost anyhow unit :=
  if owner_is_gone then let+ _ := stry (F := anyhow) (settle_busy_records sc "worker_gave_up") in sret tt else sret tt.

(** ** Supervising workers: the guarantees

    What a boot may relaunch, that a give-up outlives the restart of the
    supervisor, and that the watch loop of a worker that keeps dying ends. *)
Section Gate.
Context `{SessionEvidence}.

Definition session_free (d : DaemonWorkerDescriptor) : Prop :=
  dw_lifecycle d <> Failed /\
  forall f, dw_session_file d = Some f -> session_state (path_of_string f) <> Some "archived" /\ lease_owner (path_of_string f) = None.
(** The gate passes only sessions that nobody gave up on, stopped or holds, and
    only with fresh evidence, kept rows and a missing timestamp apart. *)
Lemma gate_passes d now kept at_ :
  revival_veto d now kept at_ = None <->
  session_free d /\ (kept = true \/ forall t, at_ = Some t -> fresh now t = true).
Proof.
  assert (stale_veto now kept at_ = None <-> kept = true \/ forall t, at_ = Some t -> fresh now t = true) as Hs.
  { unfold stale_veto. destruct kept; [naive_solver|]. destruct at_ as [t|]; [|naive_solver].
    destruct (fresh now t) eqn:E; split; try done; [intros _; right; by intros ? [= <-]|].
    intros [?|Hf]; [done|]. by rewrite (Hf t) in E. }
  unfold revival_veto, session_free, session_is_archived. case_bool_decide; [naive_solver|].
  destruct (dw_session_file d) as [f|]; cbn; [|naive_solver]. case_bool_decide; [naive_solver|].
  destruct (lease_owner (path_of_string f)) as [o|] eqn:E; [|naive_solver].
  split; [done|]. intros [[_ Hf] _]. destruct (Hf f eq_refl). congruence.
Qed.

Context `{Env} `{LedgerEnv} `{!JsonLines} `{JournalText} `{!JournalTextOk} (sc : JScene).
Context (Horder : forall A (l : list A), jc_order sc A l ≡ₚ l).

(** Relaunching a worker that does not answer, on a file that says [j]. *)
Lemma revive_spec j b d worker_id boot now :
  spec (says_file j b) (revive sc d worker_id boot now) (fun r h => says_file j b h /\
    (r = Ok Relaunch -> session_free d /\ (kept_by boot worker_id = true \/ exists t, busy_at j t))).
Proof.
  unfold revive. eapply spec_bind; [by apply (interrupted_spec sc Horder j b)| |naive_solver..].
  intros i. apply spec_fact. intros Hi. cbn zeta. destruct (negb i && negb (kept_by boot worker_id)) eqn:E; [by apply spec_ret|].
  eapply spec_bind; [by apply (busy_recorded_spec sc Horder j b)| |naive_solver..].
  intros at_. apply spec_fact. intros _. apply spec_ret. intros h Hh. split; [done|].
  destruct (revival_veto d now (kept_by boot worker_id) at_) eqn:Ev; [done|]. intros _. apply gate_passes in Ev as [Hf _].
  split; [done|]. destruct (kept_by boot worker_id); [by left|]. right. apply Hi. by destruct i.
Qed.
Lemma adopt_spec j b d boot p :
  spec (says_file j b) (adopt_persisted_worker sc d boot p) (fun r h => says_file j b h /\
    (r = Ok Relaunch ->
     dw_stop_requested_at (bp_resident p) = None /\ session_free (bp_resident p) /\
     (kept_by boot (dw_worker_id d) = true \/ exists t, busy_at j t))).
Proof.
  unfold adopt_persisted_worker. destruct (bp_registered p); [by apply spec_ret|].
  destruct (dw_stop_requested_at (bp_resident p)) eqn:Es; [by apply spec_ret|].
  destruct (_ && bp_connects p); [by apply spec_ret|].
  eapply spec_weaken; [apply (revive_spec j b)|done|]. naive_solver.
Qed.

(** When the reads go well, the evidence is fresh too. *)
Context (Hquiet : forall n, jc_fault sc n = JRun).
Lemma read_latest_quiet j b h :
  says_file j b h -> read_latest sc h = (Ok (hash_values sc (j_latest j)), jtick h).
Proof.
  intros [Hr _]. pose proof (passes_read empty_is_torn (jc_path sc) (jh_file h)) as Hp. rewrite Hr in Hp. destruct Hp as [Hw _].
  unfold read_latest, parse_worker_records, read_journal, with_context, jquery, smap_err, sbind. rewrite quiet_sys by done. cbn.
  by rewrite Hw.
Qed.
Lemma busy_recorded_quiet j b h :
  says_file j b h -> (exists t, busy_at j t) -> exists t, latest_busy_recorded_at sc h = (Ok (Some t), jtick h).
Proof.
  intros Hh (t & k & r & Hk & Hb & _). unfold latest_busy_recorded_at, sbind, stry. rewrite (read_latest_quiet j b h Hh). cbn.
  assert (r ∈ List.filter wr_busy (hash_values sc (j_latest j))) as Hin.
  { apply list_elem_of_In, filter_In. split; [|done]. apply list_elem_of_In. unfold hash_values. rewrite Horder.
    apply list_elem_of_fmap. exists (k, r). split; [done|by apply elem_of_map_to_list]. }
  destruct (List.filter _ _) as [|x l]; [by apply elem_of_nil in Hin|]. cbn. by eexists.
Qed.
Lemma revive_fresh j b d worker_id now h :
  says_file j b h -> fst (revive sc d worker_id PlainStartup now h) = Ok Relaunch ->
  exists t, busy_at j t /\ fresh now t = true.
Proof.
  intros Hh. unfold revive. cbn [kept_by]. unfold sbind at 1.
  pose proof (interrupted_spec sc Horder j b h Hh) as Hi. destruct (read_interrupted sc h) as [[i|e|] h1]; [|done..].
  cbn in Hi. destruct Hi as [Hh1 Hi]. destruct i; [|done]. cbn. specialize (Hi eq_refl).
  pose proof (busy_recorded_spec sc Horder j b h1 Hh1) as Hb. unfold sbind.
  destruct (busy_recorded_quiet j b h1 Hh1 Hi) as [t Ht]. rewrite Ht in *. cbn in Hb |- *.
  destruct (revival_veto d now false (Some t)) eqn:Ev; [done|]. intros _. apply gate_passes in Ev as [_ [?|Hf]]; [done|].
  exists t. split; [apply Hb|by apply Hf].
Qed.
End Gate.

(** ** The watch loop *)
Lemma backoff_table : map backoff_ms [1; 2; 3; 4; 5] = [250; 500; 1000; 2000; 4000].
Proof. reflexivity. Qed.
Lemma backoff_bounds n : 1 <= n <= 5 -> 250 <= backoff_ms n <= 4000.
Proof. intros Hn. assert (n = 1 \/ n = 2 \/ n = 3 \/ n = 4 \/ n = 5) as [-> | [-> | [-> | [-> | ->]]]] by lia; by vm_compute. Qed.

Definition counted (w : Watched) : Prop := 0 <= wa_consecutive_failures w <= 5.
Lemma next_failure_bounds w now n w' :
  counted w -> next_failure_count w now = (n, w') ->
  wa_consecutive_failures w' = n /\ 1 <= n <= 6
  /\ n = if stable_lifetime w now then 1 else wa_consecutive_failures w + 1.
Proof.
  unfold counted, next_failure_count. intros Hw. destruct (stable_lifetime w now); intros [= <- <-]; cbn; [lia|].
  rewrite u32_wrapping_add_small by (unfold u32_max; lia). lia.
Qed.
(** A round that goes on has slept for its place in the row of failures. *)
Lemma watch_round_spec r w sleep w' :
  counted w -> watch_round r w = (inr sleep, w') ->
  counted w' /\ 1 <= wa_consecutive_failures w' /\ sleep = backoff_ms (wa_consecutive_failures w')
  /\ wa_consecutive_failures w' = (if stable_lifetime w (ro_now_ms r) then 1 else wa_consecutive_failures w + 1).
Proof.
  intros Hw. unfold watch_round. destruct (ro_stopped r), (ro_pid_moved r), (ro_superseded r); try done.
  destruct (next_failure_count w (ro_now_ms r)) as [n w1] eqn:En. destruct (next_failure_bounds _ _ _ _ Hw En) as (Hn & Hb & He).
  destruct (Z.ltb_spec MAX_CONSECUTIVE_FAILURES n) as [?|Hle]; [done|]. unfold MAX_CONSECUTIVE_FAILURES in Hle.
  destruct (ro_superseded_later r); [done|]. destruct (ro_relaunch r) as [[]|t]; [done| |];
    intros [= <- <-]; unfold counted; cbn; rewrite Hn; repeat split; try done; lia.
Qed.
(** A round whose exit is not a stable lifetime. *)
Fixpoint dies_young (rs : list Round) (w : Watched) : bool :=
  match rs with
  | [] => true
  | r :: rs' => negb (stable_lifetime w (ro_now_ms r)) && dies_young rs' (snd (watch_round r w))
  end.
Lemma watch_ends rs w :
  counted w -> dies_young rs w = true -> (5 < wa_consecutive_failures w + Z.of_nat (List.length rs)) ->
  exists e, fst (fst (watch_worker_owned rs w)) = Some e.
Proof.
  revert w. induction rs as [|r rs IH]; intros w Hw Hy Hl.
  { unfold counted in Hw. cbn in Hl. lia. }
  cbn in Hy |- *. apply andb_true_iff in Hy as [Hs Hy]. apply negb_true_iff in Hs.
  destruct (watch_round r w) as [[e|sleep] w'] eqn:E; [by eexists|].
  destruct (watch_round_spec r w sleep w' Hw E) as (Hw' & _ & _ & Hc). rewrite Hs in Hc.
  destruct (IH w') as [e He]; [done|done|cbn [List.length] in Hl; lia|].
  destruct (watch_worker_owned rs w') as [[o sl] w'']. by exists e.
Qed.
Lemma watch_sleeps rs w :
  counted w -> Forall (fun s => 250 <= s <= 4000) (snd (fst (watch_worker_owned rs w))) /\ 0 <= wa_consecutive_failures (snd (watch_worker_owned rs w)) <= 6.
Proof.
  revert w. induction rs as [|r rs IH]; intros w Hw; cbn.
  { split; [constructor|]. unfold counted in Hw. cbn. lia. }
  destruct (watch_round r w) as [[e|sleep] w'] eqn:E.
  - split; [constructor|]. cbn. unfold watch_round in E. unfold counted in Hw.
    destruct (ro_stopped r), (ro_pid_moved r), (ro_superseded r); try (inversion E; subst; lia).
    destruct (next_failure_count w (ro_now_ms r)) as [n w1] eqn:En. destruct (next_failure_bounds _ _ _ _ Hw En) as (Hn & Hb & _).
    repeat case_match; inversion E; subst; cbn; lia.
  - destruct (watch_round_spec r w sleep w' Hw E) as (Hw' & H1 & -> & _). specialize (IH w' Hw').
    destruct (watch_worker_owned rs w') as [[o sl] w'']. cbn in *. destruct IH as [IH1 IH2]. split; [|done]. constructor; [|done].
    apply backoff_bounds. unfold counted in Hw'. lia.
Qed.
