(* ===== verification/Recovery.v ===== *)
(** * Recovery end to end

    The journal, the give-up and the boot put together: what workers recorded
    is what the next process finds, a restart relaunches interrupted work and
    nothing that was stopped, given up or is held elsewhere, and the watch of a
    worker that keeps dying ends; then the same at journals written by concrete
    workers, and two runs in which the journal or the gate does not do what its
    comments say. *)
From S2P Require Import Prelude RustStr Lines Json Time World LedgerReplay LedgerFile LedgerSim Effects Journal JournalProofs JournalTheorems JournalLives Lease Revival.
#[local] Open Scope string_scope.
#[local] Open Scope Z_scope.

Section Recovery.
Context `{Env} `{LedgerEnv} `{!JsonLines} `{JournalText} `{!JournalTextOk}.

(** A scene whose maps yield each value once. *)
Definition orderly (sc : JScene) : Prop := forall A (l : list A), jc_order sc A l ≡ₚ l.
Definition faultless (sc : JScene) : Prop := forall n, jc_fault sc n = JRun.

Lemma next_says h j : reads (jh_file h) = Some j -> says_file j false (next_process h).
Proof. done. Qed.


(** One process at a time: while a journal is owned no second open succeeds,
    and the attempt leaves the file and the owner alone. *)
Theorem journal_has_one_writer sc h j :
  reads (jh_file h) = Some j -> jh_owned h = true ->
  fst (open_journal sc h) <> Ok tt /\ reads (jh_file (snd (open_journal sc h))) = Some j /\ jh_owned (snd (open_journal sc h)) = true.
Proof.
  intros Hr Ho. pose proof (open_refused sc j h (conj Hr Ho)) as Hx.
  destruct (open_journal sc h) as [[[]|e|] h']; cbn in *; [done|by destruct Hx..].
Qed.

(** ** Queued messages come back *)
Lemma read_queue_quiet sc j b h a :
  faultless sc -> says_file j b h -> fst (read_queue_snapshot sc a h) = Ok (lanes <$> j_snapshots j !! a).
Proof.
  intros Hq [Hr _]. pose proof (passes_read empty_is_torn (jc_path sc) (jh_file h)) as Hp. rewrite Hr in Hp. destruct Hp as [_ Hs].
  unfold read_queue_snapshot, parse_queue_snapshot_records, read_journal, with_context, jquery, smap_err, sbind.
  rewrite (quiet_sys sc Hq). cbn. by rewrite Hs.
Qed.
Lemma entries_snapshot j w t t' a st fu :
  match w with QueueSnapshot a' st' fu' | Checkpoint a' _ _ _ _ st' fu' => a' = a /\ st' = st /\ fu' = fu | _ => False end ->
  lanes <$> j_snapshots (foldl put j (job_entries j w t t')) !! a = Some (st, fu).
Proof.
  destruct w; cbn; [done| |]; intros (-> & -> & ->); [|destruct (says _ _ _ _ _)]; cbn; by rewrite lookup_insert_eq.
Qed.


(** ** Boots *)
Context `{SessionEvidence}.


Lemma busy_record_listed sc j k r :
  orderly sc -> j_latest j !! k = Some r -> wr_busy r = true -> r ∈ List.filter wr_busy (hash_values sc (j_latest j)).
Proof.
  intros Ho Hk Hb. apply list_elem_of_In, filter_In. split; [|done]. apply list_elem_of_In. unfold hash_values. rewrite (Ho _ _).
  apply list_elem_of_fmap. exists (k, r). split; [done|by apply elem_of_map_to_list].
Qed.
Lemma read_interrupted_quiet sc j b h k r :
  orderly sc -> faultless sc -> says_file j b h -> j_latest j !! k = Some r -> wr_busy r = true ->
  read_interrupted sc h = (Ok true, jtick h).
Proof.
  intros Ho Hq Hh Hk Hb. unfold read_interrupted, sbind, stry. rewrite (read_latest_quiet sc Hq j b h Hh). cbn.
  assert (Hx : existsb wr_busy (hash_values sc (j_latest j)) = true); [|by rewrite Hx].
  pose proof (busy_record_listed sc j k r Ho Hk Hb) as Hin. apply list_elem_of_In, filter_In in Hin as [Hin _].
  apply existsb_exists. by exists r.
Qed.

Lemma interrupted_relaunched sc j h d p :
  orderly sc -> faultless sc -> reads (jh_file h) = Some j ->
  (exists t, busy_at j t) -> (forall t, busy_at j t -> fresh (bp_now p) t = true) -> session_free (bp_resident p) ->
  bp_registered p = false -> dw_stop_requested_at (bp_resident p) = None -> bp_connects p = false ->
  fst (adopt_persisted_worker sc d PlainStartup p h) = Ok Relaunch.
Proof.
  intros Ho Hq Hr (t & k & r & Hk & Hb & Et) Hfresh Hfree Hreg Hstop Hcon.
  assert (Hs : says_file j (jh_owned h) h) by done.
  unfold adopt_persisted_worker. rewrite Hreg, Hstop, Hcon, andb_false_r. unfold revive, sbind at 1.
  rewrite (read_interrupted_quiet sc j _ h k r Ho Hq Hs Hk Hb). cbn. unfold sbind.
  assert (Hs' : says_file j (jh_owned h) (jtick h)) by done.
  destruct (busy_recorded_quiet sc Ho Hq j _ _ Hs' ltac:(exists t, k, r; done)) as [t' Ht'].
  pose proof (busy_recorded_spec sc Ho j _ _ Hs') as [_ Hat]. rewrite Ht' in *. cbn in Hat |- *.
  destruct (revival_veto (bp_resident p) (bp_now p) false (Some t')) as [v|] eqn:Ev; [|done]. exfalso.
  assert (Hn : revival_veto (bp_resident p) (bp_now p) false (Some t') = None); [|congruence].
  apply gate_passes. split; [done|]. right. intros ? [= <-]. by apply Hfresh.
Qed.

(** C24: ... and that it does: interrupted work with fresh evidence of a free
    session is relaunched by a plain start when its worker does not answer. *)
Theorem interrupted_work_revived sc j h d p :
  orderly sc -> faultless sc -> reads (jh_file h) = Some j ->
  (exists t, busy_at j t) -> (forall t, busy_at j t -> fresh (bp_now p) t = true) -> session_free (bp_resident p) ->
  bp_registered p = false -> dw_stop_requested_at (bp_resident p) = None -> bp_connects p = false ->
  fst (adopt_persisted_worker sc d PlainStartup p h) = Ok Relaunch.
Proof. apply interrupted_relaunched. Qed.

(** C30: After a give-up that settled the journal, no plain start relaunches the
    worker, whatever fails then and even when the failed state of its
    descriptor was not saved. *)
Theorem give_up_outlives_restart sc sc' j h operation d p :
  orderly sc -> orderly sc' -> reads (jh_file h) = Some j -> jh_owned h = false ->
  fst (settle_busy_records sc operation h) = Ok tt ->
  fst (adopt_persisted_worker sc' d PlainStartup p (next_process (snd (settle_busy_records sc operation h)))) <> Ok Relaunch.
Proof.
  intros Ho Ho' Hr Hown E. destruct (settle_spec sc Ho j operation h (conj Hr Hown)) as (j' & _ & Hr' & Hn & _).
  specialize (Hn E). intros E'. destruct (adopt_spec sc' Ho' j' _ d PlainStartup p _ (next_says _ _ Hr')) as [_ Ha].
  destruct (Ha E') as (_ & _ & [K|(t & k & r & Hk & Hb & _)]); [done|]. by rewrite (Hn k r Hk) in Hb.
Qed.
End Recovery.

(** ** The watch *)

(** C32: Whatever befalls a worker, its watch never sleeps for less than 250 ms or
    more than 4 s between two attempts and its failure count stays in range;
    when the worker keeps dying before it is stable, the watch ends after at
    most six rounds. *)
Theorem watch_loop_bounded rs w :
  0 <= wa_consecutive_failures w <= 5 ->
  Forall (fun sleep => 250 <= sleep <= 4000) (snd (fst (watch_worker_owned rs w)))
  /\ 0 <= wa_consecutive_failures (snd (watch_worker_owned rs w)) <= 6
  /\ (dies_young rs w = true -> (6 <= List.length rs)%nat -> exists e, fst (fst (watch_worker_owned rs w)) = Some e).
Proof.
  intros Hw. destruct (watch_sleeps rs w Hw) as [Hs Hc]. split; [done|]. split; [done|].
  intros Hy Hl. apply watch_ends; [done|done|lia].
Qed.

(** ** Concrete journals *)
#[export] Instance doc_journal_text : JournalText := {|
  slice_is_eof s := negb (contains_char "}" s);
  utf8_error_text _ := "invalid utf-8 sequence"
|}.
Lemma torn_doc_plain ms n : str_forall is_plain (str_take n (doc_text (VObject ms))) = true.
Proof. apply str_take_forall, doc_text_plain. Qed.
#[export] Instance doc_journal_ok : JournalTextOk.
Proof.
  split.
  - intros ms n Hn. cbn [value_display doc_env] in *. unfold doc_text in *. set (bits := pos_bits _) in *.
    apply open_doc. destruct n as [|n]; [done|]. cbn [str_take contains_char]. change (Ascii.eqb "}" "{") with false. cbn [orb].
    assert (n <= len bits)%nat as Hle. { unfold len in *. cbn in Hn. fold (len (bits ++ "}")) in Hn. rewrite str_len_app in Hn. cbn in Hn. unfold len in Hn. lia. }
    rewrite str_take_short by done. apply bits_plain. apply str_take_forall, pos_bits_bits.
  - intros ms n _ Hu. cbn in Hu. rewrite plain_utf8 in Hu; [done|apply torn_doc_plain].
  - intros s v Hv. cbn in Hv. unfold read_doc, read_tree in Hv. apply readable_printable. repeat case_match; simplify_eq. done.
Qed.
#[export] Instance free_sessions : SessionEvidence := {| session_state _ := None; lease_owner _ := None |}.

(** ** Scenes and workers *)
Definition now0 : Z := 1700000000000.
Definition calm : JScene := mkJScene ["state"; "w1.recovery.jsonl"] (fun _ => JRun) (fun n => now0 + Z.of_nat n) (fun _ l => l).
Definition with_fault (f : nat -> jfault) : JScene := mkJScene (jc_path calm) f (jc_clock calm) (fun _ l => l).
Lemma calm_orderly : orderly calm.
Proof. by intros A l. Qed.
Definition no_file : JHost := mkJHost None None false 0 no_journal.
Definition item (m : string) : WorkerQueueItemRecord := mkItem m (Some Human) None None None true "queued".
Definition begin_turn : job := Checkpoint "a" "s" None true "prompt" [item "x"] [].
Definition end_turn : job := Record_ "a" "s" None false "idle".

(** The second worker dies four bytes into its record. *)
Definition doomed : JScene := with_fault (fun n => if Nat.eqb n 10 then JDie 4 else JRun).
Definition two_lives : list life := [mkLife calm [begin_turn]; mkLife doomed [end_turn]].

(** The first worker at its journal, open. *)
Definition opened : JHost := snd (open_journal calm no_file).
Lemma opened_holds : holds no_journal no_journal opened.
Proof.
  pose proof (open_spec calm calm_orderly no_journal no_file) as Ho.
  apply Ho. split; vm_compute; reflexivity.
Qed.
Lemma journal_has_one_writer_witness : fst (open_journal calm opened) <> Ok tt.
Proof. apply (journal_has_one_writer calm opened no_journal); vm_compute; reflexivity. Defined.


(** ** Boots after an interruption *)
Definition worker : DaemonWorkerDescriptor :=
  mkDescriptor 1 "w1" 77 None "/run/w1.sock" "/state/w1.recovery.jsonl" None "/run/daemon.sock" "token" None "a" None (Some "s")
    (Some "/s.jsonl") None None "2023-11-14T22:13:20.000Z" "2023-11-14T22:13:20.000Z" Ready (mkCreate None None []) 0 None None None None [].
Definition gone (now : Z) : BootProbe := mkProbe false (Some false) None false worker now.
Definition interrupted : JHost := next_process (snd (run_jobs calm [begin_turn] opened)).
Definition interrupted_at : string := "2023-11-14T22:13:20.007Z".


Definition busy_journal : WorkerRecoveryJournal :=
  mkJournal {["a" := mkRecovery "a" "s" None true "prompt" interrupted_at]}
            {["a" := mkSnapshot 2 "queue_snapshot" "a" [item "x"] [] "2023-11-14T22:13:20.006Z"]}.
Lemma busy_journal_times t : busy_at busy_journal t -> t = interrupted_at.
Proof. intros (k & r & Hk & _ & <-). unfold busy_journal in Hk. cbn in Hk. apply lookup_singleton_Some in Hk as [_ <-]. done. Qed.
Lemma interrupted_work_revived_witness :
  fst (adopt_persisted_worker calm worker PlainStartup (gone (now0 + 1000)) interrupted) = Ok Relaunch.
Proof.
  apply (interrupted_work_revived calm busy_journal).
  - by intros A l.
  - done.
  - vm_compute. reflexivity.
  - exists interrupted_at, "a", (mkRecovery "a" "s" None true "prompt" interrupted_at). by vm_compute.
  - intros t ->%busy_journal_times. vm_compute. reflexivity.
  - done.
  - reflexivity.
  - reflexivity.
  - reflexivity.
Defined.
Lemma give_up_outlives_restart_witness :
  fst (adopt_persisted_worker calm worker PlainStartup (gone (now0 + 1000))
         (next_process (snd (settle_busy_records calm "worker_gave_up" interrupted)))) <> Ok Relaunch.
Proof.
  apply (give_up_outlives_restart calm calm busy_journal);
    [by intros A l|by intros A l|vm_compute; reflexivity|vm_compute; reflexivity|vm_compute; reflexivity].
Defined.

(** Six exits one second apart, each relaunch at once. *)
Definition crash (n : nat) : Round := mkRound false false false (now0 + 1000 * Z.of_nat n) false false (inr (now0 + 1000 * Z.of_nat n)).
Lemma watch_loop_bounded_witness :
  exists e, fst (fst (watch_worker_owned (map crash (seq 0 6)) (mkWatched 0 now0))) = Some e.
Proof.
  destruct (watch_loop_bounded (map crash (seq 0 6)) (mkWatched 0 now0)) as (_ & _ & He);
    [cbn; lia|apply He; [vm_compute; reflexivity|cbn; lia]].
Defined.

(** ** Where the code and its comments differ *)

(** An append fails after it wrote part of its record; the worker goes on, and
    its next record is acknowledged.  It was written behind the fragment: the
    file still says that the session is busy, and the next process believes it.
    (A compaction, which needs every session idle, would mend the file.) *)
Definition two_busy : JHost := snd (run_jobs calm [begin_turn; Record_ "c" "u" None true "prompt"] opened).
Definition failing : JScene := with_fault (fun n => if Nat.eqb n (jh_step two_busy + 3) then JFail 4 else JRun).
Theorem append_after_failed_append_lost :
  let h1 := snd (run_job failing end_turn two_busy) in
  let h2 := snd (run_job failing end_turn h1) in
  fst (run_job failing end_turn two_busy) = Err (anyhow_msg (io_error_text (os_error OtherIo)))
  /\ fst (run_job failing end_turn h1) = Ok tt
  /\ (wr_busy <$> j_latest (jh_journal h2) !! "a") = Some false
  /\ (reads (jh_file h2) ≫= fun j => wr_busy <$> j_latest j !! "a") = Some true
  /\ fst (read_interrupted calm (next_process h2)) = Ok true.
Proof. repeat split; vm_compute; reflexivity. Qed.

(** A batch is not all or nothing: the process dies inside it, and the queue
    of the checkpoint is on record without its verdict. *)
Definition half_batch : JScene := with_fault (fun n => if Nat.eqb n (jh_step opened + 4) then JDie 2800 else JRun).
Theorem torn_checkpoint_keeps_snapshot :
  let h := snd (run_job half_batch begin_turn opened) in
  fst (run_job half_batch begin_turn opened) = Killed
  /\ (reads (jh_file h) ≫= fun j => latest_queue_snapshot j "a") = Some ([item "x"], [])
  /\ (reads (jh_file h) ≫= fun j => j_latest j !! "a") = None.
Proof. repeat split; vm_compute; reflexivity. Qed.

(** The gate without a timestamp: the second read of the journal fails, and a
    worker whose evidence is years old is relaunched. *)
Definition second_read_fails : JScene := with_fault (fun n => if Nat.eqb n 1 then JFail 0 else JRun).
Theorem unreadable_evidence_revives :
  fst (adopt_persisted_worker second_read_fails worker PlainStartup (gone (now0 + 100000000000)) interrupted) = Ok Relaunch
  /\ fst (adopt_persisted_worker calm worker PlainStartup (gone (now0 + 100000000000)) interrupted)
     = Ok (LeaveVetoed (StaleBusyEvidence interrupted_at)).
Proof. split; vm_compute; reflexivity. Qed.
