(* ===== verification/QueueTheorems.v ===== *)
(** * The input queue: its guarantees

    For every interleaving of a worker's critical sections: callers are
    answered once, the runner's state is coherent, queued work outlives the
    process, a cancelled prompt never runs, and a mutation changes the item
    that was shown and no other. *)
From S2P Require Import Prelude RustStr Lines Json Time World LedgerReplay LedgerFile LedgerSim Effects Protocol Slash Journal JournalProofs JournalTheorems JournalLives Lease Revival Recovery Queue QueueWorker QueueProofs QueueRecord QueueDurable QueueAdmission.
#[local] Open Scope string_scope.

(** ** Waiting callers *)
Lemma run_grows `{Env} sc es s : grows s (run_events sc es s).
Proof.
  revert s. induction es as [|e es IH]; intros s; [apply grows_refl|]. cbn. eapply grows_trans; [apply step_grows|apply IH].
Qed.
(** C14: Every caller that waits for its prompt is in one place: with its item in a
    lane, with its item in the turn, or answered; nobody is answered twice, and
    nobody is forgotten. *)
Theorem waiters_answered_once `{Env} sc es c h :
  waiters (queue c) = [] ->
  let s := run_events sc es (created_worker c h) in
  (waiters (queue (ws_core s)) ++ waiters (runner_items (ws_runner s)) ++ map fst (ws_answers s))%list ≡ₚ seq 0 (ws_next_waiter s)
  /\ NoDup (map fst (ws_answers s))
  /\ forall w, (w < ws_next_waiter s)%nat -> w ∉ waiters (queue (ws_core s)) -> w ∉ waiters (runner_items (ws_runner s)) ->
       exists out, (w, out) ∈ ws_answers s.
Proof.
  intros Hc s. destruct (run_grows sc es (created_worker c h)) as (k & Hk & Ha). fold s in Hk, Ha. unfold accounts in Ha at 2. cbn in Ha, Hk.
  rewrite Hc, app_nil_r in Ha. rewrite <- Hk in Ha. split; [done|]. split.
  - assert (NoDup (accounts s)) as Hn by (rewrite Ha; apply NoDup_seq). unfold accounts in Hn.
    apply NoDup_app in Hn as (_ & _ & Hn). by apply NoDup_app in Hn as (_ & _ & Hn).
  - intros w Hw Hq Hr. assert (w ∈ accounts s) as Hin by (rewrite Ha; apply elem_of_seq; lia).
    unfold accounts in Hin. rewrite !elem_of_app in Hin. destruct Hin as [Hin|[Hin|Hin]]; [done|done|].
    apply list_elem_of_fmap in Hin as ([w' out] & -> & Hin). by exists out.
Qed.

(** ** Turns *)

(** One turn delivers one item, or several of one class that carry neither an
    injected row nor a session command. *)
Definition batchable (p : TurnPolicy) (i : QueuedItem) : Prop :=
  qd_policy i = p /\ qd_custom_message i = None /\ parse_prompt_session_command (qd_message i) = None.
Definition coherent (items : list QueuedItem) : Prop :=
  match items with
  | [] | [_] => True
  | i :: _ => qd_policy i <> Direct /\ Forall (batchable (qd_policy i)) items
  end.
Lemma joins_plain p f i : joins p f i = true -> batchable p i.
Proof.
  unfold joins. rewrite negb_true_iff, !orb_false_iff, negb_false_iff, bool_decide_eq_true, !bool_decide_eq_false, <- !eq_None_not_Some.
  intros [[[Hp Hc] _] Hm]. by split.
Qed.
Lemma gather_coherent lane mode forced items : coherent (fst (fst (gather_delivery_batch lane mode forced items))).
Proof.
  destruct items as [|i rest]; [done|]. unfold gather_delivery_batch. cbn zeta.
  destruct (bool_decide (is_Some (qd_custom_message i))) eqn:Ec; [done|]. destruct (bool_decide (qd_policy i = Direct)) eqn:Ed; [done|].
  destruct (bool_decide (is_Some (parse_prompt_session_command (qd_message i)))) eqn:Em; [done|]. cbn [orb].
  destruct (_ || String.eqb mode "all"); [|done].
  pose proof (take_joining_spec (qd_policy i) (bool_decide (lane = Steering) && forced && qd_forced_batch i) rest) as Ht.
  destruct (take_joining _ _ rest) as [batch kept], Ht as [_ Hb]. cbn [fst].
  apply bool_decide_eq_false, eq_None_not_Some in Ec, Em. apply bool_decide_eq_false in Ed.
  destruct batch as [|b batch]; [done|]. split; [done|]. constructor; [done|]. eapply Forall_impl; [exact Hb|]. apply joins_plain.
Qed.
Lemma pickup_coherent lane c : coherent (fst (pickup_from lane c)).
Proof.
  unfold pickup_from. destruct lane;
    [pose proof (gather_coherent Steering (co_steering_mode c) (co_forced_all_steering c) (co_steering c)) as Hg
    |pose proof (gather_coherent FollowUp (co_follow_up_mode c) (co_forced_all_steering c) (co_follow_up c)) as Hg];
    by destruct (gather_delivery_batch _ _ _ _) as [[batch kept] f].
Qed.
Lemma step_coherent `{Env} sc e s : coherent (runner_items (ws_runner s)) -> coherent (runner_items (ws_runner (qstep sc e s))).
Proof.
  intros Hc. destruct (runner_event e) eqn:He.
  2:{ assert (ws_runner (qstep sc e s) = ws_runner s) as ->; [|done]. pose proof (step_view sc e s He) as Hv. by injection Hv. }
  unfold qstep. destruct (ws_dead s); [done|]. destruct e; try done.
  - apply pickup_cases; [intros r Hr|done|].
    + destruct (ws_runner s) eqn:Er; try (by rewrite Er). destruct Hr as [Hr|Hr]; [done|]. by subst r.
    + intros lane _ _. pose proof (pickup_coherent lane (ws_core s)) as Hp. by destruct (pickup_from _ _).
  - unfold turn_ends. destruct (ws_runner s) eqn:Er; try done; by rewrite Er.
  - unfold turn_resolves. destruct (ws_runner s) eqn:Er; try done; try (by rewrite Er). destruct (settle_outstanding s); [by rewrite Er|done].
Qed.
Lemma run_agrees `{Env} sc es s :
  runner_agrees s -> coherent (runner_items (ws_runner s)) ->
  runner_agrees (run_events sc es s) /\ coherent (runner_items (ws_runner (run_events sc es s))).
Proof. revert s. induction es as [|e es IH]; intros s Ha Hc; [done|]. cbn. apply IH; [by apply step_agrees|by apply step_coherent]. Qed.
(** C27: In every state a worker can reach, the busy flag says whether a turn is in
    flight, the running admissions are those of the turn, and a turn is made
    of at least one item and of items that may share one. *)
Theorem worker_state_well_formed `{Env} sc es c h :
  co_busy c = false -> co_running_admission_ids c = [] ->
  let s := run_events sc es (created_worker c h) in
  runner_agrees s /\ coherent (runner_items (ws_runner s)).
Proof. intros Hb Hr. apply run_agrees; [split; cbn; by rewrite ?Hb, ?Hr|done]. Qed.

(** A turn starts only when input is admitted, from the front of the steering
    lane, or of the follow-up lane when nothing steers. *)
Theorem turn_start_sound s batch :
  ws_runner s = Parked -> ws_runner (pickup s) = InTurn batch ->
  ws_pauses s = ∅ /\ co_suspended (ws_core s) = false /\ co_compacting (ws_core s) = false /\ co_shutdown_requested (ws_core s) = false
  /\ batch <> []
  /\ (co_steering (ws_core s) = (batch ++ co_steering (ws_core (pickup s)))%list /\ co_follow_up (ws_core (pickup s)) = co_follow_up (ws_core s)
      \/ co_steering (ws_core s) = [] /\ co_steering (ws_core (pickup s)) = []
         /\ co_follow_up (ws_core s) = (batch ++ co_follow_up (ws_core (pickup s)))%list).
Proof.
  intros Er. unfold pickup. rewrite Er. destruct (co_shutdown_requested (ws_core s)) eqn:Esh; [done|].
  destruct (paused s || co_suspended (ws_core s) || co_compacting (ws_core s)) eqn:Eg; [cbn; by rewrite Er|].
  rewrite !orb_false_iff in Eg. destruct Eg as [[Ep Es] Ecm]. unfold paused in Ep. apply bool_decide_eq_false, dec_stable in Ep.
  assert (forall lane, match lane with Steering => co_steering (ws_core s) | FollowUp => co_follow_up (ws_core s) end <> [] ->
    let p := pickup_from lane (ws_core s) in fst p <> [] /\
    match lane with Steering => co_steering (ws_core s) | FollowUp => co_follow_up (ws_core s) end
      = (fst p ++ match lane with Steering => co_steering (snd p) | FollowUp => co_follow_up (snd p) end)%list
    /\ match lane with Steering => co_follow_up (snd p) = co_follow_up (ws_core s) | FollowUp => co_steering (snd p) = co_steering (ws_core s) end) as Hp.
  { intros lane Hne. unfold pickup_from. destruct lane;
      [pose proof (gather_prefix Steering (co_steering_mode (ws_core s)) (co_forced_all_steering (ws_core s)) (co_steering (ws_core s))) as Hg
      |pose proof (gather_prefix FollowUp (co_follow_up_mode (ws_core s)) (co_forced_all_steering (ws_core s)) (co_follow_up (ws_core s))) as Hg];
      destruct (gather_delivery_batch _ _ _ _) as [[b k] f]; destruct Hg as [Hg1 Hg2]; cbn; auto. }
  destruct (co_steering (ws_core s)) as [|x l] eqn:El; [destruct (co_follow_up (ws_core s)) as [|y k] eqn:Ef; [cbn; by rewrite Er|]|].
  - specialize (Hp FollowUp). cbn in Hp. destruct (pickup_from FollowUp (ws_core s)) as [b c']. cbn in *. intros [= <-].
    destruct Hp as (Hp1 & Hp2 & Hp3); [done|]. split_and!; try done. by right.
  - specialize (Hp Steering). cbn in Hp. destruct (pickup_from Steering (ws_core s)) as [b c']. cbn in *. intros [= <-].
    destruct Hp as (Hp1 & Hp2 & Hp3); [done|]. split_and!; try done. by left.
Qed.

(** ** Restarts *)

(** What a restart makes of an item: the images, the waiting caller, the
    admission and the agent-message marker are gone. *)
Definition as_restored (i : QueuedItem) : QueuedItem :=
  mkQueued (qd_message i) (qd_priority i) (qd_preview i) (qd_custom_message i) None (qd_queue_key i) None [] None (qd_queue_visible i)
    (qd_policy i) false.
Lemma restored_record i : restored_item (item_record i) = as_restored i.
Proof. destruct i as [m p pv c am k id im d v pol f]. unfold restored_item, item_policy. cbn. by destruct pol. Qed.
Lemma restored_records l : map restored_item (map item_record l) = map as_restored l.
Proof. rewrite map_map. apply map_ext, restored_record. Qed.

Section Restarts.
Context `{Env} `{LedgerEnv} `{!JsonLines} `{JournalText} `{!JournalTextOk} `{SessionEvidence}.

End Restarts.

(** ** Cancellation *)
Lemma reply_cancelled payload s :
  dr_data (snd (handle_cancel_prompt_admission payload s)) = Some (VObject [("status", VString "cancelled")]) ->
  let id := default "" (get_str "admissionId" payload) in
  ws_admissions s !! id <> Some Owned -> id ∉ ids_of (runner_items (ws_runner s)) ->
  absent id (fst (handle_cancel_prompt_admission payload s)).
Proof.
  intros Hd id Hne Hrun. revert Hd. unfold handle_cancel_prompt_admission, when_created. destruct (require_created _ _) as [r|] eqn:Er.
  { unfold require_created in Er. repeat case_match; by simplify_eq. }
  cbn zeta. fold id. destruct (cancel_cases id (ws_admissions s)) as [[Em ->]|[[Em ->]|(Em & Est & Eid)]]; [done|done|].
  destruct (cancel_admission id (ws_admissions s)) as [status adm]. cbn in Est, Eid. subst status. cbn -[existsb]. intros _.
  rewrite bool_decide_eq_true_2 by done. cbn [orb].
  assert (forall s', queue (ws_core s') = List.filter (fun i => negb (carries id i)) (queue (ws_core s)) -> ws_runner s' = ws_runner s ->
    ws_admissions s' !! id = None -> absent id s') as Ha.
  { intros s' Hq Hr Hn. split; [done|]. unfold item_ids. rewrite Hq, Hr, elem_of_app. intros [Hin|Hin]; [by eapply not_carried|done]. }
  destruct (_ && _ && _); apply Ha; [apply filter_queue|done|apply lookup_delete_eq|apply filter_queue|done|apply lookup_delete_eq].
Qed.
(** C15: A prompt whose cancellation was answered "cancelled" is never delivered:
    whatever happens before and after, no lane and no turn carries its id from
    then on (every prompt has its own id). *)
Theorem cancelled_prompt_never_runs `{Env} sc es es' c h payload :
  ids_of (queue c) = [] -> NoDup (omap prompt_id (es ++ es')%list) ->
  let id := default "" (get_str "admissionId" payload) in
  let s := run_events sc es (created_worker c h) in
  Some id ∉ map prompt_id es' ->
  dr_data (snd (handle_cancel_prompt_admission payload s)) = Some (VObject [("status", VString "cancelled")]) ->
  id ∉ item_ids (run_events sc es' (fst (handle_cancel_prompt_admission payload s))).
Proof.
  intros Hc Hn id s Hid Hd.
  assert (ids (created_worker c h) = []) as H0 by (unfold ids, item_ids; cbn; by rewrite Hc).
  destruct (run_owned sc es (created_worker c h)) as (Ho & _ & _).
  - intros x. unfold item_ids. cbn. rewrite Hc. cbn. set_solver.
  - rewrite H0, app_nil_r. rewrite omap_app in Hn. apply NoDup_app in Hn. tauto.
  - fold s in Ho. assert (ws_admissions s !! id <> Some Owned) as Hne.
    { intros E. revert Hd. unfold handle_cancel_prompt_admission, when_created. destruct (require_created _ _) as [r|] eqn:Er.
      { unfold require_created in Er. repeat case_match; by simplify_eq. }
      cbn zeta. fold id. destruct (cancel_cases id (ws_admissions s)) as [[Em ->]|[[Em ->]|([Em|Em] & _)]]; [done|done|congruence..]. }
    assert (absent id (fst (handle_cancel_prompt_admission payload s))) as Ha.
    { apply reply_cancelled; [done|done|]. intros Hin. apply Hne, Ho. unfold item_ids. set_solver. }
    apply (run_absent sc es' id) in Ha; [apply Ha|]. intros e He Ep. apply Hid. rewrite <- Ep. by apply list_elem_of_fmap_2.
Qed.

(** ** Mutations *)
Definition lane_items (l : Lane) (c : SessionCore) : list QueuedItem := match l with Steering => co_steering c | FollowUp => co_follow_up c end.
(** What one mutation does to its lane. *)
Lemma mutate_lane_spec lane i expected m mt lane' gone :
  mutate_lane lane i expected m mt = Some (lane', gone) ->
  exists item rest, lane !! i = Some item /\ shown item = expected /\ lane ≡ₚ item :: rest
  /\ (mt = "delete" /\ lane' ≡ₚ rest /\ gone = option_list (qd_done item)
      \/ mt = "move" /\ lane' ≡ₚ item :: rest /\ gone = []
      \/ mt = "replace" /\ qd_custom_message item = None /\ qd_agent_message item = None /\ gone = []
         /\ exists text images, get_str "text" m = Some text /\ lane' ≡ₚ edited item text images :: rest).
Proof.
  unfold mutate_lane. destruct (lane !! i) as [item|] eqn:Ei; [|done]. destruct (String.eqb (shown item) expected) eqn:Es; [|done].
  apply String.eqb_eq in Es. cbn [negb]. intros Hm. exists item, (delete i lane). split; [done|]. split; [done|].
  split; [by rewrite delete_perm|]. revert Hm.
  destruct (String.eqb mt "delete") eqn:Ed; [apply String.eqb_eq in Ed; intros [= <- <-]; by left|].
  destruct (String.eqb mt "move") eqn:Em.
  { apply String.eqb_eq in Em. cbn zeta. destruct (_ || _ || _); [done|]. intros [= <- <-]. right. left. split; [done|].
    split; [by rewrite swap_perm, delete_perm|done]. }
  destruct (String.eqb mt "replace") eqn:Er; [|done]. apply String.eqb_eq in Er.
  destruct (bool_decide (is_Some (qd_custom_message item))) eqn:Ec; [done|]. destruct (bool_decide (is_Some (qd_agent_message item))) eqn:Ea; [done|].
  apply bool_decide_eq_false, eq_None_not_Some in Ec, Ea. cbn [orb]. destruct (get_str "text" m) as [text|] eqn:Et; [|done]. intros [= <- <-].
  right. right. split_and!; try done. eexists text, _. split; [done|]. by apply insert_perm with item.
Qed.
(** A mutation is applied to the item that was shown at that place, and to
    nothing else: a deleted prompt leaves its lane and its caller hears of it,
    a move keeps every item, and a replace edits a plain prompt and keeps its
    caller; in every other case nothing changes. *)
Theorem mutation_guarded payload s :
  let '(s', r) := handle_mutate_queued_message payload s in
  let m := default VNull (get "mutation" payload) in
  let mt := default "" (get_str "type" m) in
  (s' = s /\ r <> mutation_status "applied")
  \/ (r = mutation_status "applied" /\ exists lane i item rest,
        wire_lane (get "lane" payload) = Some lane /\ lane_items lane (ws_core s) !! i = Some item
        /\ shown item = default "" (get_str "expectedText" payload) /\ queue (ws_core s) ≡ₚ item :: rest
        /\ (mt = "delete" /\ queue (ws_core s') ≡ₚ rest
              /\ ws_answers s' = (ws_answers s ++ map (fun w => (w, Some (Withdrawn QUEUED_PROMPT_DELETED))) (option_list (qd_done item)))%list
            \/ mt = "move" /\ queue (ws_core s') ≡ₚ item :: rest /\ ws_answers s' = ws_answers s
            \/ mt = "replace" /\ qd_custom_message item = None /\ qd_agent_message item = None /\ ws_answers s' = ws_answers s
               /\ exists text images, get_str "text" m = Some text /\ queue (ws_core s') ≡ₚ edited item text images :: rest)).
Proof.
  unfold handle_mutate_queued_message, when_created. destruct (require_created _ _) as [r|] eqn:Er.
  { left. unfold require_created in Er. repeat case_match; by simplify_eq. }
  cbn zeta. destruct (wire_lane (get "lane" payload)) as [lane|]; [|by left]. destruct (_ ≫= as_u64) as [n|]; [|by left].
  destruct (get "mutation" payload) as [m|]; [|by left]. change (default VNull (Some m)) with m. set (mt := default "" (get_str "type" m)).
  destruct (negb _); [by left|]. fold (lane_items lane (ws_core s)).
  destruct (mutate_lane _ _ _ _ _) as [[items gone]|] eqn:E; [|left; split; [done|by intros [=]]]. right. split; [done|].
  destruct (mutate_lane_spec _ _ _ _ _ _ _ E) as (item & rest & Hi & Hsh & Hl & Hcase).
  set (other := match lane with Steering => co_follow_up (ws_core s) | FollowUp => co_steering (ws_core s) end).
  exists lane, (Z.to_nat n), item, (rest ++ other)%list. split; [done|]. split; [done|]. split; [done|].
  assert (queue (ws_core s) ≡ₚ (lane_items lane (ws_core s) ++ other)%list) as Hq.
  { unfold queue, other. destruct lane; [done|]. apply Permutation_app_comm. }
  split; [by rewrite Hq, Hl|]. set (c1 := on_lane lane (fun _ => items) (ws_core s)). cbn [ws_core ws_answers later set_pending answer set_core].
  set (c2 := if String.eqb mt "replace" then _ else c1).
  assert (queue c2 ≡ₚ (items ++ other)%list) as Hc.
  { etrans; [|apply (queue_on_lane lane (fun _ => items) (ws_core s))]. unfold c2. destruct (String.eqb mt "replace"); [|done].
    destruct (wire_lane (get "lane" m)); [apply change_lane_perm|done]. }
  clearbody c2 mt. destruct Hcase as [(? & Hl' & ->)|[(? & Hl' & ->)|(? & H1 & H2 & -> & text & images & Ht & Hl')]].
  - left. split; [done|]. split; [by rewrite Hc, Hl'|done].
  - right. left. split; [done|]. split; [by rewrite Hc, Hl'|by rewrite app_nil_r].
  - right. right. split_and!; try done; [by rewrite app_nil_r|]. exists text, images. split; [done|]. by rewrite Hc, Hl'.
Qed.

(** ** The input queue at concrete sessions

    The theorems at concrete runs, and three runs in which
    the queue does not do what its comments say. *)
(** ** A session *)
Definition core0 : SessionCore := created_core "a" "s" None "one-at-a-time" "all" ([], []).
Definition prompt (text id : string) : Value := VObject [("message", VString text); ("admissionId", VString id)].
Definition admission (id : string) : Value := VObject [("admissionId", VString id)].
Definition written : list QEvent := [CheckpointReads 0; CheckpointWrites].
Definition asked : list QEvent := (Prompt (prompt "hello" "p1") true :: Proceed 0 :: written)%list.
Definition turn : list QEvent := (Pickup :: TurnEnds (Some SettleCompleted) :: written ++ [TurnResolves])%list.
Definition after (es : list QEvent) : WorkerState := run_events calm es (created_worker core0 opened).
Lemma opened_idle : on_record no_journal core0.
Proof. split; [done|]. by split. Qed.

Lemma waiters_answered_once_witness :
  ws_answers (after (asked ++ turn)) = [(0%nat, Some SettleCompleted)] /\ NoDup (map fst (ws_answers (after (asked ++ turn)))).
Proof.
  split; [vm_compute; reflexivity|]. destruct (waiters_answered_once calm (asked ++ turn) core0 opened eq_refl) as (_ & Hn & _). exact Hn.
Defined.
Lemma worker_state_well_formed_witness : runner_agrees (after (asked ++ [Pickup])).
Proof. destruct (worker_state_well_formed calm (asked ++ [Pickup]) core0 opened eq_refl eq_refl) as [Ha _]. exact Ha. Defined.
Definition picked : QueuedItem := mkQueued "hello" Human None None None None (Some "p1") [] (Some 0%nat) false Direct false.
Lemma turn_start_sound_witness : ws_runner (pickup (after asked)) = InTurn [picked] /\ ws_pauses (after asked) = ∅.
Proof.
  assert (E : ws_runner (pickup (after asked)) = InTurn [picked]) by (vm_compute; reflexivity).
  split; [exact E|]. assert (Ep : ws_runner (after asked) = Parked) by (vm_compute; reflexivity).
  destruct (turn_start_sound (after asked) [picked] Ep E) as [Hp _]. exact Hp.
Defined.
(** The cancellation comes between the two sections of the prompt. *)
Lemma cancelled_prompt_never_runs_witness :
  "p1" ∉ item_ids (run_events calm [Proceed 0; Pickup]
    (fst (handle_cancel_prompt_admission (admission "p1") (after [Prompt (prompt "hello" "p1") true])))).
Proof.
  apply (cancelled_prompt_never_runs calm [Prompt (prompt "hello" "p1") true] [Proceed 0; Pickup] core0 opened (admission "p1")).
  - reflexivity.
  - apply NoDup_singleton.
  - cbn. by intros [?|[?|?%elem_of_nil]%elem_of_cons]%elem_of_cons.
  - vm_compute. reflexivity.
Defined.

(** ** Where the code and its comments differ *)
Definition pause : QEvent := AcquirePause (VObject [("leaseKey", VString "k")]) "u1".
(** An abort withdraws a prompt that waits behind an input pause and tells its
    caller, and writes no checkpoint: everything is quiet and the queue is
    empty, but the journal still has the prompt and says that the session is
    busy, so that a restart relaunches the worker and delivers it. *)
Theorem aborted_prompt_stays_on_record :
  let s := after (pause :: asked ++ [AbortTurn]) in
  map (fun a => wire_error <$> snd a) (ws_answers s) = [Some (Some PROMPT_ABORTED_BEFORE_DELIVERY)]
  /\ queue (ws_core s) = [] /\ ws_owed s = [] /\ ws_pending s = [] /\ ws_writing s = None
  /\ (fst ∘ fun j => restore_queue_snapshot j "a") <$> reads (jh_file (ws_journal s)) = Some [as_restored picked]
  /\ fst (read_interrupted calm (next_process (ws_journal s))) = Ok true.
Proof. repeat split; vm_compute; reflexivity. Qed.

(** A restored agent message has lost its marker: [agent_messages_clear] no
    longer removes it. *)
Definition message_payload : Value := VObject [("message", VString "done"); ("sender", VObject [("sessionName", VString "lane")])].
Definition probe0 : DeliveryProbe := mkProbeD "agentmsg_1" now0 "2023-11-14T22:13:20.000Z" false None None.
Definition message_delivered : WorkerState := after (pause :: Deliver message_payload probe0 :: Proceed 0 :: written).
Definition revived (s : WorkerState) : WorkerState :=
  created_worker (created_core "a" "s" None "one-at-a-time" "all"
    (default ([], []) ((fun j => restore_queue_snapshot j "a") <$> reads (jh_file (ws_journal s))))) opened.
Theorem restored_message_not_cleared :
  map shown (co_steering (ws_core (fst (handle_agent_messages_clear message_delivered)))) = []
  /\ map shown (co_steering (ws_core (revived message_delivered))) = ["Agent message received: done"]
  /\ map shown (co_steering (ws_core (fst (handle_agent_messages_clear (revived message_delivered))))) = ["Agent message received: done"].
Proof. repeat split; vm_compute; reflexivity. Qed.

(** A queued prompt that was deleted keeps its admission: a cancellation is
    answered "owned", as if the prompt were still to run. *)
Definition delete_first (text : string) : QEvent :=
  Mutate (VObject [("lane", VString "steering"); ("index", VNumber 0); ("expectedText", VString text);
                   ("mutation", VObject [("type", VString "delete")])]).
Theorem deleted_prompt_stays_owned :
  let s := after (pause :: asked ++ [delete_first "hello"; Proceed 0] ++ written) in
  queue (ws_core s) = [] /\ ws_runner s = Parked /\ map (fun a => wire_error <$> snd a) (ws_answers s) = [Some (Some QUEUED_PROMPT_DELETED)]
  /\ dr_data (snd (handle_cancel_prompt_admission (admission "p1") s)) = Some (VObject [("status", VString "owned")]).
Proof. repeat split; vm_compute; reflexivity. Qed.
