(* ===== verification/Route.v ===== *)
(** * Routing commands to a worker

    The request plane between the supervisor and one resident worker:
    [supervisor/routing.rs] ([route_command_on], [route_command_ready]), the
    connection pumps of [supervisor/supervision.rs], the route state of
    [registry.rs], the bound of [backpressure.rs] and the fence of the idle
    passivation ([supervisor/worker_lifecycle.rs]).  Any number of routes run
    as tasks that interleave at their await points with the pumps, with
    connections that come and go, and with each other.  [exec] is the next
    state after one event; a run is a list of events. *)
From S2P Require Import Prelude RustStr Json World Protocol.
#[local] Open Scope string_scope.

(** ** Answers *)
Definition WORKER_NOT_CONNECTED : string := "Session worker is not connected".
Definition WORKER_SOCKET_CLOSED : string := "Daemon worker socket closed".
Definition WORKER_TIMED_OUT : string := "Session worker timed out".
Definition WORKER_INFLIGHT_CAPACITY : nat := 128.

Definition overloaded_response (command_type worker_id : string) : DaemonResponse :=
  response_failure None command_type ("Session worker " ++ worker_id ++ " is overloaded; retry later") (Some WorkerOverloaded).

(** A reply as the route hands it on; the bytes of a worker are relayed. *)
Inductive WorkerReply := Typed (response : DaemonResponse) | Relayed (payload : string).
(** What the writer pump answers a request it did not write. *)
Definition unsent_reply (request_id : nat) : WorkerReply :=
  Typed (response_failure (Some (show_Z (Z.of_nat request_id))) "route" WORKER_NOT_CONNECTED None).
(** The guard of the first arm of the reply match. *)
Definition is_unsent (r : WorkerReply) : bool :=
  match r with
  | Typed response => negb (dr_success response) && bool_decide (dr_error response = Some WORKER_NOT_CONNECTED)
  | Relayed _ => false
  end.

(** ** Routes *)
Inductive RouteAdmission := ClientRequest | SupervisorInternal.
#[export] Instance admission_eq_dec : EqDecision RouteAdmission.
Proof. solve_decision. Defined.

(** One call: [ca_ready] is [route_command_ready], which waits for a
    replacement and sends again; [ca_channel] is the handshake's private
    channel ([route_command_on]). *)
Record Call := mkCall {
  ca_admission : RouteAdmission;
  ca_command : string;
  ca_ready : bool;
  ca_channel : option nat
}.
Abbreviation outcome := (string + WorkerReply)%type.

(** The only error [route_command_ready] tries again after. *)
Definition is_not_connected (out : outcome) : bool :=
  match out with inl e => String.eqb e WORKER_NOT_CONNECTED | inr _ => false end.

(** Where a route is: each constructor is an await point or the code between
    two of them. *)
Inductive pc :=
| AwaitReady
| GetChannel
| Admit (channel : nat)
| CheckRetired (channel : nat)
| InsertPending (channel : nat)
| TrySend (channel id : nat)
| SendWait (channel id : nat)
| AwaitReply (id : nat)
| Forget (id : nat) (out : outcome)
| Finish (out : outcome)
| Done (out : outcome)
| Cancelled.
(** The in-flight permit is held from the admission to the return. *)
Definition holding (p : pc) : bool :=
  match p with
  | CheckRetired _ | InsertPending _ | TrySend _ _ | SendWait _ _ | AwaitReply _ | Forget _ _ => true
  | _ => false
  end.

(** ** The worker's side *)
Record WorkerRouteState := mkRouteState { rs_connected : bool; rs_session_ready : bool; rs_retired : bool }.
Definition initial_route_state : WorkerRouteState := mkRouteState false false false.

Record WorkerRequest := mkRequest { rq_id : nat; rq_task : nat; rq_admission : RouteAdmission; rq_command : string }.
(** The writer pump of a connection: it writes, then drains what it did not
    write, then has ended. *)
Inductive pump := Pumping | Draining | Ended.
Record Channel := mkChannel { ch_queue : list WorkerRequest; ch_pump : pump; ch_installed : bool }.
Definition ch_open (c : Channel) : bool := match ch_pump c with Pumping => true | _ => false end.

(** The receiving half of a reply slot. *)
Inductive slot := Waiting | Replied (r : WorkerReply) | Dropped.

Record Plane := mkPlane {
  pl_route : WorkerRouteState;
  pl_stopping : bool;
  pl_epoch : nat;                     (* the current connection; its channel has this number *)
  pl_cmd_tx : option nat;
  pl_channels : gmap nat Channel;
  pl_pending : gset nat;              (* request ids whose sending half is kept *)
  pl_slots : gmap nat slot;
  pl_next_id : nat;
  pl_tasks : gmap nat (Call * pc);
  pl_next_task : nat;
  pl_fence : bool;                    (* a passivation holds every permit *)
  pl_fenced : bool;                   (* history: it retired the worker while it did *)
  pl_written : list WorkerRequest     (* history: the frames that reached a worker *)
}.
Definition set_route f (s : Plane) : Plane := mkPlane (f (pl_route s)) (pl_stopping s) (pl_epoch s) (pl_cmd_tx s) (pl_channels s) (pl_pending s) (pl_slots s) (pl_next_id s) (pl_tasks s) (pl_next_task s) (pl_fence s) (pl_fenced s) (pl_written s).
Definition set_channels f (s : Plane) : Plane := mkPlane (pl_route s) (pl_stopping s) (pl_epoch s) (pl_cmd_tx s) (f (pl_channels s)) (pl_pending s) (pl_slots s) (pl_next_id s) (pl_tasks s) (pl_next_task s) (pl_fence s) (pl_fenced s) (pl_written s).
Definition set_slots (p : gset nat) (l : gmap nat slot) (s : Plane) : Plane := mkPlane (pl_route s) (pl_stopping s) (pl_epoch s) (pl_cmd_tx s) (pl_channels s) p l (pl_next_id s) (pl_tasks s) (pl_next_task s) (pl_fence s) (pl_fenced s) (pl_written s).
Definition set_tasks f (s : Plane) : Plane := mkPlane (pl_route s) (pl_stopping s) (pl_epoch s) (pl_cmd_tx s) (pl_channels s) (pl_pending s) (pl_slots s) (pl_next_id s) (f (pl_tasks s)) (pl_next_task s) (pl_fence s) (pl_fenced s) (pl_written s).

(** Edits of the route state ([publish_route_state]). *)
Definition connected_to b (r : WorkerRouteState) : WorkerRouteState := mkRouteState b (rs_session_ready r) (rs_retired r).
Definition ready_to b (r : WorkerRouteState) : WorkerRouteState := mkRouteState (rs_connected r) b (rs_retired r).
Definition retire (r : WorkerRouteState) : WorkerRouteState := mkRouteState (rs_connected r) (rs_session_ready r) true.
Definition note_connection_lost (epoch : nat) (s : Plane) : Plane :=
  if Nat.eqb epoch (pl_epoch s) then set_route (connected_to false) s else s.

(** Permits: one per admitted route, all of them for the fence. *)
Definition holders (s : Plane) : nat := size (filter (fun kv => holding (snd (snd kv)) = true) (pl_tasks s)).
Definition permit_free (s : Plane) : bool := negb (pl_fence s) && (holders s <? WORKER_INFLIGHT_CAPACITY)%nat.

(** Sending a reply takes the sending half out of [pending]. *)
Definition resolve_pending (id : nat) (r : WorkerReply) (s : Plane) : Plane :=
  if decide (id ∈ pl_pending s) then set_slots (pl_pending s ∖ {[id]}) (<[id := Replied r]> (pl_slots s)) s else s.
(** [fail_unsent_request]. *)
Definition fail_unsent_request (id : nat) : Plane -> Plane := resolve_pending id (unsent_reply id).
(** Dropping sending halves closes their slots. *)
Definition drop_pending (gone : gset nat) (s : Plane) : Plane :=
  set_slots (pl_pending s ∖ gone)
    (map_imap (fun id x => Some (if decide (id ∈ gone ∩ pl_pending s) then match x with Waiting => Dropped | _ => x end else x)) (pl_slots s)) s.
Definition clear_pending (s : Plane) : Plane := drop_pending (pl_pending s) s.

(** ** One route *)
Section Route.
Context (worker_id : string).

Definition goto (t : nat) (c : Call) (p : pc) : Plane -> Plane := set_tasks (<[t := (c, p)]>).
Definition push (ch : nat) (r : WorkerRequest) : Plane -> Plane :=
  set_channels (alter (fun x => mkChannel (ch_queue x ++ [r]) (ch_pump x) (ch_installed x)) ch).
(** A channel is closed when its receiving half is. *)
Definition channel_open (s : Plane) (ch : nat) : bool :=
  match pl_channels s !! ch with Some x => ch_open x | None => false end.
Definition channel_full (s : Plane) (ch : nat) : bool :=
  match pl_channels s !! ch with Some x => (WORKER_INFLIGHT_CAPACITY <=? List.length (ch_queue x))%nat | None => false end.
Definition new_request (t id : nat) (c : Call) : WorkerRequest := mkRequest id t (ca_admission c) (ca_command c).

(** The next piece of a route; [late]: its deadline has passed.  [None]: it
    waits. *)
Definition run_task (t : nat) (late : bool) (s : Plane) : option Plane :=
  '(c, p) ← pl_tasks s !! t;
  match p with
  | AwaitReady =>
      if rs_connected (pl_route s) && rs_session_ready (pl_route s) then Some (goto t c GetChannel s)
      else if rs_retired (pl_route s) || pl_stopping s then Some (goto t c (Done (inl WORKER_NOT_CONNECTED)) s)
      else if late then Some (goto t c (Done (inl WORKER_TIMED_OUT)) s)
      else None
  | GetChannel =>
      match (match ca_channel c with Some ch => Some ch | None => pl_cmd_tx s end) with
      | None => Some (goto t c (Finish (inl WORKER_NOT_CONNECTED)) s)
      | Some ch => Some (goto t c (Admit ch) s)
      end
  | Admit ch =>
      if permit_free s then Some (goto t c (CheckRetired ch) s)
      else match ca_admission c with
           | ClientRequest => Some (goto t c (Finish (inr (Typed (overloaded_response (ca_command c) worker_id)))) s)
           | SupervisorInternal => if late then Some (goto t c (Finish (inl WORKER_TIMED_OUT)) s) else None
           end
  | CheckRetired ch =>
      if bool_decide (ca_admission c = ClientRequest) && rs_retired (pl_route s)
      then Some (goto t c (Finish (inl WORKER_NOT_CONNECTED)) s)
      else Some (goto t c (InsertPending ch) s)
  | InsertPending ch =>
      let id := pl_next_id s in
      Some (mkPlane (pl_route s) (pl_stopping s) (pl_epoch s) (pl_cmd_tx s) (pl_channels s) (pl_pending s ∪ {[id]})
              (<[id := Waiting]> (pl_slots s)) (S id) (<[t := (c, TrySend ch id)]> (pl_tasks s)) (pl_next_task s)
              (pl_fence s) (pl_fenced s) (pl_written s))
  | TrySend ch id =>
      if negb (channel_open s ch) then Some (goto t c (Forget id (inl WORKER_NOT_CONNECTED)) s)
      else if channel_full s ch
      then match ca_admission c with
           | ClientRequest => Some (goto t c (Forget id (inr (Typed (overloaded_response (ca_command c) worker_id)))) s)
           | SupervisorInternal => Some (goto t c (SendWait ch id) s)
           end
      else Some (goto t c (AwaitReply id) (push ch (new_request t id c) s))
  | SendWait ch id =>
      if negb (channel_open s ch) then Some (goto t c (Forget id (inl WORKER_NOT_CONNECTED)) s)
      else if negb (channel_full s ch) then Some (goto t c (AwaitReply id) (push ch (new_request t id c) s))
      else if late then Some (goto t c (Forget id (inl WORKER_TIMED_OUT)) s)
      else None
  | AwaitReply id =>
      match pl_slots s !! id with
      | Some (Replied r) => Some (goto t c (Finish (if is_unsent r then inl WORKER_NOT_CONNECTED else inr r)) s)
      | Some Dropped => Some (goto t c (Finish (inl WORKER_SOCKET_CLOSED)) s)
      | _ => if late then Some (goto t c (Forget id (inl WORKER_TIMED_OUT)) s) else None
      end
  | Forget id out => Some (goto t c (Finish out) (drop_pending {[id]} s))
  | Finish out =>
      if ca_ready c && is_not_connected out && negb (late || rs_retired (pl_route s) || pl_stopping s)
      then Some (goto t c AwaitReady s)
      else Some (goto t c (Done out) s)
  | Done _ | Cancelled => None
  end.

(** ** Everything that happens *)
Inductive event :=
| Spawn (c : Call)
| Run (t : nat) (late : bool)
| Cancel (t : nat)                    (* the future of a route is dropped *)
| Write (ch : nat) (ok : bool)        (* the writer pump takes a request and writes its frame *)
| Drain (ch : nat)                    (* ... or gives back one it did not write *)
| PumpEnds (ch : nat)                 (* every sender is gone *)
| AbortPumps (ch : nat)               (* a handshake failed *)
| ForgetClosed                        (* ... and the slots nobody waits for are dropped *)
| Reply (id : nat) (payload : string) (* the reader takes a response frame *)
| ReaderClears (ch : nat)             (* the reader saw the end of its connection *)
| ReaderLost (ch : nat)
| ConnectClears                       (* [connect_worker] *)
| ConnectLive
| Install (ch : nat)
| SessionReady | SessionReplaying
| Retire | StopFlag (b : bool)
| FenceOn | FenceRetire | FenceOff.

(** The route a channel number is held by. *)
Definition uses (ch : nat) (p : pc) : bool :=
  match p with Admit c | CheckRetired c | InsertPending c | TrySend c _ | SendWait c _ => Nat.eqb c ch | _ => false end.
Definition live_ids (s : Plane) : gset nat :=
  list_to_set (omap (fun kv => match snd (snd kv) with TrySend _ id | SendWait _ id | AwaitReply id | Forget id _ => Some id | _ => None end)
                 (map_to_list (pl_tasks s))).

Definition exec (e : event) (s : Plane) : option Plane :=
  match e with
  | Spawn c =>
      Some (mkPlane (pl_route s) (pl_stopping s) (pl_epoch s) (pl_cmd_tx s) (pl_channels s) (pl_pending s) (pl_slots s) (pl_next_id s)
              (<[pl_next_task s := (c, if ca_ready c then AwaitReady else GetChannel)]> (pl_tasks s)) (S (pl_next_task s))
              (pl_fence s) (pl_fenced s) (pl_written s))
  | Run t late => run_task t late s
  | Cancel t => '(c, _) ← pl_tasks s !! t; Some (goto t c Cancelled s)
  | Write ch ok =>
      x ← pl_channels s !! ch;
      match ch_pump x, ch_queue x with
      | Pumping, r :: q =>
          if ok
          then Some (mkPlane (pl_route s) (pl_stopping s) (pl_epoch s) (pl_cmd_tx s) (<[ch := mkChannel q Pumping (ch_installed x)]> (pl_channels s))
                       (pl_pending s) (pl_slots s) (pl_next_id s) (pl_tasks s) (pl_next_task s) (pl_fence s) (pl_fenced s) (pl_written s ++ [r]))
          else Some (fail_unsent_request (rq_id r) (set_channels (<[ch := mkChannel q Draining (ch_installed x)]>) s))
      | _, _ => None
      end
  | Drain ch =>
      x ← pl_channels s !! ch;
      match ch_pump x, ch_queue x with
      | Draining, r :: q => Some (fail_unsent_request (rq_id r) (set_channels (<[ch := mkChannel q Draining (ch_installed x)]>) s))
      | Draining, [] => Some (note_connection_lost ch (set_channels (<[ch := mkChannel [] Ended (ch_installed x)]>) s))
      | _, _ => None
      end
  | PumpEnds ch =>
      x ← pl_channels s !! ch;
      match ch_pump x, ch_queue x with
      | Pumping, [] =>
          if bool_decide (pl_cmd_tx s = Some ch) || existsb (fun kv => uses ch (snd (snd kv))) (map_to_list (pl_tasks s)) then None
          else Some (set_channels (<[ch := mkChannel [] Draining (ch_installed x)]>) s)
      | _, _ => None
      end
  | AbortPumps ch =>
      x ← pl_channels s !! ch;
      if ch_installed x then None
      else Some (note_connection_lost ch (set_channels (<[ch := mkChannel [] Ended false]>) s))
  | ForgetClosed => Some (drop_pending (pl_pending s ∖ live_ids s) s)
  | Reply id payload => Some (resolve_pending id (Relayed payload) s)
  | ReaderClears ch => Some (if Nat.eqb ch (pl_epoch s) then clear_pending s else s)
  | ReaderLost ch => Some (note_connection_lost ch s)
  | ConnectClears => Some (clear_pending s)
  | ConnectLive =>
      let epoch := S (pl_epoch s) in
      Some (mkPlane (connected_to true (pl_route s)) (pl_stopping s) epoch (pl_cmd_tx s) (<[epoch := mkChannel [] Pumping false]> (pl_channels s))
              (pl_pending s) (pl_slots s) (pl_next_id s) (pl_tasks s) (pl_next_task s) (pl_fence s) (pl_fenced s) (pl_written s))
  | Install ch =>
      x ← pl_channels s !! ch;
      let s := set_channels (<[ch := mkChannel (ch_queue x) (ch_pump x) true]>) s in
      if Nat.eqb ch (pl_epoch s)
      then Some (mkPlane (pl_route s) (pl_stopping s) (pl_epoch s) (Some ch) (pl_channels s) (pl_pending s) (pl_slots s) (pl_next_id s)
                   (pl_tasks s) (pl_next_task s) (pl_fence s) (pl_fenced s) (pl_written s))
      else Some s
  | SessionReady => Some (set_route (ready_to true) s)
  | SessionReplaying => Some (set_route (ready_to false) s)
  | Retire => Some (set_route retire s)
  | StopFlag b => Some (mkPlane (pl_route s) b (pl_epoch s) (pl_cmd_tx s) (pl_channels s) (pl_pending s) (pl_slots s) (pl_next_id s)
                          (pl_tasks s) (pl_next_task s) (pl_fence s) (pl_fenced s) (pl_written s))
  | FenceOn => if negb (pl_fence s) && Nat.eqb (holders s) 0
               then Some (mkPlane (pl_route s) (pl_stopping s) (pl_epoch s) (pl_cmd_tx s) (pl_channels s) (pl_pending s) (pl_slots s) (pl_next_id s)
                            (pl_tasks s) (pl_next_task s) true (pl_fenced s) (pl_written s))
               else None
  | FenceRetire => if pl_fence s
                   then Some (mkPlane (retire (pl_route s)) true (pl_epoch s) (pl_cmd_tx s) (pl_channels s) (pl_pending s) (pl_slots s) (pl_next_id s)
                                (pl_tasks s) (pl_next_task s) true true (pl_written s))
                   else None
  | FenceOff => if pl_fence s
                then Some (mkPlane (pl_route s) (pl_stopping s) (pl_epoch s) (pl_cmd_tx s) (pl_channels s) (pl_pending s) (pl_slots s) (pl_next_id s)
                             (pl_tasks s) (pl_next_task s) false (pl_fenced s) (pl_written s))
                else None
  end.

(** [ResidentWorker::new]. *)
Definition new_resident : Plane := mkPlane initial_route_state false 0 None ∅ ∅ ∅ 0 ∅ 0 false false [].
Fixpoint run (es : list event) (s : Plane) : option Plane :=
  match es with [] => Some s | e :: es' => exec e s ≫= run es' end.
Inductive reachable : Plane -> Prop :=
| reach_new : reachable new_resident
| reach_step s e s' : reachable s -> exec e s = Some s' -> reachable s'.
End Route.
