(* ===== verification/RouteProofs.v ===== *)
(** * The invariant of the request plane

    [flow] is every request that has left a route: written to a worker, or
    still in the queue of a connection.  [inv] ties it to the routes: where a
    route stands says how much of its traffic the flow can hold. *)
From S2P Require Import Prelude Json World Protocol Route.

(** ** What has left the routes *)
Definition flow (s : Plane) : list WorkerRequest :=
  pl_written s ++ (map_to_list (pl_channels s) ≫= fun kv => ch_queue (snd kv)).

Definition queued (m : gmap nat Channel) : list WorkerRequest := map_to_list m ≫= fun kv => ch_queue (snd kv).
Lemma queued_insert_new m ch x : m !! ch = None -> queued (<[ch := x]> m) ≡ₚ ch_queue x ++ queued m.
Proof. intros H. unfold queued. rewrite (map_to_list_insert m ch x H). by rewrite bind_cons. Qed.
Lemma queued_take m ch x : m !! ch = Some x -> queued m ≡ₚ ch_queue x ++ queued (delete ch m).
Proof. intros H. rewrite <- (insert_delete_id m ch x H) at 1. apply queued_insert_new, lookup_delete_eq. Qed.
Lemma queued_put m ch x y : m !! ch = Some x -> queued (<[ch := y]> m) ≡ₚ ch_queue y ++ queued (delete ch m).
Proof. intros H. rewrite <- insert_delete_eq. apply queued_insert_new, lookup_delete_eq. Qed.

(** Replacing a channel by one with less in it. *)
Lemma queued_less m ch x y : m !! ch = Some x -> ch_queue y ⊆+ ch_queue x -> queued (<[ch := y]> m) ⊆+ queued m.
Proof. intros H Hq. rewrite (queued_put _ _ _ _ H), (queued_take _ _ _ H). by apply submseteq_app. Qed.
Lemma queued_overwrite m ch y : ch_queue y = [] -> queued (<[ch := y]> m) ⊆+ queued m.
Proof.
  intros E. destruct (m !! ch) as [x|] eqn:H.
  - apply (queued_less _ _ _ _ H). rewrite E. apply submseteq_nil_l.
  - rewrite queued_insert_new by done. by rewrite E.
Qed.

Lemma submseteq_NoDup {A} (l k : list A) : l ⊆+ k -> NoDup k -> NoDup l.
Proof. intros (k' & ->)%submseteq_Permutation H. by apply NoDup_app in H as [H _]. Qed.

(** ** The invariant *)
Definition unsent_id (p : pc) : option nat := match p with TrySend _ id | SendWait _ id => Some id | _ => None end.
(** The slot says the request was not written. *)
Definition refused (s : Plane) (id : nat) : Prop := exists r, pl_slots s !! id = Some (Replied r) /\ is_unsent r = true.
Definition quiet_task (s : Plane) (t : nat) : Prop := forall r, r ∈ flow s -> rq_task r <> t.
Definition only_id (s : Plane) (t id : nat) : Prop := forall r, r ∈ flow s -> rq_task r = t -> rq_id r = id.
(** An answer that says that nothing was sent: the retryable error, or the
    refusal of an overloaded worker. *)
Definition nothing_sent (out : outcome) : bool :=
  match out with
  | inl e => String.eqb e WORKER_NOT_CONNECTED
  | inr (Typed response) => match dr_error_info response with Some WorkerOverloaded => true | _ => false end
  | inr (Relayed _) => false
  end.

Definition task_ok (s : Plane) (t : nat) (p : pc) : Prop :=
  match p with
  | AwaitReady | GetChannel | Admit _ | CheckRetired _ | InsertPending _ => quiet_task s t
  | TrySend _ id | SendWait _ id =>
      quiet_task s t /\ (id < pl_next_id s)%nat /\ (forall r, r ∈ flow s -> rq_id r <> id) /\ ~ refused s id
  | AwaitReply id => only_id s t id
  | Forget id out => only_id s t id /\ (nothing_sent out = true -> quiet_task s t)
  | Finish out | Done out => (exists id, only_id s t id) /\ (nothing_sent out = true -> quiet_task s t)
  | Cancelled => exists id, only_id s t id
  end.

Record inv (s : Plane) : Prop := mkInv {
  inv_ids : NoDup (rq_id <$> flow s);
  inv_fresh : forall r, r ∈ flow s -> (rq_id r < pl_next_id s)%nat /\ (rq_task r < pl_next_task s)%nat;
  inv_refused : forall r, r ∈ flow s -> ~ refused s (rq_id r);
  inv_typed : forall id r, pl_slots s !! id = Some (Replied (Typed r)) -> is_unsent (Typed r) = true;
  inv_tasks : forall t c p, pl_tasks s !! t = Some (c, p) -> (t < pl_next_task s)%nat /\ task_ok s t p;
  inv_unsent : forall t1 c1 p1 t2 c2 p2 id, pl_tasks s !! t1 = Some (c1, p1) -> pl_tasks s !! t2 = Some (c2, p2) ->
    unsent_id p1 = Some id -> unsent_id p2 = Some id -> t1 = t2
}.

(** A state whose flow is part of another's and which refuses only requests
    that its flow does not hold keeps what was known of the routes. *)
Record eases (s s' : Plane) : Prop := mkEases {
  eases_flow : flow s' ⊆+ flow s;
  eases_next : (pl_next_id s <= pl_next_id s')%nat;
  eases_refused : forall id, refused s' id -> refused s id \/ (id ∈ rq_id <$> flow s) /\ id ∉ rq_id <$> flow s'
}.

Lemma eases_elem s s' r : eases s s' -> r ∈ flow s' -> r ∈ flow s.
Proof. intros [H _ _] Hr. by eapply elem_of_submseteq. Qed.

Lemma task_ok_eases s s' t p : eases s s' -> task_ok s t p -> task_ok s' t p.
Proof.
  intros He. pose proof (fun r => eases_elem s s' r He) as Hm.
  assert (Hq : quiet_task s t -> quiet_task s' t) by (intros H r Hr; by apply H, Hm).
  assert (Ho : forall id, only_id s t id -> only_id s' t id) by (intros id H r Hr; by apply H, Hm).
  assert (Hu : forall id, quiet_task s t /\ (id < pl_next_id s)%nat /\ (forall r, r ∈ flow s -> rq_id r <> id) /\ ~ refused s id ->
    quiet_task s' t /\ (id < pl_next_id s')%nat /\ (forall r, r ∈ flow s' -> rq_id r <> id) /\ ~ refused s' id).
  { intros id (H1 & H2 & H3 & H4). repeat split.
    - by apply Hq.
    - pose proof (eases_next _ _ He). lia.
    - intros r Hr. by apply H3, Hm.
    - intros Hr. destruct (eases_refused _ _ He id Hr) as [?|[(r & -> & Hin)%list_elem_of_fmap _]]; [done|]. by apply (H3 r). }
  destruct p; simpl; auto; try naive_solver.
Qed.

Lemma inv_eases s s' :
  inv s -> eases s s' -> (pl_next_task s <= pl_next_task s')%nat ->
  (forall id r, pl_slots s' !! id = Some (Replied (Typed r)) -> is_unsent (Typed r) = true) ->
  (forall t c p, pl_tasks s' !! t = Some (c, p) -> pl_tasks s !! t = Some (c, p) \/
     (t < pl_next_task s')%nat /\ task_ok s' t p /\ unsent_id p = None) -> inv s'.
Proof.
  intros I He Hn Ht Hs. pose proof (fun r => eases_elem s s' r He) as Hm. split.
  - eapply submseteq_NoDup; [apply fmap_submseteq, (eases_flow _ _ He)|apply I].
  - intros r Hr. pose proof (inv_fresh _ I r (Hm _ Hr)). pose proof (eases_next _ _ He). lia.
  - intros r Hr Hd. destruct (eases_refused _ _ He _ Hd) as [H|[_ H]].
    + by apply (inv_refused _ I r (Hm _ Hr)).
    + apply H, list_elem_of_fmap. eauto.
  - exact Ht.
  - intros t c p Hp. destruct (Hs t c p Hp) as [H|(H & H' & _)]; [|done].
    destruct (inv_tasks _ I _ _ _ H) as [Hlt Hok]. split; [lia|]. by apply (task_ok_eases s).
  - intros t1 c1 p1 t2 c2 p2 id H1 H2 U1 U2.
    destruct (Hs _ _ _ H1) as [A|(_ & _ & A)]; [|congruence]. destruct (Hs _ _ _ H2) as [B|(_ & _ & B)]; [|congruence].
    eapply (inv_unsent _ I); eauto.
Qed.

(** Nothing but the tasks changed. *)
Lemma eases_tasks f s : eases s (set_tasks f s).
Proof. split; [done|done|]. intros id H. by left. Qed.
Lemma inv_goto s t c0 p0 c p :
  inv s -> pl_tasks s !! t = Some (c0, p0) -> task_ok s t p -> unsent_id p = None -> inv (goto t c p s).
Proof.
  intros I H Hok Hu. apply (inv_eases s); [done|apply eases_tasks|done|apply I|].
  intros t' c' p' H'. simpl in H'. apply lookup_insert_Some in H' as [[<- [= <- <-]]|[_ H']]; [|by left].
  right. split; [apply (inv_tasks _ I _ _ _ H)|]. split; [|done]. by apply (task_ok_eases s), Hok; apply eases_tasks.
Qed.

(** ** Slots *)
Lemma drop_pending_replied gone s id r :
  pl_slots (drop_pending gone s) !! id = Some (Replied r) <-> pl_slots s !! id = Some (Replied r).
Proof.
  simpl. rewrite map_lookup_imap. destruct (pl_slots s !! id) as [[]|]; simpl; repeat case_decide; naive_solver.
Qed.
Lemma resolve_pending_replied id0 r0 s id r :
  pl_slots (resolve_pending id0 r0 s) !! id = Some (Replied r) -> pl_slots s !! id = Some (Replied r) \/ id = id0 /\ r = r0.
Proof.
  unfold resolve_pending. case_decide; simpl; [|by left].
  intros [[<- [= <-]]|[_ H']]%lookup_insert_Some; [by right|by left].
Qed.
Lemma resolve_pending_rest id0 r0 s : exists p l, resolve_pending id0 r0 s = set_slots p l s.
Proof. unfold resolve_pending. case_decide; [by eauto|]. exists (pl_pending s), (pl_slots s). by destruct s. Qed.
Lemma resolve_pending_fields id0 r0 s (s' := resolve_pending id0 r0 s) :
  flow s' = flow s /\ pl_next_id s' = pl_next_id s /\ pl_tasks s' = pl_tasks s /\ pl_next_task s' = pl_next_task s.
Proof. unfold s'. by destruct (resolve_pending_rest id0 r0 s) as (p & l & ->). Qed.

(** A state that differs in nothing the invariant looks at but its flow, which shrank. *)
Lemma inv_shrinks s s' :
  inv s -> flow s' ⊆+ flow s -> (pl_next_id s <= pl_next_id s')%nat -> pl_tasks s' = pl_tasks s ->
  (pl_next_task s <= pl_next_task s')%nat ->
  (forall id r, pl_slots s' !! id = Some (Replied r) -> pl_slots s !! id = Some (Replied r) \/
     match r with Relayed _ => True | Typed _ => is_unsent r = true /\ (id ∈ rq_id <$> flow s) /\ id ∉ rq_id <$> flow s' end) ->
  inv s'.
Proof.
  intros I Hf Hn Ht Hnt Hs. apply (inv_eases s); [done|split; [done..|]|done| |].
  - intros id (r & Hr & Hu). destruct (Hs _ _ Hr) as [?|H]; [left; exists r; eauto|]. destruct r; [|done]. right. tauto.
  - intros id r Hr. destruct (Hs _ _ Hr) as [?|H]; [by eapply (inv_typed _ I)|tauto].
  - intros t c p H. rewrite Ht in H. by left.
Qed.

Lemma inv_drop_pending gone s : inv s -> inv (drop_pending gone s).
Proof. intros I. apply (inv_shrinks s); try done. intros id r H. left. by eapply drop_pending_replied. Qed.
Lemma inv_reply id payload s : inv s -> inv (resolve_pending id (Relayed payload) s).
Proof.
  intros I. destruct (resolve_pending_fields id (Relayed payload) s) as (F & N & T & NT).
  apply (inv_shrinks s); rewrite ?F, ?N, ?T, ?NT; try done.
  intros i r [?|[-> ->]]%resolve_pending_replied; auto.
Qed.
(** A request taken out of a queue and given back. *)
Lemma inv_fail_unsent s s1 r :
  inv s -> flow s ≡ₚ r :: flow s1 -> pl_next_id s1 = pl_next_id s -> pl_tasks s1 = pl_tasks s ->
  pl_next_task s1 = pl_next_task s -> pl_slots s1 = pl_slots s -> inv (fail_unsent_request (rq_id r) s1).
Proof.
  intros I Hf Hn Ht Hnt Hs. destruct (resolve_pending_fields (rq_id r) (unsent_reply (rq_id r)) s1) as (F & N & T & NT).
  unfold fail_unsent_request. apply (inv_shrinks s); rewrite ?F, ?N, ?T, ?NT, ?Hn, ?Ht, ?Hnt; try done.
  { rewrite Hf. by apply submseteq_cons. }
  intros i x [H|[-> ->]]%resolve_pending_replied; [left; by rewrite <- Hs|right].
  pose proof (inv_ids _ I) as Hd. rewrite Hf in Hd. simpl in Hd. apply NoDup_cons in Hd as [Hd _].
  split; [done|]. split; [|done]. rewrite Hf. simpl. left.
Qed.

(** ** Sending *)
Lemma alter_as_insert (m : gmap nat Channel) ch f x : m !! ch = Some x -> alter f ch m = <[ch := f x]> m.
Proof. intros H. rewrite <- (insert_id m ch x H) at 1. apply alter_insert_eq. Qed.
Lemma flow_push ch x r s : pl_channels s !! ch = Some x -> flow (push ch r s) ≡ₚ r :: flow s.
Proof.
  intros H. change (pl_written s ++ queued (pl_channels (push ch r s)) ≡ₚ r :: pl_written s ++ queued (pl_channels s)).
  unfold push. simpl. rewrite (alter_as_insert _ _ _ _ H), (queued_put _ _ _ _ H), (queued_take _ _ _ H). simpl.
  rewrite <- !app_assoc. simpl. rewrite <- Permutation_middle. by rewrite <- Permutation_middle.
Qed.

Lemma inv_push s t c p ch x id :
  inv s -> pl_tasks s !! t = Some (c, p) -> unsent_id p = Some id -> pl_channels s !! ch = Some x ->
  inv (goto t c (AwaitReply id) (push ch (new_request t id c) s)).
Proof.
  intros I Ht Hu Hch. pose proof (flow_push ch x (new_request t id c) s Hch) as Hf.
  assert (Hok : quiet_task s t /\ (id < pl_next_id s)%nat /\ (forall r, r ∈ flow s -> rq_id r <> id) /\ ~ refused s id).
  { destruct (inv_tasks _ I _ _ _ Ht) as [_ H]. by destruct p; simpl in Hu; simplify_eq. }
  destruct Hok as (Hq & Hlt & Hid & Hnr). destruct (inv_tasks _ I _ _ _ Ht) as [Htn _].
  set (s' := goto t c (AwaitReply id) (push ch (new_request t id c) s)).
  assert (Hin : forall r, r ∈ flow s' <-> r = new_request t id c \/ r ∈ flow s).
  { intros r. change (flow s') with (flow (push ch (new_request t id c) s)). rewrite Hf. apply elem_of_cons. }
  split.
  - change (flow s') with (flow (push ch (new_request t id c) s)). rewrite Hf. simpl. apply NoDup_cons. split; [|apply I].
    intros (r & -> & Hr)%list_elem_of_fmap. by apply (Hid r).
  - intros r [->|Hr]%Hin; [done|]. by apply (inv_fresh _ I).
  - intros r [->|Hr]%Hin; [done|]. by apply (inv_refused _ I).
  - apply I.
  - intros t' c' p' H. simpl in H. apply lookup_insert_Some in H as [[<- [= <- <-]]|[Hne H]].
    + split; [done|]. intros r [->|Hr]%Hin E; [done|]. by apply Hq in E.
    + destruct (inv_tasks _ I _ _ _ H) as [H1 H2]. split; [done|].
      assert (Hqt : quiet_task s t' -> quiet_task s' t') by (intros K r [->|Hr]%Hin; [done|by apply K]).
      assert (Hot : forall i, only_id s t' i -> only_id s' t' i) by (intros i K r [->|Hr]%Hin; [done|by apply K]).
      assert (Hun : forall i, unsent_id p' = Some i -> forall r, (forall r, r ∈ flow s -> rq_id r <> i) -> r ∈ flow s' -> rq_id r <> i).
      { intros i Hi r K [->|Hr]%Hin; [|by apply K]. simpl. intros <-. apply Hne. by eapply (inv_unsent _ I). }
      destruct p'; simpl in *; naive_solver.
  - intros t1 c1 p1 t2 c2 p2 i H1 H2 U1 U2. simpl in H1, H2.
    apply lookup_insert_Some in H1 as [[<- [= <- <-]]|[_ H1]]; [done|].
    apply lookup_insert_Some in H2 as [[<- [= <- <-]]|[_ H2]]; [done|]. by eapply (inv_unsent _ I).
Qed.
(** The full channel of a supervisor route: it waits with the same request. *)
Lemma inv_send_wait s t c ch id :
  inv s -> pl_tasks s !! t = Some (c, TrySend ch id) -> inv (goto t c (SendWait ch id) s).
Proof.
  intros I H. split; try apply I.
  - intros t' c' p' H'. simpl in H'. apply lookup_insert_Some in H' as [[<- [= <- <-]]|[_ H']]; [apply (inv_tasks _ I _ _ _ H)|].
    apply (inv_tasks _ I _ _ _ H').
  - assert (Hold : forall t' c' p' i, pl_tasks (goto t c (SendWait ch id) s) !! t' = Some (c', p') -> unsent_id p' = Some i ->
      exists c'' p'', pl_tasks s !! t' = Some (c'', p'') /\ unsent_id p'' = Some i).
    { intros t' c' p' i H'. simpl in H'. apply lookup_insert_Some in H' as [[<- [= <- <-]]|[_ H']]; naive_solver. }
    intros t1 c1 p1 t2 c2 p2 i H1 H2 U1 U2.
    destruct (Hold _ _ _ _ H1 U1) as (? & ? & A & B), (Hold _ _ _ _ H2 U2) as (? & ? & A' & B'). by eapply (inv_unsent _ I).
Qed.

(** A new request: its number is above every number in use. *)
Lemma inv_insert_pending worker_id s t c ch late s' :
  inv s -> pl_tasks s !! t = Some (c, InsertPending ch) -> run_task worker_id t late s = Some s' -> inv s'.
Proof.
  intros I H Hr. unfold run_task in Hr. rewrite H in Hr. simpl in Hr. injection Hr as <-.
  set (s' := mkPlane _ _ _ _ _ _ _ _ _ _ _ _ _). destruct (inv_tasks _ I _ _ _ H) as [Hlt Hq]. simpl in Hq.
  assert (Hsl : forall id r, pl_slots s' !! id = Some (Replied r) -> pl_slots s !! id = Some (Replied r)).
  { intros id r E. simpl in E. by apply lookup_insert_Some in E as [[_ [=]]|[_ E]]. }
  assert (He : eases s s').
  { split; [done|simpl; lia|]. intros id (r & E & U). left. exists r. eauto. }
  assert (Hup : forall t' c' p' id, pl_tasks s !! t' = Some (c', p') -> unsent_id p' = Some id -> (id < pl_next_id s)%nat).
  { intros t' c' p' id E U. destruct (inv_tasks _ I _ _ _ E) as [_ K]. destruct p'; simpl in *; naive_solver. }
  split.
  - apply I.
  - intros r Hr. pose proof (inv_fresh _ I r Hr). simpl. lia.
  - intros r Hr (x & E & U). apply (inv_refused _ I r Hr). exists x. eauto.
  - intros id r E. eapply (inv_typed _ I); eauto.
  - intros t' c' p' E. simpl in E. apply lookup_insert_Some in E as [[<- [= <- <-]]|[_ E]].
    + split; [done|]. repeat split; [done|simpl; lia| |].
      * intros r Hr. pose proof (inv_fresh _ I r Hr). lia.
      * intros (x & Ex & _). simpl in Ex. by rewrite lookup_insert_eq in Ex.
    + destruct (inv_tasks _ I _ _ _ E) as [H1 H2]. split; [done|]. by apply (task_ok_eases s).
  - intros t1 c1 p1 t2 c2 p2 id E1 E2 U1 U2. simpl in E1, E2.
    apply lookup_insert_Some in E1 as [[<- [= <- <-]]|[_ E1]], E2 as [[<- [= <- <-]]|[_ E2]]; simpl in *; simplify_eq; try done.
    + assert (pl_next_id s < pl_next_id s)%nat by (by eapply (Hup t2)). lia.
    + assert (pl_next_id s < pl_next_id s)%nat by (by eapply (Hup t1)). lia.
    + by eapply (inv_unsent _ I).
Qed.

(** ** Every piece of a route *)
Lemma task_ok_unsent s t p id : unsent_id p = Some id -> task_ok s t p -> only_id s t id /\ quiet_task s t.
Proof. intros H Hok. assert (Q : quiet_task s t) by (destruct p; simpl in *; naive_solver). split; [|done]. intros r Hr E. by apply Q in E. Qed.
Lemma quiet_only s t id : quiet_task s t -> only_id s t id.
Proof. intros Q r Hr E. by apply Q in E. Qed.
Lemma quiet_some s t : quiet_task s t -> exists id, only_id s t id.
Proof. exists 0%nat. by apply quiet_only. Qed.
#[local] Hint Resolve quiet_only : core.
#[local] Hint Resolve quiet_some | 0 : core.
(** A refused request did not leave, and no other of its route did. *)
Lemma refused_quiet s t id : inv s -> only_id s t id -> refused s id -> quiet_task s t.
Proof. intros I Ho Hr r Hin E. apply (inv_refused _ I r Hin). by rewrite (Ho r Hin E). Qed.

Lemma inv_run worker_id t late s s' : inv s -> run_task worker_id t late s = Some s' -> inv s'.
Proof.
  intros I Hr. pose proof Hr as Hr0. unfold run_task in Hr. destruct (pl_tasks s !! t) as [[c p]|] eqn:Ht; [|done]. simpl in Hr.
  destruct (inv_tasks _ I _ _ _ Ht) as [_ Hok].
  assert (Hg : forall p', task_ok s t p' -> unsent_id p' = None -> inv (goto t c p' s)) by (intros; by eapply inv_goto).
  assert (Hpush : forall ch id, unsent_id p = Some id -> channel_open s ch = true ->
    inv (goto t c (AwaitReply id) (push ch (new_request t id c) s))).
  { intros ch id U O. unfold channel_open in O. destruct (pl_channels s !! ch) eqn:E; [|done]. by eapply inv_push. }
  destruct p as [| |ch|ch|ch|ch id|ch id|id|id out|out|out|]; simpl in Hok.
  - repeat case_match; simplify_eq; apply Hg; simpl; eauto.
  - repeat case_match; simplify_eq; apply Hg; simpl; eauto.
  - repeat case_match; simplify_eq; apply Hg; simpl; eauto.
  - repeat case_match; simplify_eq; apply Hg; simpl; eauto.
  - by eapply inv_insert_pending.
  - destruct Hok as (Hq & _). destruct (channel_open s ch) eqn:O; simpl in Hr; [|simplify_eq; apply Hg; simpl; eauto].
    destruct (channel_full s ch); [|simplify_eq; by apply Hpush].
    destruct (ca_admission c); simplify_eq; [apply Hg; simpl; eauto|]. by apply inv_send_wait.
  - destruct Hok as (Hq & _). destruct (channel_open s ch) eqn:O; simpl in Hr; [|simplify_eq; apply Hg; simpl; eauto].
    destruct (channel_full s ch); simpl in Hr; [|simplify_eq; by apply Hpush].
    destruct late; simplify_eq. apply Hg; simpl; eauto.
  - destruct (pl_slots s !! id) as [[|r|]|] eqn:Es; simpl in Hr; try (destruct late; simplify_eq; apply Hg; simpl; eauto; done).
    + simplify_eq. apply Hg; [|done]. split; [eauto|]. destruct (is_unsent r) eqn:Eu.
      * intros _. eapply refused_quiet; eauto. by exists r.
      * destruct r as [r|]; [|done]. pose proof (inv_typed _ I _ _ Es). congruence.
    + simplify_eq. apply Hg; [|done]. split; [eauto|done].
  - simplify_eq. apply (inv_goto _ t c (Forget id out)); [by apply inv_drop_pending|done| |done].
    destruct Hok. split; eauto.
  - repeat case_match; simplify_eq; apply Hg; simpl; try done.
    apply Hok. rewrite !andb_true_iff in *. destruct out; naive_solver.
  - done.
  - done.
Qed.

(** ** Every event *)
Lemma task_ok_some s t p : task_ok s t p -> exists id, only_id s t id.
Proof. destruct p; simpl; naive_solver. Qed.
Lemma flow_queued s : flow s = pl_written s ++ queued (pl_channels s).
Proof. done. Qed.
Lemma flow_channels f s : flow (set_channels f s) = pl_written s ++ queued (f (pl_channels s)).
Proof. done. Qed.

(** Channels change, and the flow does not grow. *)
Lemma inv_channels f s : inv s -> queued (f (pl_channels s)) ⊆+ queued (pl_channels s) -> inv (set_channels f s).
Proof. intros I H. apply (inv_shrinks s); try done; [|by left]. rewrite flow_channels, flow_queued. by apply submseteq_app. Qed.
Lemma inv_lost epoch s : inv s -> inv (note_connection_lost epoch s).
Proof. intros I. unfold note_connection_lost. case_match; [|done]. apply (inv_shrinks s); try done. by left. Qed.
(** A request is taken from the head of a queue. *)
Lemma flow_pop s ch x r q y :
  pl_channels s !! ch = Some x -> ch_queue x = r :: q -> ch_queue y = q -> flow s ≡ₚ r :: flow (set_channels (<[ch := y]>) s).
Proof.
  intros H E Ey. rewrite flow_channels, flow_queued, (queued_take _ _ _ H), (queued_put _ _ _ _ H), E, Ey. simpl.
  by rewrite <- Permutation_middle.
Qed.

Lemma inv_exec worker_id e s s' : inv s -> exec worker_id e s = Some s' -> inv s'.
Proof.
  intros I H.
  assert (Hsame : forall s1, flow s1 = flow s -> pl_next_id s1 = pl_next_id s -> pl_tasks s1 = pl_tasks s ->
    pl_next_task s1 = pl_next_task s -> pl_slots s1 = pl_slots s -> inv s1).
  { intros s1 F N T NT S. apply (inv_shrinks s); rewrite ?F, ?N, ?T, ?NT, ?S; auto. }
  destruct e; simpl in H.
  - simplify_eq. apply (inv_eases s); [done|split; [done|done|by left]|simpl; lia|apply I|].
    intros t c' p E. simpl in E. apply lookup_insert_Some in E as [[<- [= <- <-]]|[_ E]]; [right|by left].
    simpl. split; [lia|]. split; [|by destruct (ca_ready _)].
    assert (Q : forall r, r ∈ flow s -> rq_task r <> pl_next_task s) by (intros r Hr; pose proof (inv_fresh _ I r Hr); lia).
    by destruct (ca_ready _).
  - by eapply inv_run.
  - destruct (pl_tasks s !! t) as [[c p]|] eqn:Ht; simplify_eq. simpl in H. simplify_eq.
    apply (inv_goto _ t c p); [done|done| |done]. eapply task_ok_some, (inv_tasks _ I _ _ _ Ht).
  - destruct (pl_channels s !! ch) as [x|] eqn:Hch; [|done]. simpl in H.
    destruct (ch_pump x); try done. destruct (ch_queue x) as [|r q] eqn:Hq; [done|].
    pose proof (fun y => flow_pop s ch x r q y Hch Hq) as Hf. destruct ok; simplify_eq.
    + apply (inv_shrinks s); try done; [|by left]. rewrite (Hf (mkChannel q Pumping (ch_installed x)) eq_refl).
      unfold flow. simpl. rewrite <- (app_assoc (pl_written s)). simpl. by rewrite Permutation_middle.
    + by eapply (inv_fail_unsent s); [|apply Hf|..].
  - destruct (pl_channels s !! ch) as [x|] eqn:Hch; [|done]. simpl in H.
    destruct (ch_pump x); try done. destruct (ch_queue x) as [|r q] eqn:Hq; simplify_eq.
    + apply inv_lost, inv_channels; [done|]. by apply queued_overwrite.
    + eapply (inv_fail_unsent s); try done. by eapply flow_pop.
  - destruct (pl_channels s !! ch) as [x|] eqn:Hch; [|done]. simpl in H. repeat case_match; simplify_eq.
    apply inv_channels; [done|]. by apply queued_overwrite.
  - destruct (pl_channels s !! ch) as [x|] eqn:Hch; [|done]. simpl in H. repeat case_match; simplify_eq.
    apply inv_lost, inv_channels; [done|]. by apply queued_overwrite.
  - simplify_eq. by apply inv_drop_pending.
  - simplify_eq. by apply inv_reply.
  - simplify_eq. case_match; [by apply inv_drop_pending|done].
  - simplify_eq. by apply inv_lost.
  - simplify_eq. by apply inv_drop_pending.
  - simplify_eq. apply (inv_shrinks s); try done; [|by left]. rewrite !flow_queued. simpl.
    by apply submseteq_app, queued_overwrite.
  - destruct (pl_channels s !! ch) as [x|] eqn:Hch; [|done]. simpl in H.
    assert (Hl : queued (<[ch := mkChannel (ch_queue x) (ch_pump x) true]> (pl_channels s)) ⊆+ queued (pl_channels s))
      by by apply (queued_less _ _ _ _ Hch).
    case_match; simplify_eq; (apply (inv_shrinks s); try done; [|by left]); rewrite !flow_queued; by apply submseteq_app.
  - simplify_eq. by apply Hsame.
  - simplify_eq. by apply Hsame.
  - simplify_eq. by apply Hsame.
  - simplify_eq. by apply Hsame.
  - case_match; simplify_eq. by apply Hsame.
  - case_match; simplify_eq. by apply Hsame.
  - case_match; simplify_eq. by apply Hsame.
Qed.

Lemma inv_new : inv new_resident.
Proof. split; try done; try (intros * H; set_solver). constructor. Qed.
Lemma reachable_inv worker_id s : reachable worker_id s -> inv s.
Proof. induction 1; [apply inv_new|by eapply inv_exec]. Qed.
