(* ===== verification/RouteTheorems.v ===== *)
(** * What the request plane guarantees

    At most one delivery per route, the bounds of the backpressure, the fence
    of the idle passivation, and that a route ends by its deadline. *)
From S2P Require Import Prelude RustStr Json World Protocol Route RouteProofs.

(** ** Permits *)
Lemma holders_leave t (m : gmap nat (Call * pc)) :
  (size (filter (fun kv => holding (snd (snd kv)) = true) (delete t m)) <= size (filter (fun kv => holding (snd (snd kv)) = true) m))%nat.
Proof. rewrite map_filter_delete, map_size_delete. destruct (_ !! t); [apply Nat.le_pred_l|done]. Qed.
Lemma holders_goto t c0 p0 c p s :
  pl_tasks s !! t = Some (c0, p0) -> (holding p = true -> holding p0 = true) -> (holders (goto t c p s) <= holders s)%nat.
Proof.
  intros H Hh. unfold holders, goto. simpl. destruct (holding p) eqn:E.
  - rewrite map_filter_insert_True by done. rewrite map_size_insert_Some; [done|].
    exists (c0, p0). apply map_lookup_filter_Some. auto.
  - rewrite map_filter_insert_False by (simpl; congruence). apply holders_leave.
Qed.
Lemma holders_goto_S t c p s : (holders (goto t c p s) <= S (holders s))%nat.
Proof.
  unfold holders, goto. simpl. destruct (holding p) eqn:E.
  - rewrite map_filter_insert_True by done. rewrite map_size_insert. destruct (_ !! t); [apply Nat.le_succ_diag_r|done].
  - rewrite map_filter_insert_False by (simpl; congruence). apply Nat.le_le_succ_r, holders_leave.
Qed.
Lemma no_holders s t c p : holders s = 0%nat -> pl_tasks s !! t = Some (c, p) -> holding p = false.
Proof.
  intros H Ht. destruct (holding p) eqn:E; [|done]. apply map_size_empty_inv in H.
  assert (K : filter (fun kv => holding (snd (snd kv)) = true) (pl_tasks s) !! t = Some (c, p)) by (by apply map_lookup_filter_Some).
  rewrite H in K. by rewrite lookup_empty in K.
Qed.

(** Past the check of the retirement, with the request still to be sent. *)
Definition committed (p : pc) : bool := match p with InsertPending _ | TrySend _ _ | SendWait _ _ => true | _ => false end.

Record bounded (s : Plane) : Prop := mkBounded {
  bd_holders : (holders s <= WORKER_INFLIGHT_CAPACITY)%nat;
  bd_fence : pl_fence s = true -> holders s = 0%nat;
  bd_queues : forall ch x, pl_channels s !! ch = Some x -> (List.length (ch_queue x) <= WORKER_INFLIGHT_CAPACITY)%nat;
  bd_fenced : pl_fenced s = true -> rs_retired (pl_route s) = true /\
    forall t c p, pl_tasks s !! t = Some (c, p) -> ca_admission c = ClientRequest -> committed p = false
}.

(** What a piece of a route does to the rest. *)
Inductive piece (t : nat) (s : Plane) : Plane -> Prop :=
| piece_goto c p p' pend slots : pl_tasks s !! t = Some (c, p) ->
    (holding p' = true -> holding p = true \/ permit_free s = true) ->
    (committed p' = true -> committed p = true \/ ~ (ca_admission c = ClientRequest /\ rs_retired (pl_route s) = true)) ->
    piece t s (goto t c p' (set_slots pend slots s))
| piece_insert c ch : pl_tasks s !! t = Some (c, InsertPending ch) ->
    piece t s (mkPlane (pl_route s) (pl_stopping s) (pl_epoch s) (pl_cmd_tx s) (pl_channels s) (pl_pending s ∪ {[pl_next_id s]})
              (<[pl_next_id s := Waiting]> (pl_slots s)) (S (pl_next_id s)) (<[t := (c, TrySend ch (pl_next_id s))]> (pl_tasks s)) (pl_next_task s)
              (pl_fence s) (pl_fenced s) (pl_written s))
| piece_push c p ch x id : pl_tasks s !! t = Some (c, p) -> unsent_id p = Some id -> pl_channels s !! ch = Some x ->
    (List.length (ch_queue x) < WORKER_INFLIGHT_CAPACITY)%nat ->
    piece t s (goto t c (AwaitReply id) (push ch (new_request t id c) s)).

Lemma run_piece worker_id t late s s' : run_task worker_id t late s = Some s' -> piece t s s'.
Proof.
  unfold run_task. destruct (pl_tasks s !! t) as [[c p]|] eqn:Ht; [|done]. simpl.
  assert (Hg : forall p', (holding p' = true -> holding p = true \/ permit_free s = true) ->
    (committed p' = true -> committed p = true \/ ~ (ca_admission c = ClientRequest /\ rs_retired (pl_route s) = true)) ->
    piece t s (goto t c p' s)).
  { intros p' H1 H2. replace s with (set_slots (pl_pending s) (pl_slots s) s) at 2 by (by destruct s). by econstructor. }
  assert (Hp : forall ch id, unsent_id p = Some id -> channel_open s ch = true -> channel_full s ch = false ->
    piece t s (goto t c (AwaitReply id) (push ch (new_request t id c) s))).
  { intros ch id U O F. unfold channel_open, channel_full in *. destruct (pl_channels s !! ch) as [x|] eqn:E; [|done].
    econstructor; eauto. by apply Nat.leb_gt. }
  destruct p as [| |ch|ch|ch|ch id|ch id|id|id out|out|out|]; simpl.
  1-4: intros H; repeat case_match; simplify_eq; apply Hg; simpl; auto.
  - intros _. right. intros [E1 E2]. rewrite E1, E2 in *. by rewrite bool_decide_true in *.
  - intros [= <-]. by econstructor.
  - intros H. destruct (channel_open s ch) eqn:O; simpl in H; [|simplify_eq; apply Hg; simpl; auto].
    destruct (channel_full s ch) eqn:F; [|simplify_eq; by apply Hp].
    destruct (ca_admission c); simplify_eq; apply Hg; simpl; auto.
  - intros H. destruct (channel_open s ch) eqn:O; simpl in H; [|simplify_eq; apply Hg; simpl; auto].
    destruct (channel_full s ch) eqn:F; simpl in H; [|simplify_eq; by apply Hp].
    destruct late; simplify_eq. apply Hg; simpl; auto.
  - intros H. repeat case_match; simplify_eq; apply Hg; simpl; auto.
  - intros [= <-]. by econstructor.
  - intros H. repeat case_match; simplify_eq; apply Hg; simpl; auto.
  - done.
  - done.
Qed.

Lemma bounded_goto s t c p p' pend slots :
  bounded s -> pl_tasks s !! t = Some (c, p) ->
  (holding p' = true -> holding p = true \/ permit_free s = true) ->
  (committed p' = true -> committed p = true \/ ~ (ca_admission c = ClientRequest /\ rs_retired (pl_route s) = true)) ->
  bounded (goto t c p' (set_slots pend slots s)).
Proof.
  intros B H Hh Hc. set (s' := goto t c p' (set_slots pend slots s)).
  assert (Hs : (holders s' <= holders s)%nat \/ permit_free s = true /\ (holders s' <= S (holders s))%nat).
  { destruct (holding p) eqn:Ep.
    - left. apply (holders_goto t c p c p' (set_slots pend slots s)); auto.
    - destruct (holding p') eqn:Ep'.
      + right. destruct Hh as [|Hf]; [done|done|]. split; [done|]. apply (holders_goto_S t c p' (set_slots pend slots s)).
      + left. apply (holders_goto t c p c p' (set_slots pend slots s)); auto. congruence. }
  unfold permit_free in Hs. rewrite andb_true_iff, negb_true_iff, Nat.ltb_lt in Hs. split.
  - pose proof (bd_holders _ B). lia.
  - intros F. change (pl_fence s = true) in F. pose proof (bd_fence _ B F). destruct Hs as [|[[? _] _]]; [lia|congruence].
  - apply B.
  - intros F. destruct (bd_fenced _ B F) as [R K]. split; [done|].
    intros t' c' q E A. simpl in E. apply lookup_insert_Some in E as [[<- [= <- <-]]|[_ E]]; [|by eapply K].
    destruct (committed p') eqn:E; [|done]. destruct (Hc eq_refl) as [Hp|[]]; [|by split]. by rewrite <- Hp, (K _ _ _ H A).
Qed.

Lemma bounded_piece t s s' : bounded s -> piece t s s' -> bounded s'.
Proof.
  intros B P. destruct P as [c p p' pend slots H Hh Hc|c ch H|c p ch x id H U Hch Hl].
  - by eapply bounded_goto.
  - pose proof (bounded_goto s t c _ (TrySend ch (pl_next_id s)) (pl_pending s) (pl_slots s) B H ltac:(auto) ltac:(auto)) as B'.
    split; apply B'.
  - assert (Hp : holding p = true) by (destruct p; done).
    pose proof (bounded_goto s t c p (AwaitReply id) (pl_pending s) (pl_slots s) B H ltac:(auto) ltac:(done)) as B'.
    split; try apply B'. intros ch' y E. simpl in E. rewrite (alter_as_insert _ _ _ _ Hch) in E.
    apply lookup_insert_Some in E as [[<- <-]|[_ E]]; [simpl; rewrite length_app; simpl; lia|by apply (bd_queues _ B ch')].
Qed.

(** An event that leaves the routes and the fence as they are, and lengthens
    no queue. *)
Lemma bounded_same s s' :
  bounded s -> pl_tasks s' = pl_tasks s -> pl_fence s' = pl_fence s -> pl_fenced s' = pl_fenced s ->
  (rs_retired (pl_route s) = true -> rs_retired (pl_route s') = true) ->
  (forall ch x, pl_channels s' !! ch = Some x -> ch_queue x = [] \/
     exists y, pl_channels s !! ch = Some y /\ (List.length (ch_queue x) <= List.length (ch_queue y))%nat) -> bounded s'.
Proof.
  intros B T F F' R Q. assert (H : holders s' = holders s) by (unfold holders; by rewrite T). split.
  - rewrite H. apply B.
  - rewrite H, F. apply B.
  - intros ch x E. destruct (Q ch x E) as [->|(y & Ey & L)]; [simpl; unfold WORKER_INFLIGHT_CAPACITY; lia|].
    pose proof (bd_queues _ B ch y Ey). lia.
  - rewrite F', T. intros E. destruct (bd_fenced _ B E). auto.
Qed.
Lemma queue_put (m : gmap nat Channel) ch x y ch' z :
  m !! ch = Some x -> (List.length (ch_queue y) <= List.length (ch_queue x))%nat -> <[ch := y]> m !! ch' = Some z ->
  ch_queue z = [] \/ exists w, m !! ch' = Some w /\ (List.length (ch_queue z) <= List.length (ch_queue w))%nat.
Proof. intros H L [[<- <-]|[_ E]]%lookup_insert_Some; right; eauto. Qed.
Lemma queue_same (m : gmap nat Channel) ch' z :
  m !! ch' = Some z -> ch_queue z = [] \/ exists w, m !! ch' = Some w /\ (List.length (ch_queue z) <= List.length (ch_queue w))%nat.
Proof. eauto. Qed.
#[local] Hint Resolve queue_same : core.
Lemma bounded_slots p l s : bounded s -> bounded (set_slots p l s).
Proof. intros B. apply (bounded_same s); auto. Qed.
Lemma bounded_resolve id r s : bounded s -> bounded (resolve_pending id r s).
Proof. intros B. destruct (resolve_pending_rest id r s) as (p & l & ->). by apply bounded_slots. Qed.
Lemma bounded_lost epoch s : bounded s -> bounded (note_connection_lost epoch s).
Proof. intros B. unfold note_connection_lost. case_match; [|done]. apply (bounded_same s); auto. Qed.
Lemma bounded_put ch x y s :
  bounded s -> pl_channels s !! ch = Some x -> (List.length (ch_queue y) <= List.length (ch_queue x))%nat -> bounded (set_channels (<[ch := y]>) s).
Proof. intros B H L. apply (bounded_same s); try done. intros ch' z E. by eapply queue_put. Qed.

Lemma bounded_exec worker_id e s s' : bounded s -> exec worker_id e s = Some s' -> bounded s'.
Proof.
  intros B H. destruct e; simpl in H.
  - simplify_eq. set (p := if ca_ready c then AwaitReady else GetChannel).
    assert (Hp : holding p = false /\ committed p = false) by (unfold p; by case_match). destruct Hp as [Hh Hc].
    set (s' := mkPlane _ _ _ _ _ _ _ _ _ _ _ _ _).
    assert (Hs : (holders s' <= holders s)%nat).
    { unfold holders, s'. simpl. rewrite map_filter_insert_False by (simpl; congruence). apply holders_leave. }
    split; [pose proof (bd_holders _ B); lia|intros F; pose proof (bd_fence _ B F); lia|apply B|].
    intros F. destruct (bd_fenced _ B F) as [R K]. split; [done|].
    intros t c' q E. simpl in E. apply lookup_insert_Some in E as [[<- [= <- <-]]|[_ E]]; [done|by eapply K].
  - by eapply bounded_piece, run_piece.
  - destruct (pl_tasks s !! t) as [[c p]|] eqn:Ht; simplify_eq. simpl in H. simplify_eq.
    replace s with (set_slots (pl_pending s) (pl_slots s) s) by (by destruct s). by eapply bounded_goto.
  - destruct (pl_channels s !! ch) as [x|] eqn:Hch; [|done]. simpl in H.
    destruct (ch_pump x); try done. destruct (ch_queue x) as [|r q] eqn:Hq; [done|]. destruct ok; simplify_eq.
    + apply (bounded_same s); try done. intros ch' z E. eapply queue_put; [done| |done]. rewrite Hq. simpl. lia.
    + eapply bounded_resolve, bounded_put; [done..|]. rewrite Hq. simpl. lia.
  - destruct (pl_channels s !! ch) as [x|] eqn:Hch; [|done]. simpl in H.
    destruct (ch_pump x); try done. destruct (ch_queue x) as [|r q] eqn:Hq; simplify_eq.
    + eapply bounded_lost, bounded_put; [done..|]. simpl. lia.
    + eapply bounded_resolve, bounded_put; [done..|]. rewrite Hq. simpl. lia.
  - destruct (pl_channels s !! ch) as [x|] eqn:Hch; [|done]. simpl in H. repeat case_match; simplify_eq.
    eapply bounded_put; [done..|]. simpl. lia.
  - destruct (pl_channels s !! ch) as [x|] eqn:Hch; [|done]. simpl in H. repeat case_match; simplify_eq.
    eapply bounded_lost, bounded_put; [done..|]. simpl. lia.
  - simplify_eq. by apply bounded_slots.
  - simplify_eq. by apply bounded_resolve.
  - simplify_eq. case_match; [by apply bounded_slots|done].
  - simplify_eq. by apply bounded_lost.
  - simplify_eq. by apply bounded_slots.
  - simplify_eq. apply (bounded_same s); try done. intros ch z E. simpl in E.
    apply lookup_insert_Some in E as [[<- <-]|[_ E]]; [by left|eauto].
  - destruct (pl_channels s !! ch) as [x|] eqn:Hch; [|done]. simpl in H.
    case_match; simplify_eq; (apply (bounded_same s); try done); intros ch' z E; (eapply queue_put; [exact Hch| |exact E]); done.
  - simplify_eq. apply (bounded_same s); auto.
  - simplify_eq. apply (bounded_same s); auto.
  - simplify_eq. apply (bounded_same s); auto.
  - simplify_eq. apply (bounded_same s); auto.
  - case_match eqn:E; simplify_eq. rewrite andb_true_iff, Nat.eqb_eq in E. destruct E as [_ E].
    split; try apply B. intros _. exact E.
  - case_match eqn:E; simplify_eq. split; try apply B; [by intros _; apply (bd_fence _ B)|]. intros _. split; [done|].
    intros t c p Ht _. pose proof (no_holders s t c p (bd_fence _ B E) Ht). by destruct p.
  - case_match eqn:E; simplify_eq. split; try apply B. done.
Qed.
Lemma reachable_bounded worker_id s : reachable worker_id s -> bounded s.
Proof.
  induction 1; [|by eapply bounded_exec]. split; try done.
  unfold holders. simpl. rewrite map_filter_empty, map_size_empty. unfold WORKER_INFLIGHT_CAPACITY. lia.
Qed.

(** ** The guarantees *)
Lemma NoDup_same_length {A} (l : list A) x : NoDup l -> (forall y, y ∈ l -> y = x) -> (List.length l <= 1)%nat.
Proof.
  intros Hd H. destruct l as [|a [|b l]]; simpl; [lia|lia|]. exfalso.
  apply NoDup_cons in Hd as [Hd _]. apply Hd. rewrite (H a) by left. rewrite (H b) by (right; left). left.
Qed.
Lemma NoDup_fmap_filter (P : WorkerRequest -> Prop) `{forall x, Decision (P x)} l :
  NoDup (rq_id <$> l) -> NoDup (rq_id <$> filter P l).
Proof. apply submseteq_NoDup, fmap_submseteq, sublist_submseteq, sublist_filter. Qed.

(** C6: A route's requests, written or still on their way, are at most one, however
    often it is sent again; a route that returned the retryable error or the
    refusal of an overloaded worker has sent none. *)
Theorem route_delivers_at_most_once worker_id s t c p :
  reachable worker_id s -> pl_tasks s !! t = Some (c, p) ->
  (List.length (filter (fun r => rq_task r = t) (flow s)) <= 1)%nat /\
  (forall out, p = Done out -> nothing_sent out = true -> filter (fun r => rq_task r = t) (flow s) = []).
Proof.
  intros I%reachable_inv H. destruct (inv_tasks _ I _ _ _ H) as [_ Hok]. split.
  - destruct (task_ok_some _ _ _ Hok) as [id Hid]. rewrite <- (length_fmap rq_id).
    apply (NoDup_same_length _ id); [apply NoDup_fmap_filter, I|].
    intros i (r & -> & [Hr Hin]%list_elem_of_filter)%list_elem_of_fmap. by apply Hid.
  - intros out -> Hn. destruct Hok as [_ K]. specialize (K Hn).
    destruct (filter _ _) as [|r l] eqn:E; [done|]. exfalso.
    assert (Hr : r ∈ filter (fun r => rq_task r = t) (flow s)) by (rewrite E; left).
    apply list_elem_of_filter in Hr as [Ht Hin]. by apply (K r).
Qed.

(** C28: Never more than 128 routes hold a permit, never more than 128 requests
    wait for a connection, and nothing is admitted while a passivation holds
    every permit. *)
Theorem worker_traffic_bounded worker_id s :
  reachable worker_id s ->
  (holders s + (if pl_fence s then WORKER_INFLIGHT_CAPACITY else 0) <= WORKER_INFLIGHT_CAPACITY)%nat /\
  forall ch x, pl_channels s !! ch = Some x -> (List.length (ch_queue x) <= WORKER_INFLIGHT_CAPACITY)%nat.
Proof.
  intros B%reachable_bounded. split; [|apply B]. destruct (pl_fence s) eqn:F.
  - rewrite (bd_fence _ B F). done.
  - pose proof (bd_holders _ B). lia.
Qed.

(** ** The fence *)
Lemma resolve_flow id r s : flow (resolve_pending id r s) = flow s.
Proof. by destruct (resolve_pending_fields id r s) as (? & _). Qed.
Lemma lost_flow epoch s : flow (note_connection_lost epoch s) = flow s.
Proof. unfold note_connection_lost. by case_match. Qed.
Lemma resolve_fenced id r s : pl_fenced (resolve_pending id r s) = pl_fenced s.
Proof. unfold resolve_pending. by case_decide. Qed.
Lemma lost_fenced epoch s : pl_fenced (note_connection_lost epoch s) = pl_fenced s.
Proof. unfold note_connection_lost. by case_match. Qed.
Lemma resolve_tasks id r s : pl_tasks (resolve_pending id r s) = pl_tasks s.
Proof. unfold resolve_pending. by case_decide. Qed.
Lemma lost_tasks epoch s : pl_tasks (note_connection_lost epoch s) = pl_tasks s.
Proof. unfold note_connection_lost. by case_match. Qed.
Lemma fenced_exec worker_id e s s' : exec worker_id e s = Some s' -> pl_fenced s = true -> pl_fenced s' = true.
Proof.
  intros H F. destruct e; try (apply run_piece in H; by destruct H); simpl in H;
    try (destruct (_ !! _) as [x|]; [|done]; simpl in H); repeat case_match; simplify_eq;
    unfold fail_unsent_request; by rewrite ?resolve_fenced, ?lost_fenced.
Qed.

Lemma queue_flow s ch x r : pl_channels s !! ch = Some x -> r ∈ ch_queue x -> r ∈ flow s.
Proof. intros H Hr. rewrite flow_queued, (queued_take _ _ _ H). set_solver. Qed.
Lemma put_flow s ch x y r : pl_channels s !! ch = Some x -> ch_queue y ⊆+ ch_queue x -> r ∈ flow (set_channels (<[ch := y]>) s) -> r ∈ flow s.
Proof. intros H L Hr. eapply elem_of_submseteq; [exact Hr|]. rewrite flow_channels, flow_queued. by eapply submseteq_app, queued_less. Qed.

(** Only a route that is past the check adds to the flow. *)
Lemma flow_grows worker_id e s s' r :
  exec worker_id e s = Some s' -> r ∈ flow s' -> r ∈ flow s \/
  exists t c p, pl_tasks s !! t = Some (c, p) /\ committed p = true /\ rq_admission r = ca_admission c.
Proof.
  intros H Hr. destruct e; simpl in H.
  - simplify_eq. by left.
  - apply run_piece in H. destruct H as [| |c p ch x id Ht U Hch Hl]; [by left|by left|].
    change (r ∈ flow (push ch (new_request t id c) s)) in Hr. rewrite (flow_push _ _ _ _ Hch) in Hr.
    apply elem_of_cons in Hr as [->|Hr]; [right|by left]. exists t, c, p. split; [done|]. split; [by destruct p|done].
  - destruct (pl_tasks s !! t) as [[c p]|]; simpl in H; simplify_eq. by left.
  - left. destruct (pl_channels s !! ch) as [x|] eqn:Hch; [|done]. simpl in H.
    destruct (ch_pump x); try done. destruct (ch_queue x) as [|a q] eqn:Hq; [done|].
    destruct ok; simplify_eq.
    + rewrite (flow_pop s ch x a q (mkChannel q Pumping (ch_installed x)) Hch Hq eq_refl). unfold flow in *. simpl in *. rewrite <- app_assoc in Hr. set_solver.
    + unfold fail_unsent_request in Hr. rewrite resolve_flow in Hr. eapply put_flow; [done| |done]. rewrite Hq. by apply submseteq_cons.
  - left. destruct (pl_channels s !! ch) as [x|] eqn:Hch; [|done]. simpl in H.
    destruct (ch_pump x); try done. destruct (ch_queue x) as [|a q] eqn:Hq; simplify_eq.
    + rewrite lost_flow in Hr. eapply put_flow; [done| |done]. apply submseteq_nil_l.
    + unfold fail_unsent_request in Hr. rewrite resolve_flow in Hr. eapply put_flow; [done| |done]. rewrite Hq. by apply submseteq_cons.
  - left. destruct (pl_channels s !! ch) as [x|] eqn:Hch; [|done]. simpl in H. repeat case_match; simplify_eq.
    eapply put_flow; [done| |done]. apply submseteq_nil_l.
  - left. destruct (pl_channels s !! ch) as [x|] eqn:Hch; [|done]. simpl in H. repeat case_match; simplify_eq.
    rewrite lost_flow in Hr. eapply put_flow; [done| |done]. apply submseteq_nil_l.
  - simplify_eq. by left.
  - simplify_eq. left. by rewrite resolve_flow in Hr.
  - simplify_eq. left. by case_match.
  - simplify_eq. left. by rewrite lost_flow in Hr.
  - simplify_eq. by left.
  - simplify_eq. left. rewrite flow_queued in *. simpl in Hr. eapply elem_of_submseteq; [exact Hr|].
    by apply submseteq_app, queued_overwrite.
  - left. destruct (pl_channels s !! ch) as [x|] eqn:Hch; [|done]. simpl in H.
    case_match; simplify_eq; eapply (put_flow s ch x (mkChannel (ch_queue x) (ch_pump x) true)); done.
  - simplify_eq. by left.
  - simplify_eq. by left.
  - simplify_eq. by left.
  - simplify_eq. by left.
  - case_match; simplify_eq. by left.
  - case_match; simplify_eq. by left.
  - case_match; simplify_eq. by left.
Qed.

(** C25: Once a passivation has retired the worker under its fence, no client's
    request is put on its way to it, whatever happens afterwards: what the
    worker can still be sent of its clients' requests was already queued. *)
Theorem passivation_fence_holds worker_id s es s' :
  reachable worker_id s -> pl_fenced s = true -> run worker_id es s = Some s' ->
  forall r, r ∈ flow s' -> rq_admission r = ClientRequest -> r ∈ flow s.
Proof.
  intros H F. revert s H F. induction es as [|e es IH]; simpl; intros s H F E r Hr A; [by simplify_eq|].
  destruct (exec worker_id e s) as [s1|] eqn:E1; [|done]. simpl in E.
  assert (H1 : r ∈ flow s1) by (eapply IH; eauto using reach_step, fenced_exec).
  destruct (flow_grows _ _ _ _ _ E1 H1) as [?|(t & c & p & Ht & Hc & Ha)]; [done|]. exfalso.
  destruct (bd_fenced _ (reachable_bounded _ _ H) F) as [_ K]. specialize (K t c p Ht). rewrite <- Ha, A in K. by rewrite K in Hc.
Qed.

(** ** The deadline *)
Definition ended (p : pc) : bool := match p with Done _ | Cancelled => true | _ => false end.
(** The pieces a route still has after its deadline. *)
Definition left_to_run (p : pc) : nat :=
  match p with
  | AwaitReady => 10 | GetChannel => 9 | Admit _ => 8 | CheckRetired _ => 7 | InsertPending _ => 6 | TrySend _ _ => 5
  | SendWait _ _ => 4 | AwaitReply _ => 3 | Forget _ _ => 2 | Finish _ => 1 | Done _ | Cancelled => 0
  end.
Definition to_run (t : nat) (s : Plane) : nat := match pl_tasks s !! t with Some (_, p) => left_to_run p | None => 10 end.
Definition runs (t : nat) (e : event) : Prop := match e with Run t' _ => t' = t | _ => False end.
#[export] Instance runs_dec t e : Decision (runs t e).
Proof. destruct e; simpl; apply _. Defined.

Lemma late_run worker_id t c p s :
  pl_tasks s !! t = Some (c, p) -> ended p = false ->
  exists s' p', run_task worker_id t true s = Some s' /\ pl_tasks s' !! t = Some (c, p') /\ (left_to_run p' < left_to_run p)%nat.
Proof.
  intros H E. unfold run_task. rewrite H. simpl. destruct p; try done; simpl;
    repeat case_match; try (rewrite andb_false_r in *; done);
    (eexists _, _; split; [reflexivity|]; simpl; rewrite lookup_insert_eq; split; [reflexivity|simpl; lia]).
Qed.
Lemma tasks_step worker_id e s s' t :
  inv s -> exec worker_id e s = Some s' -> ~ runs t e -> forall c p, pl_tasks s !! t = Some (c, p) ->
  exists p', pl_tasks s' !! t = Some (c, p') /\ (left_to_run p' <= left_to_run p)%nat.
Proof.
  intros I H N c p Ht.
  assert (Hsame : pl_tasks s' = pl_tasks s -> exists p', pl_tasks s' !! t = Some (c, p') /\ (left_to_run p' <= left_to_run p)%nat)
    by (intros ->; eauto).
  destruct e as [c'|t' late|t'| | | | | | | | | | | | | | | | | |]; simpl in H, N.
  4-21: try (destruct (pl_channels s !! ch) as [x|]; [|done]; simpl in H); repeat case_match; simplify_eq; apply Hsame;
    unfold fail_unsent_request; by rewrite ?resolve_tasks, ?lost_tasks.
  - simplify_eq. destruct (inv_tasks _ I _ _ _ Ht) as [Hlt _]. simpl. rewrite lookup_insert_ne by lia. eauto.
  - apply run_piece in H. destruct H; simpl; rewrite lookup_insert_ne by done; eauto.
  - destruct (pl_tasks s !! t') as [[c' q]|] eqn:E; simpl in H; simplify_eq. destruct (decide (t' = t)) as [->|Ne].
    + simplify_eq. exists Cancelled. simpl. rewrite lookup_insert_eq. split; [done|lia].
    + simpl. rewrite lookup_insert_ne by done. eauto.
Qed.

(** C29: Past its deadline a route that has not returned can always go on, whatever
    the worker, the connection and the other routes do, and it goes through
    at most ten more pieces: it returns. *)
Theorem route_ends_by_deadline worker_id s t c p :
  reachable worker_id s -> pl_tasks s !! t = Some (c, p) ->
  (ended p = false -> exists s', exec worker_id (Run t true) s = Some s') /\
  forall es s', run worker_id es s = Some s' -> Run t false ∉ es -> (List.length (filter (runs t) es) <= 10)%nat.
Proof.
  intros H Ht. split.
  - intros E. destruct (late_run worker_id t c p s Ht E) as (s' & _ & H' & _). by exists s'.
  - intros es s' Hes Hl. assert (K : (List.length (filter (runs t) es) <= left_to_run p)%nat); [|destruct p; simpl in K; lia].
    revert s p H Ht Hes. induction es as [|e es IH]; intros s p H Ht Hes; [simpl; lia|].
    apply not_elem_of_cons in Hl as [Hne Hl]. simpl in Hes. destruct (exec worker_id e s) as [s1|] eqn:E; [|done]. simpl in Hes.
    pose proof (reach_step _ _ _ _ H E) as H1. rewrite filter_cons. case_decide as Hd.
    + destruct e as [|t' late| | | | | | | | | | | | | | | | | | |]; simpl in Hd; try done. subst t'. destruct late; [|done].
      assert (Ep : ended p = false) by (simpl in E; unfold run_task in E; rewrite Ht in E; by destruct p).
      destruct (late_run worker_id t c p s Ht Ep) as (s2 & p' & E2 & Ht2 & Hlt). simpl in E. rewrite E2 in E. simplify_eq.
      specialize (IH Hl _ _ H1 Ht2 Hes). simpl. lia.
    + destruct (tasks_step worker_id e s s1 t (reachable_inv _ _ H) E Hd c p Ht) as (p' & Ht' & Hle).
      specialize (IH Hl _ _ H1 Ht' Hes). lia.
Qed.

(** ** At concrete runs *)
Lemma run_reachable worker_id es s s' : reachable worker_id s -> run worker_id es s = Some s' -> reachable worker_id s'.
Proof.
  revert s. induction es as [|e es IH]; simpl; intros s H E; [by simplify_eq|].
  destruct (exec worker_id e s) as [s1|] eqn:E1; [|done]. eapply IH; [|exact E]. by eapply reach_step.
Qed.
Definition connects (epoch : nat) : list event := [ConnectClears; ConnectLive; Install epoch; SessionReady].
Definition client (command : string) : Call := mkCall ClientRequest command true None.
Definition pieces (n t : nat) : list event := repeat (Run t false) n.

(** The first connection dies under the frame of a route; the route waits for
    the next one and sends again. *)
Definition retried : list event :=
  [Spawn (client "prompt")] ++ connects 1 ++ pieces 6 0 ++ [Write 1 false; Drain 1] ++ pieces 2 0 ++ connects 2 ++
  pieces 6 0 ++ [Write 2 true; Reply 1 "ok"] ++ pieces 2 0.
Definition after (es : list event) : Plane := default new_resident (run "w" es new_resident).
Lemma after_reachable es : is_Some (run "w" es new_resident) -> reachable "w" (after es).
Proof. intros [s E]. unfold after. rewrite E. eapply run_reachable; [apply reach_new|exact E]. Qed.

Lemma route_delivers_at_most_once_witness :
  pl_tasks (after retried) !! 0%nat = Some (client "prompt", Done (inr (Relayed "ok"))) /\
  (List.length (filter (fun r => rq_task r = 0%nat) (flow (after retried))) <= 1)%nat.
Proof.
  assert (H : pl_tasks (after retried) !! 0%nat = Some (client "prompt", Done (inr (Relayed "ok")))) by (vm_compute; reflexivity).
  split; [exact H|]. eapply (route_delivers_at_most_once "w" (after retried) 0); [|exact H].
  apply after_reachable. vm_compute. by eexists.
Defined.
Lemma worker_traffic_bounded_witness : (holders (after (take 9 retried)) <= WORKER_INFLIGHT_CAPACITY)%nat.
Proof.
  destruct (worker_traffic_bounded "w" (after (take 9 retried))) as [H _]; [|lia].
  apply after_reachable. vm_compute. by eexists.
Defined.

(** A client's request waits in the queue when the passivation begins: the
    route had timed out and released its permit. *)
Definition fenced_run : list event :=
  [Spawn (client "prompt")] ++ connects 1 ++ pieces 6 0 ++ [Run 0 true; Run 0 true; Run 0 true; FenceOn; FenceRetire; FenceOff].
Lemma passivation_fence_holds_witness :
  let r := mkRequest 0 0 ClientRequest "prompt" in
  r ∈ flow (after (fenced_run ++ [Write 1 true])) /\ r ∈ flow (after fenced_run).
Proof.
  cbv zeta. assert (H : mkRequest 0 0 ClientRequest "prompt" ∈ flow (after (fenced_run ++ [Write 1 true]))) by (vm_compute; left).
  split; [exact H|]. apply (passivation_fence_holds "w" (after fenced_run) [Write 1 true] (after (fenced_run ++ [Write 1 true]))).
  - apply after_reachable. vm_compute. by eexists.
  - vm_compute. reflexivity.
  - vm_compute. reflexivity.
  - exact H.
  - reflexivity.
Defined.
Lemma route_ends_by_deadline_witness :
  exists s', exec "w" (Run 0 true) (after (take 9 retried)) = Some s'.
Proof.
  apply (route_ends_by_deadline "w" (after (take 9 retried)) 0 (client "prompt") (InsertPending 1)).
  - apply after_reachable. vm_compute. by eexists.
  - vm_compute. reflexivity.
  - reflexivity.
Defined.

(** Holding every permit does not say that nothing runs on the worker: the
    request of a route that timed out reaches it after the fence is up. *)
Theorem fence_with_request_in_flight :
  exists es s r, run "w" es new_resident = Some s /\ pl_fence s = true /\ pl_fenced s = true /\
    r ∈ pl_written s /\ rq_admission r = ClientRequest /\ pl_slots s !! rq_id r = Some Dropped.
Proof.
  exists ([Spawn (client "prompt")] ++ connects 1 ++ pieces 6 0 ++ [Run 0 true; Run 0 true; Run 0 true; FenceOn; FenceRetire; Write 1 true]).
  eexists _, (mkRequest 0 0 ClientRequest "prompt"). split; [vm_compute; reflexivity|]. repeat split. vm_compute. left.
Qed.
