(* ===== verification/Framing.v ===== *)
(** * Private frames

    The length-prefixed frames of a worker socket
    ([pa-types/src/daemon/framing.rs]): an eight byte prefix with two
    big-endian lengths, a JSON header and a payload.  [push] is the incremental
    decoder, [read_frame] the reader over a byte stream, [write_frame] and
    [write_frame_segments] the two writers.  Bytes are byte strings. *)
From S2P Require Import Prelude RustStr Lines Json World LedgerReplay LedgerFile Journal.
#[local] Open Scope string_scope.

Definition FRAME_PREFIX_BYTES : nat := 8.
Record PrivateFrameLimits := mkLimits { max_header_bytes : Z; max_payload_bytes : Z }.
Definition DEFAULT_PRIVATE_FRAME_LIMITS : PrivateFrameLimits := mkLimits (1024 * 1024) (1024 * 1024 * 1024).
Record PrivateFrame := mkFrame { pf_header : Value; pf_payload : string }.

Definition assert_frame_length (name : string) (value maximum : Z) : anyhow + unit :=
  if (maximum <? value)%Z then inl (anyhow_msg ("Invalid private frame " ++ name ++ ": " ++ show_Z value)) else inr tt.

(** ** Big-endian words *)
Definition byte_of (n : Z) : ascii := ascii_of_N (Z.to_N (n mod 256)).
Definition as_u32 (n : Z) : Z := n mod 2 ^ 32.
Definition to_be_bytes (n : Z) : string :=
  String (byte_of (Z.shiftr n 24)) (String (byte_of (Z.shiftr n 16)) (String (byte_of (Z.shiftr n 8)) (String (byte_of n) ""))).
Definition from_be_bytes (a b c d : ascii) : Z :=
  (Z.of_N (code a) * 2 ^ 24 + Z.of_N (code b) * 2 ^ 16 + Z.of_N (code c) * 2 ^ 8 + Z.of_N (code d))%Z.

Definition byte_len (s : string) : Z := Z.of_nat (len s).

Section Framing.
Context `{Env} `{JournalText}.

(** ** Encoding *)
(** The checks both writers make; the bytes of the header. *)
Definition frame_header (header : Value) (payload : string) (limits : PrivateFrameLimits) : anyhow + string :=
  let header_bytes := value_display header in
  if is_empty header_bytes then inl (anyhow_msg "Private frame header cannot be empty")
  else
    let? _ := assert_frame_length "header length" (byte_len header_bytes) (max_header_bytes limits) in
    let? _ := assert_frame_length "payload length" (byte_len payload) (max_payload_bytes limits) in
    inr header_bytes.
Definition frame_prefix (header_bytes payload : string) : string :=
  to_be_bytes (as_u32 (byte_len header_bytes)) ++ to_be_bytes (as_u32 (byte_len payload)) ++ header_bytes.
Definition encode_private_frame (header : Value) (payload : string) (limits : PrivateFrameLimits) : anyhow + string :=
  let? header_bytes := frame_header header payload limits in
  inr (frame_prefix header_bytes payload ++ payload).

(** ** Decoding *)
(** [serde_json::from_slice]. *)
Definition header_of (bytes : string) : string + Value := if is_utf8 bytes then from_str bytes else inl (utf8_error_text bytes).

(** The prefix of a frame: the lengths of its header and its payload, and the
    bytes behind it. *)
Definition read_prefix (rest : string) : option (Z * Z * string) :=
  match rest with
  | String p0 (String p1 (String p2 (String p3 (String p4 (String p5 (String p6 (String p7 body))))))) =>
      Some (from_be_bytes p0 p1 p2 p3, from_be_bytes p4 p5 p6 p7, body)
  | _ => None
  end.
(** One turn of the loop of [push] on the bytes from its offset: the frame
    there and its length, or nothing when it is not complete. *)
Definition frame_body (limits : PrivateFrameLimits) (header_len payload_len : Z) (body : string)
    : anyhow + option (PrivateFrame * nat) :=
  let? _ := assert_frame_length "header length" header_len (max_header_bytes limits) in
  let? _ := assert_frame_length "payload length" payload_len (max_payload_bytes limits) in
  if (header_len =? 0)%Z then inl (anyhow_msg "Private frame header cannot be empty")
  else
    let h := Z.to_nat header_len in
    let p := Z.to_nat payload_len in
    if (len body <? h + p)%nat then inr None
    else match header_of (str_take h body) with
         | inl e => inl (anyhow_msg ("Invalid private frame header JSON: " ++ e))
         | inr (VObject _ as header) => inr (Some (mkFrame header (str_take p (str_drop h body)), FRAME_PREFIX_BYTES + h + p)%nat)
         | inr _ => inl (anyhow_msg "Invalid private frame routing header")
         end.
Definition next_frame (limits : PrivateFrameLimits) (rest : string) : anyhow + option (PrivateFrame * nat) :=
  match read_prefix rest with
  | None => inr None
  | Some (header_len, payload_len, body) => frame_body limits header_len payload_len body
  end.
(** The frames in a buffer and the bytes left; every frame has more than
    eight bytes, so the length of the buffer is fuel enough. *)
Fixpoint push_loop (fuel : nat) (limits : PrivateFrameLimits) (rest : string) : anyhow + (list PrivateFrame * string) :=
  match fuel with
  | O => inr ([], rest)
  | S fuel' =>
      let? found := next_frame limits rest in
      match found with
      | None => inr ([], rest)
      | Some (frame, n) =>
          let? more := push_loop fuel' limits (str_drop n rest) in
          inr (frame :: fst more, snd more)
      end
  end.

Record PrivateFrameDecoder := mkDecoder { de_buffer : string; de_limits : PrivateFrameLimits }.
Definition new_decoder (limits : PrivateFrameLimits) : PrivateFrameDecoder := mkDecoder "" limits.
Definition buffered_bytes (d : PrivateFrameDecoder) : nat := len (de_buffer d).
(** An error leaves the chunk, and the frames before the bad one, in the
    buffer. *)
Definition push_chunk (d : PrivateFrameDecoder) (chunk : string) : (anyhow + list PrivateFrame) * PrivateFrameDecoder :=
  let buffer := de_buffer d ++ chunk in
  match push_loop (S (len buffer)) (de_limits d) buffer with
  | inl e => (inl e, mkDecoder buffer (de_limits d))
  | inr (frames, rest) => (inr frames, mkDecoder rest (de_limits d))
  end.
Definition finish (d : PrivateFrameDecoder) : anyhow + unit :=
  if is_empty (de_buffer d) then inr tt
  else inl (anyhow_msg ("Private frame channel ended with " ++ show_Z (byte_len (de_buffer d)) ++ " incomplete bytes")).

(** ** Writing *)
(** A byte sink that takes so many more bytes, or any number. *)
Record Sink := mkSink { si_out : string; si_room : option nat }.
Definition broken_pipe : anyhow := anyhow_msg (os_error_text OtherIo).
Definition write_all (s : string) (w : Sink) : (anyhow + unit) * Sink :=
  match si_room w with
  | None => (inr tt, mkSink (si_out w ++ s) None)
  | Some n =>
      if (len s <=? n)%nat then (inr tt, mkSink (si_out w ++ s) (Some (n - len s)%nat))
      else (inl broken_pipe, mkSink (si_out w ++ str_take n s) (Some 0%nat))
  end.
Definition write_frame (header : Value) (payload : string) (limits : PrivateFrameLimits) (w : Sink) : (anyhow + unit) * Sink :=
  match encode_private_frame header payload limits with
  | inl e => (inl e, w)
  | inr frame => write_all frame w
  end.
Definition write_frame_segments (header : Value) (payload : string) (limits : PrivateFrameLimits) (w : Sink) : (anyhow + unit) * Sink :=
  match frame_header header payload limits with
  | inl e => (inl e, w)
  | inr header_bytes =>
      match write_all (frame_prefix header_bytes payload) w with
      | (inl e, w1) => (inl e, w1)
      | (inr _, w1) => write_all payload w1
      end
  end.

(** ** Reading *)
(** What the reads of a stream return, in order: an error or some bytes; after
    the last, and for no bytes, the stream has ended. *)
Record PrivateFrameReader := mkReader { re_reads : list (anyhow + string); re_decoder : PrivateFrameDecoder; re_queue : list PrivateFrame }.
Definition new_reader (reads : list (anyhow + string)) (limits : PrivateFrameLimits) : PrivateFrameReader :=
  mkReader reads (new_decoder limits) [].
Definition stream_ended (d : PrivateFrameDecoder) : anyhow + option PrivateFrame :=
  match finish d with
  | inl e => inl (anyhow_context "private frame channel ended mid-frame" e)
  | inr _ => if Nat.eqb (buffered_bytes d) 0 then inr None else inl (anyhow_msg "Private frame channel ended mid-frame")
  end.
(** The loop of [read_frame] from an empty queue. *)
Fixpoint read_loop (reads : list (anyhow + string)) (d : PrivateFrameDecoder) : (anyhow + option PrivateFrame) * PrivateFrameReader :=
  match reads with
  | [] => (stream_ended d, mkReader [] d [])
  | inl e :: rest => (inl e, mkReader rest d [])
  | inr chunk :: rest =>
      if is_empty chunk then (stream_ended d, mkReader rest d [])
      else match push_chunk d chunk with
           | (inl e, d') => (inl e, mkReader rest d' [])
           | (inr [], d') => read_loop rest d'
           | (inr (frame :: queue), d') => (inr (Some frame), mkReader rest d' queue)
           end
  end.
Definition read_frame (r : PrivateFrameReader) : (anyhow + option PrivateFrame) * PrivateFrameReader :=
  match re_queue r with
  | frame :: queue => (inr (Some frame), mkReader (re_reads r) (re_decoder r) queue)
  | [] => read_loop (re_reads r) (re_decoder r)
  end.
(** The next [n] calls. *)
Fixpoint read_times (n : nat) (r : PrivateFrameReader) : list (anyhow + option PrivateFrame) :=
  match n with
  | O => []
  | S n' => let '(out, r') := read_frame r in out :: read_times n' r'
  end.
End Framing.
