(* ===== verification/FramingTheorems.v ===== *)
(** * Private frames: what goes in comes out

    However the bytes of a stream are cut into reads, the reader returns the
    frames that were written, in order, and tells a clean end from a frame cut
    short; the decoder's buffer is bounded; the two writers write the same. *)
From S2P Require Import Prelude RustStr Lines Json World LedgerReplay LedgerFile LedgerSim Journal JournalProofs Recovery Framing.
#[local] Open Scope string_scope.

(** ** Words *)
Lemma code_byte n : Z.of_N (code (byte_of n)) = (n mod 256)%Z.
Proof.
  unfold code, byte_of. pose proof (Z.mod_pos_bound n 256 ltac:(lia)). rewrite N_ascii_embedding by lia. lia.
Qed.
Lemma be_round_trip n : (0 <= n < 2 ^ 32)%Z ->
  from_be_bytes (byte_of (Z.shiftr n 24)) (byte_of (Z.shiftr n 16)) (byte_of (Z.shiftr n 8)) (byte_of n) = n.
Proof.
  intros Hn. unfold from_be_bytes. rewrite !code_byte, !Z.shiftr_div_pow2 by lia.
  change (2 ^ 24)%Z with (256 * (256 * 256))%Z. change (2 ^ 16)%Z with (256 * 256)%Z. change (2 ^ 8)%Z with 256%Z.
  rewrite <- !Z.div_div by lia. change (2 ^ 32)%Z with 4294967296%Z in Hn.
  Z.to_euclidean_division_equations. lia.
Qed.
Lemma be_nonneg a b c d : (0 <= from_be_bytes a b c d)%Z.
Proof. unfold from_be_bytes. lia. Qed.

(** ** One frame *)
Section Frames.
Context `{Env} `{JournalText}.

Lemma assert_length_inr name v m u : assert_frame_length name v m = inr u <-> (v <= m)%Z.
Proof. unfold assert_frame_length. destruct (Z.ltb_spec m v); destruct u; split; try done; lia. Qed.

(** What [next_frame] says of a buffer it says of every longer one, but that
    the frame is not complete. *)
Lemma str_drop_short n a b : (n <= len a)%nat -> str_drop n (a ++ b) = str_drop n a ++ b.
Proof. unfold len. revert n. induction a as [|c a IH]; intros [|n] Hn; cbn in *; try done; try lia. apply IH. lia. Qed.
Lemma len_drop n s : len (str_drop n s) = (len s - n)%nat.
Proof. revert n. induction s as [|c s IH]; intros [|n]; cbn; [done..|apply IH]. Qed.
Lemma read_prefix_spec a :
  match read_prefix a with
  | None => (len a < 8)%nat
  | Some (h, p, body) => len a = (8 + len body)%nat /\ (0 <= h)%Z /\ (0 <= p)%Z /\ forall b, read_prefix (a ++ b) = Some (h, p, body ++ b)
  end.
Proof.
  unfold read_prefix, len. do 8 (destruct a as [|? a]; [cbn; lia|]). cbn. repeat split; try apply be_nonneg. 
Qed.
(** What one turn of the loop says of a buffer it says of every longer one,
    but that the frame is not complete; then the buffer is short. *)
Lemma frame_body_spec l h p body :
  match frame_body l h p body with
  | inl e => forall b, frame_body l h p (body ++ b) = inl e
  | inr (Some (f, n)) => (0 < n <= 8 + len body)%nat /\ forall b, frame_body l h p (body ++ b) = inr (Some (f, n))
  | inr None => (byte_len body < Z.max 0 (max_header_bytes l) + Z.max 0 (max_payload_bytes l))%Z
  end.
Proof.
  unfold frame_body, byte_len.
  destruct (assert_frame_length "header length" h _) as [|[]] eqn:E1; cbn [sum_bind]; [done|].
  destruct (assert_frame_length "payload length" p _) as [|[]] eqn:E2; cbn [sum_bind]; [done|].
  apply assert_length_inr in E1, E2. destruct (h =? 0)%Z; [done|]. cbv zeta.
  destruct (Nat.ltb_spec (len body) (Z.to_nat h + Z.to_nat p)) as [Hl|Hl]; [lia|].
  assert (Hsame : forall b, (len (body ++ b) <? Z.to_nat h + Z.to_nat p)%nat = false
    /\ str_take (Z.to_nat h) (body ++ b) = str_take (Z.to_nat h) body
    /\ str_take (Z.to_nat p) (str_drop (Z.to_nat h) (body ++ b)) = str_take (Z.to_nat p) (str_drop (Z.to_nat h) body)).
  { intros b. rewrite Nat.ltb_ge, str_len_app, str_drop_short, !str_take_short by (rewrite ?len_drop; lia). split; [lia|done]. }
  destruct (header_of (str_take (Z.to_nat h) body)) as [|[]] eqn:Eh;
    try (intros tail; destruct (Hsame tail) as (-> & -> & _); by rewrite Eh).
  split; [unfold FRAME_PREFIX_BYTES; destruct (Z.eqb_spec h 0); lia|].
  intros b. destruct (Hsame b) as (-> & -> & ->). by rewrite Eh.
Qed.
Lemma next_frame_spec l a :
  match next_frame l a with
  | inl e => forall b, next_frame l (a ++ b) = inl e
  | inr (Some (f, n)) => (0 < n <= len a)%nat /\ forall b, next_frame l (a ++ b) = inr (Some (f, n))
  | inr None => (byte_len a < 8 + Z.max 0 (max_header_bytes l) + Z.max 0 (max_payload_bytes l))%Z
  end.
Proof.
  unfold next_frame at 1, byte_len. pose proof (read_prefix_spec a) as Hp. destruct (read_prefix a) as [[[h p] body]|]; [|lia].
  destruct Hp as (Hlen & _ & _ & Happ). assert (Hn : forall b, next_frame l (a ++ b) = frame_body l h p (body ++ b)).
  { intros b. unfold next_frame. by rewrite Happ. }
  pose proof (frame_body_spec l h p body) as Hs. destruct (frame_body l h p body) as [|[[f n]|]].
  - intros b. by rewrite Hn.
  - rewrite Hlen. split; [apply Hs|]. intros b. rewrite Hn. apply Hs.
  - unfold byte_len in Hs. lia.
Qed.
Lemma next_frame_app l a b : next_frame l a <> inr None -> next_frame l (a ++ b) = next_frame l a.
Proof. pose proof (next_frame_spec l a) as Hs. destruct (next_frame l a) as [|[[]|]]; [done| |done]. intros _. apply Hs. Qed.
Lemma next_frame_some l a f n : next_frame l a = inr (Some (f, n)) -> (0 < n <= len a)%nat.
Proof. intros E. pose proof (next_frame_spec l a) as Hs. rewrite E in Hs. apply Hs. Qed.

(** ** A buffer *)
Lemma push_loop_fuel l k k' a : (len a < k)%nat -> (len a < k')%nat -> push_loop k l a = push_loop k' l a.
Proof.
  revert k' a. induction k as [|k IH]; intros [|k'] a Hk Hk'; [lia..|]. cbn.
  destruct (next_frame l a) as [|[[f n]|]] eqn:E; try done. cbn. apply next_frame_some in E.
  rewrite (IH k') by (rewrite len_drop; lia). done.
Qed.
Definition scan (l : PrivateFrameLimits) (a : string) : anyhow + (list PrivateFrame * string) := push_loop (S (len a)) l a.
Lemma scan_eq l a :
  scan l a = match next_frame l a with
             | inl e => inl e
             | inr None => inr ([], a)
             | inr (Some (f, n)) => match scan l (str_drop n a) with inl e => inl e | inr (fs, r) => inr (f :: fs, r) end
             end.
Proof.
  unfold scan at 1. cbn [push_loop]. destruct (next_frame l a) as [|[[f n]|]] eqn:E; try done. cbn [sum_bind]. apply next_frame_some in E.
  unfold scan. rewrite (push_loop_fuel _ (len a) (S (len (str_drop n a)))) by (rewrite ?len_drop; lia).
  by destruct (push_loop (S (len (str_drop n a))) l (str_drop n a)) as [|[]].
Qed.
(** Induction on the frames of a buffer. *)
Lemma frames_ind (P : string -> Prop) l :
  (forall a, (forall f n, next_frame l a = inr (Some (f, n)) -> P (str_drop n a)) -> P a) -> forall a, P a.
Proof.
  intros Hs a. remember (len a) as k eqn:Ek. revert a Ek. induction k as [k IH] using lt_wf_ind. intros a ->.
  apply Hs. intros f n E. eapply IH; [|done]. apply next_frame_some in E. rewrite len_drop. lia.
Qed.
Lemma scan_rest l a : forall fs r, scan l a = inr (fs, r) -> next_frame l r = inr None.
Proof.
  pattern a. apply (frames_ind _ l). clear a. intros a IH fs r. rewrite scan_eq. destruct (next_frame l a) as [|[[f n]|]] eqn:E; [done| |].
  - destruct (scan l (str_drop n a)) as [|[fs' r']] eqn:E'; [done|]. intros [= <- <-]. by eapply IH.
  - by intros [= <- <-].
Qed.
Lemma scan_app l a b :
  scan l (a ++ b) = match scan l a with
                    | inl e => inl e
                    | inr (fs, r) => match scan l (r ++ b) with inl e => inl e | inr (fs', r') => inr ((fs ++ fs')%list, r') end
                    end.
Proof.
  revert b. pattern a. apply (frames_ind _ l). clear a. intros a IH b.
  rewrite (scan_eq l a). destruct (next_frame l a) as [e|[[f n]|]] eqn:E.
  - rewrite scan_eq, next_frame_app by (by rewrite E). by rewrite E.
  - rewrite scan_eq, next_frame_app by (by rewrite E). rewrite E.
    pose proof (next_frame_some _ _ _ _ E). rewrite str_drop_short by lia. rewrite (IH f n eq_refl).
    destruct (scan l (str_drop n a)) as [|[fs r]]; [done|]. destruct (scan l (r ++ b)) as [|[]]; done.
  - by destruct (scan l (a ++ b)) as [|[]].
Qed.
Lemma push_scan l a chunk : push_chunk (mkDecoder a l) chunk =
  match scan l (a ++ chunk) with inl e => (inl e, mkDecoder (a ++ chunk) l) | inr (fs, r) => (inr fs, mkDecoder r l) end.
Proof. done. Qed.

(** ** A stream *)
Lemma read_queue n q reads d :
  read_times (List.length q + n) (mkReader reads d q) = (map (fun f => inr (Some f)) q ++ read_times n (mkReader reads d []))%list.
Proof. induction q as [|f q IH]; [done|]. cbn. by rewrite IH. Qed.
Lemma read_chunk n chunk reads d d' fs : is_empty chunk = false -> push_chunk d chunk = (inr fs, d') ->
  read_times (S n) (mkReader (inr chunk :: reads) d []) = read_times (S n) (mkReader reads d' fs).
Proof. intros Hc Hp. cbn. rewrite Hc, Hp. by destruct fs. Qed.
Fixpoint str_concat (l : list string) : string := match l with [] => "" | s :: l' => s ++ str_concat l' end.
Lemma str_concat_app a b : str_concat (a ++ b) = str_concat a ++ str_concat b.
Proof. induction a as [|s a IH]; cbn; [done|]. by rewrite IH, str_app_assoc. Qed.
Lemma read_stream l chunks : forall buf q fs r,
  Forall (fun c => is_empty c = false) chunks -> next_frame l buf = inr None -> scan l (buf ++ str_concat chunks) = inr (fs, r) ->
  read_times (List.length q + (List.length fs + 1)) (mkReader (map inr chunks) (mkDecoder buf l) q)
  = (map (fun f => inr (Some f)) (q ++ fs) ++ [stream_ended (mkDecoder r l)])%list.
Proof.
  induction chunks as [|c cs IH]; intros buf q fs r Hc Hn; cbn [map str_concat].
  - rewrite str_app_nil_r, scan_eq, Hn. intros [= <- <-]. rewrite read_queue, app_nil_r. done.
  - apply Forall_cons in Hc as [Hc Hcs]. rewrite <- str_app_assoc, scan_app.
    destruct (scan l (buf ++ c)) as [|[f1 r1]] eqn:E1; [done|]. destruct (scan l (r1 ++ str_concat cs)) as [|[f2 r2]] eqn:E2; [done|].
    intros [= <- <-]. rewrite read_queue, map_app, <- app_assoc. f_equal. rewrite Nat.add_1_r.
    rewrite (read_chunk _ c _ _ (mkDecoder r1 l) f1); [|done|by rewrite push_scan, E1].
    rewrite <- (IH r1 f1 f2 r2 Hcs (scan_rest _ _ _ _ E1) E2). f_equal. rewrite length_app. lia.
Qed.

(** ** The buffer is bounded *)
(** The bytes the decoder keeps after a chunk it accepts are fewer than the
    largest frame has; after one it refuses it refuses every further one, with
    the same error. *)
Theorem decoder_bounded d chunk more :
  match push_chunk d chunk with
  | (inr _, d') => (Z.of_nat (buffered_bytes d') < 8 + Z.max 0 (max_header_bytes (de_limits d)) + Z.max 0 (max_payload_bytes (de_limits d)))%Z
  | (inl e, d') => fst (push_chunk d' more) = inl e
  end.
Proof.
  destruct d as [a l]. rewrite push_scan. destruct (scan l (a ++ chunk)) as [e|[fs r]] eqn:E.
  - rewrite push_scan, scan_app, E. done.
  - apply scan_rest in E. pose proof (next_frame_spec l r) as Hs. by rewrite E in Hs.
Qed.

(** ** The writers *)
Lemma write_all_app a b w :
  write_all (a ++ b) w = match write_all a w with (inl e, w1) => (inl e, w1) | (inr _, w1) => write_all b w1 end.
Proof.
  destruct w as [out [n|]]; unfold write_all; cbn; [|by rewrite str_app_assoc].
  rewrite str_len_app. destruct (Nat.leb_spec (len a) n) as [Ha|Ha].
  - cbn. destruct (Nat.leb_spec (len b) (n - len a)), (Nat.leb_spec (len a + len b) n); try lia.
    + rewrite str_app_assoc. do 3 f_equal. lia.
    + rewrite str_take_long by lia. by rewrite str_app_assoc.
  - destruct (Nat.leb_spec (len a + len b) n); [lia|]. by rewrite str_take_short by lia.
Qed.
(** The writer that does not copy the payload puts the same bytes on the wire
    and answers the same, also when the peer goes away in the middle. *)
Theorem segments_write_the_same header payload l w :
  write_frame_segments header payload l w = write_frame header payload l w.
Proof.
  unfold write_frame_segments, write_frame, encode_private_frame. destruct (frame_header header payload l) as [|hb]; [done|].
  cbn [sum_bind]. by rewrite write_all_app.
Qed.

(** ** Round trip *)
Context `{LedgerEnv} `{!JsonLines}.
Definition frame_ok (f : PrivateFrame) : Prop := printable (pf_header f) /\ exists ms, pf_header f = VObject ms.
Definition encoded (l : PrivateFrameLimits) (f : PrivateFrame) (wire : string) : Prop :=
  encode_private_frame (pf_header f) (pf_payload f) l = inr wire.
Definition limits_ok (l : PrivateFrameLimits) : Prop := (max_header_bytes l < 2 ^ 32 /\ max_payload_bytes l < 2 ^ 32)%Z.

Lemma read_prefix_written hb p tail : (byte_len hb < 2 ^ 32)%Z -> (byte_len p < 2 ^ 32)%Z ->
  read_prefix (frame_prefix hb p ++ tail) = Some (byte_len hb, byte_len p, hb ++ tail).
Proof.
  intros Hh Hp. unfold frame_prefix, read_prefix, to_be_bytes, as_u32. cbn [append].
  rewrite !Z.mod_small by (unfold byte_len in *; lia). rewrite !be_round_trip by (unfold byte_len in *; lia). done.
Qed.
Lemma encoded_next l f wire tail : limits_ok l -> frame_ok f -> encoded l f wire ->
  next_frame l (wire ++ tail) = inr (Some (f, len wire)).
Proof.
  destruct f as [header payload]. intros [Lh Lp] [Hp [ms Hm]]. unfold encoded, encode_private_frame, frame_header. cbn [pf_header pf_payload] in *.
  destruct (is_empty (value_display header)) eqn:Ee; [done|]. 
  destruct (assert_frame_length "header length" _ _) as [|[]] eqn:E1; cbn [sum_bind]; [done|].
  destruct (assert_frame_length "payload length" _ _) as [|[]] eqn:E2; cbn [sum_bind]; [done|]. intros Hw.
  assert (wire = frame_prefix (value_display header) payload ++ payload) as -> by congruence. clear Hw.
  pose proof E1 as B1. pose proof E2 as B2. apply assert_length_inr in B1, B2.
  unfold next_frame. rewrite str_app_assoc, read_prefix_written by lia. unfold frame_body. rewrite E1, E2. cbn [sum_bind].
  assert (Hn : (byte_len (value_display header) =? 0)%Z = false).
  { apply Z.eqb_neq. unfold byte_len, len. destruct (value_display header); [done|cbn; lia]. }
  rewrite Hn. cbv zeta. unfold byte_len. rewrite !Nat2Z.id, !str_len_app.
  destruct (Nat.ltb_spec (len (value_display header) + (len payload + len tail)) (len (value_display header) + len payload)); [lia|].
  rewrite str_take_app, str_drop_app, str_take_app. unfold header_of. rewrite line_utf8, line_round_trip by done. by rewrite Hm.
Qed.
Lemma scan_encoded l fs ws tail : limits_ok l -> Forall frame_ok fs -> Forall2 (encoded l) fs ws ->
  scan l (str_concat ws ++ tail) = match scan l tail with inl e => inl e | inr (fs', r) => inr ((fs ++ fs')%list, r) end.
Proof.
  intros Hl Hf Hw. induction Hw as [|f w fs ws Hfw Hw IH]; cbn [str_concat append].
  - by destruct (scan l tail) as [|[]].
  - apply Forall_cons in Hf as [Hf Hfs]. rewrite str_app_assoc, scan_eq, (encoded_next l f w) by done.
    rewrite str_drop_app, IH by done. by destruct (scan l tail) as [|[]].
Qed.
Lemma scan_empty l : scan l "" = inr ([], "").
Proof. done. Qed.

(** C22: However the bytes of the frames that were written are cut into reads, the
    reader returns these frames, in order, and then the end of the stream. *)
Theorem frames_round_trip l fs ws chunks :
  limits_ok l -> Forall frame_ok fs -> Forall2 (encoded l) fs ws ->
  Forall (fun c => is_empty c = false) chunks -> str_concat chunks = str_concat ws ->
  read_times (List.length fs + 1) (new_reader (map inr chunks) l) = (map (fun f => inr (Some f)) fs ++ [inr None])%list.
Proof.
  intros Hl Hf Hw Hc E. apply (read_stream l chunks "" [] fs ""); [done..|]. cbn [append].
  rewrite E, <- (str_app_nil_r (str_concat ws)), (scan_encoded l fs ws "") by done. rewrite scan_empty. by rewrite app_nil_r.
Qed.

(** A stream that ends inside a frame is told from one that ends behind it:
    the whole frames are returned, and then an error. *)
Theorem cut_frame_detected l fs ws f part more chunks :
  limits_ok l -> Forall frame_ok fs -> Forall2 (encoded l) fs ws ->
  frame_ok f -> encoded l f (part ++ more) -> part <> "" -> more <> "" ->
  Forall (fun c => is_empty c = false) chunks -> str_concat chunks = str_concat ws ++ part ->
  exists e, read_times (List.length fs + 1) (new_reader (map inr chunks) l) = (map (fun f => inr (Some f)) fs ++ [inl e])%list.
Proof.
  intros Hl Hf Hw Hff Hfw Hp Hm Hc E. 
  assert (Hn : next_frame l part = inr None).
  { assert (Hs : next_frame l part = inr None \/ next_frame l part <> inr None) by (destruct (next_frame l part) as [|[]]; auto).
    destruct Hs as [|Hs]; [done|]. pose proof (encoded_next l f _ "" Hl Hff Hfw) as Hy.
    rewrite str_app_nil_r, (next_frame_app l part more Hs) in Hy. apply next_frame_some in Hy. rewrite str_len_app in Hy. destruct more; [done|]. unfold len in Hy. cbn in Hy. lia. }
  assert (Hs : stream_ended (mkDecoder part l) = inl (anyhow_context "private frame channel ended mid-frame"
    (anyhow_msg ("Private frame channel ended with " ++ show_Z (byte_len part) ++ " incomplete bytes")))) by (unfold stream_ended, finish; by destruct part).
  eexists. rewrite <- Hs. apply (read_stream l chunks "" [] fs part); [done..|]. cbn [append].
  rewrite E, (scan_encoded l fs ws part) by done. rewrite scan_eq, Hn. by rewrite app_nil_r.
Qed.
End Frames.

(** ** Private frames at concrete streams

    Two frames cut into three reads, a stream that ends inside its second
    frame, and a good frame lost with the bad one behind it. *)
Definition limits0 : PrivateFrameLimits := DEFAULT_PRIVATE_FRAME_LIMITS.
Definition frame0 (kind payload : string) : PrivateFrame := mkFrame (VObject [("kind", VString kind)]) payload.
Definition wire_of (f : PrivateFrame) : string :=
  match encode_private_frame (pf_header f) (pf_payload f) limits0 with inr w => w | inl _ => "" end.
Definition first_frame : PrivateFrame := frame0 "command" "{}".
Definition second_frame : PrivateFrame := frame0 "outbound" "xyz".
Definition wire2 : string := wire_of first_frame ++ wire_of second_frame.
Definition cut_in_three : list string := [str_take 5 wire2; str_take 40 (str_drop 5 wire2); str_drop 45 wire2].
Lemma frame0_ok kind payload : frame_ok (frame0 kind payload).
Proof. split; [by repeat split|]. by eexists. Qed.

Lemma frames_round_trip_witness :
  read_times 3 (new_reader (map inr cut_in_three) limits0) = [inr (Some first_frame); inr (Some second_frame); inr None].
Proof.
  apply (frames_round_trip limits0 [first_frame; second_frame] [wire_of first_frame; wire_of second_frame] cut_in_three).
  - split; vm_compute; reflexivity.
  - repeat constructor; apply frame0_ok.
  - repeat constructor.
  - repeat constructor.
  - vm_compute. reflexivity.
Defined.
Lemma cut_frame_detected_witness :
  exists e, read_times 2 (new_reader (map inr [wire_of first_frame; str_take 20 (wire_of second_frame)]) limits0)
            = [inr (Some first_frame); inl e].
Proof.
  apply (cut_frame_detected limits0 [first_frame] [wire_of first_frame] second_frame
           (str_take 20 (wire_of second_frame)) (str_drop 20 (wire_of second_frame))).
  - split; vm_compute; reflexivity.
  - repeat constructor; apply frame0_ok.
  - repeat constructor.
  - apply frame0_ok.
  - vm_compute. reflexivity.
  - vm_compute. discriminate.
  - vm_compute. discriminate.
  - repeat constructor.
  - vm_compute. reflexivity.
Defined.

(** A good frame that arrives in one read with a bad one is lost with it; the
    same bytes in two reads deliver it. *)
Theorem good_frame_lost_with_bad_one :
  let bad := to_be_bytes 0 ++ to_be_bytes 0 in
  map (fun o => match o with inr (Some f) => Some (pf_payload f) | _ => None end)
    (read_times 2 (new_reader [inr (wire_of first_frame ++ bad)] limits0)) = [None; None]
  /\ map (fun o => match o with inr (Some f) => Some (pf_payload f) | _ => None end)
       (read_times 2 (new_reader [inr (wire_of first_frame); inr bad] limits0)) = [Some "{}"; None].
Proof. split; vm_compute; reflexivity. Qed.
