(* ===== verification/Admission.v ===== *)
(** * Prompt admissions at the supervisor

    The supervisor's half of [prompt_admission.rs]: the registry of one client
    connection, the route of an admitted prompt and the cancellation ladder,
    with the gates of [dispatch_client] ([supervisor/clients.rs]) they stand
    behind.  The commands of a connection run as tasks; a task is cut where it
    takes the registry's lock and where it awaits, so that prompts,
    cancellations, workers and the network interleave.  What a worker does
    with a prompt is the interface [PromptHost]; [PromptHostOk] states what it
    promises. *)
From S2P Require Import Prelude RustStr Json Protocol LedgerReplay Journal QueueWorker.
#[local] Open Scope string_scope.

(** ** What a worker offers *)
Class PromptHost := {
  host : Type;
  host_event : Type;                                     (* everything else that happens to it *)
  host_start : host;
  host_step : host_event -> host -> host;
  host_event_id : host_event -> option string;           (* a prompt of somebody else brings its own id *)
  host_prompt : Value -> bool -> host -> host;           (* [prompt], [prompt_and_wait] *)
  host_cancel : Value -> host -> option (host * DaemonResponse);  (* [cancel_prompt_admission], unless it does not answer *)
  host_fresh : string -> host -> bool;                   (* an id it has not heard of *)
  host_carries : string -> host -> bool                  (* a lane or the turn holds the prompt *)
}.
Definition status_of (r : DaemonResponse) : string := default "unknown" (dr_data r ≫= get_str "status").
(** Its promise: an id it has not heard of is not carried; one it reported
    cancelled is not carried until the id is used again. *)
Class PromptHostOk `{PromptHost} := {
  host_good : host -> Prop;
  host_rid : string -> host -> Prop;
  start_good : host_good host_start;
  start_fresh id : host_fresh id host_start = true;
  fresh_rid id h : host_fresh id h = true -> host_rid id h;
  rid_absent id h : host_rid id h -> host_carries id h = false;
  step_good e h : host_good h -> (forall id, host_event_id e = Some id -> host_fresh id h = true) -> host_good (host_step e h);
  step_fresh e h id : host_event_id e <> Some id -> host_fresh id h = true -> host_fresh id (host_step e h) = true;
  step_rid e h id : host_event_id e <> Some id -> host_rid id h -> host_rid id (host_step e h);
  prompt_good payload wait h id : get_str "admissionId" payload = Some id -> host_fresh id h = true -> host_good h -> host_good (host_prompt payload wait h);
  prompt_fresh payload wait h id : get_str "admissionId" payload <> Some id -> host_fresh id h = true -> host_fresh id (host_prompt payload wait h) = true;
  prompt_rid payload wait h id : get_str "admissionId" payload <> Some id -> host_rid id h -> host_rid id (host_prompt payload wait h);
  cancel_good payload h h' r : host_cancel payload h = Some (h', r) -> host_good h -> host_good h';
  cancel_fresh payload h h' r id : host_cancel payload h = Some (h', r) -> host_fresh id h = true -> host_fresh id h' = true;
  cancel_rid payload h h' r id : host_cancel payload h = Some (h', r) -> host_rid id h -> host_rid id h';
  cancel_says payload h h' r id : host_cancel payload h = Some (h', r) -> get_str "admissionId" payload = Some id -> host_good h ->
    status_of r = "cancelled" -> host_fresh id h = false /\ host_rid id h'
}.

(** ** The registry *)
Definition prompt_admission_key (active_session_id admission_id : string) : string := active_session_id ++ String nul admission_id.
Record PromptAdmission := mkAdmission {
  ad_worker_admission_id : string;
  ad_status : AdmissionStatus;
  ad_worker_id : option string;
  ad_worker_active_session_id : option string
}.
Abbreviation AdmissionTable := (gmap string PromptAdmission).
Definition set_status (st : AdmissionStatus) (a : PromptAdmission) : PromptAdmission :=
  mkAdmission (ad_worker_admission_id a) st (ad_worker_id a) (ad_worker_active_session_id a).
Definition note_worker (w : string) (a : PromptAdmission) : PromptAdmission :=
  mkAdmission (ad_worker_admission_id a) (ad_status a) (Some w) (Some w).

Definition register_error (m : AdmissionTable) (active_session_id admission_id : string) : option string :=
  if is_empty admission_id then Some "admissionId must not be empty"
  else if contains_char nul admission_id then Some "admissionId must not contain NUL"
  else if is_empty active_session_id then Some "Prompt admission requires string activeSessionId and admissionId"
  else if contains_char nul active_session_id then Some "activeSessionId must not contain NUL"
  else if bool_decide (is_Some (m !! prompt_admission_key active_session_id admission_id))
  then Some ("Prompt admission id is already in use: " ++ admission_id)
  else None.
Definition register_admission (wid active_session_id admission_id : string) (m : AdmissionTable) : string + AdmissionTable :=
  match register_error m active_session_id admission_id with
  | Some error => inl error
  | None => inr (<[prompt_admission_key active_session_id admission_id := mkAdmission wid Waiting None None]> m)
  end.
Definition rekey (from to : string) (m : AdmissionTable) : bool * AdmissionTable :=
  if String.eqb from to then (true, m)
  else if bool_decide (is_Some (m !! to)) then (false, m)
  else match m !! from with
       | Some a => (true, <[to := a]> (delete from m))
       | None => (false, m)
       end.
Definition ends_with (suffix s : string) : bool := match strip_suffix suffix s with Some _ => true | None => false end.
Definition sole_key_for_admission_id (admission_id : string) (m : AdmissionTable) : option string :=
  if is_empty admission_id then None
  else match List.filter (ends_with (String nul admission_id)) (map fst (map_to_list m)) with
       | [key] => Some key
       | _ => None
       end.
Definition cancel_waiting (a : PromptAdmission) : PromptAdmission :=
  match ad_status a with Waiting => set_status CancelledAdmission a | _ => a end.
Definition cancel_all_waiting (m : AdmissionTable) : AdmissionTable := cancel_waiting <$> m.

(** ** The commands of a connection *)
Record PromptCmd := mkPromptCmd {
  pm_command_id : string; pm_type_name : string; pm_active_session_id : string; pm_admission_id : string; pm_payload : list (string * Value); pm_wait : bool }.
Record CancelCmd := mkCancelCmd {
  cm_command_id : string; cm_type_name : string; cm_active_session_id : string; cm_admission_id : string; cm_cancel_owned : bool }.
(** Where [route_prompt_with_admission] is; [w] is the resident it resolved,
    [rebound] the session id it moved to. *)
Inductive prompt_pc :=
| AtGates | AtCheck | AtFetch
| AtResolve (id : string)
| AtRecheck (id w : string) (rebound : option string)
| AtNote (id w : string) (rebound : option string)
| AtSend (id w : string) (rebound : option string)
| AtReply
| AtOwned (r : DaemonResponse)
| AtRemove (r : DaemonResponse).
(** Where [handle_cancel_prompt_admission] is. *)
Inductive cancel_pc :=
| CLookup | CBinding | CSole
| CMark (key : string)
| CStatus (key : string)
| CFields (key seen : string)            (* [seen]: the admission whose status was read *)
| CForward (key id w active : string)
| CSent (key id w active : string)
| CReply (key id : string) (r : DaemonResponse).
Inductive Task :=
| PromptTask (c : PromptCmd) (key own : string) (p : prompt_pc)   (* [own]: the id it was registered with *)
| CancelTask (c : CancelCmd) (p : cancel_pc)
| Ended (r : option DaemonResponse).     (* [None]: handed to the generic route *)

(** On what ground a client was told that its prompt is cancelled. *)
Inductive ground := OnRecord | FromWorker | Guessed.

Section Desk.
Context `{PromptHost} (uuid : nat -> string).

Record Desk := mkDesk {
  dk_table : AdmissionTable;
  dk_tasks : gmap nat Task;
  dk_next_task : nat;
  dk_next_uuid : nat;
  dk_residents : gset string;
  dk_wire : list (string * string * (Value * bool));  (* prompts on their way: worker, id, command *)
  dk_hosts : gmap string host;
  dk_noted : gset string;                             (* history: ids whose worker was noted *)
  dk_sent : gset string;                              (* history: ids handed to the route *)
  dk_overtaken : gset string;                         (* history: ids whose cancellation came too late, or was meant for another prompt *)
  dk_told : list (string * ground)                    (* history: ids reported cancelled *)
}.
Definition set_table f (s : Desk) : Desk := mkDesk (f (dk_table s)) (dk_tasks s) (dk_next_task s) (dk_next_uuid s) (dk_residents s) (dk_wire s) (dk_hosts s) (dk_noted s) (dk_sent s) (dk_overtaken s) (dk_told s).
Definition set_tasks f (s : Desk) : Desk := mkDesk (dk_table s) (f (dk_tasks s)) (dk_next_task s) (dk_next_uuid s) (dk_residents s) (dk_wire s) (dk_hosts s) (dk_noted s) (dk_sent s) (dk_overtaken s) (dk_told s).
Definition set_wire f (s : Desk) : Desk := mkDesk (dk_table s) (dk_tasks s) (dk_next_task s) (dk_next_uuid s) (dk_residents s) (f (dk_wire s)) (dk_hosts s) (dk_noted s) (dk_sent s) (dk_overtaken s) (dk_told s).
Definition set_hosts f (s : Desk) : Desk := mkDesk (dk_table s) (dk_tasks s) (dk_next_task s) (dk_next_uuid s) (dk_residents s) (dk_wire s) (f (dk_hosts s)) (dk_noted s) (dk_sent s) (dk_overtaken s) (dk_told s).
Definition overtake (ids : gset string) (s : Desk) : Desk := mkDesk (dk_table s) (dk_tasks s) (dk_next_task s) (dk_next_uuid s) (dk_residents s) (dk_wire s) (dk_hosts s) (dk_noted s) (dk_sent s) (dk_overtaken s ∪ ids) (dk_told s).
Definition tell (id : string) (g : ground) (s : Desk) : Desk := mkDesk (dk_table s) (dk_tasks s) (dk_next_task s) (dk_next_uuid s) (dk_residents s) (dk_wire s) (dk_hosts s) (dk_noted s) (dk_sent s) (dk_overtaken s) ((id, g) :: dk_told s).

Definition worker_id_of (n : nat) : string := "supervisor-admission:" ++ uuid n.
Definition host_of (s : Desk) (w : string) : host := default host_start (dk_hosts s !! w).
Definition go (t : nat) (k : Task) : Desk -> Desk := set_tasks (<[t := k]>).
Definition finish_task (t : nat) (r : DaemonResponse) : Desk -> Desk := go t (Ended (Some r)).
Definition spawn (k : Task) (s : Desk) : Desk :=
  mkDesk (dk_table s) (<[dk_next_task s := k]> (dk_tasks s)) (S (dk_next_task s)) (dk_next_uuid s) (dk_residents s) (dk_wire s) (dk_hosts s) (dk_noted s) (dk_sent s) (dk_overtaken s) (dk_told s).

Definition admission_failure (command_id type_name error : string) : DaemonResponse := response_failure (Some command_id) type_name error None.
Definition admission_status (command_id type_name status : string) : DaemonResponse :=
  response_success (Some command_id) type_name (Some (VObject [("status", VString status)])).
Definition with_id (command_id : string) (r : DaemonResponse) : DaemonResponse :=
  mkResponse (Some command_id) (dr_command r) (dr_success r) (dr_data r) (dr_error r) (dr_error_info r).
Definition CANCELLED : string := "Prompt admission was cancelled.".

(** What an await returns. *)
Inductive input :=
| Tick
| Refused (error : string) (info : option DaemonErrorInfo)  (* shutdown, or an update being prepared *)
| Resolved (w : string) | Rebound (current w : string) | Unresolved (message : string)
| BadPayload (error : string)
| Answered (r : DaemonResponse) | RouteFails (error : string)
| Binding (target : option string).

Definition cancelled_at (key : string) (s : Desk) : bool :=
  match dk_table s !! key with Some a => bool_decide (ad_status a = CancelledAdmission) | None => false end.
(** The prompt as the worker gets it. *)
Definition routed_payload (c : PromptCmd) (id : string) (rebound : option string) : Value :=
  VObject (foldl insert_member (insert_member (pm_payload c) ("admissionId", VString id))
             (match rebound with Some current => [("activeSessionId", VString current)] | None => [] end)).
Definition send_prompt (c : PromptCmd) (id w : string) (rebound : option string) (s : Desk) : Desk :=
  mkDesk (dk_table s) (dk_tasks s) (dk_next_task s) (dk_next_uuid s) (dk_residents s)
    (dk_wire s ++ [(w, id, (routed_payload c id rebound, pm_wait c))]) (dk_hosts s) (dk_noted s) (dk_sent s ∪ {[id]}) (dk_overtaken s) (dk_told s).
(** Noting the worker does not look at the status again. *)
Definition note (key w : string) (s : Desk) : Desk :=
  match dk_table s !! key with
  | Some a =>
      mkDesk (<[key := note_worker w a]> (dk_table s)) (dk_tasks s) (dk_next_task s) (dk_next_uuid s) (dk_residents s) (dk_wire s) (dk_hosts s)
        (dk_noted s ∪ {[ad_worker_admission_id a]}) (dk_sent s) (dk_overtaken s) (dk_told s)
  | None => s
  end.

(** ** [route_prompt_with_admission] *)
Definition prompt_step (t : nat) (c : PromptCmd) (key own : string) (p : prompt_pc) (x : input) (s : Desk) : option Desk :=
  let to p' := Some (go t (PromptTask c key own p') s) in
  let fail e := Some (finish_task t (admission_failure (pm_command_id c) (pm_type_name c) e) s) in
  match p, x with
  | AtGates, Refused error info => Some (finish_task t (response_failure (Some (pm_command_id c)) (pm_type_name c) error info) s)
  | AtGates, Tick => to AtCheck
  | AtCheck, Tick => if cancelled_at key s then fail CANCELLED else to AtFetch
  | AtFetch, Tick =>
      match dk_table s !! key with
      | None => Some (go t (Ended None) s)
      | Some a => to (AtResolve (ad_worker_admission_id a))
      end
  | AtResolve id, Resolved w => to (AtRecheck id w None)
  | AtResolve id, Rebound current w =>
      let rekeyed := prompt_admission_key current (pm_admission_id c) in
      let '(moved, m) := rekey key rekeyed (dk_table s) in
      Some (go t (PromptTask c (if moved then rekeyed else key) own (AtRecheck id w (Some current))) (set_table (fun _ => m) s))
  | AtResolve _, Unresolved message => fail message
  | AtRecheck id w rebound, Tick => if cancelled_at key s then fail CANCELLED else to (AtNote id w rebound)
  | AtNote id w rebound, Tick => Some (go t (PromptTask c key own (AtSend id w rebound)) (note key w s))
  | AtSend id w rebound, Tick => Some (go t (PromptTask c key own AtReply) (send_prompt c id w rebound s))
  | AtSend _ _ _, BadPayload error => fail error
  | AtReply, Answered r => to (AtOwned r)
  | AtReply, RouteFails error => Some (finish_task t (admission_failure (pm_command_id c) (pm_type_name c) error) (set_table (delete key) s))
  | AtOwned r, Tick =>
      Some (go t (PromptTask c key own (AtRemove r)) (if dr_success r then set_table (alter (set_status Owned) key) s else s))
  | AtRemove r, Tick => Some (finish_task t (with_id (pm_command_id c) r) (set_table (delete key) s))
  | _, _ => None
  end.

(** The prompts that have passed the last check, and whose worker is not noted
    yet: a cancellation comes too late for them. *)
Definition noting (s : Desk) : gset string :=
  list_to_set (omap (fun kv => match snd kv with PromptTask _ _ own (AtNote _ _ _) => Some own | _ => None end) (map_to_list (dk_tasks s))).

(** ** [handle_cancel_prompt_admission] *)
Definition cancel_payload (c : CancelCmd) (id active : string) : Value :=
  VObject ([("activeSessionId", VString active); ("admissionId", VString id)]
           ++ if cm_cancel_owned c then [("cancelOwned", VBool true)] else [])%list.
Definition mark (a : PromptAdmission) : PromptAdmission :=
  match ad_status a, ad_worker_id a with Waiting, None => set_status CancelledAdmission a | _, _ => a end.
(** The worker's status on the record, whosever it is by now. *)
Definition mapped (status : string) (a : PromptAdmission) : PromptAdmission :=
  if String.eqb status "owned" then set_status Owned a
  else if String.eqb status "cancelled" then set_status CancelledAdmission a
  else match ad_status a with CancelledAdmission => a | _ => set_status Waiting a end.
Definition cancel_step (t : nat) (c : CancelCmd) (p : cancel_pc) (x : input) (s : Desk) : option Desk :=
  let to p' := Some (go t (CancelTask c p') s) in
  let says status := finish_task t (admission_status (cm_command_id c) (cm_type_name c) status) in
  let cancelled id g := Some (says "cancelled" (tell id g s)) in
  let key0 := prompt_admission_key (cm_active_session_id c) (cm_admission_id c) in
  match p, x with
  | CLookup, Tick => if bool_decide (is_Some (dk_table s !! key0)) then to (CMark key0) else to CBinding
  | CBinding, Binding target =>
      match target with
      | Some w =>
          let candidate := prompt_admission_key w (cm_admission_id c) in
          if bool_decide (is_Some (dk_table s !! candidate)) then to (CMark candidate) else to CSole
      | None => to CSole
      end
  | CSole, Tick => to (CMark (default key0 (sole_key_for_admission_id (cm_admission_id c) (dk_table s))))
  | CMark key, Tick =>
      let late := match dk_table s !! key with Some a => {[ad_worker_admission_id a]} ∩ noting s | None => ∅ end in
      Some (go t (CancelTask c (CStatus key)) (overtake late (set_table (alter mark key) s)))
  | CStatus key, Tick =>
      match dk_table s !! key with
      | None => Some (says "unknown" s)
      | Some a =>
          match ad_status a with
          | CancelledAdmission => cancelled (ad_worker_admission_id a) OnRecord
          | Owned => Some (says "owned" s)
          | Waiting => to (CFields key (ad_worker_admission_id a))
          end
      end
  | CFields key seen, Tick =>
      match dk_table s !! key with
      | None => cancelled seen Guessed
      | Some a =>
          match ad_worker_active_session_id a, ad_worker_id a with
          | Some active, Some w => to (CForward key (ad_worker_admission_id a) w active)
          | _, _ => cancelled (ad_worker_admission_id a) Guessed
          end
      end
  | CForward key id w active, Tick => if bool_decide (w ∈ dk_residents s) then to (CSent key id w active) else cancelled id Guessed
  | CSent key id w active, Tick =>
      '(h, r) ← host_cancel (cancel_payload c id active) (host_of s w);
      Some (go t (CancelTask c (CReply key id r)) (set_hosts (<[w := h]>) s))
  | CSent _ _ _ _, RouteFails error | CReply _ _ _, RouteFails error =>
      Some (finish_task t (admission_failure (cm_command_id c) (cm_type_name c) error) s)
  | CReply key id r, Tick =>
      let stale := match dk_table s !! key with
                   | Some a => if String.eqb (ad_worker_admission_id a) id then ∅ else {[ad_worker_admission_id a]}
                   | None => ∅ end in
      let s1 := overtake stale (set_table (alter (mapped (status_of r)) key) s) in
      Some (finish_task t (with_id (cm_command_id c) r) (if String.eqb (status_of r) "cancelled" then tell id FromWorker s1 else s1))
  | _, _ => None
  end.

(** ** Everything that happens *)
Inductive event :=
| PromptArrives (c : PromptCmd)
| CancelArrives (c : CancelCmd)
| Go (t : nat) (x : input)
| Deliver (i : nat) | Lose (i : nat)          (* a prompt on its way reaches its worker, or does not *)
| HostStep (w : string) (e : host_event)
| Resident (w : string) (b : bool)
| Disconnect.

Definition prompt_arrives (c : PromptCmd) (s : Desk) : Desk :=
  let id := worker_id_of (dk_next_uuid s) in
  match register_admission id (pm_active_session_id c) (pm_admission_id c) (dk_table s) with
  | inl error => spawn (Ended (Some (response_failure (Some (pm_command_id c)) "parse" error None))) s
  | inr m =>
      let s1 := spawn (PromptTask c (prompt_admission_key (pm_active_session_id c) (pm_admission_id c)) id AtGates) s in
      mkDesk m (dk_tasks s1) (dk_next_task s1) (S (dk_next_uuid s)) (dk_residents s) (dk_wire s) (dk_hosts s) (dk_noted s) (dk_sent s) (dk_overtaken s) (dk_told s)
  end.
(** The disconnect cancels what waits, also what is on its way already. *)
Definition under_way (m : AdmissionTable) : gset string :=
  list_to_set (omap (fun kv => match ad_status (snd kv), ad_worker_id (snd kv) with Waiting, Some _ => Some (ad_worker_admission_id (snd kv)) | _, _ => None end)
                 (map_to_list m)).
Definition exec (e : event) (s : Desk) : option Desk :=
  match e with
  | PromptArrives c => Some (prompt_arrives c s)
  | CancelArrives c => Some (spawn (CancelTask c CLookup) s)
  | Go t x =>
      match dk_tasks s !! t with
      | Some (PromptTask c key own p) => prompt_step t c key own p x s
      | Some (CancelTask c p) => cancel_step t c p x s
      | _ => None
      end
  | Deliver i =>
      '(w, _, (payload, wait)) ← dk_wire s !! i;
      Some (set_hosts (<[w := host_prompt payload wait (host_of s w)]>) (set_wire (delete i) s))
  | Lose i => _ ← dk_wire s !! i; Some (set_wire (delete i) s)
  | HostStep w e =>
      if match host_event_id e with
         | Some id => negb (starts_with "supervisor-admission:" id) && host_fresh id (host_of s w)
         | None => true
         end
      then Some (set_hosts (<[w := host_step e (host_of s w)]>) s) else None
  | Resident w b =>
      Some (mkDesk (dk_table s) (dk_tasks s) (dk_next_task s) (dk_next_uuid s) (if b then dk_residents s ∪ {[w]} else dk_residents s ∖ {[w]})
              (dk_wire s) (dk_hosts s) (dk_noted s) (dk_sent s) (dk_overtaken s) (dk_told s))
  | Disconnect => Some (overtake (under_way (dk_table s) ∪ noting s) (set_table cancel_all_waiting s))
  end.
Definition new_connection : Desk := mkDesk ∅ ∅ 0 0 ∅ [] ∅ ∅ ∅ ∅ [].
Fixpoint run_desk (es : list event) (s : Desk) : option Desk :=
  match es with [] => Some s | e :: es' => exec e s ≫= run_desk es' end.
Inductive served : Desk -> Prop :=
| served_new : served new_connection
| served_step s e s' : served s -> exec e s = Some s' -> served s'.
End Desk.
