(* ===== verification/AdmissionProofs.v ===== *)
(** * Prompt admissions: the invariant

    Every live prompt has its own record; a worker hears of an id at most
    once; and an id whose cancellation is on record, or was reported, has
    either not been sent (and will not be) or is gone from every worker, unless
    the cancellation was overtaken. *)
From S2P Require Import Prelude RustStr Json Protocol LedgerReplay Journal QueueWorker Admission.
#[local] Open Scope string_scope.

Lemma insert_back {K A} `{Countable K} (m : gmap K A) i x j y :
  <[i := x]> m !! j = Some y -> j = i /\ y = x \/ j <> i /\ m !! j = Some y.
Proof. intros [[<- <-]|[? ?]]%lookup_insert_Some; auto. Qed.
Lemma delete_back {K A} `{Countable K} (m : gmap K A) i j y : delete i m !! j = Some y -> j <> i /\ m !! j = Some y.
Proof. intros [? ?]%lookup_delete_Some; auto. Qed.
Definition named (k : string) (kv : string * Value) : bool := String.eqb (fst kv) k.
Lemma find_last_replaced k k' v ms :
  find_last (named k) (map (fun m => if named k' m then (k', v) else m) ms)
  = if String.eqb k' k then (if existsb (named k') ms then Some (k', v) else None) else find_last (named k) ms.
Proof.
  induction ms as [|[k0 v0] ms IH] using rev_ind; [by destruct (String.eqb k' k)|].
  rewrite map_app, existsb_app. cbn [map existsb]. rewrite !find_last_snoc, IH. clear IH. unfold named. cbn [fst].
  rewrite orb_false_r. destruct (String.eqb_spec k0 k') as [Hk0|Hk0]; cbn [fst]; rewrite ?orb_true_r, ?orb_false_r;
    destruct (String.eqb_spec k' k), (String.eqb_spec k0 k); congruence.
Qed.
Lemma member_insert k k' v ms : member k (insert_member ms (k', v)) = if String.eqb k' k then Some v else member k ms.
Proof.
  unfold insert_member, member. pose proof (find_last_replaced k k' v ms) as E. unfold named in E. cbn [fst].
  destruct (existsb _ ms); [rewrite E|rewrite find_last_snoc; cbn [fst]]; by destruct (String.eqb k' k).
Qed.
Lemma payload_id c id rebound : get_str "admissionId" (routed_payload c id rebound) = Some id.
Proof. unfold get_str, get, routed_payload. destruct rebound; cbn [foldl]; by rewrite !member_insert. Qed.
Class UuidOk (uuid : nat -> string) := { uuid_inj i j : uuid i = uuid j -> i = j }.

Section Desk.
Context `{PromptHost} `{!PromptHostOk} (uuid : nat -> string) `{!UuidOk uuid}.
Abbreviation W := (worker_id_of uuid).
Abbreviation exec := (exec uuid).
Abbreviation served := (served uuid).

Lemma W_inj i j : W i = W j -> i = j.
Proof. unfold worker_id_of. intros E%str_app_inj_l. by apply uuid_inj. Qed.

Definition wire_ids (s : Desk) : list string := map (fun m => snd (fst m)) (dk_wire s).
Definition issued (s : Desk) (id : string) : Prop := exists n, (n < dk_next_uuid s)%nat /\ id = W n.
(** Not sent, and its record, if it has one, says so; or no worker has it. *)
Definition held (s : Desk) (id : string) : Prop :=
  (id ∉ dk_noted s) /\ forall k a, dk_table s !! k = Some a -> ad_worker_admission_id a = id -> ad_status a = CancelledAdmission.
Definition gone (s : Desk) (id : string) : Prop :=
  (id ∈ dk_sent s) /\ (id ∉ wire_ids s) /\ forall w, host_rid id (host_of s w).
Definition safe (s : Desk) (id : string) : Prop := issued s id /\ (held s id \/ gone s id).

Definition task_ok (s : Desk) (own : string) (p : prompt_pc) : Prop :=
  match p with
  | AtGates | AtCheck | AtFetch => own ∉ dk_noted s
  | AtResolve id | AtRecheck id _ _ | AtNote id _ _ => id = own /\ own ∉ dk_noted s
  | AtSend id _ _ => id = own /\ own ∈ dk_noted s /\ own ∉ dk_sent s
  | AtReply | AtOwned _ | AtRemove _ => own ∈ dk_sent s
  end.
Definition cancel_ok (s : Desk) (p : cancel_pc) : Prop :=
  match p with
  | CForward _ id _ _ | CSent _ id _ _ => id ∈ dk_noted s
  | CReply _ id r => id ∈ dk_noted s /\ (status_of r = "cancelled" -> gone s id)
  | _ => True
  end.
Definition prompt_live (s : Desk) (t : nat) (key own : string) : Prop := exists c p, dk_tasks s !! t = Some (PromptTask c key own p).
Definition task_holds (s : Desk) (k : Task) : Prop :=
  match k with
  | PromptTask _ key own p => (exists a, dk_table s !! key = Some a /\ ad_worker_admission_id a = own) /\ task_ok s own p
  | CancelTask _ p => cancel_ok s p
  | Ended _ => True
  end.

(** A cancellation after the last check is one that came too late. *)
Definition passed (s : Desk) (k : Task) : Prop :=
  match k with PromptTask _ key own (AtNote _ _ _) => cancelled_at key s = true -> own ∈ dk_overtaken s | _ => True end.

Record inv (s : Desk) : Prop := {
  inv_next t : (dk_next_task s <= t)%nat -> dk_tasks s !! t = None;
  inv_issued k a : dk_table s !! k = Some a -> issued s (ad_worker_admission_id a);
  inv_keys k k' a a' : dk_table s !! k = Some a -> dk_table s !! k' = Some a' -> ad_worker_admission_id a = ad_worker_admission_id a' -> k = k';
  inv_worker k a : dk_table s !! k = Some a -> (ad_worker_id a <> None <-> ad_worker_admission_id a ∈ dk_noted s);
  inv_tasks t k : dk_tasks s !! t = Some k -> task_holds s k;
  inv_passed t k : dk_tasks s !! t = Some k -> passed s k;
  inv_own t t' key key' own : prompt_live s t key own -> prompt_live s t' key' own -> t = t';
  inv_sent : dk_sent s ⊆ dk_noted s;
  inv_noted id : id ∈ dk_noted s -> issued s id;
  inv_wire : NoDup (wire_ids s) /\ (forall id, id ∈ wire_ids s -> id ∈ dk_sent s);
  inv_payload w id payload wait : (w, id, (payload, wait)) ∈ dk_wire s -> get_str "admissionId" payload = Some id;
  inv_good w : host_good (host_of s w);
  inv_unheard n w : W n ∉ dk_sent s \/ W n ∈ wire_ids s -> host_fresh (W n) (host_of s w) = true;
  inv_once n w w' : w <> w' -> host_fresh (W n) (host_of s w) = true \/ host_fresh (W n) (host_of s w') = true;
  inv_record k a : dk_table s !! k = Some a -> ad_status a = CancelledAdmission -> ad_worker_admission_id a ∉ dk_overtaken s -> safe s (ad_worker_admission_id a);
  inv_told id g : (id, g) ∈ dk_told s -> g <> Guessed -> id ∉ dk_overtaken s -> safe s id
}.

Lemma inv_opened : inv (new_connection).
Proof.
  split; try done.
  - intros t t' key key' own (c & p & Hx) _. cbn in Hx. by rewrite lookup_empty in Hx.
  - split; [apply NoDup_nil_2|intros id Hin; by apply elem_of_nil in Hin].
  - intros w id payload wait Hin. by apply elem_of_nil in Hin.
  - intros w. apply start_good.
  - intros n w _. apply start_fresh.
  - intros n w w' _. left. apply start_fresh.
  - intros id g Hin. by apply elem_of_nil in Hin.
Qed.

(** ** Changes of the parts *)
Lemma inv_overtake ids s : inv s -> inv (overtake ids s).
Proof.
  intros []. split; try done.
  - intros t k Ht. pose proof (inv_passed0 t k Ht) as Hp. destruct k as [? ? ? []| |]; try done. intros Hc. cbn. apply elem_of_union_l. by apply Hp.
  - intros k a Ha Hc Hn. apply (inv_record0 k a); [done|done|]. cbn in Hn. set_solver.
  - intros id g Hin Hg Hn. apply (inv_told0 id g); [done|done|]. cbn in Hn. set_solver.
Qed.
Lemma inv_tell id g s : inv s -> (g <> Guessed -> id ∉ dk_overtaken s -> safe s id) -> inv (tell id g s).
Proof.
  intros [] Hs. split; try done. intros id' g'. cbn. intros [[= -> ->]|Hin]%elem_of_cons Hg Hn; [by apply Hs|by apply (inv_told0 id' g')].
Qed.
(** A task moves on, or ends. *)
Lemma inv_go t k s : inv s -> (t < dk_next_task s)%nat -> task_holds s k -> passed s k ->
  (forall c key own p, k = PromptTask c key own p -> exists key', prompt_live s t key' own) -> inv (go t k s).
Proof.
  intros [] Ht Hk Hps Hl. split; try done.
  - intros t' Ht'. cbn in Ht' |- *. rewrite lookup_insert_ne by lia. by apply inv_next0.
  - intros t' k'. cbn. intros [[<- <-]|[_ Hx]]%lookup_insert_Some; [done|by apply (inv_tasks0 t')].
  - intros t' k'. cbn. intros [[<- <-]|[_ Hx]]%lookup_insert_Some; [done|by apply (inv_passed0 t')].
  - assert (Hlive : forall t0 key0 own0, prompt_live (go t k s) t0 key0 own0 -> exists key', prompt_live s t0 key' own0).
    { intros t0 key0 own0 (c0 & p0 & Hx). cbn in Hx. apply lookup_insert_Some in Hx as [[<- ->]|[_ Hx]]; [by eapply Hl|].
      exists key0. by exists c0, p0. }
    intros t1 t2 k1 k2 own [k1' H1]%Hlive [k2' H2]%Hlive. by eapply inv_own0.
Qed.
Lemma inv_spawn k s : inv s -> match k with PromptTask _ _ _ _ => False | CancelTask _ p => cancel_ok s p | Ended _ => True end -> inv (spawn k s).
Proof.
  intros [] Hk. split; try done.
  - intros t Ht. cbn in Ht |- *. rewrite lookup_insert_ne by lia. apply inv_next0. lia.
  - intros t k'. cbn. intros [[<- <-]|[_ Hx]]%lookup_insert_Some; [by destruct k|by apply (inv_tasks0 t)].
  - intros t k'. cbn. intros [[<- <-]|[_ Hx]]%lookup_insert_Some; [by destruct k|by apply (inv_passed0 t)].
  - intros t1 t2 k1 k2 own (c1 & p1 & H1) (c2 & p2 & H2). cbn in H1, H2.
    apply lookup_insert_Some in H1 as [[<- ->]|[_ H1]]; [done|]. apply lookup_insert_Some in H2 as [[<- ->]|[_ H2]]; [done|].
    apply (inv_own0 t1 t2 k1 k2 own); by eexists _, _.
Qed.
(** Records change their status. *)
Definition restates (s : Desk) (a a' : PromptAdmission) : Prop :=
  ad_worker_admission_id a' = ad_worker_admission_id a /\ ad_worker_id a' = ad_worker_id a
  /\ (ad_worker_admission_id a ∉ dk_overtaken s ->
      (ad_status a = CancelledAdmission -> ad_worker_admission_id a ∉ dk_noted s -> ad_status a' = CancelledAdmission)
      /\ (ad_status a' = CancelledAdmission ->
          ad_status a = CancelledAdmission \/ ad_worker_admission_id a ∉ dk_noted s \/ gone s (ad_worker_admission_id a))).
Lemma restates_refl s a : restates s a a.
Proof. repeat split; auto. Qed.
Lemma inv_retable (m : AdmissionTable) (g : string -> PromptAdmission -> PromptAdmission) s :
  (forall k, m !! k = g k <$> dk_table s !! k) -> (forall k a, dk_table s !! k = Some a -> restates s a (g k a)) ->
  (forall t k, dk_tasks s !! t = Some k -> passed (set_table (fun _ => m) s) k) -> inv s -> inv (set_table (fun _ => m) s).
Proof.
  intros Hm Hg Hps []. set (s' := set_table (fun _ => m) s) in *.
  assert (Hback : forall k a', dk_table s' !! k = Some a' -> exists a, dk_table s !! k = Some a /\ a' = g k a
     /\ ad_worker_admission_id a' = ad_worker_admission_id a /\ ad_worker_id a' = ad_worker_id a).
  { intros k a' Ha. change (m !! k = Some a') in Ha. rewrite Hm in Ha. apply fmap_Some in Ha as (a & Ha & ->).
    destruct (Hg k a Ha) as (? & ? & _). eauto. }
  assert (Hsafe : forall id, id ∉ dk_overtaken s -> safe s id -> safe s' id).
  { intros id Hn [Hi [[Hno Hh]|Hgo]]; (split; [done|]); [left|by right]. split; [done|].
    intros k a' (a & Ha & -> & Hid & _)%Hback E. rewrite Hid in E. pose proof (Hh k a Ha E) as Hst. subst id. by apply (Hg k a Ha). }
  split; try done.
  - intros k a' (a & Ha & _ & -> & _)%Hback. by apply (inv_issued0 k).
  - intros k k' a a' (x & Hx & _ & -> & _)%Hback (x' & Hx' & _ & -> & _)%Hback. by eapply inv_keys0.
  - intros k a' (a & Ha & _ & -> & ->)%Hback. by apply (inv_worker0 k).
  - intros t k Ht. specialize (inv_tasks0 t k Ht). destruct k as [c key own p| |]; [|done..]. destruct inv_tasks0 as [(a & Ha & Hw) Hp].
    split; [|done]. exists (g key a). split; [change (m !! key = Some (g key a)); by rewrite Hm, Ha|]. by rewrite (proj1 (Hg _ _ Ha)).
  - intros k a' (a & Ha & -> & Hid & _)%Hback Hst Hn. rewrite Hid in Hn |- *. destruct (Hg k a Ha) as (_ & _ & Hx).
    destruct (proj2 (Hx Hn) Hst) as [Hold|[Hno|Hgo]]; [by apply Hsafe; [|apply (inv_record0 k)]| |by split; [apply (inv_issued0 k)|right]].
    split; [by apply (inv_issued0 k)|]. left. split; [done|]. intros k' a' (x & Hx' & -> & Hid' & _)%Hback E.
    assert (k' = k) as -> by (eapply inv_keys0; [exact Hx'|exact Ha|congruence]). congruence.
  - intros id g' Hin Hne Hn. apply Hsafe; [done|]. by apply (inv_told0 id g').
Qed.
Lemma cancelled_at_spec key s : cancelled_at key s = true <-> exists a, dk_table s !! key = Some a /\ ad_status a = CancelledAdmission.
Proof.
  unfold cancelled_at. destruct (dk_table s !! key) as [a|]; [rewrite bool_decide_eq_true|]; split; [by exists a|by intros (? & [= <-] & ?)|done|by intros (? & ? & ?)].
Qed.
Lemma inv_alter (g : PromptAdmission -> PromptAdmission) key s :
  (forall a, dk_table s !! key = Some a -> restates s a (g a)) ->
  (forall t c own id w rb a, dk_tasks s !! t = Some (PromptTask c key own (AtNote id w rb)) -> dk_table s !! key = Some a ->
     ad_status (g a) = CancelledAdmission -> own ∈ dk_overtaken s) ->
  inv s -> inv (set_table (alter g key) s).
Proof.
  intros Hg Hps I. apply (inv_retable _ (fun k a => if decide (k = key) then g a else a)); [| | |done].
  - intros k. destruct (decide (k = key)) as [->|Hne]; [by rewrite lookup_alter_eq|]. rewrite lookup_alter_ne by done. by destruct (dk_table s !! k).
  - intros k a Ha. destruct (decide (k = key)) as [->|Hne]; [by apply Hg|apply restates_refl].
  - intros t k Ht. pose proof (inv_passed _ I t k Ht) as Hp. destruct k as [c key' own [] | |]; try done.
    intros (a & Ha & Hs)%cancelled_at_spec. cbn in Ha. apply lookup_alter_Some in Ha as [(-> & a' & Ha & ->)|[_ Ha]]; [by eapply Hps|].
    apply Hp, cancelled_at_spec. by exists a.
Qed.
(** A record nobody holds any more is removed. *)
Lemma inv_delete key s : (forall t own, ~ prompt_live s t key own) -> inv s -> inv (set_table (delete key) s).
Proof.
  intros Hl []. set (s' := set_table (delete key) s).
  assert (Hback : forall k a, delete key (dk_table s) !! k = Some a -> dk_table s !! k = Some a) by (intros k a Ha; apply lookup_delete_Some in Ha; tauto).
  assert (Hsafe : forall id, safe s id -> safe s' id).
  { intros id [Hi [[Hno Hh]|Hgo]]; (split; [done|]); [left|by right]. split; [done|]. intros k a Ha. by apply (Hh k), Hback. }
  split; try done.
  - intros k a Ha%Hback. by apply (inv_issued0 k).
  - intros k k' a a' Ha%Hback Ha'%Hback. by eapply inv_keys0.
  - intros k a Ha%Hback. by apply (inv_worker0 k).
  - intros t k Ht. pose proof (inv_tasks0 t k Ht) as Hk. destruct k as [c key' own p| |]; [|done..]. destruct Hk as [(a & Ha & Hw) Hp].
    split; [|done]. exists a. split; [|done]. unfold s'. cbn. rewrite lookup_delete_ne; [done|]. intros ->. apply (Hl t own). by exists c, p.
  - intros t k Ht. pose proof (inv_passed0 t k Ht) as Hp. destruct k as [c key' own [] | |]; try done.
    intros (a & Ha%Hback & Hs)%cancelled_at_spec. apply Hp, cancelled_at_spec. by exists a.
  - intros k a Ha%Hback Hst Hn. apply Hsafe. by apply (inv_record0 k).
  - intros id g Hin Hne Hn. apply Hsafe. by apply (inv_told0 id g).
Qed.

(** ** A prompt is registered, moved, noted and sent *)
Lemma next_not_issued s : ~ issued s (W (dk_next_uuid s)).
Proof. intros (n & Hn & E%W_inj). lia. Qed.
Lemma register_inr id session admission m m' : register_admission id session admission m = inr m' ->
  m !! prompt_admission_key session admission = None /\ m' = <[prompt_admission_key session admission := mkAdmission id Waiting None None]> m.
Proof.
  unfold register_admission. destruct (register_error _ _ _) eqn:Er; [done|]. intros [= <-]. split; [|done].
  unfold register_error in Er. repeat case_match; try done.
  match goal with E : bool_decide _ = false |- _ => by apply bool_decide_eq_false, eq_None_not_Some in E end.
Qed.
Lemma inv_register c m s :
  inv s -> register_admission (W (dk_next_uuid s)) (pm_active_session_id c) (pm_admission_id c) (dk_table s) = inr m ->
  inv (prompt_arrives uuid c s).
Proof.
  intros I Em. unfold prompt_arrives. rewrite Em. apply register_inr in Em as [Hk ->].
  set (key := prompt_admission_key _ _) in *. set (id := W (dk_next_uuid s)) in *.
  assert (Hid : ~ issued s id) by apply next_not_issued. destruct I. set (s' := mkDesk _ _ _ _ _ _ _ _ _ _ _).
  assert (Hup : forall x, issued s x -> issued s' x) by (intros x (n & Hn & ->); exists n; split; [cbn; lia|done]).
  assert (Hback : forall k a, dk_table s' !! k = Some a -> (k = key /\ a = mkAdmission id Waiting None None) \/ (k <> key /\ dk_table s !! k = Some a)).
  { intros k a Ha. apply insert_back in Ha as [[-> ->]|[Hne Ha]]; auto. }
  assert (Hnew : forall k a, dk_table s !! k = Some a -> ad_worker_admission_id a <> id) by (intros k a Ha <-; apply Hid; by apply (inv_issued0 k)).
  assert (Hsafe : forall x, safe s x -> safe s' x).
  { intros x [Hi [[Hno Hh]|Hgo]]; (split; [by apply Hup|]); [left|by right]. split; [done|].
    intros k a [[-> ->]|[_ Ha]]%Hback E; [cbn in E; subst x; done|by apply (Hh k)]. }
  split; try done.
  - intros t Ht. unfold s'. cbn in Ht |- *. rewrite lookup_insert_ne by lia. apply inv_next0. lia.
  - intros k a [[-> ->]|[_ Ha]]%Hback; [exists (dk_next_uuid s); split; [cbn; lia|done]|]. by apply Hup, (inv_issued0 k).
  - intros k k' a a' [[-> ->]|[_ Ha]]%Hback [[-> ->]|[_ Ha']]%Hback E; [done|cbn in E; by apply Hnew in Ha'|cbn in E; by apply Hnew in Ha|by eapply inv_keys0].
  - intros k a [[-> ->]|[_ Ha]]%Hback; [|by apply (inv_worker0 k)]. split; [done|]. intros Hin. by apply inv_noted0 in Hin.
  - intros t k Ht. apply insert_back in Ht as [[-> ->]|[_ Ht]].
    + split; [exists (mkAdmission id Waiting None None); split; [apply lookup_insert_eq|done]|]. intros Hin. by apply Hid, inv_noted0.
    + pose proof (inv_tasks0 t k Ht) as Hx. destruct k as [c' key' own p| |]; [|done..]. destruct Hx as [(a & Ha & Hw) Hp].
      split; [|done]. exists a. split; [|done]. cbn. rewrite lookup_insert_ne; [done|]. intros <-. by rewrite Hk in Ha.
  - intros t k Ht. apply insert_back in Ht as [[-> ->]|[_ Ht]]; [done|]. pose proof (inv_passed0 t k Ht) as Hp.
    destruct k as [c' key' own [] | |]; try done. intros (a & [[-> ->]|[_ Ha]]%Hback & Hs)%cancelled_at_spec; [done|].
    apply Hp, cancelled_at_spec. by exists a.
  - assert (Hlive : forall t key' own, prompt_live s' t key' own -> (t = dk_next_task s /\ own = id) \/ prompt_live s t key' own /\ own <> id).
    { intros t key' own (c' & p & Ht). apply insert_back in Ht as [[-> E]|[_ Ht]]; [injection E; auto|]. right.
      split; [by exists c', p|]. apply (inv_tasks0 t) in Ht as [(a & Ha & <-) _]. by eapply Hnew. }
    intros t t' k k' own [[-> ->]|[H1 N1]]%Hlive [[-> E]|[H2 N2]]%Hlive; [done|done|done|by eapply inv_own0].
  - intros x Hx. by apply Hup, inv_noted0.
  - intros k a [[-> ->]|[_ Ha]]%Hback Hst Hn; [done|]. by apply Hsafe, (inv_record0 k).
  - intros x g Hin Hne Hn. by apply Hsafe, (inv_told0 x g).
Qed.
Lemma rekey_spec from to m :
  rekey from to m = (true, m) /\ from = to \/ rekey from to m = (false, m)
  \/ exists a, m !! from = Some a /\ m !! to = None /\ from <> to /\ rekey from to m = (true, <[to := a]> (delete from m)).
Proof.
  unfold rekey. destruct (String.eqb_spec from to) as [->|Hne]; [by left|]. destruct (bool_decide _) eqn:E; [by right; left|].
  apply bool_decide_eq_false, eq_None_not_Some in E. destruct (m !! from) as [a|] eqn:Ea; [|by right; left]. right. right. by exists a.
Qed.
(** The record follows its prompt to another session id. *)
Lemma inv_rekey t c key to own p a s :
  inv s -> dk_tasks s !! t = Some (PromptTask c key own p) -> dk_table s !! key = Some a -> dk_table s !! to = None -> key <> to ->
  inv (go t (PromptTask c to own p) (set_table (fun m => <[to := a]> (delete key m)) s)).
Proof.
  intros I Ht Ha Hto Hne. destruct I. set (s' := go _ _ _).
  assert (Hown : ad_worker_admission_id a = own /\ task_ok s own p) by (apply inv_tasks0 in Ht as [(a' & Ha' & <-) Hp]; simplify_eq; done).
  destruct Hown as [Hown Hp].
  assert (Hback : forall k x, dk_table s' !! k = Some x -> exists k0, dk_table s !! k0 = Some x /\ (k = to /\ k0 = key \/ k <> to /\ k = k0 /\ k <> key)).
  { intros k x Hx. apply insert_back in Hx as [[-> ->]|[Hk Hx]]; [exists key; auto|]. apply delete_back in Hx as [Hd Hx]. exists k. auto 6. }
  assert (Hsafe : forall x, safe s x -> safe s' x).
  { intros x [Hi [[Hno Hh]|Hgo]]; (split; [done|]); [left|by right]. split; [done|]. intros k y (k0 & Hy & _)%Hback. by apply (Hh k0). }
  assert (Hlive : forall t0 k0 o, prompt_live s' t0 k0 o -> exists k1, prompt_live s t0 k1 o).
  { intros t0 k0 o (c' & p' & Hx). apply insert_back in Hx as [[-> E]|[_ Hx]]; [injection E as -> -> -> ->; exists key|exists k0]; by eexists _, _. }
  split; try done.
  - intros t' Ht'. cbn in Ht' |- *. rewrite lookup_insert_ne; [by apply inv_next0|]. intros ->. by rewrite inv_next0 in Ht.
  - intros k x (k0 & Hx & _)%Hback. by apply (inv_issued0 k0).
  - intros k k' x x' (k0 & Hx & Hk)%Hback (k0' & Hx' & Hk')%Hback E.
    assert (k0 = k0') by (by eapply inv_keys0). destruct Hk as [[? ?]|(? & ? & ?)], Hk' as [[? ?]|(? & ? & ?)]; congruence.
  - intros k x (k0 & Hx & _)%Hback. by apply (inv_worker0 k0).
  - intros t' k Hk. apply insert_back in Hk as [[-> ->]|[Hnt Hk]].
    + split; [|done]. exists a. split; [apply lookup_insert_eq|done].
    + pose proof (inv_tasks0 t' k Hk) as Hx. destruct k as [c' key' own' p'| |]; [|done..]. destruct Hx as [(a' & Ha' & Hw') Hp'].
      split; [|done]. exists a'. split; [|done]. cbn. rewrite lookup_insert_ne by congruence. rewrite lookup_delete_ne; [done|].
      intros <-. apply Hnt. simplify_eq. apply (inv_own0 t' t key key (ad_worker_admission_id a)); by eexists _, _.
  - intros t' k Hk. apply insert_back in Hk as [[-> ->]|[Hnt Hk]].
    + pose proof (inv_passed0 t _ Ht) as Hx. destruct p; try done. intros (x & Hx' & Hs)%cancelled_at_spec.
      cbn in Hx'. rewrite lookup_insert_eq in Hx'. injection Hx' as <-. apply Hx, cancelled_at_spec. by exists a.
    + pose proof (inv_passed0 t' k Hk) as Hx. pose proof (inv_tasks0 t' k Hk) as Hy. destruct k as [c' key' own' [] | |]; try done.
      intros (x & (k0 & Hx' & [[-> ->]|(_ & -> & _)])%Hback & Hs)%cancelled_at_spec; [|apply Hx, cancelled_at_spec; by exists x].
      destruct Hy as [(y & Hy & _) _]. by rewrite Hto in Hy.
  - intros t1 t2 k1 k2 o [k1' H1]%Hlive [k2' H2]%Hlive. by eapply inv_own0.
  - intros k x (k0 & Hx & _)%Hback Hst Hn. by apply Hsafe, (inv_record0 k0).
  - intros x g Hin Hg Hn. by apply Hsafe, (inv_told0 x g).
Qed.
(** A task goes on as before when others are noted or sent. *)
Lemma task_ok_grows s s' own p (X : gset string) :
  dk_noted s ⊆ dk_noted s' -> dk_noted s' ⊆ dk_noted s ∪ X -> dk_sent s ⊆ dk_sent s' -> dk_sent s' ⊆ dk_sent s ∪ X -> own ∉ X ->
  task_ok s own p -> task_ok s' own p.
Proof. intros H1 H2 H3 H4 Hx. destruct p; cbn; set_solver. Qed.
Lemma cancel_ok_grows s s' p : dk_noted s ⊆ dk_noted s' -> (forall id, id ∈ dk_noted s -> gone s id -> gone s' id) -> cancel_ok s p -> cancel_ok s' p.
Proof. intros H1 H2. destruct p; cbn; auto. intros [Hx Hy]. split; [auto|]. intros E. by apply H2, Hy. Qed.
(** The worker of a prompt is noted: its cancellation comes too late. *)
Lemma inv_note t c key own id w rebound s :
  inv s -> dk_tasks s !! t = Some (PromptTask c key own (AtNote id w rebound)) ->
  inv (go t (PromptTask c key own (AtSend id w rebound)) (note key w s)).
Proof.
  intros I Ht. pose proof (inv_tasks _ I _ _ Ht) as [(a & Ha & Hown) [-> Hno]]. subst own. unfold note. rewrite Ha.
  set (own := ad_worker_admission_id a) in *. set (s' := go _ _ _). destruct I.
  assert (Hns : own ∉ dk_sent s) by set_solver.
  assert (Hback : forall k x, dk_table s' !! k = Some x -> (k = key /\ x = note_worker w a) \/ (k <> key /\ dk_table s !! k = Some x)).
  { intros k x Hx. by apply insert_back in Hx. }
  assert (Hold : forall k x, dk_table s' !! k = Some x -> exists y, dk_table s !! k = Some y /\ ad_worker_admission_id x = ad_worker_admission_id y /\ ad_status x = ad_status y).
  { intros k x [[-> ->]|[_ Hx]]%Hback; [by exists a|by exists x]. }
  assert (Hsafe : forall x, x ∉ dk_overtaken s' -> safe s x -> safe s' x).
  { intros x Hn [Hi Hx]. destruct (decide (x = own)) as [->|Hne].
    - exfalso. destruct Hx as [[_ Hh]|[Hs _]]; [|done]. apply Hn. apply (inv_passed0 t _ Ht), cancelled_at_spec. exists a. by rewrite (Hh key a Ha eq_refl).
    - split; [done|]. destruct Hx as [[Hnx Hh]|Hgo]; [left|by right]. split; [unfold s'; cbn; set_solver|].
      intros k y (y' & Hy & -> & ->)%Hold. by apply (Hh k). }
  assert (Hot : forall x, x ∉ dk_overtaken s' -> x ∉ dk_overtaken s) by (unfold s'; cbn; set_solver).
  assert (Hlive : forall t0 k0 o, prompt_live s' t0 k0 o -> prompt_live s t0 k0 o).
  { intros t0 k0 o (c' & p' & Hx). apply insert_back in Hx as [[-> E]|[_ Hx]]; [injection E as -> -> -> ->|]; by eexists _, _. }
  split; try done.
  - intros t' Ht'. unfold s'. cbn in Ht' |- *. rewrite lookup_insert_ne; [by apply inv_next0|]. intros ->. by rewrite inv_next0 in Ht.
  - intros k x (y & Hy & -> & _)%Hold. by apply (inv_issued0 k).
  - intros k k' x x' (y & Hy & -> & _)%Hold (y' & Hy' & -> & _)%Hold. by eapply inv_keys0.
  - intros k x [[-> ->]|[Hk Hx]]%Hback; unfold s'; cbn; [split; [set_solver|done]|]. rewrite (inv_worker0 k x Hx), elem_of_union, elem_of_singleton.
    split; [auto|]. intros [?|E]; [done|]. by destruct (Hk (inv_keys0 k key x a Hx Ha E)).
  - intros t' k Hk. apply insert_back in Hk as [[-> ->]|[Hnt Hk]].
    + split; [exists (note_worker w a); split; [apply lookup_insert_eq|done]|]. unfold s'. cbn. set_solver.
    + pose proof (inv_tasks0 t' k Hk) as Hx. destruct k as [c' key' own' p'|c' p'|]; [| |done].
      * destruct Hx as [(x & Hx & Hw') Hp']. assert (own' <> own) as Hd.
        { intros ->. apply Hnt. apply (inv_own0 t' t key' key own); by eexists _, _. }
        split; [|apply (task_ok_grows s s' own' p' {[own]}); [unfold s'; cbn; set_solver..|done]]. exists x. split; [|done]. unfold s'. cbn. rewrite lookup_insert_ne; [done|].
        intros <-. by simplify_eq.
      * apply (cancel_ok_grows s s' p'); [unfold s'; cbn; set_solver|done|done].
  - intros t' k Hk. apply insert_back in Hk as [[-> ->]|[Hnt Hk]]; [done|]. pose proof (inv_passed0 t' k Hk) as Hx.
    destruct k as [c' key' own' [] | |]; try done. intros (x & (y & Hy & _ & Es)%Hold & Hs)%cancelled_at_spec.
    apply Hx, cancelled_at_spec. exists y. by rewrite <- Es.
  - intros t1 t2 k1 k2 o H1%Hlive H2%Hlive. by eapply inv_own0.
  - unfold s'. cbn. set_solver.
  - intros x Hx. unfold s' in Hx. cbn in Hx. apply elem_of_union in Hx as [Hx|Hx]; [by apply inv_noted0|]. apply elem_of_singleton in Hx as ->. by apply (inv_issued0 key).
  - intros k x Hx Hst Hn. destruct (Hold k x Hx) as (y & Hy & Ey & Es). rewrite Ey in Hn |- *. apply Hsafe; [done|].
    apply (inv_record0 k); [done|congruence|by apply Hot].
  - intros x g Hin Hg Hn. apply Hsafe; [done|]. by apply (inv_told0 x g); [..|apply Hot].
Qed.
(** A prompt is handed to the route. *)
Lemma inv_send t c key own id w rebound s :
  inv s -> dk_tasks s !! t = Some (PromptTask c key own (AtSend id w rebound)) ->
  inv (go t (PromptTask c key own AtReply) (send_prompt c id w rebound s)).
Proof.
  intros I Ht. pose proof (inv_tasks _ I _ _ Ht) as [(a & Ha & Hown) (-> & Hno & Hns)].
  set (s' := go _ _ _). destruct I.
  assert (Hids : wire_ids s' = (wire_ids s ++ [own])%list) by (unfold wire_ids, s'; cbn; by rewrite map_app).
  assert (Hnw : own ∉ wire_ids s) by (intros Hin; by apply Hns, inv_wire0).
  assert (Hgone : forall x, gone s x -> gone s' x).
  { intros x (Hs & Hw & Hr). split; [unfold s'; cbn; set_solver|]. split; [|done]. rewrite Hids. set_solver. }
  assert (Hsafe : forall x, safe s x -> safe s' x).
  { intros x [Hi [Hh|Hgo]]; (split; [done|]); [by left|right; by apply Hgone]. }
  assert (Hlive : forall t0 k0 o, prompt_live s' t0 k0 o -> prompt_live s t0 k0 o).
  { intros t0 k0 o (c' & p' & Hx). apply insert_back in Hx as [[-> E]|[_ Hx]]; [injection E as -> -> -> ->|]; by eexists _, _. }
  split; try done.
  - intros t' Ht'. unfold s'. cbn in Ht' |- *. rewrite lookup_insert_ne; [by apply inv_next0|]. intros ->. by rewrite inv_next0 in Ht.
  - intros t' k Hk. apply insert_back in Hk as [[-> ->]|[Hnt Hk]].
    + split; [by exists a|]. unfold s'. cbn. set_solver.
    + pose proof (inv_tasks0 t' k Hk) as Hx. destruct k as [c' key' own' p'|c' p'|]; [| |done].
      * destruct Hx as [Hx Hp']. split; [done|]. apply (task_ok_grows s s' own' p' {[own]}); [unfold s'; cbn; set_solver..| |done].
        intros ->%elem_of_singleton. apply Hnt. apply (inv_own0 t' t key' key own); by eexists _, _.
      * apply (cancel_ok_grows s s' p'); [done|auto|done].
  - intros t' k Hk. apply insert_back in Hk as [[-> ->]|[Hnt Hk]]; [done|]. by apply (inv_passed0 t').
  - intros t1 t2 k1 k2 o H1%Hlive H2%Hlive. by eapply inv_own0.
  - unfold s'. cbn. set_solver.
  - rewrite Hids. destruct inv_wire0 as [Hnd Hin]. split; [apply NoDup_app; split; [done|]; split; [set_solver|apply NoDup_singleton]|].
    intros x [Hx|Hx]%elem_of_app; unfold s'; cbn; set_solver.
  - intros w' id payload wait Hin. unfold s' in Hin. cbn in Hin. apply elem_of_app in Hin as [Hin|Hin]; [by eapply inv_payload0|].
    apply list_elem_of_singleton in Hin as [= -> -> -> ->]. apply payload_id.
  - intros n w' Hx. apply inv_unheard0. destruct Hx as [Hx|Hx]; [left; intros Hin; apply Hx; unfold s'; cbn; by apply elem_of_union_l|].
    rewrite Hids in Hx. apply elem_of_app in Hx as [Hx|Hx]; [by right|left]. by apply list_elem_of_singleton in Hx as ->.
  - intros k x Hx Hst Hn. by apply Hsafe, (inv_record0 k).
  - intros x g Hin Hg Hn. by apply Hsafe, (inv_told0 x g).
Qed.

(** ** The workers *)
Lemma host_of_insert s w h w' : host_of (set_hosts (<[w := h]>) s) w' = if decide (w' = w) then h else host_of s w'.
Proof.
  unfold host_of. cbn. destruct (decide (w' = w)) as [->|Hne]; [by rewrite lookup_insert_eq|]. by rewrite lookup_insert_ne.
Qed.
(** Something that brings no id of ours happens to a worker. *)
Lemma inv_host w h s :
  host_good h -> (forall n, host_fresh (W n) (host_of s w) = true -> host_fresh (W n) h = true) ->
  (forall n, host_rid (W n) (host_of s w) -> host_rid (W n) h) -> inv s -> inv (set_hosts (<[w := h]>) s).
Proof.
  intros Hg Hf Hr []. set (s' := set_hosts _ s).
  assert (Hgone : forall x, issued s x -> gone s x -> gone s' x).
  { intros x (n & _ & ->) (Hs & Hw & Hx). split; [done|]. split; [done|]. intros w'. unfold s'. rewrite host_of_insert. destruct (decide _) as [->|]; auto. }
  assert (Hsafe : forall x, safe s x -> safe s' x).
  { intros x [Hi [Hh|Hgo]]; (split; [done|]); [by left|right; by apply Hgone]. }
  assert (Hfr : forall n w', host_fresh (W n) (host_of s w') = true -> host_fresh (W n) (host_of s' w') = true).
  { intros n w' Hx. unfold s'. rewrite host_of_insert. destruct (decide _) as [->|]; auto. }
  split; try done.
  - intros t k Ht. pose proof (inv_tasks0 t k Ht) as Hx. destruct k as [| |]; [done| |done]. apply (cancel_ok_grows s s' p); [done|auto|done].
  - intros w'. unfold s'. rewrite host_of_insert. by destruct (decide _).
  - intros n w' Hx. by apply Hfr, inv_unheard0.
  - intros n w1 w2 Hne. destruct (inv_once0 n w1 w2 Hne); [left|right]; by apply Hfr.
  - intros k x Hx Hst Hn. by apply Hsafe, (inv_record0 k).
  - intros x g Hin Hg' Hn. by apply Hsafe, (inv_told0 x g).
Qed.
(** A prompt on its way is lost, or reaches its worker. *)
Lemma wire_taken i w id m s : dk_wire s !! i = Some (w, id, m) -> wire_ids s ≡ₚ id :: wire_ids (set_wire (delete i) s).
Proof. intros E%delete_Permutation. unfold wire_ids. cbn. by rewrite E at 1. Qed.
Lemma inv_lose i m s : dk_wire s !! i = Some m -> inv s -> inv (set_wire (delete i) s).
Proof.
  destruct m as [[w id] m]. intros E. pose proof (wire_taken _ _ _ _ _ E) as Hp. intros []. set (s' := set_wire _ s) in *.
  assert (Hsub : forall x, x ∈ wire_ids s' -> x ∈ wire_ids s) by (intros x Hx; rewrite Hp; by right).
  assert (Hgone : forall x, gone s x -> gone s' x) by (intros x (Hs & Hw & Hx); split; [done|]; split; auto).
  assert (Hsafe : forall x, safe s x -> safe s' x) by (intros x [Hi [Hh|Hgo]]; (split; [done|]); [by left|right; by apply Hgone]).
  split; try done.
  - intros t k Ht. pose proof (inv_tasks0 t k Ht) as Hx. destruct k as [| |]; [done| |done]. apply (cancel_ok_grows s s' p); [done|auto|done].
  - destruct inv_wire0 as [Hnd Hin]. rewrite Hp in Hnd. apply NoDup_cons in Hnd as [_ Hnd]. auto.
  - intros w' x payload wait Hin. apply (inv_payload0 w' x payload wait). rewrite (delete_Permutation _ _ _ E). by right.
  - intros n w' [Hx|Hx]; apply inv_unheard0; auto.
  - intros k x Hx Hst Hn. by apply Hsafe, (inv_record0 k).
  - intros x g Hin Hg' Hn. by apply Hsafe, (inv_told0 x g).
Qed.
Lemma inv_deliver i w id payload wait s :
  dk_wire s !! i = Some (w, id, (payload, wait)) -> inv s ->
  inv (set_hosts (<[w := host_prompt payload wait (host_of s w)]>) (set_wire (delete i) s)).
Proof.
  intros E I. pose proof (wire_taken _ _ _ _ _ E) as Hp. pose proof (inv_lose _ _ _ E I) as J. set (h := host_prompt _ _ _). destruct J. destruct I.
  set (s0 := set_wire _ s) in *. set (s' := set_hosts _ s0).
  assert (Hid : get_str "admissionId" payload = Some id) by (eapply inv_payload1, list_elem_of_lookup_2, E).
  assert (Hwire : id ∈ wire_ids s) by (rewrite Hp; by left).
  assert (Hout : id ∉ wire_ids s0) by (destruct inv_wire1 as [Hnd _]; rewrite Hp in Hnd; by apply NoDup_cons in Hnd as [? _]).
  assert (Hsent : id ∈ dk_sent s) by (by apply inv_wire1).
  destruct (inv_noted1 id (inv_sent1 _ Hsent)) as (m & Hm & Em).
  assert (Hfresh : forall w', host_fresh id (host_of s w') = true) by (intros w'; rewrite Em; apply inv_unheard1; right; by rewrite <- Em).
  assert (Hof : forall w', host_of s' w' = if decide (w' = w) then h else host_of s w') by (intros w'; exact (host_of_insert s0 w h w')).
  assert (Hgone : forall x, x <> id -> gone s0 x -> gone s' x).
  { intros x Hne (Hs & Hw & Hx). split; [done|]. split; [done|]. intros w'. rewrite Hof. destruct (decide _) as [->|]; [|apply (Hx w')].
    apply prompt_rid; [congruence|apply (Hx w)]. }
  assert (Hnot : safe s id -> False) by (intros [_ [[Hno _]|(_ & Hno & _)]]; [by apply Hno, inv_sent1|done]).
  assert (Hsafe : forall x, x <> id -> safe s0 x -> safe s' x) by (intros x Hne [Hi [Hh|Hgo]]; (split; [done|]); [by left|right; by apply Hgone]).
  assert (Hfr : forall n w', W n <> id -> host_fresh (W n) (host_of s w') = true -> host_fresh (W n) (host_of s' w') = true).
  { intros n w' Hne Hx. rewrite Hof. destruct (decide _) as [->|]; [|done]. apply prompt_fresh; [congruence|done]. }
  split; try done.
  - intros t k Ht. pose proof (inv_tasks0 t k Ht) as Hx. pose proof (inv_tasks1 t k Ht) as Hy. destruct k as [|c p|]; [done| |done].
    destruct p; try done. destruct Hx as [Hx Hg]. destruct Hy as [Hy Hg']. split; [done|]. intros Hst. apply Hgone; [|by apply Hg].
    intros ->. by destruct (Hg' Hst) as (_ & ? & _).
  - intros w'. rewrite Hof. destruct (decide _); [|done]. by apply (prompt_good payload wait _ id).
  - intros n w' Hx. apply Hfr; [|apply inv_unheard1; destruct Hx as [Hx|Hx]; [by left|right; rewrite Hp; by right]].
    intros En. rewrite En in Hx. by destruct Hx.
  - intros n w1 w2 Hne. destruct (decide (W n = id)) as [->|Hd]; [|destruct (inv_once1 n w1 w2 Hne); [left|right]; by apply Hfr].
    rewrite !Hof. destruct (decide (w1 = w)) as [->|]; [right; by rewrite decide_False by done|by left].
  - intros k x Hx Hst Hn. apply Hsafe; [|by apply (inv_record0 k)]. intros Ex. apply Hnot. rewrite <- Ex. by apply (inv_record1 k).
  - intros x g Hin Hg' Hn. apply Hsafe; [|by apply (inv_told0 x g)]. intros ->. by apply Hnot, (inv_told1 id g).
Qed.
End Desk.
