(* ===== verification/AdmissionTheorems.v ===== *)
(** * Prompt admissions: what a client can rely on

    The invariant holds whatever the order of prompts, cancellations, workers
    and the network; with it a prompt whose cancellation stands on record is
    in no worker, ever. *)
From S2P Require Import Prelude RustStr Json Protocol LedgerReplay Journal QueueWorker Admission AdmissionProofs.
#[local] Open Scope string_scope.

Section Desk.
Context `{PromptHost} `{!PromptHostOk} (uuid : nat -> string) `{!UuidOk uuid}.
Abbreviation W := (worker_id_of uuid).
Abbreviation inv := (inv uuid).

(** ** The tasks *)
Lemma task_lt t k s : inv s -> dk_tasks s !! t = Some k -> (t < dk_next_task s)%nat.
Proof. intros I Ht. destruct (decide (t < dk_next_task s)%nat); [done|]. rewrite (inv_next _ _ I t) in Ht by lia. done. Qed.
(** A prompt goes on under its key; any task may end. *)
Lemma inv_to t c key own p p' s :
  inv s -> dk_tasks s !! t = Some (PromptTask c key own p) -> task_ok s own p' -> passed s (PromptTask c key own p') ->
  inv (go t (PromptTask c key own p') s).
Proof.
  intros I Ht Hp Hps. apply (inv_go uuid); [done|by eapply task_lt| |done|].
  - destruct (inv_tasks _ _ I _ _ Ht) as [Ha _]. by split.
  - intros ???? [= <- <- <- <-]. exists key. by exists c, p.
Qed.
Lemma inv_end t k r s : inv s -> dk_tasks s !! t = Some k -> inv (go t (Ended r) s).
Proof. intros I Ht. apply (inv_go uuid); [done|by eapply task_lt|done|done|done]. Qed.
Lemma inv_cancel_to t k c p s : inv s -> dk_tasks s !! t = Some k -> cancel_ok s p -> inv (go t (CancelTask c p) s).
Proof. intros I Ht Hp. apply (inv_go uuid); [done|by eapply task_lt|done|done|done]. Qed.
(** A route that settles clears its record. *)
Lemma inv_settle t c key own p r s :
  inv s -> dk_tasks s !! t = Some (PromptTask c key own p) -> inv (go t (Ended r) (set_table (delete key) s)).
Proof.
  intros I Ht. change (inv (set_table (delete key) (go t (Ended r) s))). apply (inv_delete uuid); [|by eapply inv_end].
  intros t' own' (c' & p' & Hx). apply insert_back in Hx as [[_ ?]|[Hne Hx]]; [done|]. apply Hne.
  destruct (inv_tasks _ _ I _ _ Ht) as [(a & Ha & <-) _]. destruct (inv_tasks _ _ I _ _ Hx) as [(a' & Ha' & <-) _].
  rewrite Ha in Ha'. injection Ha' as <-. by apply (inv_own _ _ I t' t key key (ad_worker_admission_id a)); eexists _, _.
Qed.
Lemma set_table_same s : set_table (fun _ => dk_table s) s = s.
Proof. by destruct s. Qed.
Lemma inv_rebound t c key own id w current s :
  inv s -> dk_tasks s !! t = Some (PromptTask c key own (AtResolve id)) ->
  let rekeyed := prompt_admission_key current (pm_admission_id c) in
  let '(moved, m) := rekey key rekeyed (dk_table s) in
  inv (go t (PromptTask c (if moved then rekeyed else key) own (AtRecheck id w (Some current))) (set_table (fun _ => m) s)).
Proof.
  intros I Ht rekeyed. pose proof (inv_tasks _ _ I _ _ Ht) as [_ Hp].
  pose proof (inv_to t c key own _ (AtRecheck id w (Some current)) s I Ht Hp Logic.I) as J.
  destruct (rekey_spec key rekeyed (dk_table s)) as [[-> <-]|[->|(a & Ha & Hto & Hne & ->)]]; rewrite ?set_table_same; [done|done|].
  pose proof (inv_rekey uuid t c key rekeyed own _ a _ J (lookup_insert_eq _ _ _) Ha Hto Hne) as K.
  unfold go, set_tasks, set_table in K |- *. cbn in K |- *. by rewrite insert_insert_eq in K.
Qed.
Lemma cancelled_at_false key s a : dk_table s !! key = Some a -> cancelled_at key s = false -> ad_status a <> CancelledAdmission.
Proof. unfold cancelled_at. intros ->. by case_bool_decide. Qed.
Lemma inv_prompt_step t c key own p x s s' :
  inv s -> dk_tasks s !! t = Some (PromptTask c key own p) -> prompt_step t c key own p x s = Some s' -> inv s'.
Proof.
  intros I Ht. pose proof (inv_tasks _ _ I _ _ Ht) as [(a & Ha & Hown) Hp].
  destruct p as [| | |id|id w rb|id w rb|id w rb| |r|r], x; cbn [prompt_step]; intros Es; try done;
    try (injection Es as <-); try by eapply inv_end.
  - by eapply inv_to.
  - destruct (cancelled_at key s); injection Es as <-; [by eapply inv_end|by eapply inv_to].
  - rewrite Ha in Es. injection Es as <-. by eapply inv_to.
  - by eapply inv_to.
  - pose proof (inv_rebound t c key own id w current s I Ht) as K. cbv zeta in K. destruct (rekey _ _ _) as [moved m]. by injection Es as <-.
  - destruct (cancelled_at key s) eqn:Ec; injection Es as <-; [by eapply inv_end|]. eapply inv_to; [done|done|done|]. cbn. by rewrite Ec.
  - by apply inv_note.
  - by apply (inv_send uuid).
  - by eapply inv_to.
  - by eapply inv_settle.
  - assert (J : inv (go t (PromptTask c key own (AtRemove r)) s)) by (by eapply inv_to). destruct (dr_success r); [|done].
    change (inv (set_table (alter (set_status Owned) key) (go t (PromptTask c key own (AtRemove r)) s))).
    apply (inv_alter uuid); [|done|done]. intros a' Ha'. cbn in Ha'. rewrite Ha in Ha'. injection Ha' as <-. split; [done|]. split; [done|].
    intros _. split; [|done]. intros _ Hno. destruct Hno. apply (inv_sent _ _ I). by rewrite Hown.
  - by eapply inv_settle.
Qed.

(** ** Cancellations *)
Lemma cancel_payload_id c id active : get_str "admissionId" (cancel_payload c id active) = Some id.
Proof. unfold cancel_payload. by destruct (cm_cancel_owned c). Qed.
(** A worker that says "cancelled" had the prompt, and now nobody has. *)
Lemma inv_cancel_reaches t k c key id w active h r s :
  inv s -> dk_tasks s !! t = Some k -> id ∈ dk_noted s -> host_cancel (cancel_payload c id active) (host_of s w) = Some (h, r) ->
  inv (go t (CancelTask c (CReply key id r)) (set_hosts (<[w := h]>) s)).
Proof.
  intros I Ht Hno E. apply (inv_cancel_to t k c (CReply key id r)); [|done|].
  - apply (inv_host uuid); [..|done]; [eapply cancel_good; [exact E|apply (inv_good _ _ I)]|intros n; by eapply cancel_fresh|intros n; by eapply cancel_rid].
  - split; [done|]. intros Hst. destruct (cancel_says _ _ _ _ id E (cancel_payload_id _ _ _) (inv_good _ _ I w) Hst) as [Hf Hr].
    destruct (inv_noted _ _ I id Hno) as (n & _ & ->).
    assert (Hh : ~ (W n ∉ dk_sent s \/ W n ∈ wire_ids s)) by (intros Hx; by rewrite (inv_unheard _ _ I n w Hx) in Hf).
    split; [destruct (decide (W n ∈ dk_sent s)); [done|by destruct Hh; left]|]. split; [intros Hx; apply Hh; by right|].
    intros w'. rewrite host_of_insert. destruct (decide (w' = w)) as [->|Hne]; [done|]. apply fresh_rid.
    destruct (inv_once _ _ I n w' w Hne) as [?|Hx]; [done|]. by rewrite Hx in Hf.
Qed.
Lemma noting_in t c key own id w rb s : dk_tasks s !! t = Some (PromptTask c key own (AtNote id w rb)) -> own ∈ noting s.
Proof. intros Ht. apply elem_of_list_to_set, list_elem_of_omap. exists (t, PromptTask c key own (AtNote id w rb)). split; [by apply elem_of_map_to_list|done]. Qed.
Lemma task_own t c key own p a s : inv s -> dk_tasks s !! t = Some (PromptTask c key own p) -> dk_table s !! key = Some a -> ad_worker_admission_id a = own.
Proof. intros I Ht Ha. destruct (inv_tasks _ _ I _ _ Ht) as [(a' & Ha' & Hw) _]. congruence. Qed.
Lemma mark_restates k a s : inv s -> dk_table s !! k = Some a -> restates s a (mark a).
Proof.
  intros I Ha. unfold mark. pose proof (inv_worker _ _ I k a Ha) as Hw.
  destruct (ad_status a) eqn:Est; try apply restates_refl. destruct (ad_worker_id a) eqn:Ew; [apply restates_refl|].
  split; [done|]. split; [by rewrite Ew|]. intros _. split; [by rewrite Est|]. intros _. right. left. intros Hin. by apply Hw in Hin.
Qed.
Lemma inv_mark key s :
  inv s ->
  let late := match dk_table s !! key with Some a => {[ad_worker_admission_id a]} ∩ noting s | None => ∅ end in
  inv (overtake late (set_table (alter mark key) s)).
Proof.
  intros I late. change (inv (set_table (alter mark key) (overtake late s))). apply (inv_alter uuid); [| |by apply inv_overtake].
  - intros a Ha. apply (mark_restates key); [by apply inv_overtake|done].
  - intros t c own id w rb a Ht Ha _. cbn in Ht, Ha |- *. pose proof (task_own _ _ _ _ _ _ _ I Ht Ha) as Ew. unfold late. rewrite Ha, Ew.
    apply noting_in in Ht. set_solver.
Qed.
Lemma inv_answered key id r s :
  inv s -> cancel_ok s (CReply key id r) ->
  let stale := match dk_table s !! key with
               | Some a => if String.eqb (ad_worker_admission_id a) id then ∅ else {[ad_worker_admission_id a]}
               | None => ∅ end in
  inv (overtake stale (set_table (alter (mapped (status_of r)) key) s)).
Proof.
  intros I [Hno Hgo] stale. change (inv (set_table (alter (mapped (status_of r)) key) (overtake stale s))).
  apply (inv_alter uuid); [| |by apply inv_overtake].
  2: { intros t c own id' w rb a Ht Ha _. cbn in Ht, Ha |- *. pose proof (task_own _ _ _ _ _ _ _ I Ht Ha) as Ew. unfold stale. rewrite Ha.
       destruct (inv_tasks _ _ I _ _ Ht) as [_ [_ Hx]]. destruct (String.eqb_spec (ad_worker_admission_id a) id) as [Ea|]; [congruence|set_solver]. }
  intros a Ha. cbn in Ha. unfold stale. rewrite Ha. clear stale.
  assert (Hm : ad_worker_admission_id (mapped (status_of r) a) = ad_worker_admission_id a /\ ad_worker_id (mapped (status_of r) a) = ad_worker_id a).
  { unfold mapped. by repeat case_match. }
  destruct Hm as [Hm1 Hm2]. split; [done|]. split; [done|]. cbn. intros Hn. destruct (String.eqb_spec (ad_worker_admission_id a) id) as [Ea|]; [|set_solver].
  rewrite Ea. split; [done|]. unfold mapped. destruct (String.eqb_spec (status_of r) "owned"); [done|].
  destruct (String.eqb_spec (status_of r) "cancelled"); [auto|]. destruct (ad_status a) eqn:Est; cbn; try done; auto.
Qed.
Lemma inv_cancel_step t c p x s s' :
  inv s -> dk_tasks s !! t = Some (CancelTask c p) -> cancel_step t c p x s = Some s' -> inv s'.
Proof.
  intros I Ht. pose proof (inv_tasks _ _ I _ _ Ht) as Hp. cbn [task_holds] in Hp.
  assert (Htold : forall id g k, (g <> Guessed -> id ∉ dk_overtaken s -> safe uuid s id) -> inv (go t (Ended k) (tell id g s))).
  { intros id g k Hs. apply (inv_end t (CancelTask c p)); [by apply inv_tell|done]. }
  destruct p as [| | |key|key|key seen|key id w active|key id w active|key id r], x; cbn [cancel_step]; intros Es; try done;
    try (injection Es as <-); try (by eapply inv_end).
  - case_bool_decide; injection Es as <-; by eapply inv_cancel_to.
  - destruct target as [w|]; [case_bool_decide|]; injection Es as <-; by eapply inv_cancel_to.
  - by eapply inv_cancel_to.
  - eapply inv_cancel_to; [|done|done]. by apply inv_mark.
  - destruct (dk_table s !! key) as [a|] eqn:Ha; [|injection Es as <-; by eapply inv_end].
    destruct (ad_status a) eqn:Est; injection Es as <-; [by eapply inv_cancel_to|by eapply inv_end|].
    apply Htold. intros _. by apply (inv_record _ _ I key).
  - destruct (dk_table s !! key) as [a|] eqn:Ha; [|injection Es as <-; by apply Htold].
    destruct (ad_worker_active_session_id a) as [active|], (ad_worker_id a) as [w|] eqn:Ew; injection Es as <-; try by apply Htold.
    eapply inv_cancel_to; [done|done|]. apply (inv_worker _ _ I key a Ha). by rewrite Ew.
  - case_bool_decide; injection Es as <-; [by eapply inv_cancel_to|by apply Htold].
  - destruct (host_cancel _ _) as [[h r]|] eqn:E; [|done]. injection Es as <-. by eapply inv_cancel_reaches.
  - pose proof (inv_answered key id r s I Hp) as K. cbv zeta in K. destruct (String.eqb_spec (status_of r) "cancelled") as [Ec|]; [|by eapply inv_end].
    eapply inv_end; [|done]. apply inv_tell; [done|]. intros _ _. destruct Hp as [Hno Hgo]. split; [by apply (inv_noted _ _ I)|]. right. by apply Hgo.
Qed.

(** ** Every order of events *)
Lemma overtaken_retable ids f s : overtake ids (set_table f s) = set_table f (overtake ids s).
Proof. done. Qed.
Lemma under_way_in k a m w : m !! k = Some a -> ad_status a = Waiting -> ad_worker_id a = Some w -> ad_worker_admission_id a ∈ under_way m.
Proof.
  intros Ha Hs Hw. apply elem_of_list_to_set, list_elem_of_omap. exists (k, a). split; [by apply elem_of_map_to_list|]. cbn. by rewrite Hs, Hw.
Qed.
Lemma inv_disconnect s : inv s -> inv (overtake (under_way (dk_table s) ∪ noting s) (set_table cancel_all_waiting s)).
Proof.
  intros I. rewrite overtaken_retable. set (s1 := overtake _ s).
  apply (inv_retable uuid (cancel_all_waiting (dk_table s)) (fun _ => cancel_waiting)); [|intros k a Ha| |by apply inv_overtake].
  - intros k. apply lookup_fmap.
  - unfold cancel_waiting. destruct (ad_status a) eqn:Est; try apply restates_refl. split; [done|]. split; [done|]. intros Hn.
    split; [by rewrite Est|]. intros _. right. left. intros Hin. apply (inv_worker _ _ I k a Ha) in Hin.
    destruct (ad_worker_id a) as [w|] eqn:Ew; [|done]. apply Hn. cbn. apply elem_of_union_r, elem_of_union_l. by eapply under_way_in.
  - intros t k Ht. destruct k as [c key own [] | |]; try done. intros _. cbn. apply elem_of_union_r, elem_of_union_r. by eapply noting_in.
Qed.
Lemma not_ours n id : starts_with "supervisor-admission:" id = false -> W n <> id.
Proof. intros Hs <-. unfold worker_id_of in Hs. revert Hs. by cbn. Qed.
Lemma exec_inv e s s' : inv s -> exec uuid e s = Some s' -> inv s'.
Proof.
  intros I. destruct e as [c|c|t x|i|i|w e|w b|]; cbn [exec].
  - intros [= <-]. destruct (register_admission (W (dk_next_uuid s)) (pm_active_session_id c) (pm_admission_id c) (dk_table s)) as [error|m] eqn:E;
      [|by eapply inv_register]. unfold prompt_arrives. rewrite E. by apply inv_spawn.
  - intros [= <-]. by apply inv_spawn.
  - destruct (dk_tasks s !! t) as [[c key own p|c p|r]|] eqn:Ht; [by apply inv_prompt_step|by apply inv_cancel_step|done|done].
  - destruct (dk_wire s !! i) as [[[w id] [payload wait]]|] eqn:E; [|done]. intros [= <-]. by eapply inv_deliver.
  - destruct (dk_wire s !! i) as [m|] eqn:E; [|done]. intros [= <-]. by eapply inv_lose.
  - destruct (match host_event_id e with Some _ => _ | None => _ end) eqn:Eg; [|done]. intros [= <-].
    assert (Hne : forall n, host_event_id e <> Some (W n)).
    { intros n En. rewrite En in Eg. apply andb_true_iff in Eg as [Eg _]. by apply negb_true_iff, (not_ours n) in Eg. }
    apply (inv_host uuid); [|intros n; by apply step_fresh|intros n; by apply step_rid|done].
    apply step_good; [apply (inv_good _ _ I)|]. intros id Ei. rewrite Ei in Eg. by apply andb_true_iff in Eg as [_ Eg].
  - intros [= <-]. by destruct I.
  - intros [= <-]. by apply inv_disconnect.
Qed.
Lemma served_inv s : served uuid s -> inv s.
Proof. induction 1 as [|s e s' _ IH Es]; [apply inv_opened|by eapply exec_inv]. Qed.

(** What was told stays told. *)
Lemma prompt_step_told t c key own p x s s' : prompt_step t c key own p x s = Some s' -> dk_told s' = dk_told s.
Proof.
  destruct p, x; cbn [prompt_step]; intros Es; try done; repeat case_match; simplify_eq; try done.
  unfold note. by case_match.
Qed.
Lemma cancel_step_told t c p x s s' : cancel_step t c p x s = Some s' -> forall m, m ∈ dk_told s -> m ∈ dk_told s'.
Proof. destruct p, x; cbn [cancel_step]; unfold mbind, option_bind; intros Es; try done; repeat case_match; simplify_eq; cbn; intros m Hm; try done; by right. Qed.
Lemma exec_told e s s' : exec uuid e s = Some s' -> forall m, m ∈ dk_told s -> m ∈ dk_told s'.
Proof.
  destruct e as [c|c|t x|i|i|w e|w b|]; cbn [exec]; intros Es m Hm.
  - injection Es as <-. unfold prompt_arrives. by case_match.
  - by injection Es as <-.
  - destruct (dk_tasks s !! t) as [[c key own p|c p|r]|]; [by rewrite (prompt_step_told _ _ _ _ _ _ _ _ Es)|by eapply cancel_step_told|done|done].
  - destruct (dk_wire s !! i) as [[[w id] [payload wait]]|]; [by injection Es as <-|done].
  - destruct (dk_wire s !! i); [by injection Es as <-|done].
  - destruct (match host_event_id e with Some _ => _ | None => _ end); [by injection Es as <-|done].
  - by injection Es as <-.
  - by injection Es as <-.
Qed.
Lemma run_told es s s' : run_desk uuid es s = Some s' -> forall m, m ∈ dk_told s -> m ∈ dk_told s'.
Proof.
  revert s. induction es as [|e es IH]; intros s; cbn; [by intros [= <-]|]. destruct (exec uuid e s) as [s1|] eqn:E; [|done].
  intros Hr m Hm. eapply IH; [exact Hr|]. by eapply exec_told.
Qed.
Lemma run_served es s s' : served uuid s -> run_desk uuid es s = Some s' -> served uuid s'.
Proof.
  revert s. induction es as [|e es IH]; intros s Hs; cbn; [by intros [= <-]|]. destruct (exec uuid e s) as [s1|] eqn:E; [|done].
  apply IH. by eapply served_step.
Qed.
Lemma safe_absent s id w : inv s -> safe uuid s id -> host_carries id (host_of s w) = false.
Proof.
  intros I [(n & _ & ->) [[Hno _]|(_ & _ & Hr)]]; [|by apply rid_absent]. apply rid_absent, fresh_rid, (inv_unheard _ _ I). left.
  intros Hin. by apply Hno, (inv_sent _ _ I).
Qed.

(** No prompt is handed to the generic route, which forgets its admission. *)
Definition routed (m : gmap nat Task) : Prop := forall t, m !! t <> Some (Ended None).
Lemma routed_insert m t k : routed m -> k <> Ended None -> routed (<[t := k]> m).
Proof. intros Hm Hk t'. destruct (decide (t' = t)) as [->|Hne]; [rewrite lookup_insert_eq; congruence|by rewrite lookup_insert_ne]. Qed.
Lemma prompt_step_routed t c key own p x s s' :
  is_Some (dk_table s !! key) -> routed (dk_tasks s) -> prompt_step t c key own p x s = Some s' -> routed (dk_tasks s').
Proof.
  intros [a Ha] Hr. destruct p, x; cbn [prompt_step]; rewrite ?Ha; intros Es; try done;
    repeat case_match; simplify_eq; try (by apply routed_insert). unfold note. rewrite Ha. by apply routed_insert.
Qed.
Lemma cancel_step_routed t c p x s s' : routed (dk_tasks s) -> cancel_step t c p x s = Some s' -> routed (dk_tasks s').
Proof. intros Hr. destruct p, x; cbn [cancel_step]; unfold mbind, option_bind; intros Es; try done; repeat case_match; simplify_eq; by apply routed_insert. Qed.
Lemma exec_routed e s s' : inv s -> routed (dk_tasks s) -> exec uuid e s = Some s' -> routed (dk_tasks s').
Proof.
  intros I Hr. destruct e as [c|c|t x|i|i|w e|w b|]; cbn [exec]; intros Es.
  - injection Es as <-. unfold prompt_arrives. case_match; by apply routed_insert.
  - injection Es as <-. by apply routed_insert.
  - destruct (dk_tasks s !! t) as [[c key own p|c p|r]|] eqn:Ht; [|by eapply cancel_step_routed|done|done].
    destruct (inv_tasks _ _ I _ _ Ht) as [(a & Ha & _) _]. by eapply prompt_step_routed.
  - destruct (dk_wire s !! i) as [[[w id] [payload wait]]|]; [by injection Es as <-|done].
  - destruct (dk_wire s !! i); [by injection Es as <-|done].
  - destruct (match host_event_id e with Some _ => _ | None => _ end); [by injection Es as <-|done].
  - by injection Es as <-.
  - by injection Es as <-.
Qed.
Lemma served_routed s : served uuid s -> routed (dk_tasks s).
Proof. induction 1 as [|s e s' Hs IH Es]; [done|]. eapply exec_routed; [by apply (served_inv)|done|done]. Qed.

(** C7: A client that was told "cancelled", from the record or by the worker, can
    rely on it: whatever happens next on the connection, on the wire and in the
    workers, no lane and no turn of any worker ever carries its prompt (unless
    the cancellation was overtaken: it came when the prompt had passed its last
    check, or the connection closed on a prompt already under way). *)
Theorem cancelled_admission_never_delivered s es s' id g w :
  served uuid s -> (id, g) ∈ dk_told s -> g <> Guessed -> run_desk uuid es s = Some s' -> id ∉ dk_overtaken s' ->
  host_carries id (host_of s' w) = false.
Proof.
  intros Hs Hin Hg Hr Hn. pose proof (served_inv s' (run_served _ _ _ Hs Hr)) as I. apply safe_absent; [done|].
  apply (inv_told _ _ I id g); [by eapply run_told|done|done].
Qed.
(** C26: On a connection every prompt under way keeps its own record and no other
    prompt has its id; it is never routed without its admission; it is on the
    wire at most once and in one worker at most. *)
Theorem admissions_kept s :
  served uuid s ->
  (forall t c key own p, dk_tasks s !! t = Some (PromptTask c key own p) ->
     (exists a, dk_table s !! key = Some a /\ ad_worker_admission_id a = own)
     /\ forall t' c' key' p', dk_tasks s !! t' = Some (PromptTask c' key' own p') -> t' = t)
  /\ (forall t, dk_tasks s !! t <> Some (Ended None))
  /\ NoDup (wire_ids s)
  /\ (forall n w w', w <> w' -> host_carries (W n) (host_of s w) = true -> host_carries (W n) (host_of s w') = false).
Proof.
  intros Hs. pose proof (served_inv s Hs) as I. split; [|split; [by apply served_routed|split; [apply (inv_wire _ _ I)|]]].
  - intros t c key own p Ht. split; [apply (inv_tasks _ _ I _ _ Ht)|]. intros t' c' key' p' Ht'. apply (inv_own _ _ I t' t key' key own); by eexists _, _.
  - intros n w w' Hne Hc. destruct (inv_once _ _ I n w w' Hne) as [Hf|Hf]; apply fresh_rid, rid_absent in Hf; [congruence|done].
Qed.
End Desk.
