(* ===== verification/AdmissionWorker.v ===== *)
(** * A session worker behind the supervisor

    [QueueWorker] keeps the promise of [PromptHostOk], so what holds of the
    admissions holds of the whole: supervisor, wire and workers, with restarts
    of the workers from their journals.  Then concrete connections, and what
    the model showed. *)
From S2P Require Import Prelude RustStr Lines Json Time World LedgerReplay LedgerFile LedgerSim Effects Protocol Slash Journal JournalProofs JournalTheorems JournalLives Lease Revival Recovery LeaseAlone Queue QueueWorker QueueProofs QueueRecord QueueDurable QueueAdmission QueueTheorems Admission AdmissionProofs AdmissionTheorems.
#[local] Open Scope string_scope.

(** What happens to a worker: a step of its own, or a restart that brings back
    the queue of the journal. *)
Inductive WorkerLife :=
| Lives (e : QEvent)
| Restarts (j : WorkerRecoveryJournal) (active session : string) (file : option string) (steering_mode follow_up_mode : string) (h : JHost).

Section Worker.
Context `{Env} (sc : JScene) (h0 : JHost).
Definition restarted (j : WorkerRecoveryJournal) (active session : string) (file : option string) (sm fm : string) (h : JHost) : WorkerState :=
  created_worker (created_core active session file sm fm (restore_queue_snapshot j active)) h.
Definition live_worker (l : WorkerLife) (s : WorkerState) : WorkerState :=
  match l with Lives e => qstep sc e s | Restarts j active session file sm fm h => restarted j active session file sm fm h end.
Definition life_id (l : WorkerLife) : option string := match l with Lives e => prompt_id e | Restarts _ _ _ _ _ _ _ => None end.
Definition fresh_id (id : string) (s : WorkerState) : bool := bool_decide (ws_admissions s !! id = None) && bool_decide (id ∉ ids s).
#[local] Instance worker_host : PromptHost := {|
  host := WorkerState; host_event := WorkerLife;
  host_start := created_worker (created_core "" "" None "one-at-a-time" "one-at-a-time" ([], [])) h0;
  host_step := live_worker; host_event_id := life_id;
  host_prompt payload wait := qstep sc (Prompt payload wait);
  host_cancel payload s := if ws_dead s then None else Some (handle_cancel_prompt_admission payload s);
  host_fresh := fresh_id;
  host_carries id s := bool_decide (id ∈ item_ids s)
|}.

Lemma restored_ids rs : ids_of (map restored_item rs) = [].
Proof. by induction rs. Qed.
Lemma restarted_ids j active session file sm fm h : ids (restarted j active session file sm fm h) = [].
Proof.
  unfold restarted, restore_queue_snapshot, ids, item_ids. destruct (latest_queue_snapshot j active) as [[st fu]|]; [|done].
  unfold queue. cbn. by rewrite ids_app, !restored_ids.
Qed.
Lemma fresh_spec id s : fresh_id id s = true <-> ws_admissions s !! id = None /\ id ∉ ids s.
Proof. unfold fresh_id. by rewrite andb_true_iff, !bool_decide_eq_true. Qed.
Lemma fresh_absent id s : fresh_id id s = true -> absent id s.
Proof. intros [Hn Hi]%fresh_spec. split; [done|]. intros Hin. apply Hi. unfold ids. by apply elem_of_app; left. Qed.
Lemma idle_good s : ids s = [] -> owned_items s /\ NoDup (ids s).
Proof.
  intros E. rewrite E. split; [|apply NoDup_nil_2]. intros id Hid. assert (id ∈ ids s) as Hx by (apply elem_of_app; by left).
  rewrite E in Hx. by apply elem_of_nil in Hx.
Qed.
Lemma idle_fresh id s : ids s = [] -> ws_admissions s = ∅ -> fresh_id id s = true.
Proof. intros E Em. apply fresh_spec. rewrite E, Em. split; [done|apply not_elem_of_nil]. Qed.
Lemma qstep_good e s :
  owned_items s /\ NoDup (ids s) -> (forall id, prompt_id e = Some id -> fresh_id id s = true) -> owned_items (qstep sc e s) /\ NoDup (ids (qstep sc e s)).
Proof.
  intros [Ho Hn] Hf. assert (Hi : forall id, prompt_id e = Some id -> id ∉ ids s) by (intros id E; by apply Hf, fresh_spec in E as [_ ?]).
  split; [by apply step_owned|]. eapply nodup_sub; [apply step_ids|]. destruct (prompt_id e) as [id|]; [|done]. apply NoDup_cons. split; [by apply Hi|done].
Qed.
Lemma qstep_fresh e s id : prompt_id e <> Some id -> fresh_id id s = true -> fresh_id id (qstep sc e s) = true.
Proof.
  intros Hp Hf. pose proof (fresh_absent _ _ Hf) as Ha. apply fresh_spec. split; [by apply (step_absent sc e)|].
  apply fresh_spec in Hf as [_ Hf]. intros Hin. eapply elem_of_submseteq in Hin; [|apply step_ids].
  apply elem_of_app in Hin as [Hin|Hin]; [|done]. destruct (prompt_id e); [|by apply elem_of_nil in Hin]. by apply list_elem_of_singleton in Hin as ->.
Qed.
Lemma prompt_id_of payload wait id : prompt_id (Prompt payload wait) = Some id -> get_str "admissionId" payload = Some id.
Proof. cbn. destruct (get_str _ _) as [x|]; [|done]. by destruct (is_empty x). Qed.
Lemma cancel_as_step payload s h' r :
  host_cancel payload s = Some (h', r) -> qstep sc (CancelAdmission payload) s = h' /\ handle_cancel_prompt_admission payload s = (h', r).
Proof. cbn. unfold qstep. destruct (ws_dead s); [done|]. intros [= E]. by rewrite E. Qed.
(** Only an admission that waits, or was cancelled before, is reported so. *)
Lemma cancel_reply payload s h' r :
  handle_cancel_prompt_admission payload s = (h', r) -> status_of r = "cancelled" ->
  let id := default "" (get_str "admissionId" payload) in
  dr_data r = Some (VObject [("status", VString "cancelled")]) /\ (ws_admissions s !! id = Some Waiting \/ ws_admissions s !! id = Some CancelledAdmission).
Proof.
  unfold handle_cancel_prompt_admission, when_created. destruct (require_created _ _) as [r'|] eqn:Er.
  { intros [= <- <-]. unfold require_created in Er. repeat case_match; by simplify_eq. }
  cbv zeta. set (id := default "" (get_str "admissionId" payload)).
  destruct (cancel_cases id (ws_admissions s)) as [[Em ->]|[[Em ->]|(Em & Est & _)]]; [by intros [= <- <-]|by intros [= <- <-]|].
  destruct (cancel_admission id (ws_admissions s)) as [status adm]. cbn in Est. subst status. intros [= <- <-]. done.
Qed.
#[local] Instance worker_host_ok : PromptHostOk.
Proof.
  refine (@Build_PromptHostOk worker_host (fun s => owned_items s /\ NoDup (ids s)) absent _ _ fresh_absent _ _ _ _ _ _ _ _ _ _ _).
  - by apply idle_good.
  - intros id. by apply idle_fresh.
  - intros id s [_ Hi]. by apply bool_decide_eq_false.
  - intros [e|j active session file sm fm h] s Hs Hf; cbn; [by apply qstep_good|]. by apply idle_good, restarted_ids.
  - intros [e|j active session file sm fm h] s id Hne Hf; cbn; [by apply qstep_fresh|]. by apply idle_fresh; [apply restarted_ids|].
  - intros [e|j active session file sm fm h] s id Hne Ha; cbn; [by apply step_absent|]. apply fresh_absent, idle_fresh; [apply restarted_ids|done].
  - intros payload wait s id Hp Hf Hs. apply qstep_good; [done|]. intros id' E%prompt_id_of. by assert (id' = id) as -> by congruence.
  - intros payload wait s id Hp Hf. apply qstep_fresh; [|done]. by intros E%prompt_id_of.
  - intros payload wait s id Hp Ha. apply step_absent; [|done]. by intros E%prompt_id_of.
  - intros payload s h' r [<- _]%cancel_as_step Hs. by apply qstep_good.
  - intros payload s h' r id [<- _]%cancel_as_step Hs. by apply qstep_fresh.
  - intros payload s h' r id [<- _]%cancel_as_step Ha. by apply step_absent.
  - intros payload s h' r id [_ E]%cancel_as_step Hp [Ho Hn] Hst. destruct (cancel_reply _ _ _ _ E Hst) as [Hd Hm]. rewrite Hp in Hm. cbn in Hm. split.
    + apply not_true_iff_false. intros [Hx _]%fresh_spec. destruct Hm; congruence.
    + pose proof (reply_cancelled payload s) as Hr. cbv zeta in Hr. rewrite E, Hp in Hr. cbn in Hr. apply Hr; [done|destruct Hm; congruence|].
      intros Hin. assert (ws_admissions s !! id = Some Owned) by (apply Ho; unfold item_ids; set_solver). destruct Hm; congruence.
Qed.
End Worker.

(** ** Connections *)
#[local] Instance desk_host : PromptHost := worker_host calm opened.
#[local] Instance desk_host_ok : PromptHostOk := worker_host_ok calm opened.
Definition numbers (n : nat) : string := show_Z (Z.of_nat n).
#[local] Instance numbers_ok : UuidOk numbers := {| uuid_inj := show_nat_inj |}.
Abbreviation first_id := (worker_id_of numbers 0).
Definition hello : PromptCmd :=
  mkPromptCmd "r1" "prompt" "a" "p1" [("type", VString "prompt"); ("message", VString "hello"); ("admissionId", VString "p1")] false.
Definition stop : CancelCmd := mkCancelCmd "r2" "cancel_prompt_admission" "a" "p1" false.
Definition ticks (t n : nat) : list event := repeat (Go t Tick) n.
Definition resolved : list event := (Resident "a" true :: PromptArrives hello :: ticks 0 3 ++ [Go 0 (Resolved "a")])%list.
Definition reached : list event := (ticks 0 3 ++ [Deliver 0])%list.
Definition runs (es : list event) (s : Desk) : Desk := default s (run_desk numbers es s).
Definition goes (es : list event) (s : Desk) : bool := match run_desk numbers es s with Some _ => true | None => false end.
Lemma goes_runs es s : goes es s = true -> run_desk numbers es s = Some (runs es s).
Proof. unfold goes, runs. by destruct (run_desk numbers es s). Qed.
Lemma runs_served es : goes es new_connection = true -> served numbers (runs es new_connection).
Proof. intros E%goes_runs. eapply run_served; [apply served_new|exact E]. Qed.

(** The prompt has reached the worker, which has not queued it yet, when the
    cancellation does. *)
Definition cancelled_in_worker : list event := (resolved ++ reached ++ CancelArrives stop :: ticks 1 7)%list.
Definition worker_goes_on : list event := [HostStep "a" (Lives (Proceed 0)); HostStep "a" (Lives Pickup)].
Lemma cancelled_admission_never_delivered_witness :
  dk_told (runs cancelled_in_worker new_connection) = [(first_id, FromWorker)]
  /\ host_carries first_id (host_of (runs worker_goes_on (runs cancelled_in_worker new_connection)) "a") = false.
Proof.
  assert (E : dk_told (runs cancelled_in_worker new_connection) = [(first_id, FromWorker)]) by (vm_compute; reflexivity).
  split; [exact E|].
  apply (cancelled_admission_never_delivered numbers (runs cancelled_in_worker new_connection) worker_goes_on _ first_id FromWorker "a").
  - apply runs_served. vm_compute. reflexivity.
  - rewrite E. left.
  - discriminate.
  - apply goes_runs. vm_compute. reflexivity.
  - apply (bool_decide_eq_true_1 _). vm_compute. reflexivity.
Defined.
Lemma admissions_kept_witness :
  let s := runs (resolved ++ reached ++ [HostStep "a" (Lives (Proceed 0))]) new_connection in
  host_carries first_id (host_of s "a") = true /\ host_carries first_id (host_of s "b") = false.
Proof.
  cbv zeta. set (s := runs _ new_connection).
  assert (E : host_carries first_id (host_of s "a") = true) by (vm_compute; reflexivity). split; [exact E|].
  destruct (admissions_kept numbers s) as (_ & _ & _ & Hone); [apply runs_served; vm_compute; reflexivity|].
  apply (Hone 0%nat "a" "b"); [discriminate|exact E].
Defined.

(** ** What the model showed *)
(** A cancellation between the last check and the note of the worker is
    answered "cancelled", and the prompt goes out all the same. *)
Theorem cancelled_between_check_and_note :
  let s := runs (resolved ++ Go 0 Tick :: CancelArrives stop :: ticks 1 3 ++ ticks 0 2 ++ [Deliver 0; HostStep "a" (Lives (Proceed 0))]) new_connection in
  dk_tasks s !! 1%nat = Some (Ended (Some (admission_status "r2" "cancel_prompt_admission" "cancelled")))
  /\ host_carries first_id (host_of s "a") = true.
Proof. split; vm_compute; reflexivity. Qed.
(** A prompt that is accepted between the two reads of a cancellation is
    reported cancelled, and runs. *)
Theorem accepted_prompt_reported_cancelled :
  let accepted := response_success None "prompt" None in
  let s := runs (resolved ++ reached ++ HostStep "a" (Lives (Proceed 0)) :: CancelArrives stop :: ticks 1 3
                 ++ Go 0 (Answered accepted) :: ticks 0 2 ++ ticks 1 1)%list new_connection in
  dk_tasks s !! 0%nat = Some (Ended (Some (with_id "r1" accepted)))
  /\ dk_tasks s !! 1%nat = Some (Ended (Some (admission_status "r2" "cancel_prompt_admission" "cancelled")))
  /\ host_carries first_id (host_of s "a") = true.
Proof. repeat split; vm_compute; reflexivity. Qed.
(** A prompt that was refused keeps its admission: its retry is "already in
    use". *)
Theorem refused_prompt_keeps_its_id :
  let s := runs [PromptArrives hello; Go 0 (Refused "Supervisor is updating" None); PromptArrives hello] new_connection in
  dk_tasks s !! 1%nat = Some (Ended (Some (response_failure (Some "r1") "parse" "Prompt admission id is already in use: p1" None))).
Proof. vm_compute. reflexivity. Qed.
(** A worker's answer about one prompt is written on the record of the next
    prompt with the same admission id, which then fails as cancelled. *)
Theorem late_status_cancels_the_next_prompt :
  let refused := response_failure None "prompt" CANCELLED None in
  let s := runs (resolved ++ reached ++ CancelArrives stop :: ticks 1 6 ++ Go 0 (Answered refused) :: ticks 0 2
                 ++ PromptArrives hello :: ticks 1 1 ++ ticks 2 2)%list new_connection in
  dk_tasks s !! 2%nat = Some (Ended (Some (admission_failure "r1" "prompt" CANCELLED))).
Proof. vm_compute. reflexivity. Qed.
(** A disconnect cancels the records of the prompts that wait, but a prompt
    that has reached its worker does not fail with them: it runs. *)
Theorem disconnected_prompt_runs :
  let s := runs (resolved ++ reached ++ [Disconnect; HostStep "a" (Lives (Proceed 0))]) new_connection in
  ad_status <$> dk_table s !! prompt_admission_key "a" "p1" = Some CancelledAdmission /\ host_carries first_id (host_of s "a") = true.
Proof. split; vm_compute; reflexivity. Qed.
