(* ===== verification/Profile.v ===== *)
(** * Review profiles ([crates/pa-daemon/src/big_brother/profile.rs])

    The operator's configuration of one watched repository: its schema and
    validation, the directory that keys a repository, and the loader. *)
From S2P Require Import Prelude RustStr Json Time World.
#[local] Open Scope string_scope.
#[local] Open Scope Z_scope.

Definition PROFILE_VERSION : Z := 1.
Definition DEFAULT_ATTEMPT_TIMEOUT_SECONDS : Z := 1800.
Definition DEFAULT_MAX_ATTEMPTS : Z := 3.

Record ReviewLayer := mkLayer { layer_name : string; layer_model_sel : string }.

Record ReviewProfile := mkProfile {
  p_version : Z;
  p_session_name : string;
  p_main_model : option string;
  p_layers : list ReviewLayer;
  p_attempt_timeout_seconds : option Z;
  p_max_attempts : option Z
}.

Inductive ProfileError :=
| PUnsupportedVersion (found : Z)
| PInvalid (at_path : path) (reason : string)
| PUnreadable (at_path : path) (source : io_error)
| PMalformed (at_path : path) (source : string).

(** The [#[error]] attributes. *)
Definition profile_error_display (e : ProfileError) : string :=
  match e with
  | PUnsupportedVersion found =>
      "unsupported review profile version " ++ show_Z found ++ " (expected "
        ++ show_Z PROFILE_VERSION ++ ")"
  | PInvalid p reason => "invalid review profile at " ++ path_display p ++ ": " ++ reason
  | PUnreadable p source =>
      "unreadable review profile at " ++ path_display p ++ ": " ++ io_error_text source
  | PMalformed p source => "malformed review profile at " ++ path_display p ++ ": " ++ source
  end.

(** ** Methods *)
(** [ReviewProfile::layer_model]. *)
Definition layer_model (p : ReviewProfile) (layer : string) : option string :=
  layer_model_sel <$> find_first (fun c => String.eqb (layer_name c) layer) (p_layers p).

(** [ReviewProfile::attempt_timeout], in milliseconds. *)
Definition attempt_timeout (p : ReviewProfile) : Z :=
  default DEFAULT_ATTEMPT_TIMEOUT_SECONDS (p_attempt_timeout_seconds p) * 1000.

(** [ReviewProfile::max_attempts]. *)
Definition max_attempts (p : ReviewProfile) : Z :=
  default DEFAULT_MAX_ATTEMPTS (p_max_attempts p).

(** The per-layer loop of [validate], with the set of names seen so far. *)
Fixpoint validate_layers (at_path : path) (seen : gset string) (layers : list ReviewLayer)
    : ProfileError + unit :=
  match layers with
  | [] => inr tt
  | layer :: rest =>
      if is_blank (layer_name layer) then
        inl (PInvalid at_path "layer names must not be empty")
      else if decide (layer_name layer ∈ seen) then
        inl (PInvalid at_path ("duplicate review layer " ++ dquote ++ layer_name layer ++ dquote))
      else if is_blank (layer_model_sel layer) then
        inl (PInvalid at_path
               ("review layer " ++ dquote ++ layer_name layer ++ dquote ++ " must name a model"))
      else validate_layers at_path ({[layer_name layer]} ∪ seen) rest
  end.

(** [ReviewProfile::validate]. *)
Definition validate (p : ReviewProfile) (at_path : path) : ProfileError + unit :=
  if negb (p_version p =? PROFILE_VERSION) then inl (PUnsupportedVersion (p_version p))
  else if is_blank (p_session_name p) then
    inl (PInvalid at_path "sessionName must not be empty")
  else if match p_layers p with [] => true | _ => false end then
    inl (PInvalid at_path "layers must contain at least one review layer")
  else if decide (p_attempt_timeout_seconds p = Some 0) then
    inl (PInvalid at_path "attemptTimeoutSeconds must be greater than zero")
  else if decide (p_max_attempts p = Some 0) then
    inl (PInvalid at_path "maxAttempts must be at least 1")
  else validate_layers at_path ∅ (p_layers p).

(** ** The repository-keyed directory *)

(** The loop shared by [repo_slug] and [sanitize_branch]: letters and digits
    go through [f], every other run becomes one dash. *)
Fixpoint collapse (f : ascii -> ascii) (in_separator_run : bool) (s : string) : string :=
  match s with
  | EmptyString => ""
  | String c s' =>
      if is_ascii_alphanumeric c then String (f c) (collapse f false s')
      else if in_separator_run then collapse f true s'
      else String "-" (collapse f true s')
  end.

(** [repo_slug]. *)
Definition repo_slug (git_root : path) : string :=
  trim_matches "-" (collapse to_ascii_lowercase false (path_display git_root)).

(** [repo_dir] and [profile_path]. *)
Definition repo_dir (agent_dir git_root : path) : path :=
  join (join (join agent_dir "big-brother") "repos") (repo_slug git_root).
Definition profile_path (agent_dir git_root : path) : path :=
  join (repo_dir agent_dir git_root) "profile.json".

(** ** Codecs *)
#[export] Instance layer_codec : Codec ReviewLayer := {
  encode l := VObject [("name", VString (layer_name l)); ("model", VString (layer_model_sel l))];
  decode v :=
    ms ← object_members v;
    n ← required as_str "name" ms;
    m ← required as_str "model" ms;
    Some (mkLayer n m)
}.

Definition encode_opt_u32 (o : option Z) : Value :=
  match o with Some n => VNumber n | None => VNull end.
Definition decode_opt_u32 (v : Value) : option (option Z) :=
  match v with VNull => Some None | _ => Some <$> decode_u32 v end.

#[export] Instance profile_codec : Codec ReviewProfile := {
  encode p := VObject [
    ("version", VNumber (p_version p));
    ("sessionName", VString (p_session_name p));
    ("mainModel", encode (p_main_model p));
    ("layers", encode (p_layers p));
    ("attemptTimeoutSeconds", encode_opt_u32 (p_attempt_timeout_seconds p));
    ("maxAttempts", encode_opt_u32 (p_max_attempts p))];
  decode v :=
    ms ← object_members v;
    ver ← required decode_u32 "version" ms;
    sn ← required as_str "sessionName" ms;
    mm ← defaulted None decode "mainModel" ms;
    ls ← required decode "layers" ms;
    ats ← defaulted None decode_opt_u32 "attemptTimeoutSeconds" ms;
    ma ← defaulted None decode_opt_u32 "maxAttempts" ms;
    Some (mkProfile ver sn mm ls ats ma)
}.

(** ** Loading *)
Section Loading.
Context `{Env}.

(** [find_git_repo_root] ([crates/pa-core/src/packages/resolve/discovery.rs]):
    the nearest ancestor with a [.git]; [fuel] bounds the walk by the number
    of components. *)
Fixpoint find_git_repo_root_fuel {E} (fuel : nat) (dir : path) : M E (option path) :=
  let* here := fs_exists (join dir ".git") in
  if here then ret (Some dir)
  else match fuel, parent dir with
       | S f, Some up => if decide (up = dir) then ret None else find_git_repo_root_fuel f up
       | _, _ => ret None
       end.
Definition find_git_repo_root {E} (start_dir : path) : M E (option path) :=
  find_git_repo_root_fuel (List.length start_dir) start_dir.

(** [load_profile_at]. *)
Definition load_profile_at (p : path) : M ProfileError (option ReviewProfile) :=
  let* r := attempt (fs_read p) in
  match r with
  | inl e => if decide (io_error_kind e = NotFound) then ret None else throw (PUnreadable p e)
  | inr bytes =>
      let* v := lift (match from_slice bytes with inl e => inl (PMalformed p e) | inr v => inr v end) in
      let* profile := lift (match decode v with
                            | Some x => inr x
                            | None => inl (PMalformed p (schema_error_text v))
                            end) in
      do* lift (validate profile p) in
      ret (Some profile)
  end.

(** [resolve_profile]. *)
Definition resolve_profile (agent_dir cwd : path) : M ProfileError (option ReviewProfile) :=
  let* root := find_git_repo_root cwd in
  match root with
  | None => ret None
  | Some git_root => load_profile_at (profile_path agent_dir git_root)
  end.
End Loading.
