(* ===== verification/ProfileProofs.v ===== *)
(** * Review profiles: theorems

    Validation decides well-formedness, a profile survives its file, and a
    repository's directory name is one plain path component. *)
From S2P Require Import Prelude RustStr Json Time World Sim Profile.
#[local] Open Scope string_scope.
#[local] Open Scope Z_scope.

(** ** Slugs *)

(** The bytes of a slug. *)
Definition slug_char (c : ascii) : bool := is_ascii_alphanumeric c || Ascii.eqb "-" c.

(** The words of a text: its maximal runs of letters and digits, each byte
    mapped by [f]. *)
Fixpoint pieces (f : ascii -> ascii) (s : string) : list string :=
  match s with
  | EmptyString => [""]
  | String c s' =>
      if is_ascii_alphanumeric c then
        match pieces f s' with
        | p :: ps => String (f c) p :: ps
        | [] => [String (f c) ""]
        end
      else "" :: pieces f s'
  end.
Definition words (f : ascii -> ascii) (s : string) : list string :=
  List.filter (fun p => negb (is_empty p)) (pieces f s).

Lemma str_forall_trim_start p c s :
  str_forall p s = true -> str_forall p (trim_start_matches c s) = true.
Proof.
  induction s as [|d s IH]; cbn; [done|]. destruct (Ascii.eqb c d); [|done].
  intros [_ Hs]%andb_true_iff. by apply IH.
Qed.
Lemma str_forall_trim_matches p c s :
  str_forall p s = true -> str_forall p (trim_matches c s) = true.
Proof.
  intros Hs. unfold trim_matches, trim_end_matches.
  rewrite str_forall_rev. apply str_forall_trim_start. rewrite str_forall_rev.
  by apply str_forall_trim_start.
Qed.

Lemma alnum_lowercase c :
  is_ascii_alphanumeric c = true -> is_ascii_alphanumeric (to_ascii_lowercase c) = true.
Proof. destruct c as [[][][][][][][][]]; vm_compute; done. Qed.
Lemma alnum_not_dash c : is_ascii_alphanumeric c = true -> Ascii.eqb "-" c = false.
Proof. destruct c as [[][][][][][][][]]; vm_compute; done. Qed.

Section Collapse.
Context (f : ascii -> ascii).
Hypothesis f_alnum : forall c, is_ascii_alphanumeric c = true -> is_ascii_alphanumeric (f c) = true.

Lemma collapse_chars b s : str_forall slug_char (collapse f b s) = true.
Proof.
  revert b. induction s as [|c s IH]; intros b; cbn; [done|].
  destruct (is_ascii_alphanumeric c) eqn:Hc; [|destruct b]; cbn; rewrite ?IH; [|done..].
  unfold slug_char. by rewrite f_alnum.
Qed.

Lemma pieces_cons s : exists p ps, pieces f s = p :: ps.
Proof.
  destruct s as [|c s]; cbn; [eauto|]. destruct (is_ascii_alphanumeric c); [|eauto].
  destruct (pieces f s); eauto.
Qed.
Lemma words_sep c s : is_ascii_alphanumeric c = false -> words f (String c s) = words f s.
Proof. intros Hc. unfold words. cbn [pieces]. by rewrite Hc. Qed.
Lemma words_end c : is_ascii_alphanumeric c = true -> words f (String c "") = [String (f c) ""].
Proof. intros Hc. unfold words. cbn [pieces]. by rewrite Hc. Qed.
Lemma words_alnum_sep c d s :
  is_ascii_alphanumeric c = true -> is_ascii_alphanumeric d = false ->
  words f (String c (String d s)) = String (f c) "" :: words f s.
Proof. intros Hc Hd. unfold words. cbn [pieces]. by rewrite Hc, Hd. Qed.
Lemma words_alnum2 c d s :
  is_ascii_alphanumeric c = true -> is_ascii_alphanumeric d = true ->
  exists w ws, words f (String d s) = w :: ws /\ words f (String c (String d s)) = String (f c) w :: ws.
Proof.
  intros Hc Hd. unfold words. cbn [pieces]. rewrite Hc, Hd.
  destruct (pieces_cons s) as (p & ps & ->). cbn. eauto.
Qed.

Lemma collapse_alnum b c s :
  is_ascii_alphanumeric c = true -> collapse f b (String c s) = String (f c) (collapse f false s).
Proof. intros Hc. cbn [collapse]. by rewrite Hc. Qed.

(** Before trimming there is at most one separator too many at the end. *)
Lemma collapse_words s : exists tail,
  collapse f true s = join_with "-" (words f s) ++ tail /\
  (tail = "" \/ tail = "-" /\ words f s <> []).
Proof.
  induction s as [s IH] using (induction_ltof1 _ String.length). unfold ltof in IH.
  destruct s as [|c s]; [by exists ""; auto|].
  destruct (is_ascii_alphanumeric c) eqn:Hc.
  2:{ rewrite words_sep by done. cbn [collapse]. rewrite Hc. apply IH. cbn. lia. }
  rewrite collapse_alnum by done. destruct s as [|d s].
  { rewrite words_end by done. exists "". auto. }
  destruct (is_ascii_alphanumeric d) eqn:Hd.
  - destruct (IH (String d s)) as (tail & Ht & Hor); [cbn; lia|].
    rewrite collapse_alnum in Ht |- * by done.
    destruct (words_alnum2 c d s Hc Hd) as (w & ws & Hw & ->). rewrite Hw in Ht, Hor.
    exists tail. split; [|naive_solver]. rewrite Ht. by destruct ws.
  - rewrite words_alnum_sep by done. cbn [collapse]. rewrite Hd.
    destruct (IH s) as (tail & -> & Hor); [cbn; lia|].
    destruct (words f s) as [|w ws].
    + exists "-". split; [|naive_solver]. destruct Hor as [->|[-> ?]]; done.
    + exists tail. split; [done|]. naive_solver.
Qed.

Definition word (w : string) : Prop := w <> "" /\ str_forall is_ascii_alphanumeric w = true.

Lemma words_word s : Forall word (words f s).
Proof.
  unfold words. apply List.Forall_forall. intros w Hw.
  apply List.filter_In in Hw as [Hin Hne]. split; [by destruct w|]. clear Hne.
  revert w Hin. induction s as [|c s IH]; cbn; [by intros w [<-|[]]|].
  destruct (is_ascii_alphanumeric c) eqn:Hc.
  - destruct (pieces f s) as [|p ps]; cbn in *; intros w [<-|Hin]; auto; cbn;
      rewrite f_alnum by done; [done|]. apply IH; auto.
  - intros w [<-|Hin]; auto.
Qed.

Lemma join_word_first ws : Forall word ws ->
  trim_start_matches "-" (join_with "-" ws) = join_with "-" ws.
Proof.
  intros Hws. destruct Hws as [|w ws [Hne Hw] Hws]; [done|].
  destruct w as [|c w]; [done|]. cbn [str_forall] in Hw.
  apply andb_true_iff in Hw as [Hc _].
  destruct ws; cbn [join_with append trim_start_matches]; by rewrite alnum_not_dash.
Qed.

Lemma word_last w : word w -> exists v c, w = v ++ String c "" /\ is_ascii_alphanumeric c = true.
Proof.
  intros [Hne Hw]. induction w as [|c w IH]; [done|]. cbn in Hw.
  apply andb_true_iff in Hw as [Hc Hw]. destruct w as [|d w].
  - by exists "", c.
  - destruct IH as (v & e & -> & He); [done|done|]. by exists (String c v), e.
Qed.
Lemma join_word_last ws : Forall word ws -> ws <> [] ->
  exists v c, join_with "-" ws = v ++ String c "" /\ is_ascii_alphanumeric c = true.
Proof.
  induction 1 as [|w ws Hw Hws IH]; [done|]. intros _. destruct ws as [|w' ws].
  - by apply word_last.
  - destruct IH as (v & c & Hv & Hc); [done|]. exists (w ++ "-" ++ v), c.
    split; [|done]. change (join_with "-" (w :: w' :: ws)) with (w ++ "-" ++ join_with "-" (w' :: ws)).
    by rewrite Hv, !str_app_assoc.
Qed.

Lemma trim_end_alnum v c t :
  is_ascii_alphanumeric c = true -> t = "" \/ t = "-" ->
  trim_end_matches "-" ((v ++ String c "") ++ t) = v ++ String c "".
Proof.
  intros Hc Ht. unfold trim_end_matches.
  assert (trim_start_matches "-" (str_rev ((v ++ String c "") ++ t)) = str_rev (v ++ String c ""))
    as ->; [|apply str_rev_involutive].
  rewrite str_rev_app_distr, str_rev_snoc.
  destruct Ht as [-> | ->].
  - change (str_rev "" ++ ?x) with x. cbn [trim_start_matches]. by rewrite alnum_not_dash.
  - change (str_rev "-" ++ ?x) with (String "-" x). cbn [trim_start_matches].
    rewrite Ascii.eqb_refl. by rewrite alnum_not_dash.
Qed.

Lemma collapse_first s : exists lead, (lead = "" \/ lead = "-") /\ collapse f false s = lead ++ collapse f true s.
Proof.
  destruct s as [|c s]; [by exists ""; auto|]. cbn [collapse].
  destruct (is_ascii_alphanumeric c); [by exists ""; auto | by exists "-"; auto].
Qed.

(** The slug of a text is its words joined by single dashes. *)
Lemma slug_words s : trim_matches "-" (collapse f false s) = join_with "-" (words f s).
Proof.
  pose proof (words_word s) as Hw. unfold trim_matches.
  destruct (collapse_words s) as (tail & Ht & Hor).
  assert (trim_start_matches "-" (collapse f true s) = collapse f true s) as Hfirst.
  { rewrite Ht. destruct (words f s) as [|w ws] eqn:E; [by destruct Hor as [->|[-> ?]]|].
    apply Forall_cons in Hw as [[Hne Ha] _]. destruct w as [|c w]; [done|].
    cbn [str_forall] in Ha. apply andb_true_iff in Ha as [Hc _].
    destruct ws; cbn [join_with append trim_start_matches]; by rewrite alnum_not_dash. }
  assert (trim_start_matches "-" (collapse f false s) = collapse f true s) as ->.
  { destruct (collapse_first s) as (lead & [-> | ->] & ->); done. }
  rewrite Ht. destruct (decide (words f s = [])) as [E|E].
  - rewrite E in Hor |- *. by destruct Hor as [->|[-> ?]].
  - destruct (join_word_last _ Hw E) as (v & c & -> & Hc). apply trim_end_alnum; naive_solver.
Qed.

(** ... and the words can be read back from it. *)
Lemma split_join_words ws : Forall word ws -> ws <> [] -> split_char "-" (join_with "-" ws) = ws.
Proof.
  induction 1 as [|w ws [_ Hw] Hws IH]; [done|]. intros _.
  assert (contains_char "-" w = false) as Hd.
  { clear -Hw. induction w as [|c w IH]; [done|]. cbn [str_forall] in Hw.
    apply andb_true_iff in Hw as [Hc Hw]. cbn [contains_char]. by rewrite alnum_not_dash, IH. }
  destruct ws as [|w' ws]; [by apply split_char_plain|].
  change (join_with "-" (w :: w' :: ws)) with (w ++ "-" ++ join_with "-" (w' :: ws)).
  rewrite <- IH at 2 by done. generalize (join_with "-" (w' :: ws)) as x. intros x. clear -Hd.
  change ("-" ++ x) with (String "-" x).
  induction w as [|c w IH]; [done|]. cbn [contains_char] in Hd.
  apply orb_false_iff in Hd as [Hc Hw]. cbn [append split_char]. by rewrite Hc, IH.
Qed.
Lemma slug_chars s : str_forall slug_char (trim_matches "-" (collapse f false s)) = true.
Proof. apply str_forall_trim_matches, collapse_chars. Qed.
End Collapse.

Lemma slug_no_slash s : str_forall slug_char s = true -> contains_char "/" s = false.
Proof.
  induction s as [|c s IH]; cbn; [done|]. intros [Hc Hs]%andb_true_iff.
  rewrite IH by done. revert Hc. by destruct c as [[][][][][][][][]]; vm_compute.
Qed.
Lemma slug_no_dot s : str_forall slug_char s = true -> contains_char "." s = false.
Proof.
  induction s as [|c s IH]; cbn; [done|]. intros [Hc Hs]%andb_true_iff.
  rewrite IH by done. revert Hc. by destruct c as [[][][][][][][][]]; vm_compute.
Qed.
Lemma slug_plain s : str_forall slug_char s = true -> s <> "" -> plain_name s = true.
Proof.
  intros Hs Hne. unfold plain_name. rewrite slug_no_slash by done.
  apply slug_no_dot in Hs. destruct (String.eqb_spec s ".") as [->|]; [done|].
  by destruct s.
Qed.

Lemma join_slug (d : path) s : str_forall slug_char s = true ->
  join d s = if is_empty s then d else (d ++ [s])%list.
Proof. intros Hs. destruct s as [|c s]; [apply app_nil_r|]. by apply join_plain, slug_plain. Qed.

Lemma repo_slug_chars git_root : str_forall slug_char (repo_slug git_root) = true.
Proof. apply slug_chars, alnum_lowercase. Qed.

Section SlugEq.
Context (f : ascii -> ascii).
Hypothesis f_alnum : forall c, is_ascii_alphanumeric c = true -> is_ascii_alphanumeric (f c) = true.

Lemma join_words_empty ws : Forall word ws -> join_with "-" ws = "" -> ws = [].
Proof.
  intros Hws Hj. destruct (decide (ws = [])) as [|Hne]; [done|].
  destruct (join_word_last _ Hws Hne) as (v & c & Hv & _). rewrite Hj in Hv. by destruct v.
Qed.

Lemma slug_eq_iff s t :
  trim_matches "-" (collapse f false s) = trim_matches "-" (collapse f false t) <->
  words f s = words f t.
Proof.
  rewrite !slug_words by done. split; [|by intros ->]. intros Heq.
  pose proof (words_word f f_alnum s) as Hs. pose proof (words_word f f_alnum t) as Ht.
  destruct (decide (words f s = [])) as [E|E].
  - rewrite E in Heq |- *. symmetry. by apply join_words_empty.
  - destruct (decide (words f t = [])) as [E'|E'].
    + rewrite E' in Heq. by rewrite (join_words_empty _ Hs Heq) in E.
    + rewrite <- (split_join_words _ Hs E), Heq. by apply split_join_words.
Qed.
End SlugEq.

(** Two repositories share one Big Brother directory exactly when the
    lower-cased letter-and-digit words of their root paths agree: the slug is
    insensitive to separators and case and to nothing else. *)
Theorem repo_slug_collision agent_dir a b :
  repo_dir agent_dir a = repo_dir agent_dir b <->
  words to_ascii_lowercase (path_display a) = words to_ascii_lowercase (path_display b).
Proof.
  rewrite <- (slug_eq_iff _ alnum_lowercase). fold (repo_slug a) (repo_slug b).
  unfold repo_dir. generalize (join (join agent_dir "big-brother") "repos") as d. intros d.
  split; [|by intros ->]. rewrite !join_slug by apply repo_slug_chars. intros Heq.
  apply (f_equal List.length) in Heq as Hlen.
  destruct (repo_slug a) as [|c s], (repo_slug b) as [|e t]; cbn [is_empty] in *; [done| | |];
    rewrite ?length_app in Hlen; cbn in Hlen; [lia|lia|].
  by apply app_inj_2 in Heq as [_ [=]]; subst.
Qed.

(** ** Validation *)
Record profile_ok (p : ReviewProfile) : Prop := {
  ok_version : p_version p = PROFILE_VERSION;
  ok_session : is_blank (p_session_name p) = false;
  ok_layers : p_layers p <> [];
  ok_timeout : p_attempt_timeout_seconds p <> Some 0;
  ok_attempts : p_max_attempts p <> Some 0;
  ok_each : Forall (fun l => is_blank (layer_name l) = false /\ is_blank (layer_model_sel l) = false)
              (p_layers p);
  ok_unique : NoDup (layer_name <$> p_layers p)
}.

Lemma validate_layers_iff at_path seen layers :
  validate_layers at_path seen layers = inr tt <->
  Forall (fun l => is_blank (layer_name l) = false /\ is_blank (layer_model_sel l) = false) layers
  /\ NoDup (layer_name <$> layers) /\ Forall (fun l => layer_name l ∉ seen) layers.
Proof.
  revert seen. induction layers as [|l layers IH]; intros seen; cbn [validate_layers].
  { split; [|done]. intros _. split_and!; [apply Forall_nil; done | apply NoDup_nil_2 | apply Forall_nil; done]. }
  rewrite fmap_cons, NoDup_cons, !Forall_cons.
  destruct (is_blank (layer_name l)); [naive_solver|].
  destruct (decide (layer_name l ∈ seen)); [naive_solver|].
  destruct (is_blank (layer_model_sel l)); [naive_solver|].
  rewrite IH, list_elem_of_fmap, !Forall_forall. set_solver.
Qed.

Lemma validate_iff p at_path : validate p at_path = inr tt <-> profile_ok p.
Proof.
  unfold validate. destruct (Z.eqb_spec (p_version p) PROFILE_VERSION) as [Hv|Hv]; cbn [negb].
  2:{ split; [done|]. by intros [? _]. }
  destruct (is_blank (p_session_name p)) eqn:Hs; [split; [done|by intros [_ ? _]; congruence]|].
  destruct (p_layers p) as [|l ls] eqn:Hl.
  { split; [done|]. intros [_ _ Hne]. done. }
  rewrite <- Hl. case_decide as Ht; [split; [done|by intros [_ _ _ ? _]]|].
  case_decide as Ha; [split; [done|by intros [_ _ _ _ ? _]]|].
  rewrite validate_layers_iff. split.
  - intros (He & Hu & _). constructor; try done. by rewrite Hl.
  - intros [_ _ _ _ _ He Hu]. split_and!; [done|done|]. apply Forall_forall. set_solver.
Qed.

(** [validate] accepts exactly the well-formed profiles: version 1, a
    session name, at least one layer, positive limits, every layer with a name
    and a model, no name twice. *)
Theorem validate_decides p at_path : validate p at_path = inr tt <-> profile_ok p.
Proof. apply validate_iff. Qed.

(** A validated profile gives the observer usable limits (a positive
    attempt timeout, at least one attempt) and a model for every layer it
    names, each layer its own. *)
Theorem validated_profile_usable p at_path :
  validate p at_path = inr tt ->
  (forall n, p_attempt_timeout_seconds p = Some n -> 0 <= n) ->
  (forall n, p_max_attempts p = Some n -> 0 <= n) ->
  1000 <= attempt_timeout p /\ 1 <= max_attempts p /\
  forall l, l ∈ p_layers p -> layer_model p (layer_name l) = Some (layer_model_sel l).
Proof.
  intros [_ _ _ Ht0 Hm0 _ Hu]%validate_iff Ht Hm.
  unfold attempt_timeout, max_attempts. split_and!.
  - destruct (p_attempt_timeout_seconds p) as [n|]; cbn; [|unfold DEFAULT_ATTEMPT_TIMEOUT_SECONDS; lia].
    specialize (Ht n eq_refl). assert (n <> 0) by congruence. lia.
  - destruct (p_max_attempts p) as [n|]; cbn; [|unfold DEFAULT_MAX_ATTEMPTS; lia].
    specialize (Hm n eq_refl). assert (n <> 0) by congruence. lia.
  - clear -Hu. unfold layer_model, find_first. induction (p_layers p) as [|l' ls IH].
    + intros l Hl. by apply elem_of_nil in Hl.
    + rewrite fmap_cons, NoDup_cons in Hu. destruct Hu as [Hni Hu]. intros l Hl. cbn.
      destruct (String.eqb_spec (layer_name l') (layer_name l)) as [Heq|Hne].
      * apply elem_of_cons in Hl as [->|Hl]; [done|]. destruct Hni. rewrite Heq.
        by apply list_elem_of_fmap_2.
      * apply IH; [done|]. apply elem_of_cons in Hl as [->|]; done.
Qed.

(** ** The profile file *)
#[export] Instance layer_codec_ok : CodecOk ReviewLayer.
Proof. by refine (Build_CodecOk _ _ (fun _ => True) _ _ _); [intros []|intros []|]. Defined.

Lemma codec_wf_layers (l : list ReviewLayer) : codec_wf l.
Proof. by induction l; constructor. Qed.

Definition opt_u32 (o : option Z) : Prop := match o with Some n => is_u32 n | None => True end.

Lemma decode_opt_u32_encode o : opt_u32 o -> decode_opt_u32 (encode_opt_u32 o) = Some o.
Proof. destruct o as [n|]; [|done]. intros Hn. cbn -[decode_u32]. by rewrite decode_u32_number. Qed.
Lemma decode_opt_u32_sound v o : decode_opt_u32 v = Some o -> opt_u32 o.
Proof.
  unfold decode_opt_u32. intros Hd.
  destruct v; try (simplify_eq; done); destruct (decode_u32 _) eqn:E; cbn in Hd; simplify_eq;
    by eapply decode_u32_sound.
Qed.
Lemma encode_opt_u32_representable o : opt_u32 o -> representable (encode_opt_u32 o) = true.
Proof. destruct o as [n|]; [|done]. apply u32_representable. Qed.

#[export] Instance profile_codec_ok : CodecOk ReviewProfile.
Proof.
  refine (Build_CodecOk _ _ (fun p => is_u32 (p_version p) /\ opt_u32 (p_attempt_timeout_seconds p)
                                      /\ opt_u32 (p_max_attempts p)) _ _ _).
  - intros [v sn mm ls at' ma] (Hv & Ha & Hm). cbn [p_version p_attempt_timeout_seconds p_max_attempts] in *.
    cbn [decode encode profile_codec object_members mbind option_bind].
    rewrite (required_u32 v) by done. cbn [mbind option_bind].
    rewrite (defaulted_encode mm None "mainModel") by (done || apply codec_wf_opt_string).
    rewrite (required_encode ls "layers") by (done || apply codec_wf_layers).
    unfold required, defaulted. cbn -[decode_opt_u32 encode_opt_u32].
    by rewrite !decode_opt_u32_encode.
  - intros [v sn mm ls at' ma] (Hv & Ha & Hm). cbn [p_version p_attempt_timeout_seconds p_max_attempts] in *.
    cbn [encode profile_codec representable forallb snd p_version p_session_name p_main_model
         p_layers p_attempt_timeout_seconds p_max_attempts].
    rewrite u32_representable, !encode_opt_u32_representable by done.
    rewrite (encode_representable mm) by apply codec_wf_opt_string.
    by rewrite (encode_representable ls) by apply codec_wf_layers.
  - intros v p Hv. cbn [decode profile_codec] in Hv. inv_decode Hv.
    split_and!; cbn; [field_sound|..].
    + eapply (defaulted_sound opt_u32 None decode_opt_u32); [done | apply decode_opt_u32_sound | eassumption].
    + eapply (defaulted_sound opt_u32 None decode_opt_u32); [done | apply decode_opt_u32_sound | eassumption].
Defined.

Section Load.
Context `{EnvOk}.

Lemma fs_read_quiet p w b :
  quiet w -> file_at w p = Some b -> fs_read p w = (Ok b, bump_op w).
Proof.
  intros Hq Hb. unfold fs_read. rewrite syscall_quiet by done. unfold eff_read.
  unfold file_at, file_in in Hb. destruct (w_fs w !! p) as [[c|]|]; try done.
  simplify_eq/=. by rewrite set_fs_same.
Qed.

(** A profile written to disk loads back as itself when it is well
    formed, and is refused with the reason [validate] gives otherwise. *)
Theorem load_profile_round_trip p profile b w :
  quiet w -> codec_wf profile -> to_string_pretty (encode profile) = inr b ->
  file_at w p = Some b ->
  (load_profile_at p w).1 =
    match validate profile p with inr _ => Ok (Some profile) | inl e => Err e end.
Proof.
  intros Hq Hwf Hb Hf. unfold load_profile_at, bind, attempt. rewrite (fs_read_quiet p w b) by done.
  destruct (json_text_round_trip _ (encode_representable _ Hwf)) as (b' & Hb' & Hr).
  rewrite Hb in Hb'. simplify_eq. unfold lift. rewrite Hr, (decode_encode _ Hwf).
  by destruct (validate profile p).
Qed.
End Load.
