(* ===== verification/State.v ===== *)
(** * Repository state: data ([crates/pa-daemon/src/big_brother/state.rs])

    The durable documents of one watched repository, their JSON form, the
    error type with its messages, and the pure helpers of the store. *)
From S2P Require Import Prelude RustStr Json Time World Profile.
#[local] Open Scope string_scope.
#[local] Open Scope Z_scope.

Definition STATE_VERSION : Z := 1.
Definition RECORD_VERSION : Z := 1.
(** [LOCK_STALE_AFTER], in milliseconds. *)
Definition LOCK_STALE_AFTER : Z := 10000.

(** ** Documents *)
Record ReviewRange := mkRange {
  r_base : string;
  r_head : string;
  r_admitted_at : string;
  r_attempts : Z;
  r_attempt_started_at : string
}.
Definition default_attempts : Z := 1.

Record ReviewFailure := mkFailure {
  f_base : string;
  f_head : string;
  f_attempts : Z;
  f_reason : string;
  f_failed_at : string
}.

Record ObservationFailure := mkObsFailure {
  o_kind : string;
  o_message : string;
  o_observed_at : string
}.

Record BranchState := mkBranch {
  b_cursor : option string;
  b_in_flight : option ReviewRange;
  b_last_failure : option ReviewFailure;
  b_last_observation_failure : option ObservationFailure;
  b_updated_at : string
}.
(** [BranchState::default()]. *)
Definition default_branch_state : BranchState := mkBranch None None None None "".

Record RepositoryState := mkState {
  s_version : Z;
  s_git_root : option string;
  s_branches : gmap string BranchState
}.
(** [RepositoryState::default()]. *)
Definition default_state : RepositoryState := mkState STATE_VERSION None ∅.

Record DeliveryState := mkDelivery {
  d_attempts : Z;
  d_last_attempt_at : string;
  d_last_error : option string;
  d_delivered_at : option string
}.

(** [DeliveryState::delivered]. *)
Definition delivered (d : DeliveryState) : bool :=
  match d_delivered_at d with Some _ => true | None => false end.

(** [DeliveryState::advance]. *)
Definition advance (previous : option DeliveryState) (now_iso : string) (error : option string)
    : DeliveryState :=
  mkDelivery
    (match previous with Some s => u32_saturating_add (d_attempts s) 1 | None => 1 end)
    now_iso
    error
    (match error with None => Some now_iso | Some _ => None end).

Record ReviewRecordLayer := mkRecLayer {
  rl_layer : string;
  rl_model : string;
  rl_child : option string;
  rl_answer : option string
}.

Record ReviewRecord := mkRecord {
  rec_version : Z;
  rec_branch : string;
  rec_base : string;
  rec_head : string;
  rec_attempts : Z;
  rec_completed_at : string;
  rec_layers : list ReviewRecordLayer;
  rec_conclusion : option string;
  rec_delivery : gmap string DeliveryState
}.

Inductive Admission :=
| AdmittedRange (range : ReviewRange)
| AlreadyReviewed (head : string)
| InReview (range : ReviewRange)
| Busy (in_flight : ReviewRange).

Inductive Completion :=
| Completed (range : ReviewRange) (record_path : path)
| AlreadyComplete (head : string) (record_path : path).

#[export] Instance range_eq_dec : EqDecision ReviewRange. Proof. solve_decision. Defined.
#[export] Instance failure_eq_dec : EqDecision ReviewFailure. Proof. solve_decision. Defined.
#[export] Instance obs_failure_eq_dec : EqDecision ObservationFailure. Proof. solve_decision. Defined.
#[export] Instance branch_eq_dec : EqDecision BranchState. Proof. solve_decision. Defined.
#[export] Instance delivery_eq_dec : EqDecision DeliveryState. Proof. solve_decision. Defined.
#[export] Instance rec_layer_eq_dec : EqDecision ReviewRecordLayer. Proof. solve_decision. Defined.
#[export] Instance record_eq_dec : EqDecision ReviewRecord. Proof. solve_decision. Defined.

(** ** Errors *)
Inductive StateError :=
| Unreadable (at_path : path) (source : io_error)
| MalformedState (at_path : path) (source : string)
| MalformedRecord (at_path : path) (source : string)
| UnsupportedVersion (found : Z)
| UnsupportedRecordVersion (found : Z)
| NotSeeded (branch : string)
| RangeNotInFlight (branch head : string)
| Reseed (branch cursor requested : string)
| InvalidRevision (value : string)
| StrayCompletion (branch base head : string)
| RecordBranchMismatch (at_path : path) (branch expected : string)
| RecordMissing (at_path : path) (source : io_error)
| Lock (text : string)
| Write (at_path : path) (source : io_error)
| Directory (at_path : path) (source : io_error).

Definition quoted (s : string) : string := dquote ++ s ++ dquote.

(** The [#[error]] attributes. *)
Definition state_error_display (e : StateError) : string :=
  match e with
  | Unreadable p s =>
      "repository state at " ++ path_display p ++ " is unreadable: " ++ io_error_text s
  | MalformedState p s => "malformed repository state at " ++ path_display p ++ ": " ++ s
  | MalformedRecord p s => "malformed review record at " ++ path_display p ++ ": " ++ s
  | UnsupportedVersion found =>
      "unsupported repository state version " ++ show_Z found ++ " (expected "
        ++ show_Z STATE_VERSION ++ ")"
  | UnsupportedRecordVersion found =>
      "unsupported review record version " ++ show_Z found ++ " (expected "
        ++ show_Z RECORD_VERSION ++ ")"
  | NotSeeded branch =>
      "branch " ++ quoted branch ++ " has no seeded cursor; enrollment must set the baseline"
        ++ " before a range can be admitted"
  | RangeNotInFlight branch head =>
      "branch " ++ quoted branch ++ " has no in-flight range at " ++ head
  | Reseed branch cursor requested =>
      "branch " ++ quoted branch ++ " cursor is already " ++ cursor
        ++ "; refusing to reseed to " ++ requested
  | InvalidRevision value =>
      "revision " ++ quoted value ++ " is not a git object id (40 or 64 hex characters)"
  | StrayCompletion branch base head =>
      "completion for " ++ branch ++ " " ++ base ++ ".." ++ head
        ++ " matches neither the in-flight range nor the cursor; a stray completion is never"
        ++ " silently accepted"
  | RecordBranchMismatch p branch expected =>
      "review record at " ++ path_display p ++ " claims branch " ++ quoted branch
        ++ " inside the records of " ++ quoted expected
  | RecordMissing p s =>
      "no review record at " ++ path_display p ++ " to mark delivery on: " ++ io_error_text s
  | Lock text => "failed to acquire the repository state lock: " ++ text
  | Write p s => "writing " ++ path_display p ++ " failed: " ++ io_error_text s
  | Directory p s => "creating directory " ++ path_display p ++ " failed: " ++ io_error_text s
  end.

(** ** Pure helpers *)
(** A git object id, the test of [validate_revision] and of [child_reply]. *)
Definition is_revision (value : string) : bool :=
  (Nat.eqb (len value) 40 || Nat.eqb (len value) 64) && str_forall is_ascii_hexdigit value.

(** [validate_revision]. *)
Definition validate_revision (value : string) : StateError + unit :=
  if is_revision value then inr tt else inl (InvalidRevision value).

(** [sanitize_branch]. *)
Definition sanitize_branch (branch : string) : string :=
  trim_matches "-" (collapse id false branch).

(** ** JSON *)
#[export] Instance range_codec : Codec ReviewRange := {
  encode r := VObject [
    ("base", VString (r_base r)); ("head", VString (r_head r));
    ("admittedAt", VString (r_admitted_at r)); ("attempts", VNumber (r_attempts r));
    ("attemptStartedAt", VString (r_attempt_started_at r))];
  decode v :=
    ms ← object_members v;
    base ← required as_str "base" ms;
    head ← required as_str "head" ms;
    adm ← defaulted "" as_str "admittedAt" ms;
    att ← defaulted default_attempts decode_u32 "attempts" ms;
    sta ← defaulted "" as_str "attemptStartedAt" ms;
    Some (mkRange base head adm att sta)
}.

#[export] Instance failure_codec : Codec ReviewFailure := {
  encode f := VObject [
    ("base", VString (f_base f)); ("head", VString (f_head f));
    ("attempts", VNumber (f_attempts f)); ("reason", VString (f_reason f));
    ("failedAt", VString (f_failed_at f))];
  decode v :=
    ms ← object_members v;
    base ← required as_str "base" ms;
    head ← required as_str "head" ms;
    att ← required decode_u32 "attempts" ms;
    reason ← required as_str "reason" ms;
    failed ← required as_str "failedAt" ms;
    Some (mkFailure base head att reason failed)
}.

#[export] Instance obs_failure_codec : Codec ObservationFailure := {
  encode o := VObject [
    ("kind", VString (o_kind o)); ("message", VString (o_message o));
    ("observedAt", VString (o_observed_at o))];
  decode v :=
    ms ← object_members v;
    kind ← required as_str "kind" ms;
    message ← required as_str "message" ms;
    observed ← required as_str "observedAt" ms;
    Some (mkObsFailure kind message observed)
}.

#[export] Instance branch_codec : Codec BranchState := {
  encode b := VObject (
    [("cursor", encode (b_cursor b)); ("inFlight", encode (b_in_flight b))]
    ++ opt_member "lastFailure" (b_last_failure b)
    ++ opt_member "lastObservationFailure" (b_last_observation_failure b)
    ++ [("updatedAt", VString (b_updated_at b))])%list;
  decode v :=
    ms ← object_members v;
    cursor ← defaulted None decode "cursor" ms;
    fl ← defaulted None decode "inFlight" ms;
    lf ← defaulted None decode "lastFailure" ms;
    lo ← defaulted None decode "lastObservationFailure" ms;
    up ← defaulted "" as_str "updatedAt" ms;
    Some (mkBranch cursor fl lf lo up)
}.

#[export] Instance state_codec : Codec RepositoryState := {
  encode s := VObject (
    [("version", VNumber (s_version s))]
    ++ opt_member "gitRoot" (s_git_root s)
    ++ [("branches", encode (s_branches s))])%list;
  decode v :=
    ms ← object_members v;
    ver ← required decode_u32 "version" ms;
    root ← defaulted None decode "gitRoot" ms;
    bs ← defaulted ∅ decode "branches" ms;
    Some (mkState ver root bs)
}.

#[export] Instance delivery_codec : Codec DeliveryState := {
  encode d := VObject [
    ("attempts", VNumber (d_attempts d)); ("lastAttemptAt", VString (d_last_attempt_at d));
    ("lastError", encode (d_last_error d)); ("deliveredAt", encode (d_delivered_at d))];
  decode v :=
    ms ← object_members v;
    att ← required decode_u32 "attempts" ms;
    la ← defaulted "" as_str "lastAttemptAt" ms;
    le ← defaulted None decode "lastError" ms;
    da ← defaulted None decode "deliveredAt" ms;
    Some (mkDelivery att la le da)
}.

#[export] Instance rec_layer_codec : Codec ReviewRecordLayer := {
  encode l := VObject [
    ("layer", VString (rl_layer l)); ("model", VString (rl_model l));
    ("child", encode (rl_child l)); ("answer", encode (rl_answer l))];
  decode v :=
    ms ← object_members v;
    la ← required as_str "layer" ms;
    mo ← required as_str "model" ms;
    ch ← defaulted None decode "child" ms;
    an ← defaulted None decode "answer" ms;
    Some (mkRecLayer la mo ch an)
}.

#[export] Instance record_codec : Codec ReviewRecord := {
  encode r := VObject [
    ("version", VNumber (rec_version r)); ("branch", VString (rec_branch r));
    ("base", VString (rec_base r)); ("head", VString (rec_head r));
    ("attempts", VNumber (rec_attempts r)); ("completedAt", VString (rec_completed_at r));
    ("layers", encode (rec_layers r)); ("conclusion", encode (rec_conclusion r));
    ("delivery", encode (rec_delivery r))];
  decode v :=
    ms ← object_members v;
    ver ← required decode_u32 "version" ms;
    br ← required as_str "branch" ms;
    base ← required as_str "base" ms;
    head ← required as_str "head" ms;
    att ← defaulted default_attempts decode_u32 "attempts" ms;
    co ← defaulted "" as_str "completedAt" ms;
    ls ← defaulted [] decode "layers" ms;
    cl ← defaulted None decode "conclusion" ms;
    de ← defaulted ∅ decode "delivery" ms;
    Some (mkRecord ver br base head att co ls cl de)
}.

(** ** The documents survive a write and a read *)

#[export] Instance range_non_null : NonNull ReviewRange. Proof. done. Qed.
#[export] Instance failure_non_null : NonNull ReviewFailure. Proof. done. Qed.
#[export] Instance obs_failure_non_null : NonNull ObservationFailure. Proof. done. Qed.

#[export] Instance range_codec_ok : CodecOk ReviewRange.
Proof.
  refine (Build_CodecOk _ _ (fun r => is_u32 (r_attempts r)) _ _ _).
  - intros [b h ad at' st] Hw. cbn in Hw. cbn -[decode_u32]. by rewrite decode_u32_number.
  - intros [b h ad at' st] Hw. cbn in Hw. cbn. by rewrite u32_representable.
  - intros v r Hv. cbn [decode range_codec] in Hv. inv_decode Hv. cbn. field_sound.
Defined.

#[export] Instance failure_codec_ok : CodecOk ReviewFailure.
Proof.
  refine (Build_CodecOk _ _ (fun r => is_u32 (f_attempts r)) _ _ _).
  - intros [] Hw. cbn in Hw. cbn -[decode_u32]. by rewrite decode_u32_number.
  - intros [] Hw. cbn in Hw. cbn. by rewrite u32_representable.
  - intros v r Hv. cbn [decode failure_codec] in Hv. inv_decode Hv. cbn. field_sound.
Defined.

#[export] Instance obs_failure_codec_ok : CodecOk ObservationFailure.
Proof. by refine (Build_CodecOk _ _ (fun _ => True) _ _ _); [intros []|intros []|]. Defined.

Lemma codec_wf_opt_obs (o : option ObservationFailure) : codec_wf o.
Proof. by destruct o. Qed.
#[local] Hint Resolve codec_wf_opt_obs codec_wf_opt_string : core.

#[export] Instance branch_non_null : NonNull BranchState. Proof. done. Qed.
#[export] Instance branch_codec_ok : CodecOk BranchState.
Proof.
  refine (Build_CodecOk _ _ (fun b => codec_wf (b_in_flight b) /\ codec_wf (b_last_failure b)) _ _ _).
  - intros [c fl lf lo up] [H1 H2]. cbn [b_in_flight b_last_failure] in *.
    cbn [decode encode branch_codec object_members mbind option_bind].
    rewrite (defaulted_encode c), (defaulted_encode fl), (defaulted_opt_member lf),
      (defaulted_opt_member lo) by (auto; by destruct lf, lo).
    by destruct lf, lo.
  - intros [c fl lf lo up] [H1 H2]. cbn [b_in_flight b_last_failure] in *.
    cbn [encode branch_codec representable]. rewrite !forallb_app, !opt_member_representable by auto.
    cbn -[encode]. by rewrite !encode_representable by auto.
  - intros v r Hv. cbn [decode branch_codec] in Hv. inv_decode Hv. split; cbn -[codec_wf]; field_sound.
Defined.

#[export] Instance state_codec_ok : CodecOk RepositoryState.
Proof.
  refine (Build_CodecOk _ _ (fun s => is_u32 (s_version s) /\ codec_wf (s_branches s)) _ _ _).
  - intros [ver root bs] [H1 H2]. cbn [s_version s_branches] in *.
    cbn [decode encode state_codec object_members mbind option_bind].
    rewrite (required_u32 ver), (defaulted_opt_member root), (defaulted_encode bs)
      by (auto; by destruct root). done.
  - intros [ver root bs] [H1 H2]. cbn [s_version s_branches] in *.
    cbn [encode state_codec representable]. rewrite !forallb_app, opt_member_representable by auto.
    cbn -[encode]. by rewrite u32_representable, encode_representable by done.
  - intros v r Hv. cbn [decode state_codec] in Hv. inv_decode Hv.
    split; cbn -[codec_wf]; field_sound.
Defined.

#[export] Instance delivery_codec_ok : CodecOk DeliveryState.
Proof.
  refine (Build_CodecOk _ _ (fun d => is_u32 (d_attempts d)) _ _ _).
  - intros [a la le da] Hw. cbn [d_attempts] in Hw.
    cbn [decode encode delivery_codec object_members mbind option_bind].
    by rewrite (required_u32 a), (defaulted_encode le _ "lastError"),
      (defaulted_encode da _ "deliveredAt") by (reflexivity || auto).
  - intros [a la le da] Hw. cbn [d_attempts] in Hw.
    cbn [encode delivery_codec]. cbn -[encode].
    by rewrite u32_representable, !encode_representable by auto.
  - intros v r Hv. cbn [decode delivery_codec] in Hv. inv_decode Hv. cbn. field_sound.
Defined.

#[export] Instance rec_layer_codec_ok : CodecOk ReviewRecordLayer.
Proof.
  refine (Build_CodecOk _ _ (fun _ => True) _ _ _); [| |done].
  - intros [la mo ch an] _. cbn [decode encode rec_layer_codec object_members mbind option_bind].
    by rewrite (defaulted_encode ch _ "child"), (defaulted_encode an _ "answer") by (reflexivity || auto).
  - intros [la mo ch an] _. cbn [encode rec_layer_codec]. cbn -[encode]. by rewrite !encode_representable by auto.
Defined.

Lemma codec_wf_rec_layers (l : list ReviewRecordLayer) : codec_wf l.
Proof. by apply Forall_forall. Qed.
#[local] Hint Resolve codec_wf_rec_layers : core.

#[export] Instance record_codec_ok : CodecOk ReviewRecord.
Proof.
  refine (Build_CodecOk _ _ (fun r => is_u32 (rec_version r) /\ is_u32 (rec_attempts r)
                                      /\ codec_wf (rec_delivery r)) _ _ _).
  - intros [ver br base hd att co ls cl de] (H1 & H2 & H3).
    cbn [rec_version rec_attempts rec_delivery] in *.
    cbn [decode encode record_codec object_members mbind option_bind].
    by rewrite (required_u32 ver), (defaulted_u32 _ att), (defaulted_encode ls),
      (defaulted_encode cl), (defaulted_encode de) by (reflexivity || auto).
  - intros [ver br base hd att co ls cl de] (H1 & H2 & H3).
    cbn [rec_version rec_attempts rec_delivery] in *. cbn [encode record_codec]. cbn -[encode].
    by rewrite !u32_representable, !encode_representable by auto.
  - intros v r Hv. cbn [decode record_codec] in Hv. inv_decode Hv.
    split_and!; cbn -[codec_wf]; field_sound.
Defined.
