(* ===== verification/Store.v ===== *)
(** * Repository state: the store ([crates/pa-daemon/src/big_brother/state.rs])

    The operations of [RepositoryStateStore] as programs over the world: every
    mutation runs under the directory lock and replaces its file by an atomic
    temp-and-rename write. *)
From S2P Require Import Prelude RustStr Json Time World LockDir Profile State.
#[local] Open Scope string_scope.
#[local] Open Scope Z_scope.

(** [RepositoryStateStore]. *)
Record Store := mkStore { st_repo_dir : path; st_git_root : path }.

(** [open], [state_path], [records_branch_dir]. *)
Definition open_store (agent_dir git_root : path) : Store :=
  mkStore (repo_dir agent_dir git_root) git_root.
Definition state_path (st : Store) : path := join (st_repo_dir st) "state.json".
Definition records_branch_dir (st : Store) (branch : string) : path :=
  join (join (st_repo_dir st) "records") (sanitize_branch branch).
Definition record_path (st : Store) (branch head : string) : path :=
  join (records_branch_dir st branch) (head ++ ".json").

(** The temporary file beside a target. *)
Definition temp_path (p : path) : path :=
  let dir := default ["."] (parent p) in
  join dir ("." ++ default "state" (file_name p) ++ ".tmp").

Section Store.
Context `{Env}.

(** [atomic_write]. *)
Definition atomic_write (p : path) (content : Bytes) : M StateError unit :=
  let temp := temp_path p in
  do* map_err (Write temp) (fs_write temp content) in
  map_err (Write p) (fs_rename temp p).

(** ** The lock *)

(** The retry loop of [acquire_lock]; [last_error] keeps the first
    contention message. *)
Fixpoint acquire_loop (n : nat) (p : path) (last_error : option string)
    : M StateError LockDir :=
  match n with
  | O => throw (Lock (default "busy" last_error))
  | S n' =>
      let* r := attempt (acquire p LOCK_STALE_AFTER) in
      match r with
      | inr guard => ret guard
      | inl e =>
          if decide (io_error_kind e = WouldBlock) then
            acquire_loop n' p (match last_error with
                               | None => Some (io_error_text e)
                               | Some t => Some t
                               end)
          else throw (Lock (io_error_text e))
      end
  end.

(** [acquire_lock]. *)
Definition acquire_lock (st : Store) : M StateError LockDir :=
  do* map_err (Directory (st_repo_dir st)) (fs_create_dir_all (st_repo_dir st)) in
  acquire_loop 10 (state_path st) None.

(** The guard's scope: returning, early or not, drops the guard; a killed
    process leaves the lock directory behind. *)
Definition guarded {A} (guard : LockDir) (body : M StateError A) : M StateError A := fun w =>
  match body w with
  | (Killed, w1) => (Killed, w1)
  | (r, w1) =>
      match release guard w1 with
      | (Killed, w2) => (Killed, w2)
      | (_, w2) => (r, w2)
      end
  end.
Definition with_lock {A} (st : Store) (body : M StateError A) : M StateError A :=
  let* guard := acquire_lock st in guarded guard body.

(** ** Reading and writing documents *)

Definition parse_state (p : path) (bytes : Bytes) : StateError + RepositoryState :=
  match from_slice bytes with
  | inl e => inl (MalformedState p e)
  | inr v =>
      match decode v with
      | None => inl (MalformedState p (schema_error_text v))
      | Some state =>
          if negb (s_version state =? STATE_VERSION) then inl (UnsupportedVersion (s_version state))
          else inr state
      end
  end.

(** [read_state] and [load]. *)
Definition read_state (st : Store) : M StateError RepositoryState :=
  let p := state_path st in
  let* r := attempt (fs_read p) in
  match r with
  | inl e => if decide (io_error_kind e = NotFound) then ret default_state else throw (Unreadable p e)
  | inr bytes => lift (parse_state p bytes)
  end.
Definition load (st : Store) : M StateError RepositoryState := read_state st.

Definition with_git_root (st : Store) (s : RepositoryState) : RepositoryState :=
  mkState (s_version s) (Some (path_display (st_git_root st))) (s_branches s).

(** [write_state]: every write refreshes the git root. *)
Definition write_state (st : Store) (s : RepositoryState) : M StateError unit :=
  let* body := lift (match to_string_pretty (encode (with_git_root st s)) with
                     | inl e => inl (MalformedState (state_path st) e)
                     | inr b => inr b
                     end) in
  atomic_write (state_path st) body.

Definition set_branch (branch : string) (b : BranchState) (s : RepositoryState) : RepositoryState :=
  mkState (s_version s) (s_git_root s) (<[branch := b]> (s_branches s)).

(** [branches.entry(branch).or_default()]. *)
Definition branch_entry (branch : string) (s : RepositoryState) : BranchState :=
  default default_branch_state (s_branches s !! branch).

(** ** Operations *)

(** [seed_cursor]. *)
Definition seed_cursor (st : Store) (branch revision : string) : M StateError unit :=
  do* lift (validate_revision revision) in
  with_lock st (
    let* state := read_state st in
    let bs := branch_entry branch state in
    match b_cursor bs, b_in_flight bs with
    | None, None =>
        let* now := now_iso in
        write_state st (set_branch branch
          (mkBranch (Some revision) (b_in_flight bs) (b_last_failure bs)
             (b_last_observation_failure bs) now) state)
    | Some current, None =>
        if String.eqb current revision then ret tt
        else throw (Reseed branch current revision)
    | Some current, Some _ => throw (Reseed branch current revision)
    | None, Some _ => throw (Reseed branch "in review" revision)
    end).

(** [record_observation_failure]. *)
Definition record_observation_failure (st : Store) (branch kind message : string)
    : M StateError unit :=
  with_lock st (
    let* state := read_state st in
    let bs := branch_entry branch state in
    let* observed_at := now_iso in
    let* now := now_iso in
    write_state st (set_branch branch
      (mkBranch (b_cursor bs) (b_in_flight bs) (b_last_failure bs)
         (Some (mkObsFailure kind message observed_at)) now) state)).

(** [clear_observation_failure]. *)
Definition clear_observation_failure (st : Store) (branch : string) : M StateError unit :=
  with_lock st (
    let* state := read_state st in
    match s_branches state !! branch with
    | None => ret tt
    | Some bs =>
        match b_last_observation_failure bs with
        | None => ret tt
        | Some _ =>
            let* now := now_iso in
            write_state st (set_branch branch
              (mkBranch (b_cursor bs) (b_in_flight bs) (b_last_failure bs) None now) state)
        end
    end).

(** [RepositoryStateStore::admit]. *)
Definition admit_range (st : Store) (branch head : string) : M StateError Admission :=
  do* lift (validate_revision head) in
  with_lock st (
    let* state := read_state st in
    match s_branches state !! branch with
    | None => throw (NotSeeded branch)
    | Some bs =>
        if decide (b_cursor bs = Some head) then ret (AlreadyReviewed head)
        else match b_in_flight bs with
        | Some in_flight =>
            if String.eqb (r_head in_flight) head then ret (InReview in_flight)
            else ret (Busy in_flight)
        | None =>
            match b_cursor bs with
            | None => throw (NotSeeded branch)
            | Some base =>
                let* admitted_at := now_iso in
                let* started_at := now_iso in
                let range := mkRange base head admitted_at 1 started_at in
                let* now := now_iso in
                do* write_state st (set_branch branch
                  (mkBranch (b_cursor bs) (Some range) (b_last_failure bs)
                     (b_last_observation_failure bs) now) state) in
                ret (AdmittedRange range)
            end
        end
    end).

(** [retry_attempt]: [attempts += 1] wraps in the release profile. *)
Definition retry_attempt (st : Store) (branch head : string) : M StateError Z :=
  with_lock st (
    let* state := read_state st in
    match s_branches state !! branch with
    | None => throw (RangeNotInFlight branch head)
    | Some bs =>
        match b_in_flight bs with
        | None => throw (RangeNotInFlight branch head)
        | Some r =>
            if negb (String.eqb (r_head r) head) then throw (RangeNotInFlight branch head)
            else
              let* started_at := now_iso in
              let attempts := u32_wrapping_add (r_attempts r) 1 in
              let r' := mkRange (r_base r) (r_head r) (r_admitted_at r) attempts started_at in
              let* now := now_iso in
              do* write_state st (set_branch branch
                (mkBranch (b_cursor bs) (Some r') (b_last_failure bs)
                   (b_last_observation_failure bs) now) state) in
              ret attempts
        end
    end).

(** [fail_range]. *)
Definition fail_range (st : Store) (branch head reason : string) : M StateError unit :=
  with_lock st (
    let* state := read_state st in
    match s_branches state !! branch with
    | None => throw (RangeNotInFlight branch head)
    | Some bs =>
        match b_in_flight bs with
        | None => throw (RangeNotInFlight branch head)
        | Some r =>
            if negb (String.eqb (r_head r) head) then throw (RangeNotInFlight branch head)
            else
              let* failed_at := now_iso in
              let* now := now_iso in
              write_state st (set_branch branch
                (mkBranch (b_cursor bs) None
                   (Some (mkFailure (r_base r) (r_head r) (r_attempts r) reason failed_at))
                   (b_last_observation_failure bs) now) state)
        end
    end).

(** Serializing a record. *)
Definition record_body (p : path) (r : ReviewRecord) : StateError + Bytes :=
  match to_string_pretty (encode r) with
  | inl e => inl (MalformedRecord p e)
  | inr b => inr b
  end.

Definition stamp_completed (now : string) (r : ReviewRecord) : ReviewRecord :=
  mkRecord (rec_version r) (rec_branch r) (rec_base r) (rec_head r) (rec_attempts r) now
    (rec_layers r) (rec_conclusion r) (rec_delivery r).

Definition set_delivery (channel : string) (d : DeliveryState) (r : ReviewRecord) : ReviewRecord :=
  mkRecord (rec_version r) (rec_branch r) (rec_base r) (rec_head r) (rec_attempts r)
    (rec_completed_at r) (rec_layers r) (rec_conclusion r) (<[channel := d]> (rec_delivery r)).

Definition range_matches (range : ReviewRange) (r : ReviewRecord) : bool :=
  String.eqb (r_base range) (rec_base r) && String.eqb (r_head range) (rec_head r).

(** The part of [complete] that lands the record before the state advance. *)
Definition write_record_once (rp : path) (record : ReviewRecord) : M StateError unit :=
  let* present := fs_exists rp in
  if present then ret tt
  else
    match parent rp with
    | None => panic
    | Some dir =>
        do* map_err (Directory dir) (fs_create_dir_all dir) in
        let* body := lift (record_body rp record) in
        atomic_write rp body
    end.

(** The replay arm of [complete]: the state already advanced past this exact
    completion, or the completion is a stray. *)
Definition complete_replay (bs : BranchState) (record : ReviewRecord) (rp : path)
    (stray : StateError) : M StateError Completion :=
  if decide (b_cursor bs = Some (rec_head record)) then
    let* present := fs_exists rp in
    if present then ret (AlreadyComplete (rec_head record) rp) else throw stray
  else throw stray.

(** The arm of [complete] for the range in flight: the record first, then the
    state advance. *)
Definition complete_in_flight (st : Store) (state : RepositoryState) (bs : BranchState)
    (range : ReviewRange) (record : ReviewRecord) (rp : path) : M StateError Completion :=
  do* write_record_once rp record in
  let* now := now_iso in
  do* write_state st (set_branch (rec_branch record)
    (mkBranch (Some (rec_head record)) None (b_last_failure bs)
       (b_last_observation_failure bs) now) state) in
  ret (Completed range rp).

(** The body of [complete] once the state is loaded. *)
Definition complete_loaded (st : Store) (stray : StateError) (state : RepositoryState)
    (record : ReviewRecord) : M StateError Completion :=
  match s_branches state !! rec_branch record with
  | None => throw stray
  | Some bs =>
      let rp := record_path st (rec_branch record) (rec_head record) in
      match b_in_flight bs with
      | Some range =>
          if range_matches range record then complete_in_flight st state bs range record rp
          else complete_replay bs record rp stray
      | None => complete_replay bs record rp stray
      end
  end.

(** The completion time of a record that carries none. *)
Definition stamped (record : ReviewRecord) : M StateError ReviewRecord :=
  if is_blank (rec_completed_at record)
  then let* now := now_iso in ret (stamp_completed now record)
  else ret record.

(** [complete]. *)
Definition complete (st : Store) (record : ReviewRecord) : M StateError Completion :=
  let stray := StrayCompletion (rec_branch record) (rec_base record) (rec_head record) in
  if negb (rec_version record =? RECORD_VERSION)
  then throw (UnsupportedRecordVersion (rec_version record))
  else
  do* lift (validate_revision (rec_base record)) in
  do* lift (validate_revision (rec_head record)) in
  if is_blank (rec_branch record) then throw stray
  else
  with_lock st (
    let* state := read_state st in
    let* record := stamped record in
    complete_loaded st stray state record).

(** [update_delivery]. *)
Definition update_delivery (st : Store) (branch head channel : string) (d : DeliveryState)
    : M StateError unit :=
  with_lock st (
    let rp := record_path st branch head in
    let* bytes := map_err (RecordMissing rp) (fs_read rp) in
    let* v := lift (match from_slice bytes with inl e => inl (MalformedRecord rp e) | inr v => inr v end) in
    let* record := lift (match decode v with
                         | None => inl (MalformedRecord rp (schema_error_text v))
                         | Some r => inr r
                         end) in
    if negb (String.eqb (rec_branch record) branch)
    then throw (RecordBranchMismatch rp (rec_branch record) branch)
    else
      let* body := lift (record_body rp (set_delivery channel d record)) in
      atomic_write rp body).

(** One record file of the listing in [records]. *)
Definition read_record (branch : string) (p : path) : M StateError ReviewRecord :=
  let* bytes := map_err (Unreadable p) (fs_read p) in
  let* v := lift (match from_slice bytes with inl e => inl (MalformedRecord p e) | inr v => inr v end) in
  let* record := lift (match decode v with
                       | None => inl (MalformedRecord p (schema_error_text v))
                       | Some r => inr r
                       end) in
  if negb (rec_version record =? RECORD_VERSION)
  then throw (UnsupportedRecordVersion (rec_version record))
  else if negb (String.eqb (rec_branch record) branch)
  then throw (RecordBranchMismatch p (rec_branch record) branch)
  else ret record.

Fixpoint read_records (branch : string) (ps : list path) : M StateError (list ReviewRecord) :=
  match ps with
  | [] => ret []
  | p :: ps' =>
      let* r := read_record branch p in
      let* rs := read_records branch ps' in
      ret (r :: rs)
  end.

Definition has_json_extension (p : path) : bool :=
  match extension p with Some e => String.eqb e "json" | None => false end.

(** [records]. *)
Definition records (st : Store) (branch : string) : M StateError (list ReviewRecord) :=
  let dir := records_branch_dir st branch in
  let* r := attempt (fs_read_dir dir) in
  match r with
  | inl e => if decide (io_error_kind e = NotFound) then ret [] else throw (Unreadable dir e)
  | inr entries =>
      read_records branch (merge_sort path_le (List.filter has_json_extension entries))
  end.
End Store.
