(* ===== verification/StoreProofs.v ===== *)
(** * The store refines a pure state machine

    Every operation of the store, under every fault schedule, either leaves
    the state document untouched or replaces it by the successor a pure
    specification function computes from the document that was there. *)
From S2P Require Import Prelude RustStr Json Time World LockDir Sim Profile State Store.
#[local] Open Scope string_scope.
#[local] Open Scope Z_scope.

(** ** Where the files are *)
Section Paths.
Context (st : Store).

Lemma state_path_eq : state_path st = (st_repo_dir st ++ ["state.json"])%list.
Proof. reflexivity. Qed.

Lemma state_temp_eq : temp_path (state_path st) = (st_repo_dir st ++ [".state.json.tmp"])%list.
Proof. unfold temp_path. rewrite state_path_eq, parent_snoc, file_name_snoc; done. Qed.

Lemma state_lock_eq : path_for (state_path st) = (st_repo_dir st ++ ["state.json.lock"])%list.
Proof. unfold path_for. by rewrite state_path_eq, last_snoc_path, removelast_snoc. Qed.

Lemma state_not_temp : state_path st <> temp_path (state_path st).
Proof. rewrite state_temp_eq, state_path_eq. intros Heq. by apply app_inj_1 in Heq as [_ ?]. Qed.

(** The lock area holds no document. *)
Lemma state_not_locked : ~ lock_area (path_for (state_path st)) (state_path st).
Proof.
  rewrite state_lock_eq, state_path_eq. intros [Heq|Heq].
  - by apply app_inj_1 in Heq as [_ ?].
  - unfold owner_file in Heq. rewrite <- app_assoc in Heq. by apply app_inv_head in Heq.
Qed.
End Paths.

(** ** Atomic replacement *)
Section Atomic.
Context `{Env}.

Lemma fs_write_ok p b w w' :
  fs_write p b w = (Ok tt, w') -> file_at w' p = Some b.
Proof.
  unfold fs_write, syscall, eff_write. intros Hw.
  destruct (w_fault w (w_op w)); [|done|done].
  destruct (writable (w_fs w) p); inv_res. unfold file_at, file_in. cbn.
  by rewrite lookup_insert_eq.
Qed.

(** A rename moves the whole content or nothing. *)
Lemma fs_rename_effect a b c w r w' :
  a <> b -> file_at w a = Some c -> fs_rename a b w = (r, w') ->
  (file_at w' b = file_at w b /\ r <> Ok tt) \/ (file_at w' b = Some c /\ r = Ok tt).
Proof.
  intros Hab Hc. unfold fs_rename, syscall, eff_rename, file_at, file_in in *.
  destruct (w_fs w !! a) as [[c'|]|]; try done. inv_res.
  destruct (w_fault w (w_op w)) as [|t|t].
  - destruct (writable (w_fs w) b); intros ?; inv_res; [right|left]; cbn; [|done].
    by rewrite lookup_insert_eq.
  - intros ?; inv_res. left. split; [|done]. by destruct t.
  - intros ?; inv_res. left. split; [|done]. by destruct t.
Qed.

Lemma keeps_atomic_write p b : keeps (fun q => q = p \/ q = temp_path p) (atomic_write p b).
Proof. unfold atomic_write. solve_keeps. Qed.

(** Whatever faults strike, the target holds its old content or the complete
    new one, and success means the new one. *)
Lemma atomic_write_effect p b w r w' :
  temp_path p <> p -> atomic_write p b w = (r, w') ->
  (file_at w' p = file_at w p /\ r <> Ok tt) \/ (file_at w' p = Some b /\ r = Ok tt).
Proof.
  intros Hne. unfold atomic_write, bind, map_err.
  destruct (fs_write (temp_path p) b w) as [[[]|e|] w1] eqn:E1.
  - destruct (fs_rename (temp_path p) p w1) as [r2 w2] eqn:E2.
    apply fs_write_ok in E1 as Hc.
    assert (file_at w1 p = file_at w p) as Hp.
    { eapply (frame_files (fun q => q = temp_path p)); [|naive_solver].
      eapply keeps_run; [|done]. solve_keeps. }
    destruct (fs_rename_effect _ _ _ _ _ _ Hne Hc E2) as [[Hs Hr]|[Hs ->]].
    + intros Heq. left. destruct r2 as [[]|?|]; [done| |]; inv_res; split; congruence.
    + intros Heq. inv_res. by right.
  - intros Heq; inv_res. left. split; [|done].
    eapply (frame_files (fun q => q = temp_path p)); [|naive_solver].
    eapply keeps_run; [|done]. solve_keeps.
  - intros Heq; inv_res. left. split; [|done].
    eapply (frame_files (fun q => q = temp_path p)); [|naive_solver].
    eapply keeps_run; [|done]. solve_keeps.
Qed.
End Atomic.

(** ** The pure specification

    What each operation does to a loaded state.  [t 0], [t 1], ... are the
    timestamps of the successive clock readings; the new state is absent when
    the operation writes nothing. *)
Abbreviation outcome A := (StateError + (A * option RepositoryState))%type.

Definition spec_seed (branch revision : string) (t : nat -> string) (s : RepositoryState)
    : outcome unit :=
  let bs := branch_entry branch s in
  match b_cursor bs, b_in_flight bs with
  | None, None =>
      inr (tt, Some (set_branch branch
        (mkBranch (Some revision) None (b_last_failure bs) (b_last_observation_failure bs) (t 0%nat)) s))
  | None, Some _ => inl (Reseed branch "in review" revision)
  | Some c, None => if String.eqb c revision then inr (tt, None) else inl (Reseed branch c revision)
  | Some c, Some _ => inl (Reseed branch c revision)
  end.

Definition spec_record_observation (branch kind message : string) (t : nat -> string)
    (s : RepositoryState) : outcome unit :=
  let bs := branch_entry branch s in
  inr (tt, Some (set_branch branch
    (mkBranch (b_cursor bs) (b_in_flight bs) (b_last_failure bs)
       (Some (mkObsFailure kind message (t 0%nat))) (t 1%nat)) s)).

Definition spec_clear_observation (branch : string) (t : nat -> string) (s : RepositoryState)
    : outcome unit :=
  match s_branches s !! branch with
  | Some (mkBranch c fl lf (Some _) _) =>
      inr (tt, Some (set_branch branch (mkBranch c fl lf None (t 0%nat)) s))
  | _ => inr (tt, None)
  end.

Definition spec_admit (branch head : string) (t : nat -> string) (s : RepositoryState)
    : outcome Admission :=
  match s_branches s !! branch with
  | None => inl (NotSeeded branch)
  | Some (mkBranch c fl lf lo _) =>
      if decide (c = Some head) then inr (AlreadyReviewed head, None)
      else match fl, c with
      | Some r, _ => inr (if String.eqb (r_head r) head then InReview r else Busy r, None)
      | None, None => inl (NotSeeded branch)
      | None, Some base =>
          let r := mkRange base head (t 0%nat) 1 (t 1%nat) in
          inr (AdmittedRange r, Some (set_branch branch (mkBranch c (Some r) lf lo (t 2%nat)) s))
      end
  end.

Definition rearmed (r : ReviewRange) (started_at : string) : ReviewRange :=
  mkRange (r_base r) (r_head r) (r_admitted_at r) (u32_wrapping_add (r_attempts r) 1) started_at.

Definition spec_retry (branch head : string) (t : nat -> string) (s : RepositoryState)
    : outcome Z :=
  match s_branches s !! branch with
  | Some (mkBranch c (Some r) lf lo _) =>
      if String.eqb (r_head r) head then
        inr (u32_wrapping_add (r_attempts r) 1,
             Some (set_branch branch (mkBranch c (Some (rearmed r (t 0%nat))) lf lo (t 1%nat)) s))
      else inl (RangeNotInFlight branch head)
  | _ => inl (RangeNotInFlight branch head)
  end.

Definition spec_fail (branch head reason : string) (t : nat -> string) (s : RepositoryState)
    : outcome unit :=
  match s_branches s !! branch with
  | Some (mkBranch c (Some r) _ lo _) =>
      if String.eqb (r_head r) head then
        inr (tt, Some (set_branch branch
          (mkBranch c None
             (Some (mkFailure (r_base r) (r_head r) (r_attempts r) reason (t 0%nat))) lo (t 1%nat)) s))
      else inl (RangeNotInFlight branch head)
  | _ => inl (RangeNotInFlight branch head)
  end.

(** Completion: [present] says whether the record file was found on a replay,
    [now] is the time of the state write. *)
Definition spec_complete (rp : path) (record : ReviewRecord) (present : bool)
    (now : string) (s : RepositoryState) : outcome Completion :=
  let stray := StrayCompletion (rec_branch record) (rec_base record) (rec_head record) in
  match s_branches s !! rec_branch record with
  | None => inl stray
  | Some (mkBranch c fl lf lo _) =>
      match fl with
      | Some r =>
          if range_matches r record then
            inr (Completed r rp,
                 Some (set_branch (rec_branch record)
                         (mkBranch (Some (rec_head record)) None lf lo now) s))
          else if decide (c = Some (rec_head record)) then
            if present then inr (AlreadyComplete (rec_head record) rp, None) else inl stray
          else inl stray
      | None =>
          if decide (c = Some (rec_head record)) then
            if present then inr (AlreadyComplete (rec_head record) rp, None) else inl stray
          else inl stray
      end
  end.

(** ** Refinement *)
Section Refinement.
Context `{EnvOk} (st : Store).

(** The state document in a world: an absent file is the fresh state. *)
Definition on_disk (w : World) (s : RepositoryState) : Prop :=
  match file_at w (state_path st) with
  | None => s = default_state
  | Some b => parse_state (state_path st) b = inr s
  end.
Definition same_state (w w' : World) : Prop :=
  file_at w' (state_path st) = file_at w (state_path st).
(** The failures that come from the surroundings and not from the request. *)
Definition infra_error (e : StateError) : bool :=
  match e with
  | Unreadable _ _ | MalformedState _ _ | MalformedRecord _ _ | UnsupportedVersion _
  | Lock _ | Write _ _ | Directory _ _ => true
  | _ => false
  end.
(** The process died, or the surroundings failed it. *)
Definition infra {A} (r : result StateError A) : Prop :=
  match r with Ok _ => False | Err e => infra_error e = true | Killed => True end.

Definition timestamps (w : World) (k : nat) (n : nat) : string :=
  iso_from_unix_ms (w_clock w (n + k)%nat).

(** One outcome of the specification against one run of the code. *)
Definition agrees {A} (w : World) (r : result StateError A) (w' : World) (o : outcome A) : Prop :=
  match o with
  | inl e => r = Err e /\ same_state w w'
  | inr (a, None) => (r = Ok a \/ r = Killed) /\ same_state w w'
  | inr (a, Some s') => (r = Ok a \/ r = Killed) /\ on_disk w' (with_git_root st s')
  end.

(** [m] implements a relational specification: a run either fails with the
    document untouched, or it does to the document on disk what an outcome
    that [spec] allows says. *)
Definition implements_rel {A} (m : M StateError A)
    (spec : (nat -> string) -> RepositoryState -> outcome A -> Prop) : Prop :=
  forall w r w', m w = (r, w') ->
    (infra r /\ same_state w w') \/
    exists s k o, on_disk w s /\ (w_tick w <= k)%nat /\ spec (timestamps w k) s o
                  /\ agrees w r w' o.
(** ... and a specification function. *)
Definition implements {A} (m : M StateError A)
    (spec : (nat -> string) -> RepositoryState -> outcome A) : Prop :=
  implements_rel m (fun t s o => o = spec t s).

Lemma on_disk_same w w' s : same_state w w' -> on_disk w s -> on_disk w' s.
Proof. unfold same_state, on_disk. by intros ->. Qed.

Lemma on_disk_fun w s1 s2 : on_disk w s1 -> on_disk w s2 -> s1 = s2.
Proof. unfold on_disk. destruct (file_at _ _); intros; simplify_eq; congruence. Qed.

(** What reading guarantees about a state: its version and widths. *)
Definition loadable (s : RepositoryState) : Prop := s_version s = STATE_VERSION /\ codec_wf s.

Lemma on_disk_loadable w s : on_disk w s -> loadable s.
Proof.
  unfold on_disk, loadable. destruct (file_at _ _) as [b|].
  - unfold parse_state. destruct (from_slice b) as [|v]; [done|].
    destruct (decode v) as [s'|] eqn:Ed; [|done].
    destruct (Z.eqb_spec (s_version s') STATE_VERSION); cbn; [|done].
    intros [= ->]. split; [done | exact (decode_wf v s Ed)].
  - intros ->. split; [done|]. split; [unfold is_u32, u32_max, STATE_VERSION; cbn; unfold STATE_VERSION; lia | apply map_Forall_empty].
Qed.

Lemma fs_read_effect p w r w' :
  fs_read p w = (r, w') ->
  w_tick w' = w_tick w /\
  (forall b, r = Ok b -> file_at w p = Some b) /\
  (forall e, r = Err e -> io_error_kind e = NotFound -> w_fs w !! p = None).
Proof.
  unfold fs_read, syscall, eff_read, file_at, file_in, missing_kind. intros Hr.
  destruct (w_fault w (w_op w)) as [|t|t]; simplify_eq/=; [|naive_solver..].
  destruct (w_fs w !! p) as [[b|m]|] eqn:El; simplify_eq/=; [naive_solver..|].
  destruct (blocked (w_fs w) p); naive_solver.
Qed.

Lemma parse_state_infra p b e : parse_state p b = inl e -> infra_error e = true.
Proof.
  unfold parse_state. destruct (from_slice b) as [|v]; [naive_solver|].
  destruct (decode v) as [s|]; [|naive_solver].
  destruct (negb (s_version s =? STATE_VERSION)); naive_solver.
Qed.

Lemma read_state_effect w r w' :
  read_state st w = (r, w') ->
  frame (fun _ => False) w w' /\ w_tick w' = w_tick w /\
  match r with Ok s => on_disk w s | _ => infra r end.
Proof.
  intros Hr. split.
  { eapply keeps_run; [|exact Hr]. unfold read_state. solve_keeps. }
  revert Hr. unfold read_state, bind, attempt.
  destruct (fs_read (state_path st) w) as [r1 w1] eqn:E1.
  apply fs_read_effect in E1 as (Ht & Hok & Herr). destruct r1 as [b|e|]; cbv beta iota.
  - unfold lift, on_disk. rewrite (Hok b) by done.
    destruct (parse_state _ b) eqn:Ep; intros ?; inv_res; split; [done| |done..].
    by apply parse_state_infra in Ep.
  - case_decide as Hk; [|unfold throw; intros ?; by inv_res].
    unfold ret, on_disk, file_at, file_in. rewrite (Herr e) by done. naive_solver.
  - naive_solver.
Qed.

Lemma atomic_write_infra p b w r w' :
  atomic_write p b w = (r, w') -> match r with Ok _ => True | _ => infra r end.
Proof.
  unfold atomic_write, bind, map_err.
  destruct (fs_write _ _ w) as [[[]|e|] w1]; [|intros ?; by inv_res..].
  destruct (fs_rename _ _ w1) as [[[]|e|] w2]; intros ?; by inv_res.
Qed.

Lemma write_state_effect s w r w' :
  loadable s -> write_state st s w = (r, w') ->
  (infra r /\ same_state w w') \/ (r = Ok tt /\ on_disk w' (with_git_root st s)).
Proof.
  intros [Hv Hwf]. unfold write_state, bind.
  assert (codec_wf (with_git_root st s)) as Hwf' by exact Hwf.
  destruct (json_text_round_trip _ (encode_representable _ Hwf')) as (b & -> & Hb). cbn.
  intros Hrun. pose proof (not_eq_sym (state_not_temp st)) as Hne.
  destruct (atomic_write_effect _ _ _ _ _ Hne Hrun) as [[Hs Hr]|[Hs Hr]].
  - left. split; [|done]. by apply atomic_write_infra in Hrun; destruct r as [[]| |].
  - right. split; [done|]. unfold on_disk. rewrite Hs. unfold parse_state. rewrite Hb.
    rewrite (decode_encode _ Hwf'). cbn. by rewrite Hv.
Qed.

(** ** The lock scope *)
Abbreviation LA := (lock_area (path_for (state_path st))).

Lemma keeps_acquire_lock : keeps LA (acquire_lock st).
Proof.
  unfold acquire_lock. apply keeps_bind; [solve_keeps|]. intros _.
  generalize (@None string) as e. generalize 10%nat as n.
  induction n as [|n IH]; intros e; cbn [acquire_loop]; solve_keeps.
Qed.

Lemma acquire_loop_guard n e w g w' :
  acquire_loop n (state_path st) e w = (Ok g, w') -> lock_path g = path_for (state_path st).
Proof.
  revert e w. induction n as [|n IH]; intros e w; cbn [acquire_loop]; [done|].
  unfold bind, attempt.
  destruct (acquire (state_path st) LOCK_STALE_AFTER w) as [[g1|e1|] w1] eqn:Ea; cbv beta iota; [| |done].
  - unfold ret. intros ?. inv_res. by apply acquire_guard in Ea as ->.
  - case_decide; [apply IH | done].
Qed.

Lemma acquire_lock_infra w r w' :
  acquire_lock st w = (r, w') -> match r with Ok _ => True | _ => infra r end.
Proof.
  unfold acquire_lock, bind, map_err.
  destruct (fs_create_dir_all _ w) as [[[]|e|] w1]; [|unfold ret, throw; intros ?; by inv_res..].
  generalize (@None string) as e. generalize 10%nat as n. intros n. revert w1.
  induction n as [|n IH]; intros w1 e; cbn [acquire_loop]; [unfold ret, throw; intros ?; by inv_res|].
  unfold bind, attempt. destruct (acquire _ _ w1) as [[g|e1|] w2]; cbv beta iota;
    [unfold ret, throw; intros ?; by inv_res| |unfold ret, throw; intros ?; by inv_res].
  case_decide; [apply IH | unfold ret, throw; intros ?; by inv_res].
Qed.

Lemma with_lock_run {A} (body : M StateError A) w r w' :
  with_lock st body w = (r, w') ->
  (infra r /\ frame LA w w') \/
  exists w1 r1 w2, frame LA w w1 /\ body w1 = (r1, w2) /\ frame LA w2 w' /\ (r = r1 \/ r = Killed).
Proof.
  unfold with_lock, bind. destruct (acquire_lock st w) as [ra w1] eqn:Ea.
  pose proof (keeps_run _ _ _ _ _ keeps_acquire_lock Ea) as Hf.
  apply acquire_lock_infra in Ea as Hi.
  destruct ra as [g|e|]; cbv beta iota; [|intros ?; inv_res; by left..].
  assert (lock_path g = path_for (state_path st)) as Hg.
  { revert Ea. unfold acquire_lock, bind. case_match. case_match; try done. apply acquire_loop_guard. }
  unfold guarded. destruct (body w1) as [r1 w2] eqn:Eb. intros Hr. right. exists w1, r1, w2.
  split_and!; [done|done| |].
  - pose proof (keeps_release g) as Hk. rewrite Hg in Hk.
    destruct r1; [| |inv_res; apply frame_refl];
      destruct (release g w2) as [rr w3] eqn:Er; pose proof (keeps_run _ _ _ _ _ Hk Er);
      destruct rr; inv_res; done.
  - destruct r1; [| |inv_res; by left];
      destruct (release g w2) as [[] w3]; inv_res; auto.
Qed.

Lemma frame_same_state w w' : frame LA w w' -> same_state w w'.
Proof. intros Hf. apply (frame_files _ _ _ Hf). apply state_not_locked. Qed.

(** A continuation run after the state [s] was read. *)
Definition continues_rel {A} (s : RepositoryState) (m : M StateError A)
    (spec : (nat -> string) -> outcome A -> Prop) : Prop :=
  forall w r w', on_disk w s -> m w = (r, w') ->
    (infra r /\ same_state w w') \/
    exists o, spec (timestamps w (w_tick w)) o /\ agrees w r w' o.
Definition continues {A} (s : RepositoryState) (m : M StateError A)
    (o : (nat -> string) -> outcome A) : Prop :=
  forall w r w', on_disk w s -> m w = (r, w') ->
    (infra r /\ same_state w w') \/ agrees w r w' (o (timestamps w (w_tick w))).

(** An outcome seen from worlds that hold the same document before and after;
    dying at the release hides a success. *)
Lemma agrees_frame {A} w0 w1 w2 w3 (r r' : result StateError A) o :
  same_state w0 w1 -> same_state w2 w3 -> (r' = r \/ r' = Killed) ->
  agrees w1 r w2 o -> (infra r' /\ same_state w0 w3) \/ agrees w0 r' w3 o.
Proof.
  intros S01 S23 Hr. unfold agrees. destruct o as [e|[a [s'|]]]; intros [Hok Hd].
  - subst r. destruct Hr as [-> | ->]; [right; split; [done|] | left; split; [done|]];
      unfold same_state in *; congruence.
  - right. split; [naive_solver | by eapply on_disk_same].
  - right. split; [naive_solver | unfold same_state in *; congruence].
Qed.

(** The shape of every mutating operation: lock, read, decide, write. *)
Lemma implements_rel_locked {A} (k : RepositoryState -> M StateError A)
    (spec : (nat -> string) -> RepositoryState -> outcome A -> Prop) :
  (forall s, loadable s -> continues_rel s (k s) (fun t => spec t s)) ->
  implements_rel (with_lock st (bind (read_state st) k)) spec.
Proof.
  intros Hk w r w' Hrun. apply with_lock_run in Hrun as [[Hn Hf]|(w1 & r1 & w2 & F1 & Hb & F2 & Hr)].
  { left. split; [done | by apply frame_same_state]. }
  apply frame_same_state in F1 as S1. apply frame_same_state in F2 as S2.
  unfold bind in Hb. destruct (read_state st w1) as [rr w1'] eqn:Er.
  apply read_state_effect in Er as (Fr & Ht & Hs).
  assert (same_state w w1') as S1'.
  { unfold same_state in *. rewrite <- S1. apply (frame_files _ _ _ Fr); tauto. }
  destruct rr as [s|e|]; simplify_eq/=.
  - assert (on_disk w s) as Hd.
    { eapply on_disk_same; [|exact Hs]. unfold same_state in *. congruence. }
    destruct (Hk s (on_disk_loadable _ _ Hd) w1' r1 w2 (on_disk_same _ _ _ S1' Hd) Hb)
      as [[Hn Hsame]|(o & Ho & Hag)].
    + left. split; [by destruct Hr; subst | unfold same_state in *; congruence].
    + destruct (agrees_frame w w1' w2 w' r1 r o S1' S2 Hr Hag) as [?|?]; [by left|].
      right. exists s, (w_tick w1'), o. split_and!; [done| | |done].
      * rewrite Ht. apply (frame_tick _ _ _ F1).
      * revert Ho. unfold timestamps. by rewrite (frame_clock _ _ _ Fr), (frame_clock _ _ _ F1).
  - left. split; [by destruct Hr; subst | unfold same_state in *; congruence].
  - left. split; [by destruct Hr; subst | unfold same_state in *; congruence].
Qed.

Lemma implements_locked {A} (k : RepositoryState -> M StateError A)
    (spec : (nat -> string) -> RepositoryState -> outcome A) :
  (forall s, loadable s -> continues s (k s) (fun t => spec t s)) ->
  implements (with_lock st (bind (read_state st) k)) spec.
Proof.
  intros Hk. apply implements_rel_locked. intros s Hl w r w' Hd Hrun.
  destruct (Hk s Hl w r w' Hd Hrun); eauto.
Qed.

Lemma loadable_set_branch s b bs : loadable s -> codec_wf bs -> loadable (set_branch b bs s).
Proof.
  intros [Hv [Hver Hb]] Hbs. split; [done|]. split; [done|].
  by apply map_Forall_insert_2.
Qed.
Lemma loadable_lookup s b bs : loadable s -> s_branches s !! b = Some bs -> codec_wf bs.
Proof. intros [_ [_ Hb]] Hl. by apply (Hb b). Qed.
Lemma loadable_entry s b : loadable s -> codec_wf (branch_entry b s).
Proof.
  intros Hs. unfold branch_entry. destruct (s_branches s !! b) as [bs|] eqn:E; [|done].
  by apply (loadable_lookup s b).
Qed.

(** The write that ends a continuation, possibly followed by a return. *)
Lemma continue_write {A} s s' w (a : A) r w' (m : M StateError A) :
  loadable s' ->
  (forall w1, m w1 = (match write_state st s' w1 with
                      | (Ok _, w2) => (Ok a, w2)
                      | (Err e, w2) => (Err e, w2)
                      | (Killed, w2) => (Killed, w2)
                      end)) ->
  on_disk w s -> m w = (r, w') ->
  (infra r /\ same_state w w') \/ agrees w r w' (inr (a, Some s')).
Proof.
  intros Hl Hm Hd Hrun. rewrite Hm in Hrun.
  destruct (write_state st s' w) as [r1 w1] eqn:Ew.
  destruct (write_state_effect _ _ _ _ Hl Ew) as [[Hn Hs]|[-> Hs]].
  - left. destruct r1 as [u|e|]; inv_res; [done| |]; split; done.
  - inv_res. right. split; [by left | done].
Qed.

(** A request whose revision was checked first. *)
Lemma implements_validated {A} rev (m : M StateError A) spec :
  is_revision rev = true -> implements m spec ->
  implements (bind (lift (validate_revision rev)) (fun _ => m)) spec.
Proof. intros Hrev Hm w r w'. unfold bind, lift, validate_revision. rewrite Hrev. apply Hm. Qed.

(** Close the branches of a continuation that do not write. *)
Ltac no_write :=
  let Hrun := fresh in
  intros ? ? ? ? Hrun; unfold ret, throw in Hrun; inv_res; right; split; auto; done.
(** ... and those that read the clock [n] times and write. *)
Ltac ends_in_write n :=
  let w := fresh "w" in let r := fresh "r" in let w' := fresh "w'" in
  let Hd := fresh "Hd" in let Hrun := fresh "Hrun" in
  intros w r w' Hd Hrun;
  match n with
  | 1 => eapply (continue_write _ _ (bump_tick w)); [| |exact Hd|exact Hrun]
  | 2 => eapply (continue_write _ _ (bump_tick (bump_tick w))); [| |exact Hd|exact Hrun]
  | 3 => eapply (continue_write _ _ (bump_tick (bump_tick (bump_tick w))));
         [| |exact Hd|exact Hrun]
  end;
  [ apply loadable_set_branch; [done|]
  | let w1 := fresh in intros w1; cbv beta; unfold bind, ret;
    by destruct (write_state st _ w1) as [[[]| |] ?] ].

Lemma seed_cursor_implements branch revision :
  is_revision revision = true ->
  implements (seed_cursor st branch revision) (spec_seed branch revision).
Proof.
  intros Hrev. unfold seed_cursor. apply implements_validated, implements_locked; [done|]. intros s Hl.
  unfold spec_seed. pose proof (loadable_entry s branch Hl) as He.
  destruct (branch_entry branch s) as [c fl lf lo up]. destruct He as [Hfl Hlf].
  cbn [b_cursor b_in_flight b_last_failure b_last_observation_failure] in *.
  destruct c as [c|], fl as [fl|].
  - no_write.
  - destruct (String.eqb c revision); no_write.
  - no_write.
  - ends_in_write 1. done.
Qed.

Lemma record_observation_failure_implements branch kind message :
  implements (record_observation_failure st branch kind message)
    (spec_record_observation branch kind message).
Proof.
  apply implements_locked. intros s Hl. unfold spec_record_observation.
  pose proof (loadable_entry s branch Hl) as He.
  destruct (branch_entry branch s) as [c fl lf lo up]. destruct He as [Hfl Hlf].
  cbn [b_cursor b_in_flight b_last_failure b_last_observation_failure] in *.
  ends_in_write 2. done.
Qed.

Lemma clear_observation_failure_implements branch :
  implements (clear_observation_failure st branch) (spec_clear_observation branch).
Proof.
  apply implements_locked. intros s Hl. unfold spec_clear_observation.
  destruct (s_branches s !! branch) as [bs|] eqn:E; [|no_write].
  pose proof (loadable_lookup s branch bs Hl E) as He.
  destruct bs as [c fl lf lo up]. destruct He as [Hfl Hlf].
  cbn [b_cursor b_in_flight b_last_failure b_last_observation_failure] in *.
  destruct lo; [|no_write]. ends_in_write 1. done.
Qed.

Lemma admit_implements branch head :
  is_revision head = true -> implements (admit_range st branch head) (spec_admit branch head).
Proof.
  intros Hhead. unfold admit_range. apply implements_validated, implements_locked; [done|]. intros s Hl.
  unfold spec_admit. destruct (s_branches s !! branch) as [bs|] eqn:E; [|no_write].
  pose proof (loadable_lookup s branch bs Hl E) as He.
  destruct bs as [c fl lf lo up]. destruct He as [Hfl Hlf].
  cbn [b_cursor b_in_flight b_last_failure b_last_observation_failure] in *.
  destruct (decide (c = Some head)); [no_write|].
  destruct fl as [fl|]; [destruct (String.eqb (r_head fl) head); no_write|].
  destruct c as [base|]; [|no_write]. ends_in_write 3.
  split; [cbn; unfold is_u32, u32_max; cbn; lia | done].
Qed.

Lemma retry_attempt_implements branch head :
  implements (retry_attempt st branch head) (spec_retry branch head).
Proof.
  apply implements_locked. intros s Hl. unfold spec_retry.
  destruct (s_branches s !! branch) as [bs|] eqn:E; [|no_write].
  pose proof (loadable_lookup s branch bs Hl E) as He.
  destruct bs as [c fl lf lo up]. destruct He as [Hfl Hlf].
  cbn [b_cursor b_in_flight b_last_failure b_last_observation_failure] in *.
  destruct fl as [fl|]; [|no_write].
  destruct (String.eqb (r_head fl) head); cbn [negb]; [|no_write].
  ends_in_write 2. split; [|done]. apply u32_wrapping_add_u32.
Qed.

Lemma fail_range_implements branch head reason :
  implements (fail_range st branch head reason) (spec_fail branch head reason).
Proof.
  apply implements_locked. intros s Hl. unfold spec_fail.
  destruct (s_branches s !! branch) as [bs|] eqn:E; [|no_write].
  pose proof (loadable_lookup s branch bs Hl E) as He.
  destruct bs as [c fl lf lo up]. destruct He as [Hfl Hlf].
  cbn [b_cursor b_in_flight b_last_failure b_last_observation_failure] in *.
  destruct fl as [fl|]; [|no_write].
  destruct (String.eqb (r_head fl) head); cbn [negb]; [|no_write].
  ends_in_write 2. done.
Qed.
End Refinement.
