(* ===== verification/Completion.v ===== *)
(** * Completing a review: the record lands before the cursor advances

    The refinement of [complete], and the ordering guarantee of ADR 0021 under
    every fault schedule. *)
From S2P Require Import Prelude RustStr Json Time World LockDir Sim Profile ProfileProofs.
From S2P Require Import State Store StoreProofs.
#[local] Open Scope string_scope.
#[local] Open Scope Z_scope.

(** ** Where records are *)
Lemma hex_plain s : str_forall is_ascii_hexdigit s = true -> contains_char "/" s = false.
Proof.
  induction s as [|c s IH]; cbn [str_forall contains_char]; [done|].
  intros [Hc Hs]%andb_true_iff. rewrite IH by done.
  revert Hc. by destruct c as [[][][][][][][][]]; vm_compute.
Qed.
Lemma revision_json_plain head : is_revision head = true -> plain_name (head ++ ".json") = true.
Proof.
  unfold is_revision. intros [Hl Hh]%andb_true_iff. unfold plain_name.
  rewrite contains_char_app, hex_plain by done.
  destruct head as [|c h]; [done|]. cbn [append is_empty negb].
  destruct (String.eqb_spec (String c (h ++ ".json")) "."%string) as [[= -> Hh']|]; [|done].
  by destruct h.
Qed.

Lemma temp_path_snoc (d : path) c :
  plain_name c = true -> c <> ".." -> temp_path (d ++ [c])%list = (d ++ [("." ++ c ++ ".tmp")%string])%list.
Proof.
  intros Hc Hdd. unfold temp_path.
  assert (c <> "/") as Hs by (intros ->; done).
  rewrite parent_snoc, file_name_snoc by done. apply join_plain.
  unfold plain_name in *. rewrite !andb_true_iff, !negb_true_iff in Hc.
  destruct Hc as [[Hsl Hne] _]. cbn -[contains_char append String.eqb].
  change ("." ++ c ++ ".tmp") with (String "." (c ++ ".tmp")). cbn [contains_char is_empty].
  rewrite contains_char_app, Hsl. cbn.
  by destruct c.
Qed.

Section Paths.
Context (st : Store).

(** A record file lies in the [records] tree, two levels down at least. *)
Lemma record_path_shape branch head :
  is_revision head = true ->
  exists mid, record_path st branch head
              = (st_repo_dir st ++ ("records" :: mid) ++ [(head ++ ".json")%string])%list.
Proof.
  intros Hh. unfold record_path, records_branch_dir.
  rewrite (join_plain _ (head ++ ".json")) by by apply revision_json_plain.
  rewrite join_slug by by apply slug_chars.
  change (join (st_repo_dir st) "records") with (st_repo_dir st ++ ["records"])%list.
  destruct (is_empty (sanitize_branch branch)).
  - exists []. by rewrite <- app_assoc.
  - exists [sanitize_branch branch]. by rewrite <- !app_assoc.
Qed.

Lemma revision_json_not_dots head : is_revision head = true -> (head ++ ".json")%string <> "..".
Proof. intros Hh Heq. by destruct head as [|c [|d [|e h]]]. Qed.

Context (branch head : string).
Hypothesis Hhead : is_revision head = true.

Lemma record_not_state : record_path st branch head <> state_path st.
Proof.
  destruct (record_path_shape branch head Hhead) as (mid & ->). rewrite state_path_eq.
  intros Heq. by apply app_inv_head in Heq.
Qed.
Lemma record_not_state_temp : record_path st branch head <> temp_path (state_path st).
Proof.
  destruct (record_path_shape branch head Hhead) as (mid & ->). rewrite state_temp_eq.
  intros Heq. by apply app_inv_head in Heq.
Qed.
Lemma record_not_locked : ~ lock_area (path_for (state_path st)) (record_path st branch head).
Proof.
  destruct (record_path_shape branch head Hhead) as (mid & ->). rewrite state_lock_eq.
  intros [Heq|Heq].
  - by apply app_inv_head in Heq.
  - unfold owner_file in Heq. rewrite <- app_assoc in Heq. by apply app_inv_head in Heq.
Qed.

Lemma record_temp_eq :
  exists mid, temp_path (record_path st branch head)
              = (st_repo_dir st ++ ("records" :: mid) ++ [("." ++ (head ++ ".json") ++ ".tmp")%string])%list.
Proof.
  destruct (record_path_shape branch head Hhead) as (mid & ->). exists mid.
  rewrite !app_assoc, temp_path_snoc; [done | by apply revision_json_plain
    | by apply revision_json_not_dots].
Qed.
Lemma record_temp_not_state : temp_path (record_path st branch head) <> state_path st.
Proof.
  destruct record_temp_eq as (mid & ->). rewrite state_path_eq. intros Heq.
  by apply app_inv_head in Heq.
Qed.
End Paths.

(** ** Landing the record *)
Section Landing.
Context `{EnvOk} (st : Store).

Lemma fs_exists_effect {E} p w (r : result E bool) w' :
  fs_exists p w = (r, w') -> frame (fun _ => False) w w' /\ w_tick w' = w_tick w /\
  match r with Ok true => present w' p | Ok false => True | Err _ => False | Killed => True end.
Proof.
  intros Hr. split; [eapply keeps_run; [|exact Hr]; solve_keeps|].
  revert Hr. unfold fs_exists, fs_metadata, bind, attempt, syscall, eff_metadata, ret.
  destruct (w_fault w (w_op w)) as [|t|t].
  - destruct (w_fs w !! p) as [n|] eqn:E1; intros ?; inv_res; split; try done. by exists n.
  - intros ?; inv_res; by split.
  - intros ?; inv_res; by split.
Qed.

Lemma keeps_write_record_once rp record :
  keeps (fun q => q = rp \/ q = temp_path rp) (write_record_once rp record).
Proof.
  unfold write_record_once. apply keeps_bind; [solve_keeps|]. intros [].
  - solve_keeps.
  - destruct (parent rp); [|solve_keeps].
    apply keeps_bind; [solve_keeps|]. intros _. apply keeps_bind; [solve_keeps|].
    intros b. apply keeps_atomic_write.
Qed.

(** Success leaves something at the record's path: what was there, or the
    record itself. *)
Lemma write_record_once_effect rp record w r w' :
  temp_path rp <> rp -> codec_wf record ->
  write_record_once rp record w = (r, w') ->
  match r with
  | Ok _ => present w' rp /\
            (file_at w' rp = file_at w rp \/
             exists b, file_at w' rp = Some b /\ from_slice b = inr (encode record))
  | _ => parent rp <> None -> infra r
  end.
Proof.
  intros Hne Hwf. unfold write_record_once, bind.
  destruct (fs_exists rp w) as [re w1] eqn:Ee. apply fs_exists_effect in Ee as (F1 & _ & He).
  assert (file_at w1 rp = file_at w rp) as S1 by (apply (frame_files _ _ _ F1); tauto).
  destruct re as [[]|e|]; [| |done|intros ?; by inv_res].
  - unfold ret. intros ?; inv_res. split; [done | by left].
  - destruct (parent rp) as [d|]; [|unfold panic; intros ?; by inv_res].
    unfold map_err. destruct (fs_create_dir_all d w1) as [[[]|e|] w2] eqn:Ed; [|intros ?; by inv_res..].
    assert (file_at w2 rp = file_at w1 rp) as S2.
    { apply (frame_files (fun _ => False)); [|tauto]. eapply keeps_run; [|exact Ed]. solve_keeps. }
    unfold record_body.
    destruct (json_text_round_trip _ (encode_representable _ Hwf)) as (b & -> & Hb). cbn [lift].
    unfold lift. intros Hr. destruct (atomic_write_effect _ _ _ _ _ Hne Hr) as [[Hs Hok]|[Hs ->]].
    + apply atomic_write_infra in Hr. by destruct r as [[]| |].
    + split; [|right; by exists b]. revert Hs. unfold file_at, file_in, present.
      destruct (w_fs w' !! rp); [by eexists|done].
Qed.
End Landing.

(** ** The refinement of [complete] *)
Section Complete.
Context `{EnvOk} (st : Store).

(** Completion times: one clock reading comes first when the record carries
    no time of its own. *)
Definition spec_complete_rel (record : ReviewRecord) (t : nat -> string) (s : RepositoryState)
    (o : outcome Completion) : Prop :=
  exists n there, o = spec_complete (record_path st (rec_branch record) (rec_head record))
                        record there (t n) s.

Definition well_formed_request (record : ReviewRecord) : Prop :=
  codec_wf record /\ rec_version record = RECORD_VERSION /\
  is_revision (rec_base record) = true /\ is_revision (rec_head record) = true /\
  is_blank (rec_branch record) = false.

Lemma timestamps_later w w' :
  w_clock w' = w_clock w -> (w_tick w <= w_tick w')%nat ->
  exists n, iso_from_unix_ms (w_clock w' (w_tick w')) = timestamps w (w_tick w) n.
Proof.
  intros Hc Ht. exists (w_tick w' - w_tick w)%nat. unfold timestamps. rewrite Hc. do 2 f_equal. lia.
Qed.

Lemma stamped_effect record w r w' :
  stamped record w = (r, w') ->
  frame (fun _ => False) w w' /\
  exists t, r = Ok (if is_blank (rec_completed_at record) then stamp_completed t record else record).
Proof.
  intros Hr. split; [eapply keeps_run; [|exact Hr]; unfold stamped; solve_keeps|].
  revert Hr. unfold stamped. destruct (is_blank _).
  - unfold now_iso, now_ms, bind, ret. intros ?; inv_res. eauto.
  - unfold ret. intros ?; inv_res. by exists "".
Qed.

Lemma complete_replay_agrees bs record rp stray s w r w' :
  s_branches s !! rec_branch record = Some bs ->
  (forall range, b_in_flight bs = Some range -> range_matches range record = false) ->
  stray = StrayCompletion (rec_branch record) (rec_base record) (rec_head record) ->
  complete_replay bs record rp stray w = (r, w') ->
  (infra r /\ same_state st w w') \/
  exists there, forall now, agrees st w r w' (spec_complete rp record there now s).
Proof.
  intros Hb Hm -> Hrun. unfold spec_complete. rewrite Hb. destruct bs as [c fl lf lo up]. cbn in Hm.
  revert Hrun. unfold complete_replay. cbn [b_cursor].
  case_decide as Hc.
  - unfold bind. destruct (fs_exists rp w) as [re w1] eqn:Ee.
    apply fs_exists_effect in Ee as (F1 & _ & He).
    assert (same_state st w w1) as S1 by (apply (frame_files _ _ _ F1); tauto).
    destruct re as [there|e|]; [|done|intros ?; inv_res; by left].
    intros Hr. right. exists there. intros now.
    destruct fl as [fl|]; [rewrite (Hm fl) by done|]; destruct there; unfold ret, throw in Hr; inv_res;
      split; auto.
  - unfold throw. intros ?; inv_res. right. exists false. intros now.
    destruct fl as [fl|]; [rewrite (Hm fl) by done|]; by split.
Qed.

(** The record's place after a run: what was there, or the record. *)
Definition landed (record : ReviewRecord) (w w' : World) : Prop :=
  let rp := record_path st (rec_branch record) (rec_head record) in
  present w' rp /\
  (file_at w' rp = file_at w rp \/
   exists b, file_at w' rp = Some b /\ from_slice b = inr (encode record)).

Lemma record_parent branch head :
  is_revision head = true -> parent (record_path st branch head) <> None.
Proof.
  intros Hh. destruct (record_path_shape st branch head Hh) as (mid & ->).
  rewrite app_assoc, parent_snoc; [done|]. intros Heq. by destruct head as [|c [|d h]].
Qed.

Lemma record_not_temp branch head :
  is_revision head = true -> temp_path (record_path st branch head) <> record_path st branch head.
Proof.
  intros Hh. destruct (record_path_shape st branch head Hh) as (mid & ->).
  rewrite app_assoc, temp_path_snoc by (by apply revision_json_plain || by apply revision_json_not_dots).
  intros Heq. apply app_inj_2 in Heq as [_ [= Heq]]; [|done].
  apply (f_equal len) in Heq. change (String "." ((head ++ ".json") ++ ".tmp"))
    with ("." ++ ((head ++ ".json") ++ ".tmp")) in Heq. rewrite !str_len_app in Heq. cbn in Heq. lia.
Qed.

Lemma record_not_state_area record :
  is_revision (rec_head record) = true ->
  let rp := record_path st (rec_branch record) (rec_head record) in
  ~ (state_path st = rp \/ state_path st = temp_path rp) /\
  ~ (rp = state_path st \/ rp = temp_path (state_path st)).
Proof.
  intros Hh rp.
  pose proof (record_not_state st (rec_branch record) _ Hh).
  pose proof (record_temp_not_state st (rec_branch record) _ Hh).
  pose proof (record_not_state_temp st (rec_branch record) _ Hh). naive_solver.
Qed.

Lemma complete_in_flight_effect record s bs range w r w' :
  let rp := record_path st (rec_branch record) (rec_head record) in
  codec_wf record -> is_revision (rec_head record) = true ->
  loadable s -> s_branches s !! rec_branch record = Some bs ->
  complete_in_flight st s bs range record rp w = (r, w') ->
  (infra r /\ same_state st w w') \/
  (landed record w w' /\ exists n, agrees st w r w' (inr (Completed range rp,
     Some (set_branch (rec_branch record) (mkBranch (Some (rec_head record)) None
       (b_last_failure bs) (b_last_observation_failure bs) (timestamps w (w_tick w) n)) s)))).
Proof.
  intros rp Hwf Hhead Hl Hb. unfold complete_in_flight, bind at 1.
  destruct (record_not_state_area record Hhead) as [Hst Hrp]. fold rp in Hst, Hrp.
  destruct (write_record_once rp record w) as [r1 w1] eqn:E1.
  pose proof (write_record_once_effect rp record w r1 w1 (record_not_temp _ _ Hhead) Hwf E1) as He1.
  pose proof (keeps_run _ _ _ _ _ (keeps_write_record_once rp record) E1) as F1.
  assert (same_state st w w1) as S1 by by apply (frame_files _ _ _ F1).
  pose proof (record_parent (rec_branch record) (rec_head record) Hhead) as Hpar.
  destruct r1 as [[]|e|]; [|intros ?; inv_res; left; auto..]. destruct He1 as [Hp1 Hc1].
  unfold now_iso, now_ms, bind, ret.
  destruct (timestamps_later w w1 (frame_clock _ _ _ F1) (frame_tick _ _ _ F1)) as [n Hn].
  destruct (write_state _ _ (bump_tick w1)) as [r2 w2] eqn:E2.
  assert (frame (fun q => q = state_path st \/ q = temp_path (state_path st)) (bump_tick w1) w2) as F2.
  { eapply keeps_run; [|exact E2]. unfold write_state. apply keeps_bind; [solve_keeps|].
    intros b. apply keeps_atomic_write. }
  assert (landed record w w2) as Hland.
  { split; [apply (frame_present _ _ _ F2 rp Hrp Hp1)|]. fold rp.
    rewrite (frame_files _ _ _ F2 rp Hrp). exact Hc1. }
  apply write_state_effect in E2 as [[Hi Hs]|[-> Hs]].
  - intros Hr. left. unfold same_state in *. change (file_at (bump_tick w1)) with (file_at w1) in Hs.
    destruct r2 as [[]| |]; inv_res; split; done || congruence.
  - intros ?; inv_res. right. split; [done|]. exists n. rewrite <- Hn. split; [by left|done].
  - apply loadable_set_branch; [done|]. split; [done|]. by destruct (loadable_lookup s (rec_branch record) bs Hl Hb).
Qed.

Lemma complete_loaded_effect record s w r w' :
  codec_wf record -> is_revision (rec_head record) = true -> loadable s ->
  complete_loaded st (StrayCompletion (rec_branch record) (rec_base record) (rec_head record))
    s record w = (r, w') ->
  ((infra r /\ same_state st w w') \/
   exists o, spec_complete_rel record (timestamps w (w_tick w)) s o /\ agrees st w r w' o)
  /\ (same_state st w w' \/ landed record w w').
Proof.
  intros Hwf Hhead Hl Hrun. unfold complete_loaded in Hrun. unfold spec_complete_rel.
  destruct (s_branches s !! rec_branch record) as [bs|] eqn:Eb.
  2:{ unfold throw in Hrun; inv_res. split; [right|by left]. eexists. split; [by exists 0%nat, true|].
      unfold spec_complete. by rewrite Eb. }
  set (rp := record_path st (rec_branch record) (rec_head record)) in *.
  destruct (match b_in_flight bs with Some x => range_matches x record | None => false end) eqn:Em.
  - destruct (b_in_flight bs) as [range|] eqn:Ef; [|done]. rewrite Em in Hrun.
    destruct (complete_in_flight_effect record s bs range w r w') as [[Hi Hs]|[Hland [n Ha]]];
      [done..|split; auto|].
    split; [right|by right]. eexists. split; [by exists n, true|]. unfold spec_complete.
    rewrite Eb. destruct bs as [c fl lf lo up]. cbn in Ef. subst fl. by rewrite Em.
  - assert (exists stray, stray = StrayCompletion (rec_branch record) (rec_base record) (rec_head record)
              /\ complete_replay bs record rp stray w = (r, w')) as (stray & Hst & Hrep)
      by (eexists; split; [done|]; destruct (b_in_flight bs); [by rewrite Em in Hrun|done]).
    assert (same_state st w w') as Hsame.
    { eapply (frame_files (fun _ => False)); [|tauto]. eapply keeps_run; [|exact Hrep].
      unfold complete_replay. solve_keeps. }
    split; [|by left]. destruct (complete_replay_agrees bs record rp stray s w r w' Eb) as [?|[there Ht]];
      [by intros ? Hf; rewrite Hf in Em|done|done|by left|].
    right. eexists. split; [by exists 0%nat, there|]. apply Ht.
Qed.

(** The record [complete] files: stamped when it carries no time. *)
Definition filed_as (record record' : ReviewRecord) : Prop :=
  record' = record \/
  is_blank (rec_completed_at record) = true /\ exists t, record' = stamp_completed t record.

Lemma filed_as_same record record' :
  filed_as record record' ->
  rec_branch record' = rec_branch record /\ rec_base record' = rec_base record /\
  rec_head record' = rec_head record /\ (codec_wf record -> codec_wf record').
Proof. by intros [->|[_ [t ->]]]. Qed.

Lemma spec_complete_rel_later record record' w w1 s o :
  filed_as record record' -> frame (fun _ => False) w w1 ->
  spec_complete_rel record' (timestamps w1 (w_tick w1)) s o ->
  spec_complete_rel record (timestamps w (w_tick w)) s o.
Proof.
  intros Hf F (n & there & ->). exists (w_tick w1 - w_tick w + n)%nat, there.
  unfold timestamps. rewrite (frame_clock _ _ _ F). pose proof (frame_tick _ _ _ F).
  replace (w_tick w1 - w_tick w + n + w_tick w)%nat with (n + w_tick w1)%nat by lia.
  unfold spec_complete, range_matches. destruct (filed_as_same _ _ Hf) as (-> & -> & -> & _). done.
Qed.

(** The body of [complete] after the state was read. *)
Lemma complete_body_effect record s w r w' :
  well_formed_request record -> loadable s ->
  bind (stamped record) (complete_loaded st
    (StrayCompletion (rec_branch record) (rec_base record) (rec_head record)) s) w = (r, w') ->
  ((infra r /\ same_state st w w') \/
   exists o, spec_complete_rel record (timestamps w (w_tick w)) s o /\ agrees st w r w' o)
  /\ (same_state st w w' \/ exists record', filed_as record record' /\ landed record' w w').
Proof.
  intros (Hwf & _ & _ & Hhead & _) Hl. unfold bind.
  destruct (stamped record w) as [rs w1] eqn:Es. apply stamped_effect in Es as (F1 & t & ->).
  set (record' := if is_blank _ then _ else _).
  assert (filed_as record record') as Hf.
  { unfold record', filed_as. destruct (is_blank _) eqn:E; [right; eauto | by left]. }
  destruct (filed_as_same _ _ Hf) as (Hb & Hba & Hh & Hw).
  rewrite <- Hb, <- Hba, <- Hh. intros Hrun.
  assert (same_state st w w1) as S1 by (apply (frame_files _ _ _ F1); tauto).
  apply complete_loaded_effect in Hrun as [Hag Hland]; [|auto|by rewrite Hh|done].
  split.
  - destruct Hag as [[Hi Hs]|(o & Ho & Ha)]; [left; split; [done|]; unfold same_state in *; congruence|].
    destruct (agrees_frame st w w1 w' w' r r o) as [?|?]; [done|done|by left|done|by left|].
    right. exists o. split; [|done]. by eapply spec_complete_rel_later.
  - destruct Hland as [Hs|[Hp Hc]]; [left; unfold same_state in *; congruence|].
    right. exists record'. split; [done|]. split; [done|].
    destruct Hc as [Hc|Hc]; [left|by right]. rewrite Hc. apply (frame_files _ _ _ F1). tauto.
Qed.

Lemma complete_unguarded record :
  well_formed_request record ->
  complete st record = with_lock st (
    let* state := read_state st in
    let* record' := stamped record in
    complete_loaded st (StrayCompletion (rec_branch record) (rec_base record) (rec_head record))
      state record').
Proof.
  intros (_ & Hv & Hb & Hh & Hbl). unfold complete. rewrite Hv, Hbl. cbn [negb Z.eqb].
  unfold validate_revision. by rewrite Hb, Hh.
Qed.

Lemma complete_implements record :
  well_formed_request record -> implements_rel st (complete st record) (spec_complete_rel record).
Proof.
  intros Hrec. rewrite complete_unguarded by done. apply implements_rel_locked.
  intros s Hl w r w' _ Hrun. by destruct (complete_body_effect record s w r w' Hrec Hl Hrun).
Qed.

Lemma complete_lands record w r w' :
  well_formed_request record -> complete st record w = (r, w') ->
  same_state st w w' \/ exists record', filed_as record record' /\ landed record' w w'.
Proof.
  intros Hrec. rewrite complete_unguarded by done. intros Hrun.
  apply with_lock_run in Hrun as [[_ Hf]|(w1 & r1 & w2 & F1 & Hb & F2 & _)].
  { left. by apply frame_same_state. }
  unfold bind at 1 in Hb. destruct (read_state st w1) as [rr w1'] eqn:Er.
  apply read_state_effect in Er as (Fr & _ & Hs).
  apply frame_same_state in F1 as S1. apply frame_same_state in F2 as S2.
  assert (same_state st w1 w1') as S1' by (apply (frame_files _ _ _ Fr); tauto).
  destruct rr as [s|e|]; [|inv_res; left; unfold same_state in *; congruence..].
  destruct (complete_body_effect record s w1' r1 w2 Hrec (on_disk_loadable _ _ _ Hs) Hb)
    as [_ [S3|(record' & Hf & Hp & Hc)]]; [left; unfold same_state in *; congruence|].
  right. exists record'. split; [done|].
  destruct (filed_as_same _ _ Hf) as (Eb & _ & Eh & _).
  assert (is_revision (rec_head record') = true) as Hh by (rewrite Eh; apply Hrec).
  pose proof (record_not_locked st (rec_branch record') _ Hh) as Hnl.
  split; [by apply (frame_present _ _ _ F2)|]. rewrite !(frame_files _ _ _ F2) by done.
  destruct Hc as [Hc|Hc]; [left|by right]. rewrite Hc, (frame_files _ _ _ Fr) by tauto.
  by apply (frame_files _ _ _ F1).
Qed.
End Complete.
