(* ===== verification/Machine.v ===== *)
(** * The life of a repository's state

    Arbitrary interleavings of store operations, process deaths and changes of
    the surroundings, with the invariants that hold in every world they reach:
    a cursor is a seed or has its review record on disk, and every branch
    moves along its phase machine. *)
From S2P Require Import Prelude RustStr Json Time World LockDir Sim Profile ProfileProofs.
From S2P Require Import State Store StoreProofs Completion.
#[local] Open Scope string_scope.
#[local] Open Scope Z_scope.

(** ** Operations *)
Inductive Op :=
| OpSeed (branch revision : string)
| OpObserveFail (branch kind message : string)
| OpObserveClear (branch : string)
| OpAdmit (branch head : string)
| OpRetry (branch head : string)
| OpFail (branch head reason : string)
| OpComplete (record : ReviewRecord)
| OpDeliver (branch head channel : string) (d : DeliveryState).

Definition op_branch (o : Op) : string :=
  match o with
  | OpSeed b _ | OpObserveFail b _ _ | OpObserveClear b | OpAdmit b _ | OpRetry b _
  | OpFail b _ _ | OpDeliver b _ _ _ => b
  | OpComplete r => rec_branch r
  end.

(** What the Rust types and the callers guarantee about an operation's
    arguments: integer widths, and deliveries are for filed records. *)
Definition op_typed (o : Op) : Prop :=
  match o with
  | OpComplete r => codec_wf r
  | OpDeliver _ head _ _ => is_revision head = true
  | _ => True
  end.

Definition op_seeds (o : Op) : gset (string * string) :=
  match o with OpSeed b r => {[ (b, r) ]} | _ => ∅ end.

Section Machine.
Context `{EnvOk} (st : Store).

Definition discard {A} (m : M StateError A) (w : World) : World := (m w).2.

Definition run_op (o : Op) (w : World) : World :=
  match o with
  | OpSeed b r => discard (seed_cursor st b r) w
  | OpObserveFail b k m => discard (record_observation_failure st b k m) w
  | OpObserveClear b => discard (clear_observation_failure st b) w
  | OpAdmit b h => discard (admit_range st b h) w
  | OpRetry b h => discard (retry_attempt st b h) w
  | OpFail b h r => discard (fail_range st b h r) w
  | OpComplete r => discard (complete st r) w
  | OpDeliver b h c d => discard (update_delivery st b h c d) w
  end.

(** ** What an operation does to one branch *)
Definition next_branch (o : Op) (b b' : BranchState) : Prop :=
  match o with
  | OpSeed _ r =>
      is_revision r = true /\ b_cursor b = None /\ b_in_flight b = None
      /\ b_cursor b' = Some r /\ b_in_flight b' = None
  | OpObserveFail _ _ _ | OpObserveClear _ =>
      b_cursor b' = b_cursor b /\ b_in_flight b' = b_in_flight b
  | OpAdmit _ h =>
      is_revision h = true /\ exists c t1 t2, b_cursor b = Some c /\ c <> h /\ b_in_flight b = None
      /\ b_cursor b' = Some c /\ b_in_flight b' = Some (mkRange c h t1 1 t2)
  | OpRetry _ h =>
      exists r t, b_in_flight b = Some r /\ r_head r = h
      /\ b_cursor b' = b_cursor b /\ b_in_flight b' = Some (rearmed r t)
  | OpFail _ h _ =>
      exists r, b_in_flight b = Some r /\ r_head r = h
      /\ b_cursor b' = b_cursor b /\ b_in_flight b' = None
  | OpComplete rec =>
      exists r, b_in_flight b = Some r /\ r_base r = rec_base rec /\ r_head r = rec_head rec
      /\ b_cursor b' = Some (rec_head rec) /\ b_in_flight b' = None
  | OpDeliver _ _ _ _ => False
  end.

(** The document either stays or changes at the operation's branch only. *)
Definition op_effect (o : Op) (w w' : World) : Prop :=
  same_state st w w' \/
  exists s b', on_disk st w s /\ next_branch o (branch_entry (op_branch o) s) b'
    /\ on_disk st w' (with_git_root st (set_branch (op_branch o) b' s)).

Lemma branch_entry_lookup b s bs : s_branches s !! b = Some bs -> branch_entry b s = bs.
Proof. unfold branch_entry. by intros ->. Qed.

(** Read the effect off a refinement. *)
Lemma implements_effect {A} o (m : M StateError A) spec w :
  implements st m spec ->
  (forall t s a s', spec t s = inr (a, Some s') ->
     exists b', s' = set_branch (op_branch o) b' s /\ next_branch o (branch_entry (op_branch o) s) b') ->
  op_effect o w (discard m w).
Proof.
  intros Hm Hs. unfold discard. destruct (m w) as [r w'] eqn:E. cbn.
  apply Hm in E as [[_ ?]|(s & k & x & Hd & _ & -> & Ha)]; [by left|].
  destruct (spec (timestamps w k) s) as [e|[a [s'|]]] eqn:Es.
  - left. apply Ha.
  - apply Hs in Es as (b' & -> & Hb). right. exists s, b'. split_and!; [done|done|apply Ha].
  - left. apply Ha.
Qed.

Lemma seed_effect b r w : op_effect (OpSeed b r) w (run_op (OpSeed b r) w).
Proof.
  cbn [run_op]. destruct (is_revision r) eqn:Hr.
  - eapply implements_effect; [by apply seed_cursor_implements|]. unfold spec_seed.
    intros t s a s'. cbn [op_branch]. destruct (branch_entry b s) as [c fl lf lo up]; cbn.
    destruct c as [c|], fl as [fl|]; [done| |done|].
    + destruct (String.eqb c r); naive_solver.
    + intros [= _ <-]. eexists. split; [done|]. done.
  - left. unfold discard, seed_cursor, bind, lift, validate_revision. by rewrite Hr.
Qed.
Lemma observe_fail_effect b k m w : op_effect (OpObserveFail b k m) w (run_op (OpObserveFail b k m) w).
Proof.
  eapply implements_effect; [by apply record_observation_failure_implements|].
  unfold spec_record_observation. intros t s a s' [= _ <-]. eexists. split; [done|]. done.
Qed.
Lemma observe_clear_effect b w : op_effect (OpObserveClear b) w (run_op (OpObserveClear b) w).
Proof.
  eapply implements_effect; [by apply clear_observation_failure_implements|].
  unfold spec_clear_observation. intros t s a s'. cbn [op_branch].
  destruct (s_branches s !! b) as [[c fl lf [lo|] up]|] eqn:E; [|done..].
  intros [= _ <-]. eexists. split; [done|]. by rewrite (branch_entry_lookup _ _ _ E).
Qed.
Lemma admit_effect b h w : op_effect (OpAdmit b h) w (run_op (OpAdmit b h) w).
Proof.
  cbn [run_op]. destruct (is_revision h) eqn:Hr.
  - eapply implements_effect; [by apply admit_implements|]. unfold spec_admit.
    intros t s a s'. cbn [op_branch].
    destruct (s_branches s !! b) as [[c fl lf lo up]|] eqn:E; [|done].
    case_decide as Hc; [done|]. destruct fl as [fl|], c as [c|]; [done..| |done].
    intros [= _ <-]. eexists. split; [done|]. rewrite (branch_entry_lookup _ _ _ E). cbn.
    split; [done|]. exists c, (t 0%nat), (t 1%nat). split_and!; try done. congruence.
  - left. unfold discard, admit_range, bind, lift, validate_revision. by rewrite Hr.
Qed.
Lemma retry_effect b h w : op_effect (OpRetry b h) w (run_op (OpRetry b h) w).
Proof.
  eapply implements_effect; [by apply retry_attempt_implements|]. unfold spec_retry.
  intros t s a s'. cbn [op_branch].
  destruct (s_branches s !! b) as [[c [fl|] lf lo up]|] eqn:E; [|done..].
  destruct (String.eqb_spec (r_head fl) h); [|done]. intros [= _ <-]. eexists. split; [done|].
  rewrite (branch_entry_lookup _ _ _ E). cbn. eauto 10.
Qed.
Lemma fail_effect b h r w : op_effect (OpFail b h r) w (run_op (OpFail b h r) w).
Proof.
  eapply implements_effect; [by apply fail_range_implements|]. unfold spec_fail.
  intros t s a s'. cbn [op_branch].
  destruct (s_branches s !! b) as [[c [fl|] lf lo up]|] eqn:E; [|done..].
  destruct (String.eqb_spec (r_head fl) h); [|done]. intros [= _ <-]. eexists. split; [done|].
  rewrite (branch_entry_lookup _ _ _ E). cbn. eauto 10.
Qed.

(** A malformed completion is refused before anything is touched. *)
Lemma complete_refused record w :
  codec_wf record -> well_formed_request record \/ exists e, complete st record w = (Err e, w).
Proof.
  intros Hwf. unfold well_formed_request, complete, validate_revision.
  destruct (Z.eqb_spec (rec_version record) RECORD_VERSION); cbn [negb]; [|right; by eexists].
  destruct (is_revision (rec_base record)); [|right; by eexists].
  destruct (is_revision (rec_head record)); [|right; by eexists].
  destruct (is_blank (rec_branch record)); [right; by eexists | by left].
Qed.

Lemma complete_effect record w :
  codec_wf record -> op_effect (OpComplete record) w (run_op (OpComplete record) w).
Proof.
  intros Hwf. cbn [run_op]. unfold discard. destruct (complete st record w) as [r w'] eqn:E. cbn.
  destruct (complete_refused record w Hwf) as [Hrec|[e He]].
  2:{ rewrite He in E. inv_res. by left. }
  apply (complete_implements st record Hrec) in E as [[_ ?]|(s & k & x & Hd & _ & (n & th & ->) & Ha)];
    [by left|].
  unfold spec_complete in Ha.
  destruct (s_branches s !! rec_branch record) as [[c fl lf lo up]|] eqn:Eb; [|left; apply Ha].
  assert (forall e, agrees st w r w' (if decide (c = Some (rec_head record))
            then if th then inr (AlreadyComplete (rec_head record)
              (record_path st (rec_branch record) (rec_head record)), None) else inl e else inl e) ->
            same_state st w w') as Hreplay.
  { intros e0. case_decide; [destruct th|]; intros [_ ?]; done. }
  destruct fl as [fl|]; [|left; by eapply Hreplay].
  destruct (range_matches fl record) eqn:Em; [|left; by eapply Hreplay].
  unfold range_matches in Em. apply andb_true_iff in Em as [E1%String.eqb_eq E2%String.eqb_eq].
  right. eexists s, _. split_and!; [done| |apply Ha]. cbn [op_branch].
  rewrite (branch_entry_lookup _ _ _ Eb). cbn. eauto 10.
Qed.

(** ** Deliveries leave the state document alone *)
Lemma keeps_update_delivery_body b h c d :
  let rp := record_path st b h in
  keeps (fun q => q = rp \/ q = temp_path rp) (
    let* bytes := map_err (RecordMissing rp) (fs_read rp) in
    let* v := lift (match from_slice bytes with inl e => inl (MalformedRecord rp e) | inr v => inr v end) in
    let* record := lift (match decode v with
                         | None => inl (MalformedRecord rp (schema_error_text v))
                         | Some r => inr r
                         end) in
    if negb (String.eqb (rec_branch record) b)
    then throw (RecordBranchMismatch rp (rec_branch record) b)
    else let* body := lift (record_body rp (set_delivery c d record)) in atomic_write rp body).
Proof.
  intros rp. pose proof (keeps_atomic_write rp) as Hk.
  repeat (apply keeps_bind; [solve_keeps|intros ?]). destruct (negb _); [solve_keeps|].
  apply keeps_bind; [solve_keeps|]. auto.
Qed.

Lemma deliver_effect b h c d w :
  is_revision h = true -> same_state st w (run_op (OpDeliver b h c d) w).
Proof.
  intros Hh. cbn [run_op]. unfold discard. destruct (update_delivery st b h c d w) as [r w'] eqn:E. cbn.
  unfold update_delivery in E.
  apply with_lock_run in E as [[_ Hf]|(w1 & r1 & w2 & F1 & Hb & F2 & _)]; [by apply frame_same_state|].
  apply frame_same_state in F1 as S1. apply frame_same_state in F2 as S2.
  assert (same_state st w1 w2) as S12; [|unfold same_state in *; congruence].
  eapply frame_files; [eapply keeps_run; [|exact Hb]; apply keeps_update_delivery_body|].
  pose proof (record_not_state st b h Hh). pose proof (record_temp_not_state st b h Hh). naive_solver.
Qed.

Lemma run_op_effect o w : op_typed o -> op_effect o w (run_op o w).
Proof.
  destruct o; intros Ht.
  - apply seed_effect.
  - apply observe_fail_effect.
  - apply observe_clear_effect.
  - apply admit_effect.
  - apply retry_effect.
  - apply fail_effect.
  - by apply complete_effect.
  - left. by apply deliver_effect.
Qed.

(** ** Records never vanish *)
Definition stays (q : path) {A E} (m : M E A) : Prop := forall w, present w q -> present (m w).2 q.

Lemma keeps_stays (S : path -> Prop) q {A E} (m : M E A) : keeps S m -> ~ S q -> stays q m.
Proof. intros Hk HS w. by apply (frame_present _ _ _ (Hk w)). Qed.
Lemma stays_bind q {E A B} (m : M E A) (f : A -> M E B) :
  stays q m -> (forall a, stays q (f a)) -> stays q (bind m f).
Proof.
  intros Hm Hf w Hp. unfold bind. specialize (Hm w Hp). destruct (m w) as [[a|e|] w']; cbn in *; auto.
  by apply Hf.
Qed.
Lemma stays_map_err q {E F A} (g : E -> F) (m : M E A) : stays q m -> stays q (map_err g m).
Proof. intros Hm w Hp. specialize (Hm w Hp). unfold map_err. by destruct (m w) as [[] ?]. Qed.
Lemma stays_rename q a b : q <> a -> stays q (fs_rename a b).
Proof.
  intros Hq w. unfold fs_rename, syscall, eff_rename, present, untorn.
  destruct (w_fault w (w_op w)) as [|[]|[]]; cbn; try done.
  destruct (w_fs w !! a) as [[c|]|]; cbn; try done.
  destruct (writable (w_fs w) b); cbn; [|done]. intros Hp.
  destruct (decide (q = b)) as [->|]; [rewrite lookup_insert_eq; by eexists|].
  by rewrite lookup_insert_ne, lookup_delete_ne.
Qed.
Lemma stays_atomic_write q p c : q <> temp_path p -> stays q (atomic_write p c).
Proof.
  intros Hq. unfold atomic_write. apply stays_bind.
  - apply stays_map_err, (keeps_stays (fun x => x = temp_path p)); [solve_keeps|done].
  - intros _. by apply stays_map_err, stays_rename.
Qed.

Lemma stays_quietly q {A E} (m : M E A) : keeps (fun _ => False) m -> stays q m.
Proof. intros Hk. apply (keeps_stays (fun _ => False)); [done | tauto]. Qed.

(** [solve_stays] walks a program like [solve_keeps]; what is left are its
    atomic writes. *)
Ltac solve_stays :=
  repeat first
    [ progress intros
    | solve [simple apply stays_quietly; solve_keeps]
    | simple apply stays_bind
    | simple apply stays_map_err
    | simple apply stays_atomic_write
    | match goal with |- stays _ (match ?x with _ => _ end) => destruct x end ].

Section RecordStays.
Context (branch head : string).
Hypothesis Hhead : is_revision head = true.
Abbreviation rec_file := (record_path st branch head).

Lemma stays_with_lock {A} (body : M StateError A) :
  stays rec_file body -> stays rec_file (with_lock st body).
Proof.
  intros Hb w Hp. destruct (with_lock st body w) as [r w'] eqn:E. cbn.
  pose proof (record_not_locked st branch head Hhead) as Hnl.
  apply with_lock_run in E as [[_ Hf]|(w1 & r1 & w2 & F1 & Hrun & F2 & _)].
  - by apply (frame_present _ _ _ Hf).
  - apply (frame_present _ _ _ F2); [done|]. specialize (Hb w1). rewrite Hrun in Hb. apply Hb.
    by apply (frame_present _ _ _ F1).
Qed.

Lemma stays_write_state s : stays rec_file (write_state st s).
Proof. unfold write_state. solve_stays. by apply record_not_state_temp. Qed.
Lemma stays_read_state : stays rec_file (read_state st).
Proof. apply stays_quietly. unfold read_state. solve_keeps. Qed.

(** The temporary file of one record is no record. *)
Lemma record_not_record_temp b h :
  is_revision h = true -> rec_file <> temp_path (record_path st b h).
Proof.
  intros Hh. destruct (record_path_shape st branch head Hhead) as (mid & ->).
  destruct (record_temp_eq st b h Hh) as (mid' & ->). rewrite !app_assoc. intros Heq.
  apply app_inj_2 in Heq as [_ [= Heq]]; [|done]. unfold is_revision in Hhead.
  apply andb_true_iff in Hhead as [Hl Hx]. destruct head as [|c hd]; [done|].
  injection Heq as -> _. apply andb_true_iff in Hx as [Hx _]. by vm_compute in Hx.
Qed.

Lemma stays_complete_body stray s rec :
  is_revision (rec_head rec) = true ->
  stays rec_file (bind (stamped rec) (complete_loaded st stray s)).
Proof.
  intros Hh w Hp. unfold bind. destruct (stamped rec w) as [r w1] eqn:E.
  apply stamped_effect in E as (F & t & ->).
  assert (present w1 rec_file) as Hp1 by (apply (frame_present _ _ _ F); [tauto|done]).
  set (rec' := if is_blank _ then _ else _).
  assert (is_revision (rec_head rec') = true) as Hh' by (unfold rec'; by destruct (is_blank _)).
  pose proof (record_not_record_temp (rec_branch rec') (rec_head rec') Hh') as Hnt.
  pose proof stays_write_state as Hws.
  assert (stays rec_file (complete_loaded st stray s rec')) as Hst; [|by apply Hst].
  unfold complete_loaded, complete_in_flight, complete_replay, write_record_once. solve_stays; auto.
Qed.

Lemma run_op_stays o w : op_typed o -> present w rec_file -> present (run_op o w) rec_file.
Proof.
  assert (forall s, stays rec_file (write_state st s)) as Hws by apply stays_write_state.
  assert (stays rec_file (read_state st)) as Hrs by apply stays_read_state.
  intros Ht. destruct o as [b r|b k m|b|b h|b h|b h r|rec|b h c d]; cbn [run_op]; unfold discard.
  - revert w. change (stays rec_file (seed_cursor st b r)). unfold seed_cursor.
    apply stays_bind; [solve_stays|]. intros _. apply stays_with_lock. solve_stays; auto.
  - revert w. change (stays rec_file (record_observation_failure st b k m)).
    apply stays_with_lock. solve_stays; auto.
  - revert w. change (stays rec_file (clear_observation_failure st b)).
    apply stays_with_lock. solve_stays; auto.
  - revert w. change (stays rec_file (admit_range st b h)). unfold admit_range.
    apply stays_bind; [solve_stays|]. intros _. apply stays_with_lock. solve_stays; auto.
  - revert w. change (stays rec_file (retry_attempt st b h)).
    apply stays_with_lock. solve_stays; auto.
  - revert w. change (stays rec_file (fail_range st b h r)).
    apply stays_with_lock. solve_stays; auto.
  - destruct (complete_refused rec w Ht) as [Hrec|[e ->]]; [|done].
    rewrite complete_unguarded by done. destruct Hrec as (_ & _ & _ & Hh & _).
    revert w. apply stays_with_lock, stays_bind; [done|]. intros s. by apply stays_complete_body.
  - revert w. change (stays rec_file (update_delivery st b h c d)). apply stays_with_lock.
    solve_stays. by apply record_not_record_temp.
Qed.
End RecordStays.

(** ** Reachable worlds *)

(** What may happen between two operations of this store: the process dies and
    restarts, time passes, locks and other files come and go; the document and
    the filed records are the store's own. *)
Definition surroundings (w w' : World) : Prop :=
  same_state st w w' /\
  forall b h, is_revision h = true -> present w (record_path st b h) -> present w' (record_path st b h).

(** [reach seeds w]: the world [w] comes from one without a state document by
    operations, the seedings among which were [seeds]. *)
Inductive reach : gset (string * string) -> World -> Prop :=
| reach_fresh w : file_at w (state_path st) = None -> reach ∅ w
| reach_op seeds o w : op_typed o -> reach seeds w -> reach (op_seeds o ∪ seeds) (run_op o w)
| reach_world seeds w w' : surroundings w w' -> reach seeds w -> reach seeds w'.

(** ** The invariant of a branch *)
Record branch_inv (seeds : gset (string * string)) (w : World) (b : string) (bs : BranchState) : Prop := {
  inv_cursor : forall c, b_cursor bs = Some c ->
    is_revision c = true /\ ((b, c) ∈ seeds \/ present w (record_path st b c));
  inv_in_flight : forall r, b_in_flight bs = Some r ->
    b_cursor bs = Some (r_base r) /\ is_revision (r_head r) = true /\ r_base r <> r_head r
}.
Definition state_inv (seeds : gset (string * string)) (w : World) : Prop :=
  forall s, on_disk st w s -> map_Forall (branch_inv seeds w) (s_branches s).

Lemma branch_inv_mono seeds seeds' w w' b bs :
  seeds ⊆ seeds' ->
  (forall h, is_revision h = true -> present w (record_path st b h) -> present w' (record_path st b h)) ->
  branch_inv seeds w b bs -> branch_inv seeds' w' b bs.
Proof.
  intros Hsub Hp [Hc Hf]. constructor; [|done]. intros c Hcc.
  destruct (Hc c Hcc) as [Hr [?|?]]; split; auto.
Qed.

Lemma branch_inv_default seeds w b : branch_inv seeds w b default_branch_state.
Proof. by constructor. Qed.

Lemma branch_inv_entry seeds w b s :
  map_Forall (branch_inv seeds w) (s_branches s) -> branch_inv seeds w b (branch_entry b s).
Proof.
  intros Hs. unfold branch_entry. destruct (s_branches s !! b) eqn:E; [by apply Hs|].
  apply branch_inv_default.
Qed.

(** One operation keeps the invariant of its branch. *)
Lemma next_branch_inv seeds w o bs bs' :
  op_typed o -> next_branch o bs bs' ->
  (forall rec, o = OpComplete rec -> present (run_op o w) (record_path st (rec_branch rec) (rec_head rec))) ->
  branch_inv seeds w (op_branch o) bs -> branch_inv (op_seeds o ∪ seeds) (run_op o w) (op_branch o) bs'.
Proof.
  intros Ht Hn Hrec Hinv.
  assert (branch_inv (op_seeds o ∪ seeds) (run_op o w) (op_branch o) bs) as [Hc Hf].
  { eapply branch_inv_mono; [| |exact Hinv]; [set_solver|]. intros h Hh. by apply run_op_stays. }
  destruct o as [b r|b k m|b|b h|b h|b h r|rec|b h c d]; cbn [next_branch op_branch op_seeds] in *.
  - destruct Hn as (Hr & _ & _ & Hc' & Hf'). constructor; [|congruence].
    rewrite Hc'. intros c [= <-]. split; [done|]. left. set_solver.
  - destruct Hn as [Hc' Hf']. constructor; rewrite ?Hc', ?Hf'; auto.
  - destruct Hn as [Hc' Hf']. constructor; rewrite ?Hc', ?Hf'; auto.
  - destruct Hn as (Hr & c & t1 & t2 & Hcc & Hne & _ & Hc' & Hf'). constructor.
    + rewrite Hc', <- Hcc. auto.
    + rewrite Hf', Hc'. by intros r [= <-].
  - destruct Hn as (r & t & Hr & Hh & Hc' & Hf'). constructor; [by rewrite Hc'|].
    rewrite Hf', Hc'. intros r' [= <-]. exact (Hf r Hr).
  - destruct Hn as (r0 & Hr & Hh & Hc' & Hf'). constructor; [by rewrite Hc'|]. by rewrite Hf'.
  - destruct Hn as (r & Hr & Hb & Hh & Hc' & Hf'). constructor; [|by rewrite Hf'].
    rewrite Hc'. intros c [= <-]. split; [|right; by apply (Hrec rec)].
    rewrite <- Hh. by apply Hf.
  - done.
Qed.

Lemma complete_lands_present rec w :
  codec_wf rec ->
  same_state st w (run_op (OpComplete rec) w) \/
  present (run_op (OpComplete rec) w) (record_path st (rec_branch rec) (rec_head rec)).
Proof.
  intros Hwf. cbn [run_op]. unfold discard. destruct (complete st rec w) as [r w'] eqn:E. cbn.
  destruct (complete_refused rec w Hwf) as [Hrec|[e He]]; [|rewrite He in E; inv_res; by left].
  destruct (complete_lands st rec w r w' Hrec E) as [?|(rec' & Hf & Hp & _)]; [by left|right].
  by destruct (filed_as_same _ _ Hf) as (<- & _ & <- & _).
Qed.

Lemma state_inv_same seeds seeds' w w' :
  seeds ⊆ seeds' -> surroundings w w' -> state_inv seeds w -> state_inv seeds' w'.
Proof.
  intros Hsub [Hs Hp] Hinv s Hd b bs Hb. eapply branch_inv_mono; [exact Hsub| |].
  - intros h Hh. by apply Hp.
  - apply (Hinv s); [|done]. eapply on_disk_same; [|exact Hd]. by unfold same_state in *.
Qed.

Lemma run_op_surroundings o w :
  op_typed o -> same_state st w (run_op o w) -> surroundings w (run_op o w).
Proof. intros Ht Hs. split; [done|]. intros b h Hh. by apply run_op_stays. Qed.

(** A completion whose document changed has its record in place. *)
Lemma run_op_lands o w :
  op_typed o -> same_state st w (run_op o w) \/
  forall rec, o = OpComplete rec -> present (run_op o w) (record_path st (rec_branch rec) (rec_head rec)).
Proof.
  destruct o; intros Ht; try (by right). destruct (complete_lands_present record w Ht); [by left|right].
  by intros rec [= <-].
Qed.

Lemma run_op_inv seeds o w :
  op_typed o -> state_inv seeds w -> state_inv (op_seeds o ∪ seeds) (run_op o w).
Proof.
  intros Ht Hinv.
  assert (same_state st w (run_op o w) -> state_inv (op_seeds o ∪ seeds) (run_op o w)) as Hsame.
  { intros Hs. eapply state_inv_same; [|by apply run_op_surroundings|done]. set_solver. }
  destruct (run_op_lands o w Ht) as [Hs|Hrec]; [auto|].
  destruct (run_op_effect o w Ht) as [Hs|(s & b' & Hd & Hn & Hd')]; [auto|].
  intros s' Hs'. rewrite (on_disk_fun st _ _ _ Hs' Hd'). cbn. apply map_Forall_insert_2.
  - eapply next_branch_inv; [done..|]. apply branch_inv_entry. by apply Hinv.
  - intros b bs Hb. eapply branch_inv_mono; [| |by apply (Hinv s)]; [set_solver|].
    intros h Hh. by apply run_op_stays.
Qed.

Lemma reach_inv seeds w : reach seeds w -> state_inv seeds w.
Proof.
  induction 1 as [w Hf|seeds o w Ht _ IH|seeds w w' Hs _ IH].
  - intros s. unfold on_disk. rewrite Hf. intros ->. apply map_Forall_empty.
  - by apply run_op_inv.
  - by eapply state_inv_same.
Qed.


(** In every reachable state a range in flight starts at its branch's
    cursor, spans two different git object ids, and so covers exactly what the
    branch has not been reviewed for. *)
Theorem in_flight_discipline seeds w s b bs r :
  reach seeds w -> on_disk st w s -> s_branches s !! b = Some bs -> b_in_flight bs = Some r ->
  b_cursor bs = Some (r_base r) /\ is_revision (r_base r) = true /\ is_revision (r_head r) = true
  /\ r_base r <> r_head r.
Proof.
  intros Hr Hd Hb Hf. destruct (reach_inv _ _ Hr s Hd b bs Hb) as [Hc Hi].
  destruct (Hi r Hf) as (Hcur & Hh & Hne). destruct (Hc _ Hcur). by split_and!.
Qed.

(** ** The phase machine *)
Inductive phase := Unseeded | Idle (cursor : string) | Reviewing (base head : string) (attempts : Z).

Definition phase_of (bs : BranchState) : phase :=
  match b_in_flight bs, b_cursor bs with
  | Some r, _ => Reviewing (r_base r) (r_head r) (r_attempts r)
  | None, Some c => Idle c
  | None, None => Unseeded
  end.
Definition branch_phase (s : RepositoryState) (b : string) : phase := phase_of (branch_entry b s).

Inductive moves : phase -> Op -> phase -> Prop :=
| move_seed b r : moves Unseeded (OpSeed b r) (Idle r)
| move_admit b c h : c <> h -> moves (Idle c) (OpAdmit b h) (Reviewing c h 1)
| move_retry b c h n :
    moves (Reviewing c h n) (OpRetry b h) (Reviewing c h (u32_wrapping_add n 1))
| move_fail b c h n reason : moves (Reviewing c h n) (OpFail b h reason) (Idle c)
| move_complete c h n rec :
    rec_base rec = c -> rec_head rec = h -> moves (Reviewing c h n) (OpComplete rec) (Idle h).

(** C11: each operation, faults included, moves the phase of the branch it
    names along the machine [Unseeded -> Idle -> Reviewing -> Idle] or leaves
    it, and leaves the phase of every other branch. *)
Theorem branch_phase_machine seeds w o s s' b :
  reach seeds w -> op_typed o -> on_disk st w s -> on_disk st (run_op o w) s' ->
  branch_phase s' b = branch_phase s b \/
  (b = op_branch o /\ moves (branch_phase s b) o (branch_phase s' b)).
Proof.
  intros Hr Ht Hd Hd'. destruct (run_op_effect o w Ht) as [Hs|(s0 & bs' & Hd0 & Hn & Hd1)].
  { left. by rewrite (on_disk_fun st _ s' s Hd') by by eapply on_disk_same. }
  rewrite (on_disk_fun st _ _ _ Hd0 Hd) in *. rewrite (on_disk_fun st _ _ _ Hd' Hd1).
  destruct (branch_inv_entry _ _ (op_branch o) s (reach_inv _ _ Hr s Hd)) as [_ Hinf].
  unfold branch_phase, branch_entry in *. cbn [with_git_root set_branch s_branches].
  destruct (decide (b = op_branch o)) as [->|Hb]; [|left; by rewrite lookup_insert_ne].
  rewrite lookup_insert_eq. change (default _ (Some bs')) with bs'. revert Hn Hinf.
  generalize (default default_branch_state (s_branches s !! op_branch o)) as bs. intros bs Hn Hinf.
  unfold phase_of.
  destruct o as [b r|b k m|b|b h|b h|b h r|rec|b h c d]; cbn [next_branch op_branch] in *.
  - destruct Hn as (_ & -> & -> & -> & ->). right. split; [done|constructor].
  - destruct Hn as (-> & ->). by left.
  - destruct Hn as (-> & ->). by left.
  - destruct Hn as (_ & c & t1 & t2 & -> & ? & -> & -> & ->). right. split; [done|by constructor].
  - destruct Hn as (r & t & -> & <- & -> & ->). right. split; [done|constructor].
  - destruct Hn as (r0 & Hf & <- & Hc & ->). right. split; [done|]. rewrite Hc, Hf.
    destruct (Hinf _ Hf) as (-> & _). constructor.
  - destruct Hn as (r & -> & Hb & Hh & -> & ->). right. split; [done|]. rewrite Hb, Hh. by constructor.
  - done.
Qed.
End Machine.
