(* ===== verification/Filed.v ===== *)
(** * Filed records

    Every record file of a repository decodes to a record filed under its own
    head, and no operation of the store, whatever faults strike, changes
    that. *)
From S2P Require Import Prelude RustStr Json Time World LockDir Sim Profile ProfileProofs.
From S2P Require Import State Store StoreProofs Completion Machine.
#[local] Open Scope string_scope.
#[local] Open Scope Z_scope.

Section Filed.
Context `{EnvOk} (st : Store).

(** The files [records] reads. *)
Definition record_file (q : path) : Prop :=
  (exists b, parent q = Some (records_branch_dir st b)) /\ has_json_extension q = true.

Definition filed_under (q : path) (r : ReviewRecord) : Prop :=
  is_revision (rec_head r) = true /\ file_name q = Some (rec_head r ++ ".json").

Definition filed_bytes (q : path) (bytes : Bytes) : Prop :=
  forall v r, from_slice bytes = inr v -> decode v = Some r -> filed_under q r.
Definition filed_inv (w : World) : Prop :=
  forall q bytes, record_file q -> file_at w q = Some bytes -> filed_bytes q bytes.

(** ** Where record files are *)
Lemma records_branch_dir_eq b :
  exists mid, records_branch_dir st b = (st_repo_dir st ++ "records" :: mid)%list.
Proof.
  unfold records_branch_dir. rewrite join_slug by by apply slug_chars.
  change (join (st_repo_dir st) "records") with (st_repo_dir st ++ ["records"])%list.
  destruct (is_empty (sanitize_branch b)); [by exists []|].
  exists [sanitize_branch b]. by rewrite <- app_assoc.
Qed.

Lemma record_file_shape q :
  record_file q -> exists mid c, q = (st_repo_dir st ++ "records" :: mid ++ [c])%list /\ c <> "/"
    /\ forall s, c <> s ++ ".tmp".
Proof.
  intros [[b Hp] Hext]. destruct (records_branch_dir_eq b) as [mid Hmid]. rewrite Hmid in Hp.
  destruct q as [|c q _] using rev_ind; [done|].
  assert (q = (st_repo_dir st ++ "records" :: mid)%list) as ->.
  { unfold parent in Hp. rewrite removelast_snoc in Hp. by repeat case_match; simplify_eq. }
  exists mid, c. split; [by rewrite <- app_assoc|].
  unfold has_json_extension, extension, file_name in Hext. rewrite last_snoc_path in Hext.
  destruct (String.eqb_spec c "/") as [->|Hs]; [done|]. split; [done|]. intros s ->.
  destruct (_ || _); [done|].
  change (s ++ ".tmp") with (s ++ String "." "tmp") in Hext.
  rewrite rsplit_once_app in Hext by done. by destruct (is_empty s).
Qed.

Lemma record_file_not_state q : record_file q -> ~ (q = state_path st \/ q = temp_path (state_path st)).
Proof.
  intros (mid & c & -> & _)%record_file_shape. rewrite state_temp_eq, state_path_eq.
  intros [Heq|Heq]; by apply app_inv_head in Heq.
Qed.
Lemma record_file_not_lock q : record_file q -> ~ lock_area (path_for (state_path st)) q.
Proof.
  intros (mid & c & -> & _)%record_file_shape. rewrite state_lock_eq. intros [Heq|Heq].
  - by apply app_inv_head in Heq.
  - unfold owner_file in Heq. rewrite <- app_assoc in Heq. by apply app_inv_head in Heq.
Qed.
Lemma record_file_not_temp q b h :
  is_revision h = true -> record_file q -> q <> temp_path (record_path st b h).
Proof.
  intros Hh (mid & c & -> & _ & Hc)%record_file_shape Heq.
  destruct (record_temp_eq st b h Hh) as (mid' & Ht). rewrite Ht in Heq.
  apply app_inv_head in Heq. rewrite app_comm_cons in Heq. apply app_inj_2 in Heq as [_ [= Heq]]; [|done].
  apply (Hc ("." ++ h ++ ".json")). rewrite Heq. cbn. by rewrite !str_app_assoc.
Qed.

Lemma record_file_name b h :
  is_revision h = true -> file_name (record_path st b h) = Some (h ++ ".json").
Proof.
  intros Hh. destruct (record_path_shape st b h Hh) as (mid & ->). rewrite app_assoc.
  apply file_name_snoc; [by apply revision_json_plain | by apply revision_json_not_dots].
Qed.

(** ** Programs that leave record files alone *)
Lemma filed_inv_frame (S : path -> Prop) w w' :
  frame S w w' -> (forall q, record_file q -> ~ S q) -> filed_inv w -> filed_inv w'.
Proof.
  intros HF HS Hinv q bytes Hq Hb. apply (Hinv q bytes Hq). by rewrite <- (frame_files _ _ _ HF q (HS q Hq)).
Qed.

(** [keeps_filed m]: [m] preserves the invariant. *)
Definition keeps_filed {E A} (m : M E A) : Prop := forall w, filed_inv w -> filed_inv (m w).2.

Lemma keeps_filed_frame (S : path -> Prop) {E A} (m : M E A) :
  keeps S m -> (forall q, record_file q -> ~ S q) -> keeps_filed m.
Proof. intros Hk HS w. eapply filed_inv_frame; [apply Hk|done]. Qed.
Lemma keeps_filed_quietly {E A} (m : M E A) : keeps (fun _ => False) m -> keeps_filed m.
Proof. intros Hk. apply (keeps_filed_frame (fun _ => False)); [done|tauto]. Qed.
Lemma keeps_filed_bind {E A B} (m : M E A) (f : A -> M E B) :
  keeps_filed m -> (forall a, keeps_filed (f a)) -> keeps_filed (bind m f).
Proof.
  intros Hm Hf w Hw. unfold bind. specialize (Hm w Hw).
  destruct (m w) as [[a|e|] w']; cbn in *; [by apply Hf|done|done].
Qed.
Lemma keeps_filed_with_lock {A} (body : M StateError A) :
  keeps_filed body -> keeps_filed (with_lock st body).
Proof.
  intros Hb w Hw. destruct (with_lock st body w) as [r w'] eqn:E. cbn.
  apply with_lock_run in E as [[_ Hf]|(w1 & r1 & w2 & F1 & Hrun & F2 & _)].
  { eapply filed_inv_frame; [exact Hf|apply record_file_not_lock|done]. }
  eapply filed_inv_frame; [exact F2|apply record_file_not_lock|].
  specialize (Hb w1). rewrite Hrun in Hb. apply Hb.
  eapply filed_inv_frame; [exact F1|apply record_file_not_lock|done].
Qed.
Lemma keeps_write_state s : keeps (fun q => q = state_path st \/ q = temp_path (state_path st)) (write_state st s).
Proof.
  unfold write_state. apply keeps_bind; [solve_keeps|]. intros b. apply keeps_atomic_write.
Qed.
Lemma keeps_filed_write_state s : keeps_filed (write_state st s).
Proof. eapply keeps_filed_frame; [apply keeps_write_state|apply record_file_not_state]. Qed.
Lemma keeps_filed_read_state : keeps_filed (read_state st).
Proof. apply keeps_filed_quietly. unfold read_state. solve_keeps. Qed.

Ltac solve_filed :=
  repeat first
    [ progress intros
    | simple apply keeps_filed_with_lock
    | simple apply keeps_filed_bind
    | match goal with |- keeps_filed (match ?x with _ => _ end) => destruct x end
    | solve [simple apply keeps_filed_write_state] | solve [simple apply keeps_filed_read_state]
    | solve [simple apply keeps_filed_quietly; solve_keeps] ].

(** ** Writing a record *)
Lemma filed_atomic_write b h r bytes :
  is_revision h = true -> rec_head r = h -> codec_wf r -> from_slice bytes = inr (encode r) ->
  keeps_filed (atomic_write (record_path st b h) bytes).
Proof.
  intros Hh Hr Hwf Hb w Hinv q bs Hq. destruct (atomic_write _ _ w) as [res w'] eqn:E. cbn.
  destruct (decide (q = record_path st b h)) as [->|Hne].
  - apply atomic_write_effect in E as [[Hs _]|[Hs _]]; [|..].
    + rewrite Hs. by apply Hinv.
    + rewrite Hs. intros [= <-] v r' Hv Hd. assert (v = encode r) as -> by congruence.
      rewrite (decode_encode r Hwf) in Hd. assert (r' = r) as -> by congruence.
      split; [by rewrite Hr|]. rewrite Hr. by apply record_file_name.
    + by apply record_not_temp.
  - assert (file_at w' q = file_at w q) as ->; [|by apply Hinv].
    eapply frame_files; [eapply keeps_run; [apply keeps_atomic_write|exact E]|].
    intros [?|?]; [done|]. by apply (record_file_not_temp q b h Hh Hq).
Qed.

Lemma filed_write_record_once b h r :
  is_revision h = true -> rec_head r = h -> codec_wf r ->
  keeps_filed (write_record_once (record_path st b h) r).
Proof.
  intros Hh Hr Hwf. unfold write_record_once. apply keeps_filed_bind; [solve_filed|]. intros [].
  { solve_filed. }
  destruct (parent _); [|solve_filed]. apply keeps_filed_bind; [solve_filed|]. intros _.
  unfold record_body.
  destruct (json_text_round_trip _ (encode_representable r Hwf)) as (bytes & -> & Hb).
  change (keeps_filed (atomic_write (record_path st b h) bytes)). by eapply filed_atomic_write.
Qed.

Lemma filed_complete_body stray s r :
  is_revision (rec_head r) = true -> codec_wf r ->
  keeps_filed (bind (stamped r) (complete_loaded st stray s)).
Proof.
  intros Hh Hwf w Hinv. unfold bind. destruct (stamped r w) as [res w1] eqn:E.
  apply stamped_effect in E as (F & t & ->).
  assert (filed_inv w1) as Hinv1 by (eapply filed_inv_frame; [exact F|tauto|done]).
  set (r' := if is_blank _ then _ else _).
  assert (is_revision (rec_head r') = true /\ codec_wf r') as [Hh' Hwf'].
  { unfold r'. destruct (is_blank _); [|done]. split; [done|]. exact Hwf. }
  assert (keeps_filed (complete_loaded st stray s r')) as Hk; [|by apply Hk].
  unfold complete_loaded. destruct (s_branches s !! _) as [bs|]; [|solve_filed].
  assert (keeps_filed (complete_replay bs r' (record_path st (rec_branch r') (rec_head r')) stray)) as Hrep.
  { unfold complete_replay. solve_filed. }
  destruct (b_in_flight bs); [|done]. destruct (range_matches _ r'); [|done].
  unfold complete_in_flight. apply keeps_filed_bind; [by apply filed_write_record_once|]. solve_filed.
Qed.

(** A delivery rewrites the record it read. *)
Lemma str_app_inj_r a b c : a ++ c = b ++ c -> a = b.
Proof.
  intros Heq. assert (strip_suffix c (a ++ c) = Some a) as Ha by by apply strip_suffix_Some.
  rewrite Heq in Ha. assert (strip_suffix c (b ++ c) = Some b) as Hb by by apply strip_suffix_Some.
  congruence.
Qed.
Lemma record_path_is_file b h : is_revision h = true -> record_file (record_path st b h).
Proof.
  intros Hh. split.
  - exists b. unfold record_path. rewrite join_plain by by apply revision_json_plain.
    apply parent_snoc. intros Heq. by destruct h as [|? [|]].
  - unfold has_json_extension, extension. rewrite record_file_name by done.
    change (h ++ ".json") with (h ++ String "." "json"). rewrite rsplit_once_app by done.
    by destruct h.
Qed.

Lemma set_delivery_wf c d r : codec_wf r -> is_u32 (d_attempts d) -> codec_wf (set_delivery c d r).
Proof. intros (H1 & H2 & H3) Hd. split_and!; [done|done|]. by apply map_Forall_insert_2. Qed.

Lemma filed_update_delivery b h c d :
  is_revision h = true -> is_u32 (d_attempts d) -> keeps_filed (update_delivery st b h c d).
Proof.
  intros Hh Hd. apply keeps_filed_with_lock. cbv zeta. set (rp := record_path st b h).
  intros w Hinv. unfold bind at 1, map_err. destruct (fs_read rp w) as [r1 w1] eqn:E1.
  assert (filed_inv w1) as Hinv1.
  { eapply filed_inv_frame; [eapply keeps_run; [|exact E1]; apply (keeps_fs_read (fun _ => False))|tauto|done]. }
  apply fs_read_effect in E1 as (_ & Hok & _). destruct r1 as [bytes|e|]; [|done|done].
  specialize (Hok bytes eq_refl). unfold bind at 1, lift.
  destruct (from_slice bytes) as [e|v] eqn:Ev; [done|]. unfold bind at 1, lift.
  destruct (decode v) as [r|] eqn:Er; [|done].
  destruct (negb (String.eqb (rec_branch r) b)); [done|].
  destruct (Hinv rp bytes (record_path_is_file b h Hh) Hok v r Ev Er) as [_ Hn].
  unfold rp in Hn. rewrite record_file_name in Hn by done.
  assert (rec_head r = h) as Hr by (injection Hn as Hn; symmetry; by apply str_app_inj_r in Hn).
  pose proof (set_delivery_wf c d r (decode_wf v r Er) Hd) as Hwf.
  unfold bind, lift, record_body.
  destruct (json_text_round_trip _ (encode_representable _ Hwf)) as (body & -> & Hb).
  by apply (filed_atomic_write b h (set_delivery c d r) body).
Qed.

Definition op_widths (o : Op) : Prop :=
  match o with OpDeliver _ _ _ d => is_u32 (d_attempts d) | _ => True end.

Lemma run_op_filed o w : op_typed o -> op_widths o -> filed_inv w -> filed_inv (run_op st o w).
Proof.
  intros Ht Hw. destruct o as [b r|b k m|b|b h|b h|b h r|rec|b h c d]; cbn [run_op]; unfold discard;
    [revert w..|].
  - change (keeps_filed (seed_cursor st b r)). unfold seed_cursor. solve_filed.
  - change (keeps_filed (record_observation_failure st b k m)). unfold record_observation_failure. solve_filed.
  - change (keeps_filed (clear_observation_failure st b)). unfold clear_observation_failure. solve_filed.
  - change (keeps_filed (admit_range st b h)). unfold admit_range. solve_filed.
  - change (keeps_filed (retry_attempt st b h)). unfold retry_attempt. solve_filed.
  - change (keeps_filed (fail_range st b h r)). unfold fail_range. solve_filed.
  - intros w. destruct (complete_refused st rec w Ht) as [Hrec|[e ->]]; [|done].
    rewrite complete_unguarded by done. destruct Hrec as (Hwf & _ & _ & Hh & _).
    revert w. apply keeps_filed_with_lock, keeps_filed_bind; [solve_filed|].
    intros s. by apply filed_complete_body.
  - revert w. by apply filed_update_delivery.
Qed.
End Filed.
