(* ===== verification/Availability.v ===== *)
(** * When nothing fails, the store answers

    In a world whose system calls succeed and whose lock is free, every
    operation returns exactly what its specification says: the refinement's
    escape for failing surroundings is never taken. *)
From S2P Require Import Prelude RustStr Json Time World LockDir Sim Profile ProfileProofs.
From S2P Require Import State Store StoreProofs Completion.
#[local] Open Scope string_scope.
#[local] Open Scope Z_scope.

Section Availability.
Context `{EnvOk} (st : Store).

(** ** Directories *)
Definition good_dir (fs : fsys) (q : path) : Prop := is_dir fs q = true /\ is_file fs q = false.
Definition free_of_dir (fs : fsys) (q : path) : Prop :=
  match fs !! q with Some (Dir _) => False | _ => True end.
Definition way (p : path) : list path := (proper_prefixes p ++ [p])%list.

Lemma good_dir_insert (fs : fsys) (p q : path) (t : Z) :
  good_dir fs q -> good_dir (<[p := Dir t]> fs) q.
Proof.
  intros [Hd Hf]. unfold good_dir, is_dir, is_file in *.
  destruct (decide (p = q)) as [->|]; [|by rewrite lookup_insert_ne].
  rewrite lookup_insert_eq. split; [|done]. by repeat case_match.
Qed.
Lemma make_dirs_ok (ps : list path) (now : Z) (fs : fsys) :
  (forall q, q ∈ ps -> is_file fs q = false) ->
  (make_dirs ps now fs).1 = inr tt /\
  (forall q, q ∈ ps \/ good_dir fs q -> good_dir (make_dirs ps now fs).2 q) /\
  (forall q, q ∉ ps -> (make_dirs ps now fs).2 !! q = fs !! q).
Proof.
  revert fs. induction ps as [|p ps IH]; intros fs Hf; cbn [make_dirs].
  { split_and!; [done| |done]. intros q [Hq|Hq]; [by apply elem_of_nil in Hq|done]. }
  assert (is_file fs p = false) as Hp by (apply Hf; left).
  destruct (is_dir fs p) eqn:Ed.
  - destruct (IH fs) as (H1 & H2 & H3); [intros q Hq; apply Hf; by right|].
    split_and!; [done| |set_solver].
    intros q [Hq|Hq]; [|by auto]. apply elem_of_cons in Hq as [->|Hq]; auto. apply H2. right. done.
  - rewrite Hp. destruct (IH (<[p := Dir now]> fs)) as (H1 & H2 & H3).
    { intros q Hq. unfold is_file. destruct (decide (p = q)) as [->|].
      - by rewrite lookup_insert_eq.
      - rewrite lookup_insert_ne by done. apply Hf. by right. }
    split_and!; [done| |].
    + intros q [Hq|Hq]; [|apply H2; right; by apply good_dir_insert].
      apply elem_of_cons in Hq as [->|Hq]; [|by auto]. apply H2. right.
      unfold good_dir, is_dir, is_file. rewrite lookup_insert_eq. split; [|done]. by repeat case_match.
    + intros q Hq. rewrite H3 by set_solver. rewrite lookup_insert_ne; [done|set_solver].
Qed.

Lemma proper_prefixes_snoc (p : path) c :
  p <> [] -> proper_prefixes (p ++ [c])%list = way p.
Proof.
  unfold way. induction p as [|x p IH]; [done|]. intros _. destruct p as [|y p]; [done|].
  change (proper_prefixes ((x :: y :: p) ++ [c])%list)
    with ([x] :: (cons x <$> proper_prefixes ((y :: p) ++ [c])%list)).
  rewrite IH by done. rewrite fmap_app. done.
Qed.

Lemma not_blocked (fs : fsys) (p : path) (c : string) :
  p <> [] -> (forall q, q ∈ way p -> good_dir fs q) -> blocked fs (p ++ [c])%list = false.
Proof.
  intros Hp Hw. unfold blocked. rewrite proper_prefixes_snoc by done.
  apply Bool.not_true_is_false. intros (q & Hq & Hf)%existsb_exists.
  apply list_elem_of_In in Hq. destruct (Hw q Hq). congruence.
Qed.

(** ** Worlds in which the store works *)

(** Under the lock: the repository directory is there, nothing but files sits
    where the documents go, and the document on disk can be read. *)
Record workable (w : World) : Prop := {
  wk_quiet : quiet w;
  wk_dirs : forall q, q ∈ way (st_repo_dir st) -> good_dir (w_fs w) q;
  wk_state : free_of_dir (w_fs w) (state_path st);
  wk_temp : free_of_dir (w_fs w) (temp_path (state_path st));
  wk_doc : exists s, on_disk st w s;
  wk_lock : exists t, w_fs w !! path_for (state_path st) = Some (Dir t);
  wk_bare : forall q, parent q = Some (path_for (state_path st)) -> w_fs w !! q = None
}.

(** Before the lock: the directory can be made and the lock is free. *)
Record ready (w : World) : Prop := {
  rd_quiet : quiet w;
  rd_repo : st_repo_dir st <> [];
  rd_dirs : forall q, q ∈ way (st_repo_dir st) -> is_file (w_fs w) q = false;
  rd_state : free_of_dir (w_fs w) (state_path st);
  rd_temp : free_of_dir (w_fs w) (temp_path (state_path st));
  rd_lock : w_fs w !! path_for (state_path st) = None;
  rd_bare : forall q, parent q = Some (path_for (state_path st)) -> w_fs w !! q = None;
  rd_doc : exists s, on_disk st w s
}.

(** [sure P m]: from a world in [P], [m] does not fail for the surroundings'
    sake and ends in [P]. *)
Definition sure {A} (P : World -> Prop) (m : M StateError A) : Prop :=
  forall w, P w -> ~ infra (m w).1 /\ P (m w).2.

Lemma sure_ret {A} P (a : A) : sure P (ret a).
Proof. intros w Hw. split; [cbn; tauto|done]. Qed.
Lemma sure_throw {A} P e : infra_error e = false -> sure P (throw (A:=A) e).
Proof. intros He w Hw. split; [|done]. cbn. congruence. Qed.
Lemma sure_bind {A B} P (m : M StateError A) (f : A -> M StateError B) :
  sure P m -> (forall a, sure P (f a)) -> sure P (bind m f).
Proof.
  intros Hm Hf w Hw. unfold bind. destruct (Hm w Hw) as [H1 H2].
  destruct (m w) as [[a|e|] w']; cbn in *; [by apply Hf|done|done].
Qed.
Lemma workable_tick w : workable w -> workable (bump_tick w).
Proof. intros []. by constructor. Qed.
Lemma workable_op w : workable w -> workable (bump_op w).
Proof. intros []. by constructor. Qed.
Lemma sure_now_iso : sure workable now_iso.
Proof. intros w Hw. split; [cbn; tauto | by apply workable_tick]. Qed.

(** Reading the document. *)
Lemma read_state_workable w s :
  st_repo_dir st <> [] -> workable w -> on_disk st w s -> read_state st w = (Ok s, bump_op w).
Proof.
  intros Hne [Hq Hd Hs _ _ _ _] Hdoc. revert Hdoc.
  unfold read_state, bind, attempt, fs_read. rewrite syscall_quiet by done. cbn [fst snd].
  rewrite set_fs_same. unfold eff_read, missing_kind, on_disk, file_at, file_in, free_of_dir in *.
  destruct (w_fs w !! state_path st) as [[b|]|] eqn:El; [|done|].
  - unfold lift. by intros ->.
  - rewrite state_path_eq, not_blocked by done. cbn [os_error io_error_kind].
    rewrite decide_True by done. by intros ->.
Qed.
Lemma sure_read_state {A} (k : RepositoryState -> M StateError A) :
  st_repo_dir st <> [] ->
  (forall s, loadable s -> sure workable (k s)) -> sure workable (bind (read_state st) k).
Proof.
  intros Hne Hk w Hw. destruct (wk_doc w Hw) as [s Hdoc].
  unfold bind. rewrite (read_state_workable w s) by done.
  apply Hk; [by eapply on_disk_loadable | by apply workable_op].
Qed.

Lemma parent_state_is_dir (fs : fsys) (c : string) :
  c <> "/" -> (forall q, q ∈ way (st_repo_dir st) -> good_dir fs q) ->
  parent_is_dir fs (st_repo_dir st ++ [c])%list = true.
Proof.
  intros Hc Hd. unfold parent_is_dir. rewrite parent_snoc by done. apply Hd.
  apply elem_of_app. right. by apply list_elem_of_singleton.
Qed.

Lemma fs_write_quiet p b w :
  quiet w -> writable (w_fs w) p = true ->
  fs_write p b w = (Ok tt, set_fs (<[p := File b]> (w_fs w)) (bump_op w)).
Proof. intros Hq Hw. unfold fs_write. rewrite syscall_quiet by done. unfold eff_write. by rewrite Hw. Qed.
Lemma fs_rename_quiet a b c w :
  quiet w -> w_fs w !! a = Some (File c) -> writable (w_fs w) b = true ->
  fs_rename a b w = (Ok tt, set_fs (<[b := File c]> (delete a (w_fs w))) (bump_op w)).
Proof.
  intros Hq Ha Hw. unfold fs_rename. rewrite syscall_quiet by done. unfold eff_rename.
  by rewrite Ha, Hw.
Qed.

Lemma good_dir_file (fs : fsys) (p q : path) b :
  p <> q -> good_dir fs q -> good_dir (<[p := File b]> fs) q.
Proof. intros Hne Hg. unfold good_dir, is_dir, is_file in *. by rewrite lookup_insert_ne. Qed.
Lemma good_dir_delete (fs : fsys) (p q : path) :
  p <> q -> good_dir fs q -> good_dir (delete p fs) q.
Proof. intros Hne Hg. unfold good_dir, is_dir, is_file in *. by rewrite lookup_delete_ne. Qed.

Lemma way_shorter (p q : path) : q ∈ way p -> (List.length q <= List.length p)%nat.
Proof.
  unfold way. revert q. induction p as [|x p IH]; intros q Hq.
  { apply list_elem_of_singleton in Hq. by subst. }
  destruct p as [|y p]; [apply list_elem_of_singleton in Hq; by subst|].
  change (proper_prefixes (x :: y :: p)) with ([x] :: (cons x <$> proper_prefixes (y :: p))) in Hq.
  cbn [app] in Hq. apply elem_of_cons in Hq as [->|Hq]; [cbn; lia|].
  apply elem_of_app in Hq as [(q' & -> & Hq')%list_elem_of_fmap|Hq].
  - assert (List.length q' <= List.length (y :: p))%nat by (apply IH, elem_of_app; by left).
    cbn [List.length] in *. lia.
  - apply list_elem_of_singleton in Hq. by subst.
Qed.
Lemma is_dir_snoc (fs : fsys) (p : path) (c : string) :
  p <> [] ->
  is_dir fs (p ++ [c])%list = match fs !! (p ++ [c])%list with Some (Dir _) => true | _ => false end.
Proof.
  intros Hp. destruct p as [|x p]; [done|]. unfold is_dir. cbn [app].
  destruct p; cbn [app]; by repeat case_match.
Qed.
Lemma parent_length (q d : path) : parent q = Some d -> (List.length d < List.length q)%nat.
Proof.
  destruct q as [|x q] using rev_ind; [done|]. clear IHq.
  unfold parent. rewrite removelast_snoc. rewrite length_app. cbn [List.length].
  repeat case_match; intros ?; simplify_eq; lia.
Qed.
Lemma snoc_ne (p : path) (c d : string) : c <> d -> (p ++ [c])%list <> (p ++ [d])%list.
Proof. intros Hne Heq. apply app_inj_1 in Heq as [_ ?]; [by simplify_eq|done]. Qed.
Lemma below_not_way (c : string) (q : path) : q ∈ way (st_repo_dir st) -> (st_repo_dir st ++ [c])%list <> q.
Proof. intros Hq <-. apply way_shorter in Hq. rewrite length_app in Hq. cbn in Hq. lia. Qed.

(** An atomic write into a directory that is there. *)
Lemma atomic_write_quiet (d : path) (c : string) b w :
  let p := (d ++ [c])%list in
  quiet w -> plain_name c = true -> c <> ".." -> good_dir (w_fs w) d ->
  free_of_dir (w_fs w) p -> free_of_dir (w_fs w) (temp_path p) ->
  exists w', atomic_write p b w = (Ok tt, w') /\ quiet w'
    /\ w_fs w' = <[p := File b]> (delete (temp_path p) (w_fs w)).
Proof.
  intros p Hq Hc Hdd Hd Hp Ht. unfold p in *. rewrite temp_path_snoc in * by done.
  set (tc := ("." ++ c ++ ".tmp")%string) in *.
  assert (forall (fs : fsys) x, x <> "/" -> good_dir fs d -> free_of_dir fs (d ++ [x])%list ->
            writable fs (d ++ [x])%list = true) as Hwr.
  { intros fs x Hx [Hg _] Hf. unfold writable, parent_is_dir. rewrite parent_snoc, Hg by done.
    unfold free_of_dir in Hf. by destruct (fs !! _) as [[]|]. }
  assert (c <> "/") as Hc1 by (intros ->; done). assert (tc <> "/") as Hc2 by done.
  assert (tc <> c) as Hne.
  { intros Heq. apply (f_equal len) in Heq. unfold tc in Heq. rewrite !str_len_app in Heq. cbn in Heq. lia. }
  assert ((d ++ [tc])%list <> d) as Hnd.
  { intros Heq. apply (f_equal List.length) in Heq. rewrite length_app in Heq. cbn in Heq. lia. }
  unfold atomic_write, bind, map_err. rewrite temp_path_snoc by done. fold tc.
  rewrite fs_write_quiet by (done || by apply Hwr).
  rewrite (fs_rename_quiet (d ++ [tc])%list (d ++ [c])%list b).
  - eexists. split_and!; [done|done|]. cbn. by rewrite delete_insert_eq.
  - done.
  - apply lookup_insert_eq.
  - apply Hwr; [done|by apply good_dir_file|]. unfold free_of_dir. cbn [w_fs set_fs bump_op].
    rewrite lookup_insert_ne by by apply snoc_ne. exact Hp.
Qed.

(** Replacing the document. *)
Lemma sure_write_state s : loadable s -> sure workable (write_state st s).
Proof.
  intros Hl w Hw. destruct (write_state st s w) as [r w'] eqn:Ew. cbn [fst snd].
  pose proof (write_state_effect st s w r w' Hl Ew) as Heff.
  destruct Hw as [Hq Hd Hs Ht Hdoc [tl Hlock] Hbare]. revert Ew. unfold write_state, bind.
  destruct Hl as [Hv Hwf]. assert (codec_wf (with_git_root st s)) as Hwf' by exact Hwf.
  destruct (json_text_round_trip _ (encode_representable _ Hwf')) as (b & -> & Hb).
  unfold lift. rewrite state_path_eq.
  destruct (atomic_write_quiet (st_repo_dir st) "state.json" b w) as (w1 & -> & Hq1 & Hfs);
    [done|done|done| |by rewrite <- state_path_eq|by rewrite <- state_path_eq|].
  { apply Hd, elem_of_app. right. by apply list_elem_of_singleton. }
  rewrite <- state_path_eq, state_temp_eq in Hfs.
  intros [= <- <-]. split; [cbn; tauto|].
  assert (forall (p : path) c, p = (st_repo_dir st ++ [c])%list -> c <> "state.json" ->
            c <> ".state.json.tmp" -> w_fs w1 !! p = w_fs w !! p) as Hother.
  { intros p c -> H1 H2. rewrite Hfs, state_path_eq, lookup_insert_ne, lookup_delete_ne
      by by apply snoc_ne. done. }
  constructor.
  - done.
  - intros q Hqw. rewrite Hfs. apply good_dir_file; [by apply (below_not_way "state.json")|].
    apply good_dir_delete; [by apply below_not_way | by apply Hd].
  - unfold free_of_dir. by rewrite Hfs, lookup_insert_eq.
  - unfold free_of_dir. rewrite Hfs, state_temp_eq, state_path_eq.
    rewrite lookup_insert_ne by by apply snoc_ne. by rewrite lookup_delete_eq.
  - destruct Heff as [[[] _]|[_ ?]]. by exists (with_git_root st s).
  - exists tl. by rewrite (Hother _ "state.json.lock" (state_lock_eq st)).
  - intros q Hq'. rewrite state_lock_eq in Hq', Hbare.
    assert (forall c, c <> "/" -> (st_repo_dir st ++ [c])%list <> q) as Hnq.
    { intros c Hc <-. apply parent_length in Hq'. rewrite !length_app in Hq'. cbn in Hq'. lia. }
    rewrite Hfs, lookup_insert_ne, lookup_delete_ne by by apply Hnq. by apply Hbare.
Qed.

(** ** The lock *)
Lemma fs_create_dir_all_ready w :
  ready w ->
  exists fs1, fs_create_dir_all (st_repo_dir st) w = (Ok tt, set_fs fs1 (bump_op w))
    /\ (forall q, q ∈ way (st_repo_dir st) -> good_dir fs1 q)
    /\ (forall q, q ∉ way (st_repo_dir st) -> fs1 !! q = w_fs w !! q).
Proof.
  intros Hr. unfold fs_create_dir_all. rewrite syscall_quiet by apply Hr. unfold eff_create_dir_all.
  fold (way (st_repo_dir st)).
  destruct (make_dirs_ok (way (st_repo_dir st)) (w_clock w (w_tick w)) (w_fs w)) as (-> & H2 & H3).
  { apply Hr. }
  eexists. split_and!; [done| |done]. auto.
Qed.

Lemma lock_create_quiet (p : path) w :
  quiet w -> w_fs w !! p = None -> is_dir (w_fs w) p = false -> parent_is_dir (w_fs w) p = true ->
  exists t w1, lock_create p None w = (Ok tt, w1) /\ quiet w1 /\ w_fs w1 = <[p := Dir t]> (w_fs w).
Proof.
  intros Hq Hn Hd Hp. unfold lock_create, bind, fs_create_dir. rewrite syscall_quiet by done.
  unfold eff_create_dir, is_file. rewrite Hd, Hn, Hp. cbn [orb fst snd].
  unfold attempt, probe_mtime, bind, now_ms, ret. cbv beta iota.
  unfold fs_set_mtime. rewrite syscall_quiet by done. unfold eff_set_mtime. cbn [w_fs set_fs bump_op bump_tick].
  rewrite lookup_insert_eq. cbn [fst snd]. eexists _, _. split_and!; [done|done|].
  cbn. by rewrite insert_insert_eq.
Qed.

Lemma acquire_lock_ready w :
  ready w -> exists w1, acquire_lock st w = (Ok (mkLockDir (path_for (state_path st)) None), w1) /\ workable w1
    /\ forall q, q ∉ way (st_repo_dir st) -> q <> path_for (state_path st) -> w_fs w1 !! q = w_fs w !! q.
Proof.
  intros Hr. destruct (fs_create_dir_all_ready w Hr) as (fs1 & Hc & Hg & Hsame).
  destruct Hr as [Hq Hne _ Hs Ht Hl Hb [s Hdoc]].
  assert (forall c, fs1 !! (st_repo_dir st ++ [c])%list = w_fs w !! (st_repo_dir st ++ [c])%list) as Hbelow.
  { intros c. apply Hsame. intros Hin. by apply (below_not_way c) in Hin. }
  unfold acquire_lock, bind at 1, map_err. rewrite Hc. cbn [acquire_loop].
  unfold bind, attempt, acquire, acquire_with_owner, bind, attempt.
  destruct (lock_create_quiet (path_for (state_path st)) (set_fs fs1 (bump_op w))) as (t & w1 & -> & Hq1 & Hfs1).
  { done. }
  { cbn [w_fs set_fs]. rewrite state_lock_eq in *. by rewrite Hbelow. }
  { cbn [w_fs set_fs]. rewrite state_lock_eq in *. by rewrite is_dir_snoc, Hbelow, Hl. }
  { cbn [w_fs set_fs]. rewrite state_lock_eq. by apply parent_state_is_dir. }
  unfold ret. eexists. split; [done|]. split.
  2:{ intros q Hqw Hql. rewrite Hfs1, lookup_insert_ne by done. by apply Hsame. }
  assert (forall c, c <> "state.json.lock" ->
    w_fs w1 !! (st_repo_dir st ++ [c])%list = w_fs w !! (st_repo_dir st ++ [c])%list) as Hfiles.
  { intros c Hcl. rewrite Hfs1, state_lock_eq. cbn. rewrite lookup_insert_ne by by apply snoc_ne.
    apply Hbelow. }
  constructor.
  - done.
  - intros q Hqw. rewrite Hfs1. by apply good_dir_insert, Hg.
  - unfold free_of_dir in *. rewrite state_path_eq in *. by rewrite Hfiles.
  - unfold free_of_dir in *. rewrite state_temp_eq in *. by rewrite Hfiles.
  - exists s. revert Hdoc. unfold on_disk, file_at, file_in. rewrite state_path_eq. by rewrite Hfiles.
  - exists t. by rewrite Hfs1, lookup_insert_eq.
  - intros q Hp. rewrite Hfs1. cbn. destruct (decide (path_for (state_path st) = q)) as [<-|Hneq].
    + rewrite state_lock_eq in Hp. rewrite parent_snoc in Hp by done. injection Hp as Hp.
      apply (f_equal List.length) in Hp. rewrite length_app in Hp. cbn in Hp. lia.
    + rewrite lookup_insert_ne by done. rewrite Hsame; [by apply Hb|]. intros Hin.
      apply way_shorter in Hin. rewrite state_lock_eq in Hp.
      apply parent_length in Hp. rewrite length_app in Hp. cbn in Hp. lia.
Qed.

(** Giving the lock back. *)
Lemma release_workable w :
  st_repo_dir st <> [] -> workable w ->
  exists w1, release (mkLockDir (path_for (state_path st)) None) w = (Ok tt, w1) /\ ready w1
    /\ same_state st w w1.
Proof.
  intros Hne [Hq Hd Hs Ht [s Hdoc] [t Hl] Hb]. unfold release, bind, ret, attempt. cbn [lock_owner lock_path].
  unfold fs_remove_dir. rewrite syscall_quiet by done. unfold eff_remove_dir. rewrite Hl.
  assert (has_children (w_fs w) (path_for (state_path st)) = false) as Hch.
  { unfold has_children. apply Bool.not_true_is_false. intros ([q n] & Hin & Hp)%existsb_exists.
    apply bool_decide_eq_true in Hp. apply list_elem_of_In, elem_of_map_to_list in Hin.
    cbn in Hp. apply Hb in Hp. congruence. }
  rewrite Hch. cbn [fst snd]. eexists. split; [done|].
  assert (forall c, c <> "state.json.lock" ->
    delete (path_for (state_path st)) (w_fs w) !! (st_repo_dir st ++ [c])%list
    = w_fs w !! (st_repo_dir st ++ [c])%list) as Hfiles.
  { intros c Hc. rewrite state_lock_eq. rewrite lookup_delete_ne; [done|by apply snoc_ne]. }
  assert (same_state st w (set_fs (delete (path_for (state_path st)) (w_fs w)) (bump_op w))) as Hsame.
  { unfold same_state, file_at, file_in. cbn [w_fs set_fs].
    specialize (Hfiles "state.json"). rewrite <- state_path_eq in Hfiles. by rewrite Hfiles. }
  split; [|done]. constructor; cbn [w_fs set_fs bump_op].
  - done.
  - done.
  - intros q Hqw. destruct (Hd q Hqw) as [_ Hf]. unfold is_file in *.
    destruct (decide (path_for (state_path st) = q)) as [<-|]; [by rewrite lookup_delete_eq|].
    by rewrite lookup_delete_ne.
  - unfold free_of_dir in *. rewrite state_path_eq in *. by rewrite Hfiles.
  - unfold free_of_dir in *. rewrite state_temp_eq in *. by rewrite Hfiles.
  - by rewrite lookup_delete_eq.
  - intros q Hp. apply lookup_delete_None. right. by apply Hb.
  - exists s. by eapply on_disk_same.
Qed.

(** An operation whose body is sure, run from a ready world. *)
Lemma sure_locked {A} (body : M StateError A) :
  sure workable body -> sure ready (with_lock st body).
Proof.
  intros Hb w Hr. destruct (acquire_lock_ready w Hr) as (w1 & Ha & Hw1 & _).
  destruct (Hb w1 Hw1) as [Hi Hw2]. unfold with_lock, bind. rewrite Ha. unfold guarded.
  destruct (body w1) as [r w2]. cbn in Hi, Hw2.
  destruct (release_workable w2 (rd_repo w Hr) Hw2) as (w3 & Hrel & Hr3 & _).
  destruct r as [a|e|]; [| |by destruct Hi]; rewrite Hrel; by split.
Qed.

(** ** Exactness *)
Definition outcome_result {A} (o : outcome A) : result StateError A :=
  match o with inl e => Err e | inr (a, _) => Ok a end.
Definition outcome_state {A} (s : RepositoryState) (o : outcome A) : RepositoryState :=
  match o with inr (_, Some s') => with_git_root st s' | _ => s end.

(** In a ready world [m] returns what [spec] computes from the document on
    disk, writes the document [spec] computes, and leaves a ready world. *)
Definition exactly {A} (m : M StateError A)
    (spec : (nat -> string) -> RepositoryState -> outcome A) : Prop :=
  forall w s, ready w -> on_disk st w s ->
  exists k, (w_tick w <= k)%nat /\
    (m w).1 = outcome_result (spec (timestamps w k) s) /\
    on_disk st (m w).2 (outcome_state s (spec (timestamps w k) s)) /\ ready (m w).2.

Lemma exact_run {A} (m : M StateError A) spec :
  implements st m spec -> sure ready m -> exactly m spec.
Proof.
  intros Hm Hsure w s Hr Hd. destruct (Hsure w Hr) as [Hi Hr'].
  destruct (m w) as [r w'] eqn:E. cbn [fst snd] in *.
  apply Hm in E as [[? _]|(s0 & k & x & Hd0 & Hk & -> & Ha)]; [done|].
  rewrite (on_disk_fun st _ _ _ Hd0 Hd) in Ha. exists k. split; [done|].
  assert (r <> Killed) as Hnk by (intros ->; by apply Hi).
  revert Ha. unfold agrees. destruct (spec (timestamps w k) s) as [e|[a [s'|]]]; cbn.
  - intros [-> Hs]. split_and!; [done|by eapply on_disk_same|done].
  - intros [[->|?] Hs]; [|done]. by split_and!.
  - intros [[->|?] Hs]; [|done]. split_and!; [done|by eapply on_disk_same|done].
Qed.

(** [solve_sure] walks a body; the writes remain. *)
Ltac solve_sure :=
  repeat first
    [ progress intros
    | solve [apply sure_ret] | solve [apply sure_throw; done] | solve [apply sure_now_iso]
    | simple apply sure_bind
    | match goal with |- sure _ (match ?x with _ => _ end) => destruct x eqn:? end ].

Context (Hrepo : st_repo_dir st <> []).

Lemma loadable_branch_parts s b bs :
  loadable s -> s_branches s !! b = Some bs ->
  codec_wf (b_in_flight bs) /\ codec_wf (b_last_failure bs).
Proof. intros Hl Hb. exact (loadable_lookup s b bs Hl Hb). Qed.

Lemma sure_seed b r : is_revision r = true -> sure ready (seed_cursor st b r).
Proof.
  intros Hr. unfold seed_cursor, validate_revision. rewrite Hr. change (lift (inr tt)) with (ret (E:=StateError) tt).
  apply sure_bind; [apply sure_ret|]. intros _. apply sure_locked, sure_read_state; [done|].
  intros s Hl. destruct (loadable_entry s b Hl) as [Hf Hlf]. solve_sure.
  apply sure_write_state. by apply loadable_set_branch.
Qed.
Lemma sure_observe_fail b k m : sure ready (record_observation_failure st b k m).
Proof.
  apply sure_locked, sure_read_state; [done|]. intros s Hl. destruct (loadable_entry s b Hl).
  solve_sure. apply sure_write_state. by apply loadable_set_branch.
Qed.
Lemma sure_observe_clear b : sure ready (clear_observation_failure st b).
Proof.
  apply sure_locked, sure_read_state; [done|]. intros s Hl.
  destruct (s_branches s !! b) as [bs|] eqn:E; [|solve_sure].
  destruct (loadable_branch_parts s b bs Hl E). solve_sure.
  apply sure_write_state. by apply loadable_set_branch.
Qed.
Lemma sure_admit b h : is_revision h = true -> sure ready (admit_range st b h).
Proof.
  intros Hr. unfold admit_range, validate_revision. rewrite Hr. change (lift (inr tt)) with (ret (E:=StateError) tt).
  apply sure_bind; [apply sure_ret|]. intros _. apply sure_locked, sure_read_state; [done|].
  intros s Hl. destruct (s_branches s !! b) as [bs|] eqn:E; [|solve_sure].
  destruct (loadable_branch_parts s b bs Hl E). solve_sure.
  apply sure_write_state. apply loadable_set_branch; [done|].
  split; [cbn; unfold is_u32, u32_max; cbn; lia | done].
Qed.
Lemma sure_retry b h : sure ready (retry_attempt st b h).
Proof.
  apply sure_locked, sure_read_state; [done|]. intros s Hl.
  destruct (s_branches s !! b) as [bs|] eqn:E; [|solve_sure].
  destruct (loadable_branch_parts s b bs Hl E). solve_sure.
  apply sure_write_state. apply loadable_set_branch; [done|].
  split; [apply u32_wrapping_add_u32 | done].
Qed.
Lemma sure_fail b h r : sure ready (fail_range st b h r).
Proof.
  apply sure_locked, sure_read_state; [done|]. intros s Hl.
  destruct (s_branches s !! b) as [bs|] eqn:E; [|solve_sure].
  destruct (loadable_branch_parts s b bs Hl E) as [Hf Hlf]. solve_sure.
  apply sure_write_state. apply loadable_set_branch; [done|].
  split; [done|]. exact Hf.
Qed.

(** ** Completion *)

(** There is a record at the path already, or room for one. *)
Definition record_room (rp : path) (fs : fsys) : Prop :=
  is_Some (fs !! rp) \/
  ((forall d q, parent rp = Some d -> q ∈ way d -> is_file fs q = false) /\ free_of_dir fs (temp_path rp)).

Lemma way_prefix (p q : path) : q ∈ way p -> exists k, p = (q ++ k)%list.
Proof.
  unfold way. revert q. induction p as [|x p IH]; intros q Hq.
  { apply list_elem_of_singleton in Hq as ->. by exists []. }
  destruct p as [|y p]; [apply list_elem_of_singleton in Hq as ->; by exists []|].
  change (proper_prefixes (x :: y :: p)) with ([x] :: (cons x <$> proper_prefixes (y :: p))) in Hq.
  cbn [app] in Hq. apply elem_of_cons in Hq as [->|Hq]; [by eexists|].
  apply elem_of_app in Hq as [(q' & -> & Hq')%list_elem_of_fmap|Hq].
  - destruct (IH q') as [k Hk]; [apply elem_of_app; by left|]. exists k. by rewrite Hk.
  - apply list_elem_of_singleton in Hq as ->. exists []. by rewrite app_nil_r.
Qed.

(** A sibling of [records] is not on the way to a record directory. *)
Lemma sibling_not_way mid (c : string) (q k : path) :
  c <> "records" -> q = (st_repo_dir st ++ c :: k)%list ->
  q ∉ way (st_repo_dir st ++ "records" :: mid)%list.
Proof.
  intros Hc -> (k' & Hk)%way_prefix. rewrite <- app_assoc in Hk. apply app_inv_head in Hk.
  by injection Hk.
Qed.

Section RecordRoom.
Context (branch head : string).
Hypothesis Hhead : is_revision head = true.
Abbreviation rp := (record_path st branch head).

Lemma child_of_lock (q : path) :
  parent q = Some (path_for (state_path st)) -> exists x, q = (st_repo_dir st ++ "state.json.lock" :: x)%list.
Proof.
  intros Hp. destruct q as [|x q _] using rev_ind; [done|].
  unfold parent in Hp. rewrite removelast_snoc in Hp. rewrite state_lock_eq in Hp.
  assert (q = (st_repo_dir st ++ ["state.json.lock"])%list) as ->
    by (repeat case_match; by simplify_eq).
  exists [x]. by rewrite <- app_assoc.
Qed.

(** Work inside the [records] tree leaves a workable world. *)
Lemma workable_records w w' :
  quiet w' -> (forall q, q ∈ way (st_repo_dir st) -> good_dir (w_fs w') q) ->
  (forall c k, c <> "records" ->
     w_fs w' !! (st_repo_dir st ++ c :: k)%list = w_fs w !! (st_repo_dir st ++ c :: k)%list) ->
  workable w -> workable w'.
Proof.
  intros Hq' Hd' Hsame [Hq Hd Hs Ht [s Hdoc] [t Hl] Hb].
  assert (forall c, c <> "records" ->
    w_fs w' !! (st_repo_dir st ++ [c])%list = w_fs w !! (st_repo_dir st ++ [c])%list) as H1
    by (intros; by apply Hsame).
  constructor; [done|done|..].
  - unfold free_of_dir in *. rewrite state_path_eq in *. by rewrite H1.
  - unfold free_of_dir in *. rewrite state_temp_eq in *. by rewrite H1.
  - exists s. revert Hdoc. unfold on_disk, file_at, file_in.
    specialize (H1 "state.json"). rewrite <- state_path_eq in H1. by rewrite H1.
  - exists t. rewrite state_lock_eq in *. by rewrite H1.
  - intros q Hp. destruct (child_of_lock q Hp) as [x Hx]. specialize (Hb q Hp). subst q.
    by rewrite Hsame.
Qed.

Lemma write_record_once_quiet record w :
  codec_wf record -> workable w -> record_room rp (w_fs w) ->
  exists w', write_record_once rp record w = (Ok tt, w') /\ workable w' /\ present w' rp.
Proof.
  intros Hwf Hw Hroom. pose proof (wk_quiet w Hw) as Hq.
  destruct (record_path_shape st branch head Hhead) as (mid & Hrp).
  unfold write_record_once, bind, fs_exists, bind, attempt, fs_metadata, ret.
  rewrite syscall_quiet by done. unfold eff_metadata, record_room in *.
  destruct (w_fs w !! rp) as [n|] eqn:El; cbn [fst snd].
  { rewrite set_fs_same. eexists. split_and!; [done|by apply workable_op|]. by exists n. }
  destruct Hroom as [[? ?]|[Hdirs Htemp]]; [done|]. rewrite set_fs_same.
  assert (parent rp = Some (st_repo_dir st ++ "records" :: mid)%list) as Hpar.
  { rewrite Hrp, app_assoc, parent_snoc; [done|]. intros Heq. by destruct head as [|? [|]]. }
  rewrite Hpar. set (dir := (st_repo_dir st ++ "records" :: mid)%list) in *.
  unfold map_err, fs_create_dir_all. rewrite syscall_quiet by done. unfold eff_create_dir_all.
  fold (way dir). cbn [w_fs bump_op w_clock w_tick].
  destruct (make_dirs_ok (way dir) (w_clock w (w_tick w)) (w_fs w)) as (-> & H2 & H3); [by eauto|].
  set (fs2 := (make_dirs (way dir) (w_clock w (w_tick w)) (w_fs w)).2) in *.
  unfold lift, record_body.
  destruct (json_text_round_trip _ (encode_representable _ Hwf)) as (b & -> & Hb).
  assert (rp = (dir ++ [(head ++ ".json")%string])%list) as Hrp' by (rewrite Hrp, app_assoc; done).
  assert (forall x : string, (dir ++ [x])%list ∉ way dir) as Hnw.
  { intros x Hin. apply way_shorter in Hin. rewrite length_app in Hin. cbn in Hin. lia. }
  assert (temp_path rp = (dir ++ [("." ++ (head ++ ".json") ++ ".tmp")%string])%list) as Htp.
  { rewrite Hrp', temp_path_snoc; [done|by apply revision_json_plain|by apply revision_json_not_dots]. }
  rewrite Hrp'. destruct (atomic_write_quiet dir (head ++ ".json") b
    (set_fs fs2 (bump_op (bump_op w)))) as (w' & -> & Hq' & Hfs).
  { done. }
  { by apply revision_json_plain. }
  { by apply revision_json_not_dots. }
  { apply H2. left. apply elem_of_app. right. by apply list_elem_of_singleton. }
  { unfold free_of_dir. cbn [w_fs set_fs]. rewrite H3 by apply Hnw. by rewrite <- Hrp', El. }
  { unfold free_of_dir in *. cbn [w_fs set_fs]. rewrite <- Hrp', Htp. rewrite H3 by apply Hnw.
    by rewrite <- Htp. }
  cbn [w_fs set_fs] in Hfs. rewrite <- Hrp', Htp, Hrp' in Hfs.
  exists w'. split_and!; [done| |unfold present; rewrite <- Hrp', Hfs, <- Hrp'; rewrite lookup_insert_eq; by eexists].
  assert (forall x q, (List.length q < List.length dir + 1)%nat -> (dir ++ [x])%list <> q) as Hlong.
  { intros x q Hlt <-. rewrite length_app in Hlt. cbn in Hlt. lia. }
  apply (workable_records w); [done| | |done].
  - intros q Hqw. rewrite Hfs. apply way_shorter in Hqw as Hlen.
    assert (List.length q < List.length dir + 1)%nat
      by (unfold dir; rewrite length_app; cbn; lia).
    apply good_dir_file; [by apply Hlong|]. apply good_dir_delete; [by apply Hlong|].
    apply H2. right. by apply (wk_dirs w Hw).
  - intros c k Hc. rewrite Hfs.
    assert (forall x, (dir ++ [x])%list <> (st_repo_dir st ++ c :: k)%list) as Hne.
    { intros x Heq. unfold dir in Heq. rewrite <- app_assoc in Heq. apply app_inv_head in Heq. by injection Heq. }
    rewrite lookup_insert_ne, lookup_delete_ne by apply Hne. apply H3.
    by eapply sibling_not_way.
Qed.

(** Room for the record survives taking the lock. *)
Lemma record_room_locked w w1 :
  workable w1 ->
  (forall q, q ∉ way (st_repo_dir st) -> q <> path_for (state_path st) -> w_fs w1 !! q = w_fs w !! q) ->
  record_room rp (w_fs w) -> record_room rp (w_fs w1).
Proof.
  intros Hw1 Hsame.
  destruct (record_path_shape st branch head Hhead) as (mid & Hrp).
  destruct (record_temp_eq st branch head Hhead) as (mid' & Htp).
  assert (forall k : path, w_fs w1 !! (st_repo_dir st ++ "records" :: k)%list
                         = w_fs w !! (st_repo_dir st ++ "records" :: k)%list) as Hin.
  { intros k. apply Hsame.
    - intros Hin. apply way_shorter in Hin. rewrite length_app in Hin. cbn in Hin. lia.
    - rewrite state_lock_eq. intros Heq. by apply app_inv_head in Heq. }
  intros [Hsome|[Hdirs Htemp]]; [left|right].
  - rewrite Hrp in Hsome |- *. cbn [app] in *. by rewrite Hin.
  - split.
    + intros d q Hd Hq. specialize (Hdirs d q Hd Hq). unfold is_file in *.
      destruct (decide (q ∈ way (st_repo_dir st))) as [Hqw|Hqw].
      { by destruct (wk_dirs w1 Hw1 q Hqw) as [_ ?]. }
      destruct (decide (q = path_for (state_path st))) as [->|Hql].
      { by destruct (wk_lock w1 Hw1) as [t ->]. }
      by rewrite Hsame.
    + unfold free_of_dir in *. rewrite Htp in Htemp |- *. cbn [app] in *. by rewrite Hin.
Qed.
End RecordRoom.

(** ** What a completion returns when nothing fails *)
Section CompleteExact.
Context (record : ReviewRecord).
Hypothesis Hreq : well_formed_request record.
Abbreviation rpath := (record_path st (rec_branch record) (rec_head record)).

Lemma stamped_workable w :
  workable w -> exists record' w1, stamped record w = (Ok record', w1) /\ filed_as record record'
    /\ workable w1 /\ w_fs w1 = w_fs w.
Proof.
  intros Hw. unfold stamped. destruct (is_blank _) eqn:E.
  - eexists _, _. split; [done|]. split; [right; eauto|]. split; [by apply workable_tick|done].
  - eexists _, _. split; [done|]. split; [by left|]. done.
Qed.

Lemma complete_loaded_sure s record' w stray :
  loadable s -> filed_as record record' -> workable w -> record_room rpath (w_fs w) ->
  infra_error stray = false ->
  let '(r, w') := complete_loaded st stray s record' w in ~ infra r /\ workable w'.
Proof.
  intros Hl Hf Hw Hroom Hst. destruct (filed_as_same _ _ Hf) as (Eb & _ & Eh & Hwf).
  unfold complete_loaded. rewrite Eb, Eh. destruct Hreq as (Hrwf & _ & _ & Hhead & _).
  assert (forall bs, let '(r, w') := complete_replay bs record' rpath stray w in ~ infra r /\ workable w') as Hrep.
  { intros bs. unfold complete_replay. case_decide; [|cbn; split; [congruence|done]].
    unfold bind, fs_exists, bind, attempt, fs_metadata, ret. rewrite syscall_quiet by apply Hw.
    unfold eff_metadata. cbn [fst snd]. rewrite set_fs_same.
    destruct (w_fs w !! rpath); cbn; (split; [congruence || tauto|by apply workable_op]). }
  destruct (s_branches s !! rec_branch record) as [bs|] eqn:E; [|cbn; split; [congruence|done]].
  destruct (b_in_flight bs) as [range|] eqn:Ef; [|apply Hrep].
  destruct (range_matches range record'); [|apply Hrep].
  unfold complete_in_flight, bind at 1.
  destruct (write_record_once_quiet (rec_branch record) (rec_head record) Hhead record' w) as (w1 & -> & Hw1 & _);
    [auto|done|done|].
  destruct (loadable_branch_parts s _ bs Hl E) as [_ Hlf].
  assert (forall now, sure workable (do* write_state st (set_branch (rec_branch record')
    (mkBranch (Some (rec_head record')) None (b_last_failure bs) (b_last_observation_failure bs) now) s) in
    ret (Completed range rpath))) as Hsure.
  { intros now. apply sure_bind; [|intros; apply sure_ret]. apply sure_write_state.
    by apply loadable_set_branch. }
  specialize (Hsure (iso_from_unix_ms (w_clock w1 (w_tick w1))) (bump_tick w1) (workable_tick w1 Hw1)).
  unfold now_iso, now_ms, bind at 1 2, ret at 1.
  destruct (bind _ _ (bump_tick w1)) as [r w']. exact Hsure.
Qed.

Lemma complete_sure w :
  ready w -> record_room rpath (w_fs w) ->
  ~ infra (complete st record w).1 /\ ready (complete st record w).2.
Proof.
  intros Hr Hroom. rewrite complete_unguarded by done.
  destruct (acquire_lock_ready w Hr) as (w1 & Ha & Hw1 & Hsame).
  assert (is_revision (rec_head record) = true) as Hhead by apply Hreq.
  apply (record_room_locked _ _ Hhead w w1 Hw1 Hsame) in Hroom.
  destruct (wk_doc w1 Hw1) as [s Hdoc].
  destruct (stamped_workable (bump_op w1) (workable_op w1 Hw1)) as (record' & w2 & Hst & Hf & Hw2 & Hfs2).
  pose proof (complete_loaded_sure s record' w2
    (StrayCompletion (rec_branch record) (rec_base record) (rec_head record))
    (on_disk_loadable st w1 s Hdoc) Hf Hw2) as Hbody.
  rewrite Hfs2 in Hbody. specialize (Hbody Hroom eq_refl).
  destruct (with_lock st _ w) as [r0 w0] eqn:E. revert E.
  unfold with_lock, bind at 1. rewrite Ha. unfold guarded, bind.
  rewrite (read_state_workable w1 s) by done. rewrite Hst.
  destruct (complete_loaded _ _ _ _ w2) as [r w3]. destruct Hbody as [Hi Hw3].
  destruct (release_workable w3 Hrepo Hw3) as (w4 & Hrel & Hr4 & _).
  destruct r as [a|e|]; [| |by destruct Hi]; rewrite Hrel; intros [= <- <-]; exact (conj Hi Hr4).
Qed.

(** The state in which the review of [record] is still in flight, and the one
    in which it is done. *)
Definition review_pending (s : RepositoryState) : Prop :=
  exists bs range, s_branches s !! rec_branch record = Some bs /\ b_in_flight bs = Some range
                   /\ range_matches range record = true.
Definition review_done (s : RepositoryState) : Prop :=
  exists bs, s_branches s !! rec_branch record = Some bs /\ b_in_flight bs = None
             /\ b_cursor bs = Some (rec_head record).

Lemma complete_pending_quiet w s :
  ready w -> record_room rpath (w_fs w) -> on_disk st w s -> review_pending s ->
  (exists range, (complete st record w).1 = Ok (Completed range rpath)) /\
  exists s', on_disk st (complete st record w).2 s' /\ review_done s'.
Proof.
  intros Hr Hroom Hd (bs & range & Hb & Hf & Hm).
  destruct (complete_sure w Hr Hroom) as [Hi _].
  destruct (complete st record w) as [r w'] eqn:E. cbn [fst snd] in *.
  apply (complete_implements st record Hreq) in E as [[? _]|(s0 & k & x & Hd0 & _ & (n & th & ->) & Ha)]; [done|].
  rewrite (on_disk_fun st _ _ _ Hd0 Hd) in Ha. unfold spec_complete in Ha. rewrite Hb in Ha.
  destruct bs as [c fl lf lo up]. cbn in Hf. subst fl. rewrite Hm in Ha.
  destruct Ha as [[->| ->] Hd']; [|by destruct Hi]. split; [by eexists|]. eexists. split; [exact Hd'|].
  eexists. cbn. rewrite lookup_insert_eq. by split_and!.
Qed.

Lemma complete_done_quiet w s :
  ready w -> on_disk st w s -> review_done s -> present w rpath ->
  (complete st record w).1 = Ok (AlreadyComplete (rec_head record) rpath) /\
  same_state st w (complete st record w).2.
Proof.
  intros Hr Hd (bs & Hb & Hf & Hc) Hp.
  destruct (complete_sure w Hr) as [Hi _]; [by left|].
  assert (same_state st w (complete st record w).2) as Hsame.
  { destruct (complete st record w) as [r w'] eqn:E. cbn [fst snd] in *.
    apply (complete_implements st record Hreq) in E as [[? _]|(s0 & k & x & Hd0 & _ & (n & th & ->) & Ha)]; [done|].
    rewrite (on_disk_fun st _ _ _ Hd0 Hd) in Ha. unfold spec_complete in Ha. rewrite Hb in Ha.
    destruct bs as [c fl lf lo up]. cbn in Hf, Hc. subst fl c. rewrite decide_True in Ha by done.
    by destruct th, Ha. }
  split; [|done]. revert Hi. rewrite complete_unguarded by done.
  destruct (acquire_lock_ready w Hr) as (w1 & Ha & Hw1 & Hfs1).
  pose proof (keeps_run _ _ _ _ _ (keeps_acquire_lock st) Ha) as F1.
  assert (present w1 rpath) as Hp1.
  { apply (frame_present _ _ _ F1); [|done]. apply record_not_locked, Hreq. }
  assert (on_disk st w1 s) as Hd1 by (eapply on_disk_same; [|exact Hd]; by apply frame_same_state).
  destruct (stamped_workable (bump_op w1) (workable_op w1 Hw1)) as (record' & w2 & Hst & Hfa & Hw2 & Hfs2).
  destruct (filed_as_same _ _ Hfa) as (Eb & _ & Eh & _).
  destruct (with_lock st _ w) as [r0 w0] eqn:E. revert E. cbn [fst].
  unfold with_lock, bind at 1. rewrite Ha. unfold guarded, bind at 1.
  rewrite (read_state_workable w1 s) by done. unfold bind at 1. rewrite Hst.
  unfold complete_loaded. rewrite Eb, Eh, Hb, Hf. unfold complete_replay.
  rewrite decide_True by congruence. unfold bind, fs_exists, bind, attempt, fs_metadata, ret.
  rewrite syscall_quiet by apply Hw2. unfold eff_metadata. rewrite Hfs2. destruct Hp1 as [nd Hnd].
  change (w_fs (bump_op w1)) with (w_fs w1). rewrite Hnd, Eh. cbn [fst snd].
  destruct (release _ _) as [[] ?]; intros ?; inv_res; cbn; tauto.
Qed.
End CompleteExact.
End Availability.
