(* ===== verification/StoreTheorems.v ===== *)
(** * The guarantees of the store

    The refinement, its exactness when nothing fails, recovery from a death in
    the middle of a completion, and mutual exclusion by the directory lock. *)
From S2P Require Import Prelude RustStr Json Time World LockDir Sim Profile ProfileProofs.
From S2P Require Import State Store StoreProofs Completion Machine Availability.
#[local] Open Scope string_scope.
#[local] Open Scope Z_scope.

Section Theorems.
Context `{EnvOk} (st : Store).

(** C3: under every fault schedule each store operation either fails for the
    sake of its surroundings (I/O, lock, malformed document, process death)
    with the state document untouched, or returns what its pure specification
    computes from the document on disk and leaves exactly the document that
    specification computes. *)
Theorem store_refines :
  (forall b r, is_revision r = true -> implements st (seed_cursor st b r) (spec_seed b r)) /\
  (forall b h, is_revision h = true -> implements st (admit_range st b h) (spec_admit b h)) /\
  (forall b h, implements st (retry_attempt st b h) (spec_retry b h)) /\
  (forall b h r, implements st (fail_range st b h r) (spec_fail b h r)) /\
  (forall b k m, implements st (record_observation_failure st b k m) (spec_record_observation b k m)) /\
  (forall b, implements st (clear_observation_failure st b) (spec_clear_observation b)) /\
  (forall rec, well_formed_request rec ->
     implements_rel st (complete st rec) (spec_complete_rel st rec)).
Proof.
  split_and!; intros.
  - by apply seed_cursor_implements.
  - by apply admit_implements.
  - apply retry_attempt_implements.
  - apply fail_range_implements.
  - apply record_observation_failure_implements.
  - apply clear_observation_failure_implements.
  - by apply complete_implements.
Qed.

(** When system calls succeed and the lock is free, every operation
    returns its specification's answer, error or not, writes its
    specification's document, releases the lock and leaves the store ready
    for the next operation. *)
Theorem store_answers :
  st_repo_dir st <> [] ->
  (forall b r, is_revision r = true -> exactly st (seed_cursor st b r) (spec_seed b r)) /\
  (forall b h, is_revision h = true -> exactly st (admit_range st b h) (spec_admit b h)) /\
  (forall b h, exactly st (retry_attempt st b h) (spec_retry b h)) /\
  (forall b h r, exactly st (fail_range st b h r) (spec_fail b h r)) /\
  (forall b k m, exactly st (record_observation_failure st b k m) (spec_record_observation b k m)) /\
  (forall b, exactly st (clear_observation_failure st b) (spec_clear_observation b)).
Proof.
  intros Hrepo. split_and!; intros; apply exact_run.
  - by apply seed_cursor_implements.
  - by apply sure_seed.
  - by apply admit_implements.
  - by apply sure_admit.
  - apply retry_attempt_implements.
  - by apply sure_retry.
  - apply fail_range_implements.
  - by apply sure_fail.
  - apply record_observation_failure_implements.
  - by apply sure_observe_fail.
  - apply clear_observation_failure_implements.
  - by apply sure_observe_clear.
Qed.


(** ** Mutual exclusion *)

Lemma lock_create_taken (p : path) o w t :
  quiet w -> w_fs w !! p = Some (Dir t) ->
  exists w1, lock_create p o w = (Err (os_error AlreadyExists), w1) /\ w_fs w1 = w_fs w
    /\ quiet w1 /\ w_clock w1 = w_clock w.
Proof.
  intros Hq Hl. unfold lock_create, bind, fs_create_dir. rewrite syscall_quiet by done.
  unfold eff_create_dir. assert (is_dir (w_fs w) p = true) as -> by (unfold is_dir; by repeat case_match).
  cbn [orb fst snd]. rewrite set_fs_same. eexists. by split_and!.
Qed.

(** A lock directory that is never older than the staleness bound. *)
Definition held_fresh (p : path) (stale_after : Z) (w : World) : Prop :=
  quiet w /\ exists t, w_fs w !! p = Some (Dir t) /\ forall n, w_clock w n - t <= Z.max stale_after MIN_STALE.

Lemma held_fresh_eq p stale w w1 :
  quiet w1 -> w_fs w1 = w_fs w -> w_clock w1 = w_clock w -> held_fresh p stale w -> held_fresh p stale w1.
Proof. intros Hq Hfs Hc [_ Hh]. split; [done|]. by rewrite Hfs, Hc. Qed.

Lemma acquire_held file stale w :
  0 <= stale -> held_fresh (path_for file) stale w ->
  exists w1, acquire file stale w = (Err (lock_held (path_for file)), w1) /\ w_fs w1 = w_fs w
    /\ held_fresh (path_for file) stale w1.
Proof.
  intros Hst Hh. destruct Hh as [Hq (t & Hl & Hage)] eqn:Hh'. clear Hh'.
  unfold acquire, acquire_with_owner, bind, attempt. cbv zeta.
  destruct (lock_create_taken (path_for file) None w t Hq Hl) as (w1 & -> & Hfs1 & Hq1 & Hc1).
  cbn [os_error io_error_kind]. rewrite decide_True by done.
  unfold judge_and_reclaim, bind, attempt, fs_metadata. rewrite syscall_quiet by done.
  unfold eff_metadata. rewrite Hfs1, Hl. cbn [fst snd]. unfold now_ms.
  cbn [w_clock w_tick set_fs bump_op]. rewrite Hc1.
  assert ((Z.max stale MIN_STALE <? Z.max 0 (w_clock w (w_tick w1) - t)) = false) as ->.
  { apply Z.ltb_ge. specialize (Hage (w_tick w1)). unfold MIN_STALE in *. lia. }
  unfold throw. eexists. split; [done|]. split; [done|]. apply (held_fresh_eq _ _ w); try done.
Qed.

Abbreviation held_text := ("Lock file is already being held: " ++ path_display (path_for (state_path st))).

Lemma acquire_loop_held n e w :
  held_fresh (path_for (state_path st)) LOCK_STALE_AFTER w ->
  exists w1, acquire_loop n (state_path st) e w =
    (Err (Lock (default (if Nat.eqb n 0 then "busy" else held_text) e)), w1) /\ w_fs w1 = w_fs w.
Proof.
  revert e w. induction n as [|n IH]; intros e w Hh; cbn [acquire_loop].
  { unfold throw. eexists. by split. }
  unfold bind, attempt.
  destruct (acquire_held (state_path st) LOCK_STALE_AFTER w) as (w1 & -> & Hfs & Hh1);
    [unfold LOCK_STALE_AFTER; lia|done|].
  cbn [lock_held io_error_kind io_error_text]. rewrite decide_True by done.
  destruct (IH (match e with None => Some held_text | Some t => Some t end) w1 Hh1) as (w2 & Hrun & Hfs2).
  exists w2. split; [|congruence]. destruct e; exact Hrun.
Qed.

(** C36: while another process holds the lock and keeps it fresh, no operation
    of the store runs its body: it fails with the lock error and the file
    system is as it was. *)
Theorem lock_excludes {A} (body : M StateError A) w :
  held_fresh (path_for (state_path st)) LOCK_STALE_AFTER w ->
  (forall q, q ∈ way (st_repo_dir st) -> good_dir (w_fs w) q) ->
  (with_lock st body w).1 = Err (Lock held_text) /\ w_fs (with_lock st body w).2 = w_fs w.
Proof.
  intros Hh Hd. unfold with_lock, acquire_lock, bind, map_err, fs_create_dir_all.
  rewrite syscall_quiet by apply Hh. unfold eff_create_dir_all. fold (way (st_repo_dir st)).
  assert (forall ps, (forall q, q ∈ ps -> good_dir (w_fs w) q) ->
    make_dirs ps (w_clock w (w_tick w)) (w_fs w) = (inr tt, w_fs w)) as Hmk.
  { induction ps as [|p ps IH]; intros Hps; [done|]. cbn.
    destruct (Hps p) as [-> _]; [by left|]. apply IH. intros q Hq. apply Hps. by right. }
  rewrite Hmk by done. cbn [fst snd]. rewrite set_fs_same.
  destruct (acquire_loop_held 10 None (bump_op w)) as (w1 & -> & Hfs); [|by split].
  apply (held_fresh_eq _ _ w); [apply Hh|done..].
Qed.

(** Judging an abandoned lock removes its directory. *)
Lemma judge_reclaims p stale w t :
  quiet w -> p <> [] -> w_fs w !! p = Some (Dir t) ->
  (forall q, q ∈ way p -> is_file (w_fs w) q = false) ->
  (forall q, parent q = Some p -> w_fs w !! q = None) ->
  (forall n, stale < w_clock w n - t) -> 0 <= stale ->
  exists w1, judge_and_reclaim p stale w = (Ok tt, w1) /\ w_fs w1 = delete p (w_fs w) /\ quiet w1.
Proof.
  intros Hq Hne Hl Hway Hch Hage Hst.
  assert (w_fs w !! owner_file p = None) as Hown.
  { apply Hch. unfold owner_file. by apply parent_snoc. }
  assert (blocked (w_fs w) (owner_file p) = false) as Hblk.
  { unfold blocked, owner_file. rewrite proper_prefixes_snoc by done.
    apply Bool.not_true_is_false. intros (q & Hin & Hf)%existsb_exists.
    apply list_elem_of_In in Hin. rewrite Hway in Hf; done. }
  assert (has_children (w_fs w) p = false) as Hnc.
  { unfold has_children. apply Bool.not_true_is_false. intros ([q n] & Hin & Hp)%existsb_exists.
    apply bool_decide_eq_true in Hp. apply list_elem_of_In, elem_of_map_to_list in Hin.
    cbn in Hp. apply Hch in Hp. congruence. }
  unfold judge_and_reclaim, bind, attempt, fs_metadata. rewrite syscall_quiet by done.
  unfold eff_metadata. rewrite Hl. cbn [fst snd]. rewrite set_fs_same. unfold now_ms.
  cbn [w_clock w_tick bump_op].
  assert ((stale <? Z.max 0 (w_clock w (w_tick w) - t)) = true) as ->.
  { apply Z.ltb_lt. specialize (Hage (w_tick w)). lia. }
  unfold read_to_string_ok, bind, attempt, fs_read. rewrite syscall_quiet by done.
  unfold eff_read. cbn [w_fs bump_tick bump_op]. rewrite Hown. cbn [fst snd].
  unfold ret, get_ext. cbn [negb].
  unfold tolerate_not_found, bind, attempt, fs_remove_file. rewrite syscall_quiet by done.
  unfold eff_remove_file. cbn [w_fs set_fs bump_tick bump_op]. rewrite Hown. cbn [fst snd].
  unfold missing_kind. rewrite Hblk. cbn [os_error io_error_kind].
  rewrite decide_True by done. unfold ret, fs_remove_dir. rewrite syscall_quiet by done.
  unfold eff_remove_dir. cbn [w_fs set_fs bump_tick bump_op]. rewrite Hl, Hnc. cbn [fst snd].
  eexists. split_and!; done.
Qed.

(** A lock whose holder died (no owner file, not refreshed for longer
    than the staleness bound) is reclaimed: one attempt takes it over. *)
Theorem stale_lock_reclaimed file stale w t d :
  quiet w -> 0 <= stale -> parent (path_for file) = Some d ->
  (forall q, q ∈ way (path_for file) -> is_file (w_fs w) q = false) ->
  is_dir (w_fs w) d = true -> d <> [] ->
  w_fs w !! path_for file = Some (Dir t) ->
  (forall q, parent q = Some (path_for file) -> w_fs w !! q = None) ->
  (forall n, Z.max stale MIN_STALE < w_clock w n - t) ->
  exists w1 t1, acquire file stale w = (Ok (mkLockDir (path_for file) None), w1)
    /\ w_fs w1 = <[path_for file := Dir t1]> (w_fs w).
Proof.
  intros Hq Hst Hpar Hway Hdir Hdne Hl Hch Hage. set (p := path_for file) in *.
  assert (List.length d < List.length p)%nat as Hlen by by apply parent_length.
  assert (p <> []) as Hne by (intros ->; cbn in Hlen; lia).
  unfold acquire, acquire_with_owner, bind at 1, attempt at 1. cbv zeta. fold p.
  destruct (lock_create_taken p None w t Hq Hl) as (w1 & -> & Hfs1 & Hq1 & Hc1).
  cbn [os_error io_error_kind]. rewrite decide_True by done. unfold bind at 1.
  destruct (judge_reclaims p (Z.max stale MIN_STALE) w1 t) as (w2 & -> & Hfs2 & Hq2);
    [done|done|by rewrite Hfs1|by rewrite Hfs1|by rewrite Hfs1|by rewrite Hc1|lia|].
  assert (List.length p >= 2)%nat as Hlong by (destruct d; cbn in *; [done|lia]).
  unfold bind at 1, attempt.
  destruct (lock_create_quiet p w2) as (t3 & w3 & -> & _ & Hfs3); [done|..].
  - by rewrite Hfs2, lookup_delete_eq.
  - rewrite Hfs2. unfold is_dir. destruct p as [|x [|y p']]; cbn in Hlong; [lia|lia|].
    rewrite lookup_delete_eq. by repeat case_match.
  - unfold parent_is_dir. rewrite Hpar, Hfs2, Hfs1. unfold is_dir in *.
    rewrite lookup_delete_ne by (intros ->; lia). done.
  - unfold ret. eexists _, t3. split; [done|].
    by rewrite Hfs3, Hfs2, Hfs1, insert_delete_eq.
Qed.
End Theorems.
