(* ===== verification/Client.v ===== *)
(** * The daemon client ([crates/pa-daemon/src/big_brother/client.rs])

    Newline-delimited JSON requests over the daemon's socket.  The connection
    is the process's own ([m_client]); a line that stays unread after a
    request is still there for the next one. *)
From S2P Require Import Prelude RustStr Json Time World.
#[local] Open Scope string_scope.
#[local] Open Scope Z_scope.

(** [u64] addition in the release profile. *)
Definition u64_wrapping_add (a b : Z) : Z := (a + b) mod (u64_max + 1).

(** The message of an elapsed [tokio] timeout under its context. *)
Definition timed_out (context : string) : anyhow := Anyhow [context; "deadline has elapsed"].

(** Parsing one line ([read_line]'s second half); an ended stream reads as an
    empty line. *)
Definition closed_error : anyhow :=
  Anyhow ["parsing a daemon line"; "EOF while parsing a value at line 1 column 0"].
Definition garbage_error (text : string) : anyhow := Anyhow ["parsing a daemon line"; text].

(** [DaemonClient::read_line] on the unread lines. *)
Definition read_line (lines : list daemon_line) : (anyhow + Value) * list daemon_line :=
  match lines with
  | [] => (inl (timed_out "timed out reading a daemon line"), [])
  | DClosed :: _ => (inl closed_error, lines)
  | DGarbage text :: rest => (inl (garbage_error text), rest)
  | DLine v :: rest => (inr v, rest)
  end.

Section Client.
Context `{Env}.

(** The client the caller borrows; without one there is no call. *)
Definition get_client : M anyhow Client := fun w =>
  match m_client (w_mem w) with Some c => (Ok c, w) | None => (Killed, w) end.
Definition put_client (c : Client) : M anyhow unit := fun w =>
  (Ok tt, set_mem (mkMemory (Some c) (m_woken (w_mem w))) w).

Definition call_connect (socket : path) : M anyhow connect_answer := fun w =>
  let '(x, a) := daemon_connect (w_ext w) socket in (Ok a, set_ext x w).
Definition call_send (v : Value) : M anyhow send_answer := fun w =>
  let '(x, a) := daemon_send (w_ext w) v in (Ok a, set_ext x w).

(** [connection_error_context]. *)
Definition leftover_hint : string :=
  " — the socket file exists but nothing is listening; it may be left over from a dead supervisor (the next supervisor start cleans it up); is the supervisor running?".
Definition connection_error_context (socket_path : path) (text : string) : M anyhow anyhow :=
  let context := "connecting to daemon socket " ++ path_display socket_path in
  if contains "refused" (str_map to_ascii_lowercase text) then
    let* there := fs_exists socket_path in
    ret (Anyhow [if there then context ++ leftover_hint else context; text])
  else ret (Anyhow [context; text]).

(** [DaemonClient::connect]: the hello line is consumed. *)
Definition connect (socket_path : path) : M anyhow unit :=
  let* answer := call_connect socket_path in
  match answer with
  | ConnectTimedOut => throw (timed_out "timed out connecting to the daemon")
  | ConnectFailed text => let* e := connection_error_context socket_path text in throw e
  | Connected lines =>
      let '(hello, rest) := read_line lines in
      match hello with
      | inl e => throw e
      | inr _ => put_client (mkClient 0 rest)
      end
  end.

Definition request_id (n : Z) : string := "big-brother-" ++ show_Z n.

Definition envelope (id : string) (command : Value) : Value :=
  VObject [("type", VString "command"); ("id", VString id);
           ("protocol", VObject [("name", VString "prime-agent.daemon"); ("version", VNumber 7)]);
           ("command", command)].

Definition is_success (response : Value) : bool :=
  match get "success" response with Some (VBool true) => true | _ => false end.

(** The reply loop of [request]: lines that carry another id are passed over;
    the request's own timeout ends an exhausted stream. *)
Fixpoint await_reply (id : string) (lines : list daemon_line) : (anyhow + Value) * list daemon_line :=
  match lines with
  | [] => (inl (timed_out "timed out waiting for the daemon"), [])
  | DClosed :: _ => (inl closed_error, lines)
  | DGarbage text :: rest => (inl (garbage_error text), rest)
  | DLine response :: rest =>
      if decide (get_str "id" response = Some id) then
        (if is_success response then inr response
         else inl (anyhow_msg ("daemon command failed: " ++ value_display response)), rest)
      else await_reply id rest
  end.

(** [DaemonClient::request]. *)
Definition request (command : Value) : M anyhow Value :=
  let* c := get_client in
  let n := u64_wrapping_add (c_next_id c) 1 in
  let id := request_id n in
  do* put_client (mkClient n (c_inbox c)) in
  let* sent := call_send (envelope id command) in
  match sent with
  | SendTimedOut => throw (timed_out "timed out sending a daemon command")
  | SendFailed text => throw (Anyhow ["sending a daemon command"; text])
  | FlushFailed text => throw (Anyhow ["flushing a daemon command"; text])
  | Sent lines =>
      let '(reply, rest) := await_reply id (c_inbox c ++ lines)%list in
      do* put_client (mkClient n rest) in
      lift reply
  end.

Definition sessions_of (response : Value) : list Value :=
  default [] (as_array (index "sessions" (index "data" response))).

(** [list_sessions], [list_sessions_including_saved], [get_messages]. *)
Definition list_sessions : M anyhow (list Value) :=
  let* response := request (VObject [("type", VString "list")]) in ret (sessions_of response).
Definition list_sessions_including_saved : M anyhow (list Value) :=
  let* response := request (VObject [("type", VString "list"); ("all", VBool true)]) in
  ret (sessions_of response).
Definition get_messages (active_session_id : string) : M anyhow Value :=
  let* response := request (VObject [("type", VString "get_messages");
                                     ("activeSessionId", VString active_session_id)]) in
  ret (index "data" response).

(** [session_id]: the [id] member, or [activeSessionId] when there is none. *)
Definition row_id (row : Value) : option string :=
  match get "id" row with Some v => as_str v | None => get_str "activeSessionId" row end.
Definition session_id (row : Value) : anyhow + string :=
  match row_id row with
  | Some id => inr id
  | None => inl (anyhow_msg ("roster row carries no session id: " ++ value_display row))
  end.

(** The roster row of a session name. *)
Definition named (name : string) (row : Value) : bool :=
  match get_str "sessionName" row with Some n => String.eqb n name | None => false end.

(** ** Frames: the client touches no file *)
Lemma keeps_mem (S : path -> Prop) {E A} (f : World -> result E A) (g : World -> Memory) :
  keeps S (fun w => (f w, set_mem (g w) w)).
Proof. intros w. constructor; [intros; apply untouched_refl|done|done|done]. Qed.
Lemma keeps_get_client (S : path -> Prop) : keeps S get_client.
Proof. intros w. unfold get_client. destruct (m_client _); apply frame_refl. Qed.
Lemma keeps_put_client (S : path -> Prop) c : keeps S (put_client c).
Proof. apply keeps_mem. Qed.
Lemma keeps_call_connect (S : path -> Prop) p : keeps S (call_connect p).
Proof.
  intros w. unfold call_connect. destruct (daemon_connect _ _).
  constructor; [intros; apply untouched_refl|done|done|done].
Qed.
Lemma keeps_call_send (S : path -> Prop) v : keeps S (call_send v).
Proof.
  intros w. unfold call_send. destruct (daemon_send _ _).
  constructor; [intros; apply untouched_refl|done|done|done].
Qed.
Hint Resolve keeps_get_client keeps_put_client keeps_call_connect keeps_call_send : keeps.
Lemma keeps_connect (S : path -> Prop) p : keeps S (connect p).
Proof. unfold connect, connection_error_context. solve_keeps. Qed.
Lemma keeps_request (S : path -> Prop) v : keeps S (request v).
Proof. unfold request. solve_keeps. Qed.
Hint Resolve keeps_request : keeps.
Lemma keeps_list_sessions (S : path -> Prop) : keeps S list_sessions.
Proof. unfold list_sessions. solve_keeps. Qed.
Lemma keeps_get_messages (S : path -> Prop) i : keeps S (get_messages i).
Proof. unfold get_messages. solve_keeps. Qed.

(** ** Replies and requests *)
Lemma show_Z_inj a b : 0 <= a -> 0 <= b -> show_Z a = show_Z b -> a = b.
Proof.
  intros Ha Hb Heq. pose proof (parse_show_Z (Z.max a b) a ltac:(lia)) as Pa.
  pose proof (parse_show_Z (Z.max a b) b ltac:(lia)) as Pb. rewrite Heq in Pa. congruence.
Qed.
Lemma request_id_inj a b : 0 <= a -> 0 <= b -> request_id a = request_id b -> a = b.
Proof. intros Ha Hb Heq. apply str_app_inj_l in Heq. by apply show_Z_inj. Qed.

Lemma await_reply_ok id lines v rest :
  await_reply id lines = (inr v, rest) -> get_str "id" v = Some id /\ is_success v = true.
Proof.
  induction lines as [|l lines IH]; cbn [await_reply]; [done|]. destruct l as [x|t|]; [|done|done].
  case_decide as Hid; [|exact IH]. destruct (is_success x) eqn:Es; [|done]. by intros [= -> _].
Qed.

(** A line that is the reply to an earlier request of this client. *)
Definition late_reply (n : Z) (l : daemon_line) : Prop :=
  exists v k, l = DLine v /\ get_str "id" v = Some (request_id k) /\ 0 <= k <= n.

Lemma await_reply_skips n pre v rest :
  0 <= n -> Forall (late_reply n) pre -> get_str "id" v = Some (request_id (n + 1)) ->
  is_success v = true -> await_reply (request_id (n + 1)) (pre ++ DLine v :: rest)%list = (inr v, rest).
Proof.
  intros Hn Hpre Hid Hs. induction Hpre as [|l pre (x & k & -> & Hk & Hkn) _ IH]; cbn [app await_reply].
  - by rewrite decide_True, Hs.
  - rewrite decide_False; [exact IH|]. rewrite Hk. intros [= Heq].
    apply show_Z_inj in Heq; lia.
Qed.

(** The answer a request returns carries that request's own id and reports
    success; every other line ends in an error or is passed over. *)
Theorem request_reply_is_own command w v w' :
  request command w = (Ok v, w') ->
  exists c, m_client (w_mem w) = Some c /\
    get_str "id" v = Some (request_id (u64_wrapping_add (c_next_id c) 1)) /\ is_success v = true.
Proof.
  unfold request, bind at 1, get_client. destruct (m_client (w_mem w)) as [c|]; [|done].
  unfold bind, put_client, call_send. destruct (daemon_send _ _) as [x [lines|t| |t]]; [|done..].
  destruct (await_reply _ _) as [reply rest] eqn:Er. unfold lift. destruct reply as [e|v']; [done|].
  intros [= -> _]. exists c. split; [done|]. by apply await_reply_ok in Er.
Qed.

(** Replies to earlier requests that arrive late never answer a newer
    request: with any number of them unread, the request still returns its own
    reply and leaves what follows it unread. *)
Theorem late_replies_are_skipped command w c x v rest :
  m_client (w_mem w) = Some c -> 0 <= c_next_id c < u64_max ->
  Forall (late_reply (c_next_id c)) (c_inbox c) ->
  daemon_send (w_ext w) (envelope (request_id (c_next_id c + 1)) command) = (x, Sent (DLine v :: rest)) ->
  get_str "id" v = Some (request_id (c_next_id c + 1)) -> is_success v = true ->
  (request command w).1 = Ok v /\
  m_client (w_mem (request command w).2) = Some (mkClient (c_next_id c + 1) rest).
Proof.
  intros Hc Hn Hin Hsend Hid Hs. unfold request, bind, get_client. rewrite Hc.
  assert (u64_wrapping_add (c_next_id c) 1 = c_next_id c + 1) as ->
    by (unfold u64_wrapping_add; apply Z.mod_small; lia).
  unfold put_client, call_send. cbn [w_ext set_mem]. rewrite Hsend.
  rewrite await_reply_skips by (lia || done). by split.
Qed.
End Client.
#[export] Hint Resolve keeps_get_client keeps_put_client keeps_call_connect keeps_call_send
  keeps_connect keeps_request keeps_list_sessions keeps_get_messages : keeps.
