(* ===== verification/Git.v ===== *)
(** * The watched work tree ([crates/pa-daemon/src/big_brother/git.rs])

    Each git command runs through [git_run] of the environment; the wrapper
    trims its output and turns every failure into an error text. *)
From S2P Require Import Prelude RustStr Json Time World.
#[local] Open Scope string_scope.
#[local] Open Scope Z_scope.

Inductive WorktreeSyncError :=
| WrongBranch (actual expected : string)
| Dirty
| Fetch (text : string)
| NonFastForward (text : string).

(** The [#[error]] attributes and [WorktreeSyncError::kind]. *)
Definition sync_error_display (e : WorktreeSyncError) : string :=
  match e with
  | WrongBranch actual expected =>
      "review worktree is on " ++ actual ++ ", expected branch " ++ expected
  | Dirty => "review worktree has uncommitted or untracked changes"
  | Fetch text => "fetch failed: " ++ text
  | NonFastForward text => "fast-forward failed: " ++ text
  end.
Definition sync_error_kind (e : WorktreeSyncError) : string :=
  match e with
  | WrongBranch _ _ => "wrong_branch"
  | Dirty => "dirty_worktree"
  | Fetch _ => "fetch_failed"
  | NonFastForward _ => "non_fast_forward"
  end.

(** The commands. *)
Definition head_command (branch : string) : list string := ["rev-parse"; branch].
Definition current_command : list string := ["rev-parse"; "--abbrev-ref"; "HEAD"].
Definition porcelain_command : list string := ["status"; "--porcelain"; "--untracked-files=all"].
Definition remotes_command : list string := ["remote"].
Definition upstream_command (branch : string) : list string :=
  ["config"; "--get"; "branch." ++ branch ++ ".remote"].
Definition fetch_command (branch : string) : list string := ["fetch"; "origin"; branch].
Definition merge_command (branch : string) : list string :=
  ["merge"; "--ff-only"; "refs/remotes/origin/" ++ branch].
Definition symbolic_ref_command : list string :=
  ["symbolic-ref"; "--quiet"; "--short"; "refs/remotes/origin/HEAD"].
Definition show_ref_command (branch : string) : list string :=
  ["show-ref"; "--verify"; "--quiet"; "refs/heads/" ++ branch].
Definition origin_url_command : list string := ["remote"; "get-url"; "origin"].

(** The test for changes that are not Big Brother's own assets. *)
Definition is_user_change (line : string) : bool :=
  let p := trim (default line (get_from 3 line)) in
  negb (String.eqb p ".big-brother") && negb (starts_with ".big-brother/" p).
Definition has_user_changes (status : string) : bool := existsb is_user_change (lines status).
Definition names_origin (remotes : string) : bool :=
  existsb (fun name => String.eqb (trim name) "origin") (lines remotes).

(** [parse_github_slug]. *)
Definition github_path (url : string) : option string :=
  match strip_prefix "git@github.com:" url with
  | Some p => Some p
  | None =>
      match strip_prefix "ssh://git@github.com/" url with
      | Some p => Some p
      | None =>
          '(_, rest) ← split_once "://" url;
          let host_path := match split_once "@" rest with Some (_, hp) => hp | None => rest end in
          '(host, p) ← split_once "/" host_path;
          if eq_ignore_ascii_case host "github.com" then Some p else None
      end
  end.
Definition slug_part (value : string) : bool := negb (is_empty value) && negb (contains_char "/" value).
Definition parse_github_slug (url : string) : option string :=
  p ← github_path url;
  '(owner, repo) ← split_once "/" (trim_end_matches_str ".git" p);
  if slug_part owner && slug_part repo then Some (owner ++ "/" ++ repo) else None.

Section Git.
Context `{Env}.

Definition call_git {E} (git_root : path) (args : list string) : M E git_answer := fun w =>
  let '(x, a) := git_run (w_ext w) git_root args in (Ok a, set_ext x w).

(** [git]: one command, its output trimmed. *)
Definition git (git_root : path) (args : list string) : M anyhow string :=
  let what := "git " ++ join_with " " args ++ " in " ++ path_display git_root in
  let* answer := call_git git_root args in
  match answer with
  | GitSpawnFailed text => throw (Anyhow ["running " ++ what; text])
  | GitTimedOut => throw (anyhow_msg (what ++ " timed out after 90 seconds"))
  | GitFail stderr => throw (anyhow_msg (what ++ ": " ++ trim stderr))
  | GitOut stdout => ret (trim stdout)
  end.

(** [branch_head] and [current_branch]. *)
Definition branch_head (git_root : path) (branch : string) : M anyhow string :=
  git git_root (head_command branch).
Definition current_branch (git_root : path) : M anyhow (option string) :=
  let* branch := git git_root current_command in
  ret (if String.eqb branch "HEAD" then None else Some branch).

(** [default_branch]: the first candidate that exists locally. *)
Fixpoint first_local_branch (git_root : path) (candidates : list string) : M anyhow (option string) :=
  match candidates with
  | [] => ret None
  | branch :: rest =>
      let* r := attempt (git git_root (show_ref_command branch)) in
      match r with
      | inr _ => ret (Some branch)
      | inl _ => first_local_branch git_root rest
      end
  end.
Definition default_branch (git_root : path) : M anyhow (option string) :=
  let* r := attempt (git git_root symbolic_ref_command) in
  let remote_default := match r with
                        | inr value => option_list (strip_prefix "origin/" value)
                        | inl _ => []
                        end in
  first_local_branch git_root (remote_default ++ ["main"; "master"])%list.

(** [fetch_and_fast_forward]. *)
Definition fetch_and_fast_forward (git_root : path) (branch : string) : M WorktreeSyncError unit :=
  let fetch_error {A} (m : M anyhow A) := map_err (fun e => Fetch (anyhow_display e)) m in
  let* current := fetch_error (current_branch git_root) in
  if decide (current <> Some branch)
  then throw (WrongBranch (default "detached HEAD" current) branch)
  else
  let* status := fetch_error (git git_root porcelain_command) in
  if has_user_changes status then throw Dirty
  else
  let* remotes := fetch_error (git git_root remotes_command) in
  if negb (names_origin remotes) then ret tt
  else
  let* upstream := attempt (git git_root (upstream_command branch)) in
  match upstream with
  | inl _ => ret tt
  | inr _ =>
      do* fetch_error (git git_root (fetch_command branch)) in
      do* map_err (fun e => NonFastForward (anyhow_display e)) (git git_root (merge_command branch)) in
      ret tt
  end.

(** [origin_github_slug]. *)
Definition origin_github_slug (git_root : path) : M anyhow (option string) :=
  let* remotes := git git_root remotes_command in
  if negb (names_origin remotes) then ret None
  else let* url := git git_root origin_url_command in ret (parse_github_slug url).

(** ** Which commands run *)
Definition run_commands (git_root : path) (x : Ext) (cmds : list (list string)) : Ext :=
  foldl (fun x c => fst (git_run x git_root c)) x cmds.

(** Everything [fetch_and_fast_forward] may do, in order. *)
Definition sync_plan (branch : string) : list (list string) :=
  [current_command; porcelain_command; remotes_command; upstream_command branch;
   fetch_command branch; merge_command branch].

Lemma git_effect git_root args w r w' :
  git git_root args w = (r, w') ->
  w' = set_ext (fst (git_run (w_ext w) git_root args)) w /\
  match r with
  | Ok s => exists out, snd (git_run (w_ext w) git_root args) = GitOut out /\ s = trim out
  | Err _ => forall out, snd (git_run (w_ext w) git_root args) <> GitOut out
  | Killed => False
  end.
Proof.
  unfold git, bind, call_git. destruct (git_run (w_ext w) git_root args) as [x a]. cbn [fst snd].
  destruct a; unfold ret, throw; intros ?; inv_res; split; try done; eauto.
Qed.

Lemma set_ext_twice x y w : set_ext y (set_ext x w) = set_ext y w.
Proof. done. Qed.
Lemma set_ext_same w : set_ext (w_ext w) w = w.
Proof. by destruct w. Qed.

(** The two checks that guard the network and the work tree. *)
Definition on_branch (git_root : path) (branch : string) (x : Ext) : Prop :=
  branch <> "HEAD" /\ exists out, snd (git_run x git_root current_command) = GitOut out /\ trim out = branch.
Definition clean (git_root : path) (x : Ext) : Prop :=
  exists out, snd (git_run x git_root porcelain_command) = GitOut out /\ has_user_changes (trim out) = false.

(** The run after the checks passed: a prefix of the rest of the plan. *)
Lemma sync_tail_effect git_root branch w r w' :
  (let fetch_error {A} (m : M anyhow A) := map_err (fun e => Fetch (anyhow_display e)) m in
   let* remotes := fetch_error (git git_root remotes_command) in
   if negb (names_origin remotes) then ret tt
   else
   let* upstream := attempt (git git_root (upstream_command branch)) in
   match upstream with
   | inl _ => ret tt
   | inr _ =>
       do* fetch_error (git git_root (fetch_command branch)) in
       do* map_err (fun e => NonFastForward (anyhow_display e)) (git git_root (merge_command branch)) in
       ret tt
   end) w = (r, w') ->
  exists cmds, cmds `prefix_of` drop 2 (sync_plan branch) /\
    w' = set_ext (run_commands git_root (w_ext w) cmds) w.
Proof.
  cbv zeta. unfold bind, map_err, attempt, ret.
  destruct (git git_root remotes_command w) as [r1 w1] eqn:E1. apply git_effect in E1 as [-> H1].
  pose (tail := fun n => take n (drop 2 (sync_plan branch))).
  assert (forall n, tail n `prefix_of` drop 2 (sync_plan branch)) as Hpre by (intros n; apply prefix_take).
  destruct r1 as [remotes|e|]; [|intros ?; inv_res; by exists (tail 1%nat)|done].
  destruct (negb (names_origin remotes)); [intros ?; inv_res; by exists (tail 1%nat)|].
  destruct (git git_root (upstream_command branch) _) as [r2 w2] eqn:E2. apply git_effect in E2 as [-> H2].
  destruct r2 as [u|e|]; [|intros ?; inv_res; by exists (tail 2%nat)|done].
  destruct (git git_root (fetch_command branch) _) as [r3 w3] eqn:E3. apply git_effect in E3 as [-> H3].
  destruct r3 as [f|e|]; [|intros ?; inv_res; by exists (tail 3%nat)|done].
  destruct (git git_root (merge_command branch) _) as [r4 w4] eqn:E4. apply git_effect in E4 as [-> H4].
  destruct r4 as [m|e|]; [|intros ?; inv_res; by exists (tail 4%nat)|done].
  intros ?; inv_res. by exists (tail 4%nat).
Qed.

(** The observer's sync runs a prefix of one fixed command sequence, and
    goes past the two checks, to the remote and the work tree, only when the
    tracked branch is checked out and the status shows no user change. *)
Theorem sync_guarded git_root branch w r w' :
  fetch_and_fast_forward git_root branch w = (r, w') ->
  exists cmds, cmds `prefix_of` sync_plan branch /\
    w' = set_ext (run_commands git_root (w_ext w) cmds) w /\
    (2 < List.length cmds -> on_branch git_root branch (w_ext w) /\
       clean git_root (fst (git_run (w_ext w) git_root current_command)))%nat.
Proof.
  unfold fetch_and_fast_forward, bind at 1, map_err at 1, current_branch, bind at 1.
  destruct (git git_root current_command w) as [r1 w1] eqn:E1. apply git_effect in E1 as [-> H1].
  pose (start := fun n => take n (sync_plan branch)).
  assert (forall n, start n `prefix_of` sync_plan branch) as Hpre by (intros n; apply prefix_take).
  destruct r1 as [cur|e|]; [|intros ?; inv_res; exists (start 1%nat); split_and!; [done|done|cbn; lia]|done].
  destruct H1 as (out & Hout & ->). unfold ret at 1. cbv beta iota.
  case_decide as Hb.
  { unfold throw. intros ?; inv_res. exists (start 1%nat). split_and!; [done|done|cbn; lia]. }
  destruct (String.eqb_spec (trim out) "HEAD") as [|Hh]; [done|].
  injection Hb as Hb. unfold bind at 1, map_err at 1.
  destruct (git git_root porcelain_command _) as [r2 w2] eqn:E2. apply git_effect in E2 as [-> H2].
  destruct r2 as [status|e|]; [|intros ?; inv_res; exists (start 2%nat); split_and!; [done|done|cbn; lia]|done].
  destruct H2 as (out2 & Hout2 & ->).
  destruct (has_user_changes (trim out2)) eqn:Hu.
  { unfold throw. intros ?; inv_res. exists (start 2%nat). split_and!; [done|done|cbn; lia]. }
  intros Hrun. apply sync_tail_effect in Hrun as (cmds & Hcmds & ->).
  exists (current_command :: porcelain_command :: cmds). split_and!.
  - by apply prefix_cons, prefix_cons.
  - done.
  - intros _. split; [split; [congruence|]; eauto|]. by exists out2.
Qed.
End Git.

(** ** GitHub slugs *)
Lemma trim_end_once p s : len p <> 0%nat -> strip_suffix p s = None -> trim_end_matches_str p (s ++ p) = s.
Proof.
  intros Hp Hs. unfold trim_end_matches_str. rewrite str_len_app.
  destruct (len s + len p)%nat as [|k] eqn:E; [lia|]. cbn [trim_end_matches_str_fuel].
  assert (strip_suffix p (s ++ p) = Some s) as -> by by apply strip_suffix_Some.
  destruct k; [done|]. cbn. by rewrite Hs.
Qed.
Lemma trim_end_none p s : strip_suffix p s = None -> trim_end_matches_str p s = s.
Proof. intros Hs. unfold trim_end_matches_str. destruct (len s); [done|]. cbn. by rewrite Hs. Qed.

(** A name that may stand as the owner or the repository of a slug. *)
Definition slug_name (s : string) : bool :=
  negb (is_empty s) && negb (contains_char "/" s) && negb (contains_char "@" s).

Lemma slug_of_path owner repo suffix :
  slug_name owner = true -> slug_name repo = true ->
  strip_suffix ".git" (owner ++ "/" ++ repo) = None -> suffix = "" \/ suffix = ".git" ->
  ('(o, r) ← split_once "/" (trim_end_matches_str ".git" ((owner ++ "/" ++ repo) ++ suffix));
   if slug_part o && slug_part r then Some (o ++ "/" ++ r) else None) = Some (owner ++ "/" ++ repo).
Proof.
  unfold slug_name. rewrite !andb_true_iff, !negb_true_iff. intros [[Ho1 Ho2] _] [[Hr1 Hr2] _] Hs Hsuf.
  assert (trim_end_matches_str ".git" ((owner ++ "/" ++ repo) ++ suffix) = owner ++ "/" ++ repo) as ->.
  { destruct Hsuf as [-> | ->]; [rewrite str_app_nil_r; by apply trim_end_none | by apply trim_end_once]. }
  change ("/" ++ repo) with (String "/" repo).
  rewrite (split_once_char_app "/" owner repo) by done. cbn [mbind option_bind].
  unfold slug_part. by rewrite Ho1, Ho2, Hr1, Hr2.
Qed.

(** Every remote form GitHub uses (scp-style, [ssh://], HTTPS, HTTPS with
    credentials), with or without the [.git] suffix, parses to the same
    [owner/repo] slug. *)
Theorem github_slug_forms owner repo suffix credentials :
  slug_name owner = true -> slug_name repo = true ->
  strip_suffix ".git" (owner ++ "/" ++ repo) = None -> suffix = "" \/ suffix = ".git" ->
  contains_char "@" credentials = false ->
  let p := (owner ++ "/" ++ repo) ++ suffix in
  let slug := Some (owner ++ "/" ++ repo) in
  parse_github_slug ("git@github.com:" ++ p) = slug /\
  parse_github_slug ("ssh://git@github.com/" ++ p) = slug /\
  parse_github_slug ("https://github.com/" ++ p) = slug /\
  parse_github_slug ("https://" ++ credentials ++ "@github.com/" ++ p) = slug.
Proof.
  intros Ho Hr Hs Hsuf Hc p slug. pose proof (slug_of_path owner repo suffix Ho Hr Hs Hsuf) as Hslug.
  unfold parse_github_slug. fold p in Hslug |- *.
  assert (contains_char "@" p = false) as Hp.
  { unfold slug_name in *. rewrite !andb_true_iff, !negb_true_iff in *. unfold p.
    rewrite !contains_char_app. destruct Ho as [_ ->], Hr as [_ ->]. by destruct Hsuf as [-> | ->]. }
  assert (github_path ("git@github.com:" ++ p) = Some p) as ->.
  { unfold github_path. by rewrite strip_prefix_app. }
  assert (github_path ("ssh://git@github.com/" ++ p) = Some p) as -> by done.
  assert (github_path ("https://github.com/" ++ p) = Some p) as ->.
  { unfold github_path.
    change (strip_prefix "git@github.com:" ("https://github.com/" ++ p)) with (@None string).
    change (strip_prefix "ssh://git@github.com/" ("https://github.com/" ++ p)) with (@None string).
    change (split_once "://" ("https://github.com/" ++ p)) with (Some ("https", "github.com/" ++ p)).
    cbn [mbind option_bind]. rewrite (split_once_char_None "@") by by rewrite contains_char_app, Hp. done. }
  assert (github_path ("https://" ++ credentials ++ "@github.com/" ++ p) = Some p) as ->.
  { unfold github_path.
    change (strip_prefix "git@github.com:" ("https://" ++ ?x)) with (@None string).
    change (strip_prefix "ssh://git@github.com/" ("https://" ++ ?x)) with (@None string).
    change (split_once "://" ("https://" ++ ?x)) with (Some ("https", x)).
    cbn [mbind option_bind].
    change ("@github.com/" ++ p) with (String "@" ("github.com/" ++ p)).
    by rewrite (split_once_char_app "@") by done. }
  by split_and!.
Qed.

(** Whatever the remote URL, a slug is two non-empty parts joined by the
    only slash in it, so it always names one repository of the GitHub API. *)
Theorem github_slug_shape url slug :
  parse_github_slug url = Some slug ->
  exists owner repo, slug = owner ++ "/" ++ repo /\ owner <> "" /\ repo <> "" /\
    contains_char "/" owner = false /\ contains_char "/" repo = false.
Proof.
  unfold parse_github_slug. destruct (github_path url) as [p|]; [|done]. cbn [mbind option_bind].
  destruct (split_once "/" _) as [[o r]|]; [|done]. cbn [mbind option_bind].
  destruct (slug_part o && slug_part r) eqn:E; [|done]. intros [= <-].
  unfold slug_part in E. rewrite !andb_true_iff, !negb_true_iff in E.
  destruct E as [[Eo So] [Er Sr]]. exists o, r. split_and!; try done; by intros ->.
Qed.
