(* ===== verification/Harvest.v ===== *)
(** * Harvesting a review ([crates/pa-daemon/src/big_brother/harvest.rs])

    The structured result of one review range, read off the conductor's
    transcript. *)
From S2P Require Import Prelude RustStr Json Time World Profile State.
#[local] Open Scope string_scope.
#[local] Open Scope Z_scope.

Definition SYNTHESIS_MARKER : string := "REVIEW_SYNTHESIS".

Record HarvestedLayer := mkHarvestedLayer { hl_layer : string; hl_answer : string }.
Record HarvestedReview := mkHarvested {
  h_base : string;
  h_head : string;
  h_layers : list HarvestedLayer;
  h_missing_layers : list string;
  h_no_reply_layers : list string;
  h_conclusion : string
}.

Inductive HarvestError :=
| NoMessages
| NoDispatchCalls
| MismatchedRange (first second : string)
| MalformedCall (call_id reason : string)
| NoConclusion.

(** The [#[error]] attributes. *)
Definition harvest_error_display (e : HarvestError) : string :=
  match e with
  | NoMessages => "no messages array in the transcript payload"
  | NoDispatchCalls => "the transcript contains no dispatch_review calls"
  | MismatchedRange first second =>
      "dispatch_review calls disagree on the range: " ++ first ++ " vs " ++ second
  | MalformedCall call_id reason =>
      "dispatch_review call " ++ quoted call_id ++ " has malformed arguments: " ++ reason
  | NoConclusion => "the transcript has no synthesis text after the dispatch results"
  end.

Record Call := mkCall { call_layer : string; call_base : string; call_head : string }.

(** ** Row classification *)
Definition has_str (k expected : string) (v : Value) : bool :=
  match get_str k v with Some s => String.eqb s expected | None => false end.

(** [payload.get("messages")] as an array, or the payload itself. *)
Definition message_rows (payload : Value) : option (list Value) :=
  match get "messages" payload ≫= as_array with
  | Some rows => Some rows
  | None => as_array payload
  end.

(** [content_text]. *)
Definition block_text (block : Value) : option string :=
  if has_str "type" "text" block then get_str "text" block else None.
Definition content_text (row : Value) : string :=
  match get "content" row with
  | Some (VString text) => text
  | Some (VArray blocks) => join_with nl_str (omap block_text blocks)
  | _ => ""
  end.

(** [no_reply_child]. *)
Definition no_reply_child (row : Value) : option string :=
  content ← get_str "content" row;
  child ← strip_prefix "[child-exited: no-reply child:" content;
  fst <$> split_once "]" child.

(** [child_reply]: the sender's name and the body, structured rows first. *)
Definition reply_sender (row : Value) : option (string * string) :=
  match pointer ["details"; "from"; "sessionName"] row ≫= as_str with
  | Some name =>
      body ← pointer ["details"; "message"] row ≫= as_str;
      Some (name, body)
  | None =>
      content ← get_str "content" row;
      header ← strip_prefix "[agent-message from " content;
      split_once ("]" ++ nl_str ++ nl_str) header
  end.
Definition child_reply (row : Value) : option (string * string * string) :=
  '(sender, body) ← reply_sender row;
  let name := default sender (strip_prefix "child:" sender) in
  '(layer, head) ← rsplit_once "-" name;
  if is_empty layer || negb (is_revision head) then None else Some (layer, head, body).

(** [unwrap_synthesis]: the byte after the last marker line. *)
Fixpoint marker_cut (offset : nat) (cut : option nat) (ls : list string) : option nat :=
  match ls with
  | [] => cut
  | line :: rest =>
      let after := (offset + len line)%nat in
      marker_cut after (if String.eqb (trim line) SYNTHESIS_MARKER then Some after else cut) rest
  end.
Definition unwrap_synthesis (text : string) : string :=
  let body := match marker_cut 0 None (split_inclusive_nl text) with
              | Some at_ => trim (str_drop at_ text)
              | None => ""
              end in
  if is_empty body then text else body.

(** [last_assistant_text]. *)
Definition last_assistant_text (payload : Value) : option string :=
  rows ← message_rows payload;
  row ← find_last (has_str "role" "assistant") rows;
  let text := content_text row in
  if is_empty text then None else Some text.

Section Harvest.
Context `{Env}.

(** [call_argument_object]. *)
Definition call_argument_object (call : Value) : Value :=
  match get "arguments" call with
  | Some (VObject ms) => VObject ms
  | Some (VString text) => match from_str text with inr v => v | inl _ => VNull end
  | _ => VNull
  end.

Definition is_dispatch (block : Value) : bool :=
  has_str "type" "toolCall" block && has_str "name" "dispatch_review" block.

(** One dispatch block. *)
Definition dispatch_call (block : Value) : HarvestError + Call :=
  let arguments := call_argument_object block in
  match get_str "layer" arguments, get_str "baseSha" arguments, get_str "headSha" arguments with
  | Some layer, Some base, Some head => inr (mkCall layer base head)
  | _, _, _ =>
      inl (MalformedCall (default "" (get_str "id" block))
             "layer, baseSha, and headSha are all required")
  end.

(** [calls.retain(...)] then [calls.push(...)]. *)
Definition supersede (c : Call) (calls : list Call) : list Call :=
  (List.filter (fun x => negb (String.eqb (call_layer x) (call_layer c))) calls ++ [c])%list.

Fixpoint scan_blocks (blocks : list Value) (calls : list Call) : HarvestError + list Call :=
  match blocks with
  | [] => inr calls
  | block :: rest =>
      if is_dispatch block then
        let? c := dispatch_call block in scan_blocks rest (supersede c calls)
      else scan_blocks rest calls
  end.

(** The loop's variables. *)
Record Scan := mkScan {
  sc_calls : list Call;
  sc_delivered : gmap (string * string) string;
  sc_no_reply : gset string;
  sc_last_text : option (nat * string);
  sc_last_activity : option nat;
  sc_seen_result : bool
}.
Definition empty_scan : Scan := mkScan [] ∅ ∅ None None false.

Definition is_tool_result (row : Value) : bool :=
  match get "toolCallId" row with Some _ => true | None => false end.
Definition is_custom (row : Value) : bool := has_str "role" "custom" row.

(** The body of the loop over the rows. *)
Definition scan_row (i : nat) (row : Value) (s : Scan) : HarvestError + Scan :=
  if is_tool_result row then
    inr (mkScan (sc_calls s) (sc_delivered s) (sc_no_reply s) (sc_last_text s) (Some i) true)
  else if is_custom row then
    inr (mkScan (sc_calls s)
           (match child_reply row with
            | Some (layer, head, body) => <[(layer, head) := body]> (sc_delivered s)
            | None => sc_delivered s
            end)
           (match no_reply_child row with
            | Some child => {[child]} ∪ sc_no_reply s
            | None => sc_no_reply s
            end)
           (sc_last_text s) (Some i) (sc_seen_result s))
  else
    let? calls := match get "content" row ≫= as_array with
                  | Some blocks => scan_blocks blocks (sc_calls s)
                  | None => inr (sc_calls s)
                  end in
    let text := content_text row in
    inr (mkScan calls (sc_delivered s) (sc_no_reply s)
           (if negb (is_empty text) && sc_seen_result s then Some (i, text) else sc_last_text s)
           (sc_last_activity s) (sc_seen_result s)).

Fixpoint scan_rows (i : nat) (rows : list Value) (s : Scan) : HarvestError + Scan :=
  match rows with
  | [] => inr s
  | row :: rest => let? s' := scan_row i row s in scan_rows (S i) rest s'
  end.

Definition conclusion_of (s : Scan) : option string :=
  match sc_last_text s, sc_last_activity s with
  | Some (i, text), Some activity =>
      if Nat.ltb activity i then Some (unwrap_synthesis text) else None
  | Some (_, text), None => Some (unwrap_synthesis text)
  | None, _ => None
  end.

(** The range check over [calls[1..]]. *)
Fixpoint check_range (base head : string) (calls : list Call) : HarvestError + unit :=
  match calls with
  | [] => inr tt
  | c :: rest =>
      if negb (String.eqb (call_base c) base) || negb (String.eqb (call_head c) head)
      then inl (MismatchedRange (base ++ ".." ++ head) (call_base c ++ ".." ++ call_head c))
      else check_range base head rest
  end.

(** The final loop: answered layers, missing ones, confirmed no-replies. *)
Definition answer_for (s : Scan) (head : string) (child_answers : gmap string string) (layer : string)
    : option string :=
  match sc_delivered s !! (layer, head) with
  | Some body => Some body
  | None => child_answers !! layer
  end.
Fixpoint collect (s : Scan) (head : string) (child_answers : gmap string string) (calls : list Call)
    : list HarvestedLayer * list string * list string :=
  match calls with
  | [] => ([], [], [])
  | c :: rest =>
      let '(layers, missing, no_reply) := collect s head child_answers rest in
      match answer_for s head child_answers (call_layer c) with
      | Some answer => (mkHarvestedLayer (call_layer c) answer :: layers, missing, no_reply)
      | None =>
          (layers, call_layer c :: missing,
           if decide (call_layer c ++ "-" ++ head ∈ sc_no_reply s)
           then call_layer c :: no_reply else no_reply)
      end
  end.

(** [harvest_review]. *)
Definition harvest_review (payload : Value) (child_answers : gmap string string)
    : HarvestError + HarvestedReview :=
  match message_rows payload with
  | None => inl NoMessages
  | Some rows =>
      let? s := scan_rows 0 rows empty_scan in
      match sc_calls s with
      | [] => inl NoDispatchCalls
      | first :: rest =>
          let base := call_base first in
          let head := call_head first in
          let? _ := check_range base head rest in
          let '(layers, missing, no_reply) := collect s head child_answers (sc_calls s) in
          match conclusion_of s with
          | None => inl NoConclusion
          | Some conclusion => inr (mkHarvested base head layers missing no_reply conclusion)
          end
      end
  end.
End Harvest.
