(* ===== verification/HarvestProofs.v ===== *)
(** * Harvesting: theorems

    The one-pass scan of the transcript equals a declarative reading of it:
    the last dispatch per layer, the last delivered reply per layer and head,
    and the last text after all activity. *)
From S2P Require Import Prelude RustStr Json Time World Sim Profile State Harvest.
#[local] Open Scope string_scope.
#[local] Open Scope Z_scope.

Section HarvestProofs.
Context `{Env}.

(** ** The declarative reading *)
Definition ordinary (row : Value) : bool := negb (is_tool_result row) && negb (is_custom row).
Definition custom_only (row : Value) : bool := negb (is_tool_result row) && is_custom row.

(** The child replies of a transcript, in order, and the last one for a key. *)
Definition reply_of (row : Value) : option (string * string * string) :=
  if custom_only row then child_reply row else None.
Definition last_reply (layer head : string) (rows : list Value) : option string :=
  snd <$> find_last (fun r => bool_decide (fst r = (layer, head))) (omap reply_of rows).

(** The dispatch calls of a transcript, in order, and the last one per layer. *)
Definition row_blocks (row : Value) : list Value :=
  if ordinary row then List.filter is_dispatch (default [] (get "content" row ≫= as_array)) else [].
Definition block_call (block : Value) : option Call :=
  match dispatch_call block with inr c => Some c | inl _ => None end.
Definition dispatches (rows : list Value) : list Call := omap block_call (rows ≫= row_blocks).
Definition for_layer (layer : string) (c : Call) : bool := String.eqb (call_layer c) layer.
Definition last_dispatch (layer : string) (rows : list Value) : option Call :=
  find_last (for_layer layer) (dispatches rows).

(** ** Induction along the scan *)
Lemma scan_rows_app i rows1 rows2 s :
  scan_rows i (rows1 ++ rows2)%list s
  = (let? s1 := scan_rows i rows1 s in scan_rows (i + List.length rows1) rows2 s1).
Proof.
  revert i s. induction rows1 as [|row rows1 IH]; intros i s; cbn [app scan_rows sum_bind List.length].
  { by rewrite Nat.add_0_r. }
  destruct (scan_row i row s) as [e|s1]; [done|]. cbn [sum_bind]. rewrite IH.
  by replace (i + S (List.length rows1))%nat with (S i + List.length rows1)%nat by lia.
Qed.

Lemma scan_ind (P : list Value -> Scan -> Prop) :
  P [] empty_scan ->
  (forall rows row s s', P rows s -> scan_row (List.length rows) row s = inr s' ->
     P (rows ++ [row])%list s') ->
  forall rows s, scan_rows 0 rows empty_scan = inr s -> P rows s.
Proof.
  intros H0 HS rows. induction rows as [|row rows IH] using rev_ind; intros s Hs.
  { by injection Hs as <-. }
  rewrite scan_rows_app in Hs. destruct (scan_rows 0 rows empty_scan) as [e|s1]; [done|].
  cbn [sum_bind scan_rows] in Hs. destruct (scan_row _ row s1) as [e|s2] eqn:Er; [done|].
  cbn in Hs. injection Hs as <-. eapply HS; [by apply IH|]. exact Er.
Qed.

Lemma omap_snoc {A B} (f : A -> option B) l x :
  omap f (l ++ [x])%list = (omap f l ++ match f x with Some y => [y] | None => [] end)%list.
Proof. rewrite omap_app. cbn. by destruct (f x). Qed.

(** The three kinds of rows. *)
Lemma scan_row_cases i row s s' :
  scan_row i row s = inr s' ->
  (is_tool_result row = true /\
   s' = mkScan (sc_calls s) (sc_delivered s) (sc_no_reply s) (sc_last_text s) (Some i) true) \/
  (custom_only row = true /\
   s' = mkScan (sc_calls s)
          (match child_reply row with
           | Some (layer, head, body) => <[(layer, head) := body]> (sc_delivered s)
           | None => sc_delivered s
           end)
          (match no_reply_child row with Some c => {[c]} ∪ sc_no_reply s | None => sc_no_reply s end)
          (sc_last_text s) (Some i) (sc_seen_result s)) \/
  (ordinary row = true /\ exists calls,
   scan_blocks (default [] (get "content" row ≫= as_array)) (sc_calls s) = inr calls /\
   s' = mkScan calls (sc_delivered s) (sc_no_reply s)
          (if negb (is_empty (content_text row)) && sc_seen_result s
           then Some (i, content_text row) else sc_last_text s)
          (sc_last_activity s) (sc_seen_result s)).
Proof.
  unfold scan_row, custom_only, ordinary. destruct (is_tool_result row); [intros [= <-]; by left|].
  destruct (is_custom row); [intros [= <-]; right; by left|]. intros Hs. right; right. split; [done|].
  destruct (get "content" row ≫= as_array) as [blocks|].
  - destruct (scan_blocks blocks (sc_calls s)) as [e|calls] eqn:Eb; [done|]. cbn in Hs.
    injection Hs as <-. exists calls. by split; [exact Eb|].
  - cbn in Hs. injection Hs as <-. by exists (sc_calls s).
Qed.

(** ** Replies *)
Lemma delivered_last_reply rows s layer head :
  scan_rows 0 rows empty_scan = inr s -> sc_delivered s !! (layer, head) = last_reply layer head rows.
Proof.
  revert rows s. apply (scan_ind (fun rows s => sc_delivered s !! (layer, head) = last_reply layer head rows)).
  { done. }
  intros rows row s s' IH Hs. unfold last_reply in *. rewrite omap_snoc.
  apply scan_row_cases in Hs as [[Hk ->]|[[Hk ->]|[Hk (calls & _ & ->)]]]; cbn [sc_delivered].
  - assert (reply_of row = None) as -> by (unfold reply_of, custom_only; by rewrite Hk).
    by rewrite app_nil_r.
  - assert (reply_of row = child_reply row) as -> by (unfold reply_of; by rewrite Hk).
    destruct (child_reply row) as [[[l h] b]|]; [|by rewrite app_nil_r].
    rewrite find_last_snoc. cbn [fst]. case_bool_decide as Hb.
    + injection Hb as -> ->. by rewrite lookup_insert_eq.
    + by rewrite lookup_insert_ne.
  - assert (reply_of row = None) as ->.
    { unfold reply_of, custom_only, ordinary in *. by destruct (is_tool_result row), (is_custom row). }
    by rewrite app_nil_r.
Qed.

(** ** No-reply notices *)
Lemma no_reply_noted rows s child :
  scan_rows 0 rows empty_scan = inr s ->
  child ∈ sc_no_reply s <-> exists row, row ∈ rows /\ custom_only row = true /\ no_reply_child row = Some child.
Proof.
  revert rows s. apply (scan_ind (fun rows s => child ∈ sc_no_reply s <->
    exists row, row ∈ rows /\ custom_only row = true /\ no_reply_child row = Some child)).
  { cbn. set_solver. }
  intros rows row s s' IH Hs. setoid_rewrite elem_of_app. setoid_rewrite list_elem_of_singleton.
  apply scan_row_cases in Hs as [[Hk ->]|[[Hk ->]|[Hk (calls & _ & ->)]]]; cbn [sc_no_reply];
    unfold custom_only, ordinary in *.
  - rewrite IH. split; [naive_solver|]. intros (r & [Hr| ->] & Hc & Hn); [by eauto|].
    by rewrite Hk in Hc.
  - destruct (no_reply_child row) as [c|] eqn:En.
    + rewrite elem_of_union, elem_of_singleton, IH. split; [naive_solver|].
      intros (r & [Hr| ->] & Hc & Hn); [right; by eauto|]. left. congruence.
    + rewrite IH. split; [naive_solver|]. intros (r & [Hr| ->] & Hc & Hn); [by eauto|congruence].
  - rewrite IH. split; [naive_solver|]. intros (r & [Hr| ->] & Hc & Hn); [by eauto|].
    destruct (is_tool_result row), (is_custom row); done.
Qed.

(** ** Dispatches *)
Lemma supersede_nodup c calls :
  NoDup (call_layer <$> calls) -> NoDup (call_layer <$> supersede c calls).
Proof.
  intros Hn. unfold supersede. rewrite fmap_app. apply NoDup_app. split_and!.
  - induction calls as [|x calls IH]; cbn; [apply NoDup_nil_2|].
    rewrite fmap_cons, NoDup_cons in Hn. destruct Hn as [Hx Hn]. destruct (negb _); [|auto].
    rewrite fmap_cons, NoDup_cons. split; [|auto]. intros Hin. apply Hx.
    apply list_elem_of_fmap in Hin as (y & Hy & Hin). apply list_elem_of_In, filter_In in Hin as [Hin _].
    rewrite Hy. apply list_elem_of_fmap_2. by apply list_elem_of_In.
  - intros l Hl. cbn. intros ->%list_elem_of_singleton.
    apply list_elem_of_fmap in Hl as (y & Hy & Hin). apply list_elem_of_In, filter_In in Hin as [_ Hne].
    by rewrite Hy, String.eqb_refl in Hne.
  - apply NoDup_singleton.
Qed.

Lemma find_supersede c calls l :
  List.find (for_layer l) (supersede c calls)
  = if for_layer l c then Some c else List.find (for_layer l) calls.
Proof.
  unfold supersede, for_layer. induction calls as [|x calls IH]; cbn.
  { by destruct (String.eqb _ l). }
  destruct (String.eqb_spec (call_layer x) (call_layer c)) as [Hx|Hx]; cbn.
  - rewrite IH. destruct (String.eqb_spec (call_layer c) l); [done|].
    destruct (String.eqb_spec (call_layer x) l); [congruence|done].
  - destruct (String.eqb_spec (call_layer x) l) as [Hl|Hl]; [|apply IH].
    destruct (String.eqb_spec (call_layer c) l); [congruence|done].
Qed.

(** A scanned row: its dispatches supersede, layer by layer. *)
Lemma scan_blocks_spec blocks calls calls' :
  scan_blocks blocks calls = inr calls' ->
  (NoDup (call_layer <$> calls) -> NoDup (call_layer <$> calls')) /\
  forall l, List.find (for_layer l) calls'
    = match find_last (for_layer l) (omap block_call (List.filter is_dispatch blocks)) with
      | Some c => Some c
      | None => List.find (for_layer l) calls
      end.
Proof.
  revert calls. induction blocks as [|b blocks IH]; intros calls; cbn [scan_blocks List.filter].
  { intros [= <-]. done. }
  destruct (is_dispatch b); [|apply IH].
  destruct (dispatch_call b) as [e|c] eqn:Ec; [done|]. cbn [sum_bind]. intros Hs.
  apply IH in Hs as [Hn Hf]. split; [intros; by apply Hn, supersede_nodup|]. intros l. rewrite Hf.
  cbn [omap list_omap]. unfold block_call at 2. rewrite Ec.
  change (c :: omap block_call (List.filter is_dispatch blocks))
    with ([c] ++ omap block_call (List.filter is_dispatch blocks))%list.
  rewrite find_last_app. destruct (find_last _ (omap _ _)); [done|].
  rewrite find_supersede. unfold find_last. cbn. by destruct (for_layer l c).
Qed.

Lemma calls_last_dispatch rows s :
  scan_rows 0 rows empty_scan = inr s ->
  NoDup (call_layer <$> sc_calls s) /\
  forall l, List.find (for_layer l) (sc_calls s) = last_dispatch l rows.
Proof.
  revert rows s. apply (scan_ind (fun rows s => NoDup (call_layer <$> sc_calls s) /\
    forall l, List.find (for_layer l) (sc_calls s) = last_dispatch l rows)).
  { split; [apply NoDup_nil_2|done]. }
  intros rows row s s' [Hn Hf] Hs.
  assert (forall l, last_dispatch l (rows ++ [row])%list =
    match find_last (for_layer l) (omap block_call (row_blocks row)) with
    | Some c => Some c | None => last_dispatch l rows end) as Hsnoc.
  { intros l. unfold last_dispatch, dispatches. rewrite bind_app, omap_app, find_last_app.
    cbn. by rewrite app_nil_r. }
  apply scan_row_cases in Hs as [[Hk ->]|[[Hk ->]|[Hk (calls & Hb & ->)]]]; cbn [sc_calls].
  - split; [done|]. intros l. rewrite Hsnoc. unfold row_blocks, ordinary. by rewrite Hk.
  - split; [done|]. intros l. rewrite Hsnoc. unfold row_blocks, ordinary, custom_only in *.
    by destruct (is_tool_result row), (is_custom row).
  - apply scan_blocks_spec in Hb as [Hn' Hf']. split; [auto|]. intros l. rewrite Hsnoc, Hf'.
    unfold row_blocks. rewrite Hk. by rewrite Hf.
Qed.

Lemma find_nodup calls c :
  NoDup (call_layer <$> calls) -> c ∈ calls <-> List.find (for_layer (call_layer c)) calls = Some c.
Proof.
  intros Hn. induction calls as [|x calls IH]; [by split; [intros ?%elem_of_nil|]|].
  rewrite fmap_cons, NoDup_cons in Hn. destruct Hn as [Hx Hn]. cbn. unfold for_layer at 1.
  destruct (String.eqb_spec (call_layer x) (call_layer c)) as [Heq|Hne].
  - rewrite elem_of_cons. split; [|intros [= ->]; by left]. intros [->|Hin]; [done|].
    destruct Hx. rewrite Heq. by apply list_elem_of_fmap_2.
  - rewrite elem_of_cons, IH by done. split; [|by right]. by intros [->|?].
Qed.

(** ** Collecting the answers *)
Lemma collect_spec s head answers calls layers missing no_reply :
  collect s head answers calls = (layers, missing, no_reply) ->
  (forall l a, mkHarvestedLayer l a ∈ layers <->
     l ∈ (call_layer <$> calls) /\ answer_for s head answers l = Some a) /\
  (forall l, l ∈ missing <-> l ∈ (call_layer <$> calls) /\ answer_for s head answers l = None) /\
  (forall l, l ∈ no_reply <-> l ∈ missing /\ l ++ "-" ++ head ∈ sc_no_reply s) /\
  ((hl_layer <$> layers) ++ missing)%list ≡ₚ (call_layer <$> calls).
Proof.
  revert layers missing no_reply. induction calls as [|c calls IH]; intros layers missing no_reply.
  { intros [= <- <- <-]. cbn. split_and!; [| | |done]; intros; rewrite ?elem_of_nil; tauto. }
  cbn [collect]. destruct (collect s head answers calls) as [[ls ms] ns].
  destruct (IH ls ms ns eq_refl) as (Hl & Hm & Hn & Hp).
  destruct (answer_for s head answers (call_layer c)) as [a|] eqn:Ea.
  - intros [= <- <- <-]. split_and!.
    + intros l b. rewrite fmap_cons, !elem_of_cons, Hl. split.
      * intros [[= -> ->]|[? ?]]; auto.
      * intros [[->|?] Hb]; [left|by right]. congruence.
    + intros l. rewrite fmap_cons, elem_of_cons, Hm. split; [naive_solver|].
      intros [[->|?] Hb]; [congruence|done].
    + done.
    + rewrite !fmap_cons. cbn. by rewrite Hp.
  - intros [= <- <- <-]. split_and!.
    + intros l b. rewrite fmap_cons, elem_of_cons, Hl. split; [naive_solver|].
      intros [[->|?] Hb]; [congruence|done].
    + intros l. rewrite fmap_cons, !elem_of_cons, Hm. split; [|naive_solver].
      intros [->|[? ?]]; auto.
    + intros l. rewrite elem_of_cons. case_decide as Hd.
      * rewrite elem_of_cons, Hn. naive_solver.
      * rewrite Hn. naive_solver.
    + rewrite fmap_cons. rewrite <- Hp. symmetry. apply Permutation_middle.
Qed.

Lemma check_range_ok base head calls :
  check_range base head calls = inr tt ->
  Forall (fun c => call_base c = base /\ call_head c = head) calls.
Proof.
  induction calls as [|c calls IH]; cbn [check_range]; [constructor|].
  destruct (String.eqb_spec (call_base c) base), (String.eqb_spec (call_head c) head); cbn; try done.
  intros Hc. constructor; auto.
Qed.

(** The parts of a successful harvest. *)
Lemma harvest_parts payload answers h :
  harvest_review payload answers = inr h ->
  exists rows s, message_rows payload = Some rows /\ scan_rows 0 rows empty_scan = inr s /\
    Forall (fun c => call_base c = h_base h /\ call_head c = h_head h) (sc_calls s) /\
    sc_calls s <> [] /\
    collect s (h_head h) answers (sc_calls s) = (h_layers h, h_missing_layers h, h_no_reply_layers h) /\
    conclusion_of s = Some (h_conclusion h).
Proof.
  unfold harvest_review. destruct (message_rows payload) as [rows|]; [|done].
  destruct (scan_rows 0 rows empty_scan) as [e|s] eqn:Es; [done|]. cbn [sum_bind].
  destruct (sc_calls s) as [|c calls] eqn:Ec; [done|].
  destruct (check_range _ _ calls) as [e|[]] eqn:Er; [done|]. cbn [sum_bind].
  destruct (collect s (call_head c) answers (c :: calls)) as [[ls ms] ns] eqn:El.
  destruct (conclusion_of s) as [t|] eqn:Et; [|done]. intros [= <-]. cbn.
  exists rows, s. rewrite Ec. split_and!; try done. constructor; [done|].
  by apply check_range_ok.
Qed.


(** Every answer of a harvested review is the last reply
    delivered for that layer and exactly the reviewed head, or, when there is
    none, the collected answer of the layer's child; a reply for another head
    never counts, and a layer is missing only when it has neither. *)
Theorem harvest_answers payload answers h rows :
  harvest_review payload answers = inr h -> message_rows payload = Some rows ->
  (forall l a, mkHarvestedLayer l a ∈ h_layers h ->
     last_reply l (h_head h) rows = Some a \/
     (last_reply l (h_head h) rows = None /\ answers !! l = Some a)) /\
  (forall l, l ∈ h_missing_layers h -> last_reply l (h_head h) rows = None /\ answers !! l = None) /\
  (forall l, l ∈ h_no_reply_layers h <-> l ∈ h_missing_layers h /\
     exists row, row ∈ rows /\ custom_only row = true
                 /\ no_reply_child row = Some (l ++ "-" ++ h_head h)).
Proof.
  intros (rows' & s & Hr & Hs & _ & _ & Hc & _)%harvest_parts Hrows.
  rewrite Hr in Hrows. injection Hrows as ->.
  apply collect_spec in Hc as (Hl & Hm & Hnr & _). split_and!.
  - intros l a [_ Ha]%Hl. unfold answer_for in Ha. rewrite (delivered_last_reply rows) in Ha by done.
    destruct (last_reply l (h_head h) rows); [left; congruence | by right].
  - intros l [_ Ha]%Hm. unfold answer_for in Ha. rewrite (delivered_last_reply rows) in Ha by done.
    by destruct (last_reply l (h_head h) rows).
  - intros l. rewrite Hnr. by rewrite (no_reply_noted rows s).
Qed.

(** ** The synthesis *)

(** Row [i] has text, comes after a tool result, and no later ordinary row has
    text. *)
Definition synthesis_at (rows : list Value) (i : nat) (text : string) : Prop :=
  exists row, rows !! i = Some row /\ ordinary row = true /\ content_text row = text /\ text <> "" /\
    (exists j r, (j < i)%nat /\ rows !! j = Some r /\ is_tool_result r = true) /\
    forall j r, (i < j)%nat -> rows !! j = Some r -> ordinary r = true -> content_text r = "".
Definition quiet_after (rows : list Value) (activity : option nat) : Prop :=
  forall j r, rows !! j = Some r ->
    (match activity with Some a => a < j | None => True end)%nat -> ordinary r = true.

Lemma lookup_snoc_cases (rows : list Value) row j r :
  (rows ++ [row])%list !! j = Some r ->
  rows !! j = Some r \/ (j = List.length rows /\ r = row).
Proof.
  intros Hj. destruct (decide (j < List.length rows)%nat).
  - left. by rewrite lookup_app_l in Hj.
  - right. rewrite lookup_app_r in Hj by lia. apply list_lookup_singleton_Some in Hj as [? ->].
    split; [lia|done].
Qed.
Lemma lookup_length_lt (rows : list Value) j r : rows !! j = Some r -> (j < List.length rows)%nat.
Proof. apply lookup_lt_Some. Qed.

(** A row that is no new synthesis keeps the old one. *)
Lemma synthesis_at_snoc rows row i text :
  synthesis_at rows i text -> (ordinary row = true -> content_text row = "") ->
  synthesis_at (rows ++ [row])%list i text.
Proof.
  intros (r & Hr & Ho & Ht & Hne & (j & q & Hj & Hq & Hres) & Hlater) Hrow.
  exists r. split_and!; [by apply lookup_app_l_Some|done|done|done| |].
  - exists j, q. split_and!; [done|by apply lookup_app_l_Some|done].
  - intros k x Hk [Hx|[_ ->]]%lookup_snoc_cases Hox; eauto.
Qed.

Lemma scan_text rows s :
  scan_rows 0 rows empty_scan = inr s ->
  (sc_seen_result s = true <-> exists j r, rows !! j = Some r /\ is_tool_result r = true) /\
  match sc_last_text s with
  | Some (i, text) => synthesis_at rows i text /\ sc_seen_result s = true
  | None => True
  end /\
  quiet_after rows (sc_last_activity s) /\
  (forall a, sc_last_activity s = Some a -> (a < List.length rows)%nat).
Proof.
  revert rows s. apply scan_ind.
  { split_and!; [|done|by intros j r Hj|done]. split; [done|]. by intros (? & ? & ? & _). }
  intros rows row s s' (Hseen & Htext & Hquiet & Hact) Hs.
  assert (quiet_after (rows ++ [row])%list (Some (List.length rows))) as Hnow.
  { intros j r [Hj|[-> _]]%lookup_snoc_cases Hlt; [|lia]. apply lookup_length_lt in Hj. lia. }
  apply scan_row_cases in Hs as [[Hk ->]|[[Hk ->]|[Hk (calls & _ & ->)]]];
    cbn [sc_seen_result sc_last_text sc_last_activity].
  - split_and!; [|destruct (sc_last_text s) as [[i t]|]; [|done]|exact Hnow|].
    + split; [|done]. intros _. exists (List.length rows), row. split; [|done].
      by apply list_lookup_middle.
    + split; [|done]. apply synthesis_at_snoc; [apply Htext|]. unfold ordinary. by rewrite Hk.
    + intros a [= <-]. rewrite length_app. cbn. lia.
  - assert (is_tool_result row = false /\ ordinary row = false) as [Hnt Hno].
    { unfold custom_only, ordinary in *. by destruct (is_tool_result row), (is_custom row). }
    split_and!; [|destruct (sc_last_text s) as [[i t]|]; [|done]|exact Hnow|].
    + rewrite Hseen. split; intros (j & r & Hj & Hr).
      * exists j, r. split; [by apply lookup_app_l_Some|done].
      * apply lookup_snoc_cases in Hj as [Hj|[_ ->]]; [by eauto|congruence].
    + split; [|apply Htext]. apply synthesis_at_snoc; [apply Htext|]. congruence.
    + intros a [= <-]. rewrite length_app. cbn. lia.
  - assert (is_tool_result row = false) as Hnt.
    { unfold ordinary in Hk. by destruct (is_tool_result row). }
    split_and!.
    + rewrite Hseen. split; intros (j & r & Hj & Hr).
      * exists j, r. split; [by apply lookup_app_l_Some|done].
      * apply lookup_snoc_cases in Hj as [Hj|[_ ->]]; [by eauto|congruence].
    + destruct (is_empty (content_text row)) eqn:Ee; cbn [negb andb].
      * destruct (sc_last_text s) as [[i t]|]; [|done]. split; [|apply Htext].
        apply synthesis_at_snoc; [apply Htext|]. intros _. by destruct (content_text row).
      * destruct (sc_seen_result s) eqn:Es.
        -- split; [|done]. exists row. split_and!; [by apply list_lookup_middle|done|done| | |].
           ++ intros He. by rewrite He in Ee.
           ++ destruct (proj1 Hseen eq_refl) as (j & r & Hj & Hr). exists j, r.
              split_and!; [by apply lookup_length_lt in Hj|by apply lookup_app_l_Some|done].
           ++ intros j r Hlt Hj. apply lookup_length_lt in Hj. rewrite length_app in Hj. cbn in Hj. lia.
        -- destruct (sc_last_text s) as [[i t]|]; [|done]. by destruct Htext.
    + intros j r [Hj|[_ ->]]%lookup_snoc_cases; [by apply Hquiet|done].
    + intros a Ha. apply Hact in Ha. rewrite length_app. lia.
Qed.

(** The conclusion of a harvested review is the synthesis part of the last
    text the conductor wrote, in a row after every tool result and every child
    message: interim texts and wake messages are never taken for it. *)
Theorem harvest_conclusion payload answers h rows :
  harvest_review payload answers = inr h -> message_rows payload = Some rows ->
  exists i text, synthesis_at rows i text /\ h_conclusion h = unwrap_synthesis text /\
    forall j r, (i < j)%nat -> rows !! j = Some r -> ordinary r = true /\ content_text r = "".
Proof.
  intros (rows' & s & Hr & Hs & _ & _ & _ & Hc)%harvest_parts Hrows.
  rewrite Hr in Hrows. injection Hrows as ->.
  apply scan_text in Hs as (_ & Htext & Hquiet & _).
  unfold conclusion_of in Hc. destruct (sc_last_text s) as [[i text]|]; [|done].
  destruct Htext as [Hat _]. exists i, text. split; [done|].
  assert (h_conclusion h = unwrap_synthesis text /\
    (match sc_last_activity s with Some a => a < i | None => True end)%nat) as [-> Ha].
  { destruct (sc_last_activity s) as [a|]; [|split; [congruence|done]].
    destruct (Nat.ltb_spec a i); [split; [congruence|done]|done]. }
  split; [done|]. intros j r Hj Hjr. assert (ordinary r = true) as Ho.
  { apply (Hquiet j r Hjr). destruct (sc_last_activity s); [lia|done]. }
  split; [done|]. destruct Hat as (row & _ & _ & _ & _ & _ & Hlater). by eapply Hlater.
Qed.
End HarvestProofs.

(** ** Texts *)
Lemma split_inclusive_app p b :
  split_inclusive_nl ((p ++ nl_str) ++ b) = (split_inclusive_nl (p ++ nl_str) ++ split_inclusive_nl b)%list.
Proof.
  induction p as [|c p IH]; [reflexivity|].
  change ((String c p ++ nl_str) ++ b) with (String c ((p ++ nl_str) ++ b)).
  change (String c p ++ nl_str) with (String c (p ++ nl_str)). cbn [split_inclusive_nl].
  rewrite IH. destruct (Ascii.eqb nl c); [done|].
  destruct (split_inclusive_nl (p ++ nl_str)) as [|l ls] eqn:E; [|done].
  exfalso. clear -E. destruct p as [|d p]; [done|].
  change (String d p ++ nl_str) with (String d (p ++ nl_str)) in E. cbn [split_inclusive_nl] in E.
  destruct (Ascii.eqb nl d); [done|]. by destruct (split_inclusive_nl (p ++ nl_str)).
Qed.

Definition no_marker (ls : list string) : Prop :=
  Forall (fun line => String.eqb (trim line) SYNTHESIS_MARKER = false) ls.

Lemma marker_cut_none offset cut ls : no_marker ls -> marker_cut offset cut ls = cut.
Proof.
  intros Hn. revert offset cut. induction Hn as [|l ls Hl _ IH]; intros offset cut; [done|].
  cbn [marker_cut]. by rewrite Hl, IH.
Qed.
Lemma marker_cut_app offset cut ls1 ls2 :
  marker_cut offset cut (ls1 ++ ls2)%list =
  marker_cut (offset + list_sum (len <$> ls1)) (marker_cut offset cut ls1) ls2.
Proof.
  revert offset cut. induction ls1 as [|l ls1 IH]; intros offset cut; cbn [app marker_cut].
  { by rewrite Nat.add_0_r. }
  rewrite IH. change (list_sum (len <$> l :: ls1)) with (len l + list_sum (len <$> ls1))%nat.
  by rewrite Nat.add_assoc.
Qed.

Lemma split_inclusive_len s : list_sum (len <$> split_inclusive_nl s) = len s.
Proof.
  induction s as [|c s IH]; [done|]. cbn [split_inclusive_nl].
  assert (forall l ls, list_sum (len <$> l :: ls) = len l + list_sum (len <$> ls))%nat as Hc by done.
  assert (len (String c s) = S (len s)) as -> by done. destruct (Ascii.eqb nl c).
  - by rewrite Hc, IH.
  - destruct (split_inclusive_nl s) as [|l ls]; rewrite Hc in *; rewrite <- IH; done.
Qed.

(** What follows the last marker line, trimmed, is the
    synthesis; without a marker line the whole text is. *)
Theorem unwrap_synthesis_spec before body :
  before = "" \/ (exists p, before = p ++ nl_str) ->
  no_marker (split_inclusive_nl body) -> is_blank body = false ->
  unwrap_synthesis (before ++ (SYNTHESIS_MARKER ++ nl_str) ++ body) = trim body /\
  unwrap_synthesis body = body.
Proof.
  intros Hbefore Hbody Hblank. unfold is_blank in Hblank. split.
  2:{ unfold unwrap_synthesis. by rewrite marker_cut_none. }
  assert (split_inclusive_nl (before ++ (SYNTHESIS_MARKER ++ nl_str) ++ body)
    = (split_inclusive_nl before ++ [(SYNTHESIS_MARKER ++ nl_str)%string] ++ split_inclusive_nl body)%list) as Hs.
  { assert (split_inclusive_nl ((SYNTHESIS_MARKER ++ nl_str) ++ body)
      = ([(SYNTHESIS_MARKER ++ nl_str)%string] ++ split_inclusive_nl body)%list) as Hm
      by exact (split_inclusive_app SYNTHESIS_MARKER body).
    rewrite <- Hm. destruct Hbefore as [->|[p ->]]; [done|]. apply split_inclusive_app. }
  unfold unwrap_synthesis. rewrite Hs, !marker_cut_app.
  rewrite marker_cut_none by done. cbn [marker_cut].
  change (String.eqb (trim (SYNTHESIS_MARKER ++ nl_str)) SYNTHESIS_MARKER) with true. cbv iota.
  rewrite split_inclusive_len, Nat.add_0_l.
  assert (str_drop (len before + len (SYNTHESIS_MARKER ++ nl_str))
    (before ++ (SYNTHESIS_MARKER ++ nl_str) ++ body) = body) as ->; [|by rewrite Hblank].
  rewrite <- (str_app_assoc before (SYNTHESIS_MARKER ++ nl_str) body).
  rewrite <- (str_len_app before). apply str_drop_app.
Qed.

(** ** Reply names *)
Lemma split_once_bracket a x b :
  contains_char "]" a = false -> split_once (String "]" x) (a ++ String "]" (x ++ b)) = Some (a, b).
Proof.
  induction a as [|c a IH]; cbn [contains_char append split_once].
  - intros _. cbn [strip_prefix]. by rewrite Ascii.eqb_refl, strip_prefix_app.
  - intros [Hc Ha]%orb_false_iff. cbn [strip_prefix]. by rewrite Hc, IH.
Qed.

Lemma hex_no_dash s : str_forall is_ascii_hexdigit s = true -> contains_char "-" s = false.
Proof.
  induction s as [|c s IH]; cbn [str_forall contains_char]; [done|].
  intros [Hc Hs]%andb_true_iff. rewrite IH by done.
  revert Hc. by destruct c as [[][][][][][][][]]; vm_compute.
Qed.

(** The name the dispatch gives a layer's child. *)
Definition child_name (layer head : string) : string := layer ++ "-" ++ head.
Definition structured_reply (name body : string) : Value :=
  VObject [("role", VString "custom");
           ("details", VObject [("from", VObject [("sessionName", VString name)]);
                                ("message", VString body)])].
Definition rendered_reply (name body : string) : Value :=
  VObject [("role", VString "custom");
           ("content", VString ("[agent-message from child:" ++ name ++ "]" ++ nl_str ++ nl_str ++ body))].

(** A reviewer's reply is attributed to its layer and head, dashes in the
    layer name included, in both shapes a reply row has. *)
Theorem child_reply_named layer head body :
  layer <> "" -> is_revision head = true ->
  strip_prefix "child:" (child_name layer head) = None ->
  contains_char "]" (child_name layer head) = false ->
  child_reply (structured_reply (child_name layer head) body) = Some (layer, head, body) /\
  child_reply (rendered_reply (child_name layer head) body) = Some (layer, head, body).
Proof.
  intros Hne Hh Hpre Hbr.
  assert (rsplit_once "-" (child_name layer head) = Some (layer, head)) as Hsplit.
  { unfold child_name. change ("-" ++ head) with (String "-" head). apply rsplit_once_app.
    unfold is_revision in Hh. apply andb_true_iff in Hh as [_ Hh]. by apply hex_no_dash. }
  assert (is_empty layer = false) as He by by destruct layer.
  split; unfold child_reply.
  - assert (reply_sender (structured_reply (child_name layer head) body) = Some (child_name layer head, body))
      as -> by done.
    cbn [mbind option_bind]. rewrite Hpre. cbn [default]. rewrite Hsplit. cbn. by rewrite He, Hh.
  - assert (reply_sender (rendered_reply (child_name layer head) body)
      = Some ("child:" ++ child_name layer head, body)) as ->.
    { change (reply_sender (rendered_reply (child_name layer head) body))
        with (split_once (String "]" (nl_str ++ nl_str))
                (("child:" ++ child_name layer head) ++ String "]" ((nl_str ++ nl_str) ++ body))).
      apply split_once_bracket. by rewrite contains_char_app, Hbr. }
    cbn [mbind option_bind]. rewrite strip_prefix_app. cbn [default from_option].
    change (id (child_name layer head)) with (child_name layer head). rewrite Hsplit.
    cbn. by rewrite He, Hh.
Qed.
