(* ===== verification/Delivery.v ===== *)
(** * Delivery channels ([crates/pa-daemon/src/big_brother/delivery.rs])

    Carrying completed records out: Commit Status and Bark, each with its own
    durable state inside the record. *)
From S2P Require Import Prelude RustStr Json Time World LockDir Sim Profile ProfileProofs.
From S2P Require Import State Store StoreProofs Completion Machine Filed Git.
#[local] Open Scope string_scope.
#[local] Open Scope Z_scope.

Definition STATUS_CONTEXT : string := "big-brother/review".
Definition STATUS_DESCRIPTION_CAP : nat := 140.
(** [RETRY_AFTER], in milliseconds. *)
Definition RETRY_AFTER : Z := 60000.
Definition COMMIT_STATUS_CHANNEL : string := "commit-status".
Definition BARK_CHANNEL : string := "bark".

Record BarkConfig := mkBark { bark_key : string; bark_server : string }.
Record GitHubConfig := mkGitHub { gh_token : string; gh_api_url : string }.
Record DeliveryChannels := mkChannels { ch_bark : option BarkConfig; ch_github : option GitHubConfig }.

(** [DeliveryChannels::resolve]; [from_env] is this with the environment's
    variables. *)
Definition nonblank (value : option string) : option string :=
  v ← value; if is_blank v then None else Some v.
Definition resolve_channels (lookup : string -> option string) : DeliveryChannels :=
  let lookup name := nonblank (lookup name) in
  mkChannels
    ((fun key => mkBark key (default "https://api.day.app" (lookup "BARK_SERVER"))) <$> lookup "BARK_KEY")
    ((fun token => mkGitHub token (default "https://api.github.com" (lookup "BIG_BROTHER_GITHUB_API_URL")))
       <$> lookup "BIG_BROTHER_GITHUB_TOKEN").
Definition channels_from_env (var : string -> option string) : DeliveryChannels :=
  resolve_channels (fun name => nonblank (var name)).

(** [DeliveryChannels::is_empty]. *)
Definition channels_is_empty (c : DeliveryChannels) : bool :=
  match ch_bark c, ch_github c with None, None => true | _, _ => false end.

(** ** Payloads *)
(** [conclusion_line], [capped], [short_revision], [delivery_user_agent]. *)
Definition first_nonblank_line (text : string) : option string :=
  find_first (fun line => negb (is_blank line)) (lines text).
Definition conclusion_line (record : ReviewRecord) : string :=
  default "review completed" (rec_conclusion record ≫= first_nonblank_line).
Definition capped (text : string) (cap : nat) : string :=
  if Nat.ltb cap (chars_count text) then take_chars (cap - 1) text ++ ellipsis else text.
Definition short_revision (revision : string) : string := take_chars 8 revision.
Definition delivery_user_agent : string := "big-brother/0.10.0".

(** [status_payload] and [bark_payload]. *)
Definition status_payload (record : ReviewRecord) : Value :=
  VObject [("state", VString "success"); ("context", VString STATUS_CONTEXT);
           ("description", VString (capped (conclusion_line record) STATUS_DESCRIPTION_CAP))].
Definition bark_payload (repo_name : string) (record : ReviewRecord) : Value :=
  VObject [("title", VString ("big-brother " ++ repo_name));
           ("body", VString ("reviewed " ++ short_revision (rec_base record) ++ ".."
                               ++ short_revision (rec_head record) ++ ": " ++ conclusion_line record));
           ("group", VString "big-brother")].

(** [retry_due]. *)
Definition retry_due (entry : option DeliveryState) (now : Z) : bool :=
  match entry with
  | None => true
  | Some state =>
      if delivered state then false
      else RETRY_AFTER <=? u64_saturating_sub now (default 0 (iso_to_unix_ms (d_last_attempt_at state)))
  end.

Definition http_is_success (status : Z) : bool := (200 <=? status) && (status <? 300).

Section Delivery.
Context `{Env}.

Definition call_http (url : string) (headers : list (string * string)) (body : Value)
    : M anyhow http_answer := fun w =>
  let '(x, a) := http_post (w_ext w) url headers body in (Ok a, set_ext x w).

Definition status_display (status : Z) (status_text : string) : string :=
  show_Z status ++ " " ++ status_text.

(** [send_commit_status]. *)
Definition send_commit_status (config : GitHubConfig) (slug : string) (record : ReviewRecord)
    : M anyhow unit :=
  let url := trim_end_matches "/" (gh_api_url config) ++ "/repos/" ++ slug ++ "/statuses/"
               ++ rec_head record in
  let* answer := call_http url
    [("Authorization", "Bearer " ++ gh_token config); ("User-Agent", delivery_user_agent);
     ("Accept", "application/vnd.github+json")] (status_payload record) in
  match answer with
  | HttpFailed text => throw (Anyhow ["POST " ++ url; text])
  | HttpResponse status status_text body =>
      if http_is_success status then ret tt
      else throw (anyhow_msg ("commit status POST returned " ++ status_display status status_text
                                ++ ": " ++ capped body 300))
  end.

(** [send_bark]: HTTP success with [code] 200 is the only success shape. *)
Definition send_bark (config : BarkConfig) (repo_name : string) (record : ReviewRecord)
    : M anyhow unit :=
  let url := trim_end_matches "/" (bark_server config) ++ "/" ++ bark_key config in
  let* answer := call_http url [("User-Agent", delivery_user_agent)] (bark_payload repo_name record) in
  match answer with
  | HttpFailed text => throw (Anyhow ["POST the bark server"; text])
  | HttpResponse status status_text body =>
      if negb (http_is_success status)
      then throw (anyhow_msg ("bark POST returned " ++ status_display status status_text
                                ++ ": " ++ capped body 300))
      else match from_str (trim body) with
           | inl e => throw (Anyhow ["bark answered non-JSON: " ++ capped body 300; e])
           | inr parsed =>
               if decide (get "code" parsed ≫= as_i64 = Some 200) then ret tt
               else throw (anyhow_msg ("bark rejected the push: " ++ capped (value_display parsed) 300))
           end
  end.

(** A store error crossing into [anyhow]. *)
Definition store_err (e : StateError) : anyhow := anyhow_msg (state_error_display e).

(** [record_outcome]. *)
Definition record_outcome (st : Store) (branch : string) (record : ReviewRecord) (channel : string)
    (outcome : anyhow + unit) : M anyhow unit :=
  let* now := now_iso in
  let error := match outcome with inl e => Some (anyhow_display e) | inr _ => None end in
  let state := advance (rec_delivery record !! channel) now error in
  map_err (fun e => anyhow_msg ("recording " ++ channel ++ " delivery on " ++ rec_head record ++ ": "
                                  ++ state_error_display e))
    (update_delivery st branch (rec_head record) channel state).

(** [deliver_record]. *)
Definition deliver_record (st : Store) (channels : DeliveryChannels) (branch : string)
    (record : ReviewRecord) (slug : option string) (repo_name : string) : M anyhow unit :=
  let* now := now_ms in
  do* match ch_github channels, slug with
      | Some config, Some slug =>
          if retry_due (rec_delivery record !! COMMIT_STATUS_CHANNEL) now then
            let* outcome := attempt (send_commit_status config slug record) in
            record_outcome st branch record COMMIT_STATUS_CHANNEL outcome
          else ret tt
      | _, _ => ret tt
      end in
  match ch_bark channels with
  | Some config =>
      if retry_due (rec_delivery record !! BARK_CHANNEL) now then
        let* outcome := attempt (send_bark config repo_name record) in
        record_outcome st branch record BARK_CHANNEL outcome
      else ret tt
  | None => ret tt
  end.

Fixpoint deliver_records (st : Store) (channels : DeliveryChannels) (branch : string)
    (slug : option string) (repo_name : string) (rs : list ReviewRecord) : M anyhow unit :=
  match rs with
  | [] => ret tt
  | record :: rest =>
      do* deliver_record st channels branch record slug repo_name in
      deliver_records st channels branch slug repo_name rest
  end.
Fixpoint deliver_branches (st : Store) (channels : DeliveryChannels) (slug : option string)
    (repo_name : string) (branches : list string) : M anyhow unit :=
  match branches with
  | [] => ret tt
  | branch :: rest =>
      let* rs := map_err store_err (records st branch) in
      do* deliver_records st channels branch slug repo_name rs in
      deliver_branches st channels slug repo_name rest
  end.

(** [deliver_pending]; building the HTTP client does not fail here. *)
Definition deliver_pending (st : Store) (channels : DeliveryChannels) (git_root : path) : M anyhow unit :=
  if channels_is_empty channels then ret tt
  else
  let repo_name := default "repository" (file_name git_root) in
  let* slug := match ch_github channels with
               | Some _ => origin_github_slug git_root
               | None => ret None
               end in
  let* state := map_err store_err (load st) in
  deliver_branches st channels slug repo_name (btree_keys (s_branches state)).
End Delivery.

(** ** The guarantees of delivery

    Delivered means delivered, failures are retried no sooner than a minute
    later, an update touches one channel of one record, and what is sent fits
    the channel. *)
(** ** Retry spacing *)

(** After an attempt at time [t] a channel is never tried again if it
    succeeded, and otherwise is due exactly from one minute after [t] on. *)
Theorem retry_spacing previous t error now :
  0 <= t < year_10000_ms ->
  retry_due (Some (advance previous (iso_from_unix_ms t) error)) now
  = match error with None => false | Some _ => RETRY_AFTER <=? Z.max 0 (now - t) end.
Proof.
  intros Ht. unfold retry_due, advance, delivered. cbn [d_delivered_at d_last_attempt_at].
  destruct error; [|done]. rewrite iso_back by done. reflexivity.
Qed.

(** ** Texts that fit *)
Lemma chars_count_app a b : chars_count (a ++ b) = (chars_count a + chars_count b)%nat.
Proof. induction a as [|c a IH]; [done|]. cbn. destruct (is_continuation c); [done|]. by rewrite IH. Qed.
Lemma take_chars_count n s : (chars_count (take_chars n s) <= n)%nat.
Proof.
  revert n. induction s as [|c s IH]; intros n; cbn; [lia|]. destruct (is_continuation c) eqn:E.
  - cbn. rewrite E. apply IH.
  - destruct n as [|n]; cbn; [lia|]. rewrite E. specialize (IH n). lia.
Qed.
Lemma capped_length text cap : (1 <= cap)%nat -> (chars_count (capped text cap) <= cap)%nat.
Proof.
  intros Hcap. unfold capped. destruct (Nat.ltb_spec cap (chars_count text)); [|lia].
  rewrite chars_count_app. pose proof (take_chars_count (cap - 1) text).
  change (chars_count ellipsis) with 1%nat. lia.
Qed.
Lemma find_first_nonblank text line : first_nonblank_line text = Some line -> is_blank line = false.
Proof.
  unfold first_nonblank_line. intros Hf. apply find_first_Some in Hf as [_ Hb].
  by apply negb_true_iff in Hb.
Qed.
Lemma conclusion_line_nonblank record : is_blank (conclusion_line record) = false.
Proof.
  unfold conclusion_line. destruct (rec_conclusion record ≫= first_nonblank_line) as [l|] eqn:E; [|done].
  apply bind_Some in E as (text & _ & E). by eapply find_first_nonblank.
Qed.

Lemma take_chars_prefix n s : exists rest, s = take_chars n s ++ rest.
Proof.
  revert n. induction s as [|c s IH]; intros n; cbn; [by exists ""|].
  destruct (is_continuation c); [|destruct n as [|n]; [by eexists|]].
  - destruct (IH n) as [r Hr]. exists r. cbn. by f_equal.
  - destruct (IH n) as [r Hr]. exists r. cbn. by f_equal.
Qed.

(** The description of a commit status is never longer than GitHub's limit
    of 140 characters: it is the conclusion line, which is never blank, when
    that fits, and otherwise a prefix of it marked with an ellipsis. *)
Theorem status_description_fits record :
  exists d, get "description" (status_payload record) = Some (VString d) /\
    (chars_count d <= 140)%nat /\ is_blank (conclusion_line record) = false /\
    if Nat.leb (chars_count (conclusion_line record)) 140 then d = conclusion_line record
    else exists p rest, d = p ++ ellipsis /\ conclusion_line record = p ++ rest.
Proof.
  eexists. split; [reflexivity|]. split; [by apply (capped_length _ 140); lia|].
  split; [apply conclusion_line_nonblank|]. unfold capped, STATUS_DESCRIPTION_CAP. rewrite Nat.ltb_antisym.
  destruct (Nat.leb _ _); cbn [negb]; [done|].
  destruct (take_chars_prefix (140 - 1) (conclusion_line record)) as [rest Hr]. by eexists _, rest.
Qed.

Section Theorems.
Context `{EnvOk}.

(** What has been delivered is not sent again: a record whose configured
    channels all carry a delivery time is passed over without a request, a
    write or an error. *)
Theorem delivered_not_resent st channels branch record slug name w :
  (forall d, rec_delivery record !! COMMIT_STATUS_CHANNEL = Some d -> delivered d = true) ->
  (forall d, rec_delivery record !! BARK_CHANNEL = Some d -> delivered d = true) ->
  (ch_github channels <> None -> is_Some (rec_delivery record !! COMMIT_STATUS_CHANNEL)) ->
  (ch_bark channels <> None -> is_Some (rec_delivery record !! BARK_CHANNEL)) ->
  deliver_record st channels branch record slug name w = (Ok tt, bump_tick w).
Proof.
  intros Hg Hb Hgc Hbc. unfold deliver_record, bind, now_ms.
  assert (forall c now, (forall d, rec_delivery record !! c = Some d -> delivered d = true) ->
    is_Some (rec_delivery record !! c) -> retry_due (rec_delivery record !! c) now = false) as Hdue.
  { intros c now Hd [d Hc]. specialize (Hd d Hc). rewrite Hc. cbn. by rewrite Hd. }
  destruct (ch_github channels), (ch_bark channels); rewrite ?Hdue by auto; by destruct slug.
Qed.

(** Updating a delivery is atomic and touches one channel of one record:
    whatever faults strike, the record file is as it was or holds the same
    record with only that channel's entry replaced; no other file changes but
    the lock and the temporary file. *)
Theorem delivery_update_touches_one_channel st branch head channel d w q :
  is_revision head = true -> is_u32 (d_attempts d) ->
  let rp := record_path st branch head in
  let w' := (update_delivery st branch head channel d w).2 in
  (file_at w' rp = file_at w rp \/
   exists before v record after, file_at w rp = Some before /\ from_slice before = inr v /\
     decode v = Some record /\ rec_branch record = branch /\
     file_at w' rp = Some after /\ from_slice after = inr (encode (set_delivery channel d record))) /\
  (q <> rp -> q <> temp_path rp -> ~ lock_area (path_for (state_path st)) q -> file_at w' q = file_at w q).
Proof.
  intros Hh Hd rp w'. unfold w'. destruct (update_delivery st branch head channel d w) as [r w2] eqn:E. cbn [snd].
  pose proof (record_not_locked st branch head Hh) as Hnl. fold rp in Hnl. unfold update_delivery in E.
  apply with_lock_run in E as [[_ Hf]|(w1 & r1 & w3 & F1 & Hb & F2 & _)].
  { split; [left; by apply (frame_files _ _ _ Hf)|]. intros _ _ Hq. by apply (frame_files _ _ _ Hf). }
  pose proof (keeps_run _ _ _ _ _ (keeps_update_delivery_body st branch head channel d) Hb) as F.
  split.
  2: { intros Hq1 Hq2 Hq3. rewrite (frame_files _ _ _ F2 q Hq3), (frame_files _ _ _ F q), (frame_files _ _ _ F1 q Hq3); [done|].
       by intros [?|?]. }
  rewrite (frame_files _ _ _ F2 rp Hnl), <- (frame_files _ _ _ F1 rp Hnl).
  clear F F1 F2. unfold bind at 1, map_err in Hb. destruct (fs_read _ w1) as [rr w4] eqn:E1.
  assert (file_at w4 rp = file_at w1 rp) as Hrp.
  { eapply frame_files; [eapply (keeps_run (fun _ => False)); [apply keeps_fs_read|exact E1]|tauto]. }
  apply fs_read_effect in E1 as (_ & Hok & _). destruct rr as [before|e|]; [|injection Hb as _ <-; by left..].
  specialize (Hok before eq_refl). unfold bind at 1, lift in Hb.
  destruct (from_slice before) as [e|v] eqn:Ev; [injection Hb as _ <-; by left|].
  unfold bind at 1, lift in Hb. destruct (decode v) as [record|] eqn:Er; [|injection Hb as _ <-; by left].
  destruct (String.eqb_spec (rec_branch record) branch) as [Hbr|]; [|injection Hb as _ <-; by left].
  cbn [negb] in Hb. pose proof (set_delivery_wf channel d record (decode_wf v record Er) Hd) as Hwf.
  unfold bind, lift, record_body in Hb.
  destruct (json_text_round_trip _ (encode_representable _ Hwf)) as (body & Hbody & Hback). rewrite Hbody in Hb.
  apply atomic_write_effect in Hb as [[Hs _]|[Hs _]]; [|..|by apply record_not_temp].
  - left. unfold rp in *. congruence.
  - right. by exists before, v, record, body.
Qed.
End Theorems.
