(* ===== verification/Query.v ===== *)
(** * The operator query ([crates/pa-daemon/src/big_brother/query.rs])

    A read-only view of one enrolled repository. *)
From S2P Require Import Prelude RustStr Json Time World LockDir Profile State Store StoreProofs.
#[local] Open Scope string_scope.
#[local] Open Scope Z_scope.

Record QueryOptions := mkQuery { q_agent_dir : path; q_repo : path }.

Record BranchStatus := mkBranchStatus {
  bs_name : string;
  bs_cursor : option string;
  bs_in_flight : option ReviewRange;
  bs_last_failure : option ReviewFailure;
  bs_last_observation_failure : option ObservationFailure;
  bs_records : list ReviewRecord
}.
Record RepositoryStatus := mkRepositoryStatus { rs_git_root : path; rs_branches : list BranchStatus }.

(** ** Rendering *)
(** [short_revision], [first_line], [render_delivery]. *)
Definition ellipsized (n : nat) (text : string) : string :=
  if Nat.ltb n (chars_count text) then take_chars n text ++ ellipsis else take_chars n text.
Definition short_revision (revision : string) : string := ellipsized 12 revision.
Definition first_line (text : string) : string :=
  ellipsized 72 (default "" (find_first (fun line => negb (is_blank line)) (lines text))).
Definition render_channel (entry : string * DeliveryState) : string :=
  let '(channel, state) := entry in
  if delivered state then channel ++ " delivered"
  else match d_last_error state with
       | Some error =>
           channel ++ " pending (attempt " ++ show_Z (d_attempts state) ++ ", last error: "
             ++ first_line error ++ ")"
       | None => channel ++ " pending (attempt " ++ show_Z (d_attempts state) ++ ")"
       end.
Definition render_delivery (record : ReviewRecord) : string :=
  join_with ", " (render_channel <$> btree_iter (rec_delivery record)).

(** [writeln!]. *)
Definition line (text : string) : string := text ++ nl_str.
Definition concat_lines (ls : list string) : string := foldr String.append "" ls.

Definition render_cursor (b : BranchStatus) : string :=
  match bs_cursor b with
  | Some cursor => "reviewed through " ++ short_revision cursor
  | None => "no review baseline yet"
  end.
Definition render_in_flight (b : BranchStatus) : string :=
  match bs_in_flight b with
  | Some range =>
      "review in flight: " ++ short_revision (r_base range) ++ ".." ++ short_revision (r_head range)
        ++ " (attempt " ++ show_Z (r_attempts range) ++ ")"
  | None => "no review in flight"
  end.
Definition render_failure (f : ReviewFailure) : string :=
  "  last review failed: " ++ short_revision (f_base f) ++ ".." ++ short_revision (f_head f)
    ++ " after " ++ show_Z (f_attempts f) ++ " attempt(s) (" ++ f_reason f ++ ") at "
    ++ f_failed_at f ++ "; a later range re-covers it".
Definition render_observation (f : ObservationFailure) : string :=
  "  worktree update skipped: " ++ o_kind f ++ " (" ++ o_message f ++ ") at " ++ o_observed_at f.
Definition render_record (record : ReviewRecord) : string :=
  let conclusion := match rec_conclusion record with
                    | Some text => first_line text
                    | None => "(no synthesis captured)"
                    end in
  line ("    " ++ short_revision (rec_head record) ++ "  " ++ rec_completed_at record ++ "  " ++ conclusion)
  ++ (if decide (rec_delivery record = ∅) then "" else line ("      delivery: " ++ render_delivery record)).
Definition render_records (rs : list ReviewRecord) : string :=
  match rs with
  | [] => line "  no completed reviews"
  | _ => line ("  " ++ show_Z (Z.of_nat (List.length rs)) ++ " completed review(s):")
         ++ concat_lines (render_record <$> rs)
  end.
Definition render_branch (b : BranchStatus) : string :=
  line ("branch " ++ bs_name b ++ ":")
  ++ line ("  " ++ render_cursor b)
  ++ line ("  " ++ render_in_flight b)
  ++ match bs_last_failure b with Some f => line (render_failure f) | None => "" end
  ++ match bs_last_observation_failure b with Some f => line (render_observation f) | None => "" end
  ++ render_records (bs_records b).
(** [render_status]. *)
Definition render_status (status : RepositoryStatus) : string :=
  line ("repository: " ++ path_display (rs_git_root status))
  ++ concat_lines (render_branch <$> rs_branches status).

Section Query.
Context `{Env}.

(** The per-branch loop of [load_repository_status]. *)
Fixpoint load_branches (st : Store) (entries : list (string * BranchState)) : M anyhow (list BranchStatus) :=
  match entries with
  | [] => ret []
  | (name, bs) :: rest =>
      let* rs := map_err (fun e => anyhow_msg ("review records of " ++ name ++ ": " ++ state_error_display e))
                   (records st name) in
      let* others := load_branches st rest in
      ret (mkBranchStatus name (b_cursor bs) (b_in_flight bs) (b_last_failure bs)
             (b_last_observation_failure bs) rs :: others)
  end.

(** [load_repository_status]. *)
Definition load_repository_status (options : QueryOptions) : M anyhow RepositoryStatus :=
  let* root := find_git_repo_root (q_repo options) in
  match root with
  | None => throw (anyhow_msg (path_display (q_repo options) ++ " is not inside a git repository"))
  | Some git_root =>
      let st := open_store (q_agent_dir options) git_root in
      let* state := map_err (fun e => anyhow_msg ("repository state: " ++ state_error_display e)) (load st) in
      if decide (s_branches state = ∅)
      then throw (anyhow_msg ("the repository at " ++ path_display git_root ++ " has no review state at "
                                ++ path_display (state_path st) ++ "; run big-brother init first"))
      else
        let* branches := load_branches st (btree_iter (s_branches state)) in
        ret (mkRepositoryStatus git_root branches)
  end.

(** ** Theorems *)
Lemma keeps_find_root_fuel (S : path -> Prop) {E} fuel dir :
  keeps S (find_git_repo_root_fuel (E:=E) fuel dir).
Proof.
  revert dir. induction fuel as [|f IH]; intros dir; cbn [find_git_repo_root_fuel]; solve_keeps.
Qed.
Lemma keeps_find_root (S : path -> Prop) {E} dir : keeps S (find_git_repo_root (E:=E) dir).
Proof. apply keeps_find_root_fuel. Qed.
Lemma keeps_read_records (S : path -> Prop) branch ps : keeps S (read_records branch ps).
Proof.
  induction ps as [|p ps IH]; cbn [read_records]; [solve_keeps|].
  apply keeps_bind; [unfold read_record; solve_keeps|]. intros r.
  apply keeps_bind; [exact IH|solve_keeps].
Qed.
Lemma keeps_records (S : path -> Prop) st branch : keeps S (records st branch).
Proof.
  unfold records. apply keeps_bind; [solve_keeps|]. intros [e|entries]; [solve_keeps|].
  apply keeps_read_records.
Qed.
Lemma keeps_load (S : path -> Prop) st : keeps S (load st).
Proof. unfold load, read_state. solve_keeps. Qed.
Hint Resolve keeps_records keeps_load : keeps.
Lemma keeps_load_branches (S : path -> Prop) st entries : keeps S (load_branches st entries).
Proof. induction entries as [|[name bs] rest IH]; cbn [load_branches]; solve_keeps. Qed.

(** A query changes nothing: whatever faults strike, every file holds what
    it held and nothing vanishes. *)
Theorem query_is_read_only options w :
  frame (fun _ => False) w (load_repository_status options w).2.
Proof.
  revert w. change (keeps (fun _ => False) (load_repository_status options)).
  unfold load_repository_status. apply keeps_bind; [apply keeps_find_root|]. intros [root|]; [|solve_keeps].
  apply keeps_bind; [solve_keeps|]. intros s. case_decide; [solve_keeps|].
  apply keeps_bind; [apply keeps_load_branches|solve_keeps].
Qed.

Lemma load_branches_names st entries w bs w' :
  load_branches st entries w = (Ok bs, w') ->
  bs_name <$> bs = fst <$> entries /\
  Forall2 (fun b e => b_cursor (snd e) = bs_cursor b /\ b_in_flight (snd e) = bs_in_flight b
                      /\ b_last_failure (snd e) = bs_last_failure b) bs entries.
Proof.
  revert w bs w'. induction entries as [|[name b] rest IH]; intros w bs w'; cbn [load_branches].
  { unfold ret. intros [= <- _]. by split; [|constructor]. }
  unfold bind, map_err. destruct (records st name w) as [[rs|e|] w1]; [|done|done].
  destruct (load_branches st rest w1) as [[others|e|] w2] eqn:E; [|done|done].
  unfold ret. intros [= <- _]. apply IH in E as [Hn Hf]. cbn. rewrite Hn. by split; [|constructor].
Qed.
End Query.

Section QueryState.
Context `{EnvOk}.

Lemma find_root_keeps_state st options w (r : result anyhow (option path)) w' :
  find_git_repo_root (q_repo options) w = (r, w') -> same_state st w w'.
Proof.
  intros Hr. eapply (frame_files (fun _ => False)); [|tauto].
  eapply keeps_run; [|exact Hr]. apply keeps_find_root.
Qed.

(** What a query reports is the state document on disk: its branches, each
    once and in name order, with their cursors, ranges in flight and last
    failures. *)
Theorem query_reports_state options w status w' :
  load_repository_status options w = (Ok status, w') ->
  exists s, on_disk (open_store (q_agent_dir options) (rs_git_root status)) w s /\
    s_branches s <> ∅ /\
    bs_name <$> rs_branches status = btree_keys (s_branches s) /\
    forall b, b ∈ rs_branches status -> exists bs, s_branches s !! bs_name b = Some bs /\
      bs_cursor b = b_cursor bs /\ bs_in_flight b = b_in_flight bs
      /\ bs_last_failure b = b_last_failure bs.
Proof.
  unfold load_repository_status, bind at 1.
  destruct (find_git_repo_root (q_repo options) w) as [[[root|]|e|] w1] eqn:Er; [|done|done|done].
  unfold bind at 1, map_err. destruct (load _ w1) as [[s|e|] w2] eqn:El; [|done|done].
  case_decide as Hne; [done|]. unfold bind.
  destruct (load_branches _ _ w2) as [[bs|e|] w3] eqn:Eb; [|done|done].
  unfold ret. intros [= <- _]. cbn [rs_git_root rs_branches].
  apply load_branches_names in Eb as [Hn Hf]. exists s. split_and!; [|done|done|].
  - eapply on_disk_same; [symmetry; by eapply find_root_keeps_state|].
    by apply read_state_effect in El as (_ & _ & ?).
  - intros b Hb. apply list_elem_of_lookup in Hb as [i Hb].
    assert (exists e, btree_iter (s_branches s) !! i = Some e /\ fst e = bs_name b) as ([n x] & He & <-).
    { assert ((bs_name <$> bs) !! i = Some (bs_name b)) as Hi by (rewrite list_lookup_fmap, Hb; done).
      rewrite Hn in Hi. apply list_lookup_fmap_Some in Hi as (e & ? & ?). eauto. }
    destruct (Forall2_lookup_lr _ _ _ _ _ _ Hf Hb He) as (? & ? & ?).
    exists x. cbn. split; [|by split_and!]. apply elem_of_btree_iter.
    by eapply list_elem_of_lookup_2.
Qed.
End QueryState.
#[export] Hint Resolve keeps_records keeps_load keeps_find_root : keeps.
