(* ===== verification/Init.v ===== *)
(** * Enrollment ([crates/pa-daemon/src/big_brother/init.rs])

    The one command that enrolls a repository: profile, baseline cursor,
    conductor session, assets. *)
From S2P Require Import Prelude RustStr Json Time World LockDir Profile State Store Client Git.
#[local] Open Scope string_scope.
#[local] Open Scope Z_scope.

Definition DEFAULT_LAYERS : list string := ["requirements"; "project-fit"; "implementation"].

Record InitOptions := mkInitOptions {
  i_socket_path : path;
  i_agent_dir : path;
  i_repo : path;
  i_branch : option string;
  i_session_name : option string;
  i_main_model : option string;
  i_layers : list (string * string);
  i_attempt_timeout_seconds : option Z;
  i_max_attempts : option Z
}.
Record InitOutcome := mkInitOutcome {
  io_git_root : path;
  io_branch : string;
  io_cursor : string;
  io_session_name : string;
  io_created_conductor : bool;
  io_profile_path : path;
  io_assets_dir : path
}.

(** [conductor_create_request]. *)
Definition conductor_create_request (session_name : string) (main_model : option string)
    (git_root : path) : Value :=
  VObject ([("type", VString "create"); ("name", VString session_name);
            ("config", VObject [("cwd", VString (path_display git_root)); ("bigBrotherReview", VBool true)])]
           ++ match main_model with
              | None => []
              | Some m =>
                  match split_once "/" m with
                  | Some (provider, model) => [("provider", VString provider); ("model", VString model)]
                  | None => [("model", VString m)]
                  end
              end)%list.

(** One explicit layer: replaces the same-named layer's model or appends. *)
Fixpoint assign_layer (name model : string) (layers : list ReviewLayer) : list ReviewLayer :=
  match layers with
  | [] => [mkLayer name model]
  | l :: rest =>
      if String.eqb (layer_name l) name then mkLayer (layer_name l) model :: rest
      else l :: assign_layer name model rest
  end.
Definition assign_layers (assignments : list (string * string)) (layers : list ReviewLayer)
    : list ReviewLayer :=
  foldl (fun ls nm => assign_layer (fst nm) (snd nm) ls) layers assignments.

Definition default_session_name (git_root : path) : string :=
  "review-" ++ default "repository" (file_name git_root).

(** [build_profile]. *)
Definition build_profile (options : InitOptions) (git_root : path) : anyhow + ReviewProfile :=
  match i_main_model options with
  | None =>
      inl (anyhow_msg ("no review profile exists for this repository and no --main-model was given; pass --main-model (or place a profile at "
             ++ path_display (profile_path (i_agent_dir options) git_root) ++ " first)"))
  | Some main_model =>
      inr (mkProfile PROFILE_VERSION
             (default (default_session_name git_root) (i_session_name options))
             (Some main_model)
             (assign_layers (i_layers options) ((fun name => mkLayer name main_model) <$> DEFAULT_LAYERS))
             (i_attempt_timeout_seconds options) (i_max_attempts options))
  end.

(** The text of [overview.md]. *)
Definition overview_body (branch cursor : string) (profile : ReviewProfile) (profile_path : path) : string :=
  "# Big Brother overview" ++ nl_str ++ nl_str
  ++ "This working tree is enrolled for Big Brother review." ++ nl_str ++ nl_str
  ++ "- Tracked branch: `" ++ branch ++ "`" ++ nl_str
  ++ "- Review baseline: `" ++ cursor ++ "` (reviews start from the next change)" ++ nl_str
  ++ "- Conductor session: `" ++ p_session_name profile ++ "` (woken by name per review range)" ++ nl_str
  ++ "- Review profile: `" ++ path_display profile_path ++ "` (operator side, outside this work tree)" ++ nl_str
  ++ nl_str ++ "Query review progress with `big-brother status`." ++ nl_str.

Section Init.
Context `{Env}.

(** An I/O error under its context. *)
Definition io_context (what : string) (e : io_error) : anyhow := Anyhow [what; io_error_text e].
Definition profile_err (e : ProfileError) : anyhow :=
  anyhow_msg ("review profile: " ++ profile_error_display e).

(** [ensure_profile]. *)
Definition ensure_profile (options : InitOptions) (git_root : path) : M anyhow (ReviewProfile * path) :=
  let pp := profile_path (i_agent_dir options) git_root in
  let* existing := map_err profile_err (resolve_profile (i_agent_dir options) git_root) in
  match existing with
  | Some loaded => ret (loaded, pp)
  | None =>
      let* built := lift (build_profile options git_root) in
      do* lift (match validate built pp with inl e => inl (profile_err e) | inr u => inr u end) in
      match parent pp with
      | None => throw (anyhow_msg ("profile path " ++ path_display pp ++ " has no parent directory"))
      | Some dir =>
          do* map_err (io_context ("creating " ++ path_display dir)) (fs_create_dir_all dir) in
          let* body := lift (match to_string_pretty (encode built) with
                             | inl e => inl (Anyhow ["serializing the review profile"; e])
                             | inr b => inr b
                             end) in
          do* map_err (io_context ("writing " ++ path_display pp)) (fs_write pp body) in
          let* again := map_err profile_err (resolve_profile (i_agent_dir options) git_root) in
          match again with
          | Some profile => ret (profile, pp)
          | None => throw (anyhow_msg ("the profile written to " ++ path_display pp ++ " does not resolve back"))
          end
      end
  end.

(** [write_minimal_assets]: existing assets are never overwritten. *)
Definition write_minimal_assets (git_root : path) (branch cursor : string) (profile : ReviewProfile)
    (pp : path) : M anyhow path :=
  let assets_dir := join git_root ".big-brother" in
  let overview := join assets_dir "overview.md" in
  let* there := fs_exists overview in
  do* (if there then ret tt
       else
         do* map_err (io_context ("creating " ++ path_display assets_dir)) (fs_create_dir_all assets_dir) in
         map_err (io_context ("writing " ++ path_display overview))
           (fs_write overview (text_bytes (overview_body branch cursor profile pp)))) in
  ret assets_dir.

(** The tracked branch. *)
Definition tracked_branch (options : InitOptions) (git_root : path) : M anyhow string :=
  match i_branch options with
  | Some branch => ret branch
  | None =>
      let* by_default := default_branch git_root in
      let* current := current_branch git_root in
      match (match by_default with Some b => Some b | None => current end) with
      | Some b => ret b
      | None =>
          throw (anyhow_msg ("the work tree at " ++ path_display git_root
                   ++ " has no default, main, or master branch; pass --branch to name the tracked branch"))
      end
  end.

(** The conductor check: an existing session must be bound to this tree. *)
Definition conductor_missing (profile : ReviewProfile) (git_root : path) (sessions : list Value)
    : anyhow + bool :=
  match find_first (named (p_session_name profile)) sessions with
  | None => inr true
  | Some row =>
      let cwd := default "" (get_str "cwd" row) in
      if decide (path_of_string cwd = git_root) then inr false
      else inl (anyhow_msg ("a session named " ++ quoted (p_session_name profile)
             ++ " already exists for a different directory (" ++ cwd
             ++ "); the observer wakes the conductor by name, so its reviews would reach that session. Enroll with --session-name, or remove the colliding session."))
  end.

(** [run_init]. *)
Definition run_init (options : InitOptions) : M anyhow InitOutcome :=
  let* root := find_git_repo_root (i_repo options) in
  match root with
  | None =>
      throw (anyhow_msg (path_display (i_repo options)
        ++ " is not inside a git repository; run big-brother init in the repository's persistent work tree"))
  | Some git_root =>
      let* branch := tracked_branch options git_root in
      let* head := map_err (anyhow_context ("reading the tracked branch " ++ branch))
                     (branch_head git_root branch) in
      do* map_err (anyhow_context ("connecting to the daemon at " ++ path_display (i_socket_path options)
                                     ++ "; is the supervisor running?"))
            (connect (i_socket_path options)) in
      let* '(profile, pp) := ensure_profile options git_root in
      let st := open_store (i_agent_dir options) git_root in
      do* map_err (fun e => anyhow_msg ("seeding the review cursor: " ++ state_error_display e))
            (seed_cursor st branch head) in
      let* sessions := list_sessions_including_saved in
      let* created := lift (conductor_missing profile git_root sessions) in
      do* (if created then
             let* _ := map_err (anyhow_context "creating the review conductor session")
               (request (conductor_create_request (p_session_name profile) (p_main_model profile) git_root)) in
             ret tt
           else ret tt) in
      let* assets_dir := write_minimal_assets git_root branch head profile pp in
      ret (mkInitOutcome git_root branch head (p_session_name profile) created pp assets_dir)
  end.
End Init.
