(* ===== verification/Observer.v ===== *)
(** * The watch service ([crates/pa-daemon/src/big_brother/observer.rs])

    Scanning the enrolled repositories: complete the range in flight, admit a
    new head, wake the conductor, deliver records.  Log lines are not
    modelled. *)
From S2P Require Import Prelude RustStr Json Time World LockDir Profile State Store Client Git Harvest.
From S2P Require Import Delivery Init.
#[local] Open Scope string_scope.
#[local] Open Scope Z_scope.

Record ObserverOptions := mkObserverOptions {
  ob_socket_path : path;
  ob_agent_dir : path;
  ob_once : bool
}.

(** ** Pure parts *)

(** [wake_message]. *)
Definition marker_contract : string :=
  nl_str ++ "After every layer has replied, write the range's synthesis as your final message: the FIRST line must be exactly REVIEW_SYNTHESIS, the synthesis follows from the next line on. No preamble before that marker line.".
Definition wake_message (range : ReviewRange) (max_attempts : Z) : string :=
  let head_line := "REVIEW_RANGE " ++ r_base range ++ ".." ++ r_head range ++ " END" in
  if 1 <? r_attempts range then
    head_line ++ nl_str ++ "Retry attempt " ++ show_Z (r_attempts range) ++ " of " ++ show_Z max_attempts
      ++ ": the prior attempt failed and its reviewers were cancelled. Dispatch every configured review layer fresh for this range, then synthesize once all layers have replied."
      ++ marker_contract
  else head_line ++ marker_contract.

(** The name a dispatch gives a layer's child. *)
Definition layer_child (layer head : string) : string := layer ++ "-" ++ head.

(** [confirmed_no_reply_layers]. *)
Definition confirmed_no_reply_layers (missing_layers no_reply_layers : list string) (head : string)
    (sessions : list Value) : list string :=
  List.filter (fun layer => negb (existsb (named (layer_child layer head)) sessions))
    (List.filter (fun layer => bool_decide (layer ∈ no_reply_layers)) missing_layers).

(** [conductor_turn_dead]. *)
Definition row_dispatches (row : Value) : bool :=
  match get "content" row ≫= as_array with
  | Some blocks => existsb is_dispatch blocks
  | None => false
  end.
Definition conductor_turn_dead (transcript : Value) : bool :=
  match message_rows transcript with
  | None => false
  | Some rows =>
      if existsb row_dispatches rows then false
      else match last rows with
           | Some row => has_str "role" "assistant" row && has_str "stopReason" "error" row
           | None => false
           end
  end.

(** The answers that mean the packaged runtime is missing. *)
Definition runtime_phrases : list string :=
  ["The packaged prime-agent-runtime directory was not found"; "kernel startup failed";
   "fails to boot"; "uv is required to set up the Python kernel"].
Definition runtime_unavailable (layers : list HarvestedLayer) : bool :=
  existsb (fun l => existsb (fun phrase => contains phrase (hl_answer l)) runtime_phrases) layers.

(** [store_agent_dir]: three directories up. *)
Definition store_agent_dir (repo_dir : path) : path :=
  default ["."] ((parent repo_dir ≫= parent) ≫= parent).

(** The record of a settled review. *)
Definition review_record (profile : ReviewProfile) (branch : string) (in_flight : ReviewRange)
    (harvested : HarvestedReview) (child_ids : gmap string string) : ReviewRecord :=
  mkRecord 1 branch (h_base harvested) (h_head harvested) (r_attempts in_flight) ""
    ((fun l => mkRecLayer (hl_layer l) (default "" (layer_model profile (hl_layer l)))
                 (child_ids !! hl_layer l) (Some (hl_answer l))) <$> h_layers harvested)
    (Some (h_conclusion harvested)) ∅.

Section Observer.
Context `{Env}.

(** ** Memory *)
Definition get_woken : M anyhow (gset (string * string)) := fun w => (Ok (m_woken (w_mem w)), w).
Definition set_woken (s : gset (string * string)) : M anyhow unit := fun w =>
  (Ok tt, set_mem (mkMemory (m_client (w_mem w)) s) w).
(** [woken.insert(key)]: whether the key is new. *)
Definition woken_insert (key : string * string) : M anyhow bool :=
  let* s := get_woken in
  do* set_woken ({[key]} ∪ s) in
  ret (bool_decide (key ∉ s)).
Definition woken_remove (key : string * string) : M anyhow unit :=
  let* s := get_woken in set_woken (s ∖ {[key]}).

(** [drop(client)] at the end of a scan, and its absence at the start. *)
Definition drop_client : M anyhow unit := fun w =>
  (Ok tt, set_mem (mkMemory None (m_woken (w_mem w))) w).

(** [ensure_client]. *)
Definition ensure_client (socket_path : path) : M anyhow unit := fun w =>
  match m_client (w_mem w) with
  | Some _ => (Ok tt, w)
  | None => connect socket_path w
  end.

(** [wake_conductor]. *)
Definition wake_conductor (session_name message : string) : M anyhow unit :=
  let* _ := map_err (anyhow_context "waking the review conductor")
    (request (VObject [("type", VString "send_message"); ("targetActiveSessionId", VString session_name);
                       ("message", VString message)])) in
  ret tt.

(** ** Supervision *)
(** [attempt_expired]. *)
Definition attempt_started (range : ReviewRange) : string :=
  if is_empty (r_attempt_started_at range) then r_admitted_at range else r_attempt_started_at range.
Definition attempt_expired (profile : ReviewProfile) (range : ReviewRange) : M anyhow bool :=
  match iso_to_unix_ms (attempt_started range) with
  | None => ret false
  | Some started => let* now := now_ms in ret (attempt_timeout profile <=? u64_saturating_sub now started)
  end.

(** [cancel_attempt]: kill requests are best effort. *)
Definition cancel_targets (profile : ReviewProfile) (in_flight : ReviewRange) : list string :=
  p_session_name profile :: ((fun l => layer_child (layer_name l) (r_head in_flight)) <$> p_layers profile).
Fixpoint kill_targets (sessions : list Value) (targets : list string) : M anyhow unit :=
  match targets with
  | [] => ret tt
  | name :: rest =>
      do* match find_first (named name) sessions ≫= row_id with
          | Some id =>
              let* _ := attempt (F := anyhow)
                (request (VObject [("type", VString "kill"); ("activeSessionId", VString id)])) in
              ret tt
          | None => ret tt
          end in
      kill_targets sessions rest
  end.
Definition cancel_attempt (profile : ReviewProfile) (in_flight : ReviewRange) : M anyhow unit :=
  let* r := attempt list_sessions in
  match r with
  | inl _ => ret tt
  | inr sessions => kill_targets sessions (cancel_targets profile in_flight)
  end.

(** [supervise_failure] and [supervise_timeout]. *)
Definition supervise_failure (st : Store) (profile : ReviewProfile) (branch : string)
    (in_flight : ReviewRange) (reason : string) : M anyhow unit :=
  do* cancel_attempt profile in_flight in
  if max_attempts profile <=? r_attempts in_flight then
    map_err (fun e => anyhow_msg ("failing the exhausted review range: " ++ state_error_display e))
      (fail_range st branch (r_head in_flight) reason)
  else
    do* map_err (fun e => anyhow_msg ("re-arming the review attempt: " ++ state_error_display e))
          (retry_attempt st branch (r_head in_flight)) in
    woken_remove (p_session_name profile, r_head in_flight).
Definition supervise_timeout (st : Store) (profile : ReviewProfile) (branch : string)
    (in_flight : ReviewRange) : M anyhow unit :=
  supervise_failure st profile branch in_flight "timed_out".

(** ** Completing the range in flight *)

(** The layer loop of [try_complete_review]: the resident children's answers
    and their session ids. *)
Fixpoint collect_answers (sessions : list Value) (head : string) (layers : list ReviewLayer)
    (answers ids : gmap string string) : M anyhow (gmap string string * gmap string string) :=
  match layers with
  | [] => ret (answers, ids)
  | layer :: rest =>
      match find_first (named (layer_child (layer_name layer) head)) sessions with
      | None => collect_answers sessions head rest answers ids
      | Some child =>
          let* child_id := lift (session_id child) in
          let* messages := get_messages child_id in
          match last_assistant_text messages with
          | Some answer =>
              collect_answers sessions head rest (<[layer_name layer := answer]> answers)
                (<[layer_name layer := child_id]> ids)
          | None => collect_answers sessions head rest answers ids
          end
      end
  end.

(** The wake of a conductor that is not resident: once per process and
    attempt, the quota handed back when the wake is refused. *)
Definition rewake (profile : ReviewProfile) (in_flight : ReviewRange) : M anyhow unit :=
  let key := (p_session_name profile, r_head in_flight) in
  let* fresh := woken_insert key in
  if fresh then
    let* r := attempt (wake_conductor (p_session_name profile) (wake_message in_flight (max_attempts profile))) in
    match r with
    | inr _ => ret tt
    | inl e => do* woken_remove key in throw e
    end
  else ret tt.

(** What the harvest of a settled conversation leads to. *)
Definition settle_harvest (st : Store) (profile : ReviewProfile) (branch : string)
    (in_flight : ReviewRange) (sessions : list Value) (harvested : HarvestedReview)
    (child_ids : gmap string string) : M anyhow bool :=
  if negb (String.eqb (h_base harvested) (r_base in_flight))
     || negb (String.eqb (h_head harvested) (r_head in_flight))
  then throw (anyhow_msg ("the conductor's transcript reviews " ++ h_base harvested ++ ".." ++ h_head harvested
                ++ " but the admitted range is " ++ r_base in_flight ++ ".." ++ r_head in_flight))
  else if runtime_unavailable (h_layers harvested) then
    do* supervise_failure st profile branch in_flight "runtime_unavailable" in ret false
  else
  match h_missing_layers harvested with
  | _ :: _ =>
      match confirmed_no_reply_layers (h_missing_layers harvested) (h_no_reply_layers harvested)
              (r_head in_flight) sessions with
      | [] => ret false
      | _ :: _ => do* supervise_failure st profile branch in_flight "layer_no_reply" in ret false
      end
  | [] =>
      let* _ := map_err store_err (complete st (review_record profile branch in_flight harvested child_ids)) in
      do* woken_remove (p_session_name profile, r_head in_flight) in
      ret true
  end.

(** [try_complete_review]. *)
Definition try_complete_review (st : Store) (profile : ReviewProfile) (branch : string)
    (in_flight : ReviewRange) : M anyhow bool :=
  let* sessions := list_sessions in
  match find_first (named (p_session_name profile)) sessions with
  | None => do* rewake profile in_flight in ret false
  | Some conductor =>
      let* conductor_id := lift (session_id conductor) in
      let* transcript := get_messages conductor_id in
      if conductor_turn_dead transcript then
        do* supervise_failure st profile branch in_flight "turn_failed" in ret false
      else
        let* '(answers, child_ids) := collect_answers sessions (r_head in_flight) (p_layers profile) ∅ ∅ in
        let* after_children := get_messages conductor_id in
        match harvest_review after_children answers with
        | inl _ => ret false
        | inr harvested => settle_harvest st profile branch in_flight sessions harvested child_ids
        end
  end.

(** ** One repository *)

(** [read_state] and [resolve_profile_from_repo_dir]. *)
Definition observer_read_state (repo_dir : path) : M anyhow RepositoryState :=
  let p := join repo_dir "state.json" in
  let* bytes := map_err (io_context ("reading " ++ path_display p)) (fs_read p) in
  let* state := lift (match from_slice bytes with
                      | inl e => inl (Anyhow ["parsing " ++ path_display p; e])
                      | inr v => match decode v with
                                 | None => inl (Anyhow ["parsing " ++ path_display p; schema_error_text v])
                                 | Some s => inr s
                                 end
                      end) in
  if negb (s_version state =? STATE_VERSION)
  then throw (anyhow_msg ("unsupported repository state version " ++ show_Z (s_version state)
                            ++ " (expected " ++ show_Z STATE_VERSION ++ ")"))
  else ret state.
Definition resolve_profile_from_repo_dir (repo_dir : path) : M anyhow (option ReviewProfile) :=
  let p := join repo_dir "profile.json" in
  let* r := attempt (fs_read p) in
  match r with
  | inl e => if decide (io_error_kind e = NotFound) then ret None
             else throw (io_context ("reading " ++ path_display p) e)
  | inr bytes =>
      lift (match from_slice bytes with
            | inl e => inl (Anyhow ["parsing " ++ path_display p; e])
            | inr v => match decode v with
                       | None => inl (Anyhow ["parsing " ++ path_display p; schema_error_text v])
                       | Some profile => inr (Some profile)
                       end
            end)
  end.

(** The in-flight loop of [observe_repo]; [false] ends the observation. *)
Fixpoint settle_in_flight (st : Store) (profile : ReviewProfile) (entries : list (string * BranchState))
    : M anyhow bool :=
  match entries with
  | [] => ret true
  | (branch, bs) :: rest =>
      match b_in_flight bs with
      | None => settle_in_flight st profile rest
      | Some in_flight =>
          let* expired := attempt_expired profile in_flight in
          if expired then do* supervise_timeout st profile branch in_flight in ret false
          else
            let* completed := try_complete_review st profile branch in_flight in
            if completed then settle_in_flight st profile rest else ret false
      end
  end.

(** One branch of the observation loop. *)
Definition observe_branch (st : Store) (profile : ReviewProfile) (git_root : path) (branch : string)
    : M anyhow unit :=
  let* synced := attempt (fetch_and_fast_forward git_root branch) in
  match synced with
  | inl e => map_err store_err (record_observation_failure st branch (sync_error_kind e) (sync_error_display e))
  | inr _ =>
      let* r := attempt (branch_head git_root branch) in
      match r with
      | inl e => map_err store_err (record_observation_failure st branch "head_failed" (anyhow_display e))
      | inr head =>
          do* map_err store_err (clear_observation_failure st branch) in
          let* admission := map_err store_err (admit_range st branch head) in
          match admission with
          | AdmittedRange range =>
              do* wake_conductor (p_session_name profile) (wake_message range (max_attempts profile)) in
              let* _ := woken_insert (p_session_name profile, head) in
              ret tt
          | _ => ret tt
          end
      end
  end.
Fixpoint observe_branches (st : Store) (profile : ReviewProfile) (git_root : path) (branches : list string)
    : M anyhow unit :=
  match branches with
  | [] => ret tt
  | branch :: rest =>
      do* observe_branch st profile git_root branch in observe_branches st profile git_root rest
  end.

(** [observe_repo]. *)
Definition observe_repo (socket_path repo_dir : path) (channels : DeliveryChannels) : M anyhow unit :=
  let* state := observer_read_state repo_dir in
  match s_git_root state with
  | None => throw (anyhow_msg "the state records no git root (written by a pre-observer build); re-enroll to record it")
  | Some root =>
      let git_root := path_of_string root in
      let* found := resolve_profile_from_repo_dir repo_dir in
      match found with
      | None => throw (anyhow_msg "no review profile beside the repository state")
      | Some profile =>
          let st := open_store (store_agent_dir repo_dir) git_root in
          if decide (parent (state_path st) <> Some repo_dir)
          then throw (anyhow_msg ("the state's git root " ++ path_display (st_git_root st)
                 ++ " does not key this enrolled directory; re-enroll the repository"))
          else
          do* ensure_client socket_path in
          let* go_on := settle_in_flight st profile (btree_iter (s_branches state)) in
          if go_on then
            let* state := map_err store_err (load st) in
            do* observe_branches st profile git_root (btree_keys (s_branches state)) in
            deliver_pending st channels git_root
          else ret tt
      end
  end.

(** ** Scans *)
Fixpoint scan_entries (socket_path : path) (channels : DeliveryChannels) (entries : list path)
    : M anyhow unit :=
  match entries with
  | [] => ret tt
  | repo_dir :: rest =>
      let* enrolled := fs_is_file (join repo_dir "state.json") in
      do* (if enrolled then
             let* _ := attempt (F := anyhow) (observe_repo socket_path repo_dir channels) in ret tt
           else ret tt) in
      scan_entries socket_path channels rest
  end.

(** [scan_once]: a failing repository does not stop the others. *)
Definition scan_once (var : string -> option string) (options : ObserverOptions) : M anyhow unit :=
  let repos_root := join (join (ob_agent_dir options) "big-brother") "repos" in
  let* entries := map_err (io_context ("reading enrolled repositories at " ++ path_display repos_root))
                    (fs_read_dir repos_root) in
  do* drop_client in
  do* scan_entries (ob_socket_path options) (channels_from_env var) entries in
  drop_client.

(** [run_observer]: [n] bounds the scans of a service that runs until killed. *)
Fixpoint run_observer (n : nat) (var : string -> option string) (options : ObserverOptions) : M anyhow unit :=
  match n with
  | O => ret tt
  | S n' =>
      let* _ := attempt (F := anyhow) (scan_once var options) in
      if ob_once options then ret tt else run_observer n' var options
  end.
End Observer.
