(* ===== verification/ObserverProofs.v ===== *)
(** * The watch service: theorems

    Whatever the daemon, git and the HTTP servers answer and wherever system
    calls fail or the process dies, a whole scan is nothing but a sequence of
    store operations: it keeps the store's invariants. *)
From S2P Require Import Prelude RustStr Json Time World LockDir Sim Profile ProfileProofs.
From S2P Require Import State Store StoreProofs Completion Machine Filed Availability.
From S2P Require Import Client Git Harvest Delivery Query Init Observer.
#[local] Open Scope string_scope.
#[local] Open Scope Z_scope.

Section Evolution.
Context `{EnvOk} (st : Store).

(** A change that leaves the document and the record files as they are. *)
Definition outside (w w' : World) : Prop :=
  surroundings st w w' /\ forall q, record_file st q -> file_at w' q = file_at w q.

(** Sequences of store operations other than seeding; whatever else happens in
    between changes no file. *)
Inductive evolves : World -> World -> Prop :=
| ev_refl w : evolves w w
| ev_op o w w' : op_typed o -> op_widths o -> op_seeds o = ∅ -> evolves (run_op st o w) w' -> evolves w w'
| ev_quiet w w1 w' : frame (fun _ => False) w w1 -> evolves w1 w' -> evolves w w'.

Lemma evolves_trans w1 w2 w3 : evolves w1 w2 -> evolves w2 w3 -> evolves w1 w3.
Proof. induction 1; eauto using evolves. Qed.
Lemma evolves_one o w : op_typed o -> op_widths o -> op_seeds o = ∅ -> evolves w (run_op st o w).
Proof. intros. eapply ev_op; eauto using ev_refl. Qed.

Definition store_inv (seeds : gset (string * string)) (w : World) : Prop :=
  state_inv st seeds w /\ filed_inv st w.

Lemma outside_frame w w' : frame (fun _ => False) w w' -> outside w w'.
Proof.
  intros HF. split; [split|].
  - apply (frame_files _ _ _ HF). tauto.
  - intros b h _. apply (frame_present _ _ _ HF). tauto.
  - intros q _. apply (frame_files _ _ _ HF). tauto.
Qed.
Lemma outside_inv seeds w w' : outside w w' -> store_inv seeds w -> store_inv seeds w'.
Proof.
  intros [Hs Hf] [Hinv Hfiled]. split; [eapply state_inv_same; [done|apply Hs|done]|].
  intros q b Hq Hb. rewrite Hf in Hb by done. by apply (Hfiled q b Hq).
Qed.
Lemma evolves_filed w w' : evolves w w' -> filed_inv st w -> filed_inv st w'.
Proof.
  induction 1 as [|o w w' Ht Hw _ _ IH|w w1 w' Ho _ IH]; [done| |].
  - intros Hf. by apply IH, run_op_filed.
  - intros Hf. apply IH. eapply filed_inv_frame; [exact Ho|tauto|done].
Qed.
Lemma evolves_inv seeds w w' : evolves w w' -> store_inv seeds w -> store_inv seeds w'.
Proof.
  induction 1 as [|o w w' Ht Hw Hseed _ IH|w w1 w' Ho _ IH]; [done| |]; intros Hs; apply IH.
  - destruct Hs as [Hs Hf]. split; [|by apply run_op_filed].
    apply (run_op_inv st seeds o w) in Hs; [|done]. by rewrite Hseed, union_empty_l_L in Hs.
  - by eapply outside_inv; [apply outside_frame|].
Qed.

(** ** The directory of one repository *)
Definition home (q : path) : Prop := exists rest, q = (st_repo_dir st ++ rest)%list.

Lemma lock_area_home q : lock_area (path_for (state_path st)) q -> home q.
Proof.
  rewrite state_lock_eq. intros [-> | ->]; [by eexists|]. unfold owner_file. rewrite <- app_assoc. by eexists.
Qed.
Lemma keeps_home_with_lock {A} (body : M StateError A) : keeps home body -> keeps home (with_lock st body).
Proof.
  intros Hb w. destruct (with_lock st body w) as [r w'] eqn:E. cbn.
  apply with_lock_run in E as [[_ Hf]|(w1 & r1 & w2 & F1 & Hrun & F2 & _)].
  { eapply frame_weaken; [exact Hf|apply lock_area_home]. }
  eapply frame_trans; [eapply frame_weaken; [exact F1|apply lock_area_home]|].
  eapply frame_trans; [|eapply frame_weaken; [exact F2|apply lock_area_home]].
  by eapply keeps_run.
Qed.
Lemma keeps_home_write_state s : keeps home (write_state st s).
Proof.
  eapply keeps_weaken; [apply keeps_write_state|]. intros q [-> | ->]; [by eexists|].
  rewrite state_temp_eq. by eexists.
Qed.
Lemma keeps_home_read_state : keeps home (read_state st).
Proof. unfold read_state. solve_keeps. Qed.
Lemma keeps_home_record b h bytes :
  is_revision h = true -> keeps home (atomic_write (record_path st b h) bytes).
Proof.
  intros Hh. eapply keeps_weaken; [apply keeps_atomic_write|]. intros q [-> | ->].
  - destruct (record_path_shape st b h Hh) as (mid & ->). by eexists.
  - destruct (record_temp_eq st b h Hh) as (mid & ->). by eexists.
Qed.
Hint Resolve keeps_home_write_state keeps_home_read_state keeps_home_record : keeps.

Lemma keeps_home_complete_body stray s rec :
  is_revision (rec_head rec) = true -> keeps home (bind (stamped rec) (complete_loaded st stray s)).
Proof.
  intros Hh w. unfold bind. destruct (stamped rec w) as [r w1] eqn:E.
  apply stamped_effect in E as (F & t & ->). eapply frame_trans; [by eapply frame_weaken; [exact F|]|].
  set (rec' := if is_blank _ then _ else _).
  assert (is_revision (rec_head rec') = true) as Hh' by (unfold rec'; by destruct (is_blank _)).
  revert w1 F. assert (keeps home (complete_loaded st stray s rec')) as Hk; [|intros w1 _; apply Hk].
  unfold complete_loaded, complete_in_flight, complete_replay, write_record_once. solve_keeps.
Qed.

(** Every operation of a store stays inside its repository's directory. *)
Lemma run_op_home o w : op_typed o -> frame home w (run_op st o w).
Proof.
  intros Ht. destruct o as [b r|b k m|b|b h|b h|b h r|rec|b h c d]; cbn [run_op]; unfold discard.
  - revert w. change (keeps home (seed_cursor st b r)). unfold seed_cursor.
    apply keeps_bind; [solve_keeps|]. intros _. apply keeps_home_with_lock. solve_keeps.
  - revert w. change (keeps home (record_observation_failure st b k m)). apply keeps_home_with_lock. solve_keeps.
  - revert w. change (keeps home (clear_observation_failure st b)). apply keeps_home_with_lock. solve_keeps.
  - revert w. change (keeps home (admit_range st b h)). unfold admit_range.
    apply keeps_bind; [solve_keeps|]. intros _. apply keeps_home_with_lock. solve_keeps.
  - revert w. change (keeps home (retry_attempt st b h)). apply keeps_home_with_lock. solve_keeps.
  - revert w. change (keeps home (fail_range st b h r)). apply keeps_home_with_lock. solve_keeps.
  - destruct (complete_refused st rec w Ht) as [Hrec|[e ->]]; [|apply frame_refl].
    rewrite complete_unguarded by done. destruct Hrec as (_ & _ & _ & Hh & _).
    revert w. apply keeps_home_with_lock, keeps_bind; [solve_keeps|]. intros s. by apply keeps_home_complete_body.
  - revert w. change (keeps home (update_delivery st b h c d)). apply keeps_home_with_lock. cbv zeta.
    solve_keeps.
Qed.
Lemma evolves_home w w' : evolves w w' -> frame home w w'.
Proof.
  induction 1 as [|o w w' Ht Hw Hseed _ IH|w w1 w' Ho _ IH]; [apply frame_refl| |].
  - by eapply frame_trans; [apply run_op_home|].
  - eapply frame_trans; [by eapply frame_weaken; [exact Ho|]|done].
Qed.

(** ** Programs that evolve the store *)
Definition drives {E A} (m : M E A) : Prop := forall w, filed_inv st w -> evolves w (m w).2.

Lemma drives_quietly {E A} (m : M E A) : keeps (fun _ => False) m -> drives m.
Proof. intros Hk w _. eapply ev_quiet; [apply Hk|apply ev_refl]. Qed.
Lemma drives_bind {E A B} (m : M E A) (f : A -> M E B) :
  drives m -> (forall a, drives (f a)) -> drives (bind m f).
Proof.
  intros Hm Hf w Hinv. unfold bind. specialize (Hm w Hinv).
  destruct (m w) as [[a|e|] w'] eqn:E1; cbn in *; [|done|done].
  eapply evolves_trans; [done|]. apply Hf. by eapply evolves_filed.
Qed.
(** ... when what the first part returned matters. *)
Lemma drives_bind_run {E A B} (m : M E A) (f : A -> M E B) :
  drives m -> (forall w a w', filed_inv st w -> m w = (Ok a, w') -> drives (f a)) -> drives (bind m f).
Proof.
  intros Hm Hf w Hinv. unfold bind. specialize (Hm w Hinv).
  destruct (m w) as [[a|e|] w'] eqn:E1; cbn in *; [|done|done].
  eapply evolves_trans; [done|]. eapply Hf; [exact Hinv|exact E1|]. by eapply evolves_filed.
Qed.
Lemma drives_map_err {E F A} (g : E -> F) (m : M E A) : drives m -> drives (map_err g m).
Proof. intros Hm w Hinv. specialize (Hm w Hinv). unfold map_err. by destruct (m w) as [[] ?]. Qed.
Lemma drives_attempt {E F A} (m : M E A) : drives m -> drives (attempt (F:=F) m).
Proof. intros Hm w Hinv. specialize (Hm w Hinv). unfold attempt. by destruct (m w) as [[] ?]. Qed.

(** The store's operations. *)
Lemma drives_record_observation b k m : drives (record_observation_failure st b k m).
Proof. intros w _. by apply (evolves_one (OpObserveFail b k m)). Qed.
Lemma drives_clear_observation b : drives (clear_observation_failure st b).
Proof. intros w _. by apply (evolves_one (OpObserveClear b)). Qed.
Lemma drives_admit b h : drives (admit_range st b h).
Proof. intros w _. by apply (evolves_one (OpAdmit b h)). Qed.
Lemma drives_retry b h : drives (retry_attempt st b h).
Proof. intros w _. by apply (evolves_one (OpRetry b h)). Qed.
Lemma drives_fail b h r : drives (fail_range st b h r).
Proof. intros w _. by apply (evolves_one (OpFail b h r)). Qed.
Lemma drives_complete r : codec_wf r -> drives (complete st r).
Proof. intros Hr w _. by apply (evolves_one (OpComplete r)). Qed.
Lemma drives_update_delivery b h c d :
  is_revision h = true -> is_u32 (d_attempts d) -> drives (update_delivery st b h c d).
Proof. intros Hh Hd w _. by apply (evolves_one (OpDeliver b h c d)). Qed.
End Evolution.

(** [solve_drives] walks a program; the operations it leaves are the store's. *)
Ltac solve_drives :=
  repeat first
    [ progress intros
    | simple apply drives_record_observation | simple apply drives_clear_observation
    | simple apply drives_admit | simple apply drives_retry | simple apply drives_fail
    | assumption
    | simple apply drives_bind
    | simple apply drives_map_err
    | simple apply drives_attempt
    | match goal with |- drives _ (match ?x with _ => _ end) => destruct x end
    | solve [simple apply drives_quietly; solve_keeps] ].

(** ** The parts of a scan that touch no file *)
Section ObserverFrames.
Context `{Env}.
Lemma keeps_call_git (S : path -> Prop) {E} p args : keeps S (call_git (E:=E) p args).
Proof.
  intros w. unfold call_git. destruct (git_run _ _ _).
  constructor; [intros; apply untouched_refl|done|done|done].
Qed.
Lemma keeps_git (S : path -> Prop) p args : keeps S (git p args).
Proof. unfold git. pose proof (@keeps_call_git S). solve_keeps. Qed.
Hint Resolve keeps_git : keeps.
Lemma keeps_current_branch (S : path -> Prop) p : keeps S (current_branch p).
Proof. unfold current_branch. solve_keeps. Qed.
Hint Resolve keeps_current_branch : keeps.
Lemma keeps_sync (S : path -> Prop) p b : keeps S (fetch_and_fast_forward p b).
Proof. unfold fetch_and_fast_forward. solve_keeps. Qed.
Lemma keeps_branch_head (S : path -> Prop) p b : keeps S (branch_head p b).
Proof. unfold branch_head. solve_keeps. Qed.
Lemma keeps_origin_slug (S : path -> Prop) p : keeps S (origin_github_slug p).
Proof. unfold origin_github_slug. solve_keeps. Qed.
Lemma keeps_call_http (S : path -> Prop) u hs b : keeps S (call_http u hs b).
Proof.
  intros w. unfold call_http. destruct (http_post _ _ _ _).
  constructor; [intros; apply untouched_refl|done|done|done].
Qed.
Hint Resolve keeps_call_http : keeps.
Lemma keeps_send_commit_status (S : path -> Prop) c s r : keeps S (send_commit_status c s r).
Proof. unfold send_commit_status. solve_keeps. Qed.
Lemma keeps_send_bark (S : path -> Prop) c n r : keeps S (send_bark c n r).
Proof. unfold send_bark. solve_keeps. Qed.
Lemma keeps_get_woken (S : path -> Prop) : keeps S get_woken.
Proof. intros w. apply frame_refl. Qed.
Lemma keeps_set_woken (S : path -> Prop) x : keeps S (set_woken x).
Proof. apply keeps_mem. Qed.
Lemma keeps_drop_client (S : path -> Prop) : keeps S drop_client.
Proof. apply keeps_mem. Qed.
Hint Resolve keeps_get_woken keeps_set_woken : keeps.
Lemma keeps_woken_insert (S : path -> Prop) k : keeps S (woken_insert k).
Proof. unfold woken_insert. solve_keeps. Qed.
Lemma keeps_woken_remove (S : path -> Prop) k : keeps S (woken_remove k).
Proof. unfold woken_remove. solve_keeps. Qed.
Lemma keeps_ensure_client (S : path -> Prop) p : keeps S (ensure_client p).
Proof. intros w. unfold ensure_client. destruct (m_client _); [apply frame_refl|apply keeps_connect]. Qed.
Lemma keeps_wake (S : path -> Prop) n m : keeps S (wake_conductor n m).
Proof. unfold wake_conductor. solve_keeps. Qed.
Lemma keeps_attempt_expired (S : path -> Prop) p r : keeps S (attempt_expired p r).
Proof. unfold attempt_expired. solve_keeps. Qed.
Lemma keeps_kill_targets (S : path -> Prop) ss ts : keeps S (kill_targets ss ts).
Proof. induction ts as [|t ts IH]; cbn [kill_targets]; solve_keeps. Qed.
Hint Resolve keeps_kill_targets keeps_wake keeps_woken_insert keeps_woken_remove : keeps.
Lemma keeps_cancel (S : path -> Prop) p r : keeps S (cancel_attempt p r).
Proof. unfold cancel_attempt. solve_keeps. Qed.
Lemma keeps_collect_answers (S : path -> Prop) ss h ls a i : keeps S (collect_answers ss h ls a i).
Proof. revert a i. induction ls as [|l ls IH]; intros a i; cbn [collect_answers]; solve_keeps. Qed.
Lemma keeps_rewake (S : path -> Prop) p r : keeps S (rewake p r).
Proof. unfold rewake. solve_keeps. Qed.
Lemma keeps_observer_read_state (S : path -> Prop) d : keeps S (observer_read_state d).
Proof. unfold observer_read_state. solve_keeps. Qed.
Lemma keeps_observer_profile (S : path -> Prop) d : keeps S (resolve_profile_from_repo_dir d).
Proof. unfold resolve_profile_from_repo_dir. solve_keeps. Qed.
End ObserverFrames.
#[export] Hint Resolve keeps_git keeps_current_branch keeps_sync keeps_branch_head keeps_origin_slug
  keeps_send_commit_status keeps_send_bark keeps_drop_client keeps_woken_insert keeps_woken_remove
  keeps_ensure_client keeps_wake keeps_attempt_expired keeps_cancel keeps_collect_answers keeps_rewake
  keeps_observer_read_state keeps_observer_profile : keeps.

(** ** What the store hands back *)
Section Evolution2.
Context `{EnvOk} (st : Store).

Definition good_record (branch : string) (r : ReviewRecord) : Prop :=
  rec_branch r = branch /\ is_revision (rec_head r) = true /\ codec_wf r.

Lemma read_record_filed branch q w r w' :
  record_file st q -> filed_inv st w -> read_record branch q w = (Ok r, w') -> good_record branch r.
Proof.
  intros Hq Hinv. unfold read_record, bind at 1, map_err.
  destruct (fs_read q w) as [[bytes|e|] w1] eqn:E1; [|done|done].
  apply fs_read_effect in E1 as (_ & Hok & _). specialize (Hok bytes eq_refl).
  unfold bind at 1, lift. destruct (from_slice bytes) as [e|v] eqn:Ev; [done|].
  unfold bind at 1, lift. destruct (decode v) as [r'|] eqn:Er; [|done].
  destruct (negb (rec_version r' =? RECORD_VERSION)); [done|].
  destruct (String.eqb_spec (rec_branch r') branch) as [Hb|]; [|done]. intros [= <- _].
  split_and!; [done| |by eapply decode_wf]. by destruct (Hinv q bytes Hq Hok v r' Ev Er).
Qed.
Lemma read_records_filed branch qs w rs w' :
  Forall (record_file st) qs -> filed_inv st w -> read_records branch qs w = (Ok rs, w') ->
  Forall (good_record branch) rs.
Proof.
  intros Hqs. revert w rs w'. induction Hqs as [|q qs Hq _ IH]; intros w rs w' Hinv; cbn [read_records].
  { intros [= <- _]. constructor. }
  unfold bind at 1. destruct (read_record branch q w) as [[r|e|] w1] eqn:E1; [|done|done].
  assert (filed_inv st w1) as Hinv1.
  { eapply filed_inv_frame; [eapply (keeps_run (fun _ => False)); [|exact E1]|tauto|done].
    unfold read_record. solve_keeps. }
  apply read_record_filed in E1; [|done|done].
  unfold bind at 1. destruct (read_records branch qs w1) as [[rs'|e|] w2] eqn:E2; [|done|done].
  intros [= <- _]. constructor; [done|]. by eapply IH.
Qed.
Lemma listing_record_files branch fs :
  Forall (record_file st)
    (merge_sort path_le (List.filter has_json_extension (children (records_branch_dir st branch) fs))).
Proof.
  apply Forall_forall. intros q. rewrite merge_sort_Permutation. rewrite list_elem_of_In, filter_In.
  unfold children. rewrite filter_In, bool_decide_eq_true. intros [[_ Hp] Hj]. split; [by exists branch|done].
Qed.
Lemma records_filed branch w rs w' :
  filed_inv st w -> records st branch w = (Ok rs, w') -> Forall (good_record branch) rs.
Proof.
  intros Hinv. unfold records, bind at 1, attempt, fs_read_dir, syscall.
  destruct (w_fault w (w_op w)) as [|t|t]; cbn; [|by repeat case_decide; intros [= <- _]|done].
  unfold eff_read_dir. destruct (is_dir _ _); cbn.
  - intros Hr. eapply (read_records_filed branch _ _ rs w' (listing_record_files branch (w_fs w))); [|exact Hr].
    intros q b Hq Hb. by apply (Hinv q b Hq).
  - case_decide; [|done]. intros [= <- _]. constructor.
Qed.

(** ** Delivery *)
Lemma advance_u32 (p : option DeliveryState) t e :
  (forall d, p = Some d -> is_u32 (d_attempts d)) -> is_u32 (d_attempts (advance p t e)).
Proof.
  intros Hp. destruct p as [d|]; cbn; [|by vm_compute].
  apply u32_saturating_add_u32; [by apply Hp|by vm_compute].
Qed.
Lemma drives_record_outcome branch r c o :
  good_record branch r -> drives st (record_outcome st branch r c o).
Proof.
  intros (_ & Hh & _ & _ & Hd). unfold record_outcome. solve_drives.
  apply drives_update_delivery; [done|]. apply advance_u32. intros d. apply Hd.
Qed.
Lemma drives_deliver_record ch branch r slug name :
  good_record branch r -> drives st (deliver_record st ch branch r slug name).
Proof.
  intros Hr. pose proof (fun c o => drives_record_outcome branch r c o Hr).
  unfold deliver_record. solve_drives; auto.
Qed.
Lemma drives_deliver_records ch branch slug name rs :
  Forall (good_record branch) rs -> drives st (deliver_records st ch branch slug name rs).
Proof.
  induction 1 as [|r rs Hr _ IH]; cbn [deliver_records]; [solve_drives|].
  apply drives_bind; [by apply drives_deliver_record|done].
Qed.
Lemma drives_deliver_branches ch slug name bs : drives st (deliver_branches st ch slug name bs).
Proof.
  induction bs as [|b bs IH]; cbn [deliver_branches]; [solve_drives|].
  apply drives_bind_run; [solve_drives|]. intros w rs w' Hinv Hr%map_err_run.
  apply drives_bind; [|done]. apply drives_deliver_records. by eapply records_filed.
Qed.
Lemma drives_deliver_pending ch root : drives st (deliver_pending st ch root).
Proof.
  pose proof (drives_deliver_branches ch). unfold deliver_pending. solve_drives; auto.
Qed.

(** ** Supervision and completion *)
Lemma drives_supervise_failure p b r reason : drives st (supervise_failure st p b r reason).
Proof. unfold supervise_failure. solve_drives. Qed.
Lemma review_record_wf p b r hv ids : is_u32 (r_attempts r) -> codec_wf (review_record p b r hv ids).
Proof. intros Hr. split_and!; [by vm_compute|done|]. apply map_Forall_empty. Qed.
Lemma drives_settle_harvest p b r ss hv ids :
  is_u32 (r_attempts r) -> drives st (settle_harvest st p b r ss hv ids).
Proof.
  intros Hr. pose proof (drives_supervise_failure p b r).
  pose proof (drives_complete st _ (review_record_wf p b r hv ids Hr)).
  unfold settle_harvest. solve_drives; auto.
Qed.
Lemma drives_try_complete p b r : is_u32 (r_attempts r) -> drives st (try_complete_review st p b r).
Proof.
  intros Hr. pose proof (drives_supervise_failure p b r).
  pose proof (fun ss hv ids => drives_settle_harvest p b r ss hv ids Hr).
  unfold try_complete_review. solve_drives; auto.
Qed.
Definition widths_ok (entries : list (string * BranchState)) : Prop :=
  Forall (fun e => forall r, b_in_flight e.2 = Some r -> is_u32 (r_attempts r)) entries.
Lemma drives_settle_in_flight p entries : widths_ok entries -> drives st (settle_in_flight st p entries).
Proof.
  induction 1 as [|[b bs] entries Hb _ IH]; cbn [settle_in_flight]; [solve_drives|].
  destruct (b_in_flight bs) as [r|] eqn:E; [|done].
  pose proof (drives_try_complete p b r (Hb r E)). pose proof (drives_supervise_failure p b r).
  unfold supervise_timeout. solve_drives; auto.
Qed.
Lemma drives_observe_branch p root b : drives st (observe_branch st p root b).
Proof. unfold observe_branch. solve_drives. Qed.
Lemma drives_observe_branches p root bs : drives st (observe_branches st p root bs).
Proof.
  induction bs as [|b bs IH]; cbn [observe_branches]; [solve_drives|].
  apply drives_bind; [apply drives_observe_branch|done].
Qed.
End Evolution2.

(** ** One repository, and its neighbours *)
Section Scans.
Context `{EnvOk}.

Lemma parent_Some (q p : path) : parent q = Some p -> exists c, q = (p ++ [c])%list.
Proof.
  unfold parent. destruct q as [|c q _] using rev_ind; [done|]. rewrite removelast_snoc.
  intros Hp. exists c. by repeat case_match; simplify_eq.
Qed.
Lemma state_parent (st : Store) dir : parent (state_path st) = Some dir -> st_repo_dir st = dir.
Proof. rewrite state_path_eq, parent_snoc by done. congruence. Qed.

Lemma observer_read_state_wf dir w s w' : observer_read_state dir w = (Ok s, w') -> codec_wf s.
Proof.
  unfold observer_read_state, bind at 1, map_err. destruct (fs_read _ w) as [[bytes|e|] w1]; [|done|done].
  unfold bind, lift. destruct (from_slice bytes) as [e|v]; [done|].
  destruct (decode v) as [s'|] eqn:Ed; [|done]. destruct (negb _); [done|]. intros [= <- _].
  by eapply decode_wf.
Qed.
Lemma state_widths s : codec_wf s -> widths_ok (btree_iter (s_branches s)).
Proof.
  intros [_ Hb]. apply Forall_forall. intros [b bs] He r Hr.
  apply elem_of_btree_iter in He. destruct (Hb b bs He) as [Hfl _]. cbn in Hr. rewrite Hr in Hfl. exact Hfl.
Qed.

Lemma observe_repo_evolves sock dir ch w :
  (forall root, filed_inv (mkStore dir root) w) ->
  exists root, evolves (mkStore dir root) w (observe_repo sock dir ch w).2.
Proof.
  intros Hinv. destruct (observer_read_state dir w) as [rs w1] eqn:E1.
  pose proof (keeps_run _ _ _ _ _ (keeps_observer_read_state (fun _ => False) dir) E1) as F1.
  unfold observe_repo, bind at 1. rewrite E1.
  destruct rs as [s|e|]; [|exists []; by eapply ev_quiet, ev_refl..].
  apply observer_read_state_wf, state_widths in E1 as Hwf.
  exists (path_of_string (default "" (s_git_root s))). eapply ev_quiet; [exact F1|].
  destruct (s_git_root s) as [root|]; [|apply ev_refl]. cbn [default from_option].
  set (git_root := path_of_string root).
  assert (filed_inv (mkStore dir git_root) w1) as Hinv1.
  { eapply filed_inv_frame; [exact F1|tauto|apply Hinv]. }
  revert w1 F1 E1 Hinv1. cut (drives (mkStore dir git_root)
    (let* found := resolve_profile_from_repo_dir dir in
     match found with
     | None => throw (anyhow_msg "no review profile beside the repository state")
     | Some profile =>
         let st := open_store (store_agent_dir dir) git_root in
         if decide (parent (state_path st) <> Some dir)
         then throw (anyhow_msg ("the state's git root " ++ path_display (st_git_root st)
                ++ " does not key this enrolled directory; re-enroll the repository"))
         else
         do* ensure_client sock in
         let* go_on := settle_in_flight st profile (btree_iter (s_branches s)) in
         if go_on then
           let* state := map_err store_err (load st) in
           do* observe_branches st profile git_root (btree_keys (s_branches state)) in
           deliver_pending st ch git_root
         else ret tt
     end)).
  { intros Hd w1 _ _ Hinv1. by apply Hd. }
  apply drives_bind; [solve_drives|]. intros [p|]; [|solve_drives]. cbv zeta.
  case_decide as Hp; [solve_drives|].
  assert (open_store (store_agent_dir dir) git_root = mkStore dir git_root) as ->.
  { unfold open_store. f_equal. apply (state_parent (open_store (store_agent_dir dir) git_root)).
    destruct (decide (parent (state_path (open_store (store_agent_dir dir) git_root)) = Some dir)); tauto. }
  pose proof (drives_settle_in_flight (mkStore dir git_root) p _ Hwf).
  pose proof (drives_observe_branches (mkStore dir git_root) p git_root).
  pose proof (drives_deliver_pending (mkStore dir git_root) ch git_root).
  solve_drives; auto.
Qed.

(** The invariant is about the directory; the recorded root does not matter. *)
Lemma store_inv_root dir root root' seeds w :
  store_inv (mkStore dir root) seeds w -> store_inv (mkStore dir root') seeds w.
Proof.
  intros [Hs Hf]. split; [|exact Hf]. intros s Hd. eapply map_Forall_impl; [exact (Hs s Hd)|].
  intros b bs [Hc Hfl]. by constructor.
Qed.
Lemma observe_repo_inv sock dir ch root seeds w :
  store_inv (mkStore dir root) seeds w -> store_inv (mkStore dir root) seeds (observe_repo sock dir ch w).2.
Proof.
  intros Hinv. destruct (observe_repo_evolves sock dir ch w) as [root' He]; [intros ?; apply Hinv|].
  eapply store_inv_root, evolves_inv; [exact He|]. by eapply store_inv_root.
Qed.

(** A neighbour's observation stays out of this repository's directory. *)
Lemma home_apart (st st' : Store) (root q : path) :
  parent (st_repo_dir st) = Some root -> parent (st_repo_dir st') = Some root ->
  st_repo_dir st <> st_repo_dir st' -> home st q -> ~ home st' q.
Proof.
  intros (c & Hc)%parent_Some (c' & Hc')%parent_Some Hne [r Hr] [r' Hr']. apply Hne.
  rewrite Hc, Hc' in *. rewrite Hr, <- !app_assoc in Hr'. apply app_inv_head in Hr'.
  injection Hr' as -> _. done.
Qed.
Lemma record_file_home (st : Store) q : record_file st q -> home st q.
Proof. intros (mid & c & -> & _)%record_file_shape. by eexists. Qed.
Lemma apart_outside (st st' : Store) (root : path) w w' :
  parent (st_repo_dir st) = Some root -> parent (st_repo_dir st') = Some root ->
  st_repo_dir st <> st_repo_dir st' -> frame (home st') w w' -> outside st w w'.
Proof.
  intros Hp Hp' Hne HF. pose proof (fun q => home_apart st st' root q Hp Hp' Hne) as Hap.
  split; [split|].
  - apply (frame_files _ _ _ HF), Hap. by eexists.
  - intros b h Hh. apply (frame_present _ _ _ HF), Hap, record_file_home. by apply record_path_is_file.
  - intros q Hq. by apply (frame_files _ _ _ HF), Hap, record_file_home.
Qed.

(** ** Whole scans *)
(** What holds of every enrolled repository under [root]. *)
Definition fleet_inv (root : path) (seeds : path -> gset (string * string)) (w : World) : Prop :=
  forall st, parent (st_repo_dir st) = Some root -> store_inv st (seeds (st_repo_dir st)) w.

Lemma fleet_quiet root seeds w w' :
  frame (fun _ => False) w w' -> fleet_inv root seeds w -> fleet_inv root seeds w'.
Proof. intros HF Hinv st Hp. eapply outside_inv; [by apply outside_frame|]. by apply Hinv. Qed.
Definition keeps_fleet (root : path) (seeds : path -> gset (string * string)) {E A} (m : M E A) : Prop :=
  forall w, fleet_inv root seeds w -> fleet_inv root seeds (m w).2.
Lemma keeps_fleet_bind root seeds {E A B} (m : M E A) (f : A -> M E B) :
  keeps_fleet root seeds m -> (forall a, keeps_fleet root seeds (f a)) -> keeps_fleet root seeds (bind m f).
Proof.
  intros Hm Hf w Hw. unfold bind. specialize (Hm w Hw).
  destruct (m w) as [[a|e|] w']; cbn in *; [by apply Hf|done|done].
Qed.
Lemma keeps_fleet_quietly root seeds {E A} (m : M E A) :
  keeps (fun _ => False) m -> keeps_fleet root seeds m.
Proof. intros Hk w. by apply fleet_quiet. Qed.
Lemma keeps_fleet_attempt root seeds {E F A} (m : M E A) :
  keeps_fleet root seeds m -> keeps_fleet root seeds (attempt (F:=F) m).
Proof. intros Hm w Hw. specialize (Hm w Hw). unfold attempt. by destruct (m w) as [[] ?]. Qed.

Lemma observe_repo_fleet root seeds sock dir ch :
  parent dir = Some root -> keeps_fleet root seeds (observe_repo sock dir ch).
Proof.
  intros Hdir w Hinv st Hp. destruct (decide (st_repo_dir st = dir)) as [<-|Hne].
  - destruct st as [d r]. apply observe_repo_inv. by apply (Hinv (mkStore d r)).
  - destruct (observe_repo_evolves sock dir ch w) as [r He].
    { intros r. by apply (Hinv (mkStore dir r)). }
    apply evolves_home in He. eapply outside_inv; [by eapply (apart_outside _ (mkStore dir r))|]. by apply Hinv.
Qed.
Lemma scan_entries_fleet root seeds sock ch entries :
  Forall (fun q => parent q = Some root) entries -> keeps_fleet root seeds (scan_entries sock ch entries).
Proof.
  induction 1 as [|q entries Hq _ IH]; cbn [scan_entries]; [apply keeps_fleet_quietly; solve_keeps|].
  apply keeps_fleet_bind; [apply keeps_fleet_quietly; solve_keeps|]. intros e.
  apply keeps_fleet_bind; [|done]. destruct e; [|apply keeps_fleet_quietly; solve_keeps].
  apply keeps_fleet_bind; [|intros; apply keeps_fleet_quietly; solve_keeps].
  by apply keeps_fleet_attempt, observe_repo_fleet.
Qed.
Definition repos_root (agent_dir : path) : path := join (join agent_dir "big-brother") "repos".

Lemma read_dir_children p w entries w' :
  fs_read_dir p w = (Ok entries, w') -> Forall (fun q => parent q = Some p) entries.
Proof.
  unfold fs_read_dir, syscall. destruct (w_fault w (w_op w)); [|done..]. unfold eff_read_dir.
  destruct (is_dir _ _); [|done]. intros [= <- _]. apply Forall_forall. intros q.
  unfold children. rewrite list_elem_of_In, filter_In, bool_decide_eq_true. tauto.
Qed.
Lemma scan_once_fleet seeds var o : keeps_fleet (repos_root (ob_agent_dir o)) seeds (scan_once var o).
Proof.
  intros w Hinv. unfold scan_once. fold (repos_root (ob_agent_dir o)). unfold bind at 1, map_err.
  destruct (fs_read_dir _ w) as [r w1] eqn:E1.
  pose proof (keeps_run _ _ _ _ _ (keeps_fs_read_dir (fun _ => False) _) E1) as F1.
  apply (fleet_quiet _ _ _ _ F1) in Hinv as Hinv1. destruct r as [entries|e|]; [|done|done].
  apply read_dir_children in E1. revert w1 F1 Hinv1 E1. intros w1 _ Hinv1 Hes. revert w1 Hinv1.
  apply keeps_fleet_bind; [apply keeps_fleet_quietly; solve_keeps|]. intros _.
  apply keeps_fleet_bind; [by apply scan_entries_fleet|]. intros _. apply keeps_fleet_quietly. solve_keeps.
Qed.
Lemma run_observer_fleet seeds n var o :
  keeps_fleet (repos_root (ob_agent_dir o)) seeds (run_observer n var o).
Proof.
  induction n as [|n IH]; cbn [run_observer]; [apply keeps_fleet_quietly; solve_keeps|].
  apply keeps_fleet_bind; [apply keeps_fleet_attempt, scan_once_fleet|]. intros _.
  destruct (ob_once o); [apply keeps_fleet_quietly; solve_keeps|done].
Qed.
End Scans.
