(* ===== verification/Panics.v ===== *)
(** * The service does not panic

    A run of the model ends in [Killed] when the fault schedule kills the
    process, at the store's one [expect], or when a request is made without a
    connection.  Without kills none of these happens: every scan returns. *)
From S2P Require Import Prelude RustStr Json Time World LockDir Profile ProfileProofs.
From S2P Require Import State Store StoreProofs Completion.
From S2P Require Import Client Git Harvest Delivery Init Observer.
#[local] Open Scope string_scope.
#[local] Open Scope Z_scope.

Section Alive.
Context `{Env}.

(** No kill is scheduled; system calls may still fail. *)
Definition calm (w : World) : Prop := forall n t, w_fault w n <> Kill t.

(** [alive Q m]: without kills, [m] returns, and the connection it leaves
    satisfies [Q] as the one it started from did. *)
Definition alive (Q : option Client -> Prop) {E A} (m : M E A) : Prop :=
  forall w, calm w -> Q (m_client (w_mem w)) ->
    (m w).1 <> Killed /\ Q (m_client (w_mem (m w).2)) /\ calm (m w).2.

(** A program that leaves connection and faults alone and returns. *)
Lemma alive_steady Q {E A} (m : M E A) :
  (forall w, calm w -> (m w).1 <> Killed /\ w_mem (m w).2 = w_mem w /\ w_fault (m w).2 = w_fault w) -> alive Q m.
Proof.
  intros Hm w Hc HQ. destruct (Hm w Hc) as (H1 & H2 & H3). split_and!; [done|by rewrite H2|].
  unfold calm. by rewrite H3.
Qed.
Lemma alive_ret Q {E A} (a : A) : alive Q (ret (E:=E) a).
Proof. by apply alive_steady. Qed.
Lemma alive_throw Q {E A} (e : E) : alive Q (throw (A:=A) e).
Proof. by apply alive_steady. Qed.
Lemma alive_lift Q {E A} (m : E + A) : alive Q (lift m).
Proof. apply alive_steady. intros w _. by destruct m. Qed.
Lemma alive_now Q {E} : alive Q (now_ms (E:=E)).
Proof. by apply alive_steady. Qed.
Lemma alive_syscall (Q : option Client -> Prop) {A : Type} (t : Bytes -> fsys -> fsys) (eff : fsys -> (io_kind + A) * fsys) :
  alive Q (syscall t eff).
Proof.
  apply alive_steady. intros w Hc. unfold syscall.
  destruct (w_fault w (w_op w)) as [|b|b] eqn:E; [|done|by destruct (Hc _ _ E)].
  by destruct (eff (w_fs w)) as [[] ?].
Qed.
Lemma alive_bind_run Q {E A B} (m : M E A) (f : A -> M E B) :
  alive Q m -> (forall w a w', m w = (Ok a, w') -> alive Q (f a)) -> alive Q (bind m f).
Proof.
  intros Hm Hf w Hc HQ. unfold bind. destruct (Hm w Hc HQ) as (H1 & H2 & H3).
  destruct (m w) as [[a|e|] w'] eqn:E1; cbn [fst snd] in *; [exact (Hf _ _ _ E1 w' H3 H2)|by split_and!|done].
Qed.
Lemma alive_bind Q {E A B} (m : M E A) (f : A -> M E B) :
  alive Q m -> (forall a, alive Q (f a)) -> alive Q (bind m f).
Proof. intros Hm Hf. apply alive_bind_run; auto. Qed.
Lemma alive_map_err Q {E F A} (g : E -> F) (m : M E A) : alive Q m -> alive Q (map_err g m).
Proof.
  intros Hm w Hc HQ. destruct (Hm w Hc HQ) as (H1 & H2 & H3). unfold map_err.
  by destruct (m w) as [[] ?].
Qed.
Lemma alive_attempt Q {E F A} (m : M E A) : alive Q m -> alive Q (attempt (F:=F) m).
Proof.
  intros Hm w Hc HQ. destruct (Hm w Hc HQ) as (H1 & H2 & H3). unfold attempt.
  by destruct (m w) as [[] ?].
Qed.
Lemma alive_ext Q {E A} (f : Ext -> Ext * A) :
  alive Q (fun w => let '(x, a) := f (w_ext w) in (Ok (E:=E) a, set_ext x w)).
Proof. apply alive_steady. intros w _. by destruct (f (w_ext w)). Qed.
Lemma alive_get_ext Q {E} : alive Q (get_ext (E:=E)).
Proof. by apply alive_steady. Qed.
End Alive.

Create HintDb alive.
#[export] Hint Resolve alive_ret alive_throw alive_lift alive_now alive_syscall alive_get_ext : alive.
Ltac solve_alive :=
  repeat first
    [ progress intros
    | solve [auto 2 with alive]
    | simple apply alive_bind
    | simple apply alive_map_err
    | simple apply alive_attempt
    | match goal with
      | |- alive _ (match ?x with _ => _ end) => destruct x
      | |- alive _ (let _ := ?x in _) => cbv zeta
      end ].

Section AliveStore.
Context `{EnvOk} (Q : option Client -> Prop).
Abbreviation alive m := (alive Q m).

Lemma alive_now_iso {E} : alive (now_iso (E:=E)).
Proof. unfold now_iso. solve_alive. Qed.
Lemma alive_fs_create_dir p : alive (fs_create_dir p).
Proof. intros w. by apply (alive_syscall Q). Qed.
Lemma alive_fs_create_dir_all p : alive (fs_create_dir_all p).
Proof. intros w. by apply (alive_syscall Q). Qed.
Lemma alive_fs_read p : alive (fs_read p).
Proof. apply alive_syscall. Qed.
Lemma alive_fs_write p b : alive (fs_write p b).
Proof. apply alive_syscall. Qed.
Lemma alive_fs_rename p q : alive (fs_rename p q).
Proof. apply alive_syscall. Qed.
Lemma alive_fs_remove_dir p : alive (fs_remove_dir p).
Proof. apply alive_syscall. Qed.
Lemma alive_fs_remove_file p : alive (fs_remove_file p).
Proof. apply alive_syscall. Qed.
Lemma alive_fs_metadata p : alive (fs_metadata p).
Proof. apply alive_syscall. Qed.
Lemma alive_fs_set_mtime p t : alive (fs_set_mtime p t).
Proof. apply alive_syscall. Qed.
Lemma alive_fs_read_dir p : alive (fs_read_dir p).
Proof. apply alive_syscall. Qed.
#[local] Hint Resolve alive_fs_read alive_fs_write alive_fs_rename alive_fs_remove_dir alive_fs_remove_file alive_fs_metadata alive_fs_set_mtime alive_fs_read_dir : alive.
Lemma alive_fs_exists {E} p : alive (fs_exists (E:=E) p).
Proof. unfold fs_exists. solve_alive. Qed.
Lemma alive_fs_is_file {E} p : alive (fs_is_file (E:=E) p).
Proof. unfold fs_is_file. solve_alive. Qed.
Hint Resolve alive_now_iso alive_fs_create_dir alive_fs_create_dir_all alive_fs_exists : alive.
Lemma alive_tolerate m : alive m -> alive (tolerate_not_found m).
Proof. intros Hm. unfold tolerate_not_found. solve_alive. Qed.
Lemma alive_remove_file p : alive (tolerate_not_found (fs_remove_file p)).
Proof. apply alive_tolerate, alive_syscall. Qed.
Lemma alive_remove_dir p : alive (tolerate_not_found (fs_remove_dir p)).
Proof. apply alive_tolerate, alive_syscall. Qed.
Lemma alive_lock_create p o : alive (lock_create p o).
Proof. unfold lock_create, probe_mtime. solve_alive. Qed.
Hint Resolve alive_remove_file alive_remove_dir alive_lock_create : alive.
Lemma alive_judge p s : alive (judge_and_reclaim p s).
Proof. unfold judge_and_reclaim, read_to_string_ok. solve_alive. Qed.
Hint Resolve alive_judge : alive.
Lemma alive_acquire f s : alive (acquire f s).
Proof. unfold acquire, acquire_with_owner. solve_alive. Qed.
Lemma alive_release l : alive (release l).
Proof. unfold release, owner_matches, read_to_string_ok. solve_alive. Qed.
Hint Resolve alive_acquire alive_release : alive.
Lemma alive_acquire_loop n p e : alive (acquire_loop n p e).
Proof. revert e. induction n as [|n IH]; intros e; cbn [acquire_loop]; solve_alive. Qed.
Hint Resolve alive_acquire_loop : alive.

Lemma alive_with_lock {A} st (body : M StateError A) : alive body -> alive (with_lock st body).
Proof.
  intros Hb. unfold with_lock, acquire_lock. apply alive_bind; [solve_alive|]. intros g w Hc HQ.
  unfold guarded. destruct (Hb w Hc HQ) as (H1 & H2 & H3). destruct (body w) as [r w1]. cbn [fst snd] in *.
  destruct (alive_release g w1 H3 H2) as (R1 & R2 & R3). destruct (release g w1) as [[[]|e|] w2]; [..|done];
    by destruct r.
Qed.
Lemma alive_atomic_write p b : alive (atomic_write p b).
Proof. unfold atomic_write. solve_alive. Qed.
Hint Resolve alive_atomic_write : alive.
Lemma alive_read_state st : alive (read_state st).
Proof. unfold read_state. solve_alive. Qed.
Lemma alive_write_state st s : alive (write_state st s).
Proof. unfold write_state. solve_alive. Qed.
Hint Resolve alive_read_state alive_write_state : alive.

Lemma alive_record_observation st b k m : alive (record_observation_failure st b k m).
Proof. apply alive_with_lock. solve_alive. Qed.
Lemma alive_clear_observation st b : alive (clear_observation_failure st b).
Proof. apply alive_with_lock. solve_alive. Qed.
Lemma alive_admit st b h : alive (admit_range st b h).
Proof. unfold admit_range. apply alive_bind; [solve_alive|]. intros _. apply alive_with_lock. solve_alive. Qed.
Lemma alive_retry st b h : alive (retry_attempt st b h).
Proof. apply alive_with_lock. solve_alive. Qed.
Lemma alive_fail st b h r : alive (fail_range st b h r).
Proof. apply alive_with_lock. solve_alive. Qed.
Lemma alive_update_delivery st b h c d : alive (update_delivery st b h c d).
Proof. apply alive_with_lock. cbv zeta. solve_alive. Qed.

(** The [expect] of [complete]: a record's path has a parent directory. *)
Lemma alive_write_record_once st b h r :
  is_revision h = true -> alive (write_record_once (record_path st b h) r).
Proof.
  intros Hh. pose proof (record_parent st b h Hh) as Hp. unfold write_record_once.
  apply alive_bind; [solve_alive|]. intros []; [solve_alive|]. destruct (parent _); [solve_alive|done].
Qed.
Lemma alive_complete_loaded st stray s r :
  is_revision (rec_head r) = true -> alive (complete_loaded st stray s r).
Proof.
  intros Hh. pose proof (alive_write_record_once st (rec_branch r) (rec_head r) r Hh).
  unfold complete_loaded, complete_in_flight, complete_replay. solve_alive.
Qed.
Lemma alive_complete st r : alive (complete st r).
Proof.
  unfold complete. destruct (negb _); [solve_alive|]. apply alive_bind; [solve_alive|]. intros _.
  apply alive_bind_run; [solve_alive|]. intros w [] w' Hv.
  assert (is_revision (rec_head r) = true) as Hh.
  { unfold lift, validate_revision in Hv. by destruct (is_revision (rec_head r)). }
  destruct (is_blank _); [solve_alive|]. apply alive_with_lock, alive_bind; [solve_alive|]. intros s.
  apply alive_bind_run; [unfold stamped; solve_alive|]. intros w1 r' w2 Hst.
  apply stamped_effect in Hst as (_ & t & [= ->]). apply alive_complete_loaded. by destruct (is_blank _).
Qed.
Lemma alive_read_records b ps : alive (read_records b ps).
Proof. induction ps as [|p ps IH]; cbn [read_records]; unfold read_record; solve_alive. Qed.
Lemma alive_records st b : alive (records st b).
Proof. pose proof (alive_read_records b). unfold records. solve_alive. Qed.
End AliveStore.
#[export] Hint Resolve alive_now_iso alive_fs_exists alive_fs_is_file alive_record_observation
  alive_clear_observation alive_admit alive_retry alive_fail alive_update_delivery alive_complete
  alive_records alive_read_state alive_fs_read alive_fs_write alive_fs_read_dir : alive.

(** ** Requests need a connection *)
Section AliveObserver.
Context `{EnvOk}.

Lemma alive_put_client (Q : option Client -> Prop) c : (forall d, Q (Some d)) -> alive Q (put_client c).
Proof. intros HQ w Hc _. split_and!; [done|apply HQ|done]. Qed.
Lemma some_client (d : Client) : is_Some (Some d). Proof. by eexists. Qed.
Lemma alive_request v : alive is_Some (request v).
Proof.
  unfold request. apply alive_bind.
  { intros w Hc [c Hq]. unfold get_client. rewrite Hq. split_and!; [done|cbn; rewrite Hq; by eexists|done]. }
  intros c. cbv zeta. apply alive_bind; [apply alive_put_client, some_client|]. intros _.
  apply alive_bind; [apply (alive_ext _ (fun x => daemon_send x _))|]. intros [lines| | |]; [|solve_alive..].
  destruct (await_reply _ _). apply alive_bind; [apply alive_put_client, some_client|]. solve_alive.
Qed.
Hint Resolve alive_request : alive.
Lemma alive_list_sessions : alive is_Some list_sessions.
Proof. unfold list_sessions. solve_alive. Qed.
Lemma alive_get_messages i : alive is_Some (get_messages i).
Proof. unfold get_messages. solve_alive. Qed.
Lemma alive_get_woken Q : alive Q get_woken.
Proof. by apply alive_steady. Qed.
Lemma alive_set_woken Q s : alive Q (set_woken s).
Proof. intros w Hc HQ. by split_and!. Qed.
Lemma alive_call_git Q {E} p args : alive Q (call_git (E:=E) p args).
Proof. apply (alive_ext _ (fun x => git_run x p args)). Qed.
Lemma alive_call_http Q u h b : alive Q (call_http u h b).
Proof. apply (alive_ext _ (fun x => http_post x u h b)). Qed.
Hint Resolve alive_list_sessions alive_get_messages alive_get_woken alive_set_woken alive_call_git
  alive_call_http : alive.
Lemma alive_git Q p args : alive Q (git p args).
Proof. unfold git. solve_alive. Qed.
Hint Resolve alive_git : alive.
Lemma alive_sync Q p b : alive Q (fetch_and_fast_forward p b).
Proof. unfold fetch_and_fast_forward, current_branch. solve_alive. Qed.
Lemma alive_branch_head Q p b : alive Q (branch_head p b).
Proof. unfold branch_head. solve_alive. Qed.
Lemma alive_origin_slug Q p : alive Q (origin_github_slug p).
Proof. unfold origin_github_slug. solve_alive. Qed.
Lemma alive_woken_insert Q k : alive Q (woken_insert k).
Proof. unfold woken_insert. solve_alive. Qed.
Lemma alive_woken_remove Q k : alive Q (woken_remove k).
Proof. unfold woken_remove. solve_alive. Qed.
Lemma alive_wake n m : alive is_Some (wake_conductor n m).
Proof. unfold wake_conductor. solve_alive. Qed.
Hint Resolve alive_sync alive_branch_head alive_origin_slug alive_woken_insert alive_woken_remove alive_wake : alive.
Lemma alive_kill_targets ss ts : alive is_Some (kill_targets ss ts).
Proof. induction ts as [|t ts IH]; cbn [kill_targets]; solve_alive. Qed.
Hint Resolve alive_kill_targets : alive.
Lemma alive_cancel p r : alive is_Some (cancel_attempt p r).
Proof. unfold cancel_attempt. solve_alive. Qed.
Hint Resolve alive_cancel : alive.
Lemma alive_supervise st p b r reason : alive is_Some (supervise_failure st p b r reason).
Proof. unfold supervise_failure. solve_alive. Qed.
Lemma alive_collect ss h ls a i : alive is_Some (collect_answers ss h ls a i).
Proof. revert a i. induction ls as [|l ls IH]; intros a i; cbn [collect_answers]; solve_alive. Qed.
Lemma alive_rewake p r : alive is_Some (rewake p r).
Proof. unfold rewake. solve_alive. Qed.
Hint Resolve alive_supervise alive_collect alive_rewake : alive.
Lemma alive_try_complete st p b r : alive is_Some (try_complete_review st p b r).
Proof. unfold try_complete_review, settle_harvest. solve_alive. Qed.
Hint Resolve alive_try_complete : alive.
Lemma alive_settle st p es : alive is_Some (settle_in_flight st p es).
Proof.
  induction es as [|[b bs] es IH]; cbn [settle_in_flight]; unfold supervise_timeout, attempt_expired; solve_alive.
Qed.
Lemma alive_observe_branches st p root bs : alive is_Some (observe_branches st p root bs).
Proof. induction bs as [|b bs IH]; cbn [observe_branches]; unfold observe_branch; solve_alive. Qed.
Lemma alive_record_outcome Q st b r c o : alive Q (record_outcome st b r c o).
Proof. unfold record_outcome. solve_alive. Qed.
Lemma alive_send_commit_status Q c s r : alive Q (send_commit_status c s r).
Proof. unfold send_commit_status. solve_alive. Qed.
Lemma alive_send_bark Q c n r : alive Q (send_bark c n r).
Proof. unfold send_bark. solve_alive. Qed.
Hint Resolve alive_record_outcome alive_send_commit_status alive_send_bark : alive.
Lemma alive_deliver_records Q st ch b slug name rs : alive Q (deliver_records st ch b slug name rs).
Proof. induction rs as [|r rs IH]; cbn [deliver_records]; unfold deliver_record; solve_alive. Qed.
Hint Resolve alive_deliver_records : alive.
Lemma alive_deliver_branches Q st ch slug name bs : alive Q (deliver_branches st ch slug name bs).
Proof. induction bs as [|b bs IH]; cbn [deliver_branches]; solve_alive. Qed.
Hint Resolve alive_settle alive_observe_branches alive_deliver_branches : alive.
Lemma alive_deliver_pending Q st ch root : alive Q (deliver_pending st ch root).
Proof. unfold deliver_pending, load. solve_alive. Qed.
Hint Resolve alive_deliver_pending : alive.

(** Connecting. *)
Abbreviation any := (fun _ : option Client => True).
Lemma alive_connect p : alive any (connect p).
Proof.
  unfold connect, connection_error_context. apply alive_bind; [apply (alive_ext _ (fun x => daemon_connect x _))|].
  intros [lines| |]; [|solve_alive..]. destruct (read_line lines) as [[e|v] rest]; [solve_alive|].
  by apply alive_put_client.
Qed.
Lemma alive_ensure_client p : alive any (ensure_client p).
Proof. intros w. unfold ensure_client. destruct (m_client _); [apply (alive_ret any)|apply alive_connect]. Qed.
Lemma ensure_client_connected p w w' : ensure_client p w = (Ok tt, w') -> is_Some (m_client (w_mem w')).
Proof.
  unfold ensure_client. destruct (m_client (w_mem w)) eqn:E; [intros [= <-]; rewrite E; by eexists|].
  unfold connect, bind, call_connect. destruct (daemon_connect _ _) as [x [lines| |]]; [| |done].
  - destruct (read_line lines) as [[e|v] rest]; [done|]. intros [= <-]. by eexists.
  - destruct (connection_error_context _ _ _) as [[] ?]; done.
Qed.
Lemma alive_connected {A} p (f : M anyhow A) : alive is_Some f -> alive any (do* ensure_client p in f).
Proof.
  intros Hf w Hc _. unfold bind. destruct (alive_ensure_client p w Hc I) as (H1 & _ & H3).
  destruct (ensure_client p w) as [[[]|e|] w1] eqn:E1; cbn [fst snd] in *; [|by split_and!|done].
  destruct (Hf w1 H3 (ensure_client_connected _ _ _ E1)) as (? & _ & ?). by split_and!.
Qed.

Lemma alive_observe_repo sock dir ch : alive any (observe_repo sock dir ch).
Proof.
  unfold observe_repo, observer_read_state, resolve_profile_from_repo_dir.
  apply alive_bind; [solve_alive|]. intros s. destruct (s_git_root s); [|solve_alive].
  apply alive_bind; [solve_alive|]. intros [p|]; [|solve_alive]. cbv zeta. case_decide; [solve_alive|].
  apply alive_connected. unfold load. solve_alive.
Qed.
Lemma alive_scan_entries sock ch es : alive any (scan_entries sock ch es).
Proof. pose proof alive_observe_repo. induction es as [|e es IH]; cbn [scan_entries]; solve_alive. Qed.
Lemma alive_scan_once var o : alive any (scan_once var o).
Proof.
  assert (alive any drop_client) by (intros w Hc _; by split_and!).
  pose proof alive_scan_entries. unfold scan_once. solve_alive.
Qed.

End AliveObserver.
#[export] Hint Resolve alive_cancel : alive.
