(* ===== verification/ObserverTheorems.v ===== *)
(** * The guarantees of the watch service

    Fleets of repositories under any number of scans, the completion of a
    review, supervision of failing attempts, admission, and wakes. *)
From S2P Require Import Prelude RustStr Json Time World LockDir Sim Profile ProfileProofs.
From S2P Require Import State Store StoreProofs Completion Machine Filed Availability.
From S2P Require Import Client Git Harvest Delivery Query Init Observer ObserverProofs Panics.
#[local] Open Scope string_scope.
#[local] Open Scope Z_scope.

(** ** A successful completion *)
Section Completing.
Context `{EnvOk} (st : Store).

Lemma fs_exists_present {E} p w w' : fs_exists (E:=E) p w = (Ok true, w') -> present w' p.
Proof.
  unfold fs_exists, bind, attempt, fs_metadata, syscall, present.
  destruct (w_fault w (w_op w)); cbn; [|done..]. unfold eff_metadata.
  destruct (w_fs w !! p) eqn:E1; cbn; [|done]. intros [= <-]. cbn. by rewrite E1.
Qed.

Lemma complete_loaded_replayed stray s record w h p w' :
  complete_loaded st stray s record w = (Ok (AlreadyComplete h p), w') ->
  present w' (record_path st (rec_branch record) (rec_head record)).
Proof.
  assert (forall bs range rp, ~ complete_in_flight st s bs range record rp w = (Ok (AlreadyComplete h p), w')) as Hif.
  { intros bs range rp Hr. unfold complete_in_flight in Hr.
    apply bind_ok in Hr as (? & ? & _ & Hr). apply bind_ok in Hr as (? & ? & _ & Hr).
    by apply bind_ok in Hr as (? & ? & _ & Hr). }
  assert (forall bs rp, complete_replay bs record rp stray w = (Ok (AlreadyComplete h p), w') -> present w' rp) as Hrep.
  { intros bs rp. unfold complete_replay. case_decide; [|done]. intros Hr.
    apply bind_ok in Hr as ([] & w1 & He & Hr); [|done]. injection Hr as _ _ <-. by eapply fs_exists_present. }
  unfold complete_loaded. destruct (s_branches s !! _) as [bs|]; [|done].
  destruct (b_in_flight bs) as [range|]; [|apply Hrep].
  destruct (range_matches range record); [|apply Hrep]. intros Hr. by destruct (Hif _ _ _ Hr).
Qed.
Lemma complete_replayed record w h p w' :
  codec_wf record -> complete st record w = (Ok (AlreadyComplete h p), w') ->
  present w' (record_path st (rec_branch record) (rec_head record)).
Proof.
  intros Hwf Hrun. destruct (complete_refused st record w Hwf) as [Hreq|[e He]]; [|congruence].
  rewrite complete_unguarded in Hrun by done.
  apply with_lock_run in Hrun as [[[] _]|(w1 & r1 & w2 & _ & Hb & F2 & [<-|?])]; [|done].
  apply bind_ok in Hb as (s & w3 & _ & Hb). apply bind_ok in Hb as (record' & w4 & Hst & Hb).
  apply stamped_effect in Hst as (_ & t & [= ->]).
  apply complete_loaded_replayed in Hb. apply (frame_present _ _ _ F2).
  - apply record_not_locked, Hreq.
  - by destruct (is_blank _).
Qed.

(** A completion that returns leaves the record on disk and the cursor on the
    reviewed head. *)
Lemma complete_ok record w a w' :
  codec_wf record -> complete st record w = (Ok a, w') ->
  present w' (record_path st (rec_branch record) (rec_head record)) /\
  exists s bs, on_disk st w' s /\ s_branches s !! rec_branch record = Some bs
    /\ b_cursor bs = Some (rec_head record).
Proof.
  intros Hwf Hrun. destruct (complete_refused st record w Hwf) as [Hreq|[e He]]; [|congruence].
  destruct (complete_implements st record Hreq w _ w' Hrun) as [[[] _]|(s & k & o & Hd & _ & (n & th & ->) & Ha)].
  unfold spec_complete in Ha. destruct (s_branches s !! rec_branch record) as [[c fl lf lo up]|] eqn:Eb; [|by destruct Ha].
  assert (forall x, agrees st w (Ok a) w'
      (if decide (c = Some (rec_head record))
       then if th then inr (AlreadyComplete (rec_head record) x, None)
            else inl (StrayCompletion (rec_branch record) (rec_base record) (rec_head record))
       else inl (StrayCompletion (rec_branch record) (rec_base record) (rec_head record))) ->
    present w' (record_path st (rec_branch record) (rec_head record)) /\
    exists s bs, on_disk st w' s /\ s_branches s !! rec_branch record = Some bs
      /\ b_cursor bs = Some (rec_head record)) as Hrep.
  { intros x. case_decide as Hc; [|by intros []]. destruct th; [|by intros []]. intros [[[= ->]|?] Hs]; [|done].
    split; [by eapply complete_replayed|]. exists s. eexists. split; [by eapply on_disk_same|]. by split. }
  destruct fl as [r|]; [|by eapply Hrep]. destruct (range_matches r record); [|by eapply Hrep].
  destruct Ha as [_ Hd']. split.
  - destruct (complete_lands st record w _ w' Hreq Hrun) as [Hs|(rec' & Hf & Hp & _)].
    + apply (on_disk_same st _ _ _ Hs) in Hd. pose proof (on_disk_fun st _ _ _ Hd Hd') as Heq.
      rewrite Heq in Eb. cbn in Eb. by rewrite lookup_insert_eq in Eb.
    + by destruct (filed_as_same _ _ Hf) as (<- & _ & <- & _).
  - eexists _, _. split; [exact Hd'|]. cbn. by rewrite lookup_insert_eq.
Qed.
End Completing.

Section Theorems.
Context `{EnvOk}.

(** C2: whatever the daemon, git and the delivery servers answer, and wherever
    system calls fail or the process dies, any number of scans keeps the
    invariant of every repository under the fleet's root: cursors are seeds or
    have their record on disk, ranges in flight start at the cursor, and every
    record file is filed under its own head. *)
Theorem scans_keep_fleet seeds n var options w :
  fleet_inv (repos_root (ob_agent_dir options)) seeds w ->
  fleet_inv (repos_root (ob_agent_dir options)) seeds (run_observer n var options w).2.
Proof. apply run_observer_fleet. Qed.

(** Observing one repository writes nothing outside that repository's own
    directory, whatever git root its document claims. *)
Theorem observation_stays_home socket dir channels w q :
  filed_inv (mkStore dir []) w -> ~ home (mkStore dir []) q ->
  file_at (observe_repo socket dir channels w).2 q = file_at w q.
Proof.
  intros Hinv Hq. destruct (observe_repo_evolves socket dir channels w) as [root He]; [intros ?; apply Hinv|].
  by apply evolves_home in He as HF; apply (frame_files _ _ _ HF).
Qed.


(** ** Supervision *)

(** Programs that talk to the daemon and do nothing else. *)
Definition talked (w w' : World) : Prop := exists x m, w' = set_mem m (set_ext x w).
Definition talks {E A} (m : M E A) : Prop := forall w, talked w (m w).2.
Lemma talked_refl w : talked w w.
Proof. exists (w_ext w), (w_mem w). by destruct w. Qed.
Lemma talked_trans w1 w2 w3 : talked w1 w2 -> talked w2 w3 -> talked w1 w3.
Proof. intros (x & m & ->) (x' & m' & ->). by exists x', m'. Qed.
Lemma talks_bind {E A B} (m : M E A) (f : A -> M E B) :
  talks m -> (forall a, talks (f a)) -> talks (bind m f).
Proof.
  intros Hm Hf w. unfold bind. specialize (Hm w). destruct (m w) as [[a|e|] w']; [|done|done].
  eapply talked_trans; [done|]. apply Hf.
Qed.
Lemma talks_attempt {E F A} (m : M E A) : talks m -> talks (attempt (F:=F) m).
Proof. intros Hm w. specialize (Hm w). unfold attempt. by destruct (m w) as [[] ?]. Qed.
Lemma talks_pure {E A} (r : World -> result E A) : talks (fun w => (r w, w)).
Proof. intros w. apply talked_refl. Qed.
Lemma talks_request v : talks (request v).
Proof.
  unfold request. apply talks_bind; [intros w; unfold get_client; destruct (m_client _); apply talked_refl|].
  intros c. cbv zeta. apply talks_bind; [intros w; by exists (w_ext w); eexists|]. intros _.
  apply talks_bind; [intros w; unfold call_send; destruct (daemon_send _ _); by eexists _, _|].
  intros [lines| | |]; [|apply talks_pure..]. destruct (await_reply _ _).
  apply talks_bind; [intros w; by exists (w_ext w); eexists|]. intros _. destruct s; apply talks_pure.
Qed.
Lemma kill_targets_run ss ts : talks (kill_targets ss ts) /\ forall w e, (kill_targets ss ts w).1 <> Err e.
Proof.
  induction ts as [|t ts [IH1 IH2]]; cbn [kill_targets]; [split; [apply talks_pure|done]|].
  set (one := match _ with Some _ => _ | None => _ end).
  assert (talks one /\ forall w e, (one w).1 <> Err e) as [Ht He].
  { unfold one. destruct (_ ≫= row_id) as [id|]; [|split; [apply talks_pure|done]]. split.
    - apply talks_bind; [apply talks_attempt, talks_request|]. intros _. apply talks_pure.
    - intros w e. unfold bind, attempt. by destruct (request _ w) as [[] ?]. }
  split; [by apply talks_bind|]. intros w e. unfold bind. specialize (He w).
  destruct (one w) as [[[]|e'|] w1]; [apply IH2|by destruct (He e')|done].
Qed.
Lemma cancel_attempt_ok profile range w :
  calm w -> is_Some (m_client (w_mem w)) ->
  exists w1, cancel_attempt profile range w = (Ok tt, w1) /\ talked w w1.
Proof.
  intros Hc Hq. destruct (alive_cancel profile range w Hc Hq) as (Hk & _).
  assert (talks (cancel_attempt profile range) /\ forall e, (cancel_attempt profile range w).1 <> Err e) as [Ht He].
  { unfold cancel_attempt, list_sessions. split.
    - apply talks_bind; [apply talks_attempt, talks_bind; [apply talks_request|intros; apply talks_pure]|].
      intros [e|ss]; [apply talks_pure|]. apply kill_targets_run.
    - intros e. unfold bind at 1, attempt.
      destruct (bind (request _) _ w) as [[ss|e'|] w1]; [apply kill_targets_run|done|done]. }
  specialize (Ht w). destruct (cancel_attempt profile range w) as [[[]|e|] w1]; [by eauto|by destruct (He e)|done].
Qed.
Lemma talked_ready st w w' : talked w w' -> ready st w -> ready st w'.
Proof. intros (x & m & ->) []. by constructor. Qed.
Lemma talked_on_disk st w w' s : talked w w' -> on_disk st w s -> on_disk st w' s.
Proof. by intros (x & m & ->). Qed.

Lemma fail_in_flight st branch range reason w s bs :
  ready st w -> on_disk st w s -> s_branches s !! branch = Some bs -> b_in_flight bs = Some range ->
  exists w' t u, fail_range st branch (r_head range) reason w = (Ok tt, w') /\ ready st w' /\
    on_disk st w' (with_git_root st (set_branch branch
      (mkBranch (b_cursor bs) None
         (Some (mkFailure (r_base range) (r_head range) (r_attempts range) reason t))
         (b_last_observation_failure bs) u) s)).
Proof.
  intros Hr Hd Hb Hf.
  destruct (exact_run st _ _ (fail_range_implements st branch (r_head range) reason)
              (sure_fail st (rd_repo _ _ Hr) branch (r_head range) reason) w s Hr Hd) as (k & _ & Hres & Hd' & Hr').
  destruct (fail_range _ _ _ _ w) as [r w']. cbn [fst snd] in *. revert Hres Hd'. unfold spec_fail. rewrite Hb.
  destruct bs as [c fl lf lo up]. cbn in Hf. subst fl. rewrite String.eqb_refl. cbn. intros -> Hd'. by eauto 7.
Qed.
Lemma retry_in_flight st branch range w s bs :
  ready st w -> on_disk st w s -> s_branches s !! branch = Some bs -> b_in_flight bs = Some range ->
  exists w' n t u, retry_attempt st branch (r_head range) w = (Ok n, w') /\ ready st w' /\
    on_disk st w' (with_git_root st (set_branch branch
      (mkBranch (b_cursor bs) (Some (rearmed range t)) (b_last_failure bs) (b_last_observation_failure bs) u) s)).
Proof.
  intros Hr Hd Hb Hf.
  destruct (exact_run st _ _ (retry_attempt_implements st branch (r_head range))
              (sure_retry st (rd_repo _ _ Hr) branch (r_head range)) w s Hr Hd) as (k & _ & Hres & Hd' & Hr').
  destruct (retry_attempt _ _ _ w) as [r w']. cbn [fst snd] in *. revert Hres Hd'. unfold spec_retry. rewrite Hb.
  destruct bs as [c fl lf lo up]. cbn in Hf. subst fl. rewrite String.eqb_refl. cbn. intros -> Hd'. by eauto 8.
Qed.

(** C35 (ADR 0028): a failing attempt is supervised to its ceiling.  At the
    ceiling the range is closed with its reason and attempt count and the
    branch becomes idle at the same cursor; below it the same range is
    re-armed with one more attempt, never above the ceiling, and its wake
    quota is handed back. *)
Theorem supervision_outcome st profile branch range reason w s bs :
  ready st w -> is_Some (m_client (w_mem w)) -> on_disk st w s ->
  s_branches s !! branch = Some bs -> b_in_flight bs = Some range -> is_u32 (max_attempts profile) ->
  let w' := (supervise_failure st profile branch range reason w).2 in
  (supervise_failure st profile branch range reason w).1 = Ok tt /\ ready st w' /\
  exists s' bs' t, on_disk st w' s' /\ s_branches s' !! branch = Some bs' /\ b_cursor bs' = b_cursor bs /\
    if max_attempts profile <=? r_attempts range
    then b_in_flight bs' = None /\
         b_last_failure bs' = Some (mkFailure (r_base range) (r_head range) (r_attempts range) reason t)
    else b_in_flight bs' = Some (mkRange (r_base range) (r_head range) (r_admitted_at range) (r_attempts range + 1) t)
         /\ r_attempts range + 1 <= max_attempts profile
         /\ (p_session_name profile, r_head range) ∉ m_woken (w_mem w').
Proof.
  intros Hr Hq Hd Hb Hf Hmax. cbv zeta.
  destruct (cancel_attempt_ok profile range w) as (w1 & Hc & Ht); [|done|].
  { intros n t. by rewrite (rd_quiet _ _ Hr). }
  apply (talked_ready st) in Ht as Hr1; [|done]. apply (talked_on_disk st _ _ s) in Ht as Hd1; [|done].
  assert (is_u32 (r_attempts range)) as [Hlo _].
  { apply on_disk_loadable in Hd as [_ [_ Hw]]. destruct (Hw branch bs Hb) as [Hfl _]. by rewrite Hf in Hfl. }
  destruct Hmax as [_ Hmax].
  destruct (Z.leb_spec (max_attempts profile) (r_attempts range)) as [Hle|Hlt].
  - destruct (fail_in_flight st branch range reason w1 s bs) as (w2 & t & u & Hrun & Hr2 & Hd2); [done..|].
    assert (supervise_failure st profile branch range reason w = (Ok tt, w2)) as ->.
    { unfold supervise_failure, bind. rewrite Hc. apply Z.leb_le in Hle as ->. unfold map_err. by rewrite Hrun. }
    split_and!; [done|done|]. eexists _, _, t. split; [exact Hd2|]. cbn. by rewrite lookup_insert_eq.
  - destruct (retry_in_flight st branch range w1 s bs) as (w2 & n & t & u & Hrun & Hr2 & Hd2); [done..|].
    assert (exists m, supervise_failure st profile branch range reason w = (Ok tt, set_mem m w2)
              /\ (p_session_name profile, r_head range) ∉ m_woken m) as (m & -> & Hm).
    { unfold supervise_failure, bind. rewrite Hc. apply Z.leb_gt in Hlt as ->. unfold map_err. rewrite Hrun.
      eexists. split; [reflexivity|]. cbn. set_solver. }
    assert (rearmed range t = mkRange (r_base range) (r_head range) (r_admitted_at range) (r_attempts range + 1) t)
      as Hre.
    { unfold rearmed. f_equal. unfold u32_wrapping_add, u32_max in *. apply Z.mod_small. lia. }
    rewrite Hre in Hd2. split_and!; [done|by destruct Hr2; constructor|]. eexists _, _, t. split; [exact Hd2|].
    cbn -[Z.add]. rewrite lookup_insert_eq. split_and!; [done|done|done|lia|done].
Qed.

(** ** Admission and wakes *)

(** C38: a branch whose worktree cannot be brought up to date (no fast
    forward, local changes, another branch checked out) is not reviewed: no
    branch's cursor or range in flight moves, and when the observation returns
    the document says why. *)
Theorem unsynced_branch_waits st profile root branch e w w1 s s' :
  fetch_and_fast_forward root branch w = (Err e, w1) -> on_disk st w s ->
  on_disk st (observe_branch st profile root branch w).2 s' ->
  (forall b, b_cursor (branch_entry b s') = b_cursor (branch_entry b s) /\
             b_in_flight (branch_entry b s') = b_in_flight (branch_entry b s)) /\
  ((observe_branch st profile root branch w).1 = Ok tt ->
   exists t, b_last_observation_failure (branch_entry branch s')
             = Some (mkObsFailure (sync_error_kind e) (sync_error_display e) t)).
Proof.
  intros Hsync Hd. unfold observe_branch, bind, attempt. rewrite Hsync.
  pose proof (keeps_run _ _ _ _ _ (keeps_sync (fun _ => False) root branch) Hsync) as F1.
  assert (on_disk st w1 s) as Hd1.
  { eapply on_disk_same; [|exact Hd]. apply (frame_files _ _ _ F1). tauto. }
  unfold map_err. destruct (record_observation_failure st branch _ _ w1) as [r w2] eqn:E. intros Hd2.
  apply record_observation_failure_implements in E as [[Hi Hs]|(s0 & k & o & Hd0 & _ & -> & Ha)].
  - assert (s' = s) as ->.
    { eapply on_disk_fun; [|eapply on_disk_same; [exact Hs|exact Hd1]]. by destruct r. }
    split; [done|]. by destruct r.
  - rewrite (on_disk_fun st _ _ _ Hd0 Hd1) in Ha. destruct Ha as [Hr Ha].
    assert (s' = with_git_root st (set_branch branch (mkBranch (b_cursor (branch_entry branch s))
      (b_in_flight (branch_entry branch s)) (b_last_failure (branch_entry branch s))
      (Some (mkObsFailure (sync_error_kind e) (sync_error_display e) (timestamps w1 k 0)))
      (timestamps w1 k 1)) s)) as ->.
    { eapply on_disk_fun; [|exact Ha]. by destruct r. }
    unfold branch_entry, with_git_root, set_branch. cbn [s_branches]. split.
    + intros b. destruct (decide (b = branch)) as [->|Hne]; [by rewrite lookup_insert_eq|].
      by rewrite lookup_insert_ne.
    + intros _. rewrite lookup_insert_eq. by eexists.
Qed.

Lemma request_woken v w : m_woken (w_mem (request v w).2) = m_woken (w_mem w).
Proof.
  unfold request, bind, get_client. destruct (m_client (w_mem w)); [|done]. cbn. unfold call_send.
  destruct (daemon_send _ _) as [x [lines| | |]]; cbn; [|done..].
  destruct (await_reply _ _) as [[e|v'] rest]; done.
Qed.

(** Within one attempt the conductor is woken at most once: a range
    already woken sends nothing; a wake that is refused hands its quota back,
    one that is accepted keeps it. *)
Theorem wake_at_most_once profile range w :
  let key := (p_session_name profile, r_head range) in
  (key ∈ m_woken (w_mem w) ->
     (rewake profile range w).1 = Ok tt /\ w_ext (rewake profile range w).2 = w_ext w) /\
  ((rewake profile range w).1 = Ok tt -> key ∈ m_woken (w_mem (rewake profile range w).2)) /\
  (forall e, (rewake profile range w).1 = Err e -> key ∉ m_woken (w_mem (rewake profile range w).2)).
Proof.
  cbv zeta. unfold rewake, woken_insert, woken_remove, get_woken, set_woken, wake_conductor, bind, attempt, map_err.
  cbn [fst snd]. set (key := (p_session_name profile, r_head range)). unfold ret.
  case_bool_decide as Hk; cbn [fst snd].
  - set (w1 := set_mem _ w). set (msg := VObject _). pose proof (request_woken msg w1) as Hw.
    destruct (request msg w1) as [[v|e|] w2]; cbn in *; split_and!; try done; intros; rewrite ?Hw; set_solver.
  - cbn. split_and!; [done| |done]. intros _. set_solver.
Qed.

(** An attempt expires exactly when its timeout has passed since its
    recorded start, for every instant the timestamps can express. *)
Theorem attempt_expires_on_time profile range w t :
  0 <= t < year_10000_ms -> r_attempt_started_at range = iso_from_unix_ms t ->
  attempt_expired profile range w
  = (Ok (attempt_timeout profile <=? Z.max 0 (w_clock w (w_tick w) - t)), bump_tick w).
Proof.
  intros Ht Hs. unfold attempt_expired, attempt_started. rewrite Hs.
  assert (is_empty (iso_from_unix_ms t) = false) as ->.
  { pose proof (iso_back t Ht) as Hb. by destruct (iso_from_unix_ms t). }
  by rewrite iso_back.
Qed.

(** An attempt fails for want of a reply only on a layer that is missing,
    that its child was seen to leave unanswered, and whose child is no longer
    resident. *)
Theorem no_reply_confirmed missing no_reply head sessions layer :
  layer ∈ confirmed_no_reply_layers missing no_reply head sessions <->
  layer ∈ missing /\ layer ∈ no_reply /\
  forall row, row ∈ sessions -> get_str "sessionName" row <> Some (layer ++ "-" ++ head).
Proof.
  unfold confirmed_no_reply_layers. rewrite list_elem_of_In, !filter_In, bool_decide_eq_true, negb_true_iff, <- list_elem_of_In.
  split.
  - intros [[Hm Hn] Hs]. split_and!; [done|done|]. intros row Hrow Hname.
    assert (existsb (named (layer_child layer head)) sessions = true); [|congruence].
    apply existsb_exists. exists row. split; [by apply list_elem_of_In|]. unfold named. rewrite Hname.
    apply String.eqb_refl.
  - intros (Hm & Hn & Hs). split_and!; [done|done|]. apply Bool.not_true_is_false.
    intros (row & Hrow & Hname)%existsb_exists. apply (Hs row); [by apply list_elem_of_In|].
    unfold named in Hname. destruct (get_str "sessionName" row) as [n|]; [|done].
    apply String.eqb_eq in Hname as ->. done.
Qed.

(** A dispatch anywhere in the transcript hides a later turn that died. *)
Lemma dead_turn_hidden before row after dead :
  row_dispatches row = true ->
  conductor_turn_dead (VObject [("messages", VArray (before ++ row :: after ++ [dead])%list)]) = false.
Proof.
  intros Hrow. unfold conductor_turn_dead. cbn.
  assert (existsb row_dispatches (before ++ row :: after ++ [dead])%list = true) as ->; [|done].
  apply existsb_exists. exists row. split; [|done]. apply in_or_app. right. by left.
Qed.
End Theorems.
