(* ===== verification/InitTheorems.v ===== *)
(** * The guarantees of enrollment *)
From S2P Require Import Prelude RustStr Json Time World LockDir Sim Profile ProfileProofs.
From S2P Require Import State Store StoreProofs Completion Client Git Query Init ObserverProofs.
#[local] Open Scope string_scope.
#[local] Open Scope Z_scope.

(** ** Built profiles *)
Lemma assign_layer_names name model ls :
  layer_name <$> assign_layer name model ls
  = if decide (name ∈ layer_name <$> ls) then layer_name <$> ls else ((layer_name <$> ls) ++ [name])%list.
Proof.
  induction ls as [|l ls IH]; [done|]. cbn [assign_layer].
  destruct (String.eqb_spec (layer_name l) name) as [Hl|Hl].
  - rewrite decide_True; [cbn; by rewrite Hl|]. rewrite <- Hl. by left.
  - cbn [fmap list_fmap]. rewrite IH. destruct (decide (name ∈ layer_name <$> ls)).
    + by rewrite decide_True by (by right).
    + rewrite decide_False; [done|]. by intros [?|?]%elem_of_cons.
Qed.
Lemma assign_layer_unique name model ls :
  NoDup (layer_name <$> ls) -> NoDup (layer_name <$> assign_layer name model ls).
Proof.
  intros Hu. rewrite assign_layer_names. case_decide; [done|]. apply NoDup_app. split_and!; [done| |by apply NoDup_singleton].
  intros x Hx ->%list_elem_of_singleton. done.
Qed.
Lemma assign_layer_each (P : ReviewLayer -> Prop) name model ls :
  (forall l, layer_name l = name -> layer_model_sel l = model -> P l) ->
  Forall P ls -> Forall P (assign_layer name model ls).
Proof.
  intros HP. induction 1 as [|l ls Hl Hls IH]; cbn [assign_layer]; [by constructor; [apply HP|]|].
  destruct (String.eqb_spec (layer_name l) name); constructor; auto.
Qed.
Lemma assign_layer_find name model ls key :
  layer_model_sel <$> find_first (fun c => String.eqb (layer_name c) key) (assign_layer name model ls)
  = if String.eqb name key then Some model
    else layer_model_sel <$> find_first (fun c => String.eqb (layer_name c) key) ls.
Proof.
  unfold find_first. induction ls as [|l ls IH]; cbn [assign_layer List.find].
  - cbn. by destruct (String.eqb name key).
  - destruct (String.eqb_spec (layer_name l) name) as [->|Hl]; cbn [List.find layer_name].
    + cbn. by destruct (String.eqb name key).
    + destruct (String.eqb_spec (layer_name l) key) as [<-|]; [|done].
      destruct (String.eqb_spec name (layer_name l)); [congruence|done].
Qed.

(** The last model assigned to a layer, if any. *)
Definition assigned (assignments : list (string * string)) (key : string) : option string :=
  snd <$> find_last (fun nm => String.eqb (fst nm) key) assignments.

Definition nonblank_pair (nm : string * string) : Prop := is_blank (fst nm) = false /\ is_blank (snd nm) = false.

Section Built.
Context (options : InitOptions) (git_root : path).

Lemma assign_layers_snoc xs x ls :
  assign_layers (xs ++ [x])%list ls = assign_layer (fst x) (snd x) (assign_layers xs ls).
Proof. unfold assign_layers. by rewrite foldl_app. Qed.
Lemma assign_layers_unique xs ls :
  NoDup (layer_name <$> ls) -> NoDup (layer_name <$> assign_layers xs ls).
Proof.
  intros Hu. induction xs as [|x xs IH] using rev_ind; [done|]. rewrite assign_layers_snoc.
  by apply assign_layer_unique.
Qed.
Lemma assign_layers_each (P : ReviewLayer -> Prop) xs ls :
  (forall n m l, (n, m) ∈ xs -> layer_name l = n -> layer_model_sel l = m -> P l) ->
  Forall P ls -> Forall P (assign_layers xs ls).
Proof.
  intros HP Hls. induction xs as [|[n m] xs IH] using rev_ind; [done|]. rewrite assign_layers_snoc.
  apply assign_layer_each.
  - intros l. apply HP. apply elem_of_app. right. by left.
  - apply IH. intros n' m' l Hin. apply HP. apply elem_of_app. by left.
Qed.
Lemma assign_layers_nonempty xs ls : ls <> [] -> assign_layers xs ls <> [].
Proof.
  intros Hls. induction xs as [|x xs IH] using rev_ind; [done|]. rewrite assign_layers_snoc.
  destruct (assign_layers xs ls); [done|]. cbn. by destruct (String.eqb _ _).
Qed.
Lemma assign_layers_find xs ls key :
  layer_model_sel <$> find_first (fun c => String.eqb (layer_name c) key) (assign_layers xs ls)
  = match assigned xs key with
    | Some m => Some m
    | None => layer_model_sel <$> find_first (fun c => String.eqb (layer_name c) key) ls
    end.
Proof.
  unfold assigned, find_last. induction xs as [|[n m] xs IH] using rev_ind; [done|].
  rewrite assign_layers_snoc, assign_layer_find, rev_app_distr. cbn. unfold find_first. cbn.
  destruct (String.eqb n key); [done|]. exact IH.
Qed.

(** The profile enrollment builds is valid whenever the operator's values
    are not blank and the limits not zero; every layer's model is the last
    one assigned to it, and the main model for the three default layers when
    none is. *)
Theorem built_profile_valid main_model profile :
  i_main_model options = Some main_model -> build_profile options git_root = inr profile ->
  is_blank main_model = false -> (forall n, i_session_name options = Some n -> is_blank n = false) ->
  Forall nonblank_pair (i_layers options) ->
  i_attempt_timeout_seconds options <> Some 0 -> i_max_attempts options <> Some 0 ->
  profile_ok profile /\
  forall key, layer_model profile key
    = match assigned (i_layers options) key with
      | Some m => Some m
      | None => if decide (key ∈ DEFAULT_LAYERS) then Some main_model else None
      end.
Proof.
  intros Hm. unfold build_profile. rewrite Hm. intros [= <-] Hmm Hs Hl Ht Ha. split.
  - constructor; cbn [p_version p_session_name p_layers p_attempt_timeout_seconds p_max_attempts]; try done.
    + destruct (i_session_name options) as [n|]; [by apply Hs|]. change (is_blank (default_session_name git_root) = false).
      apply seen_not_blank. reflexivity.
    + by apply assign_layers_nonempty.
    + apply assign_layers_each.
      * intros n m l Hin -> ->. by apply (proj1 (Forall_forall _ _) Hl (n, m)).
      * by repeat constructor.
    + apply assign_layers_unique. cbn. apply (bool_decide_unpack _). by vm_compute.
  - intros key. unfold layer_model. cbn [p_layers]. rewrite assign_layers_find.
    destruct (assigned _ key); [done|]. unfold find_first. case_decide as Hk.
    + apply elem_of_cons in Hk as [->|[->|[->|[]%elem_of_nil]%elem_of_cons]%elem_of_cons]; done.
    + destruct (List.find _ _) as [l|] eqn:Hf; [|done]. destruct Hk.
      apply find_some in Hf as [Hin%list_elem_of_In <-%String.eqb_eq].
      change (l ∈ (fun name => mkLayer name main_model) <$> DEFAULT_LAYERS) in Hin.
      by apply list_elem_of_fmap in Hin as (n & -> & Hn).
Qed.
End Built.

(** ** Whole enrollments *)
Section Enrollment.
Context `{EnvOk}.

Lemma keeps_git_default (S : path -> Prop) p : keeps S (default_branch p).
Proof.
  assert (forall bs, keeps S (first_local_branch p bs)) as Hl.
  { induction bs as [|b bs IH]; cbn [first_local_branch]; solve_keeps. }
  unfold default_branch. solve_keeps.
Qed.
Lemma keeps_tracked_branch (S : path -> Prop) o p : keeps S (tracked_branch o p).
Proof. pose proof (keeps_git_default S). unfold tracked_branch. solve_keeps. Qed.
Hint Resolve keeps_tracked_branch : keeps.

(** Enrollment writes nothing before the daemon has answered: either no
    file changed, or everything up to a successful connection left every file
    as it was. *)
Theorem enrollment_connects_first options w :
  frame (fun _ => False) w (run_init options w).2 \/
  exists w0 w1, frame (fun _ => False) w w0 /\ connect (i_socket_path options) w0 = (Ok tt, w1).
Proof.
  unfold run_init, bind at 1. destruct (find_git_repo_root _ w) as [r1 w1] eqn:E1.
  apply (keeps_run _ _ _ _ _ (keeps_find_root (fun _ => False) _)) in E1 as F1.
  destruct r1 as [[root|]|e|]; [|by left..]. unfold bind at 1.
  destruct (tracked_branch options root w1) as [r2 w2] eqn:E2.
  apply (keeps_run _ _ _ _ _ (keeps_tracked_branch (fun _ => False) _ _)) in E2 as F2.
  pose proof (frame_trans _ _ _ _ F1 F2) as F12. destruct r2 as [branch|e|]; [|by left..]. unfold bind at 1, map_err at 1.
  destruct (branch_head root branch w2) as [r3 w3] eqn:E3.
  apply (keeps_run _ _ _ _ _ (keeps_branch_head (fun _ => False) _ _)) in E3 as F3.
  pose proof (frame_trans _ _ _ _ F12 F3) as F13. destruct r3 as [head|e|]; [|by left..]. unfold bind at 1, map_err at 1.
  destruct (connect (i_socket_path options) w3) as [r4 w4] eqn:E4. apply (keeps_run _ _ _ _ _ (keeps_connect (fun _ => False) _)) in E4 as F4.
  destruct r4 as [[]|e|]; [right; by eauto|..]; left; by eapply frame_trans.
Qed.

Lemma load_profile_valid p w profile w' : load_profile_at p w = (Ok (Some profile), w') -> profile_ok profile.
Proof.
  unfold load_profile_at. intros Hr. apply bind_ok in Hr as ([e|bytes] & w1 & _ & Hr); [by case_decide|].
  apply bind_ok in Hr as (v & w2 & _ & Hr). apply bind_ok in Hr as (p' & w3 & _ & Hr).
  apply bind_ok in Hr as ([] & w4 & Hv & Hr). injection Hr as -> _.
  apply (validate_iff profile p). unfold lift in Hv. by destruct (validate profile p) as [|[]].
Qed.
Lemma ensure_profile_valid options root w profile pp w' :
  ensure_profile options root w = (Ok (profile, pp), w') -> profile_ok profile.
Proof.
  assert (forall a c w1 w2, resolve_profile a c w1 = (Ok (Some profile), w2) -> profile_ok profile) as Hres.
  { intros a c w1 w2 Hr. unfold resolve_profile in Hr. apply bind_ok in Hr as ([r|] & w3 & _ & Hr); [|done].
    by eapply load_profile_valid. }
  unfold ensure_profile. intros Hr. apply bind_ok in Hr as ([loaded|] & w1 & Hl%map_err_run & Hr).
  { injection Hr as -> _ _. by eapply Hres. }
  apply bind_ok in Hr as (built & w2 & _ & Hr). apply bind_ok in Hr as (u & w3 & _ & Hr).
  destruct (parent _); [|done]. apply bind_ok in Hr as (u2 & w4 & _ & Hr). apply bind_ok in Hr as (b & w5 & _ & Hr).
  apply bind_ok in Hr as (u3 & w6 & _ & Hr). apply bind_ok in Hr as ([p|] & w7 & Hl'%map_err_run & Hr); [|done].
  injection Hr as -> _ _. by eapply Hres.
Qed.
Lemma seed_ok st branch revision w w' :
  seed_cursor st branch revision w = (Ok tt, w') ->
  is_revision revision = true /\
  exists s bs, on_disk st w' s /\ s_branches s !! branch = Some bs /\ b_cursor bs = Some revision /\ b_in_flight bs = None.
Proof.
  intros Hr. destruct (is_revision revision) eqn:Hrev.
  2: { unfold seed_cursor, bind, lift, validate_revision in Hr. by rewrite Hrev in Hr. }
  split; [done|]. apply seed_cursor_implements in Hr as [[[] _]|(s & k & o & Hd & _ & -> & Ha)]; [|done].
  revert Ha. unfold spec_seed. destruct (s_branches s !! branch) as [bs|] eqn:Eb.
  - unfold branch_entry. rewrite Eb. cbn [default from_option].
    destruct bs as [[c|] [fl|] lf lo up]; cbn; [by intros []| |by intros []|].
    + destruct (String.eqb_spec c revision) as [->|]; [|by intros []]. intros [_ Hs].
      eexists s, _. split; [by eapply on_disk_same|]. by split_and!.
    + intros [_ Hd']. eexists _, _. split; [exact Hd'|]. cbn. by rewrite lookup_insert_eq.
  - unfold branch_entry. rewrite Eb. cbn. intros [_ Hd']. eexists _, _. split; [exact Hd'|]. cbn.
    by rewrite lookup_insert_eq.
Qed.
Lemma keeps_assets root branch cursor profile pp :
  keeps (fun q => q = (root ++ [".big-brother"; "overview.md"])%list)
    (write_minimal_assets root branch cursor profile pp).
Proof.
  assert (join (join root ".big-brother") "overview.md" = (root ++ [".big-brother"; "overview.md"])%list) as Heq.
  { rewrite !join_plain by done. by rewrite <- app_assoc. }
  unfold write_minimal_assets. rewrite Heq. solve_keeps.
Qed.

(** A successful enrollment leaves a valid profile, and the tracked branch
    seeded at the reported revision with no range in flight. *)
Theorem enrollment_seeds options w o w' :
  run_init options w = (Ok o, w') ->
  is_revision (io_cursor o) = true /\
  (exists profile, profile_ok profile /\ p_session_name profile = io_session_name o) /\
  exists s bs, on_disk (open_store (i_agent_dir options) (io_git_root o)) w' s /\
    s_branches s !! io_branch o = Some bs /\ b_cursor bs = Some (io_cursor o) /\ b_in_flight bs = None.
Proof.
  unfold run_init. intros Hr. apply bind_ok in Hr as ([root|] & w1 & _ & Hr); [|done].
  apply bind_ok in Hr as (branch & w2 & _ & Hr). apply bind_ok in Hr as (head & w3 & _ & Hr).
  apply bind_ok in Hr as (u & w4 & _ & Hr). apply bind_ok in Hr as ([profile pp] & w5 & Hp & Hr).
  apply ensure_profile_valid in Hp. apply bind_ok in Hr as ([] & w6 & Hs%map_err_run & Hr).
  apply seed_ok in Hs as [Hrev (s & bs & Hd & Hbs)].
  apply bind_ok in Hr as (ss & w7 & E7 & Hr). apply bind_ok in Hr as (created & w8 & E8 & Hr).
  apply bind_ok in Hr as (u2 & w9 & E9 & Hr). apply bind_ok in Hr as (assets & w10 & E10 & Hr).
  injection Hr as <- <-. cbn. split; [done|]. split; [by exists profile|]. exists s, bs. split; [|done].
  set (st := open_store _ _) in *. eapply on_disk_same; [|exact Hd].
  assert (frame (fun q => q = (root ++ [".big-brother"; "overview.md"])%list) w6 w10) as HF.
  { eapply frame_trans; [eapply keeps_run; [|exact E7]; unfold list_sessions_including_saved; solve_keeps|].
    eapply frame_trans; [eapply keeps_run; [|exact E8]; solve_keeps|].
    eapply frame_trans; [eapply keeps_run; [|exact E9]; solve_keeps|].
    eapply keeps_run; [apply keeps_assets|exact E10]. }
  apply (frame_files _ _ _ HF). rewrite state_path_eq. intros Heq.
  change [".big-brother"; "overview.md"] with ([".big-brother"] ++ ["overview.md"])%list in Heq.
  rewrite app_assoc in Heq. by apply app_inj_2 in Heq as [_ ?].
Qed.
End Enrollment.
