(* ===== verification/Dispatch.v ===== *)
(** * The conductor's prompt and its dispatch tool
      ([crates/pa-daemon/src/big_brother/prompt.rs], [dispatch.rs])

    The tool's child sessions are an interface: what [dispatch_review] relies
    on is a class, and its theorems are proved against the class's laws. *)
From S2P Require Import Prelude RustStr Json Time World Profile ProfileProofs State Observer.
#[local] Open Scope string_scope.
#[local] Open Scope Z_scope.

(** [conductor_system_prompt]. *)
Definition layer_list (profile : ReviewProfile) : string := join_with ", " (layer_name <$> p_layers profile).
Definition conductor_system_prompt (profile : ReviewProfile) : string :=
  "You are Big Brother's review conductor for this repository." ++ nl_str ++ nl_str
  ++ "The background observer sends exactly one message per admitted review range, shaped "
  ++ quoted "REVIEW_RANGE <baseSha>..<headSha> END" ++ "." ++ nl_str ++ nl_str
  ++ "Dispatch the range: for each configured review layer (" ++ layer_list profile
  ++ "), call dispatch_review exactly once with the range's baseSha and headSha. The reviewers run after your turn settles; each one's reply arrives as a child message on a later turn."
  ++ nl_str ++ nl_str
  ++ "Once every layer has replied, write the range's synthesis: summarize each layer's findings, keep hard violations separate from advisory observations, and state one overall conclusion for the range."
  ++ nl_str ++ nl_str
  ++ "Output contract for the synthesis message: the FIRST line must be exactly " ++ quoted "REVIEW_SYNTHESIS"
  ++ " and nothing else — no preamble, no narration before it. The synthesis itself follows from the next line on. Everything before that marker line is discarded, so a synthesis without the marker is lost."
  ++ nl_str ++ nl_str
  ++ "A layer whose reviewer errored or never replied is an unfinished assessment, never a clean pass."
  ++ nl_str ++ nl_str
  ++ "This session reviews: it does not modify files, commits, or branches.".

(** ** Child sessions *)
Record SpawnRequest := mkSpawn { sp_prompt : string; sp_name : option string; sp_model : option string }.

(** Who holds a child name: nobody, a running child, or a settled one. *)
Inductive holder := Running | Settled.

(** The operations of [SupervisorChildSessions] the tool calls; [holds] is the
    name reservation they act on.  A name is [clear] when no child has it for
    an id and no two children have it: the lookup of a retirement goes by ids
    and names alike. *)
Class ChildHost := {
  Host : Type;
  holds : Host -> string -> option holder;
  clear : Host -> string -> Prop;
  spawn : Host -> SpawnRequest -> Host * (anyhow + string);
  retire_dead_child_name : Host -> string -> Host * (anyhow + string)
}.

(** What its documentation promises: a spawn is refused while its name is held
    and otherwise, when it succeeds, leaves a running child of that name; the
    retire verdict tells whether a settled holder was removed.  Neither touches
    another name, and a failure changes nothing. *)
Class ChildHostOk `{ChildHost} := {
  spawn_refuses h r n : sp_name r = Some n -> holds h n <> None -> exists h' e, spawn h r = (h', inl e);
  spawn_fails h h' r e : spawn h r = (h', inl e) -> forall n, holds h' n = holds h n /\ (clear h n -> clear h' n);
  spawn_runs h h' r n id : sp_name r = Some n -> spawn h r = (h', inr id) ->
    holds h' n = Some Running /\ forall m, m <> n -> holds h' m = holds h m;
  retire_running h n : clear h n -> holds h n = Some Running -> exists h', retire_dead_child_name h n = (h', inr "running");
  retire_absent h n : clear h n -> holds h n = None -> exists h', retire_dead_child_name h n = (h', inr "not_found");
  retire_deletes h h' n : clear h n -> retire_dead_child_name h n = (h', inr "deleted") ->
    holds h n = Some Settled /\ holds h' n = None /\ forall m, m <> n -> holds h' m = holds h m;
  retire_fails h h' n v : retire_dead_child_name h n = (h', v) -> v <> inr "deleted" ->
    forall m, holds h' m = holds h m
}.

(** ** The tool *)
Record DispatchArgs := mkDispatchArgs { da_layer : string; da_base : string; da_head : string }.

(** The tool as the model sees it: its name, description and parameters, the
    layer one of the profile's. *)
Record ToolSpec := mkToolSpec { tool_name : string; tool_label : string; tool_description : string; tool_parameters : Value }.
Definition string_schema : Value := VObject [("type", VString "string")].
Definition dispatch_tool (profile : ReviewProfile) : ToolSpec :=
  mkToolSpec "dispatch_review" "Dispatch review"
    "Dispatch one review layer for an immutable range; the layer's reviewer runs after this turn settles and its reply arrives as a child message. Each layer's reviewer model is fixed by the repository's review profile"
    (VObject [("type", VString "object");
              ("properties", VObject [
                 ("layer", VObject [("type", VString "string");
                                    ("enum", VArray ((fun l => VString (layer_name l)) <$> p_layers profile))]);
                 ("baseSha", string_schema); ("headSha", string_schema)]);
              ("required", VArray [VString "layer"; VString "baseSha"; VString "headSha"])]).

(** The string arguments of a call, the first missing one reported. *)
Definition dispatch_field (params : Value) (key : string) : anyhow + string :=
  match get_str key params with
  | Some s => inr s
  | None => inl (anyhow_msg ("missing " ++ key))
  end.
Definition dispatch_args (params : Value) : anyhow + DispatchArgs :=
  let? layer := dispatch_field params "layer" in
  let? base := dispatch_field params "baseSha" in
  let? head := dispatch_field params "headSha" in
  inr (mkDispatchArgs layer base head).

(** The spawn of one review layer: the child's name carries the range's head,
    its model is the profile's. *)
Definition spawn_request (a : DispatchArgs) (model : string) : SpawnRequest :=
  mkSpawn ("Review " ++ da_layer a ++ " for " ++ da_base a ++ ".." ++ da_head a)
    (Some (layer_child (da_layer a) (da_head a))) (Some model).
Definition spawned_text (a : DispatchArgs) (id : string) : string :=
  "layer " ++ da_layer a ++ " reviewer spawned as child " ++ id ++ " for " ++ da_base a ++ ".." ++ da_head a.
Definition unknown_layer (profile : ReviewProfile) (layer : string) : anyhow :=
  anyhow_msg ("unknown review layer " ++ quoted layer ++ "; configured layers: " ++ layer_list profile).

Section Dispatch.
(** [verdict_debug] is the [Debug] text of a retire verdict. *)
Context `{ChildHost} (verdict_debug : anyhow + string -> string).

(** The pattern [Ok("deleted")]. *)
Definition is_deleted (verdict : anyhow + string) : bool :=
  match verdict with inr v => String.eqb v "deleted" | inl _ => false end.

(** The spawn with its one retry after the name's dead holder is retired. *)
Definition spawn_or_replace (h : Host) (request : SpawnRequest) (child_name : string)
    : Host * (anyhow + string) :=
  match spawn h request with
  | (h1, inr id) => (h1, inr id)
  | (h1, inl first) =>
      let '(h2, verdict) := retire_dead_child_name h1 child_name in
      if is_deleted verdict then
        match spawn h2 request with
        | (h3, inr id) => (h3, inr id)
        | (h3, inl e) =>
            (h3, inl (anyhow_context ("re-spawning reviewer " ++ child_name
               ++ " after retiring its dead record (first spawn: " ++ anyhow_display_full first ++ ")") e))
        end
      else
        (h2, inl (anyhow_msg ("spawning the review child (name retire verdict " ++ verdict_debug verdict
           ++ "): " ++ anyhow_display_full first)))
  end.

(** [dispatch_review]'s [execute]. *)
Definition dispatch_review (profile : ReviewProfile) (h : Host) (params : Value) : Host * (anyhow + string) :=
  match dispatch_args params with
  | inl e => (h, inl e)
  | inr a =>
      match layer_model profile (da_layer a) with
      | None => (h, inl (unknown_layer profile (da_layer a)))
      | Some model =>
          match spawn_or_replace h (spawn_request a model) (layer_child (da_layer a) (da_head a)) with
          | (h', inl e) => (h', inl e)
          | (h', inr id) => (h', inr (spawned_text a id))
          end
      end
  end.

(** ** Theorems *)
Context `{!ChildHostOk}.

Lemma spawn_or_replace_spec h request n h' r :
  sp_name request = Some n -> clear h n -> spawn_or_replace h request n = (h', r) ->
  match r with
  | inr _ => holds h n <> Some Running /\ holds h' n = Some Running
  | inl _ => holds h' n = holds h n \/ holds h n = Some Settled /\ holds h' n = None
  end /\ forall m, m <> n -> holds h' m = holds h m.
Proof.
  intros Hn Hc. unfold spawn_or_replace. destruct (spawn h request) as [h1 [first|id]] eqn:E1.
  - pose proof (fun m => proj1 (spawn_fails _ _ _ _ E1 m)) as F1. apply (proj2 (spawn_fails _ _ _ _ E1 n)) in Hc.
    destruct (retire_dead_child_name h1 n) as [h2 v] eqn:E2. destruct (is_deleted v) eqn:Hv.
    + assert (v = inr "deleted") as -> by (destruct v; [done|by apply String.eqb_eq in Hv as ->]). apply retire_deletes in E2 as (Hs & Hnone & Hoth); [|done].
      destruct (spawn h2 request) as [h3 [e|id]] eqn:E3; intros [= <- <-].
      * pose proof (fun m => proj1 (spawn_fails _ _ _ _ E3 m)) as F3. rewrite F1 in Hs. split; [right; by rewrite F3|].
        intros m Hm. by rewrite F3, Hoth, F1.
      * apply (spawn_runs _ _ _ n) in E3 as [Hrun Hoth3]; [|done]. rewrite F1 in Hs. split; [by rewrite Hs|].
        intros m Hm. by rewrite Hoth3, Hoth, F1.
    + intros [= <- <-]. assert (v <> inr "deleted") as Hv' by by intros ->.
      pose proof (retire_fails _ _ _ _ E2 Hv') as F2. split; [left|intros m _]; by rewrite F2.
  - intros [= <- <-]. pose proof E1 as E1'. apply (spawn_runs _ _ _ n) in E1 as [Hrun Hoth]; [|done].
    split; [split; [|done]|done]. intros Hh.
    destruct (spawn_refuses h request n Hn) as (h2 & e & He); [by rewrite Hh|congruence].
Qed.

(** A dispatch that succeeds has spawned a running
    child under the very name the observer looks its layer and range up by,
    with the model the profile fixes; it never replaces a child that still
    runs, and it touches no other child (while the name it asks for is
    clear). *)
Theorem dispatch_spawns_reviewer profile h params h' text :
  (forall layer head, get_str "layer" params = Some layer -> get_str "headSha" params = Some head -> clear h (layer_child layer head)) ->
  dispatch_review profile h params = (h', inr text) ->
  exists layer base head model,
    get_str "layer" params = Some layer /\ get_str "baseSha" params = Some base /\
    get_str "headSha" params = Some head /\ layer_model profile layer = Some model /\
    holds h (layer_child layer head) <> Some Running /\ holds h' (layer_child layer head) = Some Running /\
    (exists h0 id, spawn h0 (spawn_request (mkDispatchArgs layer base head) model) = (h', inr id)) /\
    forall m, m <> layer_child layer head -> holds h' m = holds h m.
Proof.
  intros Hc. unfold dispatch_review, dispatch_args, dispatch_field.
  destruct (get_str "layer" params) as [layer|]; [|done]. cbn [sum_bind].
  destruct (get_str "baseSha" params) as [base|]; [|done]. cbn [sum_bind].
  destruct (get_str "headSha" params) as [head|]; [|done]. cbn [sum_bind da_layer da_head].
  destruct (layer_model profile layer) as [model|] eqn:Em; [|done].
  destruct (spawn_or_replace h _ _) as [h1 [e|id]] eqn:Es; [done|]. intros [= -> <-].
  exists layer, base, head, model. pose proof Es as Es'.
  apply spawn_or_replace_spec in Es as [[Hb Ha] Hoth]; [|done|by apply Hc]. split_and!; try done.
  revert Es'. unfold spawn_or_replace. destruct (spawn h _) as [h2 [first|id2]] eqn:E1; [|intros [= -> ->]; by eauto].
  destruct (retire_dead_child_name _ _) as [h3 v]. destruct (is_deleted v); [|done].
  destruct (spawn h3 _) as [h4 [e|id4]] eqn:E4; [done|]. intros [= -> ->]. by eauto.
Qed.

(** A child that still runs is safe from a second dispatch of its layer
    and head: the dispatch fails and every child stays as it is. *)
Theorem running_reviewer_kept profile h params layer head :
  get_str "layer" params = Some layer -> get_str "headSha" params = Some head ->
  clear h (layer_child layer head) -> holds h (layer_child layer head) = Some Running ->
  exists h' e, dispatch_review profile h params = (h', inl e) /\ forall m, holds h' m = holds h m.
Proof.
  intros Hl Hd Hc Hrun. unfold dispatch_review, dispatch_args, dispatch_field. rewrite Hl, Hd. cbn [sum_bind].
  destruct (get_str "baseSha" params) as [base|]; [|by eauto]. cbn [sum_bind da_layer da_head].
  destruct (layer_model profile layer) as [model|]; [|by eauto].
  destruct (spawn_or_replace h _ _) as [h1 r] eqn:Es. pose proof Es as Es'.
  apply spawn_or_replace_spec in Es as [Hr Hoth]; [|done|done]. destruct r as [e|id]; [|by destruct Hr].
  eexists h1, e. split; [done|]. intros m. destruct (decide (m = layer_child layer head)) as [->|]; [|by apply Hoth].
  destruct Hr as [?|[? _]]; congruence.
Qed.
End Dispatch.
