(* ===== verification/Children.v ===== *)
(** * Child sessions

    [rlm_children.rs] with its modules [host.rs], [registry.rs],
    [lifecycle.rs] and [usage.rs]: the registry of the child sessions a parent
    session has spawned.  Spawns, settle watchers, cancellations, deletions,
    renames, collections and the parent's close run as tasks that share the
    registry; a task is a program ([prog]) of atomic steps, one for every
    section under a lock and every question to the outside ([ask]: the
    supervisor, the disk, the usage sink), and tasks interleave at every step.
    A request whose future is dropped stops between two steps and gives its
    guards back.  An emission of usage rows is one step: its whole flow is
    under the record's emission lock, and nobody else touches the fields it
    uses.  Texts of rows and notices beyond the fields shown here, roster
    pushes, the display sidecar and the semantic-edge record are not
    modelled. *)
From S2P Require Import Prelude RustStr Json Time World LedgerReplay Journal State.
#[local] Open Scope string_scope.

(** ** Data *)
Inductive RunStatus := RunDone | RunError | RunCancelled.
#[export] Instance RunStatus_eq_dec : EqDecision RunStatus.
Proof. solve_decision. Defined.
Inductive ChildCloseReason := CloseKilled | CloseShutdown | CloseReplaced.
Definition wire_marker (reason : ChildCloseReason) : option string :=
  match reason with CloseKilled => None | CloseShutdown => Some "shutdown" | CloseReplaced => Some "replaced" end.
Inductive RetirementIntent := RetireDelete (was_running : bool) | RetireClose.
(** A usage report: its id and the rows of the child's transcript it bills. *)
Record Report := mkReport { rp_id : nat; rp_from : nat; rp_next : nat }.
#[export] Instance Report_eq_dec : EqDecision Report.
Proof. solve_decision. Defined.
Inductive Notice :=
| CompletedWithoutReply (child_id session_name : string) (last_text : option string)
| ChildFailed (child_id session_name error : string)
| CancelledByParent (child_id session_name reason : string).
(** A tracked child.  [cr_answer] is the text [answer_preview] and
    [answer_text] are cut from. *)
Record ChildRecord := mkChild {
  cr_rlm_child_id : string;
  cr_session_name : string;
  cr_active_session_id : string;
  cr_session_id : option string;
  cr_session_file : option string;
  cr_settled_status : option RunStatus;
  cr_settled : bool;
  cr_answer : option string;
  cr_answer_captured : bool;
  cr_replied_since_task : bool;
  cr_notice_delivered : bool;
  cr_prompt_admitted : bool;
  cr_error : option string;
  cr_closed_by_parent : bool;
  cr_retirement_finished : bool;
  cr_retirement_notified : bool;
  cr_usage_registration_forgotten : bool;
  cr_attributed_rows : option nat;
  cr_pending_usage_report : option Report;
  cr_usage_watch_live : bool;
  cr_usage_rearm : bool
}.
Definition set_name v (c : ChildRecord) : ChildRecord := mkChild (cr_rlm_child_id c) v (cr_active_session_id c) (cr_session_id c) (cr_session_file c) (cr_settled_status c) (cr_settled c) (cr_answer c) (cr_answer_captured c) (cr_replied_since_task c) (cr_notice_delivered c) (cr_prompt_admitted c) (cr_error c) (cr_closed_by_parent c) (cr_retirement_finished c) (cr_retirement_notified c) (cr_usage_registration_forgotten c) (cr_attributed_rows c) (cr_pending_usage_report c) (cr_usage_watch_live c) (cr_usage_rearm c).
Definition set_status v (c : ChildRecord) : ChildRecord := mkChild (cr_rlm_child_id c) (cr_session_name c) (cr_active_session_id c) (cr_session_id c) (cr_session_file c) v (cr_settled c) (cr_answer c) (cr_answer_captured c) (cr_replied_since_task c) (cr_notice_delivered c) (cr_prompt_admitted c) (cr_error c) (cr_closed_by_parent c) (cr_retirement_finished c) (cr_retirement_notified c) (cr_usage_registration_forgotten c) (cr_attributed_rows c) (cr_pending_usage_report c) (cr_usage_watch_live c) (cr_usage_rearm c).
Definition set_settled v (c : ChildRecord) : ChildRecord := mkChild (cr_rlm_child_id c) (cr_session_name c) (cr_active_session_id c) (cr_session_id c) (cr_session_file c) (cr_settled_status c) v (cr_answer c) (cr_answer_captured c) (cr_replied_since_task c) (cr_notice_delivered c) (cr_prompt_admitted c) (cr_error c) (cr_closed_by_parent c) (cr_retirement_finished c) (cr_retirement_notified c) (cr_usage_registration_forgotten c) (cr_attributed_rows c) (cr_pending_usage_report c) (cr_usage_watch_live c) (cr_usage_rearm c).
Definition set_answer v (c : ChildRecord) : ChildRecord := mkChild (cr_rlm_child_id c) (cr_session_name c) (cr_active_session_id c) (cr_session_id c) (cr_session_file c) (cr_settled_status c) (cr_settled c) v (cr_answer_captured c) (cr_replied_since_task c) (cr_notice_delivered c) (cr_prompt_admitted c) (cr_error c) (cr_closed_by_parent c) (cr_retirement_finished c) (cr_retirement_notified c) (cr_usage_registration_forgotten c) (cr_attributed_rows c) (cr_pending_usage_report c) (cr_usage_watch_live c) (cr_usage_rearm c).
Definition set_captured v (c : ChildRecord) : ChildRecord := mkChild (cr_rlm_child_id c) (cr_session_name c) (cr_active_session_id c) (cr_session_id c) (cr_session_file c) (cr_settled_status c) (cr_settled c) (cr_answer c) v (cr_replied_since_task c) (cr_notice_delivered c) (cr_prompt_admitted c) (cr_error c) (cr_closed_by_parent c) (cr_retirement_finished c) (cr_retirement_notified c) (cr_usage_registration_forgotten c) (cr_attributed_rows c) (cr_pending_usage_report c) (cr_usage_watch_live c) (cr_usage_rearm c).
Definition set_replied v (c : ChildRecord) : ChildRecord := mkChild (cr_rlm_child_id c) (cr_session_name c) (cr_active_session_id c) (cr_session_id c) (cr_session_file c) (cr_settled_status c) (cr_settled c) (cr_answer c) (cr_answer_captured c) v (cr_notice_delivered c) (cr_prompt_admitted c) (cr_error c) (cr_closed_by_parent c) (cr_retirement_finished c) (cr_retirement_notified c) (cr_usage_registration_forgotten c) (cr_attributed_rows c) (cr_pending_usage_report c) (cr_usage_watch_live c) (cr_usage_rearm c).
Definition set_notice v (c : ChildRecord) : ChildRecord := mkChild (cr_rlm_child_id c) (cr_session_name c) (cr_active_session_id c) (cr_session_id c) (cr_session_file c) (cr_settled_status c) (cr_settled c) (cr_answer c) (cr_answer_captured c) (cr_replied_since_task c) v (cr_prompt_admitted c) (cr_error c) (cr_closed_by_parent c) (cr_retirement_finished c) (cr_retirement_notified c) (cr_usage_registration_forgotten c) (cr_attributed_rows c) (cr_pending_usage_report c) (cr_usage_watch_live c) (cr_usage_rearm c).
Definition set_admitted v (c : ChildRecord) : ChildRecord := mkChild (cr_rlm_child_id c) (cr_session_name c) (cr_active_session_id c) (cr_session_id c) (cr_session_file c) (cr_settled_status c) (cr_settled c) (cr_answer c) (cr_answer_captured c) (cr_replied_since_task c) (cr_notice_delivered c) v (cr_error c) (cr_closed_by_parent c) (cr_retirement_finished c) (cr_retirement_notified c) (cr_usage_registration_forgotten c) (cr_attributed_rows c) (cr_pending_usage_report c) (cr_usage_watch_live c) (cr_usage_rearm c).
Definition set_error v (c : ChildRecord) : ChildRecord := mkChild (cr_rlm_child_id c) (cr_session_name c) (cr_active_session_id c) (cr_session_id c) (cr_session_file c) (cr_settled_status c) (cr_settled c) (cr_answer c) (cr_answer_captured c) (cr_replied_since_task c) (cr_notice_delivered c) (cr_prompt_admitted c) v (cr_closed_by_parent c) (cr_retirement_finished c) (cr_retirement_notified c) (cr_usage_registration_forgotten c) (cr_attributed_rows c) (cr_pending_usage_report c) (cr_usage_watch_live c) (cr_usage_rearm c).
Definition set_closed v (c : ChildRecord) : ChildRecord := mkChild (cr_rlm_child_id c) (cr_session_name c) (cr_active_session_id c) (cr_session_id c) (cr_session_file c) (cr_settled_status c) (cr_settled c) (cr_answer c) (cr_answer_captured c) (cr_replied_since_task c) (cr_notice_delivered c) (cr_prompt_admitted c) (cr_error c) v (cr_retirement_finished c) (cr_retirement_notified c) (cr_usage_registration_forgotten c) (cr_attributed_rows c) (cr_pending_usage_report c) (cr_usage_watch_live c) (cr_usage_rearm c).
Definition set_finished v (c : ChildRecord) : ChildRecord := mkChild (cr_rlm_child_id c) (cr_session_name c) (cr_active_session_id c) (cr_session_id c) (cr_session_file c) (cr_settled_status c) (cr_settled c) (cr_answer c) (cr_answer_captured c) (cr_replied_since_task c) (cr_notice_delivered c) (cr_prompt_admitted c) (cr_error c) (cr_closed_by_parent c) v (cr_retirement_notified c) (cr_usage_registration_forgotten c) (cr_attributed_rows c) (cr_pending_usage_report c) (cr_usage_watch_live c) (cr_usage_rearm c).
Definition set_notified v (c : ChildRecord) : ChildRecord := mkChild (cr_rlm_child_id c) (cr_session_name c) (cr_active_session_id c) (cr_session_id c) (cr_session_file c) (cr_settled_status c) (cr_settled c) (cr_answer c) (cr_answer_captured c) (cr_replied_since_task c) (cr_notice_delivered c) (cr_prompt_admitted c) (cr_error c) (cr_closed_by_parent c) (cr_retirement_finished c) v (cr_usage_registration_forgotten c) (cr_attributed_rows c) (cr_pending_usage_report c) (cr_usage_watch_live c) (cr_usage_rearm c).
Definition set_forgotten v (c : ChildRecord) : ChildRecord := mkChild (cr_rlm_child_id c) (cr_session_name c) (cr_active_session_id c) (cr_session_id c) (cr_session_file c) (cr_settled_status c) (cr_settled c) (cr_answer c) (cr_answer_captured c) (cr_replied_since_task c) (cr_notice_delivered c) (cr_prompt_admitted c) (cr_error c) (cr_closed_by_parent c) (cr_retirement_finished c) (cr_retirement_notified c) v (cr_attributed_rows c) (cr_pending_usage_report c) (cr_usage_watch_live c) (cr_usage_rearm c).
Definition set_attributed v (c : ChildRecord) : ChildRecord := mkChild (cr_rlm_child_id c) (cr_session_name c) (cr_active_session_id c) (cr_session_id c) (cr_session_file c) (cr_settled_status c) (cr_settled c) (cr_answer c) (cr_answer_captured c) (cr_replied_since_task c) (cr_notice_delivered c) (cr_prompt_admitted c) (cr_error c) (cr_closed_by_parent c) (cr_retirement_finished c) (cr_retirement_notified c) (cr_usage_registration_forgotten c) v (cr_pending_usage_report c) (cr_usage_watch_live c) (cr_usage_rearm c).
Definition set_pending_report v (c : ChildRecord) : ChildRecord := mkChild (cr_rlm_child_id c) (cr_session_name c) (cr_active_session_id c) (cr_session_id c) (cr_session_file c) (cr_settled_status c) (cr_settled c) (cr_answer c) (cr_answer_captured c) (cr_replied_since_task c) (cr_notice_delivered c) (cr_prompt_admitted c) (cr_error c) (cr_closed_by_parent c) (cr_retirement_finished c) (cr_retirement_notified c) (cr_usage_registration_forgotten c) (cr_attributed_rows c) v (cr_usage_watch_live c) (cr_usage_rearm c).
Definition set_watch_live v (c : ChildRecord) : ChildRecord := mkChild (cr_rlm_child_id c) (cr_session_name c) (cr_active_session_id c) (cr_session_id c) (cr_session_file c) (cr_settled_status c) (cr_settled c) (cr_answer c) (cr_answer_captured c) (cr_replied_since_task c) (cr_notice_delivered c) (cr_prompt_admitted c) (cr_error c) (cr_closed_by_parent c) (cr_retirement_finished c) (cr_retirement_notified c) (cr_usage_registration_forgotten c) (cr_attributed_rows c) (cr_pending_usage_report c) v (cr_usage_rearm c).
Definition set_rearm v (c : ChildRecord) : ChildRecord := mkChild (cr_rlm_child_id c) (cr_session_name c) (cr_active_session_id c) (cr_session_id c) (cr_session_file c) (cr_settled_status c) (cr_settled c) (cr_answer c) (cr_answer_captured c) (cr_replied_since_task c) (cr_notice_delivered c) (cr_prompt_admitted c) (cr_error c) (cr_closed_by_parent c) (cr_retirement_finished c) (cr_retirement_notified c) (cr_usage_registration_forgotten c) (cr_attributed_rows c) (cr_pending_usage_report c) (cr_usage_watch_live c) v.
Definition blank_child : ChildRecord := mkChild "" "" "" None None None false None false false false false None false false false false None None false false.
Definition DELETED_BY_PARENT : string := "Deleted by parent orchestrator".
Record DeletedChild := mkDeleted {
  dc_rlm_child_id : string; dc_session_name : string; dc_active_session_id : string; dc_session_id : option string;
  dc_status : option RunStatus; dc_answer : option string; dc_error : string }.
Record ParentIdentity := mkParent {
  pi_depth : Z; pi_max_depth : Z; pi_active_session_id : string; pi_session_id : option string; pi_session_file : option string }.
(** The selectors of a child. *)
Definition opt_is (target : string) (o : option string) : bool := match o with Some s => String.eqb s target | None => false end.
Definition matches_id (c : ChildRecord) (target : string) : bool :=
  String.eqb (cr_rlm_child_id c) target || String.eqb (cr_active_session_id c) target || opt_is target (cr_session_id c).
Definition matches (c : ChildRecord) (target : string) : bool := matches_id c target || String.eqb (cr_session_name c) target.
Definition deleted_matches (d : DeletedChild) (target : string) : bool :=
  String.eqb (dc_rlm_child_id d) target || String.eqb (dc_active_session_id d) target || String.eqb (dc_session_name d) target || opt_is target (dc_session_id d).
Definition durable_child_selector (session_id : option string) (child_id : string) : string := default child_id session_id.
Definition is_running (c : ChildRecord) : bool := match cr_settled_status c with None => true | Some _ => false end.

(** The registry.  [g_rename] and [g_pending] say which task holds a rename
    lock or a name; the last five fields are history: claimed notices not sent
    yet and by whom, notices sent, children the delete hook was called for,
    reports made, reports acknowledged. *)
Record Registry := mkRegistry {
  g_records : list ChildRecord;
  g_children : list nat;
  g_retired : list (nat * RetirementIntent);
  g_pending : gmap string nat;
  g_deleted : gmap string DeletedChild;
  g_rename : gmap nat nat;
  g_running : bool;
  g_sink : bool;
  g_identity : ParentIdentity;
  g_clock : nat;
  g_owed : gmap nat nat;
  g_notices : list (nat * Notice);
  g_notified : list nat;
  g_reports : list (nat * Report);
  g_acked : gset nat
}.
Definition put_records v (c : Registry) : Registry := mkRegistry v (g_children c) (g_retired c) (g_pending c) (g_deleted c) (g_rename c) (g_running c) (g_sink c) (g_identity c) (g_clock c) (g_owed c) (g_notices c) (g_notified c) (g_reports c) (g_acked c).
Definition put_children v (c : Registry) : Registry := mkRegistry (g_records c) v (g_retired c) (g_pending c) (g_deleted c) (g_rename c) (g_running c) (g_sink c) (g_identity c) (g_clock c) (g_owed c) (g_notices c) (g_notified c) (g_reports c) (g_acked c).
Definition put_retired v (c : Registry) : Registry := mkRegistry (g_records c) (g_children c) v (g_pending c) (g_deleted c) (g_rename c) (g_running c) (g_sink c) (g_identity c) (g_clock c) (g_owed c) (g_notices c) (g_notified c) (g_reports c) (g_acked c).
Definition put_pending v (c : Registry) : Registry := mkRegistry (g_records c) (g_children c) (g_retired c) v (g_deleted c) (g_rename c) (g_running c) (g_sink c) (g_identity c) (g_clock c) (g_owed c) (g_notices c) (g_notified c) (g_reports c) (g_acked c).
Definition put_deleted v (c : Registry) : Registry := mkRegistry (g_records c) (g_children c) (g_retired c) (g_pending c) v (g_rename c) (g_running c) (g_sink c) (g_identity c) (g_clock c) (g_owed c) (g_notices c) (g_notified c) (g_reports c) (g_acked c).
Definition put_rename v (c : Registry) : Registry := mkRegistry (g_records c) (g_children c) (g_retired c) (g_pending c) (g_deleted c) v (g_running c) (g_sink c) (g_identity c) (g_clock c) (g_owed c) (g_notices c) (g_notified c) (g_reports c) (g_acked c).
Definition put_running v (c : Registry) : Registry := mkRegistry (g_records c) (g_children c) (g_retired c) (g_pending c) (g_deleted c) (g_rename c) v (g_sink c) (g_identity c) (g_clock c) (g_owed c) (g_notices c) (g_notified c) (g_reports c) (g_acked c).
Definition put_clock v (c : Registry) : Registry := mkRegistry (g_records c) (g_children c) (g_retired c) (g_pending c) (g_deleted c) (g_rename c) (g_running c) (g_sink c) (g_identity c) v (g_owed c) (g_notices c) (g_notified c) (g_reports c) (g_acked c).
Definition put_identity v (c : Registry) : Registry := mkRegistry (g_records c) (g_children c) (g_retired c) (g_pending c) (g_deleted c) (g_rename c) (g_running c) (g_sink c) v (g_clock c) (g_owed c) (g_notices c) (g_notified c) (g_reports c) (g_acked c).
Definition put_owed v (c : Registry) : Registry := mkRegistry (g_records c) (g_children c) (g_retired c) (g_pending c) (g_deleted c) (g_rename c) (g_running c) (g_sink c) (g_identity c) (g_clock c) v (g_notices c) (g_notified c) (g_reports c) (g_acked c).
Definition put_notices v (c : Registry) : Registry := mkRegistry (g_records c) (g_children c) (g_retired c) (g_pending c) (g_deleted c) (g_rename c) (g_running c) (g_sink c) (g_identity c) (g_clock c) (g_owed c) v (g_notified c) (g_reports c) (g_acked c).
Definition put_notified v (c : Registry) : Registry := mkRegistry (g_records c) (g_children c) (g_retired c) (g_pending c) (g_deleted c) (g_rename c) (g_running c) (g_sink c) (g_identity c) (g_clock c) (g_owed c) (g_notices c) v (g_reports c) (g_acked c).
Definition put_reports v (c : Registry) : Registry := mkRegistry (g_records c) (g_children c) (g_retired c) (g_pending c) (g_deleted c) (g_rename c) (g_running c) (g_sink c) (g_identity c) (g_clock c) (g_owed c) (g_notices c) (g_notified c) v (g_acked c).
Definition put_acked v (c : Registry) : Registry := mkRegistry (g_records c) (g_children c) (g_retired c) (g_pending c) (g_deleted c) (g_rename c) (g_running c) (g_sink c) (g_identity c) (g_clock c) (g_owed c) (g_notices c) (g_notified c) (g_reports c) v.

(** ** Questions to the outside *)
(** A live edge of the spawn ledger: the child's file, the file's stem, and
    whether the display sidecar says that it was running. *)
Record LedgerChild := mkEdgeChild { lc_child_id : string; lc_name : string; lc_child : string; lc_stem : option string; lc_was_running : bool }.
(** [ledger_child_records]: nothing is owed to a child of an earlier process. *)
Definition reseeded (l : LedgerChild) : ChildRecord :=
  mkChild (lc_child_id l) (lc_name l) (default "" (lc_stem l)) (lc_stem l) (Some (lc_child l))
    (Some (if lc_was_running l then RunError else RunDone)) true None false false true true None false false false false None None false false.
Record Created := mkCreated { ct_active : string; ct_session_id : option string; ct_session_file : option string; ct_session_name : option string }.
Inductive ask : Type -> Type :=
| AskNewId : ask string                                                   (* a fresh child id *)
| AskDefaultName (prompt id : string) : ask string
| AskModel (reference : option string) : ask (anyhow + string)            (* resolution under the allowlist *)
| AskThinking (model : string) : ask (anyhow + unit)
| AskSessionDir (id : string) : ask (anyhow + string)
| AskCreate (name : option string) (depth : Z) (model dir : string) : ask (anyhow + Value)
| AskTurnDone : ask unit
| AskPrompt (selector prompt : string) : ask (anyhow + unit)
| AskRename (selector name : string) : ask (anyhow + unit)
| AskKill (active : string) (marker : option string) : ask (anyhow + unit)
| AskKillDelete (active id : string) : ask (anyhow + unit)                (* with [rlmLedgerDelete] *)
| AskAbort (active : string) : ask unit
| AskState (active : string) : ask (anyhow + Value)
| AskLastText (active : string) : ask (anyhow + Value)
| AskWait (active : string) : ask unit
| AskTimeLeft : ask bool
| AskKickoffLanded (file : option string) (id : string) : ask bool
| AskFileText (file : string) : ask (option string)                       (* the last assistant text of a transcript *)
| AskLedgerDelete (id file : string) : ask (anyhow + unit)
| AskLedgerChildren (parent : string) : ask (list LedgerChild)
| AskRows (file : string) (from round : nat) : ask (option (nat * bool))  (* rows of the transcript, and whether one beyond the cursor bills *)
| AskSink (r : Report) (round : nat) : ask bool                           (* is the report persisted *)
| AskTail (file : string) : ask (option nat).

(** ** Steps *)
Inductive FailedArm := ArmPrompt | ArmUnreachable.
Inductive op : Type -> Type :=
| Ask {A} (q : ask A) : op A
| Identity : op ParentIdentity
| Read (r : nat) : op ChildRecord
| IsFinished (r : nat) : op bool
| Children : op (list nat)
| IsHeld (r : nat) : op bool
| FindRecord (target : string) : op (option nat)
| Resolve (target : string) : op (list nat)
| RenameTarget (target : string) : op (option nat * bool)
| DurableFor (active : string) : op (option string)
| Tombstones (target : string) : op (list DeletedChild)
| NameTaken (name : string) : op bool
| Reserve (name : string) : op bool
| Unreserve (name : string) : op unit
| Push (c : ChildRecord) : op nat
| Reseed (parent : string) (cs : list LedgerChild) : op unit
| DropRecord (r : nat) : op unit
| LockRename (r : nat) : op unit
| UnlockRename (r : nat) : op unit
| AdmitPrompt (r : nat) : op unit
| Verdict (r : nat) (answer : option string) : op unit
| ResetVerdict (r : nat) : op unit
| CancelRun (r : nat) : op unit
| MarkReplied (active : string) : op unit
| SetName (r : nat) (name : string) : op unit
| ClaimSettleNotice (r : nat) : op (option Notice)
| ClaimFailure (r : nat) (arm : FailedArm) (error : string) (text : option string) : op (option Notice)
| ClaimCancelNotice (r : nat) (cancelled : bool) : op (option Notice)
| DeliverNotice (r : nat) (n : Notice) : op unit
| Settle (r : nat) : op unit
| RefreshRunning : op unit
| CloseMark (r : nat) : op unit
| Retired : op (list (nat * RetirementIntent))
| Intent (r : nat) : op (option RetirementIntent)
| Retain (r : nat) (i : RetirementIntent) : op unit
| RemoveRetired (r : nat) : op unit
| MarkRetired (r : nat) (i : RetirementIntent) : op string
| NotifyDeleted (r : nat) : op unit
| Finish (r : nat) : op unit
| HasSink : op bool
| Emit (r : nat) : op bool
| Forget (r : nat) : op bool
| PrimeCursor (r tail : nat) : op unit
| ArmWatch (r : nat) : op bool
| StopWatch (r : nat) : op unit
| EndWatch (r : nat) : op bool.
(** What a task leaves running. *)
Inductive job := Kickoff (r : nat) (active prompt : string) (file : option string) (id : string) | UsageWatch (r : nat).
Inductive prog (A : Type) : Type :=
| Ret (a : A)
| Call {B} (o : op B) (k : B -> prog A)
| Fork (j : job) (k : prog A)
| Panic
| Spin.
Arguments Ret {A} a.
Arguments Call {A B} o k.
Arguments Fork {A} j k.
Arguments Panic {A}.
Arguments Spin {A}.
Fixpoint bind {A B} (p : prog A) (f : A -> prog B) : prog B :=
  match p with
  | Ret a => f a
  | Call o k => Call o (fun b => bind (k b) f)
  | Fork j k => Fork j (bind k f)
  | Panic => Panic
  | Spin => Spin
  end.
Definition call {A} (o : op A) : prog A := Call o Ret.
Notation "'let&' x ':=' m 'in' k" := (bind m (fun x => k))
  (at level 10, x name, m at level 100, k at level 200) : bb_scope.
Notation "'do&' m 'in' k" := (bind m (fun _ => k))
  (at level 10, m at level 100, k at level 200) : bb_scope.

(** ** What a step does *)
Section Steps.
Context (world : nat -> forall A, ask A -> A).

Definition child (s : Registry) (r : nat) : ChildRecord := default blank_child (g_records s !! r).
Definition update (f : ChildRecord -> ChildRecord) (r : nat) (s : Registry) : Registry := put_records (alter f r (g_records s)) s.
Definition any_unsettled (s : Registry) : bool := existsb (fun r => negb (cr_settled (child s r))) (g_children s).
Definition remember (c : ChildRecord) : DeletedChild :=
  mkDeleted (cr_rlm_child_id c) (cr_session_name c) (cr_active_session_id c) (cr_session_id c) (cr_settled_status c) (cr_answer c)
    (default DELETED_BY_PARENT (cr_error c)).
Definition intent_of (r : nat) (s : Registry) : option RetirementIntent := snd <$> find_first (fun p => Nat.eqb (fst p) r) (g_retired s).
(** A claimed notice is the claimer's to send. *)
Definition claim (t r : nat) (f : ChildRecord -> ChildRecord) (n : Notice) (s : Registry) : option Notice * Registry :=
  (Some n, put_owed (<[r := t]> (g_owed s)) (update f r s)).

(** [refresh_record], under the lock. *)
Definition verdict (answer : option string) (c : ChildRecord) : ChildRecord :=
  let c1 := match cr_settled_status c with None => set_status (Some RunDone) c | Some _ => c end in
  match answer with
  | Some _ => if negb (cr_answer_captured c) || negb (bool_decide (is_Some (cr_answer c))) then set_captured true (set_answer answer c1) else c1
  | None => c1
  end.
Definition should_mark_unreachable_error (c : ChildRecord) : bool :=
  negb (cr_closed_by_parent c || cr_notice_delivered c || negb (is_running c)).
Definition keeps_verdict (arm : FailedArm) (c : ChildRecord) : bool :=
  match arm with
  | ArmUnreachable => negb (should_mark_unreachable_error c)
  | ArmPrompt => cr_closed_by_parent c || cr_notice_delivered c || bool_decide (cr_settled_status c = Some RunError) || bool_decide (cr_settled_status c = Some RunCancelled)
  end.
Definition failed (error : string) (text : option string) (c : ChildRecord) : ChildRecord :=
  let c1 := set_notice true (set_status (Some RunError) c) in
  let c2 := match text with
            | Some _ => if negb (cr_answer_captured c) || negb (bool_decide (is_Some (cr_answer c))) then set_captured true (set_answer text c1) else c1
            | None => c1
            end in
  set_error (Some error) c2.

(** [emit_child_usage].  A round sends the report that is owed, or makes one of
    the rows beyond the cursor; [None]: it was persisted. *)
Definition send_report (r : nat) (p : Report) (round : nat) (s : Registry) : option bool * Registry :=
  if world (g_clock s) _ (AskSink p round)
  then (None, put_acked (g_acked s ∪ {[rp_id p]}) (update (fun c => set_pending_report None (set_attributed (Some (rp_next p)) c)) r s))
  else (Some false, s).
Definition emit_round (r round : nat) (s : Registry) : option bool * Registry :=
  let c := child s r in
  match cr_pending_usage_report c with
  | Some p => send_report r p round s
  | None =>
      match cr_session_file c with
      | None => (Some true, s)
      | Some file =>
          if is_empty file then (Some true, s) else
          match cr_attributed_rows c with
          | None => (Some true, s)
          | Some from =>
              match world (g_clock s) _ (AskRows file from round) with
              | None => (Some false, s)
              | Some (next, bills) =>
                  if negb bills || (next <=? from)%nat then (Some true, update (set_attributed (Some next)) r s)
                  else
                    let p := mkReport (List.length (g_reports s)) from next in
                    send_report r p round (put_reports (g_reports s ++ [(r, p)]) (update (set_pending_report (Some p)) r s))
              end
          end
      end
  end.
Definition emit_child_usage (r : nat) (s : Registry) : bool * Registry :=
  if negb (g_sink s) then (true, s)
  else if cr_usage_registration_forgotten (child s r) then (true, s)
  else
    match emit_round r 0 s with
    | (Some b, s1) => (b, s1)
    | (None, s1) =>
        if bool_decide (is_Some (cr_pending_usage_report (child s r)))
        then let '(b, s2) := emit_round r 1 s1 in (default true b, s2)
        else (true, s1)
    end.

Definition first_match (p : ChildRecord -> bool) (s : Registry) : option nat := find_first (fun r => p (child s r)) (g_children s).
(** The sections under a lock. *)
Definition reserve_spawn_name (t : nat) (name : string) (s : Registry) : bool * Registry :=
  match g_pending s !! name with Some _ => (false, s) | None => (true, put_pending (<[name := t]> (g_pending s)) s) end.
Definition join (cs : list ChildRecord) (s : Registry) : Registry :=
  put_children (g_children s ++ seq (List.length (g_records s)) (List.length cs)) (put_records (g_records s ++ cs) s).
Definition drop_record (r : nat) (s : Registry) : Registry := put_children (List.filter (fun x => negb (Nat.eqb x r)) (g_children s)) s.
Definition cancel_record (c : ChildRecord) : ChildRecord := set_error (Some "Cancelled by user") (set_status (Some RunCancelled) (set_notice true c)).
Definition mark_replied (active : string) (s : Registry) : Registry :=
  match first_match (fun c => String.eqb (cr_active_session_id c) active) s with Some r => update (set_replied true) r s | None => s end.
Definition claim_settle_notice (t r : nat) (s : Registry) : option Notice * Registry :=
  let c := child s r in
  if cr_notice_delivered c || cr_replied_since_task c then (None, s)
  else claim t r (set_notice true) (CompletedWithoutReply (cr_rlm_child_id c) (cr_session_name c) (cr_answer c)) s.
Definition claim_failure (t r : nat) (arm : FailedArm) (error : string) (text : option string) (s : Registry) : option Notice * Registry :=
  let c := child s r in
  if keeps_verdict arm c then (None, s)
  else claim t r (failed error text) (ChildFailed (cr_rlm_child_id c) (cr_session_name c) error) s.
Definition claim_cancel_notice (t r : nat) (cancelled : bool) (s : Registry) : option Notice * Registry :=
  let c := child s r in
  if cancelled && negb (cr_notice_delivered c)
  then claim t r (set_notice true) (CancelledByParent (cr_rlm_child_id c) (cr_session_name c) DELETED_BY_PARENT) s
  else (None, update (set_notice true) r s).
Definition refresh_running (s : Registry) : Registry := put_running (any_unsettled s) s.
Definition retain_retired_usage (r : nat) (i : RetirementIntent) (s : Registry) : Registry :=
  match intent_of r s with Some _ => s | None => put_retired (g_retired s ++ [(r, i)]) s end.
Definition remove_retired_usage (r : nat) (s : Registry) : Registry := put_retired (List.filter (fun p => negb (Nat.eqb (fst p) r)) (g_retired s)) s.
Definition mark_retired (r : nat) (i : RetirementIntent) (s : Registry) : string * Registry :=
  let c := set_closed true (child s r) in
  (cr_rlm_child_id c,
   match i with
   | RetireDelete was_running =>
       let c1 := if was_running then set_error (Some DELETED_BY_PARENT) (set_status (Some RunCancelled) c) else c in
       put_deleted (<[cr_rlm_child_id c := remember c1]> (g_deleted s)) (update (fun _ => c1) r s)
   | RetireClose => update (fun _ => set_notice true c) r s
   end).
Definition notify_deleted (r : nat) (s : Registry) : Registry :=
  if cr_retirement_notified (child s r) then s else put_notified (g_notified s ++ [r]) (update (set_notified true) r s).
Definition forget_registration (r : nat) (s : Registry) : bool * Registry :=
  let c := child s r in
  if cr_usage_registration_forgotten c then (true, s)
  else if bool_decide (is_Some (cr_pending_usage_report c)) then (false, s)
  else (true, update (set_forgotten true) r s).
Definition arm_watch (r : nat) (s : Registry) : bool * Registry :=
  if cr_usage_watch_live (child s r) then (false, update (set_rearm true) r s) else (true, update (set_watch_live true) r s).
Definition end_watch (r : nat) (s : Registry) : bool * Registry :=
  let c := child s r in
  let c1 := set_rearm false c in
  (cr_usage_rearm c, update (fun _ => if cr_usage_rearm c then c1 else set_watch_live false c1) r s).

(** [None]: the step has to wait. *)
Definition perform (t : nat) {A} (o : op A) (s : Registry) : option (A * Registry) :=
  let change f r := Some (tt, update f r s) in
  match o in op B return option (B * Registry) with
  | Ask q => Some (world (g_clock s) _ q, s)
  | Identity => Some (g_identity s, s)
  | Read r => Some (child s r, s)
  | IsFinished r => Some (cr_retirement_finished (child s r), s)
  | Children => Some (g_children s, s)
  | IsHeld r => Some (bool_decide (r ∈ g_children s), s)
  | FindRecord target => Some (first_match (fun c => matches c target) s, s)
  | Resolve target => Some (List.filter (fun r => matches (child s r) target) (g_children s), s)
  | RenameTarget target =>
      Some ((first_match (fun c => matches_id c target) s, existsb (fun r => String.eqb (cr_session_name (child s r)) target) (g_children s)), s)
  | DurableFor active =>
      Some ((fun r => durable_child_selector (cr_session_id (child s r)) (cr_rlm_child_id (child s r)))
              <$> first_match (fun c => String.eqb (cr_active_session_id c) active) s, s)
  | Tombstones target => Some (List.filter (fun d => deleted_matches d target) (map snd (map_to_list (g_deleted s))), s)
  | NameTaken name => Some (existsb (fun r => String.eqb (cr_session_name (child s r)) name) (g_children s), s)
  | Reserve name => Some (reserve_spawn_name t name s)
  | Unreserve name => Some (tt, put_pending (delete name (g_pending s)) s)
  | Push c => Some (List.length (g_records s), join [c] s)
  | Reseed parent cs => Some (tt, if bool_decide (pi_session_file (g_identity s) = Some parent) then join (map reseeded cs) s else s)
  | DropRecord r => Some (tt, drop_record r s)
  | LockRename r => match g_rename s !! r with Some _ => None | None => Some (tt, put_rename (<[r := t]> (g_rename s)) s) end
  | UnlockRename r => Some (tt, put_rename (delete r (g_rename s)) s)
  | AdmitPrompt r => change (set_admitted true) r
  | Verdict r answer => change (verdict answer) r
  | ResetVerdict r => change (set_status None) r
  | CancelRun r => change cancel_record r
  | MarkReplied active => Some (tt, mark_replied active s)
  | SetName r name => change (set_name name) r
  | ClaimSettleNotice r => Some (claim_settle_notice t r s)
  | ClaimFailure r arm error text => Some (claim_failure t r arm error text s)
  | ClaimCancelNotice r cancelled => Some (claim_cancel_notice t r cancelled s)
  | DeliverNotice r n => Some (tt, put_owed (delete r (g_owed s)) (put_notices (g_notices s ++ [(r, n)]) s))
  | Settle r => change (set_settled true) r
  | RefreshRunning => Some (tt, refresh_running s)
  | CloseMark r => change (fun c => set_notice true (set_closed true c)) r
  | Retired => Some (g_retired s, s)
  | Intent r => Some (intent_of r s, s)
  | Retain r i => Some (tt, retain_retired_usage r i s)
  | RemoveRetired r => Some (tt, remove_retired_usage r s)
  | MarkRetired r i => Some (mark_retired r i s)
  | NotifyDeleted r => Some (tt, notify_deleted r s)
  | Finish r => change (fun c => set_finished true (set_settled true c)) r
  | HasSink => Some (g_sink s, s)
  | Emit r => Some (emit_child_usage r s)
  | Forget r => Some (forget_registration r s)
  | PrimeCursor r tail => change (fun c => set_attributed (Some (default tail (cr_attributed_rows c))) c) r
  | ArmWatch r => Some (arm_watch r s)
  | StopWatch r => change (set_watch_live false) r
  | EndWatch r => Some (end_watch r s)
  end.
End Steps.

(** ** The functions *)
Section Programs.
(** [unknown_session]: the child is gone already. *)
Definition unknown_session (e : anyhow) : bool := existsb (starts_with "Unknown active session:") (anyhow_chain e).
Definition with_context {A} (c : string) (r : anyhow + A) : anyhow + A := match r with inl e => inl (anyhow_context c e) | inr a => inr a end.
Definition result_ok {A} (r : anyhow + option A) : option A := match r with inr o => o | inl _ => None end.

(** [lifecycle.rs] *)
Definition created_summary_ids (summary : Value) : anyhow + Created :=
  match match get "activeSessionId" summary with Some v => Some v | None => get "id" summary end ≫= as_str with
  | Some id =>
      if is_empty id then inl (anyhow_msg "supervisor returned a session summary without an id")
      else inr (mkCreated id (get_str "sessionId" summary) (get_str "sessionFile" summary) (get_str "sessionName" summary))
  | None => inl (anyhow_msg "supervisor returned a session summary without an id")
  end.
Definition create_child (child_id : string) (name : option string) (depth : Z) (model dir : string) : prog (anyhow + Created) :=
  let& summary := call (Ask (AskCreate name depth model dir)) in
  Ret (match with_context ("spawn RLM child session " ++ child_id) summary with inl e => inl e | inr v => created_summary_ids v end).
Definition command_with_durable_wake (make_command : string -> ask (anyhow + unit)) (active subject : string) : prog (anyhow + unit) :=
  let& first := call (Ask (make_command active)) in
  match first with
  | inr _ => Ret (inr tt)
  | inl e =>
      if negb (starts_with "Unknown active session:" (anyhow_display_full e)) then Ret (inl (anyhow_context subject e))
      else
        let& durable := call (DurableFor active) in
        match durable with
        | None => Ret (inl (anyhow_context subject e))
        | Some d => let& retry := call (Ask (make_command d)) in Ret (with_context (subject ++ " (woken by " ++ d ++ ")") retry)
        end
  end.
Definition prompt_child (active prompt : string) : prog (anyhow + unit) :=
  command_with_durable_wake (fun selector => AskPrompt selector prompt) active ("prompt RLM child session " ++ active).
Definition kill_child (active : string) (reason : ChildCloseReason) : prog (anyhow + unit) :=
  let& r := call (Ask (AskKill active (wire_marker reason))) in Ret (with_context ("kill RLM child session " ++ active) r).
Definition state_busy (state : Value) : bool :=
  let flag name := default false (get name state ≫= decode_bool) in
  let queued := actions ← get "sessionActions" state; n ← get "queuedCount" actions; as_u64 n in
  flag "isStreaming" || flag "hasRunningSubagents" || Z.ltb 0 (default 0%Z queued).
Definition child_busy (active : string) : prog (anyhow + bool) :=
  let& state := call (Ask (AskState active)) in Ret (match state with inl e => inl e | inr v => inr (state_busy v) end).
Definition child_answer_raw (active : string) : prog (anyhow + option string) :=
  let& answer := call (Ask (AskLastText active)) in
  Ret (match answer with
       | inl e => inl e
       | inr v => inr (match get_str "text" v with Some t => if is_empty t then None else Some t | None => None end)
       end).
Definition wait_for_child (active : string) (budget : bool) : prog unit := if budget then call (Ask (AskWait active)) else Ret tt.
Definition is_busy (r : anyhow + bool) : bool := match r with inr b => b | inl _ => false end.
Definition is_idle (r : anyhow + bool) : bool := match r with inr b => negb b | inl _ => false end.

Definition refresh_record (r : nat) : prog unit :=
  let& c := call (Read r) in
  if negb (cr_prompt_admitted c) then Ret tt
  else
    let& c := call (Read r) in
    let& busy := child_busy (cr_active_session_id c) in
    if negb (is_idle busy) then Ret tt
    else let& raw := child_answer_raw (cr_active_session_id c) in call (Verdict r (result_ok raw)).
(** [rlm_children.rs]: the settle funnel. *)
Definition fire_settle_hook (r : nat) : prog unit := do& call (Settle r) in call RefreshRunning.
(** A claimed notice goes to the parent; a failed delivery is only logged. *)
Definition deliver_claimed (r : nat) (claimed : option Notice) : prog unit :=
  match claimed with Some n => call (DeliverNotice r n) | None => Ret tt end.
Definition deliver_settle_notice (r : nat) : prog unit := let& claimed := call (ClaimSettleNotice r) in deliver_claimed r claimed.
(** What a child that dies said last. *)
Definition exit_text (c : ChildRecord) : prog (option string) :=
  if cr_answer_captured c && bool_decide (is_Some (cr_answer c)) then Ret None
  else
    let& live := child_answer_raw (cr_active_session_id c) in
    match result_ok live with
    | Some t => Ret (Some t)
    | None =>
        match cr_session_file c with
        | Some file => if is_empty file then Ret None else call (Ask (AskFileText file))
        | None => Ret None
        end
    end.
Definition settle_failed (r : nat) (error : string) (arm : FailedArm) : prog bool :=
  let& c := call (Read r) in
  let& text := exit_text c in
  let& claimed := call (ClaimFailure r arm error text) in
  match claimed with
  | None => Ret false
  | Some n => do& call (DeliverNotice r n) in do& fire_settle_hook r in Ret true
  end.

(** [usage.rs] *)
Definition emit_final_child_usage (r : nat) : prog unit :=
  let& ok := call (Emit r) in
  if ok then Ret tt
  else let& c := call (Read r) in if cr_closed_by_parent c then Ret tt else do& call (Emit r) in Ret tt.
Definition forget_child_usage (r : nat) : prog bool :=
  let& c := call (Read r) in
  if cr_usage_registration_forgotten c then Ret true
  else
    let& sink := call HasSink in
    if negb sink then Ret true
    else let& ok := call (Emit r) in if negb ok then Ret false else call (Forget r).

(** [watch_child_settle]; [n] bounds the rounds. *)
Definition WATCH_MAX_UNREACHABLE_POLLS : nat := 150.
Fixpoint watch_child_settle (n : nat) (r : nat) (unreachable_polls : nat) : prog unit :=
  match n with
  | O => Spin
  | S n' =>
      let& c := call (Read r) in
      if cr_closed_by_parent c then Ret tt
      else
        do& call (Emit r) in
        let& c := call (Read r) in
        let active := cr_active_session_id c in
        do& wait_for_child active true in
        do& refresh_record r in
        let& c := call (Read r) in
        if negb (is_running c) then
          let& busy := child_busy active in
          if is_busy busy then do& call (ResetVerdict r) in watch_child_settle n' r unreachable_polls
          else
            do& refresh_record r in
            do& emit_final_child_usage r in
            do& deliver_settle_notice r in
            fire_settle_hook r
        else
          let& busy := child_busy active in
          match busy with
          | inr _ => watch_child_settle n' r 0
          | inl _ =>
              if (WATCH_MAX_UNREACHABLE_POLLS <=? S unreachable_polls)%nat then
                do& emit_final_child_usage r in
                let& claimed := settle_failed r "Child worker unreachable" ArmUnreachable in
                if claimed then Ret tt
                else
                  let& c := call (Read r) in
                  if is_running c then Ret tt else watch_child_settle n' r 0
              else watch_child_settle n' r (S unreachable_polls)
          end
  end.
(** The task a spawn leaves behind: the prompt, once more when it provably did
    not land, and the watch. *)
Definition kickoff (n : nat) (r : nat) (active prompt : string) (file : option string) (id : string) : prog unit :=
  do& call (Ask AskTurnDone) in
  let& c := call (Read r) in
  if cr_closed_by_parent c then Ret tt
  else
    do& call (AdmitPrompt r) in
    let& sent := prompt_child active prompt in
    let& retried := match sent with
                    | inr _ => Ret (inr tt)
                    | inl _ => let& landed := call (Ask (AskKickoffLanded file ("spawn:" ++ id))) in
                               if landed then Ret (inr tt) else prompt_child active prompt
                    end in
    match retried with
    | inl e =>
        do& kill_child active CloseKilled in
        do& settle_failed r (anyhow_display_full e) ArmPrompt in Ret tt
    | inr _ => watch_child_settle n r 0
    end.

(** [arm_usage_watch], [watch_child_usage]. *)
Definition arm_usage_watch (r : nat) : prog unit :=
  let& c := call (Read r) in
  if cr_closed_by_parent c then Ret tt
  else
    let& c := call (Read r) in
    do& match cr_attributed_rows c, cr_session_file c with
        | None, Some file =>
            if is_empty file then Ret tt
            else let& tail := call (Ask (AskTail file)) in match tail with Some n => call (PrimeCursor r n) | None => Ret tt end
        | _, _ => Ret tt
        end in
    let& spawned := call (ArmWatch r) in
    if spawned then Fork (UsageWatch r) (Ret tt) else Ret tt.
(** The three phases of the follow-up watch: the child sits idle once, the
    turn starts, the turn ends; [false]: the watch is over. *)
Fixpoint wait_idle (n : nat) (r : nat) (unreachable : nat) : prog bool :=
  match n with
  | O => Spin
  | S n' =>
      let& c := call (Read r) in
      if cr_closed_by_parent c then do& call (StopWatch r) in Ret false
      else
        let& c := call (Read r) in
        let& busy := child_busy (cr_active_session_id c) in
        match busy with
        | inr false => Ret true
        | inr true => wait_idle n' r unreachable
        | inl _ =>
            if (WATCH_MAX_UNREACHABLE_POLLS <=? S unreachable)%nat
            then do& emit_final_child_usage r in do& call (StopWatch r) in Ret false
            else wait_idle n' r (S unreachable)
        end
  end.
Fixpoint wait_start (n : nat) (r : nat) : prog (option bool) :=
  match n with
  | O => Spin
  | S n' =>
      let& c := call (Read r) in
      if cr_closed_by_parent c then do& call (StopWatch r) in Ret None
      else
        let& c := call (Read r) in
        let& busy := child_busy (cr_active_session_id c) in
        if is_busy busy then Ret (Some true)
        else let& left := call (Ask AskTimeLeft) in if left then wait_start n' r else Ret (Some false)
  end.
Fixpoint wait_end (n : nat) (r : nat) (unreachable : nat) : prog unit :=
  match n with
  | O => Spin
  | S n' =>
      let& c := call (Read r) in
      if cr_closed_by_parent c then Ret tt
      else
        let& c := call (Read r) in
        let active := cr_active_session_id c in
        do& wait_for_child active true in
        let& busy := child_busy active in
        match busy with
        | inr false =>
            let& again := child_busy active in
            if is_idle again then emit_final_child_usage r else wait_end n' r unreachable
        | inr true => do& call (Emit r) in wait_end n' r 0
        | inl _ =>
            if (WATCH_MAX_UNREACHABLE_POLLS <=? S unreachable)%nat then emit_final_child_usage r else wait_end n' r (S unreachable)
        end
  end.
Fixpoint watch_child_usage (n : nat) (r : nat) : prog unit :=
  match n with
  | O => Spin
  | S n' =>
      let& idle := wait_idle n' r 0 in
      if negb idle then Ret tt
      else
        let& started := wait_start n' r in
        match started with
        | None => Ret tt
        | Some started =>
            do& (if started : bool then wait_end n' r 0 else emit_final_child_usage r) in
            let& rearm := call (EndWatch r) in
            if rearm then watch_child_usage n' r else Ret tt
        end
  end.

(** [registry.rs] *)
Definition finish_retirement (r : nat) : prog unit :=
  let& finished := call (IsFinished r) in
  if finished then Ret tt
  else
    let& intent := call (Intent r) in
    match intent with
    | None => Panic
    | Some i =>
        let deleted := match i with RetireDelete _ => true | RetireClose => false end in
        let cancelled := match i with RetireDelete b => b | RetireClose => false end in
        do& call (MarkRetired r i) in
        do& call (DropRecord r) in
        do& (if deleted then
               do& call (NotifyDeleted r) in
               let& claimed := call (ClaimCancelNotice r cancelled) in deliver_claimed r claimed
             else Ret tt) in
        do& call RefreshRunning in
        call (Finish r)
    end.
(** The last steps of every retirement, under the rename lock. *)
Definition conclude_retirement (r : nat) : prog bool :=
  let& persisted := forget_child_usage r in
  do& finish_retirement r in
  do& (if persisted : bool then call (RemoveRetired r) else Ret tt) in
  Ret persisted.
Definition has_retired_usage (r : nat) : prog bool := let& i := call (Intent r) in Ret (bool_decide (is_Some i)).
Fixpoint replay_walk (rs : list (nat * RetirementIntent)) (target : option string) (persisted : bool) : prog bool :=
  match rs with
  | [] => Ret persisted
  | (r, _) :: rest =>
      let& c := call (Read r) in
      if negb (match target with None => true | Some t => matches c t end) then replay_walk rest target persisted
      else
        do& call (LockRename r) in
        let& there := has_retired_usage r in
        if negb there then do& call (UnlockRename r) in replay_walk rest target persisted
        else
          let& held := call (IsHeld r) in
          if held then do& call (UnlockRename r) in replay_walk rest target persisted
          else
            let& ok := conclude_retirement r in
            do& call (UnlockRename r) in
            replay_walk rest target (persisted && ok)
  end.
Definition replay_retired_usage (target : option string) : prog bool := let& rs := call Retired in replay_walk rs target true.
Definition OWED_DELETE : anyhow := anyhow_msg "RLM child usage remains owed after retirement; retry deletion".
Definition OWED_CLOSE : anyhow := anyhow_msg "RLM child usage remains owed after retirement; retry close".

Fixpoint cancel_walk (rs : list nat) (child_id : string) : prog bool :=
  match rs with
  | [] => Ret false
  | r :: rest =>
      let& c := call (Read r) in
      if negb (String.eqb (cr_rlm_child_id c) child_id) || negb (is_running c) then cancel_walk rest child_id
      else
        do& call (CancelRun r) in
        do& call (Emit r) in
        do& call (Ask (AskAbort (cr_active_session_id c))) in
        do& fire_settle_hook r in
        Ret true
  end.
Definition cancel_child_run (child_id : string) : prog bool := let& rs := call Children in cancel_walk rs child_id.
Definition retire_dead_child_name (name : string) : prog (anyhow + string) :=
  let& found := call (FindRecord name) in
  match found with
  | None => Ret (inr "not_found")
  | Some r =>
      let& c := call (Read r) in
      if is_running c then Ret (inr "running")
      else
        let& appended := match cr_session_file c with
                         | Some file => call (Ask (AskLedgerDelete (cr_rlm_child_id c) file))
                         | None => Ret (inr tt)
                         end in
        match appended with
        | inl e => Ret (inl e)
        | inr _ => do& call (DropRecord r) in Ret (inr "deleted")
        end
  end.
Fixpoint delete_inactive_walk (rs : list nat) (child_id : string) : prog (option (anyhow + string)) :=
  match rs with
  | [] => Ret None
  | r :: rest =>
      let& c := call (Read r) in
      if negb (String.eqb (cr_rlm_child_id c) child_id) then delete_inactive_walk rest child_id
      else
        do& call (LockRename r) in
        let& already := has_retired_usage r in
        let& held := call (IsHeld r) in
        if negb held then do& call (UnlockRename r) in delete_inactive_walk rest child_id
        else
          do& (if already : bool then Ret tt else refresh_record r) in
          let& c := call (Read r) in
          if is_running c && negb already then do& call (UnlockRename r) in Ret (Some (inr "running"))
          else
            let& killed := if already : bool then Ret (inr tt)
                           else
                             do& call (Emit r) in
                             let& k := call (Ask (AskKillDelete (cr_active_session_id c) child_id)) in
                             match k with
                             | inl e => Ret (inl (anyhow_context ("kill RLM child " ++ quoted child_id) e))
                             | inr _ => do& call (Retain r (RetireDelete false)) in do& call (Emit r) in Ret (inr tt)
                             end in
            match killed with
            | inl e => do& call (UnlockRename r) in Ret (Some (inl e))
            | inr _ =>
                let& persisted := conclude_retirement r in
                do& call (UnlockRename r) in
                Ret (Some (if persisted : bool then inr "deleted" else inl OWED_DELETE))
            end
  end.
Definition delete_inactive_subagent (child_id : string) : prog (anyhow + string) :=
  let& ok := replay_retired_usage (Some child_id) in
  if negb ok then Ret (inl OWED_DELETE)
  else
    let& rs := call Children in
    let& found := delete_inactive_walk rs child_id in
    match found with
    | Some r => Ret r
    | None =>
        let& dead := call (Tombstones child_id) in
        Ret (inr (if existsb (fun d => String.eqb (dc_rlm_child_id d) child_id) dead then "deleted" else "not_found"))
    end.
Fixpoint close_walk (rs : list nat) (reason : ChildCloseReason) (error : option anyhow) : prog (option anyhow) :=
  match rs with
  | [] => Ret error
  | r :: rest =>
      do& call (LockRename r) in
      let& held := call (IsHeld r) in
      if negb held then do& call (UnlockRename r) in close_walk rest reason error
      else
        let& already := has_retired_usage r in
        let& killed := if already : bool then Ret (inr tt)
                       else
                         do& call (CloseMark r) in
                         do& call (Emit r) in
                         let& c := call (Read r) in
                         let& k := kill_child (cr_active_session_id c) reason in
                         match k with
                         | inl e => if unknown_session e then do& call (Retain r RetireClose) in do& call (Emit r) in Ret (inr tt) else Ret (inl e)
                         | inr _ => do& call (Retain r RetireClose) in do& call (Emit r) in Ret (inr tt)
                         end in
        match killed with
        | inl e => do& call (UnlockRename r) in close_walk rest reason (Some (default e error))
        | inr _ =>
            let& persisted := conclude_retirement r in
            do& call (UnlockRename r) in
            close_walk rest reason (if persisted : bool then error else Some (default OWED_CLOSE error))
        end
  end.
Definition close_children_inner (reason : ChildCloseReason) : prog (anyhow + unit) :=
  let& ok := replay_retired_usage None in
  let& rs := call Children in
  let& error := close_walk rs reason (if ok : bool then None else Some OWED_CLOSE) in
  do& call RefreshRunning in
  Ret (match error with Some e => inl e | None => inr tt end).
Definition reseed_from_ledger : prog unit :=
  let& identity := call Identity in
  match pi_session_file identity with
  | None => Ret tt
  | Some parent => let& cs := call (Ask (AskLedgerChildren parent)) in call (Reseed parent cs)
  end.

(** [host.rs] *)
Record SpawnHandle := mkHandle { sh_record : nat; sh_rlm_child_id : string; sh_name : string; sh_model : string }.
Definition name_unavailable (name : string) (depth : Z) : anyhow :=
  anyhow_msg ("Agent name " ++ quoted name ++ " is unavailable: an agent of that name already exists at depth " ++ show_Z depth ++ " under this parent").
Definition depth_limit (depth max_depth : Z) : anyhow :=
  anyhow_msg ("RLM recursion depth limit reached (RLM_DEPTH=" ++ show_Z depth ++ ", RLM_MAX_DEPTH=" ++ show_Z max_depth ++ ")").
Definition registered (child_id name : string) (c : Created) : ChildRecord :=
  mkChild child_id (default name (ct_session_name c)) (ct_active c) (ct_session_id c) (ct_session_file c)
    None false None false false false false None false false false false (Some 0%nat) None false false.
Definition admit_spawn (child_id name : string) (model_reference : option string) (depth : Z) : prog (anyhow + (nat * Created * string)) :=
  let& taken := call (NameTaken name) in
  if taken then Ret (inl (name_unavailable name depth))
  else
    let& model := call (Ask (AskModel model_reference)) in
    match model with
    | inl e => Ret (inl e)
    | inr model =>
        let& thinking := call (Ask (AskThinking model)) in
        match thinking with
        | inl e => Ret (inl e)
        | inr _ =>
            let& dir := call (Ask (AskSessionDir child_id)) in
            match dir with
            | inl e => Ret (inl (anyhow_context ("spawn RLM child session dir " ++ child_id) e))
            | inr dir =>
                let& created := create_child child_id (Some name) depth model dir in
                match created with
                | inl e => Ret (inl e)
                | inr c =>
                    let& r := call (Push (registered child_id name c)) in
                    do& call RefreshRunning in
                    Ret (inr (r, c, model))
                end
            end
        end
    end.
Definition spawn_child (prompt : string) (requested model_reference : option string) : prog (anyhow + SpawnHandle) :=
  let& identity := call Identity in
  if (pi_max_depth identity <=? pi_depth identity)%Z then Ret (inl (depth_limit (pi_depth identity) (pi_max_depth identity)))
  else
    let& child_id := call (Ask AskNewId) in
    let& name := match requested with Some name => Ret name | None => call (Ask (AskDefaultName prompt child_id)) end in
    let depth := (pi_depth identity + 1)%Z in
    let& reserved := match requested with Some _ => call (Reserve name) | None => Ret true end in
    if negb reserved then Ret (inl (name_unavailable name depth))
    else
      let release := match requested with Some _ => call (Unreserve name) | None => Ret tt end in
      let& admission := admit_spawn child_id name model_reference depth in
      match admission with
      | inl e => do& release in Ret (inl e)
      | inr (r, c, model) =>
          Fork (Kickoff r (ct_active c) ("[task from parent]" ++ nl_str ++ nl_str ++ prompt) (ct_session_file c) child_id)
            (do& release in Ret (inr (mkHandle r child_id name model)))
      end.
(** What [delete_subagent] returns: the child it deleted, or the receipt of an
    earlier deletion. *)
Inductive DeleteResult := DeletedNow (r : nat) | DeletedBefore (d : DeletedChild).
Definition no_match (kind target : string) : anyhow := anyhow_msg ("No direct RLM " ++ kind ++ " matches " ++ quoted target ++ " in the current parent session").
Definition ambiguous (kind target : string) : anyhow := anyhow_msg ("RLM " ++ kind ++ " selector " ++ quoted target ++ " is ambiguous in the current parent session").
(** [resolve_record], with the tombstones behind it. *)
Definition resolve (kind target : string) : prog (anyhow + (nat + DeletedChild)) :=
  let& found := call (Resolve target) in
  match found with
  | [r] => Ret (inr (inl r))
  | _ =>
      let miss := match found with [] => no_match kind target | _ => ambiguous kind target end in
      let& dead := call (Tombstones target) in
      Ret (match dead with [] => inl miss | [d] => inr (inr d) | _ => inl (ambiguous kind target) end)
  end.
Definition delete_record (target : string) (r : nat) : prog (anyhow + DeleteResult) :=
  do& call (LockRename r) in
  let& already := has_retired_usage r in
  let& c := call (Read r) in
  if (cr_closed_by_parent c && negb already) || negb (matches c target)
  then do& call (UnlockRename r) in Ret (inl (no_match "subagent" target))
  else
    let& c := call (Read r) in
    let& was := call (Read r) in
    let& killed := if already : bool then Ret (inr tt)
                   else
                     do& call (Emit r) in
                     let& k := call (Ask (AskKillDelete (cr_active_session_id c) (cr_rlm_child_id c))) in
                     match k with
                     | inl e => Ret (inl (anyhow_context ("kill RLM child " ++ quoted target) e))
                     | inr _ => do& call (Retain r (RetireDelete (is_running was))) in do& call (Emit r) in Ret (inr tt)
                     end in
    match killed with
    | inl e => do& call (UnlockRename r) in Ret (inl e)
    | inr _ =>
        let& persisted := conclude_retirement r in
        do& call (UnlockRename r) in
        Ret (if persisted : bool then inr (DeletedNow r) else inl OWED_DELETE)
    end.
Definition delete_subagent (target : string) : prog (anyhow + DeleteResult) :=
  let& ok := replay_retired_usage (Some target) in
  if negb ok then Ret (inl OWED_DELETE)
  else
    let& found := resolve "subagent" target in
    match found with
    | inl e => Ret (inl e)
    | inr (inr d) => Ret (inr (DeletedBefore d))
    | inr (inl r) => delete_record target r
    end.
(** One child of a [collect]. *)
Definition collect_one (r : nat) : prog ChildRecord :=
  do& refresh_record r in
  let& c := call (Read r) in
  do& (if is_running c then Ret tt
       else
         let& c := call (Read r) in
         let& busy := child_busy (cr_active_session_id c) in
         if is_busy busy then arm_usage_watch r else Ret tt) in
  let& c := call (Read r) in
  do& (if is_running c then
         let& left := call (Ask AskTimeLeft) in
         let& c := call (Read r) in
         do& wait_for_child (cr_active_session_id c) left in
         refresh_record r
       else Ret tt) in
  call (Read r).
Fixpoint collect_targets (targets : list string) : prog (anyhow + (list nat * list DeletedChild)) :=
  match targets with
  | [] => Ret (inr ([], []))
  | target :: rest =>
      let& found := resolve "child" target in
      match found with
      | inl e => Ret (inl e)
      | inr x =>
          let& more := collect_targets rest in
          Ret (match more with
               | inl e => inl e
               | inr (rs, ds) => inr (match x with inl r => (r :: rs, ds) | inr d => (rs, d :: ds) end)
               end)
      end
  end.
Fixpoint collect_all (rs : list nat) : prog (list ChildRecord) :=
  match rs with
  | [] => Ret []
  | r :: rest => let& c := collect_one r in let& cs := collect_all rest in Ret (c :: cs)
  end.
Definition collect (targets : list string) : prog (anyhow + (list ChildRecord * list DeletedChild)) :=
  let& all := match targets with [] => call Children | _ => Ret [] end in
  let& found := collect_targets targets in
  match found with
  | inl e => Ret (inl e)
  | inr (rs, ds) => let& cs := collect_all (all ++ rs)%list in Ret (inr (cs, ds))
  end.
Definition RENAME_SCOPE : anyhow := anyhow_msg "rlm.rename can only rename the current session or one of its direct children".
Definition rename_child (r : nat) (name : string) : prog (anyhow + string) :=
  let& c := call (Read r) in
  do& call (LockRename r) in
  let& now := call (Read r) in
  if cr_closed_by_parent now then do& call (UnlockRename r) in Ret (inl RENAME_SCOPE)
  else
    let& done := command_with_durable_wake (fun selector => AskRename selector name) (cr_active_session_id c)
                   ("rename session " ++ quoted (cr_active_session_id c)) in
    match done with
    | inl e => do& call (UnlockRename r) in Ret (inl e)
    | inr _ => do& call (SetName r name) in do& call (UnlockRename r) in Ret (inr name)
    end.
Definition rename (name : string) (session_id : option string) : prog (anyhow + string) :=
  let& identity := call Identity in
  let own := pi_active_session_id identity in
  if match session_id with None => true | Some t => String.eqb t own || opt_is t (pi_session_id identity) end then
    let& done := command_with_durable_wake (fun selector => AskRename selector name) own ("rename session " ++ quoted own) in
    Ret (match done with inl e => inl e | inr _ => inr name end)
  else
    let target := default "" session_id in
    let& found := call (RenameTarget target) in
    match found with
    | (Some r, _) => rename_child r name
    | (None, true) => Ret (inl (anyhow_msg ("rlm.rename session_id " ++ quoted target ++ " must be the full session id or a child handle, not a session name or id suffix")))
    | (None, false) => Ret (inl RENAME_SCOPE)
    end.
Definition observe_child_usage (target : string) : prog unit :=
  let& found := call (FindRecord target) in match found with Some r => arm_usage_watch r | None => Ret tt end.
End Programs.

(** ** The tasks *)
Inductive request :=
| ReqSpawn (prompt : string) (name model : option string)
| ReqDelete (target : string) | ReqDeleteInactive (child_id : string) | ReqRetire (name : string)
| ReqCancel (child_id : string) | ReqClose (reason : ChildCloseReason) | ReqCollect (targets : list string)
| ReqRename (name : string) (session_id : option string)
| ReqReplied (active : string) | ReqObserve (target : string) | ReqReseed.
Inductive outcome :=
| OutSpawn (r : anyhow + SpawnHandle) | OutDelete (r : anyhow + DeleteResult) | OutVerdict (r : anyhow + string)
| OutCancel (b : bool) | OutClose (r : anyhow + unit) | OutCollect (r : anyhow + (list ChildRecord * list DeletedChild)) | OutDone.
Record Sys := mkSys { s_registry : Registry; s_tasks : gmap nat (prog outcome); s_next : nat }.
Definition request_prog (q : request) : prog outcome :=
  match q with
  | ReqSpawn prompt name model => let& r := spawn_child prompt name model in Ret (OutSpawn r)
  | ReqDelete target => let& r := delete_subagent target in Ret (OutDelete r)
  | ReqDeleteInactive id => let& r := delete_inactive_subagent id in Ret (OutVerdict r)
  | ReqRetire name => let& r := retire_dead_child_name name in Ret (OutVerdict r)
  | ReqCancel id => let& b := cancel_child_run id in Ret (OutCancel b)
  | ReqClose reason => let& r := close_children_inner reason in Ret (OutClose r)
  | ReqCollect targets => let& r := collect targets in Ret (OutCollect r)
  | ReqRename name id => let& r := rename name id in Ret (OutVerdict r)
  | ReqReplied active => do& call (MarkReplied active) in Ret OutDone
  | ReqObserve target => do& observe_child_usage target in Ret OutDone
  | ReqReseed => do& reseed_from_ledger in Ret OutDone
  end.
Inductive event :=
| Request (q : request)
| Step (t : nat)
| Dropped (t : nat)                      (* the future is dropped: its guards are released *)
| Rebind (identity : ParentIdentity).    (* [set_identity] *)

Section Tasks.
Context (world : nat -> forall A, ask A -> A) (fuel : nat).
Definition job_prog (j : job) : prog outcome :=
  match j with
  | Kickoff r active prompt file id => do& kickoff fuel r active prompt file id in Ret OutDone
  | UsageWatch r => do& watch_child_usage fuel r in Ret OutDone
  end.
Definition tick (s : Registry) : Registry := put_clock (S (g_clock s)) s.
Definition drop_guards (t : nat) (s : Registry) : Registry :=
  put_rename (filter (fun p => snd p <> t) (g_rename s)) (put_pending (filter (fun p => snd p <> t) (g_pending s)) s).
Definition exec (e : event) (s : Sys) : option Sys :=
  match e with
  | Request q => Some (mkSys (s_registry s) (<[s_next s := request_prog q]> (s_tasks s)) (S (s_next s)))
  | Step t =>
      match s_tasks s !! t with
      | Some (Call o k) =>
          match perform world t o (s_registry s) with
          | Some (a, g) => Some (mkSys (tick g) (<[t := k a]> (s_tasks s)) (s_next s))
          | None => None
          end
      | Some (Fork j k) => Some (mkSys (s_registry s) (<[s_next s := job_prog j]> (<[t := k]> (s_tasks s))) (S (s_next s)))
      | _ => None
      end
  | Dropped t =>
      match s_tasks s !! t with
      | Some (Call _ _) | Some (Fork _ _) => Some (mkSys (drop_guards t (s_registry s)) (delete t (s_tasks s)) (s_next s))
      | _ => None
      end
  | Rebind identity => Some (mkSys (put_identity identity (s_registry s)) (s_tasks s) (s_next s))
  end.
Definition opened (identity : ParentIdentity) (sink : bool) : Sys :=
  mkSys (mkRegistry [] [] [] ∅ ∅ ∅ false sink identity 0 ∅ [] [] [] ∅) ∅ 0.
Fixpoint run_tasks (es : list event) (s : Sys) : option Sys :=
  match es with [] => Some s | e :: rest => exec e s ≫= run_tasks rest end.
Inductive reachable : Sys -> Prop :=
| reach_opened identity sink : reachable (opened identity sink)
| reach_step s e s' : reachable s -> exec e s = Some s' -> reachable s'.
End Tasks.
