(* ===== verification/ChildrenProofs.v ===== *)
(** * Child sessions: what every task keeps to

    A task carries tokens: the rename locks it holds (with whether the child's
    retirement is on record), the notices it has claimed, the records it
    knows, the records it knows to be gone, the records whose usage it knows
    to be billed for good (of all, when there is no sink).  [rule] says what a step needs of
    them and what it leaves; [ok] that a program keeps to the rules.  Every
    step of a program that does preserves the invariant of the registry and
    the tokens of everybody else. *)
From S2P Require Import Prelude RustStr Json Time World LedgerReplay Journal State Children.
#[local] Open Scope string_scope.

Record tok := mkTok {
  tk_locks : list (nat * bool); tk_notices : list nat; tk_known : list nat; tk_gone : list nat; tk_paid : list nat; tk_free : bool }.
Definition with_locks l (T : tok) : tok := mkTok l (tk_notices T) (tk_known T) (tk_gone T) (tk_paid T) (tk_free T).
Definition with_notices n (T : tok) : tok := mkTok (tk_locks T) n (tk_known T) (tk_gone T) (tk_paid T) (tk_free T).
Definition knows (l : list nat) (T : tok) : tok := mkTok (tk_locks T) (tk_notices T) (l ++ tk_known T) (tk_gone T) (tk_paid T) (tk_free T).
Definition sees_gone (l : list nat) (T : tok) : tok := mkTok (tk_locks T) (tk_notices T) (tk_known T) (l ++ tk_gone T) (tk_paid T) (tk_free T).
Definition pays (r : nat) (T : tok) : tok := mkTok (tk_locks T) (tk_notices T) (tk_known T) (tk_gone T) (r :: tk_paid T) (tk_free T).
Definition free (T : tok) : tok := mkTok (tk_locks T) (tk_notices T) (tk_known T) (tk_gone T) (tk_paid T) true.
(** Known records that are not among [l]. *)
Definition missing (l : list nat) (T : tok) : list nat := filter (fun r => r ∉ l) (tk_known T).
Definition fresh_child (c : ChildRecord) : Prop :=
  cr_retirement_finished c = false /\ cr_retirement_notified c = false /\ cr_pending_usage_report c = None /\ cr_usage_registration_forgotten c = false.
Definition claimed (r : nat) (n : option Notice) (T : tok) : tok := match n with Some _ => with_notices (r :: tk_notices T) T | None => T end.

Definition rule {A} (o : op A) (T : tok) (Φ : A -> tok -> Prop) : Prop :=
  match o in op B return (B -> tok -> Prop) -> Prop with
  | Read r => fun Φ => forall c, Φ c (if cr_usage_registration_forgotten c then pays r T else T)
  | Children => fun Φ => forall l, Φ l (knows l (sees_gone (missing l T) T))
  | IsHeld r => fun Φ => r ∈ tk_known T /\ forall b : bool, Φ b (if b then T else sees_gone [r] T)
  | FindRecord _ => fun Φ => forall o, Φ o (knows (option_list o) T)
  | Resolve _ => fun Φ => forall l, Φ l (knows l T)
  | RenameTarget _ => fun Φ => forall x, Φ x (knows (option_list (fst x)) T)
  | Retired => fun Φ => forall l, Φ l (knows (map fst l) T)
  | Push c => fun Φ => fresh_child c /\ forall r, Φ r (knows [r] T)
  | IsFinished r => fun Φ => forall b : bool, Φ b (if b then sees_gone [r] T else T)
  | DropRecord r => fun Φ => r ∈ tk_known T /\ Φ tt (sees_gone [r] T)
  | Finish r => fun Φ => r ∈ tk_gone T /\ Φ tt T
  | LockRename r => fun Φ => Φ tt (with_locks ((r, false) :: tk_locks T) T)
  | UnlockRename r => fun Φ => exists b rest, tk_locks T = (r, b) :: rest /\ Φ tt (with_locks rest T)
  | Intent r => fun Φ =>
      match tk_locks T with
      | (r', b) :: rest => r' = r /\ forall i, (b = true -> i <> None) -> Φ i (with_locks ((r, bool_decide (is_Some i)) :: rest) T)
      | [] => False
      end
  | Retain r _ => fun Φ => r ∈ tk_known T /\ exists b rest, tk_locks T = (r, b) :: rest /\ Φ tt (with_locks ((r, true) :: rest) T)
  | RemoveRetired r => fun Φ => exists b rest, tk_locks T = (r, b) :: rest /\ Φ tt (with_locks ((r, false) :: rest) T)
  | ClaimSettleNotice r => fun Φ => r ∈ tk_known T /\ forall n, Φ n (claimed r n T)
  | ClaimFailure r _ _ _ => fun Φ => r ∈ tk_known T /\ forall n, Φ n (claimed r n T)
  | ClaimCancelNotice r _ => fun Φ => r ∈ tk_known T /\ forall n, Φ n (claimed r n T)
  | DeliverNotice r _ => fun Φ => exists rest, tk_notices T = r :: rest /\ Φ tt (with_notices rest T)
  | NotifyDeleted r => fun Φ => r ∈ tk_known T /\ Φ tt T
  | Emit r => fun Φ => r ∈ tk_known T /\ forall b, Φ b T
  | HasSink => fun Φ => forall b : bool, Φ b (if b then T else free T)
  | Forget r => fun Φ => r ∈ tk_known T /\ forall b : bool, Φ b (if b then pays r T else T)
  | _ => fun Φ => forall a, Φ a T
  end Φ.
Fixpoint ok {A} (Q : A -> tok -> Prop) (T : tok) (p : prog A) : Prop :=
  match p with
  | Ret a => Q a T
  | Call o k => rule o T (fun b T' => ok Q T' (k b))
  | Fork j k => (match j with Kickoff r _ _ _ _ | UsageWatch r => r ∈ tk_known T end) /\ ok Q T k
  | Panic => False
  | Spin => True
  end.
Lemma rule_mono {A} (o : op A) T (Φ Ψ : A -> tok -> Prop) : (forall a T', Φ a T' -> Ψ a T') -> rule o T Φ -> rule o T Ψ.
Proof.
  intros Hm. destruct o; cbn; try naive_solver. destruct (tk_locks T) as [|[r' b] rest]; naive_solver.
Qed.
Lemma ok_bind {A B} (Q : B -> tok -> Prop) (f : A -> prog B) p T : ok (fun a T' => ok Q T' (f a)) T p -> ok Q T (bind p f).
Proof.
  revert T. induction p as [a|C o k IH|j k IH| |]; intros T; cbn; try done.
  - apply rule_mono. intros b T'. apply IH.
  - intros [Hj Hk]. split; [done|]. by apply IH.
Qed.
Lemma ok_mono {A} (Q Q' : A -> tok -> Prop) p T : (forall a T', Q a T' -> Q' a T') -> ok Q T p -> ok Q' T p.
Proof.
  intros Hm. revert T. induction p as [a|C o k IH|j k IH| |]; intros T; cbn; try done; auto.
  - apply rule_mono. intros b T'. apply IH.
  - intros [Hj Hk]. split; [done|]. by apply IH.
Qed.

(** ** The invariant *)
Definition reports_of (g : Registry) (r : nat) : list Report := omap (fun x => if Nat.eqb (fst x) r then Some (snd x) else None) (g_reports g).
(** Every report bills rows, and all but the last are acknowledged. *)
Definition usage_ok (g : Registry) (r : nat) : Prop :=
  let c := child g r in
  (forall p, p ∈ reports_of g r -> (rp_from p < rp_next p)%nat /\ (rp_id p ∈ g_acked g \/ cr_pending_usage_report c = Some p))
  /\ forall p, cr_pending_usage_report c = Some p -> exists l, reports_of g r = (l ++ [p])%list.
(** They bill rows in order, none twice; nothing before the cursor is left. *)
Definition rows_ok (g : Registry) (r : nat) : Prop :=
  let c := child g r in
  StronglySorted (fun a b => rp_next a <= rp_from b)%nat (reports_of g r)
  /\ (cr_pending_usage_report c = None -> forall p, p ∈ reports_of g r -> exists n, cr_attributed_rows c = Some n /\ (rp_next p <= n)%nat).
(** A transcript never has fewer rows than the cursor. *)
Definition append_only (world : nat -> forall A, ask A -> A) : Prop :=
  forall t file from round next bills, world t _ (AskRows file from round) = Some (next, bills) -> (from <= next)%nat.
Section Logic.
(** [steady]: transcripts only grow. *)
Context (steady : Prop).
Record si (g : Registry) : Prop := {
  si_children r : r ∈ g_children g -> (r < List.length (g_records g))%nat;
  si_retired r i : (r, i) ∈ g_retired g -> (r < List.length (g_records g))%nat;
  si_finished r : cr_retirement_finished (child g r) = true -> r ∉ g_children g;
  si_owed r t : g_owed g !! r = Some t -> cr_notice_delivered (child g r) = true /\ r ∉ map fst (g_notices g);
  si_notices : NoDup (map fst (g_notices g)) /\ forall r, r ∈ map fst (g_notices g) -> cr_notice_delivered (child g r) = true;
  si_notified : NoDup (g_notified g) /\ forall r, r ∈ g_notified g -> cr_retirement_notified (child g r) = true;
  si_ids i r p : g_reports g !! i = Some (r, p) -> rp_id p = i /\ (r < List.length (g_records g))%nat;
  si_usage r : usage_ok g r;
  si_rows r : steady -> rows_ok g r;
  si_forgotten r : cr_usage_registration_forgotten (child g r) = true -> cr_pending_usage_report (child g r) = None;
  si_free : g_sink g = false -> g_reports g = []
}.
(** What the tokens of task [t] mean. *)
Record holds (t : nat) (T : tok) (g : Registry) : Prop := {
  hd_locks r b : (r, b) ∈ tk_locks T -> g_rename g !! r = Some t /\ (b = true -> intent_of r g <> None);
  hd_once : NoDup (map fst (tk_locks T));
  hd_notices r : r ∈ tk_notices T -> g_owed g !! r = Some t;
  hd_notices_once : NoDup (tk_notices T);
  hd_known r : r ∈ tk_known T -> (r < List.length (g_records g))%nat;
  hd_gone r : r ∈ tk_gone T -> (r < List.length (g_records g))%nat /\ r ∉ g_children g;
  hd_paid r : r ∈ tk_paid T -> cr_usage_registration_forgotten (child g r) = true;
  hd_free : tk_free T = true -> g_sink g = false
}.

(** ** Changes of a record *)
Lemma child_alter f r g r' : child (update f r g) r' = if bool_decide (r' = r /\ (r < List.length (g_records g))%nat) then f (child g r) else child g r'.
Proof.
  unfold child, update. cbn. case_bool_decide as Hc; [destruct Hc as [-> Hl]|].
  - rewrite list_lookup_alter_eq. destruct (g_records g !! r) as [c|] eqn:E; [done|]. apply lookup_ge_None in E. lia.
  - destruct (decide (r' = r)) as [->|Hne]; [|by rewrite list_lookup_alter_ne].
    rewrite list_lookup_alter_eq. destruct (g_records g !! r) as [c|] eqn:E; [|done]. apply lookup_lt_Some in E. by destruct Hc.
Qed.
Lemma update_length f r g : List.length (g_records (update f r g)) = List.length (g_records g).
Proof. apply length_alter. Qed.
(** A change of record [r] that takes back nothing a guarantee rests on. *)
Definition gentle (g : Registry) (r : nat) (f : ChildRecord -> ChildRecord) : Prop :=
  let c := child g r in
  (cr_notice_delivered c = true -> cr_notice_delivered (f c) = true)
  /\ (cr_retirement_finished (f c) = true -> cr_retirement_finished c = true \/ r ∉ g_children g)
  /\ (cr_retirement_notified c = true -> cr_retirement_notified (f c) = true)
  /\ cr_pending_usage_report (f c) = cr_pending_usage_report c
  /\ (forall n, cr_attributed_rows c = Some n -> cr_attributed_rows (f c) = Some n)
  /\ (cr_usage_registration_forgotten c = true -> cr_usage_registration_forgotten (f c) = true)
  /\ (cr_usage_registration_forgotten (f c) = true -> cr_usage_registration_forgotten c = true \/ cr_pending_usage_report c = None).
Lemma gentle_child f r g r' : gentle g r f ->
  let c := child g r' in let c' := child (update f r g) r' in
  (cr_notice_delivered c = true -> cr_notice_delivered c' = true)
  /\ (cr_retirement_finished c' = true -> cr_retirement_finished c = true \/ r' ∉ g_children g)
  /\ (cr_retirement_notified c = true -> cr_retirement_notified c' = true)
  /\ cr_pending_usage_report c' = cr_pending_usage_report c
  /\ (forall n, cr_attributed_rows c = Some n -> cr_attributed_rows c' = Some n)
  /\ (cr_usage_registration_forgotten c = true -> cr_usage_registration_forgotten c' = true)
  /\ (cr_usage_registration_forgotten c' = true -> cr_usage_registration_forgotten c = true \/ cr_pending_usage_report c = None).
Proof. intros Hf. cbn zeta. rewrite child_alter. case_bool_decide as Hc; [destruct Hc as [-> _]; apply Hf|]. naive_solver. Qed.
Lemma si_gentle f r g : gentle g r f -> si g -> si (update f r g).
Proof.
  intros Hf []. pose proof (fun r' => gentle_child f r g r' Hf) as Hm. cbn zeta in Hm. split; try done.
  - intros r' Hr. rewrite update_length. by apply si_children0.
  - intros r' i Hr. rewrite update_length. by eapply si_retired0.
  - intros r' Hr. destruct (proj1 (proj2 (Hm r')) Hr) as [Hx|Hx]; [by apply si_finished0|done].
  - intros r' t Ho. destruct (si_owed0 r' t Ho) as [Hn Hin]. split; [by apply Hm|done].
  - destruct si_notices0 as [Hnd Hin]. split; [done|]. intros r' Hr. by apply Hm, Hin.
  - destruct si_notified0 as [Hnd Hin]. split; [done|]. intros r' Hr. by apply Hm, Hin.
  - intros i r' p Hr. rewrite update_length. by apply si_ids0.
  - intros r'. destruct (Hm r') as (_ & _ & _ & Ep & _). unfold usage_ok. rewrite Ep. apply si_usage0.
  - intros r' St. destruct (Hm r') as (_ & _ & _ & Ep & Ea & _). destruct (si_rows0 r' St) as (Hs & Hl). unfold rows_ok. rewrite Ep.
    split; [done|]. intros Hn p Hin. destruct (Hl Hn p Hin) as (n & Hx & Hle). exists n. split; [by apply Ea|done].
  - intros r' Hr. destruct (Hm r') as (_ & _ & _ & -> & _ & _ & Hx). destruct (Hx Hr); [by apply si_forgotten0|done].
Qed.
(** Tokens look at the guards and at the list of children. *)
Lemma holds_same t T g g' :
  g_rename g' = g_rename g -> g_retired g' = g_retired g -> g_owed g' = g_owed g -> g_children g' = g_children g ->
  List.length (g_records g') = List.length (g_records g) -> g_sink g' = g_sink g ->
  (forall r, cr_usage_registration_forgotten (child g r) = true -> cr_usage_registration_forgotten (child g' r) = true) -> holds t T g -> holds t T g'.
Proof.
  intros E1 E2 E3 E4 E5 E6 E7 []. split; try done; unfold intent_of; rewrite ?E1, ?E2, ?E3, ?E4, ?E5, ?E6; try done. auto.
Qed.
Lemma holds_gentle t T f r g : gentle g r f -> holds t T g -> holds t T (update f r g).
Proof. intros Hf. apply holds_same; try done; [apply update_length|]. intros r'. by apply gentle_child. Qed.
Lemma holds_knows t T l g : (forall r, r ∈ l -> (r < List.length (g_records g))%nat) -> holds t T g -> holds t (knows l T) g.
Proof. intros Hl []. split; try done. intros r [Hr|Hr]%elem_of_app; [by apply Hl|by apply hd_known0]. Qed.
Lemma holds_sees_gone t T l g : (forall r, r ∈ l -> (r < List.length (g_records g))%nat /\ r ∉ g_children g) -> holds t T g -> holds t (sees_gone l T) g.
Proof. intros Hl []. split; try done. intros r' [Hr|Hr]%elem_of_app; [by apply Hl|by apply hd_gone0]. Qed.
Lemma holds_pays t T r g : cr_usage_registration_forgotten (child g r) = true -> holds t T g -> holds t (pays r T) g.
Proof. intros Hl []. split; try done. intros r' [->|Hr]%elem_of_cons; [done|by apply hd_paid0]. Qed.
Lemma holds_free t T g : g_sink g = false -> holds t T g -> holds t (free T) g.
Proof. intros Hl []. by split. Qed.

(** ** One step *)
Definition kept (t : nat) (g g' : Registry) : Prop := si g' /\ forall t' T', t' <> t -> holds t' T' g -> holds t' T' g'.
Definition advances {A} (t : nat) (g g' : Registry) (Φ : A -> tok -> Prop) (a : A) : Prop := kept t g g' /\ exists T', Φ a T' /\ holds t T' g'.
Lemma advances_gentle {A} t f r g (Φ : A -> tok -> Prop) a T T' :
  gentle g r f -> si g -> (holds t T (update f r g) -> holds t T' (update f r g)) -> holds t T g -> Φ a T' -> advances t g (update f r g) Φ a.
Proof.
  intros Hf Hs Ht Hh Hp. split; [split; [by apply si_gentle|]; intros; by apply holds_gentle|].
  exists T'. split; [done|]. by apply Ht, holds_gentle.
Qed.
Lemma advances_mild {A} t f r g (Φ : A -> tok -> Prop) a T : gentle g r f -> si g -> holds t T g -> Φ a T -> advances t g (update f r g) Φ a.
Proof. intros Hf Hs. by apply (advances_gentle t f r g Φ a T T). Qed.
Lemma advances_query {A} t g (Φ : A -> tok -> Prop) a T : si g -> holds t T g -> Φ a T -> advances t g g Φ a.
Proof. intros Hs Hh Hp. split; [by split|]. by exists T. Qed.
Lemma finished_valid g r : cr_retirement_finished (child g r) = true -> (r < List.length (g_records g))%nat.
Proof. unfold child. destruct (g_records g !! r) eqn:E; [|done]. intros _. by eapply lookup_lt_Some. Qed.
Lemma first_match_in p g r : first_match p g = Some r -> r ∈ g_children g.
Proof. unfold first_match. by intros [? _]%find_first_Some. Qed.
Lemma child_valid {A} (f : ChildRecord -> A) g r : f (child g r) <> f blank_child -> (r < List.length (g_records g))%nat.
Proof. unfold child. destruct (g_records g !! r) eqn:E; [|done]. intros _. by eapply lookup_lt_Some. Qed.
(** Fields no guarantee rests on. *)
Lemma si_same g g' :
  g_records g' = g_records g -> g_children g' = g_children g -> g_retired g' = g_retired g -> g_owed g' = g_owed g ->
  g_notices g' = g_notices g -> g_notified g' = g_notified g -> g_reports g' = g_reports g -> g_acked g' = g_acked g -> g_sink g' = g_sink g -> si g -> si g'.
Proof. destruct g, g'; cbn. intros -> -> -> -> -> -> -> -> -> []. by split. Qed.
Lemma advances_same {A} t g g' (Φ : A -> tok -> Prop) a T :
  g_records g' = g_records g -> g_children g' = g_children g -> g_retired g' = g_retired g -> g_owed g' = g_owed g ->
  g_notices g' = g_notices g -> g_notified g' = g_notified g -> g_reports g' = g_reports g -> g_acked g' = g_acked g ->
  g_rename g' = g_rename g -> g_sink g' = g_sink g -> si g -> holds t T g -> Φ a T -> advances t g g' Φ a.
Proof.
  intros E1 E2 E3 E4 E5 E6 E7 E8 E9 E10 Hs Hh Hp.
  assert (Hk : forall t T, holds t T g -> holds t T g') by (intros t0 T0; apply holds_same; unfold child; by rewrite ?E1).
  split; [split; [by eapply si_same|]; intros; by apply Hk|]. exists T. split; [done|by apply Hk].
Qed.

(** Children that join. *)
Lemma child_joined cs g r : Forall fresh_child cs ->
  child (join cs g) r = child g r \/ (List.length (g_records g) <= r)%nat /\ child g r = blank_child /\ fresh_child (child (join cs g) r).
Proof.
  intros Hf. unfold child, join. cbn. destruct (decide (r < List.length (g_records g))%nat) as [Hl|Hl].
  - left. by rewrite lookup_app_l.
  - right. rewrite lookup_app_r by lia. rewrite (lookup_ge_None_2 (g_records g)) by lia. split; [lia|]. split; [done|].
    destruct (cs !! _) eqn:E; [|done]. by eapply Forall_lookup_1 in Hf.
Qed.
Lemma reports_of_none g r : si g -> (List.length (g_records g) <= r)%nat -> reports_of g r = [].
Proof.
  intros Hs Hl. unfold reports_of. destruct (omap _ _) as [|p l] eqn:E; [done|]. exfalso.
  assert (Hin : p ∈ p :: l) by set_solver. rewrite <- E in Hin. apply list_elem_of_omap in Hin as ([r' q] & Hin & Hq). cbn in Hq.
  destruct (Nat.eqb_spec r' r) as [->|]; [|done]. apply list_elem_of_lookup in Hin as [i Hi]. apply (si_ids g Hs) in Hi. lia.
Qed.
Lemma si_joined cs g : Forall fresh_child cs -> si g -> si (join cs g).
Proof.
  intros Hf Hs. pose proof (fun r => child_joined cs g r Hf) as Hc. pose proof Hs as [].
  assert (Hlen : (List.length (g_records g) <= List.length (g_records (join cs g)))%nat) by (unfold join; cbn; rewrite length_app; lia).
  split.
  - intros r. unfold join. cbn. rewrite length_app, elem_of_app, elem_of_seq. intros [Hr|Hr]; [apply si_children0 in Hr; lia|lia].
  - intros r i Hr. apply (si_retired0 r i) in Hr. lia.
  - intros r Hr. destruct (Hc r) as [E|(_ & _ & E & _)]; [|by rewrite E in Hr]. rewrite E in Hr. pose proof (finished_valid g r Hr) as Hv.
    unfold join. cbn. rewrite elem_of_app, elem_of_seq. intros [Hi|Hi]; [by apply (si_finished0 r Hr)|lia].
  - intros r t Ho. destruct (si_owed0 r t Ho) as [Hn Hin]. split; [|done]. destruct (Hc r) as [->|(_ & E & _)]; [done|by rewrite E in Hn].
  - destruct si_notices0 as [Hnd Hin]. split; [done|]. intros r Hr. apply Hin in Hr. destruct (Hc r) as [->|(_ & E & _)]; [done|by rewrite E in Hr].
  - destruct si_notified0 as [Hnd Hin]. split; [done|]. intros r Hr. apply Hin in Hr. destruct (Hc r) as [->|(_ & E & _)]; [done|by rewrite E in Hr].
  - intros i r p Hr. destruct (si_ids0 i r p Hr). split; [done|lia].
  - intros r. destruct (Hc r) as [E|(Hl & _ & _ & _ & E & _)]; unfold usage_ok; [by rewrite E; apply si_usage0|].
    rewrite E. replace (reports_of (join cs g) r) with (reports_of g r) by done. rewrite (reports_of_none g r Hs Hl).
    by split; [intros p Hp%not_elem_of_nil|].
  - intros r St. destruct (Hc r) as [E|(Hl & _)]; unfold rows_ok; [by rewrite E; apply si_rows0|].
    replace (reports_of (join cs g) r) with (reports_of g r) by done. rewrite (reports_of_none g r Hs Hl).
    split; [constructor|]. by intros _ p Hp%not_elem_of_nil.
  - intros r. destruct (Hc r) as [->|(_ & _ & _ & _ & E & _)]; [apply si_forgotten0|done].
  - done.
Qed.
Lemma holds_joined t T cs g : Forall fresh_child cs -> holds t T g -> holds t T (join cs g).
Proof.
  intros Hf []. assert (Hlen : (List.length (g_records g) <= List.length (g_records (join cs g)))%nat) by (unfold join; cbn; rewrite length_app; lia).
  split; try done.
  - intros r Hr. apply hd_known0 in Hr. lia.
  - intros r Hr. apply hd_gone0 in Hr as [Hl Hn]. split; [lia|]. unfold join. cbn. rewrite elem_of_app, elem_of_seq. intros [?|?]; [done|lia].
  - intros r Hr. apply hd_paid0 in Hr. destruct (child_joined cs g r Hf) as [->|(_ & E & _)]; [done|by rewrite E in Hr].
Qed.

(** ** The steps that move a guarantee *)
Section Moves.
Context (t : nat) (T : tok) (g : Registry) (Hs : si g) (Hh : holds t T g).

Lemma step_lock r (Φ : unit -> tok -> Prop) :
  g_rename g !! r = None -> Φ tt (with_locks ((r, false) :: tk_locks T) T) -> advances t g (put_rename (<[r := t]> (g_rename g)) g) Φ tt.
Proof.
  intros Hn Hp. split; [split; [by eapply si_same; [..|exact Hs]|]|eexists; split; [exact Hp|]].
  - intros t' T' Hne []. split; try done. intros r' b Hin. destruct (hd_locks0 r' b Hin) as [Hl Hi]. split; [|done].
    cbn. rewrite lookup_insert_ne; [done|]. by intros <-; rewrite Hn in Hl.
  - destruct Hh. split; try done; cbn.
    + intros r' b [[= -> ->]|Hin]%elem_of_cons; [by rewrite lookup_insert_eq|]. destruct (hd_locks0 r' b Hin) as [Hl Hi]. split; [|done].
      rewrite lookup_insert_ne; [done|]. by intros <-; rewrite Hn in Hl.
    + apply NoDup_cons. split; [|done]. intros ([r' b] & -> & Hin)%list_elem_of_fmap. apply hd_locks0 in Hin as [Hl _]. cbn in Hn. by rewrite Hn in Hl.
Qed.
Lemma step_unlock r b rest (Φ : unit -> tok -> Prop) :
  tk_locks T = (r, b) :: rest -> Φ tt (with_locks rest T) -> advances t g (put_rename (delete r (g_rename g)) g) Φ tt.
Proof.
  intros E Hp. destruct Hh. rewrite E in *. destruct (hd_locks0 r b ltac:(left)) as [Hl _].
  split; [split; [by eapply si_same; [..|exact Hs]|]|eexists; split; [exact Hp|]].
  - intros t' T' Hne []. split; try done. intros r' b' Hin. destruct (hd_locks1 r' b' Hin) as [Hl' Hi]. split; [|done].
    cbn. rewrite lookup_delete_ne; [done|]. intros <-. congruence.
  - apply NoDup_cons in hd_once0 as [Hni Hnd]. split; try done; cbn. intros r' b' Hin.
    destruct (hd_locks0 r' b' ltac:(by right)) as [Hl' Hi]. split; [|done].
    rewrite lookup_delete_ne; [done|]. intros <-. apply Hni. apply list_elem_of_fmap. by exists (r, b').
Qed.
Lemma intent_of_ne r r' l g0 : r' <> r ->
  (snd <$> find_first (fun p => Nat.eqb (fst p) r') (g_retired g0 ++ [(r, l)])) = intent_of r' g0.
Proof.
  intros Hne. unfold intent_of. induction (g_retired g0) as [|[x i] m IH]; cbn.
  - by destruct (Nat.eqb_spec r r'); [subst|].
  - by destruct (Nat.eqb x r').
Qed.
Lemma intent_of_filter r r' g0 : r' <> r ->
  (snd <$> find_first (fun p => Nat.eqb (fst p) r') (List.filter (fun p => negb (Nat.eqb (fst p) r)) (g_retired g0))) = intent_of r' g0.
Proof.
  intros Hne. unfold intent_of. induction (g_retired g0) as [|[x i] m IH]; cbn; [done|].
  destruct (Nat.eqb_spec x r) as [->|]; cbn; [|by destruct (Nat.eqb x r')]. by destruct (Nat.eqb_spec r r'); [subst|].
Qed.
(** A change of the receipts of a child whose lock this task holds. *)
Lemma step_retired r b b' rest l (Φ : unit -> tok -> Prop) :
  tk_locks T = (r, b) :: rest ->
  (forall x i, (x, i) ∈ l -> (x < List.length (g_records g))%nat) ->
  (forall r', r' <> r -> intent_of r' (put_retired l g) = intent_of r' g) ->
  (b' = true -> intent_of r (put_retired l g) <> None) ->
  Φ tt (with_locks ((r, b') :: rest) T) -> advances t g (put_retired l g) Φ tt.
Proof.
  intros E Hv Hne Hb Hp. pose proof Hh as []. rewrite E in *. destruct (hd_locks0 r b ltac:(left)) as [Hl _].
  split; [split; [destruct Hs; by split|]|eexists; split; [exact Hp|]].
  - intros t' T' Hnt []. split; try done. intros r' b1 Hin. destruct (hd_locks1 r' b1 Hin) as [Hl' Hi]. split; [done|].
    rewrite Hne; [done|]. intros ->. congruence.
  - apply NoDup_cons in hd_once0 as [Hni Hnd]. split; try done; cbn [with_locks tk_locks map fst]; [|by apply NoDup_cons].
    intros r' b1 [[= -> ->]|Hin]%elem_of_cons; [done|]. destruct (hd_locks0 r' b1 ltac:(by right)) as [Hl' Hi]. split; [done|].
    rewrite Hne; [done|]. intros ->. apply Hni. apply list_elem_of_fmap. by exists (r, b1).
Qed.
Lemma step_claim r f n : (forall c, cr_notice_delivered (f c) = true) -> gentle g r f -> r ∈ tk_known T -> cr_notice_delivered (child g r) = false ->
  forall Φ : option Notice -> tok -> Prop, Φ (Some n) (claimed r (Some n) T) ->
  advances t g (put_owed (<[r := t]> (g_owed g)) (update f r g)) Φ (Some n).
Proof.
  intros Hn Hm Hk Hc Φ Hp. pose proof (hd_known _ _ _ Hh r Hk) as Hv.
  assert (Ho : g_owed g !! r = None).
  { destruct (g_owed g !! r) as [t'|] eqn:E; [|done]. apply (si_owed g Hs) in E as [E _]. by rewrite E in Hc. }
  assert (Hnn : r ∉ map fst (g_notices g)) by (intros Hin; apply (proj2 (si_notices g Hs)) in Hin; by rewrite Hin in Hc).
  pose proof (si_gentle f r g Hm Hs) as Hs1. split; [split|].
  - destruct Hs1. split; try done. intros r' t'. cbn. destruct (decide (r' = r)) as [->|Hne].
    + rewrite lookup_insert_eq. intros [= <-]. split; [|done].
      change (cr_notice_delivered (child (update f r g) r) = true). rewrite child_alter, bool_decide_true by done. apply Hn.
    + rewrite lookup_insert_ne by done. apply si_owed0.
  - intros t' T' Hne Hh'. apply (holds_gentle t' T' f r g Hm) in Hh' as []. split; try done. intros r' Hr'. cbn.
    rewrite lookup_insert_ne; [by apply hd_notices0|]. intros <-. apply hd_notices0 in Hr'. cbn in Hr'. by rewrite Ho in Hr'.
  - eexists. split; [exact Hp|]. pose proof (holds_gentle t T f r g Hm Hh) as []. split; try done; cbn.
    + intros r' [->|Hr']%elem_of_cons; [by rewrite lookup_insert_eq|]. rewrite lookup_insert_ne; [by apply hd_notices0|].
      intros <-. apply hd_notices0 in Hr'. cbn in Hr'. by rewrite Ho in Hr'.
    + apply NoDup_cons. split; [|done]. intros Hr'. apply hd_notices0 in Hr'. cbn in Hr'. by rewrite Ho in Hr'.
Qed.
Lemma step_deliver r n rest (Φ : unit -> tok -> Prop) :
  tk_notices T = r :: rest -> Φ tt (with_notices rest T) ->
  advances t g (put_owed (delete r (g_owed g)) (put_notices (g_notices g ++ [(r, n)]) g)) Φ tt.
Proof.
  intros E Hp. pose proof Hh as []. rewrite E in *. pose proof (hd_notices0 r ltac:(left)) as Ho. destruct (si_owed g Hs r t Ho) as [Hd Hni].
  apply NoDup_cons in hd_notices_once0 as [Hnr Hnd]. split; [split|eexists; split; [exact Hp|]].
  - destruct Hs. split; try done; cbn.
    + intros r' t'. destruct (decide (r' = r)) as [->|Hne]; [by rewrite lookup_delete_eq|]. rewrite lookup_delete_ne by done. intros Hr'.
      destruct (si_owed0 r' t' Hr') as [H1 H2]. split; [done|]. rewrite map_app. cbn. set_solver.
    + rewrite map_app. cbn. destruct si_notices0 as [H1 H2]. split.
      * apply NoDup_app. split; [done|]. split; [set_solver|]. apply NoDup_singleton.
      * intros r' [Hr'|Hr'%list_elem_of_singleton]%elem_of_app; [by apply H2|by subst].
  - intros t' T' Hne []. split; try done. cbn. intros r' Hr'. pose proof (hd_notices1 r' Hr') as Hx.
    rewrite lookup_delete_ne; [done|]. intros <-. congruence.
  - split; try done. cbn. intros r' Hr'. rewrite lookup_delete_ne; [apply hd_notices0; by right|]. by intros <-.
Qed.
Lemma step_drop r (Φ : unit -> tok -> Prop) : r ∈ tk_known T -> Φ tt (sees_gone [r] T) ->
  advances t g (put_children (List.filter (fun x => negb (Nat.eqb x r)) (g_children g)) g) Φ tt.
Proof.
  intros Hk Hp. assert (Hsub : forall x, x ∈ List.filter (fun x => negb (Nat.eqb x r)) (g_children g) -> x ∈ g_children g /\ x <> r).
  { intros x Hx%list_elem_of_In%filter_In. destruct Hx as [Hx Hb]. split; [by apply list_elem_of_In|]. by destruct (Nat.eqb_spec x r). }
  pose proof (hd_known _ _ _ Hh r Hk) as Hv. split; [split|eexists; split; [exact Hp|]].
  - destruct Hs. split; try done; cbn.
    + intros r' Hr'. apply si_children0. by apply Hsub.
    + intros r' Hr' Hin. apply (si_finished0 r'); [done|by apply Hsub].
  - intros t' T' Hne []. split; try done. cbn. intros r' Hr'. destruct (hd_gone0 r' Hr'). split; [done|]. intros Hin. by apply Hsub in Hin as [? _].
  - pose proof Hh as []. split; try done. cbn. intros r' [->|Hr']%elem_of_cons.
    + split; [done|]. intros Hin. by apply Hsub in Hin as [_ ?].
    + destruct (hd_gone0 r' Hr'). split; [done|]. intros Hin. by apply Hsub in Hin as [? _].
Qed.
Lemma step_notified r (Φ : unit -> tok -> Prop) : r ∈ tk_known T -> cr_retirement_notified (child g r) = false -> Φ tt T ->
  advances t g (put_notified (g_notified g ++ [r]) (update (set_notified true) r g)) Φ tt.
Proof.
  intros Hk Hc Hp. pose proof (hd_known _ _ _ Hh r Hk) as Hv.
  assert (Hm : gentle g r (set_notified true)) by (unfold gentle; cbn; naive_solver).
  pose proof (si_gentle _ r g Hm Hs) as Hs1. split; [split|].
  - pose proof Hs1 as []. split; try done. cbn. destruct si_notified0 as [Hnd Hin]. split.
    + apply NoDup_app. split; [done|]. split; [|apply NoDup_singleton]. intros x Hx Hy%list_elem_of_singleton. subst.
      destruct (si_notified g Hs) as [_ H1]. apply H1 in Hx. by rewrite Hx in Hc.
    + intros r' [Hr'|Hr'%list_elem_of_singleton]%elem_of_app; [by apply Hin|subst].
      change (cr_retirement_notified (child (update (set_notified true) r g) r) = true). by rewrite child_alter, bool_decide_true by done.
  - intros t' T' _ Hh'. apply (holds_gentle t' T' (set_notified true) r g Hm) in Hh'. by eapply holds_same; [..|exact Hh'].
  - exists T. split; [done|]. eapply holds_same; [..|exact (holds_gentle t T (set_notified true) r g Hm Hh)]; done.
Qed.
Lemma step_forget r (Φ : bool -> tok -> Prop) : r ∈ tk_known T -> cr_pending_usage_report (child g r) = None -> Φ true (pays r T) ->
  advances t g (update (set_forgotten true) r g) Φ true.
Proof.
  intros Hk Hn. apply (advances_gentle t _ r g Φ true T); [|done| |done]; [unfold gentle; cbn; naive_solver|].
  intros Hh'. apply holds_pays; [|done]. rewrite child_alter, bool_decide_true; [done|]. split; [done|by apply (hd_known _ _ _ Hh)].
Qed.
End Moves.

(** ** Billing *)
Record billed (g g' : Registry) : Prop := {
  bl_children : g_children g' = g_children g;
  bl_retired : g_retired g' = g_retired g;
  bl_owed : g_owed g' = g_owed g;
  bl_notices : g_notices g' = g_notices g;
  bl_notified : g_notified g' = g_notified g;
  bl_rename : g_rename g' = g_rename g;
  bl_sink : g_sink g' = g_sink g;
  bl_length : List.length (g_records g') = List.length (g_records g);
  bl_record r : cr_notice_delivered (child g' r) = cr_notice_delivered (child g r)
    /\ cr_retirement_finished (child g' r) = cr_retirement_finished (child g r) /\ cr_retirement_notified (child g' r) = cr_retirement_notified (child g r)
    /\ cr_usage_registration_forgotten (child g' r) = cr_usage_registration_forgotten (child g r)
}.
#[export] Instance billed_po : PreOrder billed.
Proof.
  split; [by intros g; split|]. intros g1 g2 g3 [] []. split; try congruence. intros r.
  destruct (bl_record0 r) as (? & ? & ? & ?), (bl_record1 r) as (? & ? & ? & ?). repeat split; congruence.
Qed.
Lemma billed_si g g' : billed g g' -> si g ->
  (forall i r p, g_reports g' !! i = Some (r, p) -> rp_id p = i /\ (r < List.length (g_records g))%nat) -> (forall r, usage_ok g' r) -> (steady -> forall r, rows_ok g' r) ->
  (forall r, cr_usage_registration_forgotten (child g r) = true -> cr_pending_usage_report (child g' r) = None) -> g_sink g = true -> si g'.
Proof.
  intros [] [] Hids Hu Hro Hfo Hsi. split; rewrite ?bl_children0, ?bl_retired0, ?bl_owed0, ?bl_notices0, ?bl_notified0, ?bl_length0, ?bl_sink0, ?Hsi; try done; try (by intros r St; apply Hro).
  - intros r. destruct (bl_record0 r) as (_ & -> & _). apply si_finished0.
  - intros r t. destruct (bl_record0 r) as (-> & _). apply si_owed0.
  - destruct si_notices0 as [? Hx]. split; [done|]. intros r. destruct (bl_record0 r) as (-> & _). apply Hx.
  - destruct si_notified0 as [? Hx]. split; [done|]. intros r. destruct (bl_record0 r) as (_ & _ & -> & _). apply Hx.
  - intros r. destruct (bl_record0 r) as (_ & _ & _ & ->). apply Hfo.
Qed.
Definition bills_only (f : ChildRecord -> ChildRecord) : Prop := forall c,
  cr_notice_delivered (f c) = cr_notice_delivered c /\ cr_retirement_finished (f c) = cr_retirement_finished c
  /\ cr_retirement_notified (f c) = cr_retirement_notified c /\ cr_usage_registration_forgotten (f c) = cr_usage_registration_forgotten c.
Lemma billed_update f r g reports acked : bills_only f -> billed g (put_acked acked (put_reports reports (update f r g))).
Proof.
  intros Hf. split; try done; [apply update_length|]. intros r'. change (child (put_acked acked (put_reports reports (update f r g))) r') with (child (update f r g) r').
  rewrite child_alter. case_bool_decide as Hx; [destruct Hx as [-> _]; apply Hf|done].
Qed.
(** A change to a record that still bills leaves the others as they were. *)
Lemma forgotten_other f r g reports acked : si g -> cr_usage_registration_forgotten (child g r) = false -> forall r',
  cr_usage_registration_forgotten (child g r') = true -> cr_pending_usage_report (child (put_acked acked (put_reports reports (update f r g))) r') = None.
Proof.
  intros Hs Hf r' Hr'. change (child (put_acked acked (put_reports reports (update f r g))) r') with (child (update f r g) r').
  rewrite child_alter, bool_decide_false; [by apply si_forgotten|]. intros [-> _]. by rewrite Hf in Hr'.
Qed.
Lemma usage_other f r g r' reports acked : r' <> r -> (forall p, p ∈ reports -> fst p = r) -> g_acked g ⊆ acked ->
  let g' := put_acked acked (put_reports (g_reports g ++ reports) (update f r g)) in
  (usage_ok g r' -> usage_ok g' r') /\ (rows_ok g r' -> rows_ok g' r').
Proof.
  intros Hne Hr Ha g'.
  assert (Hc : child g' r' = child g r') by (change (child g' r') with (child (update f r g) r'); rewrite child_alter, bool_decide_false by naive_solver; done).
  assert (Hp : reports_of g' r' = reports_of g r').
  { unfold reports_of, g'. cbn. rewrite omap_app. replace (omap _ reports) with (@nil Report); [apply app_nil_r|]. symmetry.
    clear -Hne Hr. induction reports as [|[x p] l IH]; cbn; [done|]. rewrite IH by set_solver. pose proof (Hr (x, p) ltac:(left)) as Hx. cbn in Hx.
    by destruct (Nat.eqb_spec x r'); [congruence|]. }
  unfold usage_ok, rows_ok. rewrite Hc, Hp. split; [|done]. intros (Hi & Hl). split; [|done]. intros p Hin.
  destruct (Hi p Hin) as [Hlt [Hk|Hk]]; split; try done; [left; by apply Ha|by right].
Qed.
Section Billing.
Context (world : nat -> forall A, ask A -> A) (Hgrow : steady -> append_only world).
Definition billable (r : nat) (g : Registry) : Prop :=
  (r < List.length (g_records g))%nat /\ g_sink g = true /\ cr_usage_registration_forgotten (child g r) = false.
Lemma billable_billed r g g' : billed g g' -> billable r g -> billable r g'.
Proof. intros [] (Hv & Hk & Hf). unfold billable. destruct (bl_record0 r) as (_ & _ & _ & ->). by rewrite bl_length0, bl_sink0. Qed.
Lemma send_ok r p round g : si g -> billable r g -> cr_pending_usage_report (child g r) = Some p ->
  si (snd (send_report world r p round g)) /\ billed g (snd (send_report world r p round g)).
Proof.
  intros Hs (Hv & Hsi & Hfo) Hp. unfold send_report. destruct (world _ _ _); [|by split]. cbn [snd].
  set (f := fun c => set_pending_report None (set_attributed (Some (rp_next p)) c)).
  assert (E : put_acked (g_acked g ∪ {[rp_id p]}) (update f r g) = put_acked (g_acked g ∪ {[rp_id p]}) (put_reports (g_reports g ++ []) (update f r g))) by (rewrite app_nil_r; done).
  rewrite E. set (g' := put_acked _ _). assert (Hb : billed g g') by (by apply billed_update).
  assert (Hr : reports_of g' r = reports_of g r) by (unfold reports_of, g'; cbn; by rewrite app_nil_r).
  assert (Hc : child g' r = f (child g r)) by (change (child g' r) with (child (update f r g) r); by rewrite child_alter, bool_decide_true by done).
  destruct (si_usage g Hs r) as (Hi & Hl). destruct (Hl p Hp) as [l El].
  split; [|done]. apply (billed_si g); [done..| | | |by apply forgotten_other|done].
  - intros i r' q. cbn. rewrite app_nil_r. apply (si_ids g Hs).
  - intros r'. destruct (decide (r' = r)) as [->|Hne]; [|apply usage_other; [done|set_solver|set_solver|by apply si_usage]].
    unfold usage_ok. rewrite Hc, Hr. split; [|done]. intros q Hq. destruct (Hi q Hq) as [Hlt Hk]. split; [done|]. left. apply elem_of_union.
    destruct Hk as [Hk|Hk]; [by left|right]. rewrite Hp in Hk. injection Hk as ->. by apply elem_of_singleton.
  - intros St r'. destruct (decide (r' = r)) as [->|Hne]; [|apply usage_other; [done|set_solver|set_solver|by apply si_rows]].
    destruct (si_rows g Hs r St) as (Hso & _). unfold rows_ok. rewrite Hc, Hr. split; [done|]. intros _ q Hq. exists (rp_next p). split; [done|].
    rewrite El in Hso, Hq. apply elem_of_app in Hq as [Hq|Hq%list_elem_of_singleton]; [|by subst].
    destruct (Hi p ltac:(rewrite El; set_solver)) as [Hlt _]. apply StronglySorted_app in Hso as (Hx & _ & _).
    specialize (Hx q p Hq ltac:(set_solver)). lia.
Qed.
Lemma cursor_ok r n g : si g -> billable r g -> cr_pending_usage_report (child g r) = None ->
  (steady -> forall m, cr_attributed_rows (child g r) = Some m -> m <= n)%nat ->
  si (update (set_attributed (Some n)) r g) /\ billed g (update (set_attributed (Some n)) r g).
Proof.
  intros Hs (Hv & Hsi & Hfo) Hp Hn. set (f := set_attributed (Some n)).
  assert (E : update f r g = put_acked (g_acked g) (put_reports (g_reports g ++ []) (update f r g))) by (rewrite app_nil_r; done).
  assert (Hb : billed g (update f r g)) by (rewrite E; by apply billed_update).
  assert (Hc : child (update f r g) r = f (child g r)) by (by rewrite child_alter, bool_decide_true by done).
  split; [|done]. apply (billed_si g); [done..|apply (si_ids g Hs)| | |rewrite E; by apply forgotten_other|done].
  - intros r'. destruct (decide (r' = r)) as [->|Hne]; [|rewrite E; apply usage_other; [done|set_solver|done|by apply si_usage]].
    unfold usage_ok. rewrite Hc. apply (si_usage g Hs r).
  - intros St r'. destruct (decide (r' = r)) as [->|Hne]; [|rewrite E; apply usage_other; [done|set_solver|done|by apply si_rows]].
    destruct (si_rows g Hs r St) as (Hso & Hl). unfold rows_ok. rewrite Hc. split; [done|]. intros _ p Hin.
    destruct (Hl Hp p Hin) as (m & Hm & Hle). exists n. split; [done|]. specialize (Hn St m Hm). lia.
Qed.
Lemma report_ok r from next g : si g -> billable r g -> cr_pending_usage_report (child g r) = None ->
  cr_attributed_rows (child g r) = Some from -> (from < next)%nat ->
  let p := mkReport (List.length (g_reports g)) from next in
  let g' := put_reports (g_reports g ++ [(r, p)]) (update (set_pending_report (Some p)) r g) in
  si g' /\ billed g g' /\ cr_pending_usage_report (child g' r) = Some p.
Proof.
  intros Hs (Hv & Hsi & Hfo) Hp Hfrom Hn p. set (f := set_pending_report (Some p)).
  assert (E : put_reports (g_reports g ++ [(r, p)]) (update f r g) = put_acked (g_acked g) (put_reports (g_reports g ++ [(r, p)]) (update f r g))) by done.
  intros g'. unfold g' in *. clear g'. rewrite E. set (g' := put_acked _ _).
  assert (Hb : billed g g') by (by apply billed_update).
  assert (Hc : child g' r = f (child g r)) by (change (child g' r) with (child (update f r g) r); by rewrite child_alter, bool_decide_true by done).
  assert (Hr : reports_of g' r = (reports_of g r ++ [p])%list) by (unfold reports_of, g'; cbn; rewrite omap_app; cbn; by rewrite Nat.eqb_refl).
  split; [|split; [done|by rewrite Hc]]. apply (billed_si g); [done..| | | |by apply forgotten_other|done].
  - intros i r' q. unfold g'. cbn. intros [Hi|[Hi Hq]]%lookup_app_Some; [by apply (si_ids g Hs)|].
    apply list_lookup_singleton_Some in Hq as [Hz [= <- <-]]. cbn. split; [lia|done].
  - intros r'. destruct (decide (r' = r)) as [->|Hne]; [|apply usage_other; [done|set_solver|done|by apply si_usage]].
    destruct (si_usage g Hs r) as (Hi & _). unfold usage_ok. rewrite Hc, Hr. split; [|intros q [= <-]; by eexists].
    intros q [Hq| ->%list_elem_of_singleton]%elem_of_app; [|split; [done|by right]].
    destruct (Hi q Hq) as [Hlt [Hk|Hk]]; [split; [done|by left]|congruence].
  - intros St r'. destruct (decide (r' = r)) as [->|Hne]; [|apply usage_other; [done|set_solver|done|by apply si_rows]].
    destruct (si_rows g Hs r St) as (Hso & Hl). unfold rows_ok. rewrite Hc, Hr. split; [|done].
    apply StronglySorted_app. split; [|split; [done|repeat constructor]]. intros q q' Hq ->%list_elem_of_singleton. cbn.
    destruct (Hl Hp q Hq) as (m & Hm & Hle). rewrite Hfrom in Hm. by injection Hm as <-.
Qed.
Lemma round_ok r round g : si g -> billable r g ->
  si (snd (emit_round world r round g)) /\ billed g (snd (emit_round world r round g)).
Proof.
  intros Hs Hv. unfold emit_round. destruct (cr_pending_usage_report (child g r)) as [p|] eqn:Hp; [by apply send_ok|].
  destruct (cr_session_file (child g r)) as [file|]; [|by split]. destruct (is_empty file); [by split|].
  destruct (cr_attributed_rows (child g r)) as [from|] eqn:Ha; [|by split]. destruct (world _ _ _) as [[next bills]|] eqn:Ew; [|by split].
  destruct (negb bills || (next <=? from)%nat) eqn:Hm; [apply cursor_ok; try done; intros St m; rewrite Ha; intros [= <-]; by eapply (Hgrow St)|].
  apply orb_false_iff in Hm as [_ Hm%Nat.leb_gt]. destruct (report_ok r from next g Hs Hv Hp Ha Hm) as (Hs1 & Hb1 & Hp1).
  destruct (send_ok r _ round _ Hs1 ltac:(by eapply billable_billed) Hp1) as [Hs2 Hb2]. split; [done|]. by etransitivity.
Qed.
Lemma emit_ok r g : si g -> (r < List.length (g_records g))%nat ->
  si (snd (emit_child_usage world r g)) /\ billed g (snd (emit_child_usage world r g)).
Proof.
  intros Hs Hv. unfold emit_child_usage. destruct (g_sink g) eqn:Hsi; [|by split]. destruct (cr_usage_registration_forgotten (child g r)) eqn:Hfo; [by split|]. cbn [negb].
  assert (Hbl : billable r g) by done.
  pose proof (round_ok r 0 g Hs Hbl) as [Hs1 Hb1]. destruct (emit_round world r 0 g) as [[b|] g1]; [by split|]. cbn [snd] in *.
  case_bool_decide; [|by split]. pose proof (round_ok r 1 g1 Hs1 ltac:(by eapply billable_billed)) as [Hs2 Hb2].
  destruct (emit_round world r 1 g1) as [b g2]. cbn [snd] in *. split; [done|]. by etransitivity.
Qed.
Lemma step_emit t T r g (Φ : bool -> tok -> Prop) : si g -> holds t T g -> r ∈ tk_known T -> (forall b, Φ b T) ->
  advances t g (snd (emit_child_usage world r g)) Φ (fst (emit_child_usage world r g)).
Proof.
  intros Hs Hh Hk Hp. destruct (emit_ok r g Hs (hd_known _ _ _ Hh r Hk)) as [Hs1 []].
  assert (Hm : forall t T, holds t T g -> holds t T (snd (emit_child_usage world r g))) by (intros t' T'; apply holds_same; try done; intros r'; by destruct (bl_record0 r') as (_ & _ & _ & ->)).
  split; [split; [done|]; intros; by apply Hm|]. exists T. split; [done|by apply Hm].
Qed.
End Billing.

(** ** Every step keeps to its rule *)
Lemma gentle_done g r f : (forall c,
  (cr_notice_delivered c = true -> cr_notice_delivered (f c) = true) /\ cr_retirement_finished (f c) = cr_retirement_finished c
  /\ cr_retirement_notified (f c) = cr_retirement_notified c /\ cr_pending_usage_report (f c) = cr_pending_usage_report c
  /\ (forall n, cr_attributed_rows c = Some n -> cr_attributed_rows (f c) = Some n)
  /\ cr_usage_registration_forgotten (f c) = cr_usage_registration_forgotten c) -> gentle g r f.
Proof. intros Hf. unfold gentle. destruct (Hf (child g r)) as (? & -> & -> & -> & ? & ->). naive_solver. Qed.
Lemma advances_knows {A} t g (Φ : A -> tok -> Prop) a T l :
  si g -> holds t T g -> (forall r, r ∈ l -> (r < List.length (g_records g))%nat) -> Φ a (knows l T) -> advances t g g Φ a.
Proof. intros Hs Hh Hl Hp. eapply advances_query; [done| |exact Hp]. by apply holds_knows. Qed.
Lemma gentle_at g r c' : (
  (cr_notice_delivered (child g r) = true -> cr_notice_delivered c' = true) /\ cr_retirement_finished c' = cr_retirement_finished (child g r)
  /\ cr_retirement_notified c' = cr_retirement_notified (child g r) /\ cr_pending_usage_report c' = cr_pending_usage_report (child g r)
  /\ (forall n, cr_attributed_rows (child g r) = Some n -> cr_attributed_rows c' = Some n)
  /\ cr_usage_registration_forgotten c' = cr_usage_registration_forgotten (child g r)) -> gentle g r (fun _ => c').
Proof. intros (? & E1 & E2 & E3 & ? & E4). unfold gentle. rewrite E1, E2, E3, E4. naive_solver. Qed.
Lemma gentle_verdict g r answer : gentle g r (verdict answer).
Proof. apply gentle_done. intros c. unfold verdict. destruct (cr_settled_status c), answer; cbn; [destruct (_ || _)| |destruct (_ || _)|]; by repeat split. Qed.
Lemma gentle_failed g r e text : gentle g r (failed e text).
Proof. apply gentle_done. intros c. unfold failed. destruct text; cbn; [destruct (_ || _)|]; by repeat split. Qed.
Lemma failed_notice e text c : cr_notice_delivered (failed e text c) = true.
Proof. unfold failed. destruct text; cbn; [by destruct (_ || _)|done]. Qed.
Lemma keeps_verdict_notice arm c : keeps_verdict arm c = false -> cr_notice_delivered c = false.
Proof. destruct arm; cbn; unfold should_mark_unreachable_error; destruct (cr_closed_by_parent c), (cr_notice_delivered c); done. Qed.
Section Perform.
Context (world : nat -> forall A, ask A -> A) (Hgrow : steady -> append_only world) (t : nat) (T : tok) (g : Registry) (Hs : si g) (Hh : holds t T g).
Lemma matched p r : r ∈ option_list (first_match p g) -> (r < List.length (g_records g))%nat.
Proof.
  destruct (first_match p g) as [r0|] eqn:E; cbn; [|by intros ?%not_elem_of_nil].
  intros ->%list_elem_of_singleton. by apply (si_children g Hs), (first_match_in p g).
Qed.
Lemma advances_joined {A} cs (Φ : A -> tok -> Prop) a l : Forall fresh_child cs ->
  (forall r, r ∈ l -> (r < List.length (g_records (join cs g)))%nat) -> Φ a (knows l T) -> advances t g (join cs g) Φ a.
Proof.
  intros Hf Hl Hp. split; [split; [by apply si_joined|intros; by apply holds_joined]|]. eexists. split; [exact Hp|].
  apply holds_knows; [done|by apply holds_joined].
Qed.
Lemma reseed_ok parent cs (Φ : unit -> tok -> Prop) a g' : (forall a, Φ a T) ->
  perform world t (Reseed parent cs) g = Some (a, g') -> advances t g g' Φ a.
Proof.
  intros Hr. cbn [perform]. case_bool_decide; intros [= <- <-]; [|by eapply advances_query]. apply (advances_joined (map reseeded cs) Φ tt []).
  - apply Forall_forall. intros c (l & -> & _)%list_elem_of_fmap. done.
  - by intros r ?%not_elem_of_nil.
  - destruct T. apply Hr.
Qed.
Lemma intent_ok r b rest (Φ : option RetirementIntent -> tok -> Prop) : tk_locks T = (r, b) :: rest ->
  (forall i, (b = true -> i <> None) -> Φ i (with_locks ((r, bool_decide (is_Some i)) :: rest) T)) -> advances t g g Φ (intent_of r g).
Proof.
  intros E Hr. pose proof Hh as []. destruct (hd_locks0 r b ltac:(rewrite E; left)) as [Hl Hi]. eapply advances_query; [done| |by apply Hr].
  split; try done; cbn [with_locks tk_locks]; [|by rewrite E in hd_once0]. intros r' b' [[= -> ->]|Hin]%elem_of_cons.
  - split; [done|]. intros Hb%bool_decide_eq_true. by destruct Hb as [i ->].
  - apply hd_locks0. rewrite E. by right.
Qed.
Lemma retain_ok r i b rest (Φ : unit -> tok -> Prop) a g' : r ∈ tk_known T -> tk_locks T = (r, b) :: rest ->
  Φ tt (with_locks ((r, true) :: rest) T) -> perform world t (Retain r i) g = Some (a, g') -> advances t g g' Φ a.
Proof.
  intros Hk E Hr. cbn [perform]. unfold retain_retired_usage. destruct (intent_of r g) as [j|] eqn:Ei; intros [= <- <-].
  - replace g with (put_retired (g_retired g) g) at 2 by (by destruct g). eapply (step_retired t T); [done..|apply (si_retired g Hs)| | |done].
    + intros r' _. by destruct g.
    + intros _. change (intent_of r g <> None). by rewrite Ei.
  - eapply (step_retired t T); [done..| | | |done].
    + intros x j [Hx|Hx]%elem_of_app; [by eapply (si_retired g Hs)|]. apply list_elem_of_singleton in Hx as [= -> ->]. by apply (hd_known _ _ _ Hh).
    + intros r' Hne. by apply intent_of_ne.
    + intros _. unfold intent_of. cbn. intros Hn%fmap_None. pose proof (proj1 (find_first_None _ _) Hn (r, i) ltac:(set_solver)) as Hx. cbn in Hx. by rewrite Nat.eqb_refl in Hx.
Qed.
Lemma mark_retired_ok r i (Φ : string -> tok -> Prop) a g' : (forall a, Φ a T) ->
  perform world t (MarkRetired r i) g = Some (a, g') -> advances t g g' Φ a.
Proof.
  intros Hr. destruct i as [w|]; intros [= <- <-]; [|eapply advances_mild; [by apply gentle_at; repeat split|done|exact Hh|apply Hr]].
  set (c1 := if w then _ else _). assert (Hg : gentle g r (fun _ => c1)) by (apply gentle_at; unfold c1; by destruct w; repeat split).
  split; [split; [by eapply si_same; [..|exact (si_gentle _ r g Hg Hs)]|]|].
  - intros t' T' Hne Ho. by eapply holds_same; [..|exact (holds_gentle t' T' _ r g Hg Ho)].
  - exists T. split; [apply Hr|]. by eapply holds_same; [..|exact (holds_gentle t T _ r g Hg Hh)].
Qed.
Lemma claims_ok {A} (o : op A) (Φ : A -> tok -> Prop) a g' :
  match o with ClaimSettleNotice _ | ClaimFailure _ _ _ _ | ClaimCancelNotice _ _ => True | _ => False end ->
  rule o T Φ -> perform world t o g = Some (a, g') -> advances t g g' Φ a.
Proof.
  intros Ho. destruct o; try done; cbn [rule perform]; unfold claim_settle_notice, claim_failure, claim_cancel_notice, claim; intros [Hk Hr].
  - destruct (_ || _) eqn:E; [intros [= <- <-]; by eapply advances_query; [..|exact (Hr None)]|].
    apply orb_false_iff in E as [E _]. intros [= <- <-]. by apply (step_claim t T); [..|apply gentle_done| | |].
  - destruct (keeps_verdict _ _) eqn:E; [intros [= <- <-]; by eapply advances_query; [..|exact (Hr None)]|].
    intros [= <- <-]. apply (step_claim t T); [done..|apply failed_notice|apply gentle_failed|done|by eapply keeps_verdict_notice|done].
  - destruct (_ && _) eqn:E.
    + apply andb_true_iff in E as [_ E%negb_true_iff]. intros [= <- <-]. by apply (step_claim t T); [..|apply gentle_done| | |].
    + intros [= <- <-]. by eapply advances_mild; [apply gentle_done|done|exact Hh|exact (Hr None)].
Qed.
Ltac fetch := intros Hr; intros [= <- <-].
Ltac asks := fetch; by eapply advances_query; [done|exact Hh|].
Ltac knowing := let Hr := fresh in intros Hr; intros [= <- <-]; eapply advances_knows; [exact Hs|exact Hh| |exact (Hr _)]; cbn.
Ltac mildly := fetch; eapply advances_mild; [|done|exact Hh|done]; try (apply gentle_done; by intros c; repeat split).
Lemma perform_ok {A} (o : op A) (Φ : A -> tok -> Prop) a g' : rule o T Φ -> perform world t o g = Some (a, g') -> advances t g g' Φ a.
Proof.
  destruct o; try (by apply claims_ok); cbn [rule perform]; try (by asks); try (by mildly); try (fetch; by eapply advances_same).
  - fetch. eapply advances_query; [done| |exact (Hr _)]. destruct (cr_usage_registration_forgotten (child g r)) eqn:E; [by apply holds_pays|done].
  - fetch. destruct (cr_retirement_finished (child g r)) eqn:E; [|by eapply advances_query; [..|exact (Hr false)]].
    eapply advances_query; [done| |exact (Hr true)]. apply holds_sees_gone; [|done].
    intros r' ->%list_elem_of_singleton. split; [by apply finished_valid|by apply (si_finished g Hs)].
  - fetch. eapply advances_query; [done| |exact (Hr _)]. apply holds_knows; [apply (si_children g Hs)|]. apply holds_sees_gone; [|done].
    intros r [Hn Hk]%list_elem_of_filter. split; [by apply (hd_known _ _ _ Hh)|done].
  - intros [Hk Hr] [= <- <-]. eapply advances_query; [done| |exact (Hr _)]. case_bool_decide; [done|]. apply holds_sees_gone; [|done].
    intros r' ->%list_elem_of_singleton. split; [by apply (hd_known _ _ _ Hh)|done].
  - knowing. apply matched.
  - knowing. intros r [Hin _]%list_elem_of_In%filter_In. by apply (si_children g Hs), list_elem_of_In.
  - knowing. apply matched.
  - intros Hr. unfold reserve_spawn_name. destruct (g_pending g !! name); intros [= <- <-]; [by eapply advances_query|by eapply advances_same].
  - intros [Hf Hr] [= <- <-]. apply (advances_joined [c] Φ _ [List.length (g_records g)]); [by constructor| |apply Hr].
    cbn. intros r ->%list_elem_of_singleton. rewrite length_app. cbn. lia.
  - apply reseed_ok.
  - intros [Hk Hr] [= <- <-]. by apply (step_drop t T).
  - intros Hr. destruct (g_rename g !! r) eqn:E; [done|]. intros [= <- <-]. by apply (step_lock t T).
  - intros (b & rest & E & Hr) [= <- <-]. by eapply (step_unlock t T).
  - mildly. apply gentle_verdict.
  - intros Hr. unfold mark_replied. destruct (first_match _ _); intros [= <- <-]; [|by eapply advances_query]. by eapply advances_mild; [apply gentle_done|done|exact Hh|].
  - intros (rest & E & Hr) [= <- <-]. by eapply (step_deliver t T).
  - knowing. intros r ([r' i] & -> & Hin)%list_elem_of_fmap. by apply (si_retired g Hs) in Hin.
  - destruct (tk_locks T) as [|[r' b] rest] eqn:E; [done|]. intros [-> Hr] [= <- <-]. by eapply intent_ok.
  - intros (Hk & b & rest & E & Hr). by eapply retain_ok.
  - intros (b & rest & E & Hr) [= <- <-]. eapply (step_retired t T); [done..| | | |done]; [|intros r' Hne; by apply intent_of_filter|done].
    intros x j [Hx _]%list_elem_of_In%filter_In. by eapply (si_retired g Hs), list_elem_of_In.
  - apply mark_retired_ok.
  - intros [Hk Hr]. unfold notify_deleted. destruct (cr_retirement_notified _) eqn:E; intros [= <- <-]; [by eapply advances_query|by apply (step_notified t T)].
  - intros [Hg Hr] [= <- <-]. eapply advances_mild; [|done|exact Hh|done]. unfold gentle; cbn. destruct (hd_gone _ _ _ Hh r Hg). naive_solver.
  - fetch. eapply advances_query; [done| |exact (Hr _)]. destruct (g_sink g) eqn:E; [done|by apply holds_free].
  - intros [Hk Hr] E. destruct (step_emit world Hgrow t T r g Φ Hs Hh Hk Hr) as [H1 H2]. injection E as E. rewrite E in H1, H2. by split.
  - intros [Hk Hr]. unfold forget_registration. destruct (cr_usage_registration_forgotten _) eqn:E; [|case_bool_decide as Hn]; intros [= <- <-].
    + eapply advances_query; [done| |exact (Hr true)]. by apply holds_pays.
    + by eapply advances_query; [..|exact (Hr false)].
    + apply (step_forget t T); [done..| |exact (Hr true)]. destruct (cr_pending_usage_report _) eqn:Hx; [|done]. destruct Hn. by eexists.
  - mildly. apply gentle_done. intros c. repeat split; try done. cbn. by intros n ->.
  - intros Hr. unfold arm_watch. destruct (cr_usage_watch_live _); intros [= <- <-]; by eapply advances_mild; [apply gentle_done|done|exact Hh|].
  - fetch. eapply advances_mild; [|done|exact Hh|done]. apply gentle_at. destruct (cr_usage_rearm _); by repeat split.
Qed.
End Perform.
End Logic.
Arguments si_children {steady g}.
Arguments si_retired {steady g}.
Arguments si_finished {steady g}.
Arguments si_owed {steady g}.
Arguments si_notices {steady g}.
Arguments si_notified {steady g}.
Arguments si_ids {steady g}.
Arguments si_usage {steady g}.
Arguments si_rows {steady g}.
Arguments si_forgotten {steady g}.
Arguments si_free {steady g}.
