(* ===== verification/ChildrenTheorems.v ===== *)
(** * Child sessions: the guarantees

    Every program of [Children] keeps to the rules of [ChildrenProofs],
    whatever the world answers; from there, whatever requests arrive, however
    the tasks interleave and wherever they are dropped: a child's terminal
    notice is sent at most once, its usage rows are billed at most once, a
    retirement never finds its receipt missing, and a child that a delete or a
    close reported gone is gone.  Then runs with a concrete world. *)
From S2P Require Import Prelude RustStr Json Time World LedgerReplay Journal State Children ChildrenProofs.
#[local] Open Scope string_scope.

(** ** Programs that keep to the rules *)
Record grows (T T' : tok) : Prop := {
  gr_notices : tk_notices T' = tk_notices T;
  gr_known : tk_known T ⊆ tk_known T';
  gr_gone : tk_gone T ⊆ tk_gone T';
  gr_paid : tk_paid T ⊆ tk_paid T';
  gr_free : tk_free T = true -> tk_free T' = true
}.
#[export] Instance grows_po : PreOrder grows.
Proof. split; [by intros T; split|]. intros T1 T2 T3 [] []. split; [congruence|by etrans..|auto]. Qed.
(** A program that gives back what it took, with locks [L] at its end. *)
Definition keeps {A} (T : tok) (L : list (nat * bool)) (R : A -> tok -> Prop) : A -> tok -> Prop :=
  fun a T' => grows T T' /\ tk_locks T' = L /\ R a T'.
Abbreviation calm p T := (ok (keeps T (tk_locks T) (fun _ _ => True)) T p).
Lemma ok_ret {A} (Q : A -> tok -> Prop) T a : Q a T -> ok Q T (Ret a).
Proof. done. Qed.
Lemma ok_seq {A B} T L R (Q : B -> tok -> Prop) (p : prog A) f :
  ok (keeps T L R) T p -> (forall a T', grows T T' -> tk_locks T' = L -> R a T' -> ok Q T' (f a)) -> ok Q T (bind p f).
Proof. intros Hp Hf. apply ok_bind. eapply ok_mono; [|exact Hp]. intros a T' (? & ? & ?). by apply Hf. Qed.
Lemma ok_last {A} T L R (Q : A -> tok -> Prop) (p : prog A) :
  ok (keeps T L R) T p -> (forall a T', grows T T' -> tk_locks T' = L -> R a T' -> Q a T') -> ok Q T p.
Proof. intros Hp Hf. eapply ok_mono; [|exact Hp]. intros a T' (? & ? & ?). by apply Hf. Qed.
(** Steps that only learn. *)
Definition learns {A} (o : op A) (T : tok) : Prop :=
  match o with
  | Emit r | IsHeld r | Forget r | DropRecord r | NotifyDeleted r => r ∈ tk_known T
  | Finish r => r ∈ tk_gone T
  | LockRename _ | UnlockRename _ | Intent _ | Retain _ _ | RemoveRetired _ | Push _ => False
  | ClaimSettleNotice _ | ClaimFailure _ _ _ _ | ClaimCancelNotice _ _ | DeliverNotice _ _ => False
  | _ => True
  end.
Definition learned {A} (o : op A) : A -> tok -> Prop :=
  match o in op B return B -> tok -> Prop with
  | Children => fun l T' => (forall r, r ∈ l -> r ∈ tk_known T') /\ forall r, r ∈ tk_known T' -> r ∈ l \/ r ∈ tk_gone T'
  | FindRecord _ => fun o T' => forall r, o = Some r -> r ∈ tk_known T'
  | Resolve _ => fun l T' => forall r, r ∈ l -> r ∈ tk_known T'
  | RenameTarget _ => fun x T' => forall r, fst x = Some r -> r ∈ tk_known T'
  | Retired => fun l T' => forall r i, (r, i) ∈ l -> r ∈ tk_known T'
  | IsHeld r => fun b T' => b = false -> r ∈ tk_gone T'
  | IsFinished r => fun b T' => b = true -> r ∈ tk_gone T'
  | DropRecord r => fun _ T' => r ∈ tk_gone T'
  | Read r => fun c T' => cr_usage_registration_forgotten c = true -> r ∈ tk_paid T'
  | HasSink => fun b T' => b = false -> tk_free T' = true
  | Forget r => fun b T' => b = true -> r ∈ tk_paid T'
  | _ => fun _ _ => True
  end.
Lemma grows_knows l T : grows T (knows l T).
Proof. split; cbn; try done. set_solver. Qed.
Lemma grows_gone l T : grows T (sees_gone l T).
Proof. split; cbn; try done. set_solver. Qed.
Lemma grows_pays r T : grows T (pays r T).
Proof. split; cbn; try done. set_solver. Qed.
Lemma grows_free T : grows T (free T).
Proof. by split. Qed.
Lemma ok_learn {A B} (Q : B -> tok -> Prop) T (o : op A) k : learns o T ->
  (forall a T', grows T T' -> tk_locks T' = tk_locks T -> learned o a T' -> ok Q T' (k a)) -> ok Q T (Call o k).
Proof.
  intros Hl Hk. cbn [ok]. destruct o; cbn [learns rule learned] in *; try done; try (intros a; by apply Hk).
  - intros c. apply Hk; destruct (cr_usage_registration_forgotten c); try done; [apply grows_pays|]. intros _. by left.
  - intros b. apply Hk; destruct b; try done; [apply grows_gone|]. intros _. by left.
  - intros l. apply Hk; [etrans; [apply grows_gone|apply grows_knows]|done|]. cbn. split; [set_solver|].
    intros r [Hr|Hr]%elem_of_app; [by left|]. destruct (decide (r ∈ l)); [by left|right]. apply elem_of_app. left. by apply list_elem_of_filter.
  - split; [done|]. intros b. apply Hk; destruct b; try done; [apply grows_gone|]. intros _. by left.
  - intros o. apply Hk; [apply grows_knows|done|]. intros r ->. by left.
  - intros l. apply Hk; [apply grows_knows|done|]. cbn. set_solver.
  - intros x. apply Hk; [apply grows_knows|done|]. intros r ->. by left.
  - split; [done|]. apply Hk; [apply grows_gone|done|]. by left.
  - intros l. apply Hk; [apply grows_knows|done|]. intros r i Hin. apply elem_of_app. left. by apply (list_elem_of_fmap_2 fst _ (r, i)).
  - split; [done|]. by apply Hk.
  - split; [done|]. by apply Hk.
  - intros b. apply Hk; destruct b; try done.
  - split; [done|]. intros b. by apply Hk.
  - split; [done|]. intros b. apply Hk; destruct b; try done; [apply grows_pays|]. intros _. by left.
Qed.
(** Steps that take or give back. *)
Lemma ok_lock {B} (Q : B -> tok -> Prop) T r k :
  (forall T', grows T T' -> tk_locks T' = (r, false) :: tk_locks T -> ok Q T' (k tt)) -> ok Q T (Call (LockRename r) k).
Proof. intros Hk. by apply Hk. Qed.
Lemma ok_unlock {B} (Q : B -> tok -> Prop) T r b rest k : tk_locks T = (r, b) :: rest ->
  (forall T', grows T T' -> tk_locks T' = rest -> ok Q T' (k tt)) -> ok Q T (Call (UnlockRename r) k).
Proof. intros E Hk. exists b, rest. split; [done|]. by apply Hk. Qed.
Lemma ok_intent {B} (Q : B -> tok -> Prop) T r b rest k : tk_locks T = (r, b) :: rest ->
  (forall i T', (b = true -> i <> None) -> grows T T' -> tk_locks T' = (r, bool_decide (is_Some i)) :: rest -> ok Q T' (k i)) -> ok Q T (Call (Intent r) k).
Proof. intros E Hk. cbn [ok rule]. rewrite E. split; [done|]. intros i Hi. by apply Hk. Qed.
Lemma ok_retain {B} (Q : B -> tok -> Prop) T r i b rest k : r ∈ tk_known T -> tk_locks T = (r, b) :: rest ->
  (forall T', grows T T' -> tk_locks T' = (r, true) :: rest -> ok Q T' (k tt)) -> ok Q T (Call (Retain r i) k).
Proof. intros Hr E Hk. split; [done|]. exists b, rest. split; [done|]. by apply Hk. Qed.
Lemma ok_unretain {B} (Q : B -> tok -> Prop) T r b rest k : tk_locks T = (r, b) :: rest ->
  (forall T', grows T T' -> tk_locks T' = (r, false) :: rest -> ok Q T' (k tt)) -> ok Q T (Call (RemoveRetired r) k).
Proof. intros E Hk. exists b, rest. split; [done|]. by apply Hk. Qed.
Lemma ok_push {B} (Q : B -> tok -> Prop) T c k : fresh_child c ->
  (forall r T', grows T T' -> tk_locks T' = tk_locks T -> r ∈ tk_known T' -> ok Q T' (k r)) -> ok Q T (Call (Push c) k).
Proof. intros Hc Hk. split; [done|]. intros r. apply Hk; [apply grows_knows|done|by left]. Qed.
Definition claims (r : nat) (o : op (option Notice)) : Prop :=
  forall T (Φ : option Notice -> tok -> Prop), r ∈ tk_known T -> (forall n, Φ n (claimed r n T)) -> rule o T Φ.
Lemma ok_claim {B} (Q : B -> tok -> Prop) T r o k : claims r o -> r ∈ tk_known T ->
  ok Q T (k None) -> (forall n, ok Q (claimed r (Some n) T) (k (Some n))) -> ok Q T (Call o k).
Proof. intros Hc Hr Hn Hs. cbn [ok]. apply Hc; [done|]. by intros [n|]. Qed.
Lemma ok_deliver {B} (Q : B -> tok -> Prop) T r m n k :
  ok Q T (k tt) -> ok Q (claimed r (Some m) T) (Call (DeliverNotice r n) k).
Proof. intros Hk. exists (tk_notices T). split; [done|]. by destruct T. Qed.
Lemma ok_has {B} (Q : B -> tok -> Prop) T r b rest f : tk_locks T = (r, b) :: rest ->
  (forall a T', grows T T' -> tk_locks T' = (r, a) :: rest -> ok Q T' (f a)) -> ok Q T (bind (has_retired_usage r) f).
Proof. intros E Hk. eapply ok_intent; [exact E|]. intros i T' _ Hg Hl. by apply Hk. Qed.

(** [keep] runs a program to its end: tokens grow, locks are known by name. *)
Create HintDb children.
Ltac known := first [assumption|match goal with H : grows ?T ?T' |- _ ∈ tk_known ?T' => apply (gr_known T T' H); known end].
Ltac gone := first [assumption|match goal with H : grows ?T ?T' |- _ ∈ tk_gone ?T' => apply (gr_gone T T' H); gone end].
Ltac growing := first [reflexivity|assumption|match goal with H : grows ?T ?T' |- grows _ ?T' => transitivity T; [growing|exact H] end].
Ltac locks :=
  repeat match goal with E : tk_locks ?T' = _ |- context [tk_locks ?T'] => rewrite E end; reflexivity.
Ltac side := cbn [learns]; first [exact I|known|gone].
Ltac learn := apply ok_learn; [side|let Hg := fresh "Hg" in let Hl := fresh "Hl" in let HR := fresh "HR" in intros ? ? Hg Hl HR; cbn [learned] in HR; try (lazymatch type of HR with True => clear HR end)].
Ltac finish := unfold keeps; split; [growing|split; [locks|]].
Ltac sub := eapply ok_seq; [solve [eauto with children]|let Hg := fresh "Hg" in let Hl := fresh "Hl" in let HR := fresh "HR" in intros ? ? Hg Hl HR; cbv beta in HR; try (lazymatch type of HR with True => clear HR end)].
Ltac tail := eapply ok_last; [solve [eauto with children]|let Hg := fresh "Hg" in let Hl := fresh "Hl" in let HR := fresh "HR" in intros ? ? Hg Hl HR; cbv beta in HR; try (lazymatch type of HR with True => clear HR end)].
Ltac took := let Hg := fresh "Hg" in let Hl := fresh "Hl" in intros ? Hg Hl.
Ltac keep1 :=
  cbn [bind call];
  lazymatch goal with
  | |- ok _ _ (Ret _) => apply ok_ret; cbv beta
  | |- ok _ _ Spin => exact I
  | |- ok _ _ (call _) => unfold call
  | |- ok _ _ (Call (LockRename _) _) => apply ok_lock; took
  | |- ok _ _ (Call (UnlockRename _) _) => eapply ok_unlock; [locks|took]
  | |- ok _ _ (Call (Retain _ _) _) => eapply ok_retain; [known|locks|took]
  | |- ok _ _ (Call (RemoveRetired _) _) => eapply ok_unretain; [locks|took]
  | |- ok _ _ (Call _ _) => learn
  | |- ok _ _ (Fork _ _) => split; [side|]
  | |- ok _ _ (match negb ?x with _ => _ end) => destruct x eqn:?; cbn [negb]
  | |- ok _ _ (match ?x with _ => _ end) => destruct x eqn:?
  | |- ok _ _ (bind (match ?x with _ => _ end) _) => apply ok_bind; destruct x eqn:?
  | |- ok _ _ (bind (bind _ _) _) => apply ok_bind
  | |- ok _ _ (bind (has_retired_usage _) _) => eapply ok_has; [locks|let Hg := fresh "Hg" in let Hl := fresh "Hl" in intros ? ? Hg Hl]
  | |- ok _ _ (bind _ _) => sub
  | |- keeps _ _ _ _ _ => finish
  | |- ok _ _ _ => tail
  end.
Ltac keep := repeat (keep1; try done).
#[export] Hint Extern 5 (grows _ _) => growing : children.

Lemma calm_create id name depth model dir T : calm (create_child id name depth model dir) T.
Proof. unfold create_child. keep. Qed.
Lemma calm_wake mk active subject T : calm (command_with_durable_wake mk active subject) T.
Proof. unfold command_with_durable_wake. keep. Qed.
#[export] Hint Resolve calm_create calm_wake : children.
Lemma calm_prompt active prompt T : calm (prompt_child active prompt) T.
Proof. unfold prompt_child. keep. Qed.
Lemma calm_kill active reason T : calm (kill_child active reason) T.
Proof. unfold kill_child. keep. Qed.
Lemma calm_busy active T : calm (child_busy active) T.
Proof. unfold child_busy. keep. Qed.
Lemma calm_answer active T : calm (child_answer_raw active) T.
Proof. unfold child_answer_raw. keep. Qed.
Lemma calm_wait active b T : calm (wait_for_child active b) T.
Proof. unfold wait_for_child. keep. Qed.
#[export] Hint Resolve calm_prompt calm_kill calm_busy calm_answer calm_wait : children.
Lemma calm_refresh r T : calm (refresh_record r) T.
Proof. unfold refresh_record. keep. Qed.
Lemma calm_settle_hook r T : calm (fire_settle_hook r) T.
Proof. unfold fire_settle_hook. keep. Qed.
Lemma calm_exit_text c T : calm (exit_text c) T.
Proof. unfold exit_text. keep. Qed.
#[export] Hint Resolve calm_refresh calm_settle_hook calm_exit_text : children.
(** A claim and the notice it owes. *)
Lemma calm_claim_deliver r o T : claims r o -> r ∈ tk_known T -> calm (let& n := call o in deliver_claimed r n) T.
Proof. intros Ho Hr. cbn [bind call]. eapply (ok_claim _ _ r); [done..| |]; cbn [deliver_claimed]; [keep|]. intros n. unfold call. apply ok_deliver. keep. Qed.
Lemma calm_settle_notice r T : r ∈ tk_known T -> calm (deliver_settle_notice r) T.
Proof. intros Hr. by apply calm_claim_deliver. Qed.
Lemma calm_settle_failed r e arm T : r ∈ tk_known T -> calm (settle_failed r e arm) T.
Proof.
  intros Hr. unfold settle_failed. do 2 keep1. cbn [bind call]. eapply (ok_claim _ _ r); [by split|known|keep|].
  intros n. cbn [bind call]. apply ok_deliver. keep.
Qed.
Lemma calm_emit_final r T : r ∈ tk_known T -> calm (emit_final_child_usage r) T.
Proof. intros Hr. unfold emit_final_child_usage. keep. Qed.
#[export] Hint Extern 5 (_ ∈ tk_known _) => known : children.
#[export] Hint Resolve calm_settle_notice calm_settle_failed calm_emit_final : children.
(** [forget_child_usage] answers whether everything is billed. *)
Definition billed_up (r : nat) (T : tok) : Prop := r ∈ tk_paid T \/ tk_free T = true.
Lemma ok_forget r T : r ∈ tk_known T -> ok (keeps T (tk_locks T) (fun b T' => b = true -> billed_up r T')) T (forget_child_usage r).
Proof. intros Hr. unfold forget_child_usage, billed_up. keep; intros Hb; solve [left; auto|right; auto]. Qed.
#[export] Hint Resolve ok_forget : children.
Lemma grows_billed_up r T T' : grows T T' -> billed_up r T -> billed_up r T'.
Proof. intros [] [?|?]; [left; set_solver|right; auto]. Qed.

(** *** The watchers *)
Lemma calm_watch n : forall r polls T, r ∈ tk_known T -> calm (watch_child_settle n r polls) T.
Proof. induction n as [|n IH]; intros r polls T Hr; cbn [watch_child_settle]; keep. Qed.
#[export] Hint Resolve calm_watch : children.
Lemma calm_kickoff n r active prompt file id T : r ∈ tk_known T -> calm (kickoff n r active prompt file id) T.
Proof. intros Hr. unfold kickoff. keep. Qed.
Lemma calm_arm r T : r ∈ tk_known T -> calm (arm_usage_watch r) T.
Proof. intros Hr. unfold arm_usage_watch. keep. Qed.
Lemma calm_wait_idle n : forall r u T, r ∈ tk_known T -> calm (wait_idle n r u) T.
Proof. induction n as [|n IH]; intros r u T Hr; cbn [wait_idle]; keep. Qed.
Lemma calm_wait_start n : forall r T, r ∈ tk_known T -> calm (wait_start n r) T.
Proof. induction n as [|n IH]; intros r T Hr; cbn [wait_start]; keep. Qed.
Lemma calm_wait_end n : forall r u T, r ∈ tk_known T -> calm (wait_end n r u) T.
Proof. induction n as [|n IH]; intros r u T Hr; cbn [wait_end]; keep. Qed.
#[export] Hint Resolve calm_arm calm_wait_idle calm_wait_start calm_wait_end : children.
Lemma calm_usage_watch n : forall r T, r ∈ tk_known T -> calm (watch_child_usage n r) T.
Proof. induction n as [|n IH]; intros r T Hr; cbn [watch_child_usage]; keep. Qed.

(** *** Retirement, under the rename lock *)
Definition under {A} (r : nat) (T : tok) (rest : list (nat * bool)) (R : A -> tok -> Prop) : A -> tok -> Prop :=
  fun a T' => grows T T' /\ exists b, tk_locks T' = (r, b) :: rest /\ R a T'.
Lemma ok_under {A B} r T rest R (Q : B -> tok -> Prop) (p : prog A) f :
  ok (under r T rest R) T p -> (forall a b T', grows T T' -> tk_locks T' = (r, b) :: rest -> R a T' -> ok Q T' (f a)) -> ok Q T (bind p f).
Proof. intros Hp Hf. apply ok_bind. eapply ok_mono; [|exact Hp]. intros a T' (? & b & ? & ?). by eapply Hf. Qed.
Lemma ok_finish r T rest : r ∈ tk_known T -> tk_locks T = (r, true) :: rest ->
  ok (keeps T ((r, true) :: rest) (fun _ T' => r ∈ tk_gone T')) T (finish_retirement r).
Proof.
  intros Hr HL. unfold finish_retirement. do 2 keep1; [by keep; auto|]. cbn [bind call]. eapply ok_intent; [by rewrite Hl|].
  intros i T1 Hi Hg1 Hl1. destruct i as [i|]; [|by destruct Hi]. rewrite bool_decide_true in Hl1 by done.
  do 2 keep1. eapply (ok_seq _ ((r, true) :: rest) (fun _ _ => True)); [destruct i; [|by keep]|intros; keep; gone].
  keep1. eapply ok_last; [apply (calm_claim_deliver r (ClaimCancelNotice r was_running)); [by split|known]|intros; by keep].
Qed.
#[export] Hint Resolve ok_finish : children.
Lemma ok_conclude r T rest : r ∈ tk_known T -> tk_locks T = (r, true) :: rest ->
  ok (under r T rest (fun b T' => r ∈ tk_gone T' /\ (b = true -> billed_up r T'))) T (conclude_retirement r).
Proof.
  intros Hr HL. unfold conclude_retirement. keep1. eapply ok_seq; [apply ok_finish; [known|by rewrite Hl]|]. intros a0 T1 Hg1 Hl1 Hgone.
  destruct a; keep; (split; [growing|]); eexists; (split; [locks|]); (split; [gone|]); try done. intros _. do 2 (eapply grows_billed_up; [eassumption|]). auto.
Qed.
Ltac conclude :=
  cbn [bind call]; eapply ok_under; [apply ok_conclude; [known|locks]|];
  let Hg := fresh "Hg" in let Hl := fresh "Hl" in let Hgone := fresh "Hgone" in let Hpaid := fresh "Hpaid" in intros ? ? ? Hg Hl [Hgone Hpaid].
Lemma calm_replay rs target : forall T b, (forall r i, (r, i) ∈ rs -> r ∈ tk_known T) -> calm (replay_walk rs target b) T.
Proof.
  induction rs as [|[r i] rest IH]; intros T b Hrs; cbn [replay_walk]; [by keep|].
  assert (Hr : r ∈ tk_known T) by (eapply Hrs; left).
  assert (IH' : forall T' b, grows T T' -> calm (replay_walk rest target b) T').
  { intros T' b' Hg. apply IH. intros r' i' Hin. apply (gr_known _ _ Hg). eapply Hrs. by right. }
  keep.
  conclude. keep.
Qed.
Lemma calm_replay_all target T : calm (replay_retired_usage target) T.
Proof. unfold replay_retired_usage. keep1. eapply ok_last; [apply calm_replay; exact HR|]. intros; keep. Qed.
#[export] Hint Resolve calm_replay_all : children.
Lemma calm_cancel rs id : forall T, (forall r, r ∈ rs -> r ∈ tk_known T) -> calm (cancel_walk rs id) T.
Proof.
  induction rs as [|r rest IH]; intros T Hrs; cbn [cancel_walk]; [by keep|]. assert (Hr : r ∈ tk_known T) by (apply Hrs; left).
  assert (IH' : forall T', grows T T' -> calm (cancel_walk rest id) T') by (intros T' Hg; apply IH; intros r' Hin; apply (gr_known _ _ Hg), Hrs; by right).
  keep.
Qed.
Lemma calm_retire_name name T : calm (retire_dead_child_name name) T.
Proof. unfold retire_dead_child_name. keep1. destruct a as [r|]; [|by keep]. pose proof (HR r eq_refl) as Hr. keep. Qed.
Lemma calm_delete_inactive rs id : forall T, (forall r, r ∈ rs -> r ∈ tk_known T) -> calm (delete_inactive_walk rs id) T.
Proof.
  induction rs as [|r rest IH]; intros T Hrs; cbn [delete_inactive_walk]; [by keep|]. assert (Hr : r ∈ tk_known T) by (apply Hrs; left).
  assert (IH' : forall T', grows T T' -> calm (delete_inactive_walk rest id) T') by (intros T' Hg; apply IH; intros r' Hin; apply (gr_known _ _ Hg), Hrs; by right).
  keep.
  - conclude. keep.
  - conclude. keep.
Qed.
Lemma calm_delete_inactive_subagent id T : calm (delete_inactive_subagent id) T.
Proof.
  unfold delete_inactive_subagent. keep1. keep1; [|by keep]. keep1. eapply ok_seq; [apply calm_delete_inactive; apply HR|]. intros. keep.
Qed.
(** A close without an error leaves none of the children it was given. *)
Lemma ok_close rs reason : forall T error, (forall r, r ∈ rs -> r ∈ tk_known T) ->
  ok (keeps T (tk_locks T) (fun e T' => e = None -> error = None /\ forall r, r ∈ rs -> r ∈ tk_gone T')) T (close_walk rs reason error).
Proof.
  induction rs as [|r rest IH]; intros T error Hrs; cbn [close_walk]; [keep; intros ->; by split; [|intros r ?%not_elem_of_nil]|].
  assert (Hr : r ∈ tk_known T) by (apply Hrs; left).
  assert (IH' : forall T' e0, grows T T' -> ok (keeps T' (tk_locks T') (fun e T1 => e = None -> e0 = None /\ forall r, r ∈ rest -> r ∈ tk_gone T1)) T' (close_walk rest reason e0))
    by (intros T' e0 Hg; apply IH; intros r' Hin; apply (gr_known _ _ Hg), Hrs; by right).
  assert (Hend : forall (e0 e : option anyhow) T', (e0 = None -> error = None /\ r ∈ tk_gone T') -> (e = None -> e0 = None /\ forall r, r ∈ rest -> r ∈ tk_gone T') ->
    e = None -> error = None /\ forall r0, r0 ∈ r :: rest -> r0 ∈ tk_gone T').
  { intros e0 e T' Hr0 He Hn. destruct (He Hn) as [H0 H1]. destruct (Hr0 H0) as [-> Hgo]. split; [done|]. by intros r' [->|Hin]%elem_of_cons; [|apply H1]. }
  keep; try (conclude; keep); (eapply Hend; [|eassumption]).
  all: try (intros E; first [done|split; [by repeat case_match|gone]]). intros ->. split; [done|]. pose proof (HR eq_refl). gone.
Qed.
#[export] Hint Resolve calm_delete_inactive_subagent calm_retire_name : children.
Lemma ok_close_all reason T : let D := tk_known T in
  ok (keeps T (tk_locks T) (fun r T' => r = inr tt -> forall r, r ∈ D -> r ∈ tk_gone T')) T (close_children_inner reason).
Proof.
  intros D. unfold close_children_inner. do 2 keep1. eapply ok_seq; [apply ok_close; apply HR|]. intros e T1 Hg1 Hl1 He. keep.
  destruct e; [done|]. intros _ r Hr. destruct (proj2 HR r) as [Hin|Hin]; [known| |gone].
  assert (Hx : r ∈ tk_gone T1) by (by apply He). gone.
Qed.
Lemma calm_reseed T : calm reseed_from_ledger T.
Proof. unfold reseed_from_ledger. keep. Qed.
Lemma ok_admit id name reference depth T :
  ok (keeps T (tk_locks T) (fun x T' => match x with inr (r, _, _) => r ∈ tk_known T' | inl _ => True end)) T (admit_spawn id name reference depth).
Proof.
  unfold admit_spawn. keep; try (by keep). cbn [bind call]. apply ok_push; [done|]. intros r T1 ? ? Hr. keep. known.
Qed.
#[export] Hint Resolve calm_reseed ok_admit : children.
Lemma calm_spawn prompt requested reference T : calm (spawn_child prompt requested reference) T.
Proof. unfold spawn_child. keep. Qed.
Lemma ok_resolve kind target T :
  ok (keeps T (tk_locks T) (fun x T' => match x with inr (inl r) => r ∈ tk_known T' | _ => True end)) T (resolve kind target).
Proof. unfold resolve. keep; try (apply HR; by left); by repeat case_match. Qed.
#[export] Hint Resolve calm_spawn ok_resolve : children.
Definition deleted_ok (x : anyhow + DeleteResult) (T : tok) : Prop :=
  match x with inr (DeletedNow r) => r ∈ tk_gone T /\ billed_up r T | _ => True end.
Lemma ok_delete_record target r T : r ∈ tk_known T -> ok (keeps T (tk_locks T) deleted_ok) T (delete_record target r).
Proof.
  intros Hr. unfold delete_record. keep; conclude; keep; case_match; try done; (split; [gone|]); (eapply grows_billed_up; [eassumption|auto]).
Qed.
Lemma ok_delete target T : ok (keeps T (tk_locks T) deleted_ok) T (delete_subagent target).
Proof.
  unfold delete_subagent. keep1. keep1; [|by keep]. keep1. destruct a0 as [e|[r|d]]; [by keep| |by keep].
  eapply ok_last; [by apply ok_delete_record|]. intros; keep.
Qed.
Lemma calm_collect_one r T : r ∈ tk_known T -> calm (collect_one r) T.
Proof. intros Hr. unfold collect_one. keep. Qed.
#[export] Hint Resolve ok_delete calm_collect_one : children.
Lemma ok_collect_targets targets : forall T,
  ok (keeps T (tk_locks T) (fun x T' => match x with inr (rs, _) => forall r, r ∈ rs -> r ∈ tk_known T' | _ => True end)) T (collect_targets targets).
Proof.
  induction targets as [|target rest IH]; intros T; cbn [collect_targets]; [keep; by intros r ?%not_elem_of_nil|].
  keep. destruct a0 as [|[rs ds]]; [done|]. destruct s as [r|d]; [|done]. intros r' [->|Hin]%elem_of_cons; [known|by apply HR0].
Qed.
Lemma calm_collect_all rs : forall T, (forall r, r ∈ rs -> r ∈ tk_known T) -> calm (collect_all rs) T.
Proof.
  induction rs as [|r rest IH]; intros T Hrs; cbn [collect_all]; [by keep|]. assert (Hr : r ∈ tk_known T) by (apply Hrs; left).
  assert (IH' : forall T', grows T T' -> calm (collect_all rest) T') by (intros T' Hg; apply IH; intros r' Hin; apply (gr_known _ _ Hg), Hrs; by right).
  keep.
Qed.
#[export] Hint Resolve ok_collect_targets : children.
Lemma calm_collect targets T : calm (collect targets) T.
Proof.
  unfold collect. eapply (ok_seq _ (tk_locks T) (fun l T' => forall r, r ∈ l -> r ∈ tk_known T')).
  - destruct targets; keep; [by apply HR|]. by intros r ?%not_elem_of_nil.
  - intros all T1 Hg1 Hl1 Hall. keep1. destruct a as [e|[rs ds]]; [by keep|]. eapply ok_seq; [apply calm_collect_all|intros; keep].
    intros r [Hr|Hr]%elem_of_app; [apply (gr_known _ _ Hg); by apply Hall|by apply HR].
Qed.
Lemma calm_rename_child r name T : calm (rename_child r name) T.
Proof. unfold rename_child. keep. Qed.
#[export] Hint Resolve calm_collect calm_rename_child : children.
Lemma calm_rename name id T : calm (rename name id) T.
Proof. unfold rename. keep. Qed.
Lemma calm_observe target T : calm (observe_child_usage target) T.
Proof. unfold observe_child_usage. keep1. destruct a as [r|]; [|by keep]. pose proof (HR r eq_refl) as Hr. keep. Qed.
Lemma calm_cancel_run id T : calm (cancel_child_run id) T.
Proof. unfold cancel_child_run. keep1. eapply ok_last; [apply calm_cancel; apply HR|]. intros; keep. Qed.
#[export] Hint Resolve calm_rename calm_observe calm_cancel_run : children.

(** ** The system *)
Definition final (x : outcome) (T : tok) : Prop := match x with OutDelete r => deleted_ok r T | _ => True end.
Lemma request_ok q T : ok final T (request_prog q).
Proof.
  destruct q; cbn [request_prog]; keep; try done.
  - eapply ok_seq; [apply ok_close_all|]. intros; keep.
Qed.
Section System.
Context (world : nat -> forall A, ask A -> A) (fuel : nat).
Lemma job_ok j T : match j with Kickoff r _ _ _ _ | UsageWatch r => r ∈ tk_known T end -> ok final T (job_prog fuel j).
Proof.
  destruct j; intros Hr; cbn [job_prog]; (eapply ok_seq; [first [by apply calm_kickoff|by apply calm_usage_watch]|]); intros; keep; done.
Qed.
Definition nothing : tok := mkTok [] [] [] [] [] false.
Lemma holds_nothing t g : holds t nothing g.
Proof. split; cbn; try done; try apply NoDup_nil_2; try (by intros r ?%not_elem_of_nil). by intros r b ?%not_elem_of_nil. Qed.
(** Every task keeps to the rules with the tokens it holds, and ends as [Qs]
    says. *)
Record sys_inv (Qs : nat -> outcome -> tok -> Prop) (s : Sys) : Prop := {
  sv_registry : si (append_only world) (s_registry s);
  sv_tasks t p : s_tasks s !! t = Some p -> (t < s_next s)%nat /\ exists T, holds t T (s_registry s) /\ ok (Qs t) T p
}.
Definition later (Qs : nat -> outcome -> tok -> Prop) (s : Sys) : Prop := forall t, (s_next s <= t)%nat -> Qs t = final.
Lemma holds_put_clock t T g n : holds t T g -> holds t T (put_clock n g).
Proof. by apply holds_same. Qed.
Lemma holds_drop t t' T g : t' <> t -> holds t' T g -> holds t' T (drop_guards t g).
Proof.
  intros Hne Hh. split; try apply Hh. intros r b Hin. destruct (hd_locks _ _ _ Hh r b Hin) as [Hl Hi]. split; [|done].
  apply map_lookup_filter_Some. by split.
Qed.
(** A new task beside the others. *)
Lemma start_inv Qs s T p : sys_inv Qs s -> holds (s_next s) T (s_registry s) -> ok (Qs (s_next s)) T p ->
  sys_inv Qs (mkSys (s_registry s) (<[s_next s := p]> (s_tasks s)) (S (s_next s))).
Proof.
  intros [Hs Ht] Hh Hp. split; [done|]. cbn. intros t q [[<- <-]|[Hne Hq]]%lookup_insert_Some; [split; [lia|by eexists]|].
  destruct (Ht t q Hq) as [Hlt HT]. split; [lia|done].
Qed.
Lemma step_inv Qs s t g p T : sys_inv Qs s -> (t < s_next s)%nat -> kept (append_only world) t (s_registry s) g -> holds t T g -> ok (Qs t) T p ->
  sys_inv Qs (mkSys (tick g) (<[t := p]> (s_tasks s)) (s_next s)).
Proof.
  intros [Hs Ht] Hlt [Hs' Hk] Hh Hp. split; [by eapply si_same; [..|exact Hs']|]. cbn.
  intros t' q [[<- <-]|[Hne Hq]]%lookup_insert_Some; [split; [done|]; exists T; split; [by apply holds_put_clock|done]|].
  destruct (Ht t' q Hq) as [Hlt' (T' & HT & Hok)]. split; [done|]. exists T'. split; [|done]. apply holds_put_clock, Hk; [done|done].
Qed.
Lemma tasks_exec_inv Qs e s s' : later Qs s -> sys_inv Qs s -> exec world fuel e s = Some s' -> sys_inv Qs s' /\ (s_next s <= s_next s')%nat.
Proof.
  intros Hla Hi. pose proof Hi as [Hs Ht]. destruct e as [q|t|t|identity]; cbn [exec].
  - intros [= <-]. split; [|cbn; lia]. apply (start_inv _ _ nothing); [done|apply holds_nothing|]. rewrite Hla by lia. apply request_ok.
  - destruct (s_tasks s !! t) as [p|] eqn:E; [|done]. destruct (Ht t p E) as [Hlt (T & Hh & Hok)]. destruct p as [a|B o k|j k| |]; try done.
    + destruct (perform world t o (s_registry s)) as [[a g]|] eqn:Ep; [|done]. intros [= <-]. split; [|cbn; lia].
      destruct (perform_ok _ world (fun H => H) t T _ Hs Hh o _ a g Hok Ep) as [Hk (T' & Hok' & Hh')]. by eapply step_inv.
    + destruct Hok as [Hj Hok]. intros [= <-]. split; [|cbn; lia]. cbn in Hok, Hj.
      refine (start_inv Qs (mkSys (s_registry s) (<[t:=k]> (s_tasks s)) (s_next s)) (knows (match j with Kickoff r _ _ _ _ | UsageWatch r => [r] end) nothing) (job_prog fuel j) _ _ _).
      * split; [done|]. cbn. intros t' q [[<- <-]|[Hne Hq]]%lookup_insert_Some; [split; [done|by eexists]|by apply Ht].
      * apply holds_knows; [|apply holds_nothing]. cbn. destruct j; intros r' ->%list_elem_of_singleton; by apply (hd_known _ _ _ Hh).
      * cbn. rewrite Hla by lia. apply job_ok. destruct j; by left.
  - destruct (s_tasks s !! t) as [p|] eqn:E; [|done]. intros He.
    assert (Es : s' = mkSys (drop_guards t (s_registry s)) (delete t (s_tasks s)) (s_next s)) by (destruct p; by simplify_eq). subst s'.
    split; [|cbn; lia]. split; [by eapply si_same; [..|exact Hs]|]. cbn. intros t' q [Hne Hq]%lookup_delete_Some.
    destruct (Ht t' q Hq) as [Hlt (T' & HT & Hok)]. split; [done|]. exists T'. split; [by apply holds_drop|done].
  - intros [= <-]. split; [|cbn; lia]. split; [by eapply si_same; [..|exact Hs]|]. cbn. intros t q Hq.
    destruct (Ht t q Hq) as [Hlt (T' & HT & Hok)]. split; [done|]. exists T'. split; [by eapply holds_same; [..|exact HT]|done].
Qed.
Lemma run_inv Qs es : forall s s', later Qs s -> sys_inv Qs s -> run_tasks world fuel es s = Some s' -> sys_inv Qs s'.
Proof.
  induction es as [|e es IH]; intros s s' Hla Hi; cbn [run_tasks]; [by intros [= <-]|].
  intros (s1 & He & Hr)%bind_Some. destruct (tasks_exec_inv Qs e s s1 Hla Hi He) as [Hi1 Hn]. eapply IH; [|done..]. intros t Ht. apply Hla. lia.
Qed.
(** A task that is done stays as it is; new tasks have new numbers. *)
Lemma finished_stays Qs es t x : forall s s', sys_inv Qs s -> later Qs s -> s_tasks s !! t = Some (Ret x) -> run_tasks world fuel es s = Some s' -> s_tasks s' !! t = Some (Ret x).
Proof.
  induction es as [|e es IH]; intros s s' Hi Hla Ht; cbn [run_tasks]; [by intros [= <-]|].
  intros (s1 & He & Hr)%bind_Some. destruct (tasks_exec_inv Qs e s s1 Hla Hi He) as [Hi1 Hn]. destruct (sv_tasks _ _ Hi t _ Ht) as [Hlt _].
  apply (IH s1); [done|intros t' ?; apply Hla; lia| |done]. destruct e as [q|t'|t'|identity]; cbn [exec] in He.
  - injection He as <-. cbn. by rewrite lookup_insert_ne by lia.
  - destruct (decide (t' = t)) as [->|Hne]; [by rewrite Ht in He|]. destruct (s_tasks s !! t') as [[]|]; try done.
    + destruct (perform _ _ _ _) as [[]|]; [|done]. injection He as <-. cbn. by rewrite lookup_insert_ne.
    + injection He as <-. cbn. rewrite lookup_insert_ne by lia. by rewrite lookup_insert_ne.
  - destruct (decide (t' = t)) as [->|Hne]; [by rewrite Ht in He|]. destruct (s_tasks s !! t') as [[]|]; try done; injection He as <-; cbn; by rewrite lookup_delete_ne.
  - by injection He as <-.
Qed.
Lemma opened_inv identity sink : sys_inv (fun _ => final) (opened identity sink).
Proof.
  split; [|done]. assert (Hc : forall r, child (s_registry (opened identity sink)) r = blank_child) by (intros r; unfold child; cbn; by rewrite lookup_nil).
  split; cbn; try (by intros r ?%not_elem_of_nil); try done; try (by intros r; rewrite Hc).
  - by intros r i ?%not_elem_of_nil.
  - split; [constructor|by intros r ?%not_elem_of_nil].
  - split; [constructor|by intros r ?%not_elem_of_nil].
  - intros r. by split; [intros p ?%not_elem_of_nil|intros p; rewrite Hc].
  - intros r St. split; [constructor|]. by intros _ p ?%not_elem_of_nil.
Qed.
Lemma tasks_reachable_inv s : reachable world fuel s -> sys_inv (fun _ => final) s.
Proof. induction 1 as [|s e s' Hr IH He]; [apply opened_inv|]. by apply (tasks_exec_inv (fun _ => final) e s s'). Qed.

(** ** The guarantees *)
(** C16: whatever requests arrive and however their tasks interleave or are
    dropped, a child's terminal notice (completed without a reply, failed,
    cancelled) is sent to the parent at most once and the delete hook is called
    for a child at most once; a notice that is claimed and not sent yet is not
    one that was sent, and a child with a notice sent or claimed is marked, so
    that nobody claims another. *)
Theorem child_notice_once s : reachable world fuel s ->
  let g := s_registry s in
  NoDup (map fst (g_notices g)) /\ NoDup (g_notified g)
  /\ (forall r, r ∈ map fst (g_notices g) \/ is_Some (g_owed g !! r) -> cr_notice_delivered (child g r) = true)
  /\ (forall r t, g_owed g !! r = Some t -> r ∉ map fst (g_notices g)).
Proof.
  intros Hr g. destruct (tasks_reachable_inv s Hr) as [Hs _]. destruct (si_notices Hs) as [Hn Hd]. destruct (si_notified Hs) as [Hn' _].
  split; [done|]. split; [done|]. split; [|by intros r t [_ ?]%(si_owed Hs)]. intros r [Hin|[t Ho]]; [by apply Hd|by apply (si_owed Hs) in Ho as [? _]].
Qed.
Lemma sorted_disjoint l p q row : StronglySorted (fun a b => rp_next a <= rp_from b)%nat l -> p ∈ l -> q ∈ l ->
  (rp_from p <= row < rp_next p)%nat -> (rp_from q <= row < rp_next q)%nat -> p = q.
Proof.
  induction 1 as [|a l Hs IH Hall]; [by intros ?%not_elem_of_nil|]. rewrite Forall_forall in Hall.
  intros [->|Hp]%elem_of_cons [->|Hq]%elem_of_cons Hrp Hrq; [done| | |by apply IH].
  - specialize (Hall q Hq). lia.
  - specialize (Hall p Hp). lia.
Qed.
(** C17: while transcripts only grow, no row of a child's transcript is
    billed to the parent by two reports: reports of a child are distinct and their rows disjoint, every
    report bills at least one row, and all of them but the one still owed have
    been acknowledged; rows behind the cursor of a child that owes nothing are
    never reported again. *)
Theorem child_rows_billed_once s r : append_only world -> reachable world fuel s ->
  let g := s_registry s in
  (forall p q row, p ∈ reports_of g r -> q ∈ reports_of g r ->
     (rp_from p <= row < rp_next p)%nat -> (rp_from q <= row < rp_next q)%nat -> p = q)
  /\ (forall p, p ∈ reports_of g r -> (rp_from p < rp_next p)%nat /\ (rp_id p ∈ g_acked g \/ cr_pending_usage_report (child g r) = Some p))
  /\ (forall p, p ∈ reports_of g r -> cr_pending_usage_report (child g r) = None ->
        exists n, cr_attributed_rows (child g r) = Some n /\ (rp_next p <= n)%nat).
Proof.
  intros St Hr g. destruct (tasks_reachable_inv s Hr) as [Hs _]. destruct (si_usage Hs r) as (Hi & _). destruct (si_rows Hs r St) as (Hso & Hl).
  split; [intros p q row; by apply sorted_disjoint|]. split; [done|]. intros p Hp Hn. by apply Hl.
Qed.
(** C20: a retirement never finds its receipt missing (the [expect] of
    [finish_retirement] never panics), and no task panics at all: receipts are
    kept and removed only under the child's rename lock, which the retiring
    task holds throughout. *)
Theorem retirement_never_panics s t : reachable world fuel s -> s_tasks s !! t <> Some Panic.
Proof. intros Hr Ht. destruct (tasks_reachable_inv s Hr) as [_ Hv]. by destruct (Hv t _ Ht) as (_ & T & _ & Hok). Qed.
End System.

(** ** Runs *)
Lemma tasks_reachable world fuel es : forall s s', reachable world fuel s -> run_tasks world fuel es s = Some s' -> reachable world fuel s'.
Proof.
  induction es as [|e es IH]; intros s s' Hr; cbn [run_tasks]; [by intros [= <-]|]. intros (s1 & He & Hrun)%bind_Some.
  eapply IH; [|exact Hrun]. by eapply reach_step.
Qed.
Definition summary : Value := VObject [("activeSessionId", VString "w1"); ("sessionId", VString "s1"); ("sessionFile", VString "/s/kid.jsonl")].
(** Everything succeeds; the child streams up to clock [until] and has written
    three rows. *)
Definition helpful (until n : nat) (A : Type) (q : ask A) : A :=
  match q in ask B return B with
  | AskNewId => "sub-1"
  | AskDefaultName _ id => id
  | AskModel _ => inr "faux/1"
  | AskThinking _ => inr tt
  | AskSessionDir _ => inr "/s"
  | AskCreate _ _ _ _ => inr summary
  | AskTurnDone | AskAbort _ | AskWait _ => tt
  | AskPrompt _ _ | AskRename _ _ | AskKill _ _ | AskKillDelete _ _ | AskLedgerDelete _ _ => inr tt
  | AskState _ => inr (VObject [("isStreaming", VBool (n <? until)%nat)])
  | AskLastText _ => inr (VObject [("text", VString "all done")])
  | AskTimeLeft | AskKickoffLanded _ _ => false
  | AskFileText _ => None
  | AskLedgerChildren _ => []
  | AskRows _ from _ => Some ((from `max` 3)%nat, (from <? 3)%nat)
  | AskSink _ _ => true
  | AskTail _ => Some 3%nat
  end.
Definition root_parent : ParentIdentity := mkParent 0 2 "p" (Some "ps") (Some "/s/p.jsonl").
Definition rounds : nat := 9.
Definition ran (until : nat) (es : list event) : Sys := default (opened root_parent true) (run_tasks (helpful until) rounds es (opened root_parent true)).
Definition runs (until : nat) (es : list event) : bool := bool_decide (is_Some (run_tasks (helpful until) rounds es (opened root_parent true))).
Lemma ran_reachable until es : runs until es = true -> reachable (helpful until) rounds (ran until es).
Proof.
  unfold runs, ran. destruct (run_tasks _ _ _ _) as [s|] eqn:E; [|done]. intros _. cbn. eapply tasks_reachable; [|exact E]. constructor.
Qed.
Lemma helpful_append_only until : append_only (helpful until).
Proof. intros t file from round next bills [= <- <-]. lia. Qed.
(** A child is spawned, works and settles; then it is deleted, or the parent
    closes. *)
Definition spawned : list event := Request (ReqSpawn "work" (Some "kid") None) :: repeat (Step 0) 12.
Definition settled : list event := spawned ++ repeat (Step 1) 25.
Definition deleted : list event := settled ++ Request (ReqDelete "kid") :: repeat (Step 2) 25.
Definition noticed : Notice := CompletedWithoutReply "sub-1" "kid" (Some "all done").
Lemma child_notice_once_witness :
  reachable (helpful 0) rounds (ran 0 deleted)
  /\ g_notices (s_registry (ran 0 deleted)) = [(0%nat, noticed)] /\ g_notified (s_registry (ran 0 deleted)) = [0%nat]
  /\ NoDup (map fst (g_notices (s_registry (ran 0 deleted)))).
Proof.
  assert (Hr : reachable (helpful 0) rounds (ran 0 deleted)) by (apply ran_reachable; vm_compute; reflexivity).
  split; [exact Hr|]. split; [vm_compute; reflexivity|]. split; [vm_compute; reflexivity|]. apply (child_notice_once (helpful 0) rounds _ Hr).
Defined.
Lemma child_rows_billed_once_witness :
  reachable (helpful 0) rounds (ran 0 settled) /\ reports_of (s_registry (ran 0 settled)) 0 = [mkReport 0 0 3]
  /\ (rp_id (mkReport 0 0 3) ∈ g_acked (s_registry (ran 0 settled)) \/ cr_pending_usage_report (child (s_registry (ran 0 settled)) 0) = Some (mkReport 0 0 3)).
Proof.
  assert (Hr : reachable (helpful 0) rounds (ran 0 settled)) by (apply ran_reachable; vm_compute; reflexivity).
  assert (He : reports_of (s_registry (ran 0 settled)) 0 = [mkReport 0 0 3]) by (vm_compute; reflexivity).
  split; [exact Hr|]. split; [exact He|]. apply (child_rows_billed_once (helpful 0) rounds _ 0 (helpful_append_only 0) Hr). rewrite He. by left.
Defined.
(** The close of a parent whose first attempt was dropped behind the kill: the
    second finds the receipt. *)
Definition interrupted : list event := spawned ++ Request (ReqClose CloseShutdown) :: repeat (Step 2) 10 ++ [Dropped 2].
Lemma retirement_never_panics_witness :
  let es := (interrupted ++ Request (ReqClose CloseShutdown) :: repeat (Step 3) 8)%list in
  reachable (helpful 0) rounds (ran 0 es) /\ s_tasks (ran 0 es) !! 3%nat <> Some Panic.
Proof.
  intros es. assert (Hr : reachable (helpful 0) rounds (ran 0 es)) by (apply ran_reachable; vm_compute; reflexivity).
  split; [exact Hr|]. apply (retirement_never_panics (helpful 0) rounds _ 3 Hr).
Defined.

(** ** What the runs show *)
(** A child that streams on after a cancellation is taken for one that went
    busy again: the watcher's re-check clears the verdict, and the run the
    user cancelled ends as done, with the text of the cancellation beside
    it. *)
Lemma cancelled_run_ends_done :
  let s := ran 31 (spawned ++ repeat (Step 1) 11 ++ Request (ReqCancel "sub-1") :: repeat (Step 2) 7 ++ repeat (Step 1) 23) in
  s_tasks s !! 2%nat = Some (Ret (OutCancel true)) /\ s_tasks s !! 1%nat = Some (Ret OutDone)
  /\ cr_settled_status (child (s_registry s) 0) = Some RunDone /\ cr_error (child (s_registry s) 0) = Some "Cancelled by user".
Proof. vm_compute. done. Qed.
(** A deletion marks a child settled while the notice its watcher has claimed
    is not delivered yet. *)
Lemma settled_before_its_notice :
  let s := ran 0 (spawned ++ repeat (Step 1) 22 ++ Request (ReqDelete "kid") :: repeat (Step 2) 25) in
  s_tasks s !! 2%nat = Some (Ret (OutDelete (inr (DeletedNow 0)))) /\ cr_settled (child (s_registry s) 0) = true
  /\ g_owed (s_registry s) !! 0%nat = Some 1%nat /\ g_notices (s_registry s) = [].
Proof. vm_compute. done. Qed.
(** A deletion that finishes an interrupted close reports the child deleted
    and leaves no receipt: the same deletion again is an error. *)
Lemma delete_after_close_leaves_no_receipt :
  let s := ran 0 (interrupted ++ Request (ReqDelete "kid") :: repeat (Step 3) 24 ++ Request (ReqDelete "kid") :: repeat (Step 4) 3) in
  s_tasks s !! 3%nat = Some (Ret (OutDelete (inr (DeletedNow 0)))) /\ g_deleted (s_registry s) = ∅ /\ g_notified (s_registry s) = []
  /\ s_tasks s !! 4%nat = Some (Ret (OutDelete (inl (no_match "subagent" "kid")))).
Proof. vm_compute. done. Qed.
