(* ===== verification/ChildrenHost.v ===== *)
(** * The registry of child sessions as the host of the dispatch tool

    [dispatch_review] calls [spawn] and [retire_dead_child_name] of the
    registry and waits for each; here they run to their end with nobody in
    between, and keep the promises [Dispatch] relies on. *)
From S2P Require Import Prelude RustStr Json Time World LedgerReplay Journal State Observer Dispatch Children ChildrenProofs ChildrenTheorems.
#[local] Open Scope string_scope.

Section Alone.
Context (world : nat -> forall A, ask A -> A).
(** A program that nobody disturbs; what it leaves running comes later. *)
Fixpoint alone {A} (t : nat) (p : prog A) (g : Registry) : option (A * Registry) :=
  match p with
  | Ret a => Some (a, g)
  | Call o k => match perform world t o g with Some (a, g') => alone t (k a) (tick g') | None => None end
  | Fork _ k => alone t k g
  | Panic | Spin => None
  end.
Lemma undisturbed_bind {A B} t (p : prog A) (f : A -> prog B) g :
  alone t (bind p f) g = match alone t p g with Some (a, g') => alone t (f a) g' | None => None end.
Proof.
  revert g. induction p as [a|C o k IH|j k IH| |]; intros g; cbn [bind alone]; try done.
  destruct (perform world t o g) as [[a g']|]; [apply IH|done].
Qed.
Lemma alone_sound {A} t (p : prog A) T Q : forall g a g', si False g -> holds t T g -> ok Q T p -> alone t p g = Some (a, g') -> si False g'.
Proof.
  revert T. induction p as [x|C o k IH|j k IH| |]; intros T g a g' Hs Hh Hok; cbn [alone]; try done.
  - by intros [= _ <-].
  - destruct (perform world t o g) as [[b g1]|] eqn:E; [|done].
    destruct (perform_ok False world ltac:(done) t T g Hs Hh o _ b g1 Hok E) as [[Hs1 _] (T' & Hok' & Hh')].
    apply (IH b T' (tick g1)); [by eapply si_same; [..|exact Hs1]|by apply holds_put_clock|done].
  - intros Ha. destruct Hok as [_ Hok]. by apply (IH T g a g').
Qed.

(** ** The host *)
Definition holder_of (g : Registry) (n : string) : option holder :=
  (fun r => if is_running (child g r) then Running else Settled) <$> first_match (fun c => String.eqb (cr_session_name c) n) g.
Definition clear_name (g : Registry) (n : string) : Prop := forall r, r ∈ g_children g ->
  matches_id (child g r) n = false /\ forall r', r' ∈ g_children g -> cr_session_name (child g r) = n -> cr_session_name (child g r') = n -> r = r'.
Definition sound : Type := { g : Registry | si False g }.
Definition inspect {A} (a : A) : { b | a = b } := exist _ a eq_refl.
Definition run_alone {A} (p : prog (anyhow + A)) (Hp : ok (keeps nothing [] (fun _ _ => True)) nothing p) (h : sound) : sound * (anyhow + A) :=
  match inspect (alone 0 p (proj1_sig h)) with
  | exist _ (Some (x, g')) E => (exist _ g' (alone_sound 0 p nothing _ _ _ _ (proj2_sig h) (holds_nothing 0 _) Hp E), x)
  | exist _ None _ => (h, inl (anyhow_msg "the call waits for ever"))
  end.
Lemma run_alone_spec {A} (p : prog (anyhow + A)) Hp h h' x : run_alone p Hp h = (h', x) ->
  alone 0 p (proj1_sig h) = Some (x, proj1_sig h') \/ alone 0 p (proj1_sig h) = None.
Proof. unfold run_alone. destruct (inspect _) as [[[y g']|] E]; intros [= <- <-]; [by left|by right]. Qed.

(** ** What the two calls do to the registry *)
Definition quiet (g g' : Registry) : Prop := g_children g' = g_children g /\ g_records g' = g_records g.
Lemma quiet_trans g1 g2 g3 : quiet g1 g2 -> quiet g2 g3 -> quiet g1 g3.
Proof. unfold quiet. intros [-> ->] [-> ->]. done. Qed.
Lemma quiet_reserve t name g : quiet g (snd (reserve_spawn_name t name g)).
Proof. unfold reserve_spawn_name. by destruct (g_pending g !! name). Qed.
Definition named (n : string) (c : ChildRecord) : bool := String.eqb (cr_session_name c) n.
(** The child a spawn has registered: the supervisor was asked for it by
    name. *)
Definition registers (name : string) (g g' : Registry) : Prop :=
  existsb (fun r => named name (child g r)) (g_children g) = false
  /\ exists id c t depth model dir v, world t _ (AskCreate (Some name) depth model dir) = inr v /\ created_summary_ids v = inr c
     /\ g_children g' = (g_children g ++ [List.length (g_records g)])%list /\ g_records g' = (g_records g ++ [registered id name c])%list.
Lemma registers_quiet name g g1 g2 g3 : quiet g g1 -> quiet g2 g3 -> registers name g1 g2 -> registers name g g3.
Proof.
  intros [Hc1 Hr1] [Hc3 Hr3] (Hn & id & c & t & depth & model & dir & v & Hw & Hs & Hc & Hr). unfold child in Hn. rewrite Hc1, Hr1 in Hn.
  split; [done|]. exists id, c, t, depth, model, dir, v. rewrite Hc3, Hr3, Hc, Hr, Hc1, Hr1. done.
Qed.
Ltac go := cbn [bind call alone perform negb].
Lemma admit_alone id name reference depth g : exists x g', alone 0 (admit_spawn id name reference depth) g = Some (x, g')
  /\ match x with inl _ => quiet g g' | inr _ => registers name g g' end.
Proof.
  unfold admit_spawn, create_child. cbn [bind call alone perform]. destruct (existsb _ _) eqn:En; [by do 2 eexists|]. go.
  destruct (world _ _ (AskModel _)) as [e|m]; [by do 2 eexists|]. go. destruct (world _ _ (AskThinking _)) as [e|[]]; [by do 2 eexists|]. go.
  destruct (world _ _ (AskSessionDir _)) as [e|dir]; [by do 2 eexists|]. go.
  destruct (world _ _ (AskCreate _ _ _ _)) as [e|v] eqn:Ev; [by do 2 eexists|]. cbn [with_context].
  destruct (created_summary_ids v) as [e|c] eqn:Ec; [by do 2 eexists|]. go.
  do 2 eexists. split; [reflexivity|]. split; [done|]. exists id, c. do 5 eexists. by split; [exact Ev|].
Qed.
Lemma spawn_alone prompt requested reference g : exists x g', alone 0 (spawn_child prompt requested reference) g = Some (x, g')
  /\ match x with inl _ => quiet g g' | inr _ => exists name, (forall n, requested = Some n -> name = n) /\ registers name g g' end.
Proof.
  unfold spawn_child. go. destruct (_ <=? _)%Z; [by do 2 eexists|]. go.
  set (id := world _ _ AskNewId). set (depth := (pi_depth (g_identity g) + 1)%Z).
  destruct requested as [name|]; go.
  - pose proof (quiet_reserve 0 name (tick (tick g))) as Hq. destruct (reserve_spawn_name 0 name (tick (tick g))) as [b g1]. cbn [snd] in Hq.
    destruct b; go; [|by do 2 eexists]. rewrite undisturbed_bind. destruct (admit_alone id name reference depth (tick g1)) as (x & g2 & -> & Hx).
    destruct x as [e|[[r c] model]]; go; (do 2 eexists; split; [reflexivity|]).
    + by apply (quiet_trans _ (tick g1)); [|apply (quiet_trans _ g2)].
    + exists name. split; [by intros n [= <-]|]. by apply (registers_quiet name g (tick g1) g2).
  - set (name := world _ _ (AskDefaultName _ _)). rewrite undisturbed_bind. destruct (admit_alone id name reference depth (tick (tick (tick g)))) as (x & g2 & -> & Hx).
    destruct x as [e|[[r c] model]]; go; (do 2 eexists; split; [reflexivity|]); [done|].
    exists name. split; [done|]. by apply (registers_quiet name g (tick (tick (tick g))) g2).
Qed.
Lemma retire_alone n g : exists v g', alone 0 (Children.retire_dead_child_name n) g = Some (v, g')
  /\ match first_match (fun c => matches c n) g with
     | None => v = inr "not_found" /\ quiet g g'
     | Some r => if is_running (child g r) then v = inr "running" /\ quiet g g'
                 else (exists e, v = inl e) /\ quiet g g'
                   \/ v = inr "deleted" /\ g_children g' = g_children (drop_record r g) /\ g_records g' = g_records g
     end.
Proof.
  unfold Children.retire_dead_child_name. go. destruct (first_match _ g) as [r|] eqn:Ef; go; [|by do 2 eexists].
  change (child (tick g) r) with (child g r). destruct (is_running (child g r)); go; [by do 2 eexists|].
  destruct (cr_session_file (child g r)) as [file|]; go; [|do 2 eexists; split; [reflexivity|]; by right].
  destruct (world _ _ (AskLedgerDelete _ _)) as [e|[]]; go; (do 2 eexists; split; [reflexivity|]); [left; by split; [eexists|]|by right].
Qed.

(** ** The names *)
Lemma find_first_ext {A} (p q : A -> bool) l : (forall x, x ∈ l -> p x = q x) -> find_first p l = find_first q l.
Proof.
  induction l as [|a l IH]; intros H; [done|]. unfold find_first in *. cbn. rewrite (H a) by left. destruct (q a); [done|]. apply IH. intros x Hx. apply H. by right.
Qed.
Lemma find_first_app {A} (p : A -> bool) l m : find_first p (l ++ m) = match find_first p l with Some x => Some x | None => find_first p m end.
Proof. induction l as [|a l IH]; [done|]. unfold find_first in *. cbn. by destruct (p a). Qed.
Lemma quiet_holder g g' n : quiet g g' -> holder_of g' n = holder_of g n.
Proof. intros [Hc Hr]. unfold holder_of, first_match, child. by rewrite Hc, Hr. Qed.
Lemma quiet_clear g g' n : quiet g g' -> clear_name g n -> clear_name g' n.
Proof. intros [Hc Hr]. unfold clear_name, child. by rewrite Hc, Hr. Qed.
Lemma taken_holder g n : existsb (fun r => named n (child g r)) (g_children g) = false <-> holder_of g n = None.
Proof.
  unfold holder_of, first_match. rewrite fmap_None, find_first_None. split.
  - intros He r Hr. destruct (named n (child g r)) eqn:E; [|done]. exfalso.
    assert (Hx : existsb (fun r => named n (child g r)) (g_children g) = true) by (apply existsb_exists; exists r; split; [by apply list_elem_of_In|done]). congruence.
  - intros Hn. destruct (existsb _ _) eqn:E; [|done]. apply existsb_exists in E as (r & Hr%list_elem_of_In & E). unfold named in E. by rewrite Hn in E.
Qed.
(** The supervisor keeps the name it is asked for. *)
Definition echoes : Prop := forall t n depth model dir v, world t _ (AskCreate (Some n) depth model dir) = inr v ->
  get_str "sessionName" v = None \/ get_str "sessionName" v = Some n.
Lemma created_name v c : created_summary_ids v = inr c -> ct_session_name c = get_str "sessionName" v.
Proof. unfold created_summary_ids. destruct (_ ≫= _) as [i|]; [|done]. destruct (is_empty i); [done|]. by intros [= <-]. Qed.
Lemma registered_holder g g' name : echoes -> si False g -> registers name g g' ->
  holder_of g name = None /\ holder_of g' name = Some Running /\ forall m, m <> name -> holder_of g' m = holder_of g m.
Proof.
  intros He Hs (Hn & id & c & t & depth & model & dir & v & Hw & Hc & Hch & Hre). apply taken_holder in Hn. split; [done|].
  assert (Hnew : child g' (List.length (g_records g)) = registered id name c) by (unfold child; rewrite Hre; by rewrite list_lookup_middle).
  assert (Hname : cr_session_name (registered id name c) = name).
  { cbn. rewrite (created_name v c Hc). by destruct (He _ _ _ _ _ _ Hw) as [-> | ->]. }
  assert (Hold : forall r, r ∈ g_children g -> child g' r = child g r).
  { intros r Hr%(si_children Hs). unfold child. rewrite Hre. by rewrite lookup_app_l. }
  assert (Hm : forall m, holder_of g' m = match holder_of g m with Some x => Some x | None => if String.eqb name m then Some Running else None end).
  { intros m. unfold holder_of, first_match. rewrite Hch, find_first_app.
    rewrite (find_first_ext (fun r => String.eqb (cr_session_name (child g' r)) m) (fun r => String.eqb (cr_session_name (child g r)) m) (g_children g))
      by (intros r Hr; by rewrite Hold).
    destruct (find_first _ (g_children g)) as [r|] eqn:E.
    - apply find_first_Some in E as [Hr _]. cbn. by rewrite Hold.
    - unfold find_first. cbn. rewrite Hnew, Hname. destruct (String.eqb name m); [|done]. cbn. by rewrite Hnew. }
  split; [by rewrite Hm, Hn, String.eqb_refl|]. intros m Hne. rewrite Hm. destruct (holder_of g m); [done|].
  destruct (String.eqb_spec name m); [by subst|done].
Qed.
(** A clear name is looked up as a name. *)
Lemma clear_match g n : clear_name g n -> first_match (fun c => matches c n) g = first_match (named n) g.
Proof.
  intros Hc. apply find_first_ext. intros r Hr. destruct (Hc r Hr) as [Hi _]. unfold matches. by rewrite Hi.
Qed.
Lemma dropped_holder g g' n r : clear_name g n -> first_match (named n) g = Some r ->
  g_children g' = g_children (drop_record r g) -> g_records g' = g_records g ->
  holder_of g' n = None /\ forall m, m <> n -> holder_of g' m = holder_of g m.
Proof.
  intros Hc Hf Hch Hre. apply find_first_Some in Hf as [Hr Hname%String.eqb_eq].
  assert (Hx : forall x, child g' x = child g x) by (intros x; unfold child; by rewrite Hre).
  unfold holder_of, first_match. rewrite Hch. unfold drop_record. cbn [g_children put_children]. split.
  - apply fmap_None, find_first_None. intros x [Hin Hne]%list_elem_of_In%filter_In. rewrite Hx. apply list_elem_of_In in Hin.
    destruct (String.eqb_spec (cr_session_name (child g x)) n) as [E|]; [|done].
    destruct (Hc r Hr) as [_ Hu]. rewrite (Hu x Hin Hname E), Nat.eqb_refl in Hne. done.
  - intros m Hm. clear Hc Hr. induction (g_children g) as [|x l IH]; [done|]. unfold find_first in *. cbn. destruct (Nat.eqb_spec x r) as [->|Hne]; cbn.
    + rewrite Hname. destruct (String.eqb_spec n m); [by subst|]. exact IH.
    + rewrite Hx. destruct (String.eqb _ m); [cbn; by rewrite Hx|exact IH].
Qed.

(** ** The instance *)
Definition host_spawn (q : SpawnRequest) (h : sound) : sound * (anyhow + SpawnHandle) :=
  run_alone (spawn_child (sp_prompt q) (sp_name q) (sp_model q)) (calm_spawn _ _ _ nothing) h.
Definition host_retire (n : string) (h : sound) : sound * (anyhow + string) :=
  run_alone (Children.retire_dead_child_name n) (calm_retire_name n nothing) h.
Definition child_host : ChildHost := {|
  Host := sound;
  Dispatch.holds h n := holder_of (proj1_sig h) n;
  clear h n := clear_name (proj1_sig h) n;
  spawn h q := match host_spawn q h with (h', inl e) => (h', inl e) | (h', inr x) => (h', inr (sh_rlm_child_id x)) end;
  Dispatch.retire_dead_child_name h n := host_retire n h
|}.
Lemma host_spawn_unfold q h : spawn (ChildHost := child_host) h q =
  match host_spawn q h with (h', inl e) => (h', inl e) | (h', inr x) => (h', inr (sh_rlm_child_id x)) end.
Proof. done. Qed.
Lemma host_spawn_spec q h h' r : spawn (ChildHost := child_host) h q = (h', r) ->
  match r with
  | inl _ => quiet (proj1_sig h) (proj1_sig h')
  | inr _ => exists name, (forall n, sp_name q = Some n -> name = n) /\ registers name (proj1_sig h) (proj1_sig h')
  end.
Proof.
  rewrite host_spawn_unfold. destruct (host_spawn q h) as [h1 x] eqn:E. destruct (spawn_alone (sp_prompt q) (sp_name q) (sp_model q) (proj1_sig h)) as (y & g' & Ea & Hy).
  apply run_alone_spec in E as [E|E]; rewrite Ea in E; [|done]. destruct x; intros [= <- <-]; simplify_eq; exact Hy.
Qed.
Lemma host_retire_spec n h h' v : host_retire n h = (h', v) ->
  match first_match (fun c => matches c n) (proj1_sig h) with
  | None => v = inr "not_found" /\ quiet (proj1_sig h) (proj1_sig h')
  | Some r => if is_running (child (proj1_sig h) r) then v = inr "running" /\ quiet (proj1_sig h) (proj1_sig h')
              else (exists e, v = inl e) /\ quiet (proj1_sig h) (proj1_sig h')
                \/ v = inr "deleted" /\ g_children (proj1_sig h') = g_children (drop_record r (proj1_sig h)) /\ g_records (proj1_sig h') = g_records (proj1_sig h)
  end.
Proof.
  intros E. destruct (retire_alone n (proj1_sig h)) as (w & g' & Ea & Hw).
  apply run_alone_spec in E as [E|E]; rewrite Ea in E; [|done]. by injection E as -> ->.
Qed.
(** Against a clear name: by who holds it. *)
Lemma host_retire_clear n h h' v : clear_name (proj1_sig h) n -> host_retire n h = (h', v) ->
  match holder_of (proj1_sig h) n with
  | None => v = inr "not_found"
  | Some Running => v = inr "running"
  | Some Settled => v <> inr "deleted" \/ holder_of (proj1_sig h') n = None /\ forall m, m <> n -> holder_of (proj1_sig h') m = holder_of (proj1_sig h) m
  end.
Proof.
  intros Hc E%host_retire_spec. rewrite (clear_match _ _ Hc) in E. unfold holder_of at 1. change (fun c => String.eqb (cr_session_name c) n) with (named n).
  destruct (first_match (named n) (proj1_sig h)) as [r|] eqn:Ef; cbn; [|by destruct E]. destruct (is_running _); [by destruct E|].
  destruct E as [[[e ->] _]|(-> & Hch & Hre)]; [by left|right]. by apply (dropped_holder _ _ n r).
Qed.
(** The registry keeps the promises of its interface, when the supervisor
    keeps names. *)
Lemma child_host_ok : echoes -> ChildHostOk (H := child_host).
Proof.
  intros He. split.
  - intros h q n Hn Hh. destruct (spawn h q) as [h' [e|id]] eqn:E; [by eauto|]. exfalso. destruct (host_spawn_spec _ _ _ _ E) as (name & Hname & Hr).
    rewrite (Hname n Hn) in Hr. destruct (registered_holder _ _ _ He (proj2_sig h) Hr) as (H0 & _). done.
  - intros h h' q e E%host_spawn_spec n. cbn. split; [by apply quiet_holder|by apply quiet_clear].
  - intros h h' q n id Hn E. destruct (host_spawn_spec _ _ _ _ E) as (name & Hname & Hr). rewrite (Hname n Hn) in Hr.
    by apply (registered_holder _ _ _ He (proj2_sig h) Hr).
  - intros h n Hc Hh. destruct (host_retire n h) as [h' v] eqn:E. exists h'. change (host_retire n h = (h', inr "running")). rewrite E.
    apply (host_retire_clear _ _ _ _ Hc) in E. change (holder_of (proj1_sig h) n = Some Running) in Hh. rewrite Hh in E. by subst.
  - intros h n Hc Hh. destruct (host_retire n h) as [h' v] eqn:E. exists h'. change (host_retire n h = (h', inr "not_found")). rewrite E.
    apply (host_retire_clear _ _ _ _ Hc) in E. change (holder_of (proj1_sig h) n = None) in Hh. rewrite Hh in E. by subst.
  - intros h h' n Hc E. apply (host_retire_clear _ _ _ _ Hc) in E.
    change (holder_of (proj1_sig h) n = Some Settled /\ holder_of (proj1_sig h') n = None /\ forall m, m <> n -> holder_of (proj1_sig h') m = holder_of (proj1_sig h) m).
    destruct (holder_of (proj1_sig h) n) as [[]|]; [done| |done]. split; [done|]. by destruct E.
  - intros h h' n v E%host_retire_spec Hv m. apply quiet_holder. destruct (first_match _ _) as [r|]; [|by destruct E].
    destruct (is_running _); [by destruct E|]. by destruct E as [[_ ?]|[? _]].
Qed.
End Alone.

(** ** The dispatch tool over the registry *)
(** The supervisor of the examples keeps names. *)
Lemma helpful_echoes until : echoes (helpful until).
Proof. intros t n depth model dir v. cbn. intros [= <-]. by left. Qed.
(** A running reviewer is a row of the registry that a second dispatch of its
    layer and head leaves where it is, with every other row. *)
Lemma registry_keeps_reviewer world verdict_debug profile (h : sound) params layer head r : echoes world ->
  get_str "layer" params = Some layer -> get_str "headSha" params = Some head -> clear_name (proj1_sig h) (layer_child layer head) ->
  first_match (named (layer_child layer head)) (proj1_sig h) = Some r -> is_running (child (proj1_sig h) r) = true ->
  exists h' e, dispatch_review (H := child_host world) verdict_debug profile h params = (h', inl e)
    /\ forall m, holder_of (proj1_sig h') m = holder_of (proj1_sig h) m.
Proof.
  intros He Hl Hd Hc Hf Hr. apply (running_reviewer_kept (H := child_host world) (H0 := child_host_ok world He) verdict_debug profile h params layer head Hl Hd Hc).
  cbn. unfold holder_of. change (fun c => String.eqb (cr_session_name c) (layer_child layer head)) with (named (layer_child layer head)).
  by rewrite Hf; cbn; rewrite Hr.
Qed.
