(* ===== verification/Cli.v ===== *)
(** * Command lines ([crates/pa-cli/src/bin/big_brother.rs], the [observer]
      command of [crates/pa-daemon/src/main.rs], [crates/pa-daemon/src/paths.rs])

    Arguments are the words after the program's name.  The home directory, the
    environment, the current directory and the default socket path are the
    surroundings. *)
From S2P Require Import Prelude RustStr Json Time World LockDir Profile State Store Client Git Delivery.
From S2P Require Import Query Init Observer.
#[local] Open Scope string_scope.
#[local] Open Scope Z_scope.

(** ** The agent directory *)
Record Surroundings := mkSurroundings {
  su_env : string -> option string;
  su_home : option path;
  su_current_dir : anyhow + path;
  su_default_socket : path
}.

(** [home_dir], [expand_tilde], [agent_dir]. *)
Definition home_dir (su : Surroundings) : anyhow + path :=
  match su_home su with
  | Some p => inr p
  | None => inl (anyhow_msg "home directory not found: set HOME (or USERPROFILE on Windows)")
  end.
Definition expand_tilde (su : Surroundings) (p : string) : anyhow + path :=
  match strip_prefix "~/" p with
  | Some rest => let? home := home_dir su in inr (join home rest)
  | None => if String.eqb p "~" then home_dir su else inr (path_of_string p)
  end.
Definition AGENT_DIR_ENV : string := "PRIME_AGENT_CODING_AGENT_DIR".
Definition CONFIG_DIR_NAME : string := ".prime/agent".
Definition agent_dir (su : Surroundings) : anyhow + path :=
  match su_env su AGENT_DIR_ENV with
  | Some dir => if is_empty dir then let? home := home_dir su in inr (join home CONFIG_DIR_NAME)
                else expand_tilde su dir
  | None => let? home := home_dir su in inr (join home CONFIG_DIR_NAME)
  end.

(** ** [big-brother init] *)
Record InitArgs := mkInitArgs {
  a_repo : option path;
  a_agent_dir : option path;
  a_socket_path : option path;
  a_branch : option string;
  a_session_name : option string;
  a_main_model : option string;
  a_layers : list (string * string);
  a_attempt_timeout_seconds : option Z;
  a_max_attempts : option Z
}.
Definition no_init_args : InitArgs := mkInitArgs None None None None None None [] None None.

Definition needs_value {A} (flag : string) : anyhow + A := inl (anyhow_msg ("--" ++ flag ++ " needs a value")).
(** [next_u32] on the value. *)
Definition parse_u32_value (flag value : string) : anyhow + Z :=
  match parse_unsigned u32_max value with
  | Some n => inr n
  | None => inl (anyhow_msg ("--" ++ flag ++ " expects a positive integer, got " ++ value))
  end.

(** One option of [init] applied to its value. *)
Definition init_option (name value : string) (a : InitArgs) : anyhow + InitArgs :=
  match a with
  | mkInitArgs repo ad so br sn mm ls ts ma =>
      if String.eqb name "--repo" then inr (mkInitArgs (Some (path_of_string value)) ad so br sn mm ls ts ma)
      else if String.eqb name "--agent-dir" then inr (mkInitArgs repo (Some (path_of_string value)) so br sn mm ls ts ma)
      else if String.eqb name "--socket" then inr (mkInitArgs repo ad (Some (path_of_string value)) br sn mm ls ts ma)
      else if String.eqb name "--branch" then inr (mkInitArgs repo ad so (Some value) sn mm ls ts ma)
      else if String.eqb name "--session-name" then inr (mkInitArgs repo ad so br (Some value) mm ls ts ma)
      else if String.eqb name "--main-model" then inr (mkInitArgs repo ad so br sn (Some value) ls ts ma)
      else if String.eqb name "--attempt-timeout-secs" then
        let? n := parse_u32_value "attempt-timeout-secs" value in inr (mkInitArgs repo ad so br sn mm ls (Some n) ma)
      else if String.eqb name "--max-attempts" then
        let? n := parse_u32_value "max-attempts" value in inr (mkInitArgs repo ad so br sn mm ls ts (Some n))
      else
        match split_once "=" value with
        | Some (layer, model) => inr (mkInitArgs repo ad so br sn mm (ls ++ [(layer, model)])%list ts ma)
        | None => inl (anyhow_msg ("--layer expects name=model, got " ++ value))
        end
  end.
Definition init_flags : list string :=
  ["--repo"; "--agent-dir"; "--socket"; "--branch"; "--session-name"; "--main-model";
   "--attempt-timeout-secs"; "--max-attempts"; "--layer"].
(** The argument loop of [init_command]. *)
Fixpoint parse_init (args : list string) (a : InitArgs) : anyhow + InitArgs :=
  match args with
  | [] => inr a
  | arg :: rest =>
      if bool_decide (arg ∈ init_flags) then
        match rest with
        | [] => needs_value (str_drop 2 arg)
        | value :: rest' => let? a' := init_option arg value a in parse_init rest' a'
        end
      else inl (anyhow_msg ("unknown init option: " ++ arg))
  end.
(** The options record, with its defaults resolved in order. *)
Definition init_options (su : Surroundings) (a : InitArgs) : anyhow + InitOptions :=
  let socket := default (su_default_socket su) (a_socket_path a) in
  let? ad := match a_agent_dir a with Some p => inr p | None => agent_dir su end in
  let? repo := match a_repo a with Some p => inr p | None => su_current_dir su end in
  inr (mkInitOptions socket ad repo (a_branch a) (a_session_name a) (a_main_model a) (a_layers a)
         (a_attempt_timeout_seconds a) (a_max_attempts a)).
Definition init_report (o : InitOutcome) : string :=
  "enrolled " ++ path_display (io_git_root o) ++ " (branch " ++ io_branch o ++ ")" ++ nl_str
  ++ "  profile:    " ++ path_display (io_profile_path o) ++ nl_str
  ++ "  baseline:   " ++ io_cursor o ++ nl_str
  ++ "  conductor:  " ++ io_session_name o ++ " ("
     ++ (if io_created_conductor o then "created" else "already present") ++ ")" ++ nl_str
  ++ "  assets:     " ++ path_display (io_assets_dir o) ++ nl_str.

(** ** [big-brother status] *)
Fixpoint parse_status (args : list string) (repo ad : option path) : anyhow + (option path * option path) :=
  match args with
  | [] => inr (repo, ad)
  | arg :: rest =>
      if String.eqb arg "--repo" then
        match rest with
        | [] => needs_value "repo"
        | value :: rest' => parse_status rest' (Some (path_of_string value)) ad
        end
      else if String.eqb arg "--agent-dir" then
        match rest with
        | [] => needs_value "agent-dir"
        | value :: rest' => parse_status rest' repo (Some (path_of_string value))
        end
      else inl (anyhow_msg ("unknown status option: " ++ arg))
  end.
Definition status_options (su : Surroundings) (repo ad : option path) : anyhow + QueryOptions :=
  let? ad := match ad with Some p => inr p | None => agent_dir su end in
  let? repo := match repo with Some p => inr p | None => su_current_dir su end in
  inr (mkQuery ad repo).

(** ** [pa-daemon observer]: a trailing [--socket] or [--agent-dir] without a
    value falls back to the default. *)
Record ObserverArgs := mkObserverArgs {
  oa_socket : option path; oa_agent_dir : option path; oa_interval_secs : Z; oa_once : bool }.
Definition no_observer_args : ObserverArgs := mkObserverArgs None None 30 false.
Fixpoint parse_observer (args : list string) (a : ObserverArgs) : anyhow + ObserverArgs :=
  match args with
  | [] => inr a
  | arg :: rest =>
      match a with
      | mkObserverArgs so ad iv once =>
          if String.eqb arg "--socket" then
            match rest with
            | [] => inr (mkObserverArgs None ad iv once)
            | value :: rest' => parse_observer rest' (mkObserverArgs (Some (path_of_string value)) ad iv once)
            end
          else if String.eqb arg "--agent-dir" then
            match rest with
            | [] => inr (mkObserverArgs so None iv once)
            | value :: rest' => parse_observer rest' (mkObserverArgs so (Some (path_of_string value)) iv once)
            end
          else if String.eqb arg "--interval-secs" then
            match rest with
            | [] => needs_value "interval-secs"
            | value :: rest' =>
                match parse_unsigned u64_max value with
                | Some n => parse_observer rest' (mkObserverArgs so ad n once)
                | None => inl (anyhow_msg ("invalid --interval-secs: " ++ value))
                end
            end
          else if String.eqb arg "--once" then parse_observer rest (mkObserverArgs so ad iv true)
          else inl (anyhow_msg ("unknown observer option: " ++ arg))
      end
  end.
(** The options, with the interval of at least one second. *)
Definition observer_options (su : Surroundings) (a : ObserverArgs) : anyhow + (ObserverOptions * Z) :=
  let? ad := match oa_agent_dir a with Some p => inr p | None => agent_dir su end in
  inr (mkObserverOptions (default (su_default_socket su) (oa_socket a)) ad (oa_once a),
       Z.max 1 (oa_interval_secs a)).

Section Commands.
Context `{Env}.
Definition init_command (su : Surroundings) (args : list string) : M anyhow string :=
  let* a := lift (parse_init args no_init_args) in
  let* options := lift (init_options su a) in
  let* outcome := run_init options in
  ret (init_report outcome).
Definition status_command (su : Surroundings) (args : list string) : M anyhow string :=
  let* '(repo, ad) := lift (parse_status args None None) in
  let* options := lift (status_options su repo ad) in
  let* status := load_repository_status options in
  ret (render_status status).
(** [pa-daemon observer]; [scans] bounds a service that runs until killed. *)
Definition observer_command (su : Surroundings) (scans : nat) (args : list string) : M anyhow unit :=
  let* a := lift (parse_observer args no_observer_args) in
  let* '(options, interval) := lift (observer_options su a) in
  run_observer scans (su_env su) options.

(** [run] and [main] of [big-brother]: what is printed, and the exit status. *)
Definition help_text : string :=
  "big-brother — Big Brother repository review enrollment and status" ++ nl_str ++ nl_str
  ++ "usage: big-brother <init|status> [options]" ++ nl_str ++ nl_str
  ++ "init options:" ++ nl_str
  ++ "  --repo DIR                      The review work tree (default: the current directory)" ++ nl_str
  ++ "  --agent-dir DIR                 The agent directory (default: ~/.prime/agent)" ++ nl_str
  ++ "  --socket PATH                   The daemon's Unix socket" ++ nl_str
  ++ "  --branch NAME                   The tracked branch (default: origin/HEAD, then main, master)" ++ nl_str
  ++ "  --session-name NAME             The conductor's wake name (default: review-<repo>)" ++ nl_str
  ++ "  --main-model PROVIDER/MODEL     The conductor's model" ++ nl_str
  ++ "  --layer NAME=PROVIDER/MODEL     A review layer's model (repeatable)" ++ nl_str
  ++ "  --attempt-timeout-secs N        One attempt's time budget (default: 1800)" ++ nl_str
  ++ "  --max-attempts N                The attempt ceiling per range (default: 3)" ++ nl_str ++ nl_str
  ++ "status options:" ++ nl_str
  ++ "  --repo DIR                      The review work tree (default: the current directory)" ++ nl_str
  ++ "  --agent-dir DIR                 The agent directory (default: ~/.prime/agent)" ++ nl_str ++ nl_str
  ++ "  -h, --help                      Print this help" ++ nl_str
  ++ "  -v, --version                   Print the version" ++ nl_str.
Definition run_command (su : Surroundings) (version command : string) (args : list string) : M anyhow string :=
  if String.eqb command "--help" || String.eqb command "-h" then ret help_text
  else if String.eqb command "--version" || String.eqb command "-v" then ret (version ++ nl_str)
  else if String.eqb command "init" then init_command su args
  else if String.eqb command "status" then status_command su args
  else throw (anyhow_msg ("unknown command: " ++ command ++ " (expected init|status)")).
Record Exit := mkExit { ex_status : Z; ex_stdout : string; ex_stderr : string }.
Definition main (su : Surroundings) (version : string) (args : list string) (w : World) : option Exit * World :=
  match args with
  | [] => (Some (mkExit 2 "" ("usage: big-brother <init|status> [options]" ++ nl_str)), w)
  | command :: rest =>
      match run_command su version command rest w with
      | (Ok out, w') => (Some (mkExit 0 out ""), w')
      | (Err e, w') => (Some (mkExit 1 "" ("big-brother: " ++ anyhow_display_full e ++ nl_str)), w')
      | (Killed, w') => (None, w')
      end
  end.
End Commands.

(** ** Theorems *)

(** A command line for [init], options in a fixed order. *)
Definition option_words (flag : string) (v : option string) : list string :=
  match v with Some s => [flag; s] | None => [] end.
Definition layer_words (layers : list (string * string)) : list string :=
  layers ≫= fun nm => ["--layer"; fst nm ++ "=" ++ snd nm].
Definition init_words (repo ad so br sn mm : option string) (layers : list (string * string))
    (ts ma : option Z) : list string :=
  (option_words "--repo" repo ++ option_words "--agent-dir" ad ++ option_words "--socket" so
   ++ option_words "--branch" br ++ option_words "--session-name" sn ++ option_words "--main-model" mm
   ++ option_words "--attempt-timeout-secs" (show_Z <$> ts) ++ option_words "--max-attempts" (show_Z <$> ma)
   ++ layer_words layers)%list.

Lemma parse_init_option flag value rest a :
  flag ∈ init_flags -> parse_init (flag :: value :: rest) a = sum_bind (init_option flag value a) (parse_init rest).
Proof. intros Hf. cbn [parse_init]. by rewrite bool_decide_true. Qed.
Lemma parse_init_words flag v rest a a' :
  flag ∈ init_flags -> match v with Some s => init_option flag s a = inr a' | None => a = a' end ->
  parse_init (option_words flag v ++ rest)%list a = parse_init rest a'.
Proof. intros Hf. destruct v; [|by intros ->]. intros Ho. cbn [option_words app]. by rewrite parse_init_option, Ho. Qed.
Ltac flag_of_init := apply list_elem_of_In; cbn; tauto.
Lemma parse_init_layers layers repo ad so br sn mm ls ts ma :
  Forall (fun nm => contains_char "=" (fst nm) = false) layers ->
  parse_init (layer_words layers) (mkInitArgs repo ad so br sn mm ls ts ma)
  = inr (mkInitArgs repo ad so br sn mm (ls ++ layers)%list ts ma).
Proof.
  intros Hl. revert ls. induction Hl as [|[n m] layers Hn _ IH]; intros ls; [cbn; by rewrite app_nil_r|].
  change (layer_words ((n, m) :: layers)) with ("--layer" :: (n ++ String "=" m) :: layer_words layers).
  rewrite parse_init_option by flag_of_init. unfold init_option. cbn [String.eqb Ascii.eqb Bool.eqb].
  rewrite split_once_char_app by done. cbn [sum_bind]. rewrite IH, <- app_assoc. done.
Qed.

(** [init] reads back every command line built from its options: each
    flag sets its own field to the value that follows it, limits are any
    [u32], and layers keep their order, split at their first equals sign. *)
Theorem init_arguments_round_trip repo ad so br sn mm layers ts ma :
  Forall (fun nm => contains_char "=" (fst nm) = false) layers ->
  (forall n, ts = Some n -> is_u32 n) -> (forall n, ma = Some n -> is_u32 n) ->
  parse_init (init_words repo ad so br sn mm layers ts ma) no_init_args
  = inr (mkInitArgs (path_of_string <$> repo) (path_of_string <$> ad) (path_of_string <$> so) br sn mm layers ts ma).
Proof.
  intros Hl Hts Hma. unfold init_words, no_init_args.
  assert (forall flag n, is_u32 n -> parse_u32_value flag (show_Z n) = inr n) as Hn.
  { intros flag n Hn. unfold parse_u32_value. by rewrite parse_show_Z. }
  rewrite (parse_init_words _ repo _ _ (mkInitArgs (path_of_string <$> repo) None None None None None [] None None))
    by (flag_of_init || by destruct repo).
  rewrite (parse_init_words _ ad _ _ (mkInitArgs (path_of_string <$> repo) (path_of_string <$> ad) None None None None [] None None))
    by (flag_of_init || by destruct ad).
  rewrite (parse_init_words _ so _ _ (mkInitArgs (path_of_string <$> repo) (path_of_string <$> ad) (path_of_string <$> so)
    None None None [] None None)) by (flag_of_init || by destruct so).
  rewrite (parse_init_words _ br _ _ (mkInitArgs (path_of_string <$> repo) (path_of_string <$> ad) (path_of_string <$> so)
    br None None [] None None)) by (flag_of_init || by destruct br).
  rewrite (parse_init_words _ sn _ _ (mkInitArgs (path_of_string <$> repo) (path_of_string <$> ad) (path_of_string <$> so)
    br sn None [] None None)) by (flag_of_init || by destruct sn).
  rewrite (parse_init_words _ mm _ _ (mkInitArgs (path_of_string <$> repo) (path_of_string <$> ad) (path_of_string <$> so)
    br sn mm [] None None)) by (flag_of_init || by destruct mm).
  rewrite (parse_init_words _ (show_Z <$> ts) _ _ (mkInitArgs (path_of_string <$> repo) (path_of_string <$> ad)
    (path_of_string <$> so) br sn mm [] ts None)) by (flag_of_init || (destruct ts; [|done]; cbn; by rewrite Hn by auto)).
  rewrite (parse_init_words _ (show_Z <$> ma) _ _ (mkInitArgs (path_of_string <$> repo) (path_of_string <$> ad)
    (path_of_string <$> so) br sn mm [] ts ma)) by (flag_of_init || (destruct ma; [|done]; cbn; by rewrite Hn by auto)).
  by apply parse_init_layers.
Qed.
