(* ===== verification/Witnesses.v ===== *)
(** * Witnesses

    Concrete runs of the model in the simulated environment, one for every
    property with hypotheses: each hypothesis holds there by evaluation. *)
From S2P Require Import Prelude RustStr Json Time World LockDir Sim Profile ProfileProofs.
From S2P Require Import State Store StoreProofs Completion Machine Filed Availability StoreTheorems.
From S2P Require Import Client Git Harvest HarvestProofs Delivery Query Init.
From S2P Require Import Observer ObserverProofs Panics ObserverTheorems InitTheorems Dispatch Cli.
#[local] Open Scope string_scope.
#[local] Open Scope Z_scope.

(** ** A repository *)
Definition demo_agent : path := ["/"; "home"; "u"].
Definition demo_root : path := ["/"; "srv"; "app"].
Definition demo_store : Store := open_store demo_agent demo_root.
Definition rev_a : string := "aaaaaaaaaaaaaaaaaaaaaaaaaaaaaaaaaaaaaaaa".
Definition rev_b : string := "bbbbbbbbbbbbbbbbbbbbbbbbbbbbbbbbbbbbbbbb".
Definition demo_record : ReviewRecord := mkRecord 1 "main" rev_a rev_b 1 "" [] (Some "clean") ∅.
Definition demo_start : Z := 1700000000000.
Definition w_fresh : World := sim_world ∅ demo_start sim_silent.
Definition w_seeded : World := run_op demo_store (OpSeed "main" rev_a) w_fresh.
Definition w_admitted : World := run_op demo_store (OpAdmit "main" rev_b) w_seeded.
Definition w_completed : World := run_op demo_store (OpComplete demo_record) w_admitted.

(** The document on disk. *)
Definition doc (w : World) : RepositoryState :=
  match file_at w (state_path demo_store) with
  | Some (SimJson v) => default default_state (decode v)
  | _ => default_state
  end.
Definition branch_doc (w : World) : BranchState := branch_entry "main" (doc w).
Definition range_doc (w : World) : ReviewRange := default (mkRange "" "" "" 0 "") (b_in_flight (branch_doc w)).

Lemma demo_record_wf : codec_wf demo_record.
Proof. split_and!; [by vm_compute|by vm_compute|apply map_Forall_empty]. Qed.
Lemma reach_admitted : reach demo_store {[("main", rev_a)]} w_admitted.
Proof.
  assert (reach demo_store (op_seeds (OpAdmit "main" rev_b) ∪ (op_seeds (OpSeed "main" rev_a) ∪ ∅)) w_admitted) as Hr.
  { apply reach_op; [done|]. apply reach_op; [done|]. by apply reach_fresh. }
  cbn [op_seeds] in Hr. by rewrite union_empty_l_L, union_empty_r_L in Hr.
Qed.
Lemma reach_completed : reach demo_store {[("main", rev_a)]} w_completed.
Proof.
  assert (reach demo_store (op_seeds (OpComplete demo_record) ∪ {[("main", rev_a)]}) w_completed) as Hr.
  { apply reach_op; [apply demo_record_wf|]. apply reach_admitted. }
  cbn [op_seeds] in Hr. by rewrite union_empty_l_L in Hr.
Qed.

Lemma in_flight_discipline_witness :
  b_cursor (branch_doc w_admitted) = Some rev_a /\ r_head (range_doc w_admitted) = rev_b.
Proof.
  split; [|vm_compute; reflexivity].
  apply (in_flight_discipline demo_store {[("main", rev_a)]} w_admitted (doc w_admitted) "main"
    (branch_doc w_admitted) (range_doc w_admitted)); [apply reach_admitted|vm_compute; reflexivity..].
Defined.
Lemma branch_phase_machine_witness :
  moves (branch_phase (doc w_admitted) "main") (OpComplete demo_record) (branch_phase (doc w_completed) "main").
Proof.
  destruct (branch_phase_machine demo_store {[("main", rev_a)]} w_admitted (OpComplete demo_record)
    (doc w_admitted) (doc w_completed) "main") as [Hs|[_ Hm]];
    [apply reach_admitted|apply demo_record_wf|vm_compute; reflexivity..| |exact Hm].
  exfalso. vm_compute in Hs. discriminate Hs.
Defined.

(** ** The store *)
Lemma childless (fs : fsys) (p : path) :
  has_children fs p = false -> forall q, parent q = Some p -> fs !! q = None.
Proof.
  intros Hc q Hq. destruct (fs !! q) as [n|] eqn:E; [|done]. exfalso.
  assert (has_children fs p = true); [|congruence]. apply existsb_exists. exists (q, n).
  split; [apply list_elem_of_In; by apply elem_of_map_to_list|]. by apply bool_decide_eq_true.
Qed.
Definition no_file (fs : fsys) (ps : list path) : bool := forallb (fun q => negb (is_file fs q)) ps.
Lemma no_file_way (fs : fsys) (ps : list path) : no_file fs ps = true -> forall q, q ∈ ps -> is_file fs q = false.
Proof.
  intros Hn q Hq. unfold no_file in Hn. rewrite forallb_forall in Hn. apply negb_true_iff, Hn.
  by apply list_elem_of_In.
Qed.
(** What [ready] asks, decided. *)
Definition readyb (st : Store) (w : World) : bool :=
  no_file (w_fs w) (way (st_repo_dir st))
  && negb (match w_fs w !! state_path st with Some (Dir _) => true | _ => false end)
  && negb (match w_fs w !! temp_path (state_path st) with Some (Dir _) => true | _ => false end)
  && (match w_fs w !! path_for (state_path st) with None => true | Some _ => false end)
  && negb (has_children (w_fs w) (path_for (state_path st)))
  && (match st_repo_dir st with [] => false | _ => true end).
Lemma readyb_sound st w s : quiet w -> readyb st w = true -> on_disk st w s -> ready st w.
Proof.
  intros Hq Hb Hd. unfold readyb in Hb. rewrite !andb_true_iff, !negb_true_iff in Hb.
  destruct Hb as (((((H1 & H2) & H3) & H4) & H5) & H6). constructor; [done| |by apply no_file_way| | | |by apply childless|by eexists].
  - by destruct (st_repo_dir st).
  - unfold free_of_dir. by destruct (w_fs w !! state_path st) as [[]|].
  - unfold free_of_dir. by destruct (w_fs w !! temp_path (state_path st)) as [[]|].
  - by destruct (w_fs w !! path_for (state_path st)).
Qed.
Lemma demo_repo_dir : st_repo_dir demo_store <> [].
Proof. discriminate. Qed.
Lemma ready_admitted : ready demo_store w_admitted.
Proof. apply (readyb_sound demo_store w_admitted (doc w_admitted)); [done|vm_compute; reflexivity..]. Qed.

(** Seeding and completing one branch of the demonstration store. *)
Lemma store_refines_witness :
  implements demo_store (seed_cursor demo_store "main" rev_a) (spec_seed "main" rev_a) /\
  implements_rel demo_store (complete demo_store demo_record) (spec_complete_rel demo_store demo_record).
Proof.
  destruct (store_refines demo_store) as (Hs & _ & _ & _ & _ & _ & Hc). split; [apply Hs; reflexivity|].
  apply Hc. split; [apply demo_record_wf|]. by vm_compute.
Defined.

Lemma store_answers_witness :
  exactly demo_store (admit_range demo_store "main" rev_b) (spec_admit "main" rev_b).
Proof.
  destruct (store_answers demo_store demo_repo_dir) as (_ & Ha & _). apply Ha. reflexivity.
Defined.

(** The process dies right after the record was written, before the state
    advances; a restarted one finishes. *)
Definition w_torn : World := (complete demo_store demo_record (with_fault 8 (Kill None) w_admitted)).2.
Definition w_restarted : World :=
  sim_world (delete (path_for (state_path demo_store)) (w_fs w_torn)) (demo_start + 60000) sim_silent.
Definition w_struck : World := with_fault 8 (Kill None) w_admitted.
Lemma ready_restarted : ready demo_store w_restarted.
Proof. apply (readyb_sound demo_store w_restarted (doc w_restarted)); [done|vm_compute; reflexivity..]. Qed.
Lemma demo_request : well_formed_request demo_record.
Proof. split; [apply demo_record_wf|]. by vm_compute. Qed.
Lemma torn_surroundings : surroundings demo_store w_torn w_restarted.
Proof.
  split.
  - unfold same_state, file_at, file_in. unfold w_restarted. cbn [w_fs sim_world].
    rewrite lookup_delete_ne; [done|]. vm_compute. discriminate.
  - intros b h Hh. unfold present, w_restarted. cbn [w_fs sim_world]. rewrite lookup_delete_ne; [done|].
    intros Heq. apply (record_not_locked demo_store b h Hh). by left.
Qed.

(** Another process holds the lock. *)
Definition lock_dir_path : path := path_for (state_path demo_store).
Definition w_held : World :=
  mkWorld (<[lock_dir_path := Dir demo_start]> (w_fs w_seeded)) (fun _ => demo_start + 5000) 0 (fun _ => NoFault) 0
    sim_silent fresh_memory.
Lemma good_dirs (fs : fsys) (ps : list path) :
  forallb (fun q => is_dir fs q && negb (is_file fs q)) ps = true -> forall q, q ∈ ps -> good_dir fs q.
Proof.
  intros Hb q Hq. rewrite forallb_forall in Hb. specialize (Hb q (proj1 (list_elem_of_In _ _) Hq)).
  apply andb_true_iff in Hb as [H1 H2]. split; [done|]. by apply negb_true_iff.
Qed.
Lemma lock_excludes_witness :
  (with_lock demo_store (write_state demo_store default_state) w_held).1
    = Err (Lock ("Lock file is already being held: " ++ path_display lock_dir_path))
  /\ w_fs (with_lock demo_store (write_state demo_store default_state) w_held).2 = w_fs w_held.
Proof.
  apply (lock_excludes demo_store (write_state demo_store default_state) w_held).
  - split; [done|]. exists demo_start. split; [vm_compute; reflexivity|]. intros n. vm_compute. discriminate.
  - apply good_dirs. vm_compute. reflexivity.
Defined.

(** Its holder died a minute ago. *)
Definition w_stale : World := sim_world (<[lock_dir_path := Dir demo_start]> (w_fs w_seeded)) (demo_start + 60000) sim_silent.
Lemma stale_lock_reclaimed_witness :
  exists w1 t1, acquire (state_path demo_store) LOCK_STALE_AFTER w_stale = (Ok (mkLockDir lock_dir_path None), w1)
    /\ w_fs w1 = <[lock_dir_path := Dir t1]> (w_fs w_stale).
Proof.
  apply (stale_lock_reclaimed (state_path demo_store) LOCK_STALE_AFTER w_stale demo_start (st_repo_dir demo_store)).
  - done.
  - vm_compute. discriminate.
  - vm_compute. reflexivity.
  - apply no_file_way. vm_compute. reflexivity.
  - vm_compute. reflexivity.
  - exact demo_repo_dir.
  - vm_compute. reflexivity.
  - apply childless. vm_compute. reflexivity.
  - intros n. unfold w_stale. cbn [w_clock sim_world]. unfold LOCK_STALE_AFTER, MIN_STALE. lia.
Defined.

(** A run described by its result. *)
Lemma run_fst {A B} (x : A * B) a : x.1 = a -> x = (a, x.2).
Proof. destruct x. by intros <-. Qed.
Lemma run_snd {A B} (x : A * B) b : x.2 = b -> x = (x.1, b).
Proof. destruct x. by intros <-. Qed.

(** ** A daemon, git and servers that answer *)
Definition demo_profile : ReviewProfile :=
  mkProfile 1 "review-app" (Some "m/main") [mkLayer "impl" "m/large"] (Some 600) (Some 2).
Definition demo_transcript : Value :=
  VObject [("messages", VArray [
    VObject [("role", VString "assistant");
             ("content", VArray [VObject [("type", VString "toolCall"); ("name", VString "dispatch_review");
               ("id", VString "c1");
               ("arguments", VObject [("layer", VString "impl"); ("baseSha", VString rev_a); ("headSha", VString rev_b)])]])];
    VObject [("role", VString "toolResult"); ("toolCallId", VString "c1"); ("content", VString "spawned")];
    structured_reply (child_name "impl" rev_b) "no findings";
    VObject [("role", VString "assistant"); ("content", VString ("REVIEW_SYNTHESIS" ++ nl_str ++ "clean"))]])].
Definition demo_rows : list Value := default [] (message_rows demo_transcript).
Definition demo_answer (command : Value) : Value :=
  if has_str "type" "list" command
  then VObject [("sessions", VArray [VObject [("id", VString "s1"); ("sessionName", VString "review-app");
                                              ("cwd", VString "/srv/app")]])]
  else demo_transcript.
Definition demo_daemon (_ : nat) (v : Value) : list daemon_line :=
  [DLine (VObject [("id", index "id" v); ("success", VBool true); ("data", demo_answer (index "command" v))])].
Definition demo_git (args : list string) : git_answer :=
  if decide (args = current_command) then GitOut ("main" ++ nl_str)
  else if decide (args = porcelain_command) then GitOut ""
  else if decide (args = remotes_command) then GitOut ""
  else if decide (args = head_command "main") then GitOut (rev_b ++ nl_str)
  else GitFail "unexpected".
Definition demo_ext : sim_ext :=
  mkSim demo_git (Connected [DLine VNull]) demo_daemon (fun _ => HttpFailed "down") [] [] [].
Definition connected (w : World) : World :=
  mkWorld (w_fs w) (w_clock w) (w_tick w) (w_fault w) (w_op w) demo_ext
    (mkMemory (Some (mkClient 0 [])) (m_woken (w_mem w))).

(** ** The client *)
Definition list_command : Value := VObject [("type", VString "list")].
Definition demo_reply (n : Z) : Value :=
  VObject [("id", VString (request_id n)); ("success", VBool true); ("data", demo_answer list_command)].
Lemma request_reply_is_own_witness :
  get_str "id" (demo_reply 1) = Some "big-brother-1".
Proof.
  destruct (request_reply_is_own list_command (connected w_fresh) (demo_reply 1)
    (request list_command (connected w_fresh)).2) as (c & Hc & Hid & _);
    [apply run_fst; vm_compute; reflexivity|].
  rewrite Hid. injection Hc as <-. vm_compute. reflexivity.
Defined.
Definition w_late : World :=
  set_mem (mkMemory (Some (mkClient 4 [DLine (demo_reply 2); DLine (demo_reply 4)])) ∅) (connected w_fresh).
Lemma late_replies_are_skipped_witness : (request list_command w_late).1 = Ok (demo_reply 5).
Proof.
  apply (late_replies_are_skipped list_command w_late (mkClient 4 [DLine (demo_reply 2); DLine (demo_reply 4)])
    (daemon_send (w_ext w_late) (envelope (request_id 5) list_command)).1 (demo_reply 5) []).
  - reflexivity.
  - vm_compute. split; [discriminate|reflexivity].
  - apply Forall_cons. split; [exists (demo_reply 2), 2; split_and!; [done|done|lia|cbn; lia]|].
    apply Forall_cons. split; [exists (demo_reply 4), 4; split_and!; [done|done|lia|cbn; lia]|constructor].
  - apply run_snd. vm_compute. reflexivity.
  - reflexivity.
  - reflexivity.
Defined.

(** ** Git *)
Lemma sync_guarded_witness :
  exists cmds, cmds `prefix_of` sync_plan "main" /\
    (fetch_and_fast_forward demo_root "main" (connected w_fresh)).2
      = set_ext (run_commands demo_root demo_ext cmds) (connected w_fresh).
Proof.
  destruct (sync_guarded demo_root "main" (connected w_fresh)
    (fetch_and_fast_forward demo_root "main" (connected w_fresh)).1
    (fetch_and_fast_forward demo_root "main" (connected w_fresh)).2) as (cmds & Hp & He & _);
    [apply surjective_pairing|]. exists cmds. split; [exact Hp|exact He].
Defined.
Lemma github_slug_forms_witness :
  parse_github_slug "https://token:x@github.com/octo/big-brother.git" = Some "octo/big-brother".
Proof.
  apply (github_slug_forms "octo" "big-brother" ".git" "token:x"); [vm_compute; reflexivity..|right; reflexivity|vm_compute; reflexivity].
Defined.

(** ** Harvest *)
Definition demo_harvest : HarvestedReview :=
  mkHarvested rev_a rev_b [mkHarvestedLayer "impl" "no findings"] [] [] "clean".
Lemma harvest_answers_witness : last_reply "impl" rev_b demo_rows = Some "no findings".
Proof.
  destruct (harvest_answers demo_transcript ∅ demo_harvest demo_rows) as [Ha _]; [vm_compute; reflexivity..|].
  destruct (Ha "impl" "no findings") as [H|[_ H]]; [left|exact H|].
  exfalso. vm_compute in H. discriminate H.
Defined.
Lemma harvest_conclusion_witness :
  exists i text, synthesis_at demo_rows i text /\ unwrap_synthesis text = "clean".
Proof.
  destruct (harvest_conclusion demo_transcript ∅ demo_harvest demo_rows) as (i & text & Hs & Hc & _);
    [vm_compute; reflexivity..|]. exists i, text. split; [exact Hs|]. symmetry. exact Hc.
Defined.
Lemma unwrap_synthesis_spec_witness :
  unwrap_synthesis (("noise" ++ nl_str) ++ (SYNTHESIS_MARKER ++ nl_str) ++ " done ") = "done".
Proof.
  apply (unwrap_synthesis_spec ("noise" ++ nl_str) " done ").
  - right. exists "noise". reflexivity.
  - constructor; [vm_compute; reflexivity|constructor].
  - vm_compute. reflexivity.
Defined.
Lemma child_reply_named_witness :
  child_reply (rendered_reply (child_name "project-fit" rev_b) "fine") = Some ("project-fit", rev_b, "fine").
Proof. apply (child_reply_named "project-fit" rev_b "fine"); [discriminate|vm_compute; reflexivity..]. Defined.

(** ** Profile *)
Definition demo_profile_path : path := profile_path demo_agent demo_root.
Definition demo_profile_bytes : Bytes := SimJson (encode demo_profile).
Definition w_profile : World := sim_world {[demo_profile_path := File demo_profile_bytes]} demo_start sim_silent.
Lemma demo_profile_wf : codec_wf demo_profile.
Proof. by vm_compute. Qed.
Lemma load_profile_round_trip_witness :
  (load_profile_at demo_profile_path w_profile).1 = Ok (Some demo_profile).
Proof.
  rewrite (load_profile_round_trip demo_profile_path demo_profile demo_profile_bytes w_profile);
    [vm_compute; reflexivity|done|apply demo_profile_wf|reflexivity|vm_compute; reflexivity].
Defined.

(** ** Delivery *)
Lemma retry_spacing_witness :
  retry_due (Some (advance None (iso_from_unix_ms demo_start) (Some "down"))) (demo_start + 59999) = false /\
  retry_due (Some (advance None (iso_from_unix_ms demo_start) (Some "down"))) (demo_start + 60000) = true.
Proof.
  rewrite !(retry_spacing None demo_start (Some "down")); [vm_compute; split; reflexivity|vm_compute; split; [discriminate|reflexivity]..].
Defined.
Definition sent_record : ReviewRecord :=
  set_delivery BARK_CHANNEL (advance None (iso_from_unix_ms demo_start) None) demo_record.
Definition bark_only : DeliveryChannels := mkChannels (Some (mkBark "key" "https://api.day.app")) None.
Lemma delivered_not_resent_witness :
  deliver_record demo_store bark_only "main" sent_record None "app" w_completed = (Ok tt, bump_tick w_completed).
Proof.
  apply (delivered_not_resent demo_store bark_only "main" sent_record None "app" w_completed).
  - intros d Hd. exfalso. vm_compute in Hd. discriminate Hd.
  - intros d Hd. vm_compute in Hd. injection Hd as <-. reflexivity.
  - intros Hc. by destruct Hc.
  - intros _. vm_compute. by eexists.
Defined.
Definition demo_delivery : DeliveryState := advance None (iso_from_unix_ms demo_start) None.
Lemma delivery_update_touches_one_channel_witness :
  file_at (update_delivery demo_store "main" rev_b BARK_CHANNEL demo_delivery w_completed).2 (state_path demo_store)
  = file_at w_completed (state_path demo_store).
Proof.
  apply (delivery_update_touches_one_channel demo_store "main" rev_b BARK_CHANNEL demo_delivery w_completed
    (state_path demo_store)); [reflexivity|vm_compute; split; discriminate|vm_compute; discriminate..|].
  apply (state_not_locked demo_store).
Defined.

(** ** Query *)
Definition demo_query : QueryOptions := mkQuery demo_agent demo_root.
Definition w_enrolled : World :=
  sim_world (<[(demo_root ++ [".git"])%list := Dir 0]> (<[demo_profile_path := File demo_profile_bytes]> (w_fs w_admitted)))
    (demo_start + 1000) demo_ext.
Definition demo_status : RepositoryStatus :=
  match (load_repository_status demo_query w_enrolled).1 with Ok s => s | _ => mkRepositoryStatus [] [] end.
Lemma query_reports_state_witness :
  exists s, on_disk demo_store w_enrolled s /\ bs_name <$> rs_branches demo_status = btree_keys (s_branches s) /\
    (bs_name <$> rs_branches demo_status) = ["main"].
Proof.
  destruct (query_reports_state demo_query w_enrolled demo_status (load_repository_status demo_query w_enrolled).2)
    as (s & Hd & _ & Hn & _); [apply run_fst; vm_compute; reflexivity|].
  exists s. split_and!; [exact Hd|exact Hn|vm_compute; reflexivity].
Defined.

(** ** The watch service *)

(** The files of a concrete world, decided. *)
Definition all_files (P : path -> bool) (w : World) : bool :=
  forallb (fun e => match snd e with File _ => P (fst e) | Dir _ => true end) (map_to_list (w_fs w)).
Lemma all_files_sound P w q b : all_files P w = true -> file_at w q = Some b -> P q = true.
Proof.
  intros Hall Hf. unfold file_at, file_in in Hf. destruct (w_fs w !! q) as [[c|]|] eqn:E; try done.
  unfold all_files in Hall. rewrite forallb_forall in Hall.
  apply (Hall (q, File c)). apply list_elem_of_In. by apply elem_of_map_to_list.
Qed.
Lemma filed_without_records st w :
  all_files (fun q => negb (bool_decide ("records" ∈ q))) w = true -> filed_inv st w.
Proof.
  intros Hall q b Hq Hb. exfalso. apply (all_files_sound _ _ _ _ Hall) in Hb.
  apply negb_true_iff, bool_decide_eq_false in Hb. apply Hb.
  apply record_file_shape in Hq as (mid & c & -> & _). set_solver.
Qed.
Lemma fleet_of_one (root dir : path) (seeds : path -> gset (string * string)) w :
  all_files (fun q => negb (bool_decide ("records" ∈ q))) w = true ->
  all_files (fun q => negb (bool_decide (last q = Some "state.json")) || bool_decide (q = (dir ++ ["state.json"])%list)) w = true ->
  state_inv (mkStore dir []) (seeds dir) w -> fleet_inv root seeds w.
Proof.
  intros Hrec Hst Hinv st Hp. split; [|by apply filed_without_records].
  destruct (decide (st_repo_dir st = dir)) as [<-|Hne].
  - destruct st as [d r]. apply (store_inv_root d [] r). split; [exact Hinv|by apply filed_without_records].
  - intros s Hd. unfold on_disk in Hd. destruct (file_at w (state_path st)) as [b|] eqn:E.
    + exfalso. apply (all_files_sound _ _ _ _ Hst) in E. rewrite state_path_eq, last_snoc_path in E.
      rewrite bool_decide_true in E by done. apply bool_decide_eq_true in E. by apply app_inj_2 in E as [? _].
    + rewrite Hd. apply map_Forall_empty.
Qed.

Definition demo_seeds (_ : path) : gset (string * string) := {[("main", rev_a)]}.
Definition demo_options : ObserverOptions := mkObserverOptions ["/"; "sock"] demo_agent true.
Lemma enrolled_surroundings : surroundings demo_store w_admitted w_enrolled.
Proof.
  split; [vm_compute; reflexivity|]. intros b h Hh [n Hn]. unfold present, w_enrolled. cbn [w_fs sim_world].
  destruct (decide ((demo_root ++ [".git"])%list = record_path demo_store b h)) as [<-|H1]; [rewrite lookup_insert_eq; by eexists|].
  rewrite lookup_insert_ne by done.
  destruct (decide (demo_profile_path = record_path demo_store b h)) as [<-|H2]; [rewrite lookup_insert_eq; by eexists|].
  rewrite lookup_insert_ne by done. by exists n.
Qed.
Lemma fleet_enrolled : fleet_inv (repos_root demo_agent) demo_seeds w_enrolled.
Proof.
  apply (fleet_of_one _ (st_repo_dir demo_store)); [vm_compute; reflexivity..|].
  apply (store_inv_root _ demo_root []). split; [|apply filed_without_records; vm_compute; reflexivity].
  apply (reach_inv demo_store). eapply reach_world; [apply enrolled_surroundings|apply reach_admitted].
Qed.

(** One scan in which the conductor has finished: the review completes. *)
Definition no_env (_ : string) : option string := None.
Definition w_scanned : World := (run_observer 1 no_env demo_options w_enrolled).2.
Lemma scans_keep_fleet_witness :
  fleet_inv (repos_root demo_agent) demo_seeds w_scanned /\ b_cursor (branch_doc w_scanned) = Some rev_b.
Proof.
  split; [|vm_compute; reflexivity].
  exact (scans_keep_fleet demo_seeds 1 no_env demo_options w_enrolled fleet_enrolled).
Defined.
Lemma observation_stays_home_witness :
  file_at (observe_repo ["/"; "sock"] (st_repo_dir demo_store) bark_only w_enrolled).2 (demo_root ++ ["src.rs"])%list
  = file_at w_enrolled (demo_root ++ ["src.rs"])%list.
Proof.
  apply (observation_stays_home ["/"; "sock"] (st_repo_dir demo_store) bark_only w_enrolled (demo_root ++ ["src.rs"])%list).
  - apply filed_without_records. vm_compute. reflexivity.
  - intros [rest Hr]. vm_compute in Hr. discriminate Hr.
Defined.
Definition w_reviewing : World := connected w_admitted.
Definition demo_range : ReviewRange := range_doc w_admitted.
Lemma ready_reviewing : ready demo_store w_reviewing.
Proof. apply (readyb_sound demo_store w_reviewing (doc w_admitted)); [done|vm_compute; reflexivity..]. Qed.
(** The conductor accepts one wake; the next one within the attempt is silent. *)
Definition w_woken : World := (rewake demo_profile demo_range w_reviewing).2.
Lemma wake_at_most_once_witness :
  (rewake demo_profile demo_range w_reviewing).1 = Ok tt /\
  (rewake demo_profile demo_range w_woken).1 = Ok tt /\
  w_ext (rewake demo_profile demo_range w_woken).2 = w_ext w_woken.
Proof.
  assert ((rewake demo_profile demo_range w_reviewing).1 = Ok tt) as Hok by (vm_compute; reflexivity).
  split; [exact Hok|]. apply (wake_at_most_once demo_profile demo_range w_woken).
  apply (wake_at_most_once demo_profile demo_range w_reviewing). exact Hok.
Defined.

Lemma supervision_outcome_witness :
  exists s' bs' t, on_disk demo_store (supervise_failure demo_store demo_profile "main" demo_range "timed_out" w_reviewing).2 s'
    /\ s_branches s' !! "main" = Some bs'
    /\ b_in_flight bs' = Some (mkRange rev_a rev_b (r_admitted_at demo_range) 2 t).
Proof.
  assert ((max_attempts demo_profile <=? r_attempts demo_range) = false) as Hlt by (vm_compute; reflexivity).
  assert (mkRange (r_base demo_range) (r_head demo_range) (r_admitted_at demo_range) (r_attempts demo_range + 1)
    = mkRange rev_a rev_b (r_admitted_at demo_range) 2) as Hr by (vm_compute; reflexivity).
  pose proof (supervision_outcome demo_store demo_profile "main" demo_range "timed_out" w_reviewing
    (doc w_admitted) (branch_doc w_admitted)) as H. rewrite Hlt, Hr in H.
  destruct H as (_ & _ & s' & bs' & t & Hd & Hb & _ & Hf & _).
  - exact ready_reviewing.
  - by eexists.
  - vm_compute. reflexivity.
  - vm_compute. reflexivity.
  - vm_compute. reflexivity.
  - vm_compute. split; discriminate.
  - exists s', bs', t. split_and!; [exact Hd|exact Hb|exact Hf].
Defined.

(** The work tree has another branch checked out. *)
Definition off_branch_git (args : list string) : git_answer :=
  if decide (args = current_command) then GitOut "dev" else GitFail "unexpected".
Definition w_off_branch : World :=
  set_ext (mkSim off_branch_git (ConnectFailed "") (fun _ _ => []) (fun _ => HttpFailed "") [] [] []) w_seeded.
Definition w_off_observed : World := (observe_branch demo_store demo_profile demo_root "main" w_off_branch).2.
Lemma unsynced_branch_waits_witness :
  b_in_flight (branch_doc w_off_observed) = None /\
  exists t, b_last_observation_failure (branch_doc w_off_observed)
    = Some (mkObsFailure "wrong_branch" (sync_error_display (WrongBranch "dev" "main")) t).
Proof.
  destruct (unsynced_branch_waits demo_store demo_profile demo_root "main" (WrongBranch "dev" "main") w_off_branch
    (fetch_and_fast_forward demo_root "main" w_off_branch).2 (doc w_off_branch) (doc w_off_observed)) as [Ha Hb].
  - apply run_fst. vm_compute. reflexivity.
  - vm_compute. reflexivity.
  - vm_compute. reflexivity.
  - split.
    + destruct (Ha "main") as [_ Hf]. unfold branch_doc. rewrite Hf. vm_compute. reflexivity.
    + apply Hb. vm_compute. reflexivity.
Defined.

(** ** Enrollment *)
Definition demo_init : InitOptions :=
  mkInitOptions ["/"; "sock"] demo_agent demo_root None None (Some "m/main") [("impl", "m/large"); ("impl", "m/huge")] None None.
Lemma built_profile_valid_witness :
  exists p, build_profile demo_init demo_root = inr p /\ profile_ok p /\ layer_model p "impl" = Some "m/huge"
    /\ layer_model p "requirements" = Some "m/main".
Proof.
  destruct (build_profile demo_init demo_root) as [e|p] eqn:E; [exfalso; vm_compute in E; discriminate E|].
  exists p. destruct (built_profile_valid demo_init demo_root "m/main" p) as [Hok Hm].
  - reflexivity.
  - exact E.
  - vm_compute. reflexivity.
  - intros n Hn. discriminate Hn.
  - repeat constructor; vm_compute; reflexivity.
  - discriminate.
  - discriminate.
  - split_and!; [reflexivity|exact Hok|rewrite Hm; vm_compute; reflexivity..].
Defined.
Definition w_unenrolled : World := sim_world {[(demo_root ++ [".git"])%list := Dir 0]} demo_start demo_ext.
Definition demo_outcome : InitOutcome :=
  match (run_init demo_init w_unenrolled).1 with Ok o => o | _ => mkInitOutcome [] "" "" "" false [] [] end.
Lemma enrollment_seeds_witness :
  exists s bs, on_disk demo_store (run_init demo_init w_unenrolled).2 s /\ s_branches s !! "main" = Some bs
    /\ b_cursor bs = Some rev_b.
Proof.
  destruct (enrollment_seeds demo_init w_unenrolled demo_outcome (run_init demo_init w_unenrolled).2)
    as (_ & _ & s & bs & Hd & Hb & Hc & _); [apply run_fst; vm_compute; reflexivity|].
  exists s, bs. split_and!; [exact Hd|exact Hb|exact Hc].
Defined.

(** ** Dispatch: a host that is the table of its children *)
#[export] Instance table_host : ChildHost := {|
  Host := gmap string holder;
  holds h n := h !! n;
  clear _ _ := True;
  spawn h r := match sp_name r with
               | Some n => match h !! n with
                           | None => (<[n := Running]> h, inr ("child of " ++ n))
                           | Some _ => (h, inl (anyhow_msg "the name is taken"))
                           end
               | None => (h, inr "unnamed")
               end;
  retire_dead_child_name h n := match h !! n with
                                | None => (h, inr "not_found")
                                | Some Running => (h, inr "running")
                                | Some Settled => (delete n h, inr "deleted")
                                end
|}.
#[export] Instance table_host_ok : ChildHostOk.
Proof.
  constructor; cbn.
  - intros h r n Hn Hh. rewrite Hn. destruct (h !! n); [by eauto|done].
  - intros h h' r e. destruct (sp_name r) as [n|]; [|done]. destruct (h !! n); intros [= <- _]. done.
  - intros h h' r n id Hn. rewrite Hn. destruct (h !! n) eqn:E; [done|]. intros [= <- _].
    split; [by rewrite lookup_insert_eq|]. intros m Hm. by rewrite lookup_insert_ne.
  - intros h n _ Hn. rewrite Hn. by eexists.
  - intros h n _ Hn. rewrite Hn. by eexists.
  - intros h h' n _. destruct (h !! n) as [[]|] eqn:E; [done| |done]. intros [= <-].
    split_and!; [done|by rewrite lookup_delete_eq|]. intros m Hm. by rewrite lookup_delete_ne.
  - intros h h' n v. destruct (h !! n) as [[]|]; intros [= <- <-]; done.
Qed.
Definition demo_params : Value :=
  VObject [("layer", VString "impl"); ("baseSha", VString rev_a); ("headSha", VString rev_b)].
Definition settled_host : Host := {[layer_child "impl" rev_b := Settled]}.
Definition no_debug (_ : anyhow + string) : string := "".
Definition demo_dispatched : Host * (anyhow + string) := dispatch_review no_debug demo_profile settled_host demo_params.
Lemma dispatch_spawns_reviewer_witness : holds demo_dispatched.1 (layer_child "impl" rev_b) = Some Running.
Proof.
  destruct (dispatch_spawns_reviewer no_debug demo_profile settled_host demo_params demo_dispatched.1
    (spawned_text (mkDispatchArgs "impl" rev_a rev_b) ("child of " ++ layer_child "impl" rev_b)))
    as (layer & base & head & model & Hl & _ & Hh & _ & _ & Hrun & _).
  - intros. exact I.
  - apply run_snd. vm_compute. reflexivity.
  - injection Hl as <-. injection Hh as <-. exact Hrun.
Defined.

(** ** Command lines *)
Lemma init_arguments_round_trip_witness :
  parse_init ["--main-model"; "m/main"; "--max-attempts"; "5"; "--layer"; "impl=m/a=b"] no_init_args
  = inr (mkInitArgs None None None None None (Some "m/main") [("impl", "m/a=b")] None (Some 5)).
Proof.
  apply (init_arguments_round_trip None None None None None (Some "m/main") [("impl", "m/a=b")] None (Some 5)).
  - repeat constructor.
  - intros n Hn. discriminate Hn.
  - intros n Hn. injection Hn as <-. vm_compute. split; discriminate.
Defined.

(** ** What the model showed

    Behaviours that differ from what a comment, a document or the surrounding
    code says, each as an evaluation of the model in the simulated
    environment. *)
(** [git] trims its output, so the first porcelain line loses its leading
    space and its path is cut one byte late: Big Brother's own modified asset
    counts as a user change ... *)
Example own_asset_is_a_user_change :
  has_user_changes (trim (" M .big-brother/overview.md" ++ nl_str)) = true /\
  has_user_changes (trim ("?? .big-brother/overview.md" ++ nl_str)) = false.
Proof. vm_compute. split; reflexivity. Qed.
(** ... and a user's file can pass for an asset. *)
Example user_change_is_an_asset : has_user_changes (trim (" M x.big-brother/y" ++ nl_str)) = false.
Proof. vm_compute. reflexivity. Qed.

(** Two branches whose names sanitize alike share their record directory: the
    second completion keeps the first branch's record, and reading the second
    branch's records fails. *)
Definition branch_record (b : string) : ReviewRecord := mkRecord 1 b rev_a rev_b 1 "" [] (Some b) ∅.
Definition reviewed_branch (b : string) (w : World) : World :=
  foldl (fun w o => run_op demo_store o w) w [OpSeed b rev_a; OpAdmit b rev_b; OpComplete (branch_record b)].
Definition w_collision : World := reviewed_branch "feat-x" (reviewed_branch "feat/x" w_fresh).
Example branches_share_records :
  b_cursor (branch_entry "feat-x" (doc w_collision)) = Some rev_b /\
  (records demo_store "feat-x" w_collision).1
  = Err (RecordBranchMismatch (record_path demo_store "feat-x" rev_b) "feat/x" "feat-x").
Proof. vm_compute. split; reflexivity. Qed.

(** Re-seeding the same revision is refused while a range is in flight. *)
Example reseed_refused_in_flight :
  (seed_cursor demo_store "main" rev_a w_admitted).1 = Err (Reseed "main" rev_a rev_a).
Proof. vm_compute. reflexivity. Qed.

(** A range that failed at its ceiling is admitted again, attempts from one. *)
Definition w_failed : World := run_op demo_store (OpFail "main" rev_b "timed_out") w_admitted.
Example failed_range_returns :
  exists t1 t2, (admit_range demo_store "main" rev_b w_failed).1 = Ok (AdmittedRange (mkRange rev_a rev_b t1 1 t2)).
Proof. eexists _, _. vm_compute. reflexivity. Qed.

(** The observer takes a profile the loader refuses. *)
Definition zero_profile : ReviewProfile := mkProfile 1 "review-app" None [] None (Some 0).
Definition w_zero : World :=
  sim_world {[demo_profile_path := File (SimJson (encode zero_profile) : Bytes)]} demo_start sim_silent.
Example observer_skips_validation :
  (resolve_profile_from_repo_dir (st_repo_dir demo_store) w_zero).1 = Ok (Some zero_profile) /\
  is_ok (load_profile_at demo_profile_path w_zero).1 = false.
Proof. vm_compute. split; reflexivity. Qed.

(** An enrollment refused for a name collision has already seeded the cursor
    and written the profile: the observer watches the repository and wakes the
    colliding session. *)
Definition taken_answer (command : Value) : Value :=
  VObject [("sessions", VArray [VObject [("id", VString "s1"); ("sessionName", VString "review-app");
                                         ("cwd", VString "/somewhere/else")]])].
Definition taken_daemon (_ : nat) (v : Value) : list daemon_line :=
  [DLine (VObject [("id", index "id" v); ("success", VBool true); ("data", taken_answer v)])].
Definition w_taken : World :=
  sim_world {[(demo_root ++ [".git"])%list := Dir 0]} demo_start
    (mkSim demo_git (Connected [DLine VNull]) taken_daemon (fun _ => HttpFailed "down") [] [] []).
Definition w_refused : World := (run_init demo_init w_taken).2.
Example refused_enrollment_is_watched :
  is_ok (run_init demo_init w_taken).1 = false /\ b_cursor (branch_doc w_refused) = Some rev_b /\
  is_ok (resolve_profile_from_repo_dir (st_repo_dir demo_store) w_refused).1 = true.
Proof. vm_compute. split_and!; reflexivity. Qed.

(** A death while the profile is being written leaves a torn profile that
    every later enrollment trips over. *)
Definition w_profile_torn : World :=
  (ensure_profile demo_init demo_root (with_fault 3 (Kill (Some (SimText "{" : Bytes))) w_unenrolled)).2.
Example torn_profile_blocks_enrollment :
  (ensure_profile demo_init demo_root (restart (demo_start + 1000) w_profile_torn)).1
  = Err (profile_err (PMalformed demo_profile_path "expected value")).
Proof. vm_compute. reflexivity. Qed.

(** A layer that was dispatched for an earlier range and has left the profile
    since stays in the conductor's transcript: no later range is harvested. *)
Definition dispatch_row (layer base head : string) : Value :=
  VObject [("role", VString "assistant");
           ("content", VArray [VObject [("type", VString "toolCall"); ("name", VString "dispatch_review");
             ("id", VString "c"); ("arguments", VObject [("layer", VString layer); ("baseSha", VString base);
                                                          ("headSha", VString head)])]])].
Example dropped_layer_wedges_harvest :
  harvest_review (VObject [("messages", VArray (dispatch_row "style" rev_b rev_a :: demo_rows))]) ∅
  = inl (MismatchedRange (rev_b ++ ".." ++ rev_a) (rev_a ++ ".." ++ rev_b)).
Proof. vm_compute. reflexivity. Qed.

(** Without a marker line the whole text is the synthesis, which the
    conductor's prompt calls lost. *)
Example unmarked_synthesis_kept : unwrap_synthesis "all good" = "all good".
Proof. vm_compute. reflexivity. Qed.
